(* ===== verification/_CoqProject ===== *)
-Q . S2P
Prelude.v
Text.v
HostFs.v
HostFacts.v
Common.v
WriteInterceptor.v
Safeguard.v
UndoLog.v
UndoInterceptor.v
UndoHooks.v
UndoEvict.v
UndoFacts.v
UndoCapture.v
UndoSteps.v
UndoCorrect.v
UndoTheorems.v
UndoLife.v
StdioProtocol.v
McpProtocol.v
ControlProtocol.v
ControlHandler.v
ControlTheorems.v
ControlUndo.v
CommandWaiter.v
PathValidation.v
Stdio.v
Mcp.v
RecentWrites.v
Classifier.v
ClassifierFacts.v
P9Wire.v
P9Messages.v
P9Codec.v
P9Ops.v
P9Server.v
P9Sim.v
P9Total.v
P9Loop.v
P9Facts.v
UndoBackend.v
P9Undo.v
P9Session.v
InodeMap.v
Fuse.v
FileSystem.v
Descriptors.v
FuseServer.v
FuseFacts.v
FuseCalls.v
FuseListing.v
FusePanic.v
SoftIdMap.v
XattrMap.v
InodeStore.v
InodeRefs.v
InodeLife.v
ReadDir.v
PassthroughHost.v
ReadOnly.v
Passthrough.v
PassthroughOps.v
PassthroughRefs.v
PassthroughSession.v
PassthroughHandles.v
VirtioFs.v
VirtioUndo.v
VirtioSession.v
FuseSession.v
FsWatcher.v
FsWatcherFacts.v
Qemu.v
QemuFacts.v
Orchestrator.v
OrchestratorFacts.v
OrchestratorTools.v
SessionLife.v
SearchTools.v
SessionRequests.v
ToolPaths.v
SessionBash.v
