(* ===== verification/Prelude.v ===== *)
(** * Code Agent Sandbox: a verification development

    The program runs the commands of a coding agent in a virtual machine that
    shares working directories with the host, and keeps an undo log so that what
    a command did to a directory can be taken back.

    ** The parts and how they interact

    A client talks to the sandbox by lines of JSON (the STDIO API) or as an MCP
    client.  The router of either interface validates paths and hands the request
    to the orchestrator, which owns the session: one undo interceptor per working
    directory, the virtual machine, the control channel to the guest and the
    filesystem watcher.  A command goes to the guest over the control channel; the
    control handler opens an undo step when it starts and closes it when the
    filesystem has become quiet after its end.  The guest reaches the working
    directories through one of two backends, the 9P server or the virtio-fs
    device, which is a FUSE server over a file system that wraps virtiofsd's
    passthrough file system.  Both backends call the write interceptor around
    every change.  The interceptor logs the preimage of each path at its first
    change in a step; a rollback restores the preimages.  Changes that come from
    outside are seen by the watcher, which sets a barrier that an unforced
    rollback does not cross; the sandbox's own writes are recorded so that the
    watcher can tell them apart.

    ** Conventions

    A Rust [Result] is an [outcome]: [Ok], [Err] or [Panic].  Code with state is a
    function of the state monad [stm S E A] of this file, [stm S E A] being
    [S → outcome E A * S]; the notation [x ← m; k] is the [?] operator.  A
    computation over a part of the state is [zoom]ed.  [guarantees R m] says that
    the state after [m] is [R]-related to the one before, [never_panics m] what it
    says, and [guarantee] and [no_panic] prove them by the structure of the code.
    Integers are [Z]; where the width matters the wrap-around is written out
    ([as_u64], [as_i32]), and an overflow that a checked build refuses is [Panic].
    An asynchronous or threaded part is a set of steps of which any may come next;
    code that holds a lock for its whole length is one step.  Third-party code
    ([serde_json], hashing, compression, regular expressions, the notify, range-map
    and vhost crates) and the operating system are type classes; what a proof needs
    of them are laws in a class of their own, and each theorem with such laws is
    applied to a concrete instance in its witness.

    ** Files and sources (below [src/crates/])

    Generic: [Prelude] (this file), [Text] (characters, decimal numbers),
    [HostFs] and [HostFacts] (the file tree of a Unix host and [std::fs] on it),
    [Common] ([common/src/lib.rs], [sandbox/src/error.rs]).

    The undo log ([interceptor/src]): [WriteInterceptor] (the trait that the
    backends call), [Safeguard] ([safeguard.rs]), [UndoLog] ([manifest.rs],
    [preimage.rs], [rollback.rs]), [UndoInterceptor] ([undo_interceptor.rs],
    [resource_limits.rs]; the state is the working tree, the undo directory and the
    object), [UndoHooks] (the interceptor as a [WriteInterceptor]; [history.rs]).
    The proofs are [UndoEvict] (limits), [UndoFacts], [UndoCapture], [UndoSteps],
    [UndoCorrect] (a step is complete, and rolling it back restores the tree),
    [UndoTheorems] (the guarantees), [UndoLife] (identifiers, refusals, and where
    undo does not restore).  [UndoBackend] is what a backend uses of them.

    The control channel ([control/src]): [ControlProtocol] ([protocol.rs],
    [parser.rs], [state_machine.rs]), [ControlHandler] ([handler.rs],
    [in_flight.rs]; its spawned tasks are values in its state), [ControlTheorems]
    (proved against the class [StepManagerLaws]), [ControlUndo] (the interceptor is
    an instance).

    The interfaces: [StdioProtocol], [Stdio] ([stdio/src]), [McpProtocol], [Mcp]
    ([mcp/src], the router of [sandbox/src/socket_server.rs]), [PathValidation]
    ([path_validation.rs] of both).

    The sandbox ([sandbox/src]): [CommandWaiter] ([command_waiter.rs],
    [event_bridge.rs]), [RecentWrites] ([recent_writes.rs]), [Classifier] and
    [ClassifierFacts] ([command_classifier.rs]), [FsWatcher] and [FsWatcherFacts]
    ([fs_watcher.rs]), [Qemu] and [QemuFacts] ([qemu.rs]), [Orchestrator],
    [OrchestratorFacts], [OrchestratorTools], [SearchTools], [SessionLife],
    [SessionRequests] ([orchestrator.rs], [session.rs], [config.rs],
    [control_bridge.rs]), [ToolPaths] (the two readings of the path of a tool
    call), [SessionBash] (a command from its request to its undo).

    The 9P server ([p9/src]): [P9Wire] ([error.rs], [wire.rs], [qid.rs]),
    [P9Messages] and [P9Codec] ([messages.rs], all 57 messages), [P9Ops] ([fid.rs],
    [operations/], [platform/unix.rs]), [P9Server] ([server.rs]), and the proofs
    [P9Sim], [P9Total], [P9Loop], [P9Facts], [P9Undo] and [P9Session].

    The FUSE server ([virtiofsd-fork/src]): [Fuse] ([fuse.rs]), [FileSystem]
    ([filesystem.rs]; the methods are the constructors of [operation]),
    [Descriptors] ([descriptor_utils.rs]), [FuseServer] ([server.rs]), and the
    proofs [FuseFacts], [FuseCalls], [FuseListing] and [FusePanic].

    The passthrough file system ([virtiofsd-fork/src]): [SoftIdMap] ([soft_idmap/],
    [idmap.rs]), [XattrMap] ([passthrough/xattrmap.rs]), [InodeStore]
    ([passthrough/inode_store.rs], [file_handle.rs]) with [InodeRefs] and
    [InodeLife], [ReadDir] ([read_dir.rs]), [ReadOnly] ([passthrough/read_only.rs]),
    [PassthroughHost] (the state, and the system calls as the class [Host]),
    [Passthrough] and [PassthroughOps] ([passthrough/mod.rs] with
    [credentials.rs], [guest_fd_limit.rs], [stat.rs], [util.rs] and the migration
    information of [device_state/preserialization/]), and the proofs
    [PassthroughRefs], [PassthroughSession] and [PassthroughHandles].

    The virtio-fs backend ([virtiofs-backend/src]): [InodeMap] ([inode_map.rs]),
    [VirtioFs] ([intercepted_fs.rs]), [VirtioUndo], [VirtioSession] (sessions of
    requests), [FuseSession] (sessions of messages in guest memory).

    ** What the theorems show

    - Undo.  Rolling back the open or the last step, recovering after a crash and
      denying a safeguard restore the working tree, for every sequence of hooked
      operations; closing a step keeps the log within its limits; identifiers stay
      increasing; a refused rollback changes nothing.
    - Undo through the system.  Whatever a client does by 9P messages, or a guest
      by FUSE messages in its memory, while a step is open can be rolled back,
      unless the step was cancelled or became unprotected; so can [write_file] and
      [edit_file]; a Bash call of the virtual machine is followed from its request
      to the undo of what it did.
    - The control channel.  The open step is the one of the running command; the
      quiescence task ends in time; the events of a command follow its life cycle.
    - The watcher.  External changes are protected by a barrier, the sandbox's own
      are not reported.
    - Input.  Path validation is containment; a 9P walk stays in the share; the
      classifier terminates and is a maximum over the parts of a command, and the
      sanitiser keeps privileged commands out; every line of either interface is
      answered once under its identifier; every 9P request is answered by a
      well-formed frame; the tracking decorator cannot be told from what it wraps.
    - Protocols.  9P messages round-trip; the FUSE server is a faithful remote call
      of the file system trait, writes only its reply, counts the lookups of a
      listing and panics only in two cases that are in the hands of the guest.
    - The passthrough file system.  Over any session the counters of the inode
      store are the guest's lookups and the migration information, so that an inode
      the guest has stays and others go; the table of open files is what the
      replies say, and a handle of another inode has no effect; no [unwrap] of the
      store fails for a guest that forgets what it looked up; nothing that modifies
      passes the read-only file system; the ID maps do what the command line says;
      a map of attribute names is a faithful renaming.

    ** Bounds and fuel

    Recursion that is not structural has fuel, and a lemma says that it is enough.
    The walk through symbolic links has the 40 links of the kernel; the capture of a
    subtree has 41 times (size of the tree + 1); [classify] the length of the
    command + 1 ([classify_command_spec]); the loop of the 9P server the length of
    its input + 1 ([run_terminates]); the readers and writers of guest memory, the
    extensions of a FUSE message and the parser of attribute rules the length of
    what they read; the printer of a [u32] ten digits; [forget_one], which forgets
    the parents of what it removes, the size of the store ([forget_fuel_enough]).

    ** Limits of the model

    The host is Unix (Linux for [virtiofsd-fork]).  Guest memory does not change
    while a message is handled.  The passthrough file system is sequential: each
    method is one step, while the steps of the inode store interleave freely in
    [InodeLife].  Closing of host descriptors is not modelled, and the number of
    guest descriptors is derived from the tables.  Two working directories with the
    same canonical path share one undo directory on disk; the model gives the
    second an empty one.

    ** Not modelled

    - [virtiofsd-fork/src/vhost_user.rs], [sandbox.rs], [seccomp.rs], [limits.rs]:
      the event loop over the queues of the vhost crates, and namespaces, seccomp
      and limits, which are system calls.
    - [passthrough/device_state/] but for the information kept with inodes and
      handles: traversals of the tree for a migration and an encoding by the serde
      and postcard crates.
    - [passthrough/mount_fd.rs], [oslib.rs], [file_traits.rs], [compat/],
      [vmm-sys-util-fork/]: wrappers of system calls, which are the class [Host].
    - [virtiofs-backend/src/daemon.rs], [sandbox/src/main.rs], [cli.rs],
      [socket_server.rs] (but for the router), [fs_backend.rs], [tray.rs],
      [singleton.rs], [claude_settings.rs], the processes of [qemu.rs]: start-up,
      sockets, threads, processes and the settings of another program.
    - [shim/], [p9proxy/], [interceptor/src/gitignore.rs], the Windows platform of
      9P: processes of the guest, a byte pump, a wrapper of the ignore crate, and
      another operating system.
    - The desktop application, build tasks, test support and tests. *)

From stdpp Require Import base gmap strings list fin_maps pretty.
#[local] Open Scope Z_scope.

(** ** Outcomes

    A fallible Rust function returns [Result<A, E>] and may also panic (an
    index out of range, a slice off a character boundary, an arithmetic
    overflow in a checked build).  [outcome E A] keeps the three apart, so that
    "never panics" is a statement about the model. *)

Inductive outcome (E A : Type) : Type :=
  | Ok (a : A)
  | Err (e : E)
  | Panic.
Arguments Ok {E A} a.
Arguments Err {E A} e.
Arguments Panic {E A}.

#[export] Instance outcome_ret {E} : MRet (outcome E) := λ A a, Ok a.
#[export] Instance outcome_bind {E} : MBind (outcome E) := λ A B f m,
  match m with Ok a => f a | Err e => Err e | Panic => Panic end.

#[export] Instance outcome_fmap {E} : FMap (outcome E) := λ A B f m,
  match m with Ok a => Ok (f a) | Err e => Err e | Panic => Panic end.

Definition map_err {E F A} (f : E → F) (m : outcome E A) : outcome F A :=
  match m with Ok a => Ok a | Err e => Err (f e) | Panic => Panic end.

Definition ok_or {E A} (o : option A) (e : E) : outcome E A :=
  match o with Some a => Ok a | None => Err e end.

Definition is_ok {E A} (m : outcome E A) : bool :=
  match m with Ok _ => true | _ => false end.

Lemma bind_ok_inv {E A B} (m : outcome E A) (f : A → outcome E B) b :
  (m ≫= f) = Ok b → ∃ a, m = Ok a ∧ f a = Ok b.
Proof. destruct m; simpl; [eauto | done | done]. Qed.

(** ** Stateful code

    A method that mutates [S] and may fail.  An error keeps the state reached
    so far: Rust's [?] returns early and undoes nothing. *)

Definition stm (S E A : Type) : Type := S → outcome E A * S.

#[export] Instance stm_ret {S E} : MRet (stm S E) := λ A a s, (Ok a, s).
#[export] Instance stm_bind {S E} : MBind (stm S E) := λ A B f m s,
  match m s with
  | (Ok a, s') => f a s'
  | (Err e, s') => (Err e, s')
  | (Panic, s') => (Panic, s')
  end.

Definition get {S E} : stm S E S := λ s, (Ok s, s).
Definition gets {S E A} (f : S → A) : stm S E A := λ s, (Ok (f s), s).
Definition put {S E} (s : S) : stm S E unit := λ _, (Ok (), s).
Definition modify {S E} (f : S → S) : stm S E unit := λ s, (Ok (), f s).
Definition throw {S E A} (e : E) : stm S E A := λ s, (Err e, s).
Definition lift {S E A} (m : outcome E A) : stm S E A := λ s, (m, s).
Definition panic {S E A} : stm S E A := λ s, (Panic, s).

(** [let _ = f()], and [f().ok()]: the error is dropped, the effect kept. *)
Definition ignore {S E A} (m : stm S E A) : stm S E unit := λ s,
  match m s with
  | (Panic, s') => (Panic, s')
  | (_, s') => (Ok (), s')
  end.

(** [if let Err(e) = f()]: the error as a value. *)
Definition try {S E A} (m : stm S E A) : stm S E (E + A) := λ s,
  match m s with
  | (Ok a, s') => (Ok (inr a), s')
  | (Err e, s') => (Ok (inl e), s')
  | (Panic, s') => (Panic, s')
  end.

(** Run [m] on a part of the state. *)
Definition zoom {S T E A} (get_part : S → T) (set_part : T → S → S) (m : stm T E A)
    : stm S E A := λ s, let '(r, t) := m (get_part s) in (r, set_part t s).

(** [for x in l { f(x)?; }] *)
Fixpoint for_each {S E A} (f : A → stm S E unit) (l : list A) : stm S E unit :=
  match l with
  | [] => mret ()
  | x :: l' => f x ≫= λ _, for_each f l'
  end.

Lemma stm_bind_ok {S E A B} (m : stm S E A) (f : A → stm S E B) s a s' :
  m s = (Ok a, s') → (m ≫= f) s = f a s'.
Proof. intros H. unfold mbind, stm_bind. by rewrite H. Qed.

Lemma stm_bind_err {S E A B} (m : stm S E A) (f : A → stm S E B) s e s' :
  m s = (Err e, s') → (m ≫= f) s = (Err e, s').
Proof. intros H. unfold mbind, stm_bind. by rewrite H. Qed.

Lemma stm_bind_inv {S E A B} (m : stm S E A) (f : A → stm S E B) s b s' :
  (m ≫= f) s = (Ok b, s') → ∃ a s1, m s = (Ok a, s1) ∧ f a s1 = (Ok b, s').
Proof. unfold mbind, stm_bind. destruct (m s) as [[] ?]; [eauto | done | done]. Qed.

Lemma lift_inv {S E A} (o r : outcome E A) (s s' : S) : lift o s = (r, s') → o = r ∧ s' = s.
Proof. by intros [= -> <-]. Qed.

(** The loop rule: an invariant over the elements already processed that every
    iteration establishes, without failing. *)
Lemma for_each_inv {S E A} (f : A → stm S E unit) (I : list A → S → Prop) l s :
  I [] s →
  (∀ done x todo s, l = done ++ x :: todo → I done s →
     ∃ s', f x s = (Ok (), s') ∧ I (done ++ [x]) s') →
  ∃ s', for_each f l s = (Ok (), s') ∧ I l s'.
Proof.
  intros H0 Hstep.
  assert (∀ todo done s, l = done ++ todo → I done s →
    ∃ s', for_each f todo s = (Ok (), s') ∧ I l s') as Hgen; [|by apply (Hgen l [])].
  induction todo as [|x todo IH]; intros done s1 Hl HI; simpl.
  - rewrite app_nil_r in Hl. subst. eauto.
  - destruct (Hstep done x todo s1 Hl HI) as (s2 & Hf & HI2).
    rewrite (stm_bind_ok _ _ _ _ _ Hf). apply (IH (done ++ [x])); [|done].
    by rewrite <- app_assoc.
Qed.

(** A loop whose iterations leave the state alone. *)
Lemma for_each_same {S E A} (f : A → stm S E unit) l s :
  (∀ x, (f x s).2 = s) → (for_each f l s).2 = s.
Proof.
  intros Hf. induction l as [|x l IH]; simpl; [done|]. unfold mbind, stm_bind.
  specialize (Hf x). destruct (f x s) as [[] s']; simpl in Hf; by subst.
Qed.

Lemma ignore_ok {S E A} (m : stm S E A) s a s' : m s = (Ok a, s') → ignore m s = (Ok (), s').
Proof. intros H. unfold ignore. by rewrite H. Qed.

(** ** Guarantees

    [guarantees R m]: whatever [m] returns, the state it leaves is related to
    the state it found.  For a preorder the rules below follow the structure of
    the code, and [guarantee] applies them. *)

Definition guarantees {S E A} (R : S → S → Prop) (m : stm S E A) : Prop := ∀ s, R s (m s).2.

Create HintDb guarantees discriminated.

Section guarantees.
Context {S E : Type} (R : S → S → Prop) `{!PreOrder R}.

Lemma guarantees_ret {A} (a : A) : guarantees R (mret (M := stm S E) a).
Proof. intros s. simpl. reflexivity. Qed.
Lemma guarantees_throw {A} (e : E) : guarantees R (throw (A := A) e).
Proof. intros s. simpl. reflexivity. Qed.
Lemma guarantees_gets {A} (f : S → A) : guarantees R (gets (E := E) f).
Proof. intros s. simpl. reflexivity. Qed.
Lemma guarantees_get : guarantees R (get (E := E)).
Proof. intros s. simpl. reflexivity. Qed.
Lemma guarantees_lift {A} (o : outcome E A) : guarantees R (lift o).
Proof. intros s. simpl. reflexivity. Qed.
Lemma guarantees_modify (f : S → S) : (∀ s, R s (f s)) → guarantees R (modify (E := E) f).
Proof. intros Hf s. apply Hf. Qed.
Lemma guarantees_bind {A B} (m : stm S E A) (f : A → stm S E B) :
  guarantees R m → (∀ a, guarantees R (f a)) → guarantees R (m ≫= f).
Proof.
  intros Hm Hf s. unfold mbind, stm_bind. specialize (Hm s).
  destruct (m s) as [[a|e|] s']; simpl in *; [etrans; [exact Hm | apply Hf] | done | done].
Qed.
Lemma guarantees_ignore {A} (m : stm S E A) : guarantees R m → guarantees R (ignore m).
Proof. intros Hm s. specialize (Hm s). unfold ignore. by destruct (m s) as [[] ?]. Qed.
Lemma guarantees_try {A} (m : stm S E A) : guarantees R m → guarantees R (try m).
Proof. intros Hm s. specialize (Hm s). unfold try. by destruct (m s) as [[] ?]. Qed.
Lemma guarantees_for_each {A} (f : A → stm S E unit) l :
  (∀ x, guarantees R (f x)) → guarantees R (for_each f l).
Proof.
  intros Hf. induction l; simpl; [apply guarantees_ret|]. by apply guarantees_bind.
Qed.
Lemma guarantees_zoom {T A} (get_part : S → T) set_part (m : stm T E A) :
  (∀ t s, R s (set_part t s)) → guarantees R (zoom get_part set_part m).
Proof. intros Hset s. unfold zoom. destruct (m (get_part s)). apply Hset. Qed.
End guarantees.

#[export] Hint Resolve guarantees_ret guarantees_throw guarantees_gets guarantees_get
  guarantees_lift guarantees_ignore guarantees_try : guarantees.

(** Apply the rules, destructing the scrutinees in the way; a state update that
    keeps the relation by computation is closed. *)
Ltac guarantee :=
  repeat first
    [ solve [auto with guarantees typeclass_instances]
    | apply guarantees_for_each; [apply _|]; intros ?
    | apply guarantees_bind; [apply _ | | intros ?]
    | progress cbv beta zeta
    | match goal with
      | |- guarantees _ (match ?x with _ => _ end) => destruct x
      end
    | apply guarantees_ignore
    | apply guarantees_try
    | solve [intros ?; reflexivity] ].

(** [on_ok R m]: the same for the runs of [m] that succeed. *)
Definition on_ok {S E A} (R : S → S → Prop) (m : stm S E A) : Prop :=
  ∀ s a s', m s = (Ok a, s') → R s s'.

Lemma on_ok_guarantees {S E A} R (m : stm S E A) : guarantees R m → on_ok R m.
Proof. intros Hm s a s' H. specialize (Hm s). by rewrite H in Hm. Qed.
Lemma on_ok_throw {S E A} R (e : E) : on_ok R (throw (S := S) (A := A) e).
Proof. by intros s a s' ?. Qed.
Lemma on_ok_bind {S E A B} R `{!PreOrder R} (m : stm S E A) (f : A → stm S E B) :
  on_ok R m → (∀ a, on_ok R (f a)) → on_ok R (m ≫= f).
Proof.
  intros Hm Hf s b s' (a & s1 & Ha & Hb)%stm_bind_inv. etrans; [by eapply Hm | by eapply Hf].
Qed.
(** A run that can only end in an error. *)
Lemma on_ok_fails {S E A B} R (m : stm S E A) (e : E) : on_ok R (m ≫= λ _, throw (A := B) e).
Proof. by intros s b s' (a & s1 & _ & ?)%stm_bind_inv. Qed.

Ltac when_ok :=
  repeat first
    [ apply on_ok_fails
    | solve [apply on_ok_guarantees; guarantee]
    | apply on_ok_throw
    | apply on_ok_bind; [apply _ | | intros ?]
    | progress cbv beta zeta
    | match goal with
      | |- on_ok _ (match ?x with _ => _ end) => destruct x
      end ].

(** [never_panics m]: [m] returns, with a value or an error, in every state. *)
Definition never_panics {S E A} (m : stm S E A) : Prop := ∀ s, (m s).1 ≠ Panic.

Section never_panics.
Context {S E : Type}.

Lemma never_panics_ret {A} (a : A) : never_panics (mret (M := stm S E) a).
Proof. done. Qed.
Lemma never_panics_throw {A} (e : E) : never_panics (throw (S := S) (A := A) e).
Proof. done. Qed.
Lemma never_panics_gets {A} (f : S → A) : never_panics (gets (E := E) f).
Proof. done. Qed.
Lemma never_panics_get : never_panics (get (S := S) (E := E)).
Proof. done. Qed.
Lemma never_panics_modify (f : S → S) : never_panics (modify (E := E) f).
Proof. done. Qed.
Lemma never_panics_bind {A B} (m : stm S E A) (f : A → stm S E B) :
  never_panics m → (∀ a, never_panics (f a)) → never_panics (m ≫= f).
Proof.
  intros Hm Hf s. unfold mbind, stm_bind. specialize (Hm s).
  destruct (m s) as [[a|e|] s']; simpl in *; [apply Hf | done | done].
Qed.
Lemma never_panics_ignore {A} (m : stm S E A) : never_panics m → never_panics (ignore m).
Proof. intros Hm s. specialize (Hm s). unfold ignore. by destruct (m s) as [[] ?]. Qed.
End never_panics.

#[export] Hint Resolve never_panics_ret never_panics_throw never_panics_gets never_panics_get
  never_panics_modify never_panics_ignore : guarantees.

Ltac no_panic :=
  repeat first
    [ solve [auto with guarantees]
    | apply never_panics_bind; [|intros ?]
    | progress cbv beta zeta
    | match goal with
      | |- never_panics (match ?x with _ => _ end) => destruct x
      end
    | apply never_panics_ignore ].

(** ** Machine integers

    A [w]-bit unsigned value is a [Z] in range; conversions ([as u16], [as
    u32], ...) are written with the explicit reduction. *)

Definition in_width (w z : Z) : Prop := 0 ≤ z < 2 ^ w.
Abbreviation in_u8 := (in_width 8).
Abbreviation in_u16 := (in_width 16).
Abbreviation in_u32 := (in_width 32).
Abbreviation in_u64 := (in_width 64).

#[export] Instance in_width_dec w z : Decision (in_width w z).
Proof. unfold in_width; apply _. Defined.

Definition as_u16 (z : Z) : Z := z mod 2 ^ 16.
Definition as_u32 (z : Z) : Z := z mod 2 ^ 32.
Definition as_u64 (z : Z) : Z := z mod 2 ^ 64.

(** [as i64]: reduction modulo [2^64] read in two's complement. *)
Definition as_i64 (z : Z) : Z := (z + 2 ^ 63) mod 2 ^ 64 - 2 ^ 63.

Lemma as_u16_small z : in_u16 z → as_u16 z = z.
Proof. apply Z.mod_small. Qed.
Lemma as_u32_small z : in_u32 z → as_u32 z = z.
Proof. apply Z.mod_small. Qed.
Lemma as_i64_small z : -2 ^ 63 ≤ z < 2 ^ 63 → as_i64 z = z.
Proof. intros. unfold as_i64. rewrite Z.mod_small; lia. Qed.

(** ** Slices

    [&buf[pos..pos + len]]: [None] is the out-of-range index that panics. *)

Definition slice {A} (buf : list A) (pos len : nat) : option (list A) :=
  if decide (pos + len ≤ length buf)%nat
  then Some (take len (drop pos buf)) else None.

Lemma slice_app {A} (pre mid post : list A) :
  slice (pre ++ mid ++ post) (length pre) (length mid) = Some mid.
Proof.
  unfold slice. rewrite decide_True by (rewrite !length_app; lia).
  by rewrite drop_app_length, take_app_length.
Qed.

Lemma slice_app_at {A} (buf pre mid post : list A) pos len :
  buf = pre ++ mid ++ post → pos = length pre → len = length mid →
  slice buf pos len = Some mid.
Proof. intros -> -> ->. apply slice_app. Qed.

Lemma slice_length {A} (buf : list A) pos len l :
  slice buf pos len = Some l → length l = len.
Proof.
  unfold slice. case_decide; [|done]. intros [= <-].
  rewrite length_take, length_drop. lia.
Qed.

Lemma slice_is_Some {A} (buf : list A) pos len :
  (pos + len ≤ length buf)%nat → is_Some (slice buf pos len).
Proof. intros. unfold slice. rewrite decide_True by done. eauto. Qed.

Lemma slice_Forall {A} (P : A → Prop) (buf : list A) pos len l :
  Forall P buf → slice buf pos len = Some l → Forall P l.
Proof.
  unfold slice. case_decide; [|done]. intros Hall [= <-].
  by apply Forall_take, Forall_drop.
Qed.

(** ** Little-endian integers

    [to_le_bytes] and [from_le_bytes]; a negative value is written in two's
    complement. *)

Fixpoint le_bytes (n : nat) (v : Z) : list Z :=
  match n with
  | O => []
  | S n' => v mod 256 :: le_bytes n' (v / 256)
  end.

Fixpoint le_value (bs : list Z) : Z :=
  match bs with
  | [] => 0
  | b :: bs' => b + 256 * le_value bs'
  end.

Lemma length_le_bytes n v : length (le_bytes n v) = n.
Proof. revert v; induction n; intros; simpl; by f_equal. Qed.

Lemma le_bytes_in_u8 n v : Forall in_u8 (le_bytes n v).
Proof.
  revert v; induction n; intros; simpl; constructor; [|done].
  apply Z.mod_pos_bound. lia.
Qed.

Lemma le_value_le_bytes n v :
  0 ≤ v < 256 ^ Z.of_nat n → le_value (le_bytes n v) = v.
Proof.
  revert v; induction n as [|n IH]; intros v Hv; simpl le_bytes; simpl le_value.
  - simpl in Hv. lia.
  - rewrite Nat2Z.inj_succ, Z.pow_succ_r in Hv by lia.
    rewrite IH by (split; [apply Z.div_pos | apply Z.div_lt_upper_bound]; lia).
    pose proof (Z.div_mod v 256). lia.
Qed.

Lemma le_bytes_le_value bs :
  Forall in_u8 bs → le_bytes (length bs) (le_value bs) = bs.
Proof.
  induction 1 as [|b bs Hb _ IH]; [done|]. cbn [length le_value le_bytes].
  unfold in_width in Hb. rewrite (Z.mul_comm 256).
  rewrite Z.mod_add, Z.mod_small, Z.div_add, Z.div_small by lia.
  by rewrite Z.add_0_l, IH.
Qed.

Lemma le_value_bound bs :
  Forall in_u8 bs → 0 ≤ le_value bs < 256 ^ Z.of_nat (length bs).
Proof.
  induction 1 as [|b bs Hb _ IH]; cbn [length le_value]; [done|].
  unfold in_width in Hb. rewrite Nat2Z.inj_succ, Z.pow_succ_r by lia. lia.
Qed.

(** ** Strings

    A Rust [String] is its UTF-8 byte sequence, held in a Rocq [string] (whose
    characters are bytes); [utf8_valid] is the check of
    [String::from_utf8]. *)

Fixpoint bytes_of_string (s : string) : list Z :=
  match s with
  | EmptyString => []
  | String c s' => Z.of_N (Ascii.N_of_ascii c) :: bytes_of_string s'
  end.

Fixpoint string_of_bytes (bs : list Z) : string :=
  match bs with
  | [] => EmptyString
  | b :: bs' => String (Ascii.ascii_of_N (Z.to_N b)) (string_of_bytes bs')
  end.

Lemma string_of_bytes_of_string s : string_of_bytes (bytes_of_string s) = s.
Proof.
  induction s as [|c s IH]; simpl; [done|].
  by rewrite N2Z.id, Ascii.ascii_N_embedding, IH.
Qed.

Lemma bytes_of_string_in_u8 s : Forall in_u8 (bytes_of_string s).
Proof.
  induction s as [|c s IH]; simpl; constructor; [|done].
  unfold in_width. pose proof (Ascii.N_ascii_bounded c). lia.
Qed.

Lemma bytes_of_string_of_bytes bs :
  Forall in_u8 bs → bytes_of_string (string_of_bytes bs) = bs.
Proof.
  induction 1 as [|b bs Hb _ IH]; simpl; [done|].
  unfold in_width in Hb. rewrite IH, Ascii.N_ascii_embedding by lia.
  by rewrite Z2N.id by lia.
Qed.

Lemma length_bytes_of_string s : length (bytes_of_string s) = String.length s.
Proof. induction s; simpl; by f_equal. Qed.

Definition between (lo hi b : Z) : bool := (lo <=? b) && (b <=? hi).
Definition cont_byte (b : Z) : bool := between 128 191 b.

(** The well-formed byte sequences of the Unicode standard (no overlong
    forms, no surrogates, nothing above U+10FFFF). *)
Fixpoint utf8_valid (bs : list Z) : bool :=
  match bs with
  | [] => true
  | b0 :: r0 =>
      if between 0 127 b0 then utf8_valid r0 else
      match r0 with
      | b1 :: r1 =>
          if between 194 223 b0 then cont_byte b1 && utf8_valid r1 else
          match r1 with
          | b2 :: r2 =>
              if (b0 =? 224) then between 160 191 b1 && cont_byte b2 && utf8_valid r2
              else if (b0 =? 237) then between 128 159 b1 && cont_byte b2 && utf8_valid r2
              else if between 225 239 b0 then cont_byte b1 && cont_byte b2 && utf8_valid r2
              else
              match r2 with
              | b3 :: r3 =>
                  if (b0 =? 240)
                  then between 144 191 b1 && cont_byte b2 && cont_byte b3 && utf8_valid r3
                  else if between 241 243 b0
                  then cont_byte b1 && cont_byte b2 && cont_byte b3 && utf8_valid r3
                  else if (b0 =? 244)
                  then between 128 143 b1 && cont_byte b2 && cont_byte b3 && utf8_valid r3
                  else false
              | [] => false
              end
          | [] => false
          end
      | [] => false
      end
  end.

Definition is_utf8 (s : string) : bool := utf8_valid (bytes_of_string s).

(** Splitting on a separator byte, and joining: [str::split] and [join]. *)
Fixpoint split_on (sep : Ascii.ascii) (s : string) : list string :=
  match s with
  | EmptyString => [EmptyString]
  | String c s' =>
      if Ascii.eqb c sep then EmptyString :: split_on sep s'
      else match split_on sep s' with
           | w :: ws => String c w :: ws
           | [] => [String c EmptyString]
           end
  end.

Fixpoint join_with (sep : Ascii.ascii) (ws : list string) : string :=
  match ws with
  | [] => EmptyString
  | [w] => w
  | w :: ws' => w +:+ String sep (join_with sep ws')
  end.

Fixpoint str_forall (P : Ascii.ascii → bool) (s : string) : bool :=
  match s with EmptyString => true | String c s' => P c && str_forall P s' end.

Fixpoint str_map (f : Ascii.ascii → Ascii.ascii) (s : string) : string :=
  match s with EmptyString => EmptyString | String c s' => String (f c) (str_map f s') end.

Fixpoint str_count (P : Ascii.ascii → bool) (s : string) : nat :=
  match s with
  | EmptyString => 0
  | String c s' => if P c then S (str_count P s') else str_count P s'
  end.

Definition lacks (c : Ascii.ascii) (s : string) : bool := str_forall (λ d, negb (Ascii.eqb d c)) s.

Lemma split_on_lacks sep w : lacks sep w = true → split_on sep w = [w].
Proof.
  unfold lacks. induction w as [|c w IH]; simpl; [done|].
  intros [Hc Hw]%andb_true_iff. apply negb_true_iff in Hc. by rewrite Hc, IH.
Qed.

Lemma split_on_app sep w s :
  lacks sep w = true → split_on sep (w +:+ String sep s) = w :: split_on sep s.
Proof.
  unfold lacks. induction w as [|c w IH]; simpl.
  - by rewrite Ascii.eqb_refl.
  - intros [Hc Hw]%andb_true_iff. apply negb_true_iff in Hc. by rewrite Hc, IH.
Qed.

Lemma split_join sep w ws :
  Forall (λ x, lacks sep x = true) (w :: ws) → split_on sep (join_with sep (w :: ws)) = w :: ws.
Proof.
  revert w. induction ws as [|v ws IH]; intros w Hall; inversion_clear Hall.
  - by apply split_on_lacks.
  - change (join_with sep (w :: v :: ws)) with (w +:+ String sep (join_with sep (v :: ws))).
    by rewrite split_on_app, IH.
Qed.

(** ** std::io errors *)

Inductive platform := Unix | Windows.

(** The [std::io::ErrorKind]s the source tells apart; every other kind is
    [KOther]. *)
Inductive ErrorKind :=
  | NotFound | PermissionDenied | AlreadyExists | InvalidInput
  | DirectoryNotEmpty | IsADirectory | NotADirectory | StorageFull
  | InvalidFilename | KOther.

Record io_error := mkIoError { io_kind : ErrorKind; raw_os_error : option Z }.

(** ** Automation

    [sandbox] collects the lemmas that discharge the side conditions the
    components share. *)

Create HintDb sandbox discriminated.
#[export] Hint Resolve bytes_of_string_in_u8 slice_app as_u16_small as_u32_small : sandbox.

(** Destruct the scrutinee of the innermost [match] or [if] of a hypothesis
    until none is left, discarding the impossible branches. *)
Ltac inv_match H :=
  repeat (let E := fresh "E" in
          match type of H with context [match ?x with _ => _ end] =>
            destruct x eqn:E; simplify_eq/=; try done end).

Ltac split_and_all := repeat match goal with H : _ ∧ _ |- _ => destruct H end.
