(* ===== verification/Text.v ===== *)
(** * Characters and text

    A Rust [&str] whose characters matter is the list of them (Unicode scalar
    values, as [Z]); [chars] turns an ASCII literal into one.  The functions of
    the standard library on characters and strings that the components share,
    and the decimal representation of a [u32]. *)

From stdpp Require Import base list strings.
From S2P Require Import Prelude.
#[local] Open Scope Z_scope.

Abbreviation text := (list Z).

Definition chars (s : string) : text := bytes_of_string s.

(** ** Characters and strings of the standard library *)

(** [char::is_whitespace]: the Unicode property White_Space. *)
Definition is_whitespace (c : Z) : bool :=
  between 9 13 c || (c =? 32) || (c =? 133) || (c =? 160) || (c =? 5760) || between 8192 8202 c
  || (c =? 8232) || (c =? 8233) || (c =? 8239) || (c =? 8287) || (c =? 12288).

Fixpoint chars_trim_start (s : text) : text :=
  match s with
  | [] => []
  | c :: s' => if is_whitespace c then chars_trim_start s' else s
  end.
Definition chars_trim_end (s : text) : text := reverse (chars_trim_start (reverse s)).
Definition chars_trim (s : text) : text := chars_trim_end (chars_trim_start s).

Fixpoint starts_with (p s : text) : bool :=
  match p, s with
  | [], _ => true
  | a :: p', b :: s' => (a =? b) && starts_with p' s'
  | _ :: _, [] => false
  end.

(** [str::split] by a character. *)
Fixpoint split_char (sep : Z) (s : text) : list text :=
  match s with
  | [] => [[]]
  | c :: s' =>
      if c =? sep then [] :: split_char sep s'
      else match split_char sep s' with w :: ws => (c :: w) :: ws | [] => [[c]] end
  end.

Lemma split_char_lacks sep w : sep ∉ w → split_char sep w = [w].
Proof.
  induction w as [|c w IH]; intros Hw; [done|]. apply not_elem_of_cons in Hw as [Hc Hw]. simpl.
  rewrite (proj2 (Z.eqb_neq c sep)) by done. by rewrite IH.
Qed.

Lemma split_char_app sep w s : sep ∉ w → split_char sep (w ++ sep :: s) = w :: split_char sep s.
Proof.
  induction w as [|c w IH]; intros Hw; simpl; [by rewrite Z.eqb_refl|]. apply not_elem_of_cons in Hw as [Hc Hw].
  rewrite (proj2 (Z.eqb_neq c sep)) by done. by rewrite IH.
Qed.

(** [char::is_ascii_digit] *)
Definition is_digit (c : Z) : bool := between 48 57 c.

(** ** Decimal numbers *)

Inductive ParseIntError := IntEmpty | IntInvalidDigit | IntPosOverflow.

(** The loop of [u32::from_str_radix]: a digit that is none is reported before
    an overflow. *)
Fixpoint parse_digits (result : Z) (s : text) : outcome ParseIntError Z :=
  match s with
  | [] => Ok result
  | c :: s' =>
      if is_digit c then
        let r := result * 10 + (c - 48) in
        if 2 ^ 32 <=? r then Err IntPosOverflow else parse_digits r s'
      else Err IntInvalidDigit
  end.

(** [str::parse::<u32>] *)
Definition parse_u32 (s : text) : outcome ParseIntError Z :=
  match s with
  | [] => Err IntEmpty
  | [c] => parse_digits 0 s
  | c :: s' => if c =? 43 then parse_digits 0 s' else parse_digits 0 s
  end.

(** [Display] of a [u32], which has at most ten digits. *)
Fixpoint print_digits (fuel : nat) (n : Z) : text :=
  match fuel with
  | O => []
  | S fuel' => if n <? 10 then [48 + n] else print_digits fuel' (n / 10) ++ [48 + n mod 10]
  end.
Definition print_u32 (n : Z) : text := print_digits 10 n.

Lemma div_mod_10 n : 0 ≤ n → n = 10 * (n / 10) + n mod 10 ∧ 0 ≤ n mod 10 < 10 ∧ 0 ≤ n / 10.
Proof. intros Hn. pose proof (Z.div_mod n 10). pose proof (Z.mod_pos_bound n 10). pose proof (Z.div_pos n 10). lia. Qed.

Lemma print_digits_digit fuel n : 0 ≤ n → Forall (λ c, is_digit c = true) (print_digits fuel n).
Proof.
  revert n. induction fuel as [|fuel IH]; intros n Hn; simpl; [constructor|].
  assert (∀ d, 0 ≤ d < 10 → is_digit (48 + d) = true) as Hd.
  { intros d Hd. unfold is_digit, between. apply andb_true_iff. split; apply Z.leb_le; lia. }
  pose proof (div_mod_10 n Hn). destruct (Z.ltb_spec n 10); [repeat constructor; apply Hd; lia|]. apply Forall_app. split; [apply IH; lia|].
  repeat constructor. apply Hd. lia.
Qed.

Lemma parse_digits_app r s1 s2 v :
  parse_digits r s1 = Ok v → parse_digits r (s1 ++ s2) = parse_digits v s2.
Proof.
  revert r. induction s1 as [|c s1 IH]; intros r; simpl; [by intros [= ->]|].
  destruct (is_digit c); [|done]. cbv zeta. destruct (_ <=? _); [done|]. apply IH.
Qed.

Lemma parse_print_digits fuel n :
  0 ≤ n < 10 ^ Z.of_nat fuel → in_u32 n → parse_digits 0 (print_digits fuel n) = Ok n.
Proof.
  revert n. induction fuel as [|fuel IH]; intros n Hn Hu.
  { simpl in *. f_equal. lia. }
  cbn [print_digits].
  assert (∀ d, 0 ≤ d < 10 → is_digit (48 + d) = true) as Hd.
  { intros d Hd. unfold is_digit, between. apply andb_true_iff. split; apply Z.leb_le; lia. }
  unfold in_width in *. pose proof (div_mod_10 n ltac:(lia)). destruct (Z.ltb_spec n 10) as [Hlt|Hge].
  - cbn [parse_digits]. rewrite Hd by lia. cbv zeta. rewrite (proj2 (Z.leb_gt _ _)) by lia. f_equal. lia.
  - rewrite (parse_digits_app _ _ _ (n / 10)).
    + cbn [parse_digits]. rewrite Hd by lia. cbv zeta. rewrite (proj2 (Z.leb_gt _ _)) by lia. f_equal. lia.
    + apply IH; [|lia]. rewrite Nat2Z.inj_succ, Z.pow_succ_r in Hn by lia.
      split; [lia|]. apply Z.div_lt_upper_bound; lia.
Qed.

Lemma print_digits_nonempty fuel n : print_digits (S fuel) n ≠ [].
Proof. cbn [print_digits]. destruct (n <? 10); [done|]. intros [_ H]%app_nil. done. Qed.

Lemma print_u32_digit n : in_u32 n → Forall (λ c, is_digit c = true) (print_u32 n).
Proof. intros Hn. apply print_digits_digit. unfold in_width in Hn. lia. Qed.

Lemma print_u32_lacks c n : in_u32 n → is_digit c = false → c ∉ print_u32 n.
Proof.
  intros Hn Hc Hin. pose proof (print_u32_digit n Hn) as Hall. rewrite Forall_forall in Hall.
  by rewrite (Hall c Hin) in Hc.
Qed.

Lemma parse_print_u32 n : in_u32 n → parse_u32 (print_u32 n) = Ok n.
Proof.
  intros Hn. pose proof (print_u32_digit n Hn) as Hd. unfold in_width in Hn.
  assert (parse_digits 0 (print_u32 n) = Ok n) as Hp by (apply parse_print_digits; [lia | done]).
  unfold parse_u32. destruct (print_u32 n) as [|c [|c' s]] eqn:E; [|done|].
  - by destruct (print_digits_nonempty 9 n).
  - destruct (Z.eqb_spec c 43) as [->|]; [|done]. by inversion_clear Hd.
Qed.
