(* ===== verification/HostFs.v ===== *)
(** * The host filesystem

    The part of [std::fs] and [std::path] that the undo interceptor and the 9P
    server call, over a tree of nodes: [symlink_metadata] and [metadata],
    [exists] and [is_dir], [read_dir], [read], [write], [create_dir] and
    [create_dir_all], [remove_file], [remove_dir] and [remove_dir_all],
    [rename], [symlink], [set_permissions].  The model is of a Unix host.

    A path is the list of its components below [/].  Symbolic links are
    followed where the system calls follow them: in every component but the
    last, and in the last one for [metadata], [write], [set_permissions] (but
    not for [symlink_metadata], [remove_file], [remove_dir_all], [mkdir]).
    Creating or removing an entry updates the modification time of the
    directory that holds it.  Access-permission checks, hard links and
    concurrent modification by other processes are not modelled. *)

From Stdlib Require Import Ascii.
From stdpp Require Import base gmap strings list fin_maps.
From S2P Require Import Prelude.
#[local] Open Scope Z_scope.

(** ** Paths *)

Abbreviation path := (list string).

Definition slash : Ascii.ascii := "/"%char.
Definition backslash : Ascii.ascii := "\"%char.

Definition parent (p : path) : option path :=
  match p with [] => None | _ => Some (removelast p) end.

Lemma parent_snoc (p : path) c : parent (p ++ [c]) = Some p.
Proof.
  unfold parent. destruct (p ++ [c]) eqn:E; [by destruct p|].
  by rewrite <- E, removelast_last.
Qed.

Lemma path_cases (p : path) : p = [] ∨ ∃ q c, p = q ++ [c].
Proof. induction p using rev_ind; eauto. Qed.

(** [Path::components] of a relative path string: empty and [.] components
    disappear. *)
Definition components (s : string) : path :=
  filter (λ c, c ≠ "" ∧ c ≠ ".") (split_on slash s).

(** [Path::to_string_lossy] of an absolute path. *)
Definition path_string (p : path) : string := String slash (join_with slash p).

Definition is_absolute (s : string) : bool :=
  match s with String c _ => Ascii.eqb c slash | EmptyString => false end.

(** [Path::join]: an absolute argument replaces the base. *)
Definition path_join (base : path) (s : string) : path :=
  if is_absolute s then components s else base ++ components s.

(** [Path::strip_prefix]. *)
Fixpoint strip_prefix (base p : path) : option path :=
  match base, p with
  | [], _ => Some p
  | b :: base', c :: p' => if decide (b = c) then strip_prefix base' p' else None
  | _ :: _, [] => None
  end.

Lemma strip_prefix_app base p : strip_prefix base (base ++ p) = Some p.
Proof. induction base; simpl; [done|]. by rewrite decide_True. Qed.

Lemma strip_prefix_Some base p r : strip_prefix base p = Some r → p = base ++ r.
Proof.
  revert p. induction base as [|b base IH]; intros [|c p]; simpl; try by intros [= ->].
  case_decide; [|done]. subst. intros ->%IH. done.
Qed.

(** ** Nodes *)

Record meta := mkMeta { m_perm : Z; m_mtime : Z; m_xattrs : gmap string (list Z) }.

Inductive node :=
  | File (m : meta) (content : list Z)
  | Dir (m : meta)
  | Symlink (m : meta) (target : string).

Definition node_meta (n : node) : meta :=
  match n with File m _ | Dir m | Symlink m _ => m end.

Definition with_meta (f : meta → meta) (n : node) : node :=
  match n with
  | File m c => File (f m) c
  | Dir m => Dir (f m)
  | Symlink m t => Symlink (f m) t
  end.

Definition set_mtime (t : Z) (m : meta) : meta := mkMeta (m_perm m) t (m_xattrs m).
Definition set_perm (perm : Z) (m : meta) : meta := mkMeta perm (m_mtime m) (m_xattrs m).
Definition set_xattrs (x : gmap string (list Z)) (m : meta) : meta :=
  mkMeta (m_perm m) (m_mtime m) x.

Definition is_symlink_node (n : node) : bool :=
  match n with Symlink _ _ => true | _ => false end.
Definition is_dir_node (n : node) : bool :=
  match n with Dir _ => true | _ => false end.

(** [st_mode]: the file type bits (0100000, 0040000, 0120000 octal) and the
    twelve permission bits (mask 07777 octal, 0xFFF). *)
Definition S_IFREG : Z := 0x8000.
Definition S_IFDIR : Z := 0x4000.
Definition S_IFLNK : Z := 0xA000.

Definition st_mode (n : node) : Z :=
  match n with
  | File m _ => S_IFREG + m_perm m
  | Dir m => S_IFDIR + m_perm m
  | Symlink m _ => S_IFLNK + m_perm m
  end.

(** What a host decides: the time stamp of a change, the permissions of a new
    file or directory, the size a directory reports, the order in which
    [read_dir] lists names. *)
Record host := mkHost {
  h_clock : Z;
  h_file_perm : Z;
  h_dir_perm : Z;
  h_dir_len : path → Z;
  h_order : list string → list string;
}.

(** [Metadata::len]. *)
Definition st_size (h : host) (p : path) (n : node) : Z :=
  match n with
  | File _ c => Z.of_nat (length c)
  | Dir _ => h_dir_len h p
  | Symlink _ t => Z.of_nat (String.length t)
  end.

Abbreviation tree := (gmap path node).
Abbreviation io A := (outcome io_error A).

Definition err {A} (k : ErrorKind) : io A := Err (mkIoError k None).

(** ** Path resolution

    [walk budget ns follow cur rest] resolves [rest] from the directory [cur];
    [budget] bounds the number of links expanded (the kernel gives up with
    [ELOOP] after 40). *)

Definition ELOOP : Z := 40.

Fixpoint walk (budget : nat) (ns : tree) (follow : bool) (cur : path) (rest : list string)
    {struct budget} : io path :=
  (fix go (cur : path) (rest : list string) {struct rest} : io path :=
     match rest with
     | [] => Ok cur
     | c :: rest' =>
         if decide (c = "..") then go (default [] (parent cur)) rest' else
         let p := cur ++ [c] in
         match ns !! p with
         | None => if decide (rest' = []) then Ok p else err NotFound
         | Some (File _ _) => if decide (rest' = []) then Ok p else err NotADirectory
         | Some (Dir _) => go p rest'
         | Some (Symlink _ t) =>
             if bool_decide (rest' = []) && negb follow then Ok p else
             match budget with
             | O => Err (mkIoError KOther (Some ELOOP))
             | S b => walk b ns follow (if is_absolute t then [] else cur)
                        (components t ++ rest')
             end
         end
     end) cur rest.

Definition resolve (ns : tree) (follow : bool) (p : path) : io path := walk 40 ns follow [] p.

Definition lookup_node (ns : tree) (follow : bool) (p : path) : io (path * node) :=
  q ← resolve ns follow p;
  match ns !! q with Some n => Ok (q, n) | None => err NotFound end.

Definition symlink_metadata (ns : tree) (p : path) : io node := snd <$> lookup_node ns false p.
Definition metadata (ns : tree) (p : path) : io node := snd <$> lookup_node ns true p.
Definition path_exists (ns : tree) (p : path) : bool := is_ok (metadata ns p).
Definition path_is_dir (ns : tree) (p : path) : bool :=
  match metadata ns p with Ok n => is_dir_node n | _ => false end.

(** ** Operations *)

Section operations.
Context (h : host).

Definition new_meta (perm : Z) : meta := mkMeta perm (h_clock h) ∅.

(** The directory that holds [p] gets a new modification time. *)
Definition touch_parent (p : path) (ns : tree) : tree :=
  match parent p with
  | Some d => alter (with_meta (set_mtime (h_clock h))) d ns
  | None => ns
  end.

Definition add_node (p : path) (n : node) (ns : tree) : tree := touch_parent p (<[p := n]> ns).

(** The names directly below [d]. *)
Definition child_name (d p : path) : option string :=
  match strip_prefix d p with Some [c] => Some c | _ => None end.

Definition children (ns : tree) (d : path) : list string :=
  omap (λ kv, child_name d kv.1) (map_to_list ns).

Definition read_dir (ns : tree) (p : path) : io (list string) :=
  '(q, n) ← lookup_node ns true p;
  match n with Dir _ => Ok (h_order h (children ns q)) | _ => err NotADirectory end.

Definition fs_read (ns : tree) (p : path) : io (list Z) :=
  '(_, n) ← lookup_node ns true p;
  match n with File _ c => Ok c | _ => err IsADirectory end.

Definition read_link (ns : tree) (p : path) : io string :=
  '(_, n) ← lookup_node ns false p;
  match n with Symlink _ t => Ok t | _ => err InvalidInput end.

(** Create or truncate, then write: follows a link in the last component. *)
Definition fs_write (ns : tree) (p : path) (content : list Z) : io tree :=
  q ← resolve ns true p;
  match ns !! q with
  | Some (File m _) => Ok (<[q := File (set_mtime (h_clock h) m) content]> ns)
  | Some (Dir _) => err IsADirectory
  | Some (Symlink _ _) => err NotFound
  | None => Ok (add_node q (File (new_meta (h_file_perm h)) content) ns)
  end.

(** [OpenOptions::create_new]: the path must not exist, links included. *)
Definition fs_create_new (ns : tree) (p : path) : io tree :=
  q ← resolve ns false p;
  match ns !! q with
  | Some _ => err AlreadyExists
  | None => Ok (add_node q (File (new_meta (h_file_perm h)) []) ns)
  end.

Definition create_dir (ns : tree) (p : path) : io tree :=
  q ← resolve ns false p;
  match ns !! q with
  | Some _ => err AlreadyExists
  | None => Ok (add_node q (Dir (new_meta (h_dir_perm h))) ns)
  end.

(** [DirBuilder::create_dir_all], on the reversed path: try to make the
    directory; if the parent is missing make it first; an existing directory
    is fine. *)
Fixpoint create_dir_all_rev (ns : tree) (rp : list string) : io tree :=
  let p := rev rp in
  match rp with
  | [] => Ok ns
  | _ :: rp' =>
      match create_dir ns p with
      | Ok ns' => Ok ns'
      | Err (mkIoError NotFound _) =>
          ns1 ← create_dir_all_rev ns rp';
          match create_dir ns1 p with
          | Ok ns' => Ok ns'
          | Err e => if path_is_dir ns1 p then Ok ns1 else Err e
          | Panic => Panic
          end
      | Err e => if path_is_dir ns p then Ok ns else Err e
      | Panic => Panic
      end
  end.

Definition create_dir_all (ns : tree) (p : path) : io tree := create_dir_all_rev ns (rev p).

Definition remove_file (ns : tree) (p : path) : io tree :=
  '(q, n) ← lookup_node ns false p;
  match n with
  | Dir _ => err IsADirectory
  | _ => Ok (touch_parent q (delete q ns))
  end.

Definition remove_dir (ns : tree) (p : path) : io tree :=
  '(q, n) ← lookup_node ns false p;
  match n with
  | Dir _ =>
      if decide (children ns q = []) then Ok (touch_parent q (delete q ns))
      else err DirectoryNotEmpty
  | _ => err NotADirectory
  end.

(** Everything below [q], [q] included. *)
Definition delete_subtree (q : path) (ns : tree) : tree :=
  filter (λ kv, ¬ q `prefix_of` kv.1) ns.

(** A link is unlinked, not followed. *)
Definition remove_dir_all (ns : tree) (p : path) : io tree :=
  '(q, n) ← lookup_node ns false p;
  match n with
  | Dir _ => Ok (touch_parent q (delete_subtree q ns))
  | Symlink _ _ => Ok (touch_parent q (delete q ns))
  | File _ _ => err NotADirectory
  end.

Definition symlink (ns : tree) (target : string) (p : path) : io tree :=
  q ← resolve ns false p;
  match ns !! q with
  | Some _ => err AlreadyExists
  | None => Ok (add_node q (Symlink (new_meta 0x1FF) target) ns)
  end.

(** [chmod] follows links and keeps the twelve permission bits. *)
Definition set_permissions (ns : tree) (p : path) (mode : Z) : io tree :=
  '(q, n) ← lookup_node ns true p;
  Ok (<[q := with_meta (set_perm (Z.land mode 0xFFF)) n]> ns).

(** Move the subtree at [q] to [q']. *)
Definition move_subtree (q q' : path) (ns : tree) : tree :=
  (list_to_map (omap (λ kv : path * node,
                        (λ r, (q' ++ r, kv.2)) <$> strip_prefix q kv.1) (map_to_list ns)) : tree)
  ∪ delete_subtree q' (delete_subtree q ns).

Definition fs_rename (ns : tree) (src dst : path) : io tree :=
  '(q, n) ← lookup_node ns false src;
  q' ← resolve ns false dst;
  if decide (q = q') then Ok ns
  else if decide (q `prefix_of` q') then err InvalidInput
  else
    match n, ns !! q' with
    | Dir _, Some (Dir _) =>
        if decide (children ns q' = [])
        then Ok (touch_parent q (touch_parent q' (move_subtree q q' ns)))
        else err DirectoryNotEmpty
    | Dir _, Some _ => err NotADirectory
    | _, Some (Dir _) => err IsADirectory
    | _, _ => Ok (touch_parent q (touch_parent q' (move_subtree q q' ns)))
    end.

End operations.
