(* ===== verification/HostFacts.v ===== *)
(** * Facts about the host filesystem

    Path resolution and the [std::fs] operations inside a plain working tree:
    a directory tree below [W] without symbolic links, whose names are ordinary
    names.  The facts are what the proofs about the undo log use; they are
    stated for the paths [W ++ r]. *)

From Stdlib Require Import Ascii.
From stdpp Require Import base gmap strings list fin_maps.
From S2P Require Import Prelude HostFs.
#[local] Open Scope Z_scope.

(** ** Ordinary names *)

Definition name_ok (c : string) : bool :=
  bool_decide (c ≠ "" ∧ c ≠ "." ∧ c ≠ "..") && lacks slash c && lacks backslash c.

Definition clean (r : path) : Prop := Forall (λ c, name_ok c = true) r.

Lemma clean_app r1 r2 : clean (r1 ++ r2) ↔ clean r1 ∧ clean r2.
Proof. apply Forall_app. Qed.
Lemma clean_snoc r c : clean (r ++ [c]) ↔ clean r ∧ name_ok c = true.
Proof. rewrite clean_app. unfold clean. by rewrite Forall_singleton. Qed.

Lemma name_ok_spec c :
  name_ok c = true → c ≠ "" ∧ c ≠ "." ∧ c ≠ ".." ∧ lacks slash c = true ∧ lacks backslash c = true.
Proof. unfold name_ok. rewrite !andb_true_iff, bool_decide_eq_true. tauto. Qed.

(** ** Resolution *)

Definition plain_node (ns : tree) (p : path) : Prop :=
  ∀ n, ns !! p = Some n → is_symlink_node n = false.
Definition dir_at (ns : tree) (p : path) : Prop := ∃ m, ns !! p = Some (Dir m).

Lemma walk_cons b ns f cur c rest :
  walk b ns f cur (c :: rest) =
  if decide (c = "..") then walk b ns f (default [] (parent cur)) rest else
  match ns !! (cur ++ [c]) with
  | None => if decide (rest = []) then Ok (cur ++ [c]) else err NotFound
  | Some (File _ _) => if decide (rest = []) then Ok (cur ++ [c]) else err NotADirectory
  | Some (Dir _) => walk b ns f (cur ++ [c]) rest
  | Some (Symlink _ t) =>
      if bool_decide (rest = []) && negb f then Ok (cur ++ [c]) else
      match b with
      | O => Err (mkIoError KOther (Some ELOOP))
      | S b => walk b ns f (if is_absolute t then [] else cur) (components t ++ rest)
      end
  end.
Proof. by destruct b. Qed.

Lemma walk_nil b ns f cur : walk b ns f cur [] = Ok cur.
Proof. by destruct b. Qed.

(** Without links and [..], a path resolves to itself or not at all. *)
Lemma walk_plain b ns f cur rest :
  (∀ r1 c r2, rest = r1 ++ c :: r2 → c ≠ ".." ∧ plain_node ns (cur ++ r1 ++ [c])) →
  walk b ns f cur rest = Ok (cur ++ rest) ∨ ∃ e, walk b ns f cur rest = Err e.
Proof.
  revert cur. induction rest as [|c rest IH]; intros cur Hp.
  - rewrite walk_nil, app_nil_r. by left.
  - rewrite walk_cons. destruct (Hp [] c rest eq_refl) as [Hc Hn]. simpl in Hn.
    rewrite decide_False by done. unfold plain_node in Hn.
    destruct (ns !! (cur ++ [c])) as [[]|] eqn:E; simpl.
    + case_decide; subst; [by left | right; unfold err; eauto].
    + destruct (IH (cur ++ [c])) as [-> | He]; [| |by right].
      * intros r1 c' r2 ->. rewrite <- app_assoc. apply (Hp (c :: r1) c' r2). done.
      * left. by rewrite <- app_assoc.
    + by specialize (Hn _ eq_refl).
    + case_decide; subst; [by left | right; unfold err; eauto].
Qed.

(** ... and to itself when every directory on the way exists. *)
Lemma walk_dirs b ns f cur rest :
  (∀ r1 c r2, rest = r1 ++ c :: r2 →
     c ≠ ".." ∧ (r2 ≠ [] → dir_at ns (cur ++ r1 ++ [c])) ∧ plain_node ns (cur ++ r1 ++ [c])) →
  walk b ns f cur rest = Ok (cur ++ rest).
Proof.
  revert cur. induction rest as [|c rest IH]; intros cur Hp.
  - by rewrite walk_nil, app_nil_r.
  - rewrite walk_cons. destruct (Hp [] c rest eq_refl) as (Hc & Hd & Hn). simpl in Hd, Hn.
    rewrite decide_False by done. unfold plain_node in Hn.
    assert (∀ m, ns !! (cur ++ [c]) = Some (Dir m) →
            walk b ns f (cur ++ [c]) rest = Ok (cur ++ c :: rest)) as Hdir.
    { intros m _. rewrite IH; [by rewrite <- app_assoc|].
      intros r1 c' r2 ->. rewrite <- app_assoc. apply (Hp (c :: r1) c' r2). done. }
    destruct (decide (rest = [])) as [->|Hr].
    + destruct (ns !! (cur ++ [c])) as [[]|] eqn:E; simpl; eauto.
      by specialize (Hn _ eq_refl).
    + destruct (Hd Hr) as [m Hm]. rewrite Hm. eauto.
Qed.

(** Conversely, a path that resolves has its directories. *)
Lemma walk_ok_dirs b ns f cur rest q :
  (∀ r1 c r2, rest = r1 ++ c :: r2 → c ≠ ".." ∧ plain_node ns (cur ++ r1 ++ [c])) →
  walk b ns f cur rest = Ok q →
  ∀ r1 c r2, rest = r1 ++ c :: r2 → r2 ≠ [] → dir_at ns (cur ++ r1 ++ [c]).
Proof.
  revert cur. induction rest as [|c rest IH]; intros cur Hp Hw r1 c' r2 Heq Hr2; [by destruct r1|].
  rewrite walk_cons in Hw. destruct (Hp [] c rest eq_refl) as [Hc Hn]. simpl in Hn.
  rewrite decide_False in Hw by done.
  assert (rest ≠ []) as Hne by (destruct r1; simplify_eq/=; [done | by destruct r1]).
  unfold plain_node in Hn. destruct (ns !! (cur ++ [c])) as [[]|] eqn:E; simpl in *.
  - by rewrite decide_False in Hw.
  - destruct r1 as [|c1 r1]; simplify_eq/=; [by eexists|].
    assert (dir_at ns ((cur ++ [c1]) ++ r1 ++ [c'])) as Hd; [|by rewrite <- app_assoc in Hd].
    eapply (IH (cur ++ [c1])); [|done | done | done].
    intros s1 d s2 Hs. rewrite <- app_assoc. apply (Hp (c1 :: s1) d s2). by rewrite Hs.
  - by specialize (Hn _ eq_refl).
  - by rewrite decide_False in Hw.
Qed.

(** ** Plain working trees *)

Section plain.
Context (W : path).

Record plain (ns : tree) : Prop := mkPlain {
  pl_root_names : Forall (λ c, c ≠ "..") W;
  pl_root : ∀ q, q `prefix_of` W → dir_at ns q;
  pl_parent : ∀ r c, is_Some (ns !! (W ++ r ++ [c])) → dir_at ns (W ++ r);
  pl_clean : ∀ r, is_Some (ns !! (W ++ r)) → clean r;
  pl_nolink : ∀ r, plain_node ns (W ++ r);
}.

(** Every directory above [W ++ r] exists. *)
Definition reach (ns : tree) (r : path) : Prop :=
  clean r ∧ ∀ r' c, r = r' ++ [c] → dir_at ns (W ++ r').

Lemma dir_not_link ns p : dir_at ns p → plain_node ns p.
Proof. intros [m Hm] n Hn. by simplify_eq. Qed.

(** A component of [W ++ r] is in [W] or below it. *)
Lemma app_cons_split (r r1 r2 : path) c :
  W ++ r = r1 ++ c :: r2 →
  (∃ w, W = r1 ++ c :: w) ∨ (∃ q, r1 = W ++ q ∧ r = q ++ c :: r2).
Proof.
  intros H. destruct (decide (length W ≤ length r1)%nat) as [Hl|Hl].
  - right. exists (drop (length W) r1). apply app_eq_inv in H as [(k & -> & ->)|(k & -> & H)].
    + rewrite length_app in Hl. destruct k; simpl in *; [|lia].
      rewrite app_nil_r, drop_all, app_nil_r. done.
    + rewrite drop_app_length. split; [done|]. by rewrite <- H.
  - left. apply app_eq_inv in H as [(k & HW & Hk)|(k & HW & _)].
    + destruct k as [|c' k]; simplify_eq/=; [rewrite app_nil_r in Hl; lia|]. eauto.
    + apply (f_equal length) in HW. rewrite length_app in HW. lia.
Qed.

Lemma plain_component ns r r1 c r2 :
  plain ns → clean r → W ++ r = r1 ++ c :: r2 → c ≠ ".." ∧ plain_node ns (r1 ++ [c]).
Proof.
  intros Hp Hr H. destruct (app_cons_split _ _ _ _ H) as [[w Hw]|(q & -> & ->)].
  - pose proof (pl_root_names _ Hp) as HW. rewrite Hw in HW.
    apply Forall_app in HW as [_ HW]. apply Forall_cons in HW as [HW _].
    split; [done|]. apply dir_not_link, (pl_root _ Hp). exists w. by rewrite Hw, <- app_assoc.
  - apply clean_app in Hr as [_ Hr]. apply Forall_cons in Hr as [Hc _].
    apply name_ok_spec in Hc. split; [apply Hc|].
    rewrite <- app_assoc. apply (pl_nolink _ Hp).
Qed.

Lemma pl_dir_prefix ns r r' :
  plain ns → dir_at ns (W ++ r ++ r') → dir_at ns (W ++ r).
Proof.
  intros Hp. induction r' as [|c r' IH] using rev_ind; intros Hd.
  - by rewrite app_nil_r in Hd.
  - apply IH. destruct Hd as [m Hm]. apply (pl_parent _ Hp _ c).
    rewrite <- app_assoc. by eexists.
Qed.

Lemma pl_absent_below ns r k : plain ns → ns !! (W ++ r) = None → ns !! (W ++ r ++ k) = None.
Proof.
  intros Hp Hnone. apply eq_None_not_Some. intros Hs.
  destruct (path_cases k) as [->|(k' & c & ->)]; [rewrite app_nil_r, Hnone in Hs; by destruct Hs|].
  rewrite (app_assoc r) in Hs. apply (pl_parent _ Hp) in Hs.
  apply pl_dir_prefix in Hs as [m Hm]; [congruence|done].
Qed.

Lemma resolve_reach ns f r : plain ns → reach ns r → resolve ns f (W ++ r) = Ok (W ++ r).
Proof.
  intros Hp [Hr Hd]. unfold resolve. apply (walk_dirs 40 ns f []).
  intros r1 c r2 H. destruct (plain_component _ _ _ _ _ Hp Hr H) as [Hc Hn].
  split_and!; [done | | done]. intros Hr2. simpl.
  destruct (app_cons_split _ _ _ _ H) as [[w Hw]|(q & -> & ->)].
  - apply (pl_root _ Hp). exists w. by rewrite Hw, <- app_assoc.
  - rewrite <- app_assoc. destruct (path_cases r2) as [->|(r3 & c3 & ->)]; [done|].
    apply (pl_dir_prefix _ _ r3 Hp). rewrite <- app_assoc. simpl.
    apply (Hd _ c3). by rewrite <- app_assoc.
Qed.

Lemma resolve_plain ns f r :
  plain ns → clean r →
  resolve ns f (W ++ r) = Ok (W ++ r) ∨ ∃ e, resolve ns f (W ++ r) = Err e.
Proof.
  intros Hp Hr. apply (walk_plain 40 ns f []).
  intros r1 c r2 H. by destruct (plain_component _ _ _ _ _ Hp Hr H).
Qed.

Lemma resolve_reach_inv ns f r q :
  plain ns → clean r → resolve ns f (W ++ r) = Ok q → q = W ++ r ∧ reach ns r.
Proof.
  intros Hp Hr Hq. destruct (resolve_plain ns f r Hp Hr) as [H|[e H]]; [|congruence].
  split; [congruence|]. split; [done|]. intros r' c ->.
  destruct (path_cases r') as [->|(r'' & c'' & ->)].
  - rewrite app_nil_r. by apply (pl_root _ Hp).
  - rewrite app_assoc. apply (walk_ok_dirs 40 ns f [] (W ++ (r'' ++ [c'']) ++ [c]) q) with (r2 := [c]).
    + intros r1 c1 r2 Heq. by destruct (plain_component _ _ _ _ _ Hp Hr Heq).
    + exact Hq.
    + by rewrite <- !app_assoc.
    + done.
Qed.

Lemma reach_present ns r : plain ns → is_Some (ns !! (W ++ r)) → reach ns r.
Proof.
  intros Hp Hs. split; [by apply (pl_clean _ Hp)|].
  intros r' c ->. by apply (pl_parent _ Hp r' c).
Qed.

Lemma lookup_node_present ns f r n :
  plain ns → ns !! (W ++ r) = Some n → lookup_node ns f (W ++ r) = Ok (W ++ r, n).
Proof.
  intros Hp Hn. unfold lookup_node. rewrite resolve_reach by (done || by apply reach_present).
  simpl. by rewrite Hn.
Qed.

Lemma lookup_node_absent ns f r :
  plain ns → clean r → ns !! (W ++ r) = None → ∃ e, lookup_node ns f (W ++ r) = Err e.
Proof.
  intros Hp Hr Hn. unfold lookup_node.
  destruct (resolve_plain ns f r Hp Hr) as [-> | [e ->]]; simpl; [|eauto].
  rewrite Hn. unfold err. eauto.
Qed.

Lemma symlink_metadata_present ns r n :
  plain ns → ns !! (W ++ r) = Some n → symlink_metadata ns (W ++ r) = Ok n.
Proof. intros Hp Hn. unfold symlink_metadata. by rewrite (lookup_node_present _ _ _ n). Qed.

Lemma symlink_metadata_is_ok ns r :
  plain ns → clean r → is_ok (symlink_metadata ns (W ++ r)) = bool_decide (is_Some (ns !! (W ++ r))).
Proof.
  intros Hp Hr. destruct (ns !! (W ++ r)) as [n|] eqn:E.
  - by rewrite (symlink_metadata_present _ _ n).
  - unfold symlink_metadata. by destruct (lookup_node_absent ns false r Hp Hr E) as [e ->].
Qed.

Lemma path_exists_plain ns r :
  plain ns → clean r → path_exists ns (W ++ r) = bool_decide (is_Some (ns !! (W ++ r))).
Proof.
  intros Hp Hr. unfold path_exists, metadata. destruct (ns !! (W ++ r)) as [n|] eqn:E.
  - by rewrite (lookup_node_present _ _ _ n).
  - by destruct (lookup_node_absent ns true r Hp Hr E) as [e ->].
Qed.

Lemma path_is_dir_plain ns r :
  plain ns → clean r →
  path_is_dir ns (W ++ r) = match ns !! (W ++ r) with Some n => is_dir_node n | None => false end.
Proof.
  intros Hp Hr. unfold path_is_dir, metadata. destruct (ns !! (W ++ r)) as [n|] eqn:E.
  - by rewrite (lookup_node_present _ _ _ n).
  - by destruct (lookup_node_absent ns true r Hp Hr E) as [e ->].
Qed.

(** ** Equality up to directory modification times

    Creating or removing an entry changes the time stamp of its directory;
    [node_sim] forgets exactly that. *)

Definition node_sim (n n' : node) : Prop :=
  match n, n' with
  | Dir m, Dir m' => m_perm m = m_perm m' ∧ m_xattrs m = m_xattrs m'
  | Dir _, _ | _, Dir _ => False
  | _, _ => n = n'
  end.

#[export] Instance node_sim_equiv : Equivalence node_sim.
Proof.
  split.
  - by intros [].
  - intros [] []; simpl; naive_solver.
  - intros [] [] []; simpl; naive_solver congruence.
Qed.

Definition tree_sim (t t' : tree) : Prop := ∀ p, option_Forall2 node_sim (t !! p) (t' !! p).

#[export] Instance tree_sim_equiv : Equivalence tree_sim.
Proof.
  split.
  - intros t p. destruct (t !! p); by constructor.
  - intros t1 t2 H p. specialize (H p). inversion H; constructor; by symmetry.
  - intros t1 t2 t3 H1 H2 p. specialize (H1 p). specialize (H2 p).
    inversion H1; inversion H2; simplify_eq; try congruence; constructor.
    match goal with A : Some _ = t2 !! p, B : Some _ = t2 !! p |- _ => rewrite <- A in B end.
    simplify_eq. by etrans.
Qed.

Lemma tree_sim_lookup t t' p : tree_sim t t' → is_Some (t !! p) ↔ is_Some (t' !! p).
Proof. intros H. destruct (H p); split; intros [? ?]; eauto; done. Qed.

Lemma tree_sim_None t t' p : tree_sim t t' → t !! p = None ↔ t' !! p = None.
Proof. rewrite !eq_None_not_Some. intros H. by rewrite (tree_sim_lookup _ _ _ H). Qed.

Lemma tree_sim_Some t t' p n :
  tree_sim t t' → t !! p = Some n → ∃ n', t' !! p = Some n' ∧ node_sim n n'.
Proof. intros H Hn. specialize (H p). rewrite Hn in H. inversion H; eauto. Qed.

Lemma tree_sim_dir t t' p : tree_sim t t' → dir_at t p → dir_at t' p.
Proof.
  intros H [m Hm]. destruct (tree_sim_Some _ _ _ _ H Hm) as ([] & Hn & Hs); try done.
  by eexists.
Qed.

Lemma tree_sim_insert t t' p n n' :
  tree_sim t t' → node_sim n n' → tree_sim (<[p := n]> t) (<[p := n']> t').
Proof.
  intros H Hn q. destruct (decide (q = p)) as [->|Hq].
  - rewrite !lookup_insert_eq. by constructor.
  - rewrite !lookup_insert_ne by done. apply H.
Qed.

Lemma tree_sim_delete t t' p : tree_sim t t' → tree_sim (delete p t) (delete p t').
Proof.
  intros H q. destruct (decide (q = p)) as [->|Hq].
  - rewrite !lookup_delete_eq. by constructor.
  - rewrite !lookup_delete_ne by done. apply H.
Qed.

#[export] Instance plain_sim : Proper (tree_sim ==> iff) plain.
Proof.
  assert (∀ t t', tree_sim t t' → plain t → plain t') as Himp.
  { intros t t' H [H1 H2 H3 H4 H5]. split; [done| | | |].
    - intros q Hq. eapply tree_sim_dir; eauto.
    - intros r c Hs. eapply tree_sim_dir, (H3 r c); [done|]. by rewrite tree_sim_lookup.
    - intros r Hs. apply H4. by rewrite tree_sim_lookup.
    - intros r n Hn. symmetry in H. destruct (tree_sim_Some _ _ _ _ H Hn) as (n' & Hn' & Hs).
      apply H5 in Hn'. by destruct n, n'. }
  intros t t' H. split; apply Himp; [done | by symmetry].
Qed.

Lemma touch_parent_sim h p t :
  (∀ d n, parent p = Some d → t !! d = Some n → is_dir_node n = true) →
  tree_sim (touch_parent h p t) t.
Proof.
  intros H. unfold touch_parent. destruct (parent p) as [d|]; [|done].
  intros q. destruct (decide (q = d)) as [->|Hq].
  - rewrite lookup_alter_eq. destruct (t !! d) as [n|] eqn:E; [|constructor].
    specialize (H d n eq_refl E). destruct n; try done. by constructor.
  - rewrite lookup_alter_ne by done. destruct (t !! q); by constructor.
Qed.

Lemma option_sim_trans (x y z : option node) :
  option_Forall2 node_sim x y → option_Forall2 node_sim y z → option_Forall2 node_sim x z.
Proof. intros H1 H2. destruct H1; inversion H2; constructor. by etrans. Qed.
Lemma option_sim_refl (x : option node) : option_Forall2 node_sim x x.
Proof. by destruct x; constructor. Qed.
Lemma option_sim_sym (x y : option node) :
  option_Forall2 node_sim x y → option_Forall2 node_sim y x.
Proof. intros []; constructor. by symmetry. Qed.

(** ** Well-formedness under updates *)

Lemma app_snoc_ne (r : path) c : r ≠ r ++ [c].
Proof. intros H. apply (f_equal length) in H. rewrite length_app in H. simpl in H. lia. Qed.

Lemma prefix_app_nil (r : path) : W ++ r `prefix_of` W → r = [].
Proof.
  intros [k Hk]. apply (f_equal length) in Hk. rewrite !length_app in Hk.
  destruct r; [done|]. simpl in Hk. lia.
Qed.

Lemma plain_insert_new t r n :
  plain t → reach t r → t !! (W ++ r) = None → is_symlink_node n = false →
  plain (<[W ++ r := n]> t).
Proof.
  intros Hp [Hr Hd] Hnone Hn.
  assert (∀ q, dir_at t q → dir_at (<[W ++ r := n]> t) q) as Hkeep.
  { intros q [m Hm]. exists m. rewrite lookup_insert_ne; [done|]. congruence. }
  split; [apply (pl_root_names _ Hp)| | | |].
  - intros q Hq. by apply Hkeep, (pl_root _ Hp).
  - intros r' c Hs. destruct (decide (r = r' ++ [c])) as [->|Hne]; [eauto|].
    rewrite lookup_insert_ne in Hs by (intros ?; simplify_eq). apply Hkeep.
    by apply (pl_parent _ Hp r' c).
  - intros r' Hs. destruct (decide (r = r')) as [->|Hne]; [done|].
    rewrite lookup_insert_ne in Hs by (intros ?; simplify_eq). by apply (pl_clean _ Hp).
  - intros r' n' Hs. destruct (decide (r = r')) as [->|Hne].
    + rewrite lookup_insert_eq in Hs. by simplify_eq.
    + rewrite lookup_insert_ne in Hs by (intros ?; simplify_eq). by apply (pl_nolink _ Hp r').
Qed.

Lemma plain_update t r n n0 :
  plain t → t !! (W ++ r) = Some n0 → is_dir_node n = is_dir_node n0 →
  is_symlink_node n = false → plain (<[W ++ r := n]> t).
Proof.
  intros Hp Hn0 Hd Hn.
  assert (∀ q, dir_at t q → dir_at (<[W ++ r := n]> t) q) as Hkeep.
  { intros q [m Hm]. destruct (decide (q = W ++ r)) as [->|Hq].
    - simplify_eq. destruct n; try done. eexists. apply lookup_insert_eq.
    - exists m. by rewrite lookup_insert_ne. }
  assert (∀ q, is_Some (<[W ++ r := n]> t !! q) → is_Some (t !! q)) as Hback.
  { intros q Hq. destruct (decide (q = W ++ r)) as [->|Hne]; [eauto|].
    by rewrite lookup_insert_ne in Hq. }
  split; [apply (pl_root_names _ Hp)| | | |].
  - intros q Hq. by apply Hkeep, (pl_root _ Hp).
  - intros r' c Hs. by apply Hkeep, (pl_parent _ Hp r' c), Hback.
  - intros r' Hs. by apply (pl_clean _ Hp), Hback.
  - intros r' n' Hs. destruct (decide (r = r')) as [->|Hne].
    + rewrite lookup_insert_eq in Hs. by simplify_eq.
    + rewrite lookup_insert_ne in Hs by (intros ?; simplify_eq). by apply (pl_nolink _ Hp r').
Qed.

(** Removing a set of paths below [W] that is closed under descendants. *)
Lemma plain_remove t t' (P : path → Prop) :
  plain t → ¬ P [] → (∀ r c, P r → P (r ++ [c])) →
  (∀ r, P r → t' !! (W ++ r) = None) →
  (∀ r, ¬ P r → t' !! (W ++ r) = t !! (W ++ r)) →
  (∀ q, q `prefix_of` W → t' !! q = t !! q) → plain t'.
Proof.
  intros Hp Hnil Hclosed Hgone Hsame Habove.
  assert (∀ r, is_Some (t' !! (W ++ r)) → ¬ P r ∧ is_Some (t !! (W ++ r))) as Hback.
  { intros r Hs. assert (¬ P r) as HP by (intros HP; rewrite (Hgone r HP) in Hs; by destruct Hs).
    split; [done|]. by rewrite <- (Hsame r HP). }
  split; [apply (pl_root_names _ Hp)| | | |].
  - intros q Hq. unfold dir_at. rewrite (Habove q Hq). by apply (pl_root _ Hp).
  - intros r c [HP Hs]%Hback. unfold dir_at. rewrite Hsame; [by apply (pl_parent _ Hp r c)|].
    intros HP'. by apply HP, Hclosed.
  - intros r [_ Hs]%Hback. by apply (pl_clean _ Hp).
  - intros r n Hn. destruct (Hback r ltac:(by eexists)) as [HP _].
    rewrite Hsame in Hn by done. by apply (pl_nolink _ Hp r).
Qed.

Lemma plain_delete t r :
  plain t → r ≠ [] → (∀ c, t !! (W ++ r ++ [c]) = None) → plain (delete (W ++ r) t).
Proof.
  intros Hp Hr Hleaf.
  assert (∀ k, k ≠ [] → t !! (W ++ r ++ k) = None) as Hbelow.
  { intros [|c k] Hk; [done|]. change (c :: k) with ([c] ++ k).
    rewrite (app_assoc r). apply pl_absent_below; [done|]. apply Hleaf. }
  apply (plain_remove t _ (λ q, r `prefix_of` q)); [done| | | | |].
  - intros [k Hk]. destruct r; done.
  - intros q c Hq. by apply prefix_app_r.
  - intros q [k ->]. destruct (decide (k = [])) as [->|Hk].
    + by rewrite app_nil_r, lookup_delete_eq.
    + rewrite lookup_delete_ne; [by apply Hbelow|]. intros H.
      apply (f_equal length) in H. rewrite !length_app in H. destruct k; [done|]. simpl in H. lia.
  - intros q Hq. apply lookup_delete_ne. intros H. by simplify_eq.
  - intros q Hq. apply lookup_delete_ne. intros <-. by apply prefix_app_nil in Hq.
Qed.

Lemma delete_subtree_in t r q : r `prefix_of` q → delete_subtree (W ++ r) t !! (W ++ q) = None.
Proof.
  intros Hq. apply map_lookup_filter_None. right. intros n _ Hn. by apply Hn, prefix_app.
Qed.

Lemma delete_subtree_out t r p :
  ¬ W ++ r `prefix_of` p → delete_subtree (W ++ r) t !! p = t !! p.
Proof.
  intros Hp. unfold delete_subtree. destruct (t !! p) eqn:E.
  - by apply map_lookup_filter_Some.
  - apply map_lookup_filter_None. by left.
Qed.

Lemma plain_delete_subtree t r :
  plain t → r ≠ [] → plain (delete_subtree (W ++ r) t).
Proof.
  intros Hp Hr. apply (plain_remove t _ (λ q, r `prefix_of` q)); [done| | | | |].
  - intros [k Hk]. destruct r; done.
  - intros q c Hq. by apply prefix_app_r.
  - apply delete_subtree_in.
  - intros q Hq. apply delete_subtree_out. intros H. by apply prefix_app_inv in H.
  - intros q Hq. apply delete_subtree_out. intros H. apply Hr, prefix_app_nil. by etrans.
Qed.

(** ** Effects of the operations *)

Lemma reach_parent t r : plain t → t !! (W ++ r) = None → reach t r →
  ∃ r' c, r = r' ++ [c] ∧ dir_at t (W ++ r').
Proof.
  intros Hp Hnone [Hr Hd]. destruct (path_cases r) as [->|(r' & c & ->)]; [|by eauto].
  rewrite app_nil_r in Hnone. destruct (pl_root _ Hp W) as [m Hm]; [done|congruence].
Qed.

Lemma parent_app_snoc r c : parent (W ++ r ++ [c]) = Some (W ++ r).
Proof. rewrite app_assoc. apply parent_snoc. Qed.

Lemma add_node_sim h t r n :
  plain t → reach t r → t !! (W ++ r) = None →
  tree_sim (add_node h (W ++ r) n t) (<[W ++ r := n]> t).
Proof.
  intros Hp Hr Hnone. apply touch_parent_sim. intros d n' Hd Hn'.
  destruct (reach_parent t r Hp Hnone Hr) as (r' & c & -> & [m Hm]).
  rewrite parent_app_snoc in Hd. simplify_eq.
  rewrite lookup_insert_ne in Hn' by (rewrite app_assoc; intros H; by apply (app_snoc_ne (W ++ r') c)).
  by simplify_eq.
Qed.

Lemma fs_write_existing h t r m c c' :
  plain t → t !! (W ++ r) = Some (File m c) →
  fs_write h t (W ++ r) c' = Ok (<[W ++ r := File (set_mtime (h_clock h) m) c']> t).
Proof.
  intros Hp Hn. unfold fs_write. rewrite resolve_reach by (done || apply reach_present; eauto).
  simpl. by rewrite Hn.
Qed.

Lemma fs_write_new h t r c :
  plain t → reach t r → t !! (W ++ r) = None →
  fs_write h t (W ++ r) c = Ok (add_node h (W ++ r) (File (new_meta h (h_file_perm h)) c) t).
Proof. intros Hp Hr Hn. unfold fs_write. rewrite resolve_reach by done. simpl. by rewrite Hn. Qed.

Lemma create_dir_new h t r :
  plain t → reach t r → t !! (W ++ r) = None →
  create_dir h t (W ++ r) = Ok (add_node h (W ++ r) (Dir (new_meta h (h_dir_perm h))) t).
Proof. intros Hp Hr Hn. unfold create_dir. rewrite resolve_reach by done. simpl. by rewrite Hn. Qed.

Lemma create_dir_all_new h t r :
  plain t → reach t r → t !! (W ++ r) = None →
  create_dir_all h t (W ++ r) = Ok (add_node h (W ++ r) (Dir (new_meta h (h_dir_perm h))) t).
Proof.
  intros Hp Hr Hn. unfold create_dir_all.
  assert (rev (W ++ r) ≠ []) as Hne.
  { intros H. apply (f_equal (@rev string)) in H. rewrite rev_involutive in H. simpl in H.
    apply app_eq_nil in H as [HW ->].
    destruct (pl_root _ Hp []) as [m Hm]; [by exists W|]. rewrite HW in Hn. simpl in Hn. congruence. }
  destruct (rev (W ++ r)) as [|c rp] eqn:E; [done|].
  cbn [create_dir_all_rev]. rewrite <- E, rev_involutive. by rewrite create_dir_new.
Qed.

Lemma present_parent_dir t r n d n' :
  plain t → t !! (W ++ r) = Some n → r ≠ [] →
  parent (W ++ r) = Some d → t !! d = Some n' → is_dir_node n' = true.
Proof.
  intros Hp Hn Hr Hd Hn'. destruct (path_cases r) as [->|(r' & c & ->)]; [done|].
  rewrite parent_app_snoc in Hd. simplify_eq.
  destruct (pl_parent _ Hp r' c) as [m Hm]; [eauto|]. by simplify_eq.
Qed.

Lemma remove_file_present h t r n :
  plain t → t !! (W ++ r) = Some n → is_dir_node n = false →
  ∃ t', remove_file h t (W ++ r) = Ok t' ∧ tree_sim t' (delete (W ++ r) t).
Proof.
  intros Hp Hn Hd. unfold remove_file. rewrite (lookup_node_present _ _ _ n) by done. simpl.
  assert (r ≠ []) as Hr.
  { intros ->. rewrite app_nil_r in Hn. destruct (pl_root _ Hp W) as [m Hm]; [done|].
    by simplify_eq. }
  exists (touch_parent h (W ++ r) (delete (W ++ r) t)). split; [by destruct n|].
  apply touch_parent_sim. intros d n' Hpar Hn'.
  rewrite lookup_delete_Some in Hn'. destruct Hn' as [_ Hn'].
  by apply (present_parent_dir t r n d n').
Qed.

Lemma remove_dir_all_present h t r m :
  plain t → t !! (W ++ r) = Some (Dir m) → r ≠ [] →
  ∃ t', remove_dir_all h t (W ++ r) = Ok t' ∧ tree_sim t' (delete_subtree (W ++ r) t).
Proof.
  intros Hp Hn Hr. unfold remove_dir_all. rewrite (lookup_node_present _ _ _ (Dir m)) by done.
  eexists. split; [done|]. apply touch_parent_sim. intros d n' Hpar Hn'.
  apply map_lookup_filter_Some in Hn' as [Hn' _].
  by apply (present_parent_dir t r (Dir m) d n').
Qed.

Lemma children_elem t r c : c ∈ children t (W ++ r) ↔ is_Some (t !! (W ++ r ++ [c])).
Proof.
  unfold children. rewrite list_elem_of_omap. split.
  - intros ([p n] & Hin & Hc). apply elem_of_map_to_list in Hin. unfold child_name in Hc. simpl in Hc.
    destruct (strip_prefix (W ++ r) p) as [[|c' [|]]|] eqn:E; simplify_eq.
    apply strip_prefix_Some in E. rewrite <- app_assoc in E. subst p. by eexists.
  - intros [n Hn]. exists (W ++ r ++ [c], n). split; [by apply elem_of_map_to_list|].
    unfold child_name. simpl. by rewrite app_assoc, strip_prefix_app.
Qed.

Lemma children_nil t r c : plain t → children t (W ++ r) = [] → t !! (W ++ r ++ [c]) = None.
Proof.
  intros Hp H. apply eq_None_not_Some. rewrite <- children_elem, H. apply not_elem_of_nil.
Qed.

(** A path whose every prefix exists is shorter than the tree is large. *)
Lemma length_lt_size (t : tree) (p : path) :
  (∀ q, q `prefix_of` p → is_Some (t !! q)) → (length p < size t)%nat.
Proof.
  intros H. set (l := (λ i, take i p) <$> seq 0 (S (length p))).
  assert (NoDup l) as Hnd.
  { apply NoDup_fmap_2_strong; [|apply NoDup_seq]. intros i j Hi Hj Heq.
    apply (f_equal length) in Heq. rewrite !length_take in Heq.
    apply elem_of_seq in Hi, Hj. lia. }
  assert (list_to_set l ⊆ dom t) as Hsub.
  { intros q. rewrite elem_of_list_to_set, elem_of_dom. unfold l.
    intros (i & -> & _)%list_elem_of_fmap. apply H. exists (drop i p). by rewrite take_drop. }
  apply subseteq_size in Hsub. rewrite size_list_to_set, size_dom in Hsub by done.
  unfold l in Hsub. rewrite length_fmap, length_seq in Hsub. lia.
Qed.

Lemma present_length t r : plain t → is_Some (t !! (W ++ r)) → (length (W ++ r) < size t)%nat.
Proof.
  intros Hp Hs. apply length_lt_size. intros q [k Hk].
  destruct (decide (q `prefix_of` W)) as [Hq|Hq].
  - destruct (pl_root _ Hp q Hq) as [m Hm]. by eexists.
  - apply app_eq_inv in Hk as [(k' & HW & _)|(k' & -> & ->)].
    + exfalso. apply Hq. by exists k'.
    + apply not_eq_None_Some. intros Hn. by rewrite (pl_absent_below _ _ k Hp Hn) in Hs; destruct Hs.
Qed.

Lemma read_dir_present h t r m :
  plain t → t !! (W ++ r) = Some (Dir m) →
  read_dir h t (W ++ r) = Ok (h_order h (children t (W ++ r))).
Proof. intros Hp Hm. unfold read_dir. by rewrite (lookup_node_present _ _ _ (Dir m)). Qed.

Lemma remove_dir_inv h t r t' :
  plain t → r ≠ [] → clean r → remove_dir h t (W ++ r) = Ok t' →
  (∃ m, t !! (W ++ r) = Some (Dir m)) ∧ (∀ c, t !! (W ++ r ++ [c]) = None) ∧
  t' = touch_parent h (W ++ r) (delete (W ++ r) t) ∧ tree_sim t' (delete (W ++ r) t).
Proof.
  intros Hp Hr Hc. unfold remove_dir. destruct (t !! (W ++ r)) as [n|] eqn:Hn.
  - rewrite (lookup_node_present _ _ _ n) by done. simpl. destruct n; try done.
    case_decide as Hch; [|done]. intros [= <-]. split_and!; [eauto| |done|].
    + intros c. by apply children_nil.
    + apply touch_parent_sim. intros d n' Hpar Hn'.
      rewrite lookup_delete_Some in Hn'. destruct Hn' as [_ Hn'].
      by apply (present_parent_dir t r (Dir m) d n').
  - destruct (lookup_node_absent t false r Hp Hc Hn) as [e He]. by rewrite He.
Qed.

Lemma remove_file_inv h t r t' :
  plain t → clean r → remove_file h t (W ++ r) = Ok t' →
  ∃ n, t !! (W ++ r) = Some n ∧ is_dir_node n = false ∧
       t' = touch_parent h (W ++ r) (delete (W ++ r) t) ∧ tree_sim t' (delete (W ++ r) t).
Proof.
  intros Hp Hc Hrm. destruct (t !! (W ++ r)) as [n|] eqn:Hn.
  - exists n. assert (is_dir_node n = false) as Hd.
    { unfold remove_file in Hrm. rewrite (lookup_node_present _ _ _ n) in Hrm by done. by destruct n. }
    destruct (remove_file_present h t r n Hp Hn Hd) as (t'' & Hrm' & Hsim).
    rewrite Hrm in Hrm'. simplify_eq. split_and!; try done.
    unfold remove_file in Hrm. rewrite (lookup_node_present _ _ _ n) in Hrm by done.
    by destruct n; simplify_eq/=.
  - unfold remove_file in Hrm. destruct (lookup_node_absent t false r Hp Hc Hn) as [e He].
    by rewrite He in Hrm.
Qed.

Lemma create_inv (h : host) (t : tree) (r : path) (n : node) (op : tree → path → io tree) t' :
  (∀ (t : tree) p, op t p =
     (q ← resolve t false p;
      match t !! q with Some _ => err AlreadyExists | None => Ok (add_node h q n t) end)) →
  plain t → clean r → op t (W ++ r) = Ok t' →
  t !! (W ++ r) = None ∧ reach t r ∧ t' = add_node h (W ++ r) n t.
Proof.
  intros Hop Hp Hc Ho. rewrite Hop in Ho. apply bind_ok_inv in Ho as (q & Hq & Ho).
  destruct (resolve_reach_inv t false r q Hp Hc Hq) as [-> Hr].
  destruct (t !! (W ++ r)); by simplify_eq.
Qed.

Lemma set_permissions_present t r n mode :
  plain t → t !! (W ++ r) = Some n →
  set_permissions t (W ++ r) mode
  = Ok (<[W ++ r := with_meta (set_perm (Z.land mode 0xFFF)) n]> t).
Proof. intros Hp Hn. unfold set_permissions. by rewrite (lookup_node_present _ _ _ n). Qed.

End plain.
