(* ===== verification/Common.v ===== *)
(** * Shared types

    Models [crates/common/src/lib.rs]: identifiers, policies, undo barriers,
    safeguard events, resource limits and the error type every component of the
    undo log returns.  A time stamp ([DateTime<Utc>]) is a [Z].

    The error type of the orchestrator ([crates/sandbox/src/error.rs]) is at
    the end. *)

From stdpp Require Import base gmap strings list.
From S2P Require Import Prelude HostFs.
#[local] Open Scope Z_scope.

Abbreviation StepId := Z (only parsing).
Abbreviation BarrierId := Z (only parsing).
Abbreviation SafeguardId := Z (only parsing).

Inductive StepType := StepCommand | StepAmbient | StepApi.

Record StepInfo := mkStepInfo {
  si_id : StepId;
  si_step_type : StepType;
  si_timestamp : Z;
  si_command : option string;
  si_affected_paths : list path;
}.

Inductive ExternalModificationPolicy := PolicyBarrier | PolicyWarn.

Inductive SymlinkPolicy := SymlinkIgnore | SymlinkReadOnly | SymlinkReadWrite.

Inductive BarrierReason := SessionStart | ExternalModification.

Inductive FileChangeKind := Created | Modified | Deleted | Renamed.

#[export] Instance SymlinkPolicy_eq_dec : EqDecision SymlinkPolicy.
Proof. solve_decision. Defined.
#[export] Instance BarrierReason_eq_dec : EqDecision BarrierReason.
Proof. solve_decision. Defined.

Record AffectedPath := mkAffectedPath {
  ap_path : path;
  ap_kind : FileChangeKind;
  ap_renamed_from : option path;
}.

(** [From<PathBuf>]: a bare path is a modification. *)
Definition AffectedPath_from (p : path) : AffectedPath := mkAffectedPath p Modified None.

Record BarrierInfo := mkBarrierInfo {
  bi_barrier_id : BarrierId;
  bi_after_step_id : StepId;
  bi_timestamp : Z;
  bi_affected_paths : list AffectedPath;
  bi_reason : BarrierReason;
}.

Record RollbackResult := mkRollbackResult {
  rr_steps_rolled_back : nat;
  rr_barriers_crossed : list BarrierInfo;
}.

Inductive SafeguardKind :=
  | DeleteThreshold (count threshold : Z)
  | OverwriteLargeFile (path : string) (file_size threshold : Z)
  | RenameOverExisting (source destination : string).

Record ResourceLimitsConfig := mkResourceLimits {
  max_log_size_bytes : option Z;
  max_step_count : option nat;
  max_single_step_size_bytes : option Z;
}.

Record SafeguardConfig := mkSafeguardConfig {
  delete_threshold : option Z;
  overwrite_file_size_threshold : option Z;
  rename_over_existing : bool;
}.

Record SafeguardEvent := mkSafeguardEvent {
  se_safeguard_id : SafeguardId;
  se_step_id : StepId;
  se_kind : SafeguardKind;
  se_sample_paths : list string;
}.

Inductive SafeguardDecision := Allow | Deny.

Inductive CodeAgentError :=
  | CaIo (source : io_error)
  | StepNotActive (step_id : StepId)
  | NoActiveStep
  | StepAlreadyActive (step_id : StepId)
  | ManifestError (message : string)
  | RollbackError (message : string)
  | PreimageError (p : path) (message : string)
  | SerializationError
  | Decompression (message : string)
  | RecoveryError (message : string)
  | RollbackBlocked (count : nat) (barriers : list BarrierInfo)
  | SafeguardDenied (safeguard_id : SafeguardId) (step_id : StepId)
  | StepUnprotected (step_id : StepId)
  | UndoDisabled (expected_version found_version : string).

(** ** The step life cycle as the control channel sees it

    The trait [StepManager]; [sm_set_step_command] returns nothing and cannot
    fail. *)
Class StepManager (S : Type) := {
  sm_open_step : StepId → stm S CodeAgentError unit;
  sm_close_step : StepId → stm S CodeAgentError (list StepId);
  sm_current_step : S → option StepId;
  sm_set_step_command : StepId → string → S → S;
}.

(** ** Errors of the sandbox

    Models [crates/sandbox/src/error.rs].  The text of a response that only
    prints an error keeps the error ([error_text]). *)

Inductive AgentError :=
  | SessionNotActive
  | SessionAlreadyActive
  | InvalidWorkingDir (p : string)
  | UndoDirectoryOverlap (working_dir undo_dir : string)
  | QemuUnavailable
  | QemuSpawnFailed (reason : string)
  | ControlChannelFailed (reason : string)
  | VirtioFsFailed (reason : string)
  | NotImplemented (feature : string)
  | AeUndo (e : CodeAgentError)
  | FileWatcherFailed (reason : string)
  | AeIo (e : io_error).

Inductive error_text :=
  | Text (s : string)
  | FromAgent (e : AgentError)
  | FromUndo (e : CodeAgentError)
  | FromIo (e : io_error).
