(* ===== verification/WriteInterceptor.v ===== *)
(** * The interface between the filesystem backends and the interceptor

    Models the trait of [crates/interceptor/src/write_interceptor.rs], which
    both backends (the 9P server and the virtio-fs file system) call around
    every change they make.  A trait object is a value of the record
    [WriteInterceptor S]: the hooks as programs over the host state [S] they
    share with the backend, of which the backend sees the file tree
    ([HasTree]). *)

From stdpp Require Import base gmap strings list.
From S2P Require Import Prelude HostFs Common.
#[local] Open Scope Z_scope.

(** ** The file tree inside a host state *)

Class HasTree (S : Type) := { tree_of : S → tree; put_tree : tree → S → S }.

Class HasTreeLaws (S : Type) `{HasTree S} := {
  tree_of_put : ∀ t s, tree_of (put_tree t s) = t;
  put_tree_of : ∀ s, put_tree (tree_of s) s = s;
  put_put_tree : ∀ t t' s, put_tree t (put_tree t' s) = put_tree t s;
}.

#[export] Instance tree_HasTree : HasTree tree := { tree_of := id; put_tree t _ := t }.
#[export] Instance tree_HasTreeLaws : HasTreeLaws tree.
Proof. by split. Qed.

(** ** The trait *)

Record WriteInterceptor (S : Type) := mkWriteInterceptor {
  wi_pre_write : path → stm S CodeAgentError unit;
  wi_pre_unlink : path → bool → stm S CodeAgentError unit;
  wi_pre_rename : path → path → stm S CodeAgentError unit;
  wi_post_create : path → stm S CodeAgentError unit;
  wi_post_mkdir : path → stm S CodeAgentError unit;
  wi_pre_setattr : path → stm S CodeAgentError unit;
  wi_pre_link : path → path → stm S CodeAgentError unit;
  wi_post_symlink : string → path → stm S CodeAgentError unit;
  wi_pre_xattr : path → stm S CodeAgentError unit;
  wi_pre_open_trunc : path → stm S CodeAgentError unit;
  wi_pre_fallocate : path → stm S CodeAgentError unit;
  wi_pre_copy_file_range : path → stm S CodeAgentError unit;
  wi_current_step : S → option StepId;
}.
Arguments wi_pre_write {S}.
Arguments wi_pre_unlink {S}.
Arguments wi_pre_rename {S}.
Arguments wi_post_create {S}.
Arguments wi_post_mkdir {S}.
Arguments wi_pre_setattr {S}.
Arguments wi_pre_link {S}.
Arguments wi_post_symlink {S}.
Arguments wi_pre_xattr {S}.
Arguments wi_pre_open_trunc {S}.
Arguments wi_pre_fallocate {S}.
Arguments wi_pre_copy_file_range {S}.
Arguments wi_current_step {S}.

(** A call of a hook, as data. *)
Inductive hook_call :=
  | PreWrite (p : path)
  | PreUnlink (p : path) (is_dir : bool)
  | PreRename (from to : path)
  | PostCreate (p : path)
  | PostMkdir (p : path)
  | PreSetattr (p : path)
  | PreLink (target link_path : path)
  | PostSymlink (target : string) (link_path : path)
  | PreXattr (p : path)
  | PreOpenTrunc (p : path)
  | PreFallocate (p : path)
  | PreCopyFileRange (dst_path : path).

Definition call_hook {S} (i : WriteInterceptor S) (c : hook_call) : stm S CodeAgentError unit :=
  match c with
  | PreWrite p => wi_pre_write i p
  | PreUnlink p d => wi_pre_unlink i p d
  | PreRename from to => wi_pre_rename i from to
  | PostCreate p => wi_post_create i p
  | PostMkdir p => wi_post_mkdir i p
  | PreSetattr p => wi_pre_setattr i p
  | PreLink target link_path => wi_pre_link i target link_path
  | PostSymlink target link_path => wi_post_symlink i target link_path
  | PreXattr p => wi_pre_xattr i p
  | PreOpenTrunc p => wi_pre_open_trunc i p
  | PreFallocate p => wi_pre_fallocate i p
  | PreCopyFileRange p => wi_pre_copy_file_range i p
  end.

Definition is_post (c : hook_call) : bool :=
  match c with PostCreate _ | PostMkdir _ | PostSymlink _ _ => true | _ => false end.

(** The tree is as it was. *)
Definition same_tree {S} `{HasTree S} (s s' : S) : Prop := tree_of s' = tree_of s.

#[export] Instance same_tree_preorder {S} `{HasTree S} : PreOrder same_tree.
Proof. split; [by intros s|]. intros s1 s2 s3 H1 H2. unfold same_tree in *. congruence. Qed.

(** What a backend relies on: a hook that lets the operation proceed has not
    touched the tree, and a hook that runs after the operation never does (a
    hook that denies may have rolled the step back). *)
Class WriteInterceptorLaws {S} `{HasTree S} (i : WriteInterceptor S) := {
  hook_allows : ∀ c, on_ok same_tree (call_hook i c);
  post_keeps_tree : ∀ c, is_post c = true →
    guarantees same_tree (call_hook i c);
}.
