(* ===== verification/Safeguard.v ===== *)
(** * Safeguards

    Models [crates/interceptor/src/safeguard.rs]: the per-step counters and
    threshold checks of [SafeguardTracker].  [delete_count] and
    [next_safeguard_id] are 64-bit counters; both start small and grow by one
    per call, so the model uses [Z] without a wrap. *)

From stdpp Require Import base gmap strings list.
From S2P Require Import Prelude HostFs Common.
#[local] Open Scope Z_scope.

Record SafeguardTracker := mkTracker {
  st_config : SafeguardConfig;
  st_next_safeguard_id : SafeguardId;
  st_delete_count : Z;
  st_deleted_paths : list string;
  st_allowed_kinds : gset string;
}.

Definition SafeguardTracker_new (config : SafeguardConfig) : SafeguardTracker :=
  mkTracker config 1 0 [] ∅.

Definition tracker_reset (t : SafeguardTracker) : SafeguardTracker :=
  mkTracker (st_config t) (st_next_safeguard_id t) 0 [] ∅.

(** [next_id]: hand out the current identifier and advance. *)
Definition next_id (t : SafeguardTracker) : SafeguardId * SafeguardTracker :=
  (st_next_safeguard_id t,
   mkTracker (st_config t) (st_next_safeguard_id t + 1) (st_delete_count t)
     (st_deleted_paths t) (st_allowed_kinds t)).

Definition check_delete (p : string) (step_id : StepId) (t : SafeguardTracker)
    : option SafeguardEvent * SafeguardTracker :=
  let t := mkTracker (st_config t) (st_next_safeguard_id t) (st_delete_count t + 1)
             (st_deleted_paths t ++ [p]) (st_allowed_kinds t) in
  match delete_threshold (st_config t) with
  | None => (None, t)
  | Some threshold =>
      if st_delete_count t <? threshold then (None, t)
      else if bool_decide ("delete_threshold" ∈ st_allowed_kinds t) then (None, t)
      else
        let '(id, t') := next_id t in
        (Some (mkSafeguardEvent id step_id (DeleteThreshold (st_delete_count t) threshold)
                 (st_deleted_paths t)), t')
  end.

Definition check_overwrite (p : string) (file_size : Z) (step_id : StepId)
    (t : SafeguardTracker) : option SafeguardEvent * SafeguardTracker :=
  match overwrite_file_size_threshold (st_config t) with
  | None => (None, t)
  | Some threshold =>
      if file_size <? threshold then (None, t)
      else if bool_decide ("overwrite_large_file" ∈ st_allowed_kinds t) then (None, t)
      else
        let '(id, t') := next_id t in
        (Some (mkSafeguardEvent id step_id (OverwriteLargeFile p file_size threshold) [p]), t')
  end.

Definition check_rename_over (source destination : string) (step_id : StepId)
    (t : SafeguardTracker) : option SafeguardEvent * SafeguardTracker :=
  if negb (rename_over_existing (st_config t)) then (None, t)
  else if bool_decide ("rename_over_existing" ∈ st_allowed_kinds t) then (None, t)
  else
    let '(id, t') := next_id t in
    (Some (mkSafeguardEvent id step_id (RenameOverExisting source destination)
             [source; destination]), t').

Definition kind_key (kind : SafeguardKind) : string :=
  match kind with
  | DeleteThreshold _ _ => "delete_threshold"
  | OverwriteLargeFile _ _ _ => "overwrite_large_file"
  | RenameOverExisting _ _ => "rename_over_existing"
  end.

Definition mark_allowed (kind : SafeguardKind) (t : SafeguardTracker) : SafeguardTracker :=
  mkTracker (st_config t) (st_next_safeguard_id t) (st_delete_count t) (st_deleted_paths t)
    ({[kind_key kind]} ∪ st_allowed_kinds t).

(** A request to the tracker, and the tracker as one function of it. *)
Inductive tracker_op :=
  | OpDelete (p : string)
  | OpOverwrite (p : string) (size : Z)
  | OpRename (source destination : string)
  | OpAllow (kind : SafeguardKind)
  | OpReset.

Definition tracker_step (step_id : StepId) (op : tracker_op) (t : SafeguardTracker)
    : option SafeguardEvent * SafeguardTracker :=
  match op with
  | OpDelete p => check_delete p step_id t
  | OpOverwrite p size => check_overwrite p size step_id t
  | OpRename s d => check_rename_over s d step_id t
  | OpAllow kind => (None, mark_allowed kind t)
  | OpReset => (None, tracker_reset t)
  end.

(** Run a sequence of requests, collecting the events in order. *)
Fixpoint tracker_run (step_id : StepId) (ops : list tracker_op) (t : SafeguardTracker)
    : list SafeguardEvent * SafeguardTracker :=
  match ops with
  | [] => ([], t)
  | op :: ops' =>
      let '(ev, t1) := tracker_step step_id op t in
      let '(evs, t2) := tracker_run step_id ops' t1 in
      (match ev with Some e => e :: evs | None => evs end, t2)
  end.

(** ** Facts *)

(** Every step either emits nothing and keeps the identifier, or emits the
    current identifier and moves on to the next. *)
Lemma tracker_step_id step_id op t ev t' :
  tracker_step step_id op t = (ev, t') →
  match ev with
  | Some e => se_safeguard_id e = st_next_safeguard_id t ∧
              st_next_safeguard_id t' = st_next_safeguard_id t + 1 ∧
              se_step_id e = step_id ∧ kind_key (se_kind e) ∉ st_allowed_kinds t
  | None => st_next_safeguard_id t' = st_next_safeguard_id t
  end.
Proof.
  destruct op; simpl; unfold check_delete, check_overwrite, check_rename_over, next_id;
    intros H; simpl in H; repeat (case_match; simplify_eq/=; try done);
    repeat match goal with H : bool_decide _ = false |- _ =>
             apply bool_decide_eq_false_1 in H end; done.
Qed.

Lemma tracker_step_allowed step_id op t ev t' key :
  tracker_step step_id op t = (ev, t') → op ≠ OpReset →
  key ∈ st_allowed_kinds t → key ∈ st_allowed_kinds t'.
Proof.
  destruct op; simpl; unfold check_delete, check_overwrite, check_rename_over, next_id, mark_allowed;
    intros H Hr Hk; simpl in H; repeat (case_match; simplify_eq/=; try done); set_solver.
Qed.

(** Identifiers handed to the handler are fresh: along any sequence of
    requests the events carry consecutive safeguard identifiers, so no two
    pending decisions can be confused; a reset between steps does not reuse
    them. *)
Theorem tracker_run_ids step_id ops t evs t' :
  tracker_run step_id ops t = (evs, t') →
  se_safeguard_id <$> evs
  = (λ i, st_next_safeguard_id t + Z.of_nat i) <$> seq 0 (length evs)
  ∧ st_next_safeguard_id t' = st_next_safeguard_id t + Z.of_nat (length evs).
Proof.
  revert t evs t'. induction ops as [|op ops IH]; intros t evs t' H; simpl in H.
  - simplify_eq. split; [done|]. simpl. lia.
  - destruct (tracker_step step_id op t) as [ev t1] eqn:E1.
    destruct (tracker_run step_id ops t1) as [evs2 t2] eqn:E2.
    specialize (IH t1 evs2 t2 E2) as [IH1 IH2].
    apply tracker_step_id in E1. simplify_eq.
    destruct ev as [e|]; [|by rewrite <- E1].
    destruct E1 as (Hid & Hnext & _). rewrite Hnext in IH1, IH2. split.
    + rewrite fmap_cons, IH1, Hid. simpl. rewrite <- fmap_S_seq, <- list_fmap_compose.
      f_equal; [lia|]. apply list_fmap_ext. intros i x _. unfold compose. lia.
    + simpl length. rewrite IH2. lia.
Qed.

Lemma tracker_run_ids_witness :
  ∃ evs t', tracker_run 1 [OpDelete "a"; OpReset; OpDelete "b"]
              (SafeguardTracker_new (mkSafeguardConfig (Some 1) None false)) = (evs, t') ∧
            se_safeguard_id <$> evs = [1; 2].
Proof.
  eexists _, _. split; [reflexivity|].
  exact (proj1 (tracker_run_ids 1 [OpDelete "a"; OpReset; OpDelete "b"]
    (SafeguardTracker_new (mkSafeguardConfig (Some 1) None false)) _ _ eq_refl)).
Defined.

(** Allow is sticky within a step: once a kind has been allowed, no later
    request of the step raises an event of that kind (until the reset that
    opens the next step), however many deletes, overwrites or renames follow. *)
Theorem tracker_run_allowed step_id ops t evs t' key :
  tracker_run step_id ops t = (evs, t') → key ∈ st_allowed_kinds t →
  OpReset ∉ ops → Forall (λ e, kind_key (se_kind e) ≠ key) evs.
Proof.
  revert t evs t'. induction ops as [|op ops IH]; intros t evs t' H Hk Hr; simpl in H.
  - by simplify_eq.
  - destruct (tracker_step step_id op t) as [ev t1] eqn:E1.
    destruct (tracker_run step_id ops t1) as [evs2 t2] eqn:E2.
    apply not_elem_of_cons in Hr as [Hr1 Hr2].
    assert (Forall (λ e, kind_key (se_kind e) ≠ key) evs2) as Hrest.
    { eapply IH; [done | | done]. by eapply tracker_step_allowed. }
    apply tracker_step_id in E1. simplify_eq. destruct ev as [e|]; [|done].
    constructor; [|done]. destruct E1 as (_ & _ & _ & Hnot). by intros <-.
Qed.

Lemma tracker_run_allowed_witness :
  let t := mark_allowed (DeleteThreshold 1 1)
             (SafeguardTracker_new (mkSafeguardConfig (Some 1) None true)) in
  let ops := [OpDelete "a"; OpDelete "b"; OpRename "c" "d"] in
  "delete_threshold" ∈ st_allowed_kinds t ∧ OpReset ∉ ops ∧
  Forall (λ e, kind_key (se_kind e) ≠ "delete_threshold") (tracker_run 1 ops t).1.
Proof.
  set (t := mark_allowed _ _). set (ops := [_; _; _]).
  assert ("delete_threshold" ∈ st_allowed_kinds t) as H1
    by (apply (bool_decide_unpack _); by vm_compute).
  assert (OpReset ∉ ops) as H2
    by (intros H; repeat (apply elem_of_cons in H as [H|H]; [discriminate H|]);
        by apply elem_of_nil in H).
  split; [exact H1|]. split; [exact H2|].
  exact (tracker_run_allowed 1 ops t _ _ _ (surjective_pairing _) H1 H2).
Defined.

