(* ===== verification/UndoLog.v ===== *)
(** * Manifests, preimages and the rollback of one step

    Models [crates/interceptor/src/manifest.rs], [preimage.rs] and
    [rollback.rs].  The files of a step directory ([manifest.json],
    [barriers.json], [preimages/*.meta.json], [preimages/*.dat]) are typed: a
    JSON file is unreadable, corrupt, or holds a value ([serde_json] writes
    what it reads back).  The undo directory is disjoint from the working
    tree, which is a [tree] of [HostFs]. *)

From Stdlib Require Import Ascii.
From stdpp Require Import base gmap strings list fin_maps sorting.
From S2P Require Import Prelude HostFs Common.
#[local] Open Scope Z_scope.

(** ** Third-party crates

    [blake3], [zstd], [filetime] and [xattr], as the functions the source
    calls.  Their laws are in [ThirdPartyLaws] of [UndoFacts]. *)

Class ThirdParty := {
  blake3_hex : list Z → string;
  zstd_encode_all : list Z → io (list Z);
  zstd_decode_all : list Z → io (list Z);
  set_file_mtime : tree → path → Z → Z → io tree;
  xattr_list : tree → path → io (list string);
  xattr_get : tree → path → string → io (option (list Z));
  xattr_set : tree → path → string → list Z → io tree;
  xattr_remove : tree → path → string → io tree;
}.

(** ** Manifest *)

Record ManifestEntry := mkEntry {
  me_existed_before : bool;
  me_path_hash : string;
  me_file_type : string;
}.

Record StepManifest := mkManifest {
  sm_step_id : StepId;
  sm_timestamp : Z;
  sm_command : option string;
  sm_entries : gmap string ManifestEntry;
  sm_unprotected : bool;
}.

Definition StepManifest_new (now : Z) (step_id : StepId) : StepManifest :=
  mkManifest step_id now None ∅ false.

Definition add_entry (relative_path hash : string) (existed_before : bool) (file_type : string)
    (m : StepManifest) : StepManifest :=
  mkManifest (sm_step_id m) (sm_timestamp m) (sm_command m)
    (<[relative_path := mkEntry existed_before hash file_type]> (sm_entries m))
    (sm_unprotected m).

Definition contains_path (relative_path : string) (m : StepManifest) : bool :=
  bool_decide (is_Some (sm_entries m !! relative_path)).

(** ** Preimages on disk *)

Inductive PreimageFileType := Regular | Directory | SymlinkType.

#[export] Instance PreimageFileType_eq_dec : EqDecision PreimageFileType.
Proof. solve_decision. Defined.

Definition file_type_as_str (t : PreimageFileType) : string :=
  match t with Regular => "regular" | Directory => "directory" | SymlinkType => "symlink" end.

Record PreimageMetadata := mkPreimage {
  pm_relative_path : string;
  pm_existed_before : bool;
  pm_file_type : PreimageFileType;
  pm_mode : Z;
  pm_mtime_ns : Z;
  pm_size : Z;
  pm_symlink_target : option string;
  pm_xattrs : gmap string (list Z);
}.

(** A file that holds JSON. *)
Inductive json (A : Type) := Unreadable (e : io_error) | Corrupt | Json (a : A).
Arguments Unreadable {A} e.
Arguments Corrupt {A}.
Arguments Json {A} a.

(** Read and parse an optional JSON file. *)
Definition read_json {A} (f : option (json A)) : outcome CodeAgentError A :=
  match f with
  | None => Err (CaIo (mkIoError NotFound None))
  | Some (Unreadable e) => Err (CaIo e)
  | Some Corrupt => Err SerializationError
  | Some (Json a) => Ok a
  end.

Record BarrierEntry := mkBarrier {
  be_timestamp : Z;
  be_affected_paths : list AffectedPath;
  be_reason : BarrierReason;
}.

(** [preimages/]: the metadata and data files by path hash, and the temporary
    files an interrupted capture left behind. *)
Record preimage_dir := mkPreimageDir {
  pd_meta : gmap string (json PreimageMetadata);
  pd_data : gmap string (list Z);
  pd_tmp : gset string;
}.

Record step_files := mkStepFiles {
  sd_manifest : option (json StepManifest);
  sd_preimages : option preimage_dir;
  sd_barriers : option (json (list BarrierEntry));
}.

Definition empty_preimage_dir : preimage_dir := mkPreimageDir ∅ ∅ ∅.

(** ** Paths as strings *)

(** [to_string_lossy().replace('\\', "/")] of a relative path. *)
Definition normalize_separators (s : string) : string :=
  str_map (λ c, if Ascii.eqb c backslash then slash else c) s.

Definition normalized_relative_path (relative : path) : string :=
  normalize_separators (join_with slash relative).

Definition path_depth (p : string) : nat :=
  str_count (λ c, Ascii.eqb c slash || Ascii.eqb c backslash) p.

Section preimages.
Context `{ThirdParty} (h : host).

Definition path_hash (relative : path) : string :=
  blake3_hex (bytes_of_string (normalized_relative_path relative)).

Definition read_mode (n : node) : Z := st_mode n.

(** [Metadata::modified] never fails on Unix, and the signed nanosecond count
    is what the two branches of [duration_since] compute. *)
Definition read_mtime_ns (n : node) : Z := m_mtime (node_meta n).

Definition read_xattrs (ns : tree) (p : path) : gmap string (list Z) :=
  match xattr_list ns p with
  | Ok attrs =>
      foldl (λ result attr,
               match xattr_get ns p attr with
               | Ok (Some value) => <[attr := value]> result
               | _ => result
               end) ∅ attrs
  | _ => ∅
  end.

(** *** Faults of the undo directory

    Every operation on the undo directory can fail; [fault] says which do.  A
    failing operation changes nothing. *)
Inductive undo_io :=
  | IoWriteTmp (name : string)
  | IoRenameTmp (name : string)
  | IoWriteManifest
  | IoWriteBarriers (id : StepId)
  | IoRemoveWal
  | IoCreateWal
  | IoCreateStep (id : StepId)
  | IoRemoveStep (id : StepId)
  | IoPromote (id : StepId)
  | IoRemoveUndoDir
  | IoCreateUndoDir
  | IoCreateLayout
  | IoWriteVersion
  | IoRemoveLegacy.

Context (fault : undo_io → option io_error).

(** Write through a temporary file and rename over the target. *)
Definition write_atomic (name : string) (set : preimage_dir → preimage_dir)
    : stm (option preimage_dir) CodeAgentError unit := λ pd,
  match pd with
  | None => (Err (CaIo (mkIoError NotFound None)), None)
  | Some d =>
      match fault (IoWriteTmp name) with
      | Some e => (Err (CaIo e), Some d)
      | None =>
          match fault (IoRenameTmp name) with
          | Some e => (Err (CaIo e), Some (mkPreimageDir (pd_meta d) (pd_data d) ({[name]} ∪ pd_tmp d)))
          | None => (Ok (), Some (set (mkPreimageDir (pd_meta d) (pd_data d) (pd_tmp d ∖ {[name]}))))
          end
      end
  end.

Definition write_preimage_meta (hash : string) (m : PreimageMetadata) :=
  write_atomic (hash +:+ ".meta.json.tmp")
    (λ d, mkPreimageDir (<[hash := Json m]> (pd_meta d)) (pd_data d) (pd_tmp d)).

Definition write_preimage_data (hash : string) (bytes : list Z) :=
  write_atomic (hash +:+ ".dat.tmp")
    (λ d, mkPreimageDir (pd_meta d) (<[hash := bytes]> (pd_data d)) (pd_tmp d)).

Definition capture_preimage (ns : tree) (file_path working_root : path)
    : stm (option preimage_dir) CodeAgentError (PreimageMetadata * Z) :=
  relative ← lift (ok_or (strip_prefix working_root file_path)
    (PreimageError file_path "path is not under working root"));
  let hash := path_hash relative in
  metadata ← lift (map_err CaIo (symlink_metadata ns file_path));
  '(file_type, symlink_target) ←
    (if is_symlink_node metadata then
       target ← lift (map_err CaIo (read_link ns file_path));
       mret (SymlinkType, Some target)
     else if is_dir_node metadata then mret (Directory, None)
     else mret (Regular, None));
  let preimage_meta :=
    mkPreimage (normalized_relative_path relative) true file_type (read_mode metadata)
      (read_mtime_ns metadata) (st_size h file_path metadata) symlink_target
      (read_xattrs ns file_path) in
  write_preimage_meta hash preimage_meta;;
  data_bytes_written ←
    (if decide (file_type = Regular) then
       contents ← lift (map_err CaIo (fs_read ns file_path));
       compressed ← lift (map_err (λ _, PreimageError file_path "zstd compression failed")
                            (zstd_encode_all contents));
       write_preimage_data hash compressed;;
       mret (Z.of_nat (length compressed))
     else mret 0);
  mret (preimage_meta, data_bytes_written).

Definition capture_creation_marker (ns : tree) (file_path working_root : path)
    : stm (option preimage_dir) CodeAgentError PreimageMetadata :=
  relative ← lift (ok_or (strip_prefix working_root file_path)
    (PreimageError file_path "path is not under working root"));
  let hash := path_hash relative in
  let file_type :=
    if path_is_dir ns file_path then Directory
    else if match symlink_metadata ns file_path with Ok m => is_symlink_node m | _ => false end
    then SymlinkType else Regular in
  let preimage_meta :=
    mkPreimage (normalized_relative_path relative) false file_type 0 0 0 None ∅ in
  write_preimage_meta hash preimage_meta;;
  mret preimage_meta.

End preimages.

Definition read_preimage_metadata (pd : option preimage_dir) (hash : string)
    : outcome CodeAgentError PreimageMetadata :=
  read_json (d ← pd; pd_meta d !! hash).

Definition manifest_read_from (sd : step_files) : outcome CodeAgentError StepManifest :=
  read_json (sd_manifest sd).

(** ** Ordered iteration *)

(** [sort_by]: a stable sort, here by insertion. *)
Fixpoint insert_by {A} (le : A → A → bool) (x : A) (l : list A) : list A :=
  match l with
  | [] => [x]
  | y :: l' => if le x y then x :: y :: l' else y :: insert_by le x l'
  end.

Definition sort_by {A} (le : A → A → bool) (l : list A) : list A := foldr (insert_by le) [] l.

Lemma insert_by_perm {A} (le : A → A → bool) x l : insert_by le x l ≡ₚ x :: l.
Proof.
  induction l as [|y l IH]; simpl; [done|]. case_match; [done|].
  rewrite IH. apply Permutation_swap.
Qed.

Lemma sort_by_perm {A} (le : A → A → bool) l : sort_by le l ≡ₚ l.
Proof. induction l as [|x l IH]; simpl; [done|]. by rewrite insert_by_perm, IH. Qed.

Section sorting.
Context {A} (le : A → A → bool).
Hypothesis le_total : ∀ x y, le x y = true ∨ le y x = true.
Hypothesis le_trans : ∀ x y z, le x y = true → le y z = true → le x z = true.

Lemma insert_by_sorted x l :
  StronglySorted (λ a b, le a b = true) l → StronglySorted (λ a b, le a b = true) (insert_by le x l).
Proof.
  induction 1 as [|y l Hl IH Hy]; simpl; [by repeat constructor|].
  destruct (le x y) eqn:E.
  - constructor; [by constructor|]. constructor; [done|].
    eapply Forall_impl; [done|]. intros z Hz. by eapply le_trans.
  - constructor; [done|]. rewrite insert_by_perm. constructor; [|done].
    destruct (le_total x y); congruence.
Qed.

Lemma sort_by_sorted l : StronglySorted (λ a b, le a b = true) (sort_by le l).
Proof. induction l; simpl; [constructor|]. by apply insert_by_sorted. Qed.
End sorting.

(** A [BTreeMap<String, V>] iterates in the byte order of its keys. *)
Definition btree_iter {A} (m : gmap string A) : list (string * A) :=
  sort_by (λ a b, String.leb a.1 b.1) (map_to_list m).

Lemma btree_iter_perm {A} (m : gmap string A) : btree_iter m ≡ₚ map_to_list m.
Proof. apply sort_by_perm. Qed.

(** ** Rollback of one step *)

Section rollback.
Context `{ThirdParty} (h : host) (working_root : path) (symlink_policy : SymlinkPolicy).

Abbreviation TreeM := (stm tree CodeAgentError).

(** A filesystem call in the middle of a method. *)
Definition sys (f : tree → io tree) : TreeM unit := λ ns,
  match f ns with
  | Ok ns' => (Ok (), ns')
  | Err e => (Err (CaIo e), ns)
  | Panic => (Panic, ns)
  end.

(** Division and remainder of [i128] truncate towards zero. *)
Definition restore_mtime (p : path) (mtime_ns : Z) : TreeM unit :=
  let secs := as_i64 (Z.quot mtime_ns 1000000000) in
  let nanos := as_u32 (Z.rem mtime_ns 1000000000) in
  sys (λ ns, set_file_mtime ns p secs nanos).

Definition restore_metadata (p : path) (m : PreimageMetadata) : TreeM unit :=
  sys (λ ns, set_permissions ns p (pm_mode m));;
  ns ← get;
  match xattr_list ns p with
  | Ok current_attrs =>
      for_each (λ attr,
        if bool_decide (is_Some (pm_xattrs m !! attr)) then mret ()
        else ignore (sys (λ ns, xattr_remove ns p attr))) current_attrs
  | _ => mret ()
  end;;
  for_each (λ '(key, value), ignore (sys (λ ns, xattr_set ns p key value)))
    (btree_iter (pm_xattrs m));;
  restore_mtime p (pm_mtime_ns m).

(** The three groups of manifest entries, each as (relative path, hash). *)
Definition classify (entries : list (string * ManifestEntry))
    : list (string * string) * list (string * string) * list (string * string) :=
  foldl (λ '(dirs, files, dels) '(rel_path, entry),
    if me_existed_before entry then
      if bool_decide (me_file_type entry = "directory")
      then (dirs ++ [(rel_path, me_path_hash entry)], files, dels)
      else (dirs, files ++ [(rel_path, me_path_hash entry)], dels)
    else (dirs, files, dels ++ [(rel_path, me_path_hash entry)]))
    ([], [], []) entries.

Definition deepest_first (a b : string * string) : bool :=
  (path_depth b.1 <=? path_depth a.1)%nat.
Definition shallowest_first (a b : string * string) : bool :=
  (path_depth a.1 <=? path_depth b.1)%nat.

(** Pass 1a, one path. *)
Definition delete_created (rel_path : string) : TreeM unit :=
  let full_path := path_join working_root rel_path in
  ns ← get;
  if is_ok (symlink_metadata ns full_path) then
    if path_is_dir ns full_path
    then ignore (sys (λ ns, remove_dir_all h ns full_path))
    else ignore (sys (λ ns, remove_file h ns full_path))
  else mret ().

(** Pass 1b, one directory. *)
Definition recreate_dir (rel_path : string) : TreeM unit :=
  let full_path := path_join working_root rel_path in
  ns ← get;
  if path_exists ns full_path then mret ()
  else sys (λ ns, create_dir_all h ns full_path).

(** Pass 1c, one file or link. *)
Definition restore_file (pd : option preimage_dir) (rel_path hash : string) : TreeM unit :=
  m ← lift (read_preimage_metadata pd hash);
  let full_path := path_join working_root rel_path in
  ns ← get;
  match parent full_path with
  | Some p => if path_exists ns p then mret () else sys (λ ns, create_dir_all h ns p)
  | None => mret ()
  end;;
  if bool_decide (pm_file_type m = SymlinkType) && bool_decide (symlink_policy ≠ SymlinkReadWrite)
  then mret ()
  else
    match pm_file_type m with
    | Regular =>
        compressed ← lift (ok_or (d ← pd; pd_data d !! hash) (CaIo (mkIoError NotFound None)));
        contents ← lift (map_err (λ _, Decompression "failed to decompress preimage")
                           (zstd_decode_all compressed));
        sys (λ ns, fs_write h ns full_path contents)
    | SymlinkType =>
        ns ← get;
        (if is_ok (symlink_metadata ns full_path)
         then ignore (sys (λ ns, remove_file h ns full_path)) else mret ());;
        target ← lift (ok_or (pm_symlink_target m)
                         (PreimageError full_path "symlink preimage missing target"));
        sys (λ ns, symlink h ns target full_path)
    | Directory =>
        ns ← get;
        if path_exists ns full_path then mret ()
        else sys (λ ns, create_dir_all h ns full_path)
    end;;
    restore_metadata full_path m.

(** Pass 2, one directory. *)
Definition restore_dir_metadata (pd : option preimage_dir) (hash : string) : TreeM unit :=
  m ← lift (read_preimage_metadata pd hash);
  let full_path := path_join working_root (pm_relative_path m) in
  ns ← get;
  if path_exists ns full_path then restore_metadata full_path m else mret ().

Definition rollback_step (sd : step_files) : TreeM unit :=
  manifest ← lift (manifest_read_from sd);
  let pd := sd_preimages sd in
  let '(dirs, files, dels) := classify (btree_iter (sm_entries manifest)) in
  let dels := sort_by deepest_first dels in
  for_each (λ '(rel_path, _), delete_created rel_path) dels;;
  let dirs := sort_by shallowest_first dirs in
  for_each (λ '(rel_path, _), recreate_dir rel_path) dirs;;
  for_each (λ '(rel_path, hash), restore_file pd rel_path hash) files;;
  let dirs := sort_by deepest_first dirs in
  for_each (λ '(_, hash), restore_dir_metadata pd hash) dirs.

End rollback.
