(* ===== verification/UndoInterceptor.v ===== *)
(** * The undo interceptor

    Models [crates/interceptor/src/undo_interceptor.rs] and
    [resource_limits.rs]: the step life cycle (open, close, rollback, recover,
    discard), barriers, eviction, and the write hooks that capture preimages
    on first touch.

    The state is a [world]: the working tree, the undo directory and the
    interceptor object.  A method is a [stm world CodeAgentError] computation;
    an early return keeps the effects made so far, as in the source.  Mutexes
    serialise the accesses to the fields they guard; the model runs one method
    at a time.  In the undo directory an absent [steps/] is an empty one, and
    only directories named by a step identifier are represented. *)

From Stdlib Require Import Ascii.
From stdpp Require Import base gmap strings list fin_maps.
From S2P Require Import Prelude HostFs Common Safeguard UndoLog.
#[local] Open Scope Z_scope.

Definition CURRENT_VERSION : string := "1".

Record undo_dir := mkUndoDir {
  ud_version : option (json string);
  ud_wal : option step_files;
  ud_steps : gmap Z step_files;
  ud_legacy_barriers : option (json (list BarrierInfo));
}.

Record UndoConfig := mkUndoConfig {
  uc_policy : ExternalModificationPolicy;
  uc_safeguard_config : SafeguardConfig;
  uc_safeguard_handler : option (SafeguardEvent → SafeguardDecision);
  uc_resource_limits : ResourceLimitsConfig;
  uc_symlink_policy : SymlinkPolicy;
  uc_gitignore : bool;
}.

Record RecoveryInfo := mkRecoveryInfo {
  ri_paths_restored : nat;
  ri_paths_deleted : nat;
  ri_manifest_valid : bool;
}.

Record UndoInterceptorInner := mkInner {
  active_step : option StepId;
  completed_steps_ : list StepId;
  touched_paths : gset string;
  current_manifest : option StepManifest;
  safeguard_tracker : SafeguardTracker;
  current_step_data_size : Z;
  step_unprotected : bool;
}.

Record UndoInterceptor := mkInterceptor {
  working_root : path;
  policy : ExternalModificationPolicy;
  resource_limits : ResourceLimitsConfig;
  safeguard_handler : option (SafeguardEvent → SafeguardDecision);
  symlink_policy : SymlinkPolicy;
  gitignore_filter : option (string → bool → bool);
  undo_disabled : bool;
  version_mismatch_info : option (string * string);
  next_step_id : StepId;
  inner : UndoInterceptorInner;
}.

Record world := mkWorld {
  w_tree : tree;
  w_undo : undo_dir;
  w_int : UndoInterceptor;
}.

(** The lengths of the JSON files, which [serde_json] decides. *)
Class JsonLen := {
  manifest_len : json StepManifest → Z;
  barriers_len : json (list BarrierEntry) → Z;
  meta_len : json PreimageMetadata → Z;
  tmp_len : string → Z;
}.

(** ** Field updates *)

Definition set_inner (i : UndoInterceptorInner) (u : UndoInterceptor) : UndoInterceptor :=
  mkInterceptor (working_root u) (policy u) (resource_limits u) (safeguard_handler u)
    (symlink_policy u) (gitignore_filter u) (undo_disabled u) (version_mismatch_info u)
    (next_step_id u) i.

Definition set_next_step_id (n : StepId) (u : UndoInterceptor) : UndoInterceptor :=
  mkInterceptor (working_root u) (policy u) (resource_limits u) (safeguard_handler u)
    (symlink_policy u) (gitignore_filter u) (undo_disabled u) (version_mismatch_info u)
    n (inner u).

Definition set_disabled (b : bool) (info : option (string * string)) (u : UndoInterceptor)
    : UndoInterceptor :=
  mkInterceptor (working_root u) (policy u) (resource_limits u) (safeguard_handler u)
    (symlink_policy u) (gitignore_filter u) b info (next_step_id u) (inner u).

Definition on_int (f : UndoInterceptor → UndoInterceptor) (w : world) : world :=
  mkWorld (w_tree w) (w_undo w) (f (w_int w)).
Definition on_inner (f : UndoInterceptorInner → UndoInterceptorInner) (w : world) : world :=
  on_int (λ u, set_inner (f (inner u)) u) w.
Definition set_tree (t : tree) (w : world) : world := mkWorld t (w_undo w) (w_int w).
Definition on_undo (f : undo_dir → undo_dir) (w : world) : world :=
  mkWorld (w_tree w) (f (w_undo w)) (w_int w).

Definition set_wal (x : option step_files) (d : undo_dir) : undo_dir :=
  mkUndoDir (ud_version d) x (ud_steps d) (ud_legacy_barriers d).
Definition set_steps (s : gmap Z step_files) (d : undo_dir) : undo_dir :=
  mkUndoDir (ud_version d) (ud_wal d) s (ud_legacy_barriers d).

(** The per-step part of the inner state, cleared. *)
Definition clear_step (completed : list StepId) (tracker : SafeguardTracker)
    : UndoInterceptorInner := mkInner None completed ∅ None tracker 0 false.

Definition set_manifest (m : option StepManifest) (i : UndoInterceptorInner) :=
  mkInner (active_step i) (completed_steps_ i) (touched_paths i) m (safeguard_tracker i)
    (current_step_data_size i) (step_unprotected i).
Definition set_tracker (t : SafeguardTracker) (i : UndoInterceptorInner) :=
  mkInner (active_step i) (completed_steps_ i) (touched_paths i) (current_manifest i) t
    (current_step_data_size i) (step_unprotected i).
Definition set_completed (l : list StepId) (i : UndoInterceptorInner) :=
  mkInner (active_step i) l (touched_paths i) (current_manifest i) (safeguard_tracker i)
    (current_step_data_size i) (step_unprotected i).

Abbreviation WorldM := (stm world CodeAgentError).

Definition empty_step_files : step_files := mkStepFiles None None None.

(** ** Barriers of a step *)

Definition read_step_barriers (sd : option step_files) : list BarrierEntry :=
  match sd ≫= sd_barriers with Some (Json l) => l | _ => [] end.

(** [step_id as u64 * 1000 + index as u64], wrapping. *)
Definition synthesize_barrier_id (step_id : StepId) (index : nat) : Z :=
  as_u64 (as_u64 step_id * 1000 + Z.of_nat index).

Definition barrier_infos (step_id : StepId) (entries : list BarrierEntry) : list BarrierInfo :=
  imap (λ index e, mkBarrierInfo (synthesize_barrier_id step_id index) step_id
                     (be_timestamp e) (be_affected_paths e) (be_reason e)) entries.

Definition load_barriers_for_steps (steps : gmap Z step_files) (step_ids : list StepId)
    : list BarrierInfo :=
  step_ids ≫= λ id, barrier_infos id (read_step_barriers (steps !! id)).

(** ** Sizes *)

Inductive dirent := DFile (len : Z) | DDir (entries : list dirent).

Fixpoint dirent_size (e : dirent) : Z :=
  match e with
  | DFile len => len
  | DDir entries => foldr (λ e acc, dirent_size e + acc) 0 entries
  end.

Section interceptor.
Context `{ThirdParty} `{JsonLen} (h : host) (fault : undo_io → option io_error).

(** The files below a step directory. *)
Definition step_listing (sd : step_files) : list dirent :=
  match sd_manifest sd with Some m => [DFile (manifest_len m)] | None => [] end
  ++ match sd_barriers sd with Some b => [DFile (barriers_len b)] | None => [] end
  ++ match sd_preimages sd with
     | Some d =>
         [DDir ((DFile ∘ meta_len ∘ snd <$> map_to_list (pd_meta d))
                ++ (DFile ∘ Z.of_nat ∘ length ∘ snd <$> map_to_list (pd_data d))
                ++ (DFile ∘ tmp_len <$> elements (pd_tmp d)))]
     | None => []
     end.

Definition calculate_step_size (sd : option step_files) : Z :=
  match sd with None => 0 | Some s => dirent_size (DDir (step_listing s)) end.

Definition calculate_total_log_size (steps : gmap Z step_files) (completed : list StepId) : Z :=
  foldl (λ total id, total + calculate_step_size (steps !! id)) 0 completed.

(** One operation on the undo directory that may fail. *)
Definition undo_op (op : undo_io) (f : undo_dir → undo_dir) : WorldM unit := λ w,
  match fault op with
  | Some e => (Err (CaIo e), w)
  | None => (Ok (), on_undo f w)
  end.

Definition wal : WorldM (option step_files) := gets (λ w, ud_wal (w_undo w)).
Definition step_dir (id : StepId) : WorldM (option step_files) :=
  gets (λ w, ud_steps (w_undo w) !! id).

(** [manifest.write_to(wal_dir)]. *)
Definition write_wal_manifest (m : StepManifest) : WorldM unit :=
  d ← wal;
  match d with
  | None => throw (CaIo (mkIoError NotFound None))
  | Some s =>
      undo_op IoWriteManifest
        (set_wal (Some (mkStepFiles (Some (Json m)) (sd_preimages s) (sd_barriers s))))
  end.

Definition write_step_barriers (id : StepId) (entries : list BarrierEntry) : WorldM unit :=
  d ← step_dir id;
  match d with
  | None => throw (CaIo (mkIoError NotFound None))
  | Some s =>
      undo_op (IoWriteBarriers id) (λ u,
        set_steps (<[id := mkStepFiles (sd_manifest s) (sd_preimages s) (Some (Json entries))]>
                     (ud_steps u)) u)
  end.

Definition remove_wal : WorldM unit := undo_op IoRemoveWal (set_wal None).
Definition remove_step (id : StepId) : WorldM unit :=
  undo_op (IoRemoveStep id) (λ u, set_steps (delete id (ud_steps u)) u).

(** ** Step life cycle *)

Definition check_undo_enabled : WorldM unit :=
  u ← gets w_int;
  if undo_disabled u then
    match version_mismatch_info u with
    | Some (expected, found) => throw (UndoDisabled expected found)
    | None => mret ()
    end
  else mret ().

Definition open_step (id : StepId) : WorldM unit :=
  check_undo_enabled;;
  d ← wal;
  (match d with Some _ => remove_wal | None => mret () end);;
  undo_op IoCreateWal (set_wal (Some (mkStepFiles None (Some empty_preimage_dir) None)));;
  i ← gets (λ w, inner (w_int w));
  match active_step i with
  | Some active => throw (StepAlreadyActive active)
  | None =>
      modify (on_inner (λ i,
        mkInner (Some id) (completed_steps_ i) ∅ (Some (StepManifest_new (h_clock h) id))
          (tracker_reset (safeguard_tracker i)) 0 false))
  end.

Definition is_undo_disabled : WorldM bool := gets (λ w, undo_disabled (w_int w)).
Definition version_mismatch : WorldM (option (string * string)) :=
  gets (λ w, version_mismatch_info (w_int w)).

Definition set_step_command (command : string) : WorldM unit :=
  modify (on_inner (λ i,
    match current_manifest i with
    | Some m => set_manifest (Some (mkManifest (sm_step_id m) (sm_timestamp m) (Some command)
                                      (sm_entries m) (sm_unprotected m))) i
    | None => i
    end)).

(** Phase 1 of eviction: [while remaining.len() > max_count]. *)
Fixpoint evict_by_count (max_count : nat) (remaining evicted : list StepId)
    : WorldM (list StepId * list StepId) :=
  match remaining with
  | oldest :: rest =>
      if (max_count <? length remaining)%nat then
        d ← step_dir oldest;
        (match d with Some _ => remove_step oldest | None => mret () end);;
        evict_by_count max_count rest (evicted ++ [oldest])
      else mret (remaining, evicted)
  | [] => mret (remaining, evicted)
  end.

(** Phase 2: [while current_size > max_size && !remaining.is_empty()]. *)
Fixpoint evict_by_size (max_size current_size : Z) (remaining evicted : list StepId)
    : WorldM (list StepId * list StepId) :=
  match remaining with
  | oldest :: rest =>
      if max_size <? current_size then
        d ← step_dir oldest;
        let step_size := calculate_step_size d in
        (match d with Some _ => remove_step oldest | None => mret () end);;
        evict_by_size max_size (Z.max 0 (current_size - step_size)) rest (evicted ++ [oldest])
      else mret (remaining, evicted)
  | [] => mret (remaining, evicted)
  end.

Definition evict_if_needed (completed : list StepId) : WorldM (list StepId) :=
  limits ← gets (λ w, resource_limits (w_int w));
  '(remaining, evicted) ←
    (match max_step_count limits with
     | Some max_count => evict_by_count max_count completed []
     | None => mret (completed, [])
     end);
  '(_, evicted) ←
    (match max_log_size_bytes limits with
     | Some max_size =>
         steps ← gets (λ w, ud_steps (w_undo w));
         evict_by_size max_size (calculate_total_log_size steps remaining) remaining evicted
     | None => mret (remaining, evicted)
     end);
  (if decide (evicted = []) then mret ()
   else modify (on_inner (λ i,
     set_completed (filter (λ s, s ∉ evicted) (completed_steps_ i)) i)));;
  mret evicted.

(** [fs::rename(wal, steps/id)]: fails on a target that is not empty. *)
Definition promote (id : StepId) : WorldM unit :=
  w ← get;
  match ud_wal (w_undo w), ud_steps (w_undo w) !! id with
  | Some _, Some (mkStepFiles None None None) | Some _, None =>
      undo_op (IoPromote id) (λ u,
        match ud_wal u with
        | Some s => set_wal None (set_steps (<[id := s]> (ud_steps u)) u)
        | None => u
        end)
  | Some _, Some _ => throw (CaIo (mkIoError DirectoryNotEmpty None))
  | None, _ => throw (CaIo (mkIoError NotFound None))
  end.

Definition close_step (_id : StepId) : WorldM (list StepId) :=
  i ← gets (λ w, inner (w_int w));
  let is_empty := match current_manifest i with
                  | None => true
                  | Some m => bool_decide (sm_entries m = ∅)
                  end in
  if is_empty then
    if bool_decide (active_step i = None) then throw NoActiveStep
    else
      modify (on_inner (λ i, clear_step (completed_steps_ i) (safeguard_tracker i)));;
      d ← wal;
      (match d with Some _ => ignore remove_wal | None => mret () end);;
      mret []
  else
    final_id ← gets (λ w, next_step_id (w_int w));
    modify (on_int (set_next_step_id (final_id + 1)));;
    (match current_manifest i with
     | Some m =>
         let m' := mkManifest final_id (sm_timestamp m) (sm_command m) (sm_entries m)
                     (sm_unprotected m) in
         modify (on_inner (set_manifest (Some m')));;
         write_wal_manifest
           (if step_unprotected i
            then mkManifest final_id (sm_timestamp m) (sm_command m) (sm_entries m) true
            else m')
     | None => mret ()
     end);;
    if bool_decide (active_step i = None) then throw NoActiveStep
    else
      modify (on_inner (λ i,
        clear_step (completed_steps_ i ++ [final_id]) (safeguard_tracker i)));;
      snapshot ← gets (λ w, completed_steps_ (inner (w_int w)));
      d ← wal;
      (match d with
       | Some _ =>
           old ← step_dir final_id;
           (match old with Some _ => ignore (remove_step final_id) | None => mret () end);;
           ignore (promote final_id)
       | None => mret ()
       end);;
      evict_if_needed snapshot.

(** [rollback::rollback_step] on the world's tree. *)
Definition run_rollback_step (sd : step_files) : WorldM unit :=
  u ← gets w_int;
  zoom w_tree set_tree (rollback_step h (working_root u) (symlink_policy u) sd).

(** The first unprotected step among those to roll back. *)
Definition find_unprotected (steps : gmap Z step_files) (ids : list StepId) : option StepId :=
  head (filter (λ id,
    match manifest_read_from <$> steps !! id with
    | Some (Ok m) => sm_unprotected m
    | _ => false
    end = true) ids).

Definition rollback (count : nat) (force : bool) : WorldM RollbackResult :=
  completed ← gets (λ w, completed_steps_ (inner (w_int w)));
  let steps_to_rollback := take count (rev completed) in
  steps ← gets (λ w, ud_steps (w_undo w));
  (match find_unprotected steps steps_to_rollback with
   | Some id => throw (StepUnprotected id)
   | None => mret ()
   end);;
  let blocking := load_barriers_for_steps steps steps_to_rollback in
  (if negb (bool_decide (blocking = [])) && negb force
   then throw (RollbackBlocked (length blocking) blocking) else mret ());;
  for_each (λ id,
    d ← step_dir id;
    match d with
    | Some sd => run_rollback_step sd;; remove_step id
    | None => mret ()
    end) steps_to_rollback;;
  modify (on_inner (λ i,
    set_completed (filter (λ s, s ∉ steps_to_rollback) (completed_steps_ i)) i));;
  mret (mkRollbackResult (length steps_to_rollback) blocking).

Definition completed_steps : WorldM (list StepId) :=
  gets (λ w, completed_steps_ (inner (w_int w))).

(** ** Barriers *)

(** Add the paths that are not listed yet, in order. *)
Definition merge_paths (existing new : list AffectedPath) : list AffectedPath :=
  foldl (λ acc ap,
    if decide (ap_path ap ∈ (ap_path <$> acc)) then acc else acc ++ [ap]) existing new.

Definition notify_external_modification (affected_paths : list AffectedPath)
    (reason : BarrierReason) : WorldM (option BarrierInfo) :=
  u ← gets w_int;
  match policy u with
  | PolicyWarn => mret None
  | PolicyBarrier =>
      let after_step_id := default 0 (last (completed_steps_ (inner u))) in
      d ← step_dir after_step_id;
      (match d with
       | Some _ => mret ()
       | None => undo_op (IoCreateStep after_step_id) (λ d,
                   set_steps (<[after_step_id := empty_step_files]> (ud_steps d)) d)
       end);;
      d ← step_dir after_step_id;
      let entries := read_step_barriers d in
      let now := h_clock h in
      let reply index ts paths :=
        Some (mkBarrierInfo (synthesize_barrier_id after_step_id index) after_step_id ts paths
                reason) in
      match last entries with
      | Some l =>
          if decide (be_reason l = reason) then
            let l' := mkBarrier now (merge_paths (be_affected_paths l) affected_paths)
                        (be_reason l) in
            let entries' := removelast entries ++ [l'] in
            write_step_barriers after_step_id entries';;
            mret (reply (length entries' - 1)%nat (be_timestamp l') (be_affected_paths l'))
          else
            write_step_barriers after_step_id (entries ++ [mkBarrier now affected_paths reason]);;
            mret (reply (length entries) now affected_paths)
      | None =>
          write_step_barriers after_step_id (entries ++ [mkBarrier now affected_paths reason]);;
          mret (reply (length entries) now affected_paths)
      end
  end.

Definition barriers : WorldM (list BarrierInfo) :=
  completed ← completed_steps;
  steps ← gets (λ w, ud_steps (w_undo w));
  mret (barrier_infos 0 (read_step_barriers (steps !! 0))
        ++ load_barriers_for_steps steps completed).

(** ** Discard and recovery *)

Definition discard : WorldM unit :=
  undo_op IoRemoveUndoDir (λ _, mkUndoDir None None ∅ None);;
  undo_op IoCreateUndoDir (λ u, u);;
  undo_op IoWriteVersion (λ u, mkUndoDir (Some (Json CURRENT_VERSION)) (ud_wal u) (ud_steps u)
                                 (ud_legacy_barriers u));;
  undo_op IoCreateLayout (λ u, u);;
  modify (on_inner (λ i, clear_step [] (safeguard_tracker i)));;
  modify (on_int (set_next_step_id 1));;
  modify (on_int (set_disabled false None)).

Definition rebuild_manifest_from_preimages (pd : option preimage_dir)
    : outcome CodeAgentError StepManifest :=
  let manifest := StepManifest_new (h_clock h) 0 in
  match pd with
  | None => Ok manifest
  | Some d =>
      foldl (λ acc hash,
        manifest ← acc;
        match pd_meta d !! hash with
        | Some (Json m) =>
            Ok (add_entry (pm_relative_path m) hash (pm_existed_before m)
                  (file_type_as_str (pm_file_type m)) manifest)
        | Some Corrupt => Ok manifest
        | Some (Unreadable e) => Err (CaIo e)
        | None => Ok manifest
        end) (Ok manifest) (h_order h (elements (dom (pd_meta d))))
  end.

Definition preimage_dir_nonempty (pd : option preimage_dir) : bool :=
  match pd with
  | None => false
  | Some d => negb (bool_decide (pd_meta d = ∅ ∧ pd_data d = ∅ ∧ pd_tmp d = ∅))
  end.

Definition count_entries (existed : bool) (m : StepManifest) : nat :=
  length (filter (λ kv, me_existed_before kv.2 = existed) (map_to_list (sm_entries m))).

Definition recover : WorldM (option RecoveryInfo) :=
  d ← wal;
  match d with
  | None => mret None
  | Some sd =>
      let has_preimages := preimage_dir_nonempty (sd_preimages sd) in
      let has_manifest := bool_decide (is_Some (sd_manifest sd)) in
      if negb has_preimages && negb has_manifest then
        remove_wal;;
        mret (Some (mkRecoveryInfo 0 0 false))
      else
        '(manifest, manifest_valid) ←
          (if has_manifest then
             match manifest_read_from sd with
             | Ok m => mret (m, true)
             | _ => m ← lift (rebuild_manifest_from_preimages (sd_preimages sd)); mret (m, false)
             end
           else m ← lift (rebuild_manifest_from_preimages (sd_preimages sd)); mret (m, false));
        (if bool_decide (sm_entries manifest = ∅) then mret ()
         else
           (if manifest_valid : bool then mret () else write_wal_manifest manifest);;
           sd' ← wal;
           match sd' with Some sd' => run_rollback_step sd' | None => mret () end);;
        remove_wal;;
        mret (Some (mkRecoveryInfo (count_entries true manifest) (count_entries false manifest)
                      manifest_valid))
  end.

Definition rollback_current_step : WorldM unit :=
  i ← gets (λ w, inner (w_int w));
  if bool_decide (active_step i = None) then throw NoActiveStep
  else
    (match current_manifest i with
     | Some m => ignore (write_wal_manifest m)
     | None => mret ()
     end);;
    modify (on_inner (λ i, clear_step (completed_steps_ i) (tracker_reset (safeguard_tracker i))));;
    d ← wal;
    match d with
    | Some sd =>
        r ← try (run_rollback_step sd);
        ignore remove_wal;;
        match r with inl e => throw e | inr _ => mret () end
    | None => mret ()
    end.

(** ** Safeguards *)

Definition handle_safeguard_event (event : option SafeguardEvent) : WorldM unit :=
  u ← gets w_int;
  match event, safeguard_handler u with
  | Some e, Some handler =>
      match handler e with
      | Allow => modify (on_inner (λ i, set_tracker (mark_allowed (se_kind e) (safeguard_tracker i)) i))
      | Deny =>
          rollback_current_step;;
          throw (SafeguardDenied (se_safeguard_id e) (se_step_id e))
      end
  | _, _ => mret ()
  end.

(** Run one tracker check under the lock. *)
Definition with_tracker (f : SafeguardTracker → option SafeguardEvent * SafeguardTracker)
    : WorldM (option SafeguardEvent) :=
  i ← gets (λ w, inner (w_int w));
  let '(event, t) := f (safeguard_tracker i) in
  modify (on_inner (set_tracker t));;
  mret event.

(** ** First-touch capture *)

Definition is_ignored (u : UndoInterceptor) (relative : string) (is_dir : bool) : bool :=
  match gitignore_filter u with Some filter => filter relative is_dir | None => false end.

(** The [preimages/] directory of the write-ahead log. *)
Definition wal_preimages (w : world) : option preimage_dir := ud_wal (w_undo w) ≫= sd_preimages.
Definition set_wal_preimages (pd : option preimage_dir) (w : world) : world :=
  on_undo (λ d,
    match ud_wal d with
    | Some s => set_wal (Some (mkStepFiles (sd_manifest s) pd (sd_barriers s))) d
    | None => d
    end) w.

(** Add an entry to the current manifest and mark the path as touched. *)
Definition log_entry (relative hash : string) (existed_before : bool) (file_type : string)
    (i : UndoInterceptorInner) : UndoInterceptorInner :=
  mkInner (active_step i) (completed_steps_ i) ({[relative]} ∪ touched_paths i)
    (add_entry relative hash existed_before file_type <$> current_manifest i)
    (safeguard_tracker i) (current_step_data_size i) (step_unprotected i).

(** Account for captured data and compare with the single-step limit. *)
Definition add_data_size (limits : ResourceLimitsConfig) (data_size : Z)
    (i : UndoInterceptorInner) : UndoInterceptorInner :=
  let total := current_step_data_size i + data_size in
  mkInner (active_step i) (completed_steps_ i) (touched_paths i) (current_manifest i)
    (safeguard_tracker i) total
    (match max_single_step_size_bytes limits with
     | Some max_size => if max_size <? total then true else step_unprotected i
     | None => step_unprotected i
     end).

Definition symlink_at (ns : tree) (p : path) : bool :=
  match symlink_metadata ns p with Ok m => is_symlink_node m | _ => false end.

Definition ensure_preimage (file_path : path) : WorldM bool :=
  w ← get;
  let u := w_int w in
  let ns := w_tree w in
  relative ← lift (ok_or (strip_prefix (working_root u) file_path)
                     (PreimageError file_path "path outside working root"));
  let relative_str := normalized_relative_path relative in
  let is_dir := match symlink_metadata ns file_path with Ok m => is_dir_node m | _ => false end in
  if is_ignored u relative_str is_dir then mret false
  else if step_unprotected (inner u) then mret false
  else if bool_decide (relative_str ∈ touched_paths (inner u)) then mret false
  else if negb (is_ok (symlink_metadata ns file_path)) then mret false
  else if bool_decide (symlink_policy u = SymlinkIgnore) && symlink_at ns file_path
  then mret false
  else
    let hash := path_hash relative in
    '(m, data_size) ← zoom wal_preimages set_wal_preimages
                        (capture_preimage h fault ns file_path (working_root u));
    modify (on_inner (log_entry relative_str hash true (file_type_as_str (pm_file_type m))));;
    modify (on_inner (add_data_size (resource_limits u) data_size));;
    mret true.

Definition record_creation (file_path : path) : WorldM unit :=
  w ← get;
  let u := w_int w in
  let ns := w_tree w in
  if bool_decide (symlink_policy u = SymlinkIgnore) && symlink_at ns file_path then mret ()
  else
    relative ← lift (ok_or (strip_prefix (working_root u) file_path)
                       (PreimageError file_path "path outside working root"));
    let relative_str := normalized_relative_path relative in
    if is_ignored u relative_str (path_is_dir ns file_path) then mret ()
    else if step_unprotected (inner u) then mret ()
    else if bool_decide (relative_str ∈ touched_paths (inner u)) then mret ()
    else
      let hash := path_hash relative in
      m ← zoom wal_preimages set_wal_preimages
            (capture_creation_marker fault ns file_path (working_root u));
      modify (on_inner (log_entry relative_str hash false (file_type_as_str (pm_file_type m)))).

(** [capture_tree_preimages]: the recursion descends one name per level.  A
    path that still is a directory crosses at most 40 links and, between two
    links, at most as many names as the tree has nodes; [fuel] beyond that is
    never used up. *)
Fixpoint capture_tree (fuel : nat) (dir_path : path) : WorldM unit :=
  w ← get;
  let u := w_int w in
  let ns := w_tree w in
  if negb (path_is_dir ns dir_path) then mret ()
  else
    match fuel with
    | O => lift Panic
    | S fuel' =>
        names ← lift (map_err CaIo (read_dir h ns dir_path));
        for_each (λ name,
          let p := dir_path ++ [name] in
          if bool_decide (symlink_policy u = SymlinkIgnore) && symlink_at ns p then mret ()
          else if match strip_prefix (working_root u) p with
                  | Some relative =>
                      is_ignored u (normalized_relative_path relative) (path_is_dir ns p)
                  | None => false
                  end
          then mret ()
          else
            ensure_preimage p;;
            if path_is_dir ns p then capture_tree fuel' p else mret ()) names
    end.

Definition capture_fuel (ns : tree) : nat := 41 * (size ns + 1).

Definition capture_tree_preimages (dir_path : path) : WorldM unit :=
  w ← get; capture_tree (capture_fuel (w_tree w)) dir_path.

Definition relative_path_str (u : UndoInterceptor) (p : path) : string :=
  match strip_prefix (working_root u) p with
  | Some r => normalized_relative_path r
  | None => EmptyString
  end.

(** ** Write hooks *)

Definition is_active : WorldM bool :=
  gets (λ w, bool_decide (is_Some (active_step (inner (w_int w))))).

Definition current_step : WorldM (option StepId) :=
  gets (λ w, active_step (inner (w_int w))).

(** [pre_write] and [pre_open_trunc] have the same body. *)
Definition pre_write (p : path) : WorldM unit :=
  active ← current_step;
  match active with
  | None => mret ()
  | Some step_id =>
      w ← get;
      let file_size := match metadata (w_tree w) p with
                       | Ok n => Some (st_size h p n)
                       | _ => None
                       end in
      ensure_preimage p;;
      match file_size with
      | Some size =>
          event ← with_tracker (check_overwrite (relative_path_str (w_int w) p) size step_id);
          handle_safeguard_event event
      | None => mret ()
      end
  end.

Definition pre_open_trunc (p : path) : WorldM unit := pre_write p.

Definition pre_unlink (p : path) (is_dir : bool) : WorldM unit :=
  active ← current_step;
  match active with
  | None => mret ()
  | Some step_id =>
      ensure_preimage p;;
      (if is_dir then capture_tree_preimages p else mret ());;
      u ← gets w_int;
      event ← with_tracker (check_delete (relative_path_str u p) step_id);
      handle_safeguard_event event
  end.

Definition pre_rename (from to : path) : WorldM unit :=
  active ← current_step;
  match active with
  | None => mret ()
  | Some step_id =>
      w ← get;
      let destination_exists := is_ok (symlink_metadata (w_tree w) to) in
      ensure_preimage from;;
      (if destination_exists then ensure_preimage to;; mret () else mret ());;
      (if path_is_dir (w_tree w) from then capture_tree_preimages from else mret ());;
      if destination_exists then
        event ← with_tracker (check_rename_over (relative_path_str (w_int w) from)
                                (relative_path_str (w_int w) to) step_id);
        handle_safeguard_event event
      else mret ()
  end.

Definition post_create (p : path) : WorldM unit :=
  has_active ← is_active;
  if has_active : bool then record_creation p else mret ().

Definition post_mkdir (p : path) : WorldM unit :=
  has_active ← is_active;
  if has_active : bool then record_creation p else mret ().

(** The body [pre_setattr], [pre_xattr], [pre_fallocate] and
    [pre_copy_file_range] share. *)
Definition capture_if_active (p : path) : WorldM unit :=
  has_active ← is_active;
  if has_active : bool then ensure_preimage p;; mret () else mret ().

Definition pre_setattr (p : path) : WorldM unit := capture_if_active p.
Definition pre_xattr (p : path) : WorldM unit := capture_if_active p.
Definition pre_fallocate (p : path) : WorldM unit := capture_if_active p.
Definition pre_copy_file_range (dst_path : path) : WorldM unit := capture_if_active dst_path.

Definition pre_link (target link_path : path) : WorldM unit :=
  u ← gets w_int;
  if decide (symlink_policy u = SymlinkIgnore) then mret () else capture_if_active target.

Definition post_symlink (target : string) (link_path : path) : WorldM unit :=
  u ← gets w_int;
  if decide (symlink_policy u = SymlinkIgnore) then mret () else post_create link_path.

(** ** Start-up *)

(** [str::trim], on the ASCII white space. *)
Definition is_space (c : Ascii.ascii) : bool :=
  let n := Ascii.nat_of_ascii c in ((n =? 32) || ((9 <=? n) && (n <=? 13)))%nat.
Fixpoint trim_start (s : string) : string :=
  match s with String c s' => if is_space c then trim_start s' else s | EmptyString => s end.
Definition string_rev (s : string) : string :=
  String.string_of_list_ascii (rev (String.list_ascii_of_string s)).
Definition trim (s : string) : string := string_rev (trim_start (string_rev (trim_start s))).

(** Group the legacy barriers by step and append each group to the file of its
    step, where that step exists. *)
Definition migrate_global_barriers (d : undo_dir) : undo_dir :=
  match ud_legacy_barriers d with
  | None => d
  | Some f =>
      let legacy := match f with Json l => l | _ => [] end in
      let by_step := foldl (λ m b,
        <[bi_after_step_id b :=
            default [] (m !! bi_after_step_id b)
            ++ [mkBarrier (bi_timestamp b) (bi_affected_paths b) (bi_reason b)]]> m)
        (∅ : gmap Z (list BarrierEntry)) legacy in
      let steps := map_imap (λ id sd,
        match by_step !! id, fault (IoWriteBarriers id) with
        | Some entries, None =>
            Some (mkStepFiles (sd_manifest sd) (sd_preimages sd)
                    (Some (Json (read_step_barriers (Some sd) ++ entries))))
        | _, _ => Some sd
        end) (ud_steps d) in
      mkUndoDir (ud_version d) (ud_wal d) steps
        (match fault IoRemoveLegacy with Some _ => Some f | None => None end)
  end.

(** [build]; [build_gitignore] reads the ignore files of the working tree. *)
Definition build (build_gitignore : path → option (string → bool → bool)) (root : path)
    (config : UndoConfig) (d : undo_dir) : UndoInterceptor * undo_dir :=
  let mismatch :=
    match ud_version d with
    | Some v =>
        let found := trim (match v with Json s => s | _ => EmptyString end) in
        if decide (found = CURRENT_VERSION) then None else Some (CURRENT_VERSION, found)
    | None => None
    end in
  let d1 :=
    match ud_version d with
    | Some _ => d
    | None =>
        mkUndoDir (match fault IoWriteVersion with
                   | None => Some (Json CURRENT_VERSION) | Some _ => None end)
          (ud_wal d) (ud_steps d) (ud_legacy_barriers d)
    end in
  let disabled := bool_decide (is_Some mismatch) in
  let completed := if disabled then [] else sort_by Z.leb (elements (dom (ud_steps d1))) in
  let max_step_id := default 0 (last (filter (λ id, 0 < id) completed)) in
  let d2 := if disabled then d1 else migrate_global_barriers d1 in
  (mkInterceptor root (uc_policy config) (uc_resource_limits config)
     (uc_safeguard_handler config) (uc_symlink_policy config)
     (if uc_gitignore config then build_gitignore root else None)
     disabled mismatch (max_step_id + 1)
     (clear_step completed (SafeguardTracker_new (uc_safeguard_config config))), d2).

End interceptor.
