(* ===== verification/UndoHooks.v ===== *)
(** * The undo interceptor as a write interceptor

    [UndoInterceptor] implements the trait of [WriteInterceptor.v]
    ([impl WriteInterceptor for UndoInterceptor] in
    [crates/interceptor/src/undo_interceptor.rs]), and keeps its laws.

    The second part models [crates/interceptor/src/history.rs], the reader of
    the undo history that the command-line interface shows. *)

From Stdlib Require Import Ascii.
From stdpp Require Import base gmap strings list fin_maps sorting.
From S2P Require Import Prelude HostFs Common WriteInterceptor Safeguard UndoLog UndoInterceptor.
#[local] Open Scope Z_scope.

#[export] Instance world_HasTree : HasTree world := { tree_of := w_tree; put_tree := set_tree }.
#[export] Instance world_HasTreeLaws : HasTreeLaws world.
Proof. split; [done | by intros [] | done]. Qed.

Section hooks.
Context `{ThirdParty} (h : host) (fault : undo_io → option io_error).

Definition undo_hooks : WriteInterceptor world := {|
  wi_pre_write := pre_write h fault;
  wi_pre_unlink := pre_unlink h fault;
  wi_pre_rename := pre_rename h fault;
  wi_post_create := post_create fault;
  wi_post_mkdir := post_mkdir fault;
  wi_pre_setattr := pre_setattr h fault;
  wi_pre_link := pre_link h fault;
  wi_post_symlink := post_symlink fault;
  wi_pre_xattr := pre_xattr h fault;
  wi_pre_open_trunc := pre_open_trunc h fault;
  wi_pre_fallocate := pre_fallocate h fault;
  wi_pre_copy_file_range := pre_copy_file_range h fault;
  wi_current_step w := active_step (inner (w_int w));
|}.

Lemma same_tree_preimages {A} (m : stm (option preimage_dir) CodeAgentError A) :
  guarantees same_tree (zoom wal_preimages set_wal_preimages m).
Proof. by apply guarantees_zoom. Qed.
Lemma same_tree_inner f : guarantees same_tree (modify (E := CodeAgentError) (on_inner f)).
Proof. by intros w. Qed.
#[local] Hint Resolve same_tree_preimages same_tree_inner : guarantees.

Lemma same_tree_ensure p : guarantees same_tree (ensure_preimage h fault p).
Proof. unfold ensure_preimage. guarantee. Qed.
Lemma same_tree_record p : guarantees same_tree (record_creation fault p).
Proof. unfold record_creation. guarantee. Qed.
Lemma same_tree_tracker f : guarantees same_tree (with_tracker f).
Proof. unfold with_tracker. guarantee. Qed.
Lemma same_tree_active : guarantees same_tree is_active.
Proof. unfold is_active. guarantee. Qed.
Lemma same_tree_current : guarantees same_tree current_step.
Proof. unfold current_step. guarantee. Qed.
#[local] Hint Resolve same_tree_ensure same_tree_record same_tree_tracker same_tree_active
  same_tree_current : guarantees.

Lemma same_tree_capture fuel p : guarantees same_tree (capture_tree h fault fuel p).
Proof. revert p. induction fuel; intros p; simpl; guarantee. Qed.
Lemma same_tree_capture_all p : guarantees same_tree (capture_tree_preimages h fault p).
Proof. unfold capture_tree_preimages. guarantee. apply same_tree_capture. Qed.
#[local] Hint Resolve same_tree_capture_all : guarantees.

Lemma same_tree_if_active p : guarantees same_tree (capture_if_active h fault p).
Proof. unfold capture_if_active. guarantee. Qed.
Lemma same_tree_post_create p : guarantees same_tree (post_create fault p).
Proof. unfold post_create. guarantee. Qed.
#[local] Hint Resolve same_tree_if_active same_tree_post_create : guarantees.

(** A safeguard that denies rolls the step back, and returns an error. *)
Lemma same_tree_safeguard e : on_ok same_tree (handle_safeguard_event h fault e).
Proof. unfold handle_safeguard_event. when_ok. Qed.

Lemma allowed_write p : on_ok same_tree (pre_write h fault p).
Proof. unfold pre_write. when_ok; apply same_tree_safeguard. Qed.

#[export] Instance undo_hooks_laws : WriteInterceptorLaws undo_hooks.
Proof.
  split.
  - intros []; cbn [call_hook undo_hooks wi_pre_write wi_pre_unlink wi_pre_rename wi_post_create
      wi_post_mkdir wi_pre_setattr wi_pre_link wi_post_symlink wi_pre_xattr wi_pre_open_trunc
      wi_pre_fallocate wi_pre_copy_file_range];
      try apply allowed_write; try (apply on_ok_guarantees; solve [auto with guarantees]).
    + unfold pre_unlink. when_ok; apply same_tree_safeguard.
    + unfold pre_rename. when_ok; apply same_tree_safeguard.
    + unfold pre_link. when_ok.
    + unfold post_symlink. when_ok.
  - intros [] Hp; try discriminate Hp; cbn [call_hook undo_hooks wi_post_create wi_post_mkdir wi_post_symlink].
    + auto with guarantees.
    + apply same_tree_post_create.
    + unfold post_symlink. guarantee.
Qed.

End hooks.

(** ** Reading the history from disk

    Models [crates/interceptor/src/history.rs]: the listing of completed steps
    and barriers that the desktop application shows, read from the step
    directories alone.  Time stamps are compared as [Z]; the source compares
    their RFC 3339 strings, which order the same way within one time zone. *)

Record FileDetail := mkFileDetail {
  fd_path : string;
  fd_existed_before : bool;
  fd_file_type : string;
}.

Record StepDetail := mkStepDetail {
  sdt_step_id : StepId;
  sdt_timestamp : Z;
  sdt_command : option string;
  sdt_file_count : nat;
  sdt_files : list FileDetail;
  sdt_unprotected : bool;
}.

Record UndoHistoryData := mkHistory {
  uh_steps : list StepDetail;
  uh_barriers : list BarrierInfo;
}.

Definition step_detail (m : StepManifest) : StepDetail :=
  let files := (λ '(p, e), mkFileDetail p (me_existed_before e) (me_file_type e))
               <$> btree_iter (sm_entries m) in
  mkStepDetail (sm_step_id m) (sm_timestamp m) (sm_command m) (length files) files
    (sm_unprotected m).

(** One directory of [steps/]: its barriers, and its step when it has a readable
    manifest that is not empty. *)
Definition read_step (steps : gmap Z step_files) (id : StepId)
    : list BarrierInfo * option StepDetail :=
  (barrier_infos id (read_step_barriers (steps !! id)),
   match manifest_read_from <$> steps !! id with
   | Some (Ok m) => if decide (sm_entries m = ∅) then None else Some (step_detail m)
   | _ => None
   end).

Definition newest_first (a b : StepDetail) : bool := sdt_timestamp b <=? sdt_timestamp a.

(** [listing] is the order in which [read_dir] shows the step directories. *)
Definition read_undo_history (listing : list StepId) (steps : gmap Z step_files) : UndoHistoryData :=
  let read := read_step steps <$> listing in
  mkHistory (sort_by newest_first (omap snd read)) (read ≫= fst).

(** The history shown is the history on disk: for any listing order of the
    step directories, the steps shown are exactly the directories with a
    readable, non-empty manifest, newest first, each with one line per manifest
    entry. *)
Theorem read_undo_history_exact listing steps :
  listing ≡ₚ elements (dom steps) →
  (∀ d, d ∈ uh_steps (read_undo_history listing steps) ↔
        ∃ id sd m, steps !! id = Some sd ∧ manifest_read_from sd = Ok m ∧ sm_entries m ≠ ∅ ∧
                   d = step_detail m) ∧
  StronglySorted (λ a b, newest_first a b = true) (uh_steps (read_undo_history listing steps)) ∧
  Forall (λ d, sdt_file_count d = length (sdt_files d)) (uh_steps (read_undo_history listing steps)).
Proof.
  intros Hl. simpl.
  assert (∀ d, d ∈ omap snd (read_step steps <$> listing) ↔
        ∃ id sd m, steps !! id = Some sd ∧ manifest_read_from sd = Ok m ∧ sm_entries m ≠ ∅ ∧
                   d = step_detail m) as Hin.
  { intros d. rewrite list_elem_of_omap. setoid_rewrite list_elem_of_fmap. split.
    - intros (x & (id & -> & _) & Hd). unfold read_step in Hd. simpl in Hd.
      destruct (steps !! id) as [sd|] eqn:Es; simpl in Hd; [|done].
      destruct (manifest_read_from sd) as [m| |] eqn:Em; [|done|done].
      case_decide; [done|]. simplify_eq. by exists id, sd, m.
    - intros (id & sd & m & Es & Em & Hne & ->). exists (read_step steps id). split.
      + exists id. split; [done|]. rewrite Hl, elem_of_elements, elem_of_dom. by eexists.
      + unfold read_step. rewrite Es. simpl. rewrite Em. by rewrite decide_False. }
  split_and!.
  - intros d. by rewrite sort_by_perm, Hin.
  - apply sort_by_sorted; unfold newest_first.
    + intros x y. rewrite !Z.leb_le. lia.
    + intros x y z. rewrite !Z.leb_le. lia.
  - apply Forall_forall. intros d. rewrite sort_by_perm, Hin.
    by intros (id & sd & m & _ & _ & _ & ->).
Qed.

Definition history_sample : gmap Z step_files :=
  {[1 := mkStepFiles (Some (Json (mkManifest 1 10 None {["a" := mkEntry true "h" "regular"]} false))) None None;
    2 := mkStepFiles (Some (Json (mkManifest 2 20 None ∅ false))) None None;
    3 := mkStepFiles (Some Corrupt) None None]}.

Lemma read_undo_history_exact_witness :
  Forall (λ d, sdt_file_count d = length (sdt_files d))
    (uh_steps (read_undo_history [3; 1; 2] history_sample)) ∧
  length (uh_steps (read_undo_history [3; 1; 2] history_sample)) = 1%nat.
Proof.
  split; [|by vm_compute].
  refine (proj2 (proj2 (read_undo_history_exact [3; 1; 2] history_sample _))).
  apply (bool_decide_unpack _). by vm_compute.
Defined.
