(* ===== verification/UndoEvict.v ===== *)
(** * Eviction keeps the log within its limits

    [evict_if_needed] removes the oldest steps, and only those, until the
    configured number of steps and log size are respected. *)

From Stdlib Require Import Ascii.
From stdpp Require Import base gmap strings list fin_maps.
From S2P Require Import Prelude HostFs Common Safeguard UndoLog UndoInterceptor.
#[local] Open Scope Z_scope.

(** The undo directory does not fail. *)
Definition no_fault : undo_io → option io_error := λ _, None.

(** File lengths are not negative. *)
Class JsonLenLaws (JL : JsonLen) := {
  manifest_len_pos j : 0 ≤ manifest_len j;
  barriers_len_pos j : 0 ≤ barriers_len j;
  meta_len_pos j : 0 ≤ meta_len j;
  tmp_len_pos s : 0 ≤ tmp_len s;
}.

Section evict.
Context `{JL : JsonLen} `{!JsonLenLaws JL}.

(** [w'] is [w] without the step directories in [gone]. *)
Record steps_removed (gone : list StepId) (w w' : world) : Prop := mkRemoved {
  rm_tree : w_tree w' = w_tree w;
  rm_int : w_int w' = w_int w;
  rm_wal : ud_wal (w_undo w') = ud_wal (w_undo w);
  rm_gone : ∀ id, id ∈ gone → ud_steps (w_undo w') !! id = None;
  rm_kept : ∀ id, id ∉ gone → ud_steps (w_undo w') !! id = ud_steps (w_undo w) !! id;
}.

Lemma steps_removed_nil w : steps_removed [] w w.
Proof. split; try done. intros id H. by apply elem_of_nil in H. Qed.

Lemma steps_removed_cons id gone w w1 w' :
  steps_removed [id] w w1 → steps_removed gone w1 w' → steps_removed (id :: gone) w w'.
Proof.
  intros [H1 H2 H3 H4 H5] [K1 K2 K3 K4 K5]. split; [congruence | congruence | congruence | |].
  - intros i Hi. destruct (decide (i ∈ gone)) as [Hg|Hg]; [auto|].
    rewrite K5 by done. apply H4. apply elem_of_cons in Hi as [->|]; [by left | done].
  - intros i Hi. apply not_elem_of_cons in Hi as [Hi Hg]. rewrite K5, H5; [done | | done].
    by rewrite list_elem_of_singleton.
Qed.

(** Removing one step directory, if it exists. *)
Lemma remove_if_present id w :
  ∃ w', steps_removed [id] w w' ∧
    ∀ A (k : option step_files → WorldM A),
      (d ← step_dir id;
       (match d with Some _ => remove_step no_fault id | None => mret () end);; k d) w
      = k (ud_steps (w_undo w) !! id) w'.
Proof.
  unfold step_dir, mbind, stm_bind, gets. destruct (ud_steps (w_undo w) !! id) eqn:E.
  - eexists. split; [|intros A k; reflexivity]. split; try done; simpl; intros i Hi.
    + apply list_elem_of_singleton in Hi as ->. apply lookup_delete_eq.
    + rewrite list_elem_of_singleton in Hi. by rewrite lookup_delete_ne.
  - exists w. split; [|done]. split; try done. intros i Hi.
    by apply list_elem_of_singleton in Hi as ->.
Qed.

(** Phase 1 keeps the newest [max_count] steps. *)
Lemma evict_by_count_ok max_count remaining evicted w :
  let k := (length remaining - max_count)%nat in
  ∃ w', evict_by_count no_fault max_count remaining evicted w
        = (Ok (drop k remaining, evicted ++ take k remaining), w') ∧
        steps_removed (take k remaining) w w'.
Proof.
  revert evicted w. induction remaining as [|oldest rest IH]; intros evicted w; cbn [evict_by_count].
  - exists w. simpl. rewrite app_nil_r. split; [done | apply steps_removed_nil].
  - destruct (max_count <? length (oldest :: rest))%nat eqn:E; simpl length in *.
    + apply Nat.ltb_lt in E. destruct (remove_if_present oldest w) as (w1 & Hr1 & H1).
      destruct (IH (evicted ++ [oldest]) w1) as (w' & Hw' & Hr').
      replace (S (length rest) - max_count)%nat with (S (length rest - max_count)) by lia.
      exists w'. cbn [take drop]. split; [|by eapply steps_removed_cons].
      rewrite <- app_assoc in Hw'. simpl in Hw'. rewrite <- Hw'.
      apply (H1 _ (λ _, evict_by_count no_fault max_count rest (evicted ++ [oldest]))).
    + apply Nat.ltb_ge in E. replace (S (length rest) - max_count)%nat with 0%nat by lia.
      exists w. simpl. rewrite app_nil_r. split; [done | apply steps_removed_nil].
Qed.

(** *** Sizes *)

Lemma dirent_size_list l : dirent_size (DDir l) = foldr (λ e acc, dirent_size e + acc) 0 l.
Proof. done. Qed.

Lemma sum_pos l : Forall (λ e, 0 ≤ dirent_size e) l → 0 ≤ dirent_size (DDir l).
Proof. induction 1; simpl in *; lia. Qed.

Lemma step_size_pos sd : 0 ≤ calculate_step_size sd.
Proof.
  destruct sd as [s|]; [|done]. unfold calculate_step_size. apply sum_pos. unfold step_listing.
  rewrite !Forall_app. split_and!.
  - destruct (sd_manifest s); repeat constructor. apply manifest_len_pos.
  - destruct (sd_barriers s); repeat constructor. apply barriers_len_pos.
  - destruct (sd_preimages s) as [d|]; repeat constructor. apply sum_pos.
    rewrite !Forall_app, !Forall_fmap. split_and!; apply Forall_forall; intros x _; simpl.
    + apply meta_len_pos.
    + lia.
    + apply tmp_len_pos.
Qed.

Definition total_size (steps : gmap Z step_files) (ids : list StepId) : Z :=
  foldr (λ id acc, calculate_step_size (steps !! id) + acc) 0 ids.

Lemma total_log_size_sum steps ids : calculate_total_log_size steps ids = total_size steps ids.
Proof.
  unfold calculate_total_log_size.
  assert (∀ acc, foldl (λ total id, total + calculate_step_size (steps !! id)) acc ids
                 = acc + total_size steps ids) as H; [|by rewrite H].
  induction ids as [|id ids IH]; intros acc; simpl; [lia|]. rewrite IH. lia.
Qed.

Lemma total_size_pos steps ids : 0 ≤ total_size steps ids.
Proof.
  induction ids as [|id ids IH]; simpl; [done|]. pose proof (step_size_pos (steps !! id)). lia.
Qed.

Lemma total_size_ext (steps steps' : gmap Z step_files) ids :
  (∀ id, id ∈ ids → steps !! id = steps' !! id) → total_size steps ids = total_size steps' ids.
Proof.
  induction ids as [|id ids IH]; intros H; simpl; [done|].
  rewrite IH, (H id) by set_solver. done.
Qed.

(** Phase 2 removes a prefix, after which the rest fits. *)
Lemma evict_by_size_ok max_size remaining evicted w :
  0 ≤ max_size → NoDup remaining →
  ∃ k w', evict_by_size no_fault max_size (total_size (ud_steps (w_undo w)) remaining) remaining evicted w
        = (Ok (drop k remaining, evicted ++ take k remaining), w') ∧
        steps_removed (take k remaining) w w' ∧
        total_size (ud_steps (w_undo w')) (drop k remaining) ≤ max_size.
Proof.
  intros Hmax. revert evicted w. induction remaining as [|oldest rest IH]; intros evicted w Hnd;
    cbn [evict_by_size].
  - exists 0%nat, w. simpl. rewrite app_nil_r. split_and!; [done | apply steps_removed_nil | done].
  - destruct (max_size <? total_size (ud_steps (w_undo w)) (oldest :: rest)) eqn:E.
    + apply NoDup_cons in Hnd as [Hni Hnd].
      destruct (remove_if_present oldest w) as (w1 & Hr1 & H1).
      assert (total_size (ud_steps (w_undo w)) rest = total_size (ud_steps (w_undo w1)) rest) as Heq.
      { apply total_size_ext. intros id Hid. rewrite (rm_kept _ _ _ Hr1); [done|].
        rewrite list_elem_of_singleton. by intros ->. }
      destruct (IH (evicted ++ [oldest]) w1 Hnd) as (k & w' & Hw' & Hr' & Hle).
      exists (S k), w'. cbn [take drop]. split_and!; [|by eapply steps_removed_cons | done].
      rewrite <- app_assoc in Hw'. simpl in Hw'. rewrite <- Hw', <- Heq.
      etrans; [apply (H1 _ (λ d, evict_by_size no_fault max_size
        (Z.max 0 (total_size (ud_steps (w_undo w)) (oldest :: rest) - calculate_step_size d))
        rest (evicted ++ [oldest])))|].
      pose proof (total_size_pos (ud_steps (w_undo w)) rest).
      simpl. fold (total_size (ud_steps (w_undo w)) rest). do 2 f_equal. lia.
    + exists 0%nat, w. cbn [take drop]. rewrite app_nil_r.
      split_and!; [done | apply steps_removed_nil | lia].
Qed.

(** *** Both phases *)

Lemma filter_not_in_take (l : list StepId) k : NoDup l → filter (λ s, s ∉ take k l) l = drop k l.
Proof.
  intros Hnd. transitivity (filter (λ s, s ∉ take k l) (take k l ++ drop k l)); [by rewrite take_drop|].
  rewrite filter_app.
  rewrite <- (take_drop k l) in Hnd. apply NoDup_app in Hnd as (_ & Hdisj & _).
  assert (∀ l' : list Z, (∀ x, x ∈ l' → x ∈ take k l) → filter (λ s, s ∉ take k l) l' = []) as H0.
  { induction l' as [|x l' IH]; intros Hl; [done|]. rewrite filter_cons_False, IH; [done | set_solver |].
    intros Hx. apply Hx, Hl. by left. }
  rewrite H0 by done.
  assert (∀ l' : list Z, (∀ x, x ∈ l' → x ∈ drop k l) → filter (λ s, s ∉ take k l) l' = l') as H; [|by apply H].
  induction l' as [|x l' IH]; intros Hl; [done|]. rewrite filter_cons_True, IH; [done | set_solver |].
  intros Hx. apply (Hdisj x Hx), Hl. by left.
Qed.

(** The configured limits hold of the history [ids]. *)
Record within_limits (limits : ResourceLimitsConfig) (steps : gmap Z step_files)
    (ids : list StepId) : Prop := mkWithin {
  wl_count : ∀ c, max_step_count limits = Some c → (length ids ≤ c)%nat;
  wl_size : ∀ s, max_log_size_bytes limits = Some s → calculate_total_log_size steps ids ≤ s;
}.

Definition limits_wf (limits : ResourceLimitsConfig) : Prop :=
  ∀ s, max_log_size_bytes limits = Some s → 0 ≤ s.

Lemma steps_removed_app g1 g2 w w1 w' :
  steps_removed g1 w w1 → steps_removed g2 w1 w' → steps_removed (g1 ++ g2) w w'.
Proof.
  intros [H1 H2 H3 H4 H5] [K1 K2 K3 K4 K5]. split; [congruence | congruence | congruence | |].
  - intros i Hi. destruct (decide (i ∈ g2)) as [Hg|Hg]; [auto|].
    rewrite K5 by done. apply H4. set_solver.
  - intros i Hi. rewrite K5, H5; set_solver.
Qed.

Lemma evict_count_phase limits completed w :
  ∃ k w', (match max_step_count limits with
     | Some max_count => evict_by_count no_fault max_count completed []
     | None => mret (completed, []) end) w = (Ok (drop k completed, take k completed), w') ∧
     steps_removed (take k completed) w w' ∧
     ∀ c, max_step_count limits = Some c → (length (drop k completed) ≤ c)%nat.
Proof.
  destruct (max_step_count limits) as [c|].
  - destruct (evict_by_count_ok c completed [] w) as (w1 & Hw1 & Hr1).
    eexists _, w1. split_and!; [exact Hw1 | done |]. intros c' [= <-]. rewrite length_drop. lia.
  - exists 0%nat, w. split_and!; [done | apply steps_removed_nil | done].
Qed.

Lemma evict_size_phase limits remaining evicted w :
  limits_wf limits → NoDup remaining →
  ∃ k w', (match max_log_size_bytes limits with
     | Some max_size => steps ← gets (λ w, ud_steps (w_undo w));
         evict_by_size no_fault max_size (calculate_total_log_size steps remaining) remaining evicted
     | None => mret (remaining, evicted) end) w
     = (Ok (drop k remaining, evicted ++ take k remaining), w') ∧
     steps_removed (take k remaining) w w' ∧
     ∀ s, max_log_size_bytes limits = Some s →
          calculate_total_log_size (ud_steps (w_undo w')) (drop k remaining) ≤ s.
Proof.
  intros Hwf Hnd. destruct (max_log_size_bytes limits) as [s|] eqn:Es.
  - erewrite stm_bind_ok by done. rewrite total_log_size_sum.
    destruct (evict_by_size_ok s remaining evicted w) as (k & w' & Hw' & Hr & Hle);
      [by apply Hwf | done |].
    exists k, w'. split_and!; [done | done |]. intros s' [= <-]. by rewrite total_log_size_sum.
  - exists 0%nat, w. rewrite take_0, app_nil_r. split_and!; [done | apply steps_removed_nil | done].
Qed.

Lemma evict_if_needed_ok w completed :
  completed_steps_ (inner (w_int w)) = completed → NoDup completed →
  limits_wf (resource_limits (w_int w)) →
  ∃ k w1 w', evict_if_needed no_fault completed w = (Ok (take k completed), w') ∧
    steps_removed (take k completed) w w1 ∧
    w' = on_inner (set_completed (drop k completed)) w1 ∧
    within_limits (resource_limits (w_int w)) (ud_steps (w_undo w')) (drop k completed).
Proof.
  intros Hc Hnd Hwf. unfold evict_if_needed. erewrite stm_bind_ok by done.
  set (limits := resource_limits (w_int w)) in *.
  destruct (evict_count_phase limits completed w) as (k1 & w1 & H1 & Hr1 & Hcount).
  rewrite (stm_bind_ok _ _ _ _ _ H1).
  destruct (evict_size_phase limits (drop k1 completed) (take k1 completed) w1)
    as (k2 & w2 & H2 & Hr2 & Hsize); [done | |].
  { rewrite <- (take_drop k1 completed) in Hnd. by apply NoDup_app in Hnd as (_ & _ & ?). }
  rewrite (stm_bind_ok _ _ _ _ _ H2). rewrite drop_drop in *.
  assert (take k1 completed ++ take k2 (drop k1 completed) = take (k1 + k2) completed) as Htk
    by apply take_take_drop.
  pose proof (steps_removed_app _ _ _ _ _ Hr1 Hr2) as Hr. rewrite Htk in Hr |- *.
  exists (k1 + k2)%nat, w2, (on_inner (set_completed (drop (k1 + k2) completed)) w2).
  split_and!; [| done | done |].
  - assert (completed_steps_ (inner (w_int w2)) = completed) as Hc2 by by rewrite (rm_int _ _ _ Hr).
    case_decide as He.
    + assert (drop (k1 + k2) completed = completed) as Hd.
      { rewrite <- (take_drop (k1 + k2) completed) at 2. by rewrite He. }
      rewrite Hd. erewrite stm_bind_ok by done. rewrite He. do 2 f_equal.
      rewrite <- Hc2. destruct w2 as [? ? []]. unfold on_inner, on_int, set_inner, set_completed.
      simpl. do 3 f_equal. by destruct inner.
    + erewrite stm_bind_ok by done. unfold mret, stm_ret. f_equal. unfold on_inner, on_int.
      cbv beta. by rewrite Hc2, filter_not_in_take by done.
  - split; [|done]. intros c Hcc. rewrite <- drop_drop. pose proof (Hcount c Hcc).
    rewrite length_drop. lia.
Qed.

Lemma evict_nothing completed w :
  max_step_count (resource_limits (w_int w)) = None → max_log_size_bytes (resource_limits (w_int w)) = None →
  evict_if_needed no_fault completed w = (Ok [], w).
Proof.
  intros Hc Hs. unfold evict_if_needed. erewrite stm_bind_ok by done. rewrite Hc. erewrite stm_bind_ok by done.
  cbv beta iota. rewrite Hs. erewrite stm_bind_ok by done. done.
Qed.

(** ** Closing a step that touched files *)

(** The manifest [close_step] writes. *)
Definition closed_manifest (w : world) (mf : StepManifest) : StepManifest :=
  mkManifest (next_step_id (w_int w)) (sm_timestamp mf) (sm_command mf) (sm_entries mf)
    (if step_unprotected (inner (w_int w)) then true else sm_unprotected mf).

Record closed (w w' : world) (sd : step_files) (mf : StepManifest) (k : nat) : Prop := mkClosed {
  cs_tree : w_tree w' = w_tree w;
  cs_active : active_step (inner (w_int w')) = None;
  cs_completed : completed_steps_ (inner (w_int w'))
                 = drop k (completed_steps_ (inner (w_int w)) ++ [next_step_id (w_int w)]);
  cs_next : next_step_id (w_int w') = next_step_id (w_int w) + 1;
  cs_config : working_root (w_int w') = working_root (w_int w) ∧
              symlink_policy (w_int w') = symlink_policy (w_int w);
  cs_wal : ud_wal (w_undo w') = None;
  cs_step : next_step_id (w_int w) ∉ take k (completed_steps_ (inner (w_int w)) ++ [next_step_id (w_int w)]) →
            ud_steps (w_undo w') !! next_step_id (w_int w)
            = Some (mkStepFiles (Some (Json (closed_manifest w mf))) (sd_preimages sd) (sd_barriers sd));
  cs_limits : within_limits (resource_limits (w_int w)) (ud_steps (w_undo w'))
                (drop k (completed_steps_ (inner (w_int w)) ++ [next_step_id (w_int w)]));
  cs_unlimited : max_step_count (resource_limits (w_int w)) = None →
                 max_log_size_bytes (resource_limits (w_int w)) = None →
                 take k (completed_steps_ (inner (w_int w)) ++ [next_step_id (w_int w)]) = [];
}.

Lemma promote_ok id w sd :
  ud_wal (w_undo w) = Some sd →
  ∃ w', (old ← step_dir id;
         (match old with Some _ => ignore (remove_step no_fault id) | None => mret () end);;
         ignore (promote no_fault id)) w = (Ok (), w') ∧
    w_tree w' = w_tree w ∧ w_int w' = w_int w ∧ ud_wal (w_undo w') = None ∧
    ud_steps (w_undo w') !! id = Some sd.
Proof.
  intros Hsd. unfold step_dir, mbind, stm_bind, gets.
  destruct (ud_steps (w_undo w) !! id) eqn:E; simpl.
  - unfold ignore at 1, promote, mbind, stm_bind, get. simpl. rewrite Hsd, lookup_delete_eq.
    eexists. split; [reflexivity|]. simpl. rewrite Hsd. simpl. split_and!; try done.
    apply lookup_insert_eq.
  - unfold ignore at 1, promote, mbind, stm_bind, get. simpl. rewrite Hsd, E.
    eexists. split; [reflexivity|]. simpl. rewrite Hsd. simpl. split_and!; try done.
    apply lookup_insert_eq.
Qed.

Lemma close_step_ok id w sd mf :
  ud_wal (w_undo w) = Some sd → is_Some (active_step (inner (w_int w))) →
  current_manifest (inner (w_int w)) = Some mf → sm_entries mf ≠ ∅ →
  NoDup (completed_steps_ (inner (w_int w)) ++ [next_step_id (w_int w)]) →
  limits_wf (resource_limits (w_int w)) →
  ∃ k w', close_step no_fault id w
          = (Ok (take k (completed_steps_ (inner (w_int w)) ++ [next_step_id (w_int w)])), w') ∧
          closed w w' sd mf k.
Proof.
  intros Hsd [a Hact] Hmf Hne Hnd Hwf. unfold close_step. erewrite stm_bind_ok by done.
  rewrite Hmf, bool_decide_eq_false_2 by done. erewrite stm_bind_ok by done.
  erewrite stm_bind_ok by done. set (final := next_step_id (w_int w)) in *.
  set (sd1 := mkStepFiles (Some (Json (closed_manifest w mf))) (sd_preimages sd) (sd_barriers sd)).
  erewrite stm_bind_ok; cycle 1.
  { erewrite stm_bind_ok by done. unfold write_wal_manifest.
    erewrite stm_bind_ok by done. cbn [w_undo on_inner on_int]. rewrite Hsd. unfold undo_op. simpl.
    assert (∀ b : bool, (if b then mkManifest final (sm_timestamp mf) (sm_command mf) (sm_entries mf) true
      else mkManifest final (sm_timestamp mf) (sm_command mf) (sm_entries mf) (sm_unprotected mf))
      = mkManifest final (sm_timestamp mf) (sm_command mf) (sm_entries mf)
          (if b then true else sm_unprotected mf)) as -> by by intros []. reflexivity. }
  fold (closed_manifest w mf). fold sd1.
  rewrite Hact, bool_decide_eq_false_2 by done.
  erewrite stm_bind_ok by done. erewrite stm_bind_ok by done. erewrite stm_bind_ok by done.
  match goal with |- context [(_ ≫= _) ?s] => set (w2 := s) end.
  destruct (promote_ok final w2 sd1 eq_refl) as (w3 & H3 & Ht3 & Hi3 & Hw3 & Hs3).
  rewrite (stm_bind_ok _ _ _ _ _ H3).
  destruct (evict_if_needed_ok w3 (completed_steps_ (inner (w_int w)) ++ [final]))
    as (k & w4 & w5 & H5 & Hr & -> & Hlim); [by rewrite Hi3 | done | by rewrite Hi3 |].
  exists k. eexists. split; [exact H5|]. rewrite Hi3 in Hlim. destruct Hr as [R1 R2 R3 R4 R5].
  split; simpl.
  - by rewrite R1, Ht3.
  - by rewrite R2, Hi3.
  - done.
  - by rewrite R2, Hi3.
  - by rewrite R2, Hi3.
  - by rewrite R3, Hw3.
  - intros Hnot. etrans; [by apply R5 | exact Hs3].
  - exact Hlim.
  - intros Hmc Hms. rewrite evict_nothing in H5 by by rewrite Hi3. by injection H5.
Qed.

End evict.
