(* ===== verification/UndoFacts.v ===== *)
(** * Rolling back one step restores the tree

    The laws of the third-party crates, the relation between a working tree
    and the preimages logged for it, and the proof that [rollback_step] brings
    back the tree the step started from. *)

From Stdlib Require Import Ascii.
From stdpp Require Import base gmap strings list fin_maps sorting.
From S2P Require Import Prelude HostFs HostFacts Common UndoLog.
#[local] Open Scope Z_scope.

(** ** Laws of the crates

    [zstd] decodes what it encodes; [filetime::set_file_mtime] sets the
    modification time of the file a path leads to and accepts nanosecond
    parts below one second; [xattr] lists, reads, sets and removes the
    attributes of a file (not following a final link), on a filesystem that
    supports them. *)

Class ThirdPartyLaws (TP : ThirdParty) := {
  zstd_roundtrip c : ∃ z, zstd_encode_all c = Ok z ∧ zstd_decode_all z = Ok c;
  set_file_mtime_ok ns p q n secs nanos :
    lookup_node ns true p = Ok (q, n) → 0 ≤ nanos < 1000000000 →
    set_file_mtime ns p secs nanos
    = Ok (<[q := with_meta (set_mtime (secs * 1000000000 + nanos)) n]> ns);
  xattr_list_ok ns p q n :
    lookup_node ns false p = Ok (q, n) →
    ∃ l, xattr_list ns p = Ok l ∧ NoDup l ∧
         ∀ k, k ∈ l ↔ is_Some (m_xattrs (node_meta n) !! k);
  xattr_get_ok ns p q n k :
    lookup_node ns false p = Ok (q, n) →
    xattr_get ns p k = Ok (m_xattrs (node_meta n) !! k);
  xattr_set_ok ns p q n k v :
    lookup_node ns false p = Ok (q, n) →
    xattr_set ns p k v
    = Ok (<[q := with_meta (λ m, set_xattrs (<[k := v]> (m_xattrs m)) m) n]> ns);
  xattr_remove_ok ns p q n k :
    lookup_node ns false p = Ok (q, n) → is_Some (m_xattrs (node_meta n) !! k) →
    xattr_remove ns p k
    = Ok (<[q := with_meta (λ m, set_xattrs (delete k (m_xattrs m)) m) n]> ns);
}.

(** ** Paths as manifest keys *)

Abbreviation key := normalized_relative_path.

Lemma str_map_app f s1 s2 : str_map f (s1 +:+ s2) = str_map f s1 +:+ str_map f s2.
Proof. induction s1 as [|c s1 IH]; simpl; [done|]. by rewrite IH. Qed.

Lemma normalize_lacks s : lacks backslash s = true → normalize_separators s = s.
Proof.
  unfold lacks, normalize_separators. induction s as [|c s IH]; simpl; [done|].
  intros [Hc Hs]%andb_true_iff. apply negb_true_iff in Hc. by rewrite Hc, IH.
Qed.

Lemma lacks_app c s1 s2 : lacks c (s1 +:+ s2) = lacks c s1 && lacks c s2.
Proof.
  unfold lacks. induction s1; simpl; [done|]. by rewrite IHs1, andb_assoc.
Qed.

Lemma clean_no_backslash r : clean r → lacks backslash (join_with slash r) = true.
Proof.
  induction 1 as [|c r Hc Hr IH]; [done|]. apply name_ok_spec in Hc as (_ & _ & _ & _ & Hb).
  destruct r as [|c' r]; [done|].
  change (join_with slash (c :: c' :: r)) with (c +:+ String slash (join_with slash (c' :: r))).
  rewrite lacks_app, Hb. exact IH.
Qed.

Lemma key_clean r : clean r → key r = join_with slash r.
Proof. intros. by apply normalize_lacks, clean_no_backslash. Qed.

Lemma clean_slashes r : clean r → Forall (λ x, lacks slash x = true) r.
Proof. intros H. eapply Forall_impl; [exact H|]. intros c Hc. apply name_ok_spec in Hc; tauto. Qed.

Lemma components_key r : clean r → components (key r) = r.
Proof.
  intros Hr. rewrite key_clean by done. unfold components.
  destruct r as [|c r]; [done|]. rewrite split_join by by apply clean_slashes.
  clear -Hr. induction Hr as [|c' r' Hc Hr IH]; [done|].
  apply name_ok_spec in Hc. rewrite filter_cons_True by tauto. by f_equal.
Qed.

Lemma key_inj r r' : clean r → clean r' → key r = key r' → r = r'.
Proof. intros Hr Hr' H. rewrite <- (components_key r), <- (components_key r') by done. by rewrite H. Qed.

Lemma key_not_absolute r : clean r → is_absolute (key r) = false.
Proof.
  intros Hr. rewrite key_clean by done. destruct Hr as [|c r Hc Hr]; [done|].
  apply name_ok_spec in Hc as (Hne & _ & _ & Hs & _).
  destruct c as [|a c]; [done|]. unfold lacks in Hs. simpl in Hs.
  apply andb_true_iff in Hs as [Hs _]. apply negb_true_iff in Hs.
  by destruct r.
Qed.

Lemma path_join_key W r : clean r → path_join W (key r) = W ++ r.
Proof. intros Hr. unfold path_join. by rewrite key_not_absolute, components_key. Qed.

Lemma path_join_name p c : name_ok c = true → path_join p c = p ++ [c].
Proof.
  intros Hc. assert (clean [c]) as Hcl by by repeat constructor.
  pose proof (path_join_key p [c] Hcl) as H. by rewrite key_clean in H.
Qed.

Lemma str_count_app P s1 s2 : str_count P (s1 +:+ s2) = (str_count P s1 + str_count P s2)%nat.
Proof. induction s1; simpl; [done|]. case_match; simpl; by rewrite IHs1. Qed.

Lemma path_depth_name c : lacks slash c = true → lacks backslash c = true → path_depth c = 0%nat.
Proof.
  unfold path_depth, lacks. induction c as [|a c IH]; simpl; [done|].
  intros [H1 H2]%andb_true_iff [H3 H4]%andb_true_iff.
  apply negb_true_iff in H1, H3. rewrite H1, H3. simpl. auto.
Qed.

Lemma path_depth_key r : clean r → path_depth (key r) = (length r - 1)%nat.
Proof.
  intros Hr. rewrite key_clean by done. induction Hr as [|c r Hc Hr IH]; [done|].
  apply name_ok_spec in Hc as (_ & _ & _ & Hs & Hb). destruct r as [|c' r].
  - by apply path_depth_name.
  - change (join_with slash (c :: c' :: r)) with (c +:+ String slash (join_with slash (c' :: r))).
    unfold path_depth in *. rewrite str_count_app.
    pose proof (path_depth_name c Hs Hb) as H0. unfold path_depth in H0. rewrite H0.
    simpl str_count in *. simpl. rewrite IH. simpl. lia.
Qed.

(** ** Restoring metadata *)

(** Metadata a Unix host reports and [restore_mtime] can set again: twelve
    permission bits, and a modification time not before 1970. *)
Definition meta_wf (m : meta) : Prop :=
  0 ≤ m_perm m < 2 ^ 12 ∧ 0 ≤ m_mtime m < 2 ^ 63 * 1000000000.

Lemma land_mode_perm t perm : 0 ≤ perm < 2 ^ 12 → t mod 2 ^ 12 = 0 → Z.land (t + perm) 0xFFF = perm.
Proof.
  intros Hp Ht. change 0xFFF with (Z.ones 12). rewrite Z.land_ones by lia.
  rewrite Zplus_mod, Ht, Z.add_0_l, Zmod_mod. by apply Z.mod_small.
Qed.

Lemma st_mode_perm n : meta_wf (node_meta n) → Z.land (st_mode n) 0xFFF = m_perm (node_meta n).
Proof. intros [Hp _]. destruct n; apply land_mode_perm; done. Qed.

Section restore.
Context `{TP : ThirdParty} `{!ThirdPartyLaws TP} (h : host) (W : path) (pol : SymlinkPolicy).

Lemma with_meta_plain t r n f :
  plain W t → t !! (W ++ r) = Some n → plain W (<[W ++ r := with_meta f n]> t).
Proof.
  intros Hp Hn. pose proof (pl_nolink _ _ Hp r n Hn).
  apply (plain_update W t r _ n); [done | done | by destruct n | by destruct n].
Qed.

(** The tree with the metadata of one node replaced. *)
Definition put_meta (t : tree) (r : path) (n : node) (m : meta) : tree :=
  <[W ++ r := with_meta (λ _, m) n]> t.

Lemma put_meta_lookup t r n m :
  plain W t → t !! (W ++ r) = Some n →
  plain W (put_meta t r n m) ∧
  (∀ f, lookup_node (put_meta t r n m) f (W ++ r) = Ok (W ++ r, with_meta (λ _, m) n)).
Proof.
  intros Hp Hn. split; [by apply with_meta_plain|]. intros f.
  apply lookup_node_present; [by apply with_meta_plain | apply lookup_insert_eq].
Qed.

Lemma put_meta_insert t r n m f :
  <[W ++ r := with_meta f (with_meta (λ _, m) n)]> (put_meta t r n m) = put_meta t r n (f m).
Proof. unfold put_meta. rewrite insert_insert_eq. by destruct n. Qed.

Lemma node_meta_with_meta m n : node_meta (with_meta (λ _, m) n) = m.
Proof. by destruct n. Qed.

(** The first loop removes the attributes the preimage does not have. *)
Lemma remove_xattrs_ok t r n m0 (pre : gmap string (list Z)) l :
  plain W t → t !! (W ++ r) = Some n → NoDup l →
  (∀ k, k ∈ l ↔ is_Some (m_xattrs m0 !! k)) →
  ∃ x, for_each (λ attr,
         if bool_decide (is_Some (pre !! attr)) then mret ()
         else ignore (sys (λ ns, xattr_remove ns (W ++ r) attr))) l (put_meta t r n m0)
       = (Ok (), put_meta t r n (set_xattrs x m0)) ∧
       ∀ k, pre !! k = None → x !! k = None.
Proof.
  intros Hp Hn Hnd Hl.
  destruct (for_each_inv (λ attr,
         if bool_decide (is_Some (pre !! attr)) then mret ()
         else ignore (sys (λ ns, xattr_remove ns (W ++ r) attr)))
    (λ ds s, ∃ x, s = put_meta t r n (set_xattrs x m0) ∧
       ∀ k, x !! k = if decide (k ∈ ds ∧ pre !! k = None) then None else m_xattrs m0 !! k)
    l (put_meta t r n m0)) as (s & Hs & x & -> & Hx).
  - exists (m_xattrs m0). split; [by destruct m0|]. intros k.
    rewrite decide_False; [done|]. intros [H _]. by apply elem_of_nil in H.
  - intros ds a todo s Heq (x & -> & Hx). case_bool_decide as Ha.
    + eexists. split; [done|]. exists x. split; [done|]. intros k. rewrite Hx.
      apply decide_ext. rewrite elem_of_app, list_elem_of_singleton.
      split; [tauto|]. intros [[?| ->] Hk]; [done|]. destruct Ha. congruence.
    + apply eq_None_not_Some in Ha.
      assert (a ∉ ds) as Hnot.
      { intros H. rewrite Heq in Hnd. apply NoDup_app in Hnd as (_ & Hd & _).
        apply (Hd a H). by left. }
      assert (is_Some (x !! a)) as Hxa.
      { rewrite Hx, decide_False by tauto. apply Hl. rewrite Heq. set_solver. }
      eexists. split.
      * unfold ignore, sys.
        destruct (put_meta_lookup t r n (set_xattrs x m0) Hp Hn) as [_ Hlk].
        rewrite (xattr_remove_ok _ _ _ _ _ (Hlk false)) by by rewrite node_meta_with_meta.
        rewrite put_meta_insert. reflexivity.
      * exists (delete a x). split; [done|]. intros k.
        destruct (decide (k = a)) as [->|Hk].
        -- rewrite lookup_delete_eq, decide_True; [done|]. set_solver.
        -- rewrite lookup_delete_ne, Hx by done. apply decide_ext.
           rewrite elem_of_app, list_elem_of_singleton. naive_solver.
  - exists x. split; [done|]. intros k Hk. rewrite Hx. case_decide as Hd; [done|].
    destruct (m_xattrs m0 !! k) eqn:E; [|done]. exfalso. apply Hd.
    split; [|done]. apply Hl. by rewrite E.
Qed.

(** The second loop sets the attributes of the preimage. *)
Lemma set_xattrs_ok t r n m0 (pre x0 : gmap string (list Z)) :
  plain W t → t !! (W ++ r) = Some n → (∀ k, pre !! k = None → x0 !! k = None) →
  for_each (λ '(k, v), ignore (sys (λ ns, xattr_set ns (W ++ r) k v))) (btree_iter pre)
    (put_meta t r n (set_xattrs x0 m0))
  = (Ok (), put_meta t r n (set_xattrs pre m0)).
Proof.
  intros Hp Hn Hx0.
  assert (∀ k v, (k, v) ∈ btree_iter pre ↔ pre !! k = Some v) as Hin.
  { intros k v. by rewrite btree_iter_perm, elem_of_map_to_list. }
  destruct (for_each_inv (λ '(k, v), ignore (sys (λ ns, xattr_set ns (W ++ r) k v)))
    (λ ds s, ∃ x, s = put_meta t r n (set_xattrs x m0) ∧
       (∀ k, pre !! k = None → x !! k = None) ∧ (∀ k v, (k, v) ∈ ds → x !! k = Some v))
    (btree_iter pre) (put_meta t r n (set_xattrs x0 m0))) as (s & Hs & x & -> & Hx1 & Hx2).
  - exists x0. split_and!; [done | done |]. intros k v H. by apply elem_of_nil in H.
  - intros ds [a v] todo s Heq (x & -> & Hx1 & Hx2). eexists. split.
    + unfold ignore, sys.
      destruct (put_meta_lookup t r n (set_xattrs x m0) Hp Hn) as [_ Hlk].
      rewrite (xattr_set_ok _ _ _ _ _ _ (Hlk false)), put_meta_insert. reflexivity.
    + assert (pre !! a = Some v) as Ha by (apply Hin; rewrite Heq; set_solver).
      exists (<[a := v]> x). split_and!; [done | |].
      * intros k Hk. rewrite lookup_insert_ne by congruence. auto.
      * intros k v' [Hk|Hk]%elem_of_app.
        -- assert (pre !! k = Some v') by (apply Hin; rewrite Heq; set_solver).
           destruct (decide (k = a)) as [->|Hne]; [rewrite lookup_insert_eq; congruence|].
           rewrite lookup_insert_ne by done. auto.
        -- apply list_elem_of_singleton in Hk. simplify_eq. apply lookup_insert_eq.
  - rewrite Hs. do 3 f_equal. apply map_eq. intros k. destruct (pre !! k) eqn:E; [|auto].
    apply Hx2, Hin, E.
Qed.

Lemma restore_mtime_ok t r n m0 mt :
  plain W t → t !! (W ++ r) = Some n → 0 ≤ mt < 2 ^ 63 * 1000000000 →
  restore_mtime (W ++ r) mt (put_meta t r n m0) = (Ok (), put_meta t r n (set_mtime mt m0)).
Proof.
  intros Hp Hn Hmt. unfold restore_mtime, sys.
  assert (Z.quot mt 1000000000 = mt / 1000000000) as Hq by (apply Z.quot_div_nonneg; lia).
  assert (Z.rem mt 1000000000 = mt mod 1000000000) as Hr by (apply Z.rem_mod_nonneg; lia).
  pose proof (Z.mod_pos_bound mt 1000000000 ltac:(lia)).
  pose proof (Z.div_mod mt 1000000000 ltac:(lia)).
  assert (0 ≤ mt / 1000000000 < 2 ^ 63) by
    (split; [apply Z.div_pos; lia | apply Z.div_lt_upper_bound; lia]).
  rewrite Hq, Hr, as_i64_small, as_u32_small by (unfold in_width; lia).
  destruct (put_meta_lookup t r n m0 Hp Hn) as [_ Hlk].
  rewrite (set_file_mtime_ok _ _ _ _ _ _ (Hlk true)), put_meta_insert by lia.
  do 3 f_equal. lia.
Qed.

(** [restore_metadata] makes the node carry exactly the captured metadata. *)
Lemma restore_metadata_ok t r n m :
  plain W t → t !! (W ++ r) = Some n → 0 ≤ pm_mtime_ns m < 2 ^ 63 * 1000000000 →
  restore_metadata (W ++ r) m t
  = (Ok (), put_meta t r n (mkMeta (Z.land (pm_mode m) 0xFFF) (pm_mtime_ns m) (pm_xattrs m))).
Proof.
  intros Hp Hn Hmt. unfold restore_metadata.
  set (m1 := set_perm (Z.land (pm_mode m) 0xFFF) (node_meta n)).
  assert (set_permissions t (W ++ r) (pm_mode m) = Ok (put_meta t r n m1)) as Hset.
  { rewrite (set_permissions_present W t r n) by done. do 2 f_equal. by destruct n. }
  erewrite stm_bind_ok by (unfold sys; rewrite Hset; done).
  erewrite stm_bind_ok by done.
  destruct (put_meta_lookup t r n m1 Hp Hn) as [_ Hlk].
  destruct (xattr_list_ok _ _ _ _ (Hlk false)) as (l & Hl & Hnd & Hin). rewrite Hl.
  rewrite node_meta_with_meta in Hin.
  destruct (remove_xattrs_ok t r n m1 (pm_xattrs m) l) as (x & Hrm & Hx); [done..|].
  erewrite stm_bind_ok by exact Hrm.
  erewrite stm_bind_ok by (apply set_xattrs_ok; done).
  by rewrite restore_mtime_ok.
Qed.

End restore.

(** ** What is logged

    [S0] is the tree when the step was opened, [t] the tree now.  [good] holds
    of the relative paths that occur in the step; their hashes differ. *)

Definition node_file_type (n : node) : PreimageFileType :=
  match n with File _ _ => Regular | Dir _ => Directory | Symlink _ _ => SymlinkType end.

Definition path_in (W : path) (p : path) : Prop := W `prefix_of` p.

Section logged.
Context `{TP : ThirdParty} `{!ThirdPartyLaws TP} (h : host) (W : path) (pol : SymlinkPolicy).
Context (good : path → Prop).

Record good_paths : Prop := mkGood {
  good_clean : ∀ r, good r → clean r;
  good_hash : ∀ r r', good r → good r' → path_hash r = path_hash r' → r = r';
}.

(** The preimage files of [r] describe the node [n]. *)
Definition captures (pd : preimage_dir) (r : path) (m : PreimageMetadata) (n : node) : Prop :=
  pm_mode m = st_mode n ∧ pm_mtime_ns m = m_mtime (node_meta n) ∧
  pm_xattrs m = m_xattrs (node_meta n) ∧ meta_wf (node_meta n) ∧
  match n with
  | File _ c => ∃ z, pd_data pd !! path_hash r = Some z ∧ zstd_decode_all z = Ok c
  | _ => True
  end.

Definition entry_ok (S0 : tree) (pd : preimage_dir) (r : path) (e : ManifestEntry) : Prop :=
  me_path_hash e = path_hash r ∧
  ∃ m, pd_meta pd !! path_hash r = Some (Json m) ∧ pm_relative_path m = key r ∧
       pm_existed_before m = me_existed_before e ∧
       me_file_type e = file_type_as_str (pm_file_type m) ∧
       if me_existed_before e
       then ∃ n0 n, S0 !! (W ++ r) = Some n0 ∧ node_sim n n0 ∧
                    pm_file_type m = node_file_type n ∧ captures pd r m n
       else S0 !! (W ++ r) = None.

(** Every path is either logged with its original state, or untouched up to
    directory times; nothing changed between file and directory. *)
Record logged (S0 t : tree) (es : gmap string ManifestEntry) (pd : preimage_dir) : Prop := mkLogged {
  lg_good : good_paths;
  lg_plain0 : plain W S0;
  lg_plain : plain W t;
  lg_good0 : ∀ r, is_Some (S0 !! (W ++ r)) → good r;
  lg_goodt : ∀ r, is_Some (t !! (W ++ r)) → good r;
  lg_keys : ∀ k, is_Some (es !! k) → ∃ r, good r ∧ k = key r;
  lg_entry : ∀ r e, good r → es !! key r = Some e → entry_ok S0 pd r e;
  lg_unlogged : ∀ r, good r → es !! key r = None →
    option_Forall2 node_sim (t !! (W ++ r)) (S0 !! (W ++ r));
  lg_kind : ∀ r n n0, t !! (W ++ r) = Some n → S0 !! (W ++ r) = Some n0 →
    is_dir_node n = is_dir_node n0;
  lg_outside : ∀ p, ¬ path_in W p → option_Forall2 node_sim (t !! p) (S0 !! p);
}.

(** ** The three groups of entries *)

Definition dir_entry (kv : string * ManifestEntry) : option (string * string) :=
  if me_existed_before kv.2 && bool_decide (me_file_type kv.2 = "directory")
  then Some (kv.1, me_path_hash kv.2) else None.
Definition file_entry (kv : string * ManifestEntry) : option (string * string) :=
  if me_existed_before kv.2 && negb (bool_decide (me_file_type kv.2 = "directory"))
  then Some (kv.1, me_path_hash kv.2) else None.
Definition created_entry (kv : string * ManifestEntry) : option (string * string) :=
  if me_existed_before kv.2 then None else Some (kv.1, me_path_hash kv.2).

Lemma classify_omap l :
  classify l = (omap dir_entry l, omap file_entry l, omap created_entry l).
Proof.
  unfold classify.
  assert (∀ a b c, foldl (λ '(dirs, files, dels) '(rel_path, entry),
    if me_existed_before entry then
      if bool_decide (me_file_type entry = "directory")
      then (dirs ++ [(rel_path, me_path_hash entry)], files, dels)
      else (dirs, files ++ [(rel_path, me_path_hash entry)], dels)
    else (dirs, files, dels ++ [(rel_path, me_path_hash entry)])) (a, b, c) l
    = (a ++ omap dir_entry l, b ++ omap file_entry l, c ++ omap created_entry l)) as Hgen;
    [|by rewrite Hgen].
  induction l as [|[k e] l IH]; intros a b c; simpl; [by rewrite !app_nil_r|].
  unfold dir_entry, file_entry, created_entry. simpl.
  destruct (me_existed_before e); simpl; [case_bool_decide; simpl|];
    rewrite IH, <- ?app_assoc; done.
Qed.

Lemma elem_of_group (f : string * ManifestEntry → option (string * string)) es k hash :
  (k, hash) ∈ omap f (btree_iter es) ↔ ∃ k' e, es !! k' = Some e ∧ f (k', e) = Some (k, hash).
Proof.
  rewrite list_elem_of_omap. split.
  - intros ([k' e] & Hin & Hf). rewrite btree_iter_perm, elem_of_map_to_list in Hin. eauto.
  - intros (k' & e & He & Hf). exists (k', e). by rewrite btree_iter_perm, elem_of_map_to_list.
Qed.

End logged.

(** ** The passes of [rollback_step] *)

Section passes.
Context `{TP : ThirdParty} `{!ThirdPartyLaws TP} (h : host) (W : path) (pol : SymlinkPolicy).
Context (good : path → Prop) (S0 t0 : tree) (es : gmap string ManifestEntry) (pd : preimage_dir).
Hypothesis L : logged W good S0 t0 es pd.

Lemma good_key_clean r : good r → clean r.
Proof. apply (good_clean _ (lg_good _ _ _ _ _ _ L)). Qed.

Lemma entry_cases k e : es !! k = Some e → ∃ r, good r ∧ k = key r ∧ entry_ok W S0 pd r e.
Proof.
  intros He. destruct (lg_keys _ _ _ _ _ _ L k) as (r & Hr & ->); [by eexists|].
  exists r. split_and!; [done | done |]. by apply (lg_entry _ _ _ _ _ _ L).
Qed.

Lemma created_group k hash :
  (k, hash) ∈ omap created_entry (btree_iter es) →
  ∃ r, good r ∧ k = key r ∧ S0 !! (W ++ r) = None.
Proof.
  rewrite elem_of_group. intros (k' & e & He & Hf).
  destruct (entry_cases k' e He) as (r & Hr & -> & _ & m & _ & _ & _ & _ & Hs).
  unfold created_entry in Hf. simpl in Hf. destruct (me_existed_before e); simplify_eq/=. eauto.
Qed.

(** What the preimage of an existing path says. *)
Definition saved (r : path) (n0 n : node) (m : PreimageMetadata) : Prop :=
  S0 !! (W ++ r) = Some n0 ∧ node_sim n n0 ∧ pm_file_type m = node_file_type n ∧
  captures pd r m n ∧ pm_relative_path m = key r ∧
  read_preimage_metadata (Some pd) (path_hash r) = Ok m.

Lemma existed_entry k e :
  es !! k = Some e → me_existed_before e = true →
  ∃ r n0 n m, good r ∧ k = key r ∧ me_path_hash e = path_hash r ∧ saved r n0 n m ∧
    is_symlink_node n = false ∧ bool_decide (me_file_type e = "directory") = is_dir_node n.
Proof.
  intros He Hb. destruct (entry_cases k e He) as (r & Hr & -> & Hh & m & Hm & Hrel & _ & Ht & Hs).
  rewrite Hb in Hs. destruct Hs as (n0 & n & Hn0 & Hsim & Hft & Hc).
  pose proof (pl_nolink _ _ (lg_plain0 _ _ _ _ _ _ L) r n0 Hn0) as Hnl.
  exists r, n0, n, m. split_and!; [done | done | done | | by destruct n, n0 |].
  - unfold saved. split_and!; try done. unfold read_preimage_metadata. simpl. by rewrite Hm.
  - rewrite Ht, Hft. by destruct n.
Qed.

Lemma file_group k hash :
  (k, hash) ∈ omap file_entry (btree_iter es) →
  ∃ r n0 n m, good r ∧ k = key r ∧ hash = path_hash r ∧ saved r n0 n m ∧
              is_symlink_node n = false ∧ is_dir_node n = false.
Proof.
  rewrite elem_of_group. intros (k' & e & He & Hf). unfold file_entry in Hf. simpl in Hf.
  destruct (me_existed_before e) eqn:Hb; [|done].
  destruct (existed_entry k' e He Hb) as (r & n0 & n & m & Hr & -> & Hh & Hs & Hl & Hd).
  rewrite Hd in Hf. destruct (is_dir_node n) eqn:E; simplify_eq/=.
  exists r, n0, n, m. eauto 10.
Qed.

Lemma dir_group k hash :
  (k, hash) ∈ omap dir_entry (btree_iter es) →
  ∃ r n0 n m, good r ∧ k = key r ∧ hash = path_hash r ∧ saved r n0 n m ∧ is_dir_node n = true.
Proof.
  rewrite elem_of_group. intros (k' & e & He & Hf). unfold dir_entry in Hf. simpl in Hf.
  destruct (me_existed_before e) eqn:Hb; [|done].
  destruct (existed_entry k' e He Hb) as (r & n0 & n & m & Hr & -> & Hh & Hs & Hl & Hd).
  rewrite Hd in Hf. destruct (is_dir_node n) eqn:E; simplify_eq/=.
  exists r, n0, n, m. eauto 10.
Qed.

(** *** Pass 1a *)

(** After some of the created paths [ds] have been deleted. *)
Record cleared (ds : list (string * string)) (t : tree) : Prop := mkCleared {
  cl_plain : plain W t;
  cl_keep : ∀ r, is_Some (S0 !! (W ++ r)) → option_Forall2 node_sim (t !! (W ++ r)) (t0 !! (W ++ r));
  cl_gone : ∀ r, is_Some (t !! (W ++ r)) → is_Some (t0 !! (W ++ r)) ∧ (key r ∉ ds.*1);
  cl_outside : ∀ p, ¬ path_in W p → option_Forall2 node_sim (t !! p) (t0 !! p);
}.

Lemma S0_ancestor r k : is_Some (S0 !! (W ++ r ++ k)) → is_Some (S0 !! (W ++ r)).
Proof.
  intros Hs. apply not_eq_None_Some. intros Hn.
  rewrite (pl_absent_below _ _ _ _ (lg_plain0 _ _ _ _ _ _ L) Hn) in Hs. by destruct Hs.
Qed.

(** Deleting a created path and all that is below it. *)
Lemma cleared_remove ds t t' x r :
  cleared ds t → good r → S0 !! (W ++ r) = None → x.1 = key r →
  (∀ q, r `prefix_of` q → t' !! (W ++ q) = None) →
  (∀ p, ¬ W ++ r `prefix_of` p → option_Forall2 node_sim (t' !! p) (t !! p)) →
  plain W t' → cleared (ds ++ [x]) t'.
Proof.
  intros Hc Hg Hnone Hx Hrm Hkeep Hp. destruct Hc as [Hp0 Hk Hgone Hout].
  split; [done| | |].
  - intros q Hq. eapply option_sim_trans; [|by apply Hk]. apply Hkeep.
    intros [k Hk']. rewrite <- app_assoc in Hk'. simplify_list_eq.
    apply S0_ancestor in Hq. rewrite Hnone in Hq. by destruct Hq.
  - intros q Hq. destruct (decide (r `prefix_of` q)) as [Hpre|Hpre].
    { rewrite (Hrm q Hpre) in Hq. by destruct Hq. }
    assert (is_Some (t !! (W ++ q))) as Hs.
    { destruct (Hkeep (W ++ q)) as [? ? ?|]; [|eauto|done].
      intros Hw. by apply prefix_app_inv in Hw. }
    destruct (Hgone q Hs) as [Hs0 Hn]. split; [done|].
    rewrite fmap_app, elem_of_app. intros [?|Hin]; [done|].
    simpl in Hin. apply list_elem_of_singleton in Hin. rewrite Hx in Hin.
    apply key_inj in Hin; [subst; by apply Hpre | | by apply good_key_clean].
    by apply (pl_clean _ _ Hp0).
  - intros p Hpo. eapply option_sim_trans; [|by apply Hout]. apply Hkeep.
    intros [k ->]. apply Hpo. exists (r ++ k). by rewrite app_assoc.
Qed.

Lemma delete_created_ok ds t x todo :
  cleared ds t → sort_by deepest_first (omap created_entry (btree_iter es)) = ds ++ x :: todo →
  ∃ t', delete_created h W x.1 t = (Ok (), t') ∧ cleared (ds ++ [x]) t'.
Proof.
  intros Hc Hl. destruct x as [k hash].
  assert ((k, hash) ∈ omap created_entry (btree_iter es)) as Hin.
  { rewrite <- (sort_by_perm deepest_first), Hl. set_solver. }
  apply created_group in Hin as (r & Hr & -> & Hnone).
  pose proof (good_key_clean r Hr) as Hcl. pose proof (cl_plain _ _ Hc) as Hp.
  assert (r ≠ []) as Hne.
  { intros ->. rewrite app_nil_r in Hnone.
    destruct (pl_root _ _ (lg_plain0 _ _ _ _ _ _ L) W) as [m Hm]; [done|congruence]. }
  unfold delete_created. simpl. rewrite path_join_key by done.
  erewrite stm_bind_ok by done. rewrite symlink_metadata_is_ok by done.
  case_bool_decide as Hs; cycle 1.
  - exists t. split; [done|]. apply eq_None_not_Some in Hs.
    eapply (cleared_remove _ t t _ r); [done..| | |done].
    + intros q [k ->]. by apply pl_absent_below.
    + intros p _. apply option_sim_refl.
  - destruct Hs as [n Hn]. rewrite path_is_dir_plain, Hn by done.
    destruct (is_dir_node n) eqn:Hd.
    + destruct n; try done.
      destruct (remove_dir_all_present W h t r m Hp Hn Hne) as (t' & Hrm & Hsim).
      exists t'. unfold ignore, sys. rewrite Hrm. split; [done|].
      eapply (cleared_remove _ t t' _ r); [done..| | |].
      * intros q Hq. rewrite (tree_sim_None _ _ _ Hsim). by apply delete_subtree_in.
      * intros p Hp'. rewrite <- (delete_subtree_out W t r p) by done. apply Hsim.
      * rewrite Hsim. by apply plain_delete_subtree.
    + destruct (remove_file_present W h t r n Hp Hn Hd) as (t' & Hrm & Hsim).
      exists t'. unfold ignore, sys. rewrite Hrm. split; [done|].
      assert (∀ c, t !! (W ++ r ++ [c]) = None) as Hleaf.
      { intros c. apply eq_None_not_Some. intros Hs. apply (pl_parent _ _ Hp) in Hs as [m Hm].
        by simplify_eq. }
      pose proof (plain_delete W t r Hp Hne Hleaf) as Hpd.
      eapply (cleared_remove _ t t' _ r); [done..| | |by rewrite Hsim].
      * intros q [k ->]. rewrite (tree_sim_None _ _ _ Hsim).
        apply pl_absent_below; [done | apply lookup_delete_eq].
      * intros p Hp'. eapply option_sim_trans; [apply Hsim|].
        rewrite lookup_delete_ne by (intros <-; by apply Hp'). apply option_sim_refl.
Qed.

(** *** After pass 1a

    [partial P t]: every path has its original state, except that the paths in
    [P] are still to be restored (and may be missing). *)

Record partial (P : path → Prop) (t : tree) : Prop := mkPartial {
  pt_plain : plain W t;
  pt_none : ∀ r, S0 !! (W ++ r) = None → t !! (W ++ r) = None;
  pt_some : ∀ r n0, S0 !! (W ++ r) = Some n0 →
    match t !! (W ++ r) with
    | None => P r
    | Some n => is_dir_node n = is_dir_node n0 ∧ (P r ∨ node_sim n n0)
    end;
  pt_outside : ∀ p, ¬ path_in W p → option_Forall2 node_sim (t !! p) (S0 !! p);
}.

(** The logged paths that existed. *)
Definition to_restore (r : path) : Prop :=
  ∃ e, es !! key r = Some e ∧ me_existed_before e = true.

Lemma cleared_partial t :
  cleared (sort_by deepest_first (omap created_entry (btree_iter es))) t → partial to_restore t.
Proof.
  intros [Hp Hk Hg Ho]. split; [done| | |].
  - intros r Hnone. apply eq_None_not_Some. intros Hs. destruct (Hg r Hs) as [Hs0 Hnot].
    pose proof (lg_goodt _ _ _ _ _ _ L r Hs0) as Hr. destruct (es !! key r) as [e|] eqn:He.
    + destruct (lg_entry _ _ _ _ _ _ L r e Hr He) as (Hh & m & _ & _ & _ & _ & Hb).
      destruct (me_existed_before e) eqn:Eb.
      * destruct Hb as (n0 & n & Hn0 & _). congruence.
      * apply Hnot. apply list_elem_of_fmap. exists (key r, me_path_hash e). split; [done|].
        rewrite sort_by_perm. apply elem_of_group. exists (key r), e. split; [done|].
        unfold created_entry. simpl. by rewrite Eb.
    + pose proof (lg_unlogged _ _ _ _ _ _ L r Hr He) as Hu. rewrite Hnone in Hu.
      inversion Hu as [|Hu']. rewrite <- Hu' in Hs0. by destruct Hs0.
  - intros r n0 Hn0. pose proof (lg_good0 _ _ _ _ _ _ L r ltac:(by eexists)) as Hr.
    pose proof (Hk r ltac:(by eexists)) as Hsim.
    assert (es !! key r = None → option_Forall2 node_sim (t !! (W ++ r)) (Some n0)) as Hun.
    { intros He. rewrite <- Hn0. eapply option_sim_trans; [done|].
      by apply (lg_unlogged _ _ _ _ _ _ L). }
    assert (∀ e, es !! key r = Some e → to_restore r) as Hlog.
    { intros e He. exists e. split; [done|].
      destruct (lg_entry _ _ _ _ _ _ L r e Hr He) as (_ & m & _ & _ & _ & _ & Hb).
      destruct (me_existed_before e); [done|congruence]. }
    destruct (es !! key r) as [e|] eqn:He.
    + specialize (Hlog e eq_refl).
      destruct (t !! (W ++ r)) as [n|] eqn:En; [|done]. split; [|by left].
      inversion Hsim as [n' n1 Hn|]; subst.
      rewrite <- (lg_kind _ _ _ _ _ _ L r n1 n0) by congruence. by destruct n, n1.
    + specialize (Hun eq_refl). inversion Hun as [n n' Hn|]; subst.
      split; [|by right]. by destruct n, n0.
  - intros p Hpo. eapply option_sim_trans; [by apply Ho|]. by apply (lg_outside _ _ _ _ _ _ L).
Qed.

(** Restoring one path. *)
Lemma partial_restore (P : path → Prop) t t' r n' n0 :
  partial P t → S0 !! (W ++ r) = Some n0 → reach W t r → node_sim n' n0 →
  tree_sim t' (<[W ++ r := n']> t) → partial (λ q, P q ∧ q ≠ r) t'.
Proof.
  intros [Hp Hn Hs Ho] Hn0 Hr Hsim Ht'.
  assert (is_symlink_node n' = false ∧ is_dir_node n' = is_dir_node n0) as [Hl Hd].
  { pose proof (pl_nolink _ _ (lg_plain0 _ _ _ _ _ _ L) r n0 Hn0). by destruct n', n0. }
  assert (plain W t') as Hp'.
  { rewrite Ht'. pose proof (Hs r n0 Hn0) as Hr0. destruct (t !! (W ++ r)) as [n|] eqn:E.
    - apply (plain_update _ t r n' n); [done | done | | done]. destruct Hr0. congruence.
    - by apply plain_insert_new. }
  assert (∀ p, p ≠ W ++ r → option_Forall2 node_sim (t' !! p) (t !! p)) as Hother.
  { intros p Hpr. pose proof (Ht' p) as H. by rewrite lookup_insert_ne in H. }
  split; [done| | |].
  - intros q Hq. destruct (decide (q = r)) as [->|Hne]; [congruence|].
    pose proof (Hother (W ++ q) ltac:(intros ?; simplify_eq)) as H.
    rewrite (Hn q Hq) in H. by inversion H.
  - intros q nq Hq. destruct (decide (q = r)) as [->|Hne].
    + pose proof (Ht' (W ++ r)) as H. rewrite lookup_insert_eq in H.
      inversion H as [x y Hxy|]; subst. simplify_eq.
      assert (node_sim x n0) as Hx by (by etrans). split; [by destruct x, n0 | by right].
    + pose proof (Hother (W ++ q) ltac:(intros ?; simplify_eq)) as H.
      specialize (Hs q nq Hq). inversion H as [x y Hxy E1 E2|E1 E2]; rewrite <- E2 in Hs.
      * destruct Hs as [Hk HP]. split; [by destruct x, y|].
        destruct HP as [HP|HP]; [by left | right; by etrans].
      * done.
  - intros p Hpo. eapply option_sim_trans; [|by apply Ho]. apply Hother.
    intros ->. apply Hpo. by exists r.
Qed.

(** Creating a directory that is still to be restored changes nothing else. *)
Lemma partial_create (P : path → Prop) t r :
  partial P t → dir_at S0 (W ++ r) → reach W t r → t !! (W ++ r) = None →
  partial P (add_node h (W ++ r) (Dir (new_meta h (h_dir_perm h))) t).
Proof.
  intros [Hp Hn Hs Ho] [m0 Hm0] Hr Hnone.
  set (d := Dir (new_meta h (h_dir_perm h))).
  pose proof (add_node_sim W h t r d Hp Hr Hnone) as Hsim. fold d.
  assert (∀ p, p ≠ W ++ r → option_Forall2 node_sim (add_node h (W ++ r) d t !! p) (t !! p)) as Hother.
  { intros p Hpr. pose proof (Hsim p) as H. by rewrite lookup_insert_ne in H. }
  split.
  - rewrite Hsim. by apply plain_insert_new.
  - intros q Hq. pose proof (Hother (W ++ q) ltac:(intros ?; simplify_eq)) as H.
    rewrite (Hn q Hq) in H. by inversion H.
  - intros q nq Hq. destruct (decide (q = r)) as [->|Hne].
    + pose proof (Hsim (W ++ r)) as H. rewrite lookup_insert_eq in H.
      inversion H as [x y Hxy|]; subst. simplify_eq.
      specialize (Hs r _ Hm0). rewrite Hnone in Hs. split; [by destruct x | by left].
    + pose proof (Hother (W ++ q) ltac:(intros ?; simplify_eq)) as H.
      specialize (Hs q nq Hq). inversion H as [x y Hxy E1 E2|E1 E2]; rewrite <- E2 in Hs.
      * destruct Hs as [Hk HP]. split; [by destruct x, y|].
        destruct HP as [HP|HP]; [by left | right; by etrans].
      * done.
  - intros p Hpo. eapply option_sim_trans; [|by apply Ho]. apply Hother.
    intros ->. apply Hpo. by exists r.
Qed.

Lemma partial_weaken (P Q : path → Prop) t : (∀ r, P r → Q r) → partial P t → partial Q t.
Proof.
  intros HPQ [Hp Hn Hs Ho]. split; [done | done | | done].
  intros r n0 Hn0. specialize (Hs r n0 Hn0). destruct (t !! (W ++ r)); naive_solver.
Qed.

Lemma partial_done t : partial (λ _, False) t → tree_sim t S0.
Proof.
  intros [Hp Hn Hs Ho] p. destruct (decide (W `prefix_of` p)) as [[r ->]|Hpo]; [|by apply Ho].
  destruct (S0 !! (W ++ r)) as [n0|] eqn:E; [|rewrite (Hn r E); constructor].
  specialize (Hs r n0 E). destruct (t !! (W ++ r)); [|done].
  constructor. naive_solver.
Qed.

(** *** Pass 1b *)

Definition dirs_present (t : tree) : Prop :=
  ∀ r, dir_at S0 (W ++ r) → dir_at t (W ++ r).

Lemma partial_dir (P : path → Prop) t r :
  partial P t → dir_at S0 (W ++ r) → is_Some (t !! (W ++ r)) → dir_at t (W ++ r).
Proof.
  intros Hpt [m0 Hm0] [n Hn]. pose proof (pt_some _ _ Hpt r _ Hm0) as H. rewrite Hn in H.
  destruct H as [H _]. destruct n; try done. by eexists.
Qed.

Lemma shallowest_sorted l : StronglySorted (λ a b, shallowest_first a b = true) (sort_by shallowest_first l).
Proof.
  apply sort_by_sorted; unfold shallowest_first.
  - intros x y. rewrite !Nat.leb_le. lia.
  - intros x y z. rewrite !Nat.leb_le. lia.
Qed.

(** Entries above the current one have been processed. *)
Lemma sorted_before ds x todo y l :
  StronglySorted (λ a b : string * string, shallowest_first a b = true) l → l = ds ++ x :: todo →
  y ∈ l → (path_depth y.1 < path_depth x.1)%nat → y ∈ ds.
Proof.
  intros Hs -> Hy Hlt. apply elem_of_app in Hy as [Hy|Hy]; [done|].
  apply elem_of_cons in Hy as [->|Hy]; [lia|].
  apply StronglySorted_app in Hs as (_ & _ & Hs).
  inversion Hs as [|a l' Hs' Hall]; subst. rewrite Forall_forall in Hall.
  specialize (Hall y Hy). unfold shallowest_first in Hall. apply Nat.leb_le in Hall. lia.
Qed.

Lemma dir_key_listed r e m0 :
  good r → S0 !! (W ++ r) = Some (Dir m0) → es !! key r = Some e → me_existed_before e = true →
  key r ∈ (sort_by shallowest_first (omap dir_entry (btree_iter es))).*1.
Proof.
  intros Hg Hm0 He Hb.
  destruct (existed_entry _ _ He Hb) as (r' & n0 & n & m & Hr' & Hk & Hh & (Hn0 & Hs & _) & _ & Hd).
  apply key_inj in Hk; [subst r' | by apply good_key_clean..]. simplify_eq.
  apply list_elem_of_fmap. exists (key r, me_path_hash e). split; [done|].
  rewrite sort_by_perm. apply elem_of_group. exists (key r), e. split; [done|].
  unfold dir_entry. simpl. rewrite Hb, Hd. by destruct n.
Qed.

(** The directories above an entry come before it. *)
Lemma dir_parent_present ds todo t r' c :
  partial to_restore t → (∀ r, key r ∈ ds.*1 → good r → is_Some (t !! (W ++ r))) →
  good (r' ++ [c]) → is_Some (S0 !! (W ++ r' ++ [c])) →
  sort_by shallowest_first (omap dir_entry (btree_iter es))
  = ds ++ (key (r' ++ [c]), path_hash (r' ++ [c])) :: todo →
  is_Some (t !! (W ++ r')).
Proof.
  intros Hpt Hds Hg Hs Hl. apply (pl_parent _ _ (lg_plain0 _ _ _ _ _ _ L)) in Hs as [m0 Hm0].
  pose proof (pt_some _ _ Hpt r' _ Hm0) as H'. destruct (t !! (W ++ r')) eqn:E; [by eexists|].
  rewrite <- E. destruct H' as (e & He & Hb).
  assert (good r') as Hg' by (apply (lg_good0 _ _ _ _ _ _ L); by eexists).
  destruct (decide (r' = [])) as [->|Hne].
  { rewrite app_nil_r. destruct (pl_root _ _ (pt_plain _ _ Hpt) W) as [m Hm]; [done|]. by eexists. }
  apply Hds; [|done]. pose proof (dir_key_listed r' e m0 Hg' Hm0 He Hb) as Hin.
  apply list_elem_of_fmap in Hin as ([k hash] & Hk & Hin). simpl in Hk. subst k.
  apply list_elem_of_fmap. exists (key r', hash). split; [done|].
  eapply sorted_before; [apply shallowest_sorted | exact Hl | done |]. simpl.
  rewrite !path_depth_key, length_app by by apply good_key_clean.
  destruct r'; [done|]. simpl. lia.
Qed.

Lemma recreate_dir_ok ds t x todo :
  partial to_restore t → (∀ r, key r ∈ ds.*1 → good r → is_Some (t !! (W ++ r))) →
  sort_by shallowest_first (omap dir_entry (btree_iter es)) = ds ++ x :: todo →
  ∃ t', recreate_dir h W x.1 t = (Ok (), t') ∧ partial to_restore t' ∧
        (∀ r, key r ∈ (ds ++ [x]).*1 → good r → is_Some (t' !! (W ++ r))).
Proof.
  intros Hpt Hds Hl. destruct x as [k hash].
  assert ((k, hash) ∈ omap dir_entry (btree_iter es)) as Hin.
  { rewrite <- (sort_by_perm shallowest_first), Hl. set_solver. }
  apply dir_group in Hin as (r & n0 & n & m & Hr & -> & -> & (Hn0 & Hsim & _) & Hd).
  pose proof (good_key_clean r Hr) as Hcl. pose proof (pt_plain _ _ Hpt) as Hp.
  assert (dir_at S0 (W ++ r)) as Hdir by (destruct n, n0; try done; by eexists).
  assert (∀ t' : tree, (∀ q, is_Some (t !! q) → is_Some (t' !! q)) → is_Some (t' !! (W ++ r)) →
          ∀ q, key q ∈ (ds ++ [(key r, path_hash r)]).*1 → good q → is_Some (t' !! (W ++ q))) as Hext.
  { intros t' Hmono Hr' q Hq Hgq. rewrite fmap_app, elem_of_app in Hq. destruct Hq as [Hq|Hq].
    - by apply Hmono, Hds.
    - simpl in Hq. apply list_elem_of_singleton in Hq.
      apply key_inj in Hq; [by subst | by apply good_key_clean | done]. }
  unfold recreate_dir. simpl. rewrite path_join_key by done.
  erewrite stm_bind_ok by done. rewrite path_exists_plain by done.
  case_bool_decide as Hs; [exists t; split_and!; [done | done | by apply Hext]|].
  apply eq_None_not_Some in Hs.
  assert (reach W t r) as Hreach.
  { split; [done|]. intros r' c ->. apply (partial_dir to_restore); [done| |].
    - destruct Hdir as [m0 Hm0]. apply (pl_parent _ _ (lg_plain0 _ _ _ _ _ _ L) r' c). by eexists.
    - eapply dir_parent_present; eauto. }
  exists (add_node h (W ++ r) (Dir (new_meta h (h_dir_perm h))) t).
  unfold sys. rewrite create_dir_all_new by done.
  pose proof (add_node_sim W h t r (Dir (new_meta h (h_dir_perm h))) Hp Hreach Hs) as Hadd.
  split_and!; [done | by apply partial_create |]. apply Hext.
  - intros q Hq. rewrite (tree_sim_lookup _ _ _ Hadd).
    destruct (decide (q = W ++ r)) as [->|Hne]; [rewrite lookup_insert_eq; by eexists|].
    by rewrite lookup_insert_ne.
  - rewrite (tree_sim_lookup _ _ _ Hadd), lookup_insert_eq. by eexists.
Qed.

Lemma pass_1b t :
  partial to_restore t →
  ∃ t', for_each (λ '(rel_path, _), recreate_dir h W rel_path)
          (sort_by shallowest_first (omap dir_entry (btree_iter es))) t = (Ok (), t') ∧
        partial to_restore t' ∧ dirs_present t'.
Proof.
  intros Hpt.
  destruct (for_each_inv (λ '(rel_path, _), recreate_dir h W rel_path)
    (λ ds t, partial to_restore t ∧ ∀ r, key r ∈ ds.*1 → good r → is_Some (t !! (W ++ r)))
    (sort_by shallowest_first (omap dir_entry (btree_iter es))) t) as (t' & Ht' & Hpt' & Hall).
  - split; [done|]. intros r Hr. by apply elem_of_nil in Hr.
  - intros ds [k hash] todo s Hl [Hps Hds].
    destruct (recreate_dir_ok ds s (k, hash) todo Hps Hds Hl) as (s' & Hs' & HI).
    by exists s'.
  - exists t'. split_and!; [done | done |]. intros r Hdir.
    apply (partial_dir to_restore); [done | done |].
    destruct Hdir as [m0 Hm0]. pose proof (pt_some _ _ Hpt' r _ Hm0) as Hr.
    destruct (t' !! (W ++ r)) eqn:E; [by eexists|]. rewrite <- E.
    destruct Hr as (e & He & Hb).
    assert (good r) as Hg by (apply (lg_good0 _ _ _ _ _ _ L); by eexists).
    apply Hall; [|done]. eapply dir_key_listed; eauto.
Qed.

(** *** Pass 1c *)

Lemma fs_write_sim t r m c :
  plain W t → reach W t r →
  (∀ n, t !! (W ++ r) = Some n → is_dir_node n = false) →
  ∃ t' m', fs_write h t (W ++ r) c = Ok t' ∧ plain W t' ∧ t' !! (W ++ r) = Some (File m' c) ∧
    tree_sim (<[W ++ r := File m c]> t') (<[W ++ r := File m c]> t).
Proof.
  intros Hp Hr Hk. destruct (t !! (W ++ r)) as [n|] eqn:Hn.
  - specialize (Hk n eq_refl). pose proof (pl_nolink _ _ Hp r n Hn). destruct n as [m' c'| |]; try done.
    eexists _, _. split; [by apply (fs_write_existing W h t r m' c')|].
    split_and!; [|apply lookup_insert_eq | by rewrite insert_insert_eq].
    by eapply plain_update.
  - rewrite fs_write_new by done. eexists _, _. split; [done|].
    set (f := File (new_meta h (h_file_perm h)) c).
    pose proof (add_node_sim W h t r f Hp Hr Hn) as Hadd.
    destruct (tree_sim_Some _ _ (W ++ r) f (symmetry Hadd)) as (n' & Hn' & Hs);
      [apply lookup_insert_eq|].
    split_and!.
    + rewrite Hadd. by apply plain_insert_new.
    + rewrite Hn'. destruct n'; simplify_eq/=; done.
    + rewrite <- (insert_insert_eq t (W ++ r) (File m c) f).
      apply tree_sim_insert; [done | by destruct n'].
Qed.

Lemma restore_file_ok (P : path → Prop) t r n0 n m :
  partial P t → dirs_present t → good r → saved r n0 n m →
  is_symlink_node n = false → is_dir_node n = false →
  ∃ t', restore_file h W pol (Some pd) (key r) (path_hash r) t = (Ok (), t') ∧
        reach W t r ∧ node_sim n n0 ∧ tree_sim t' (<[W ++ r := n]> t).
Proof.
  intros Hpt Hdp Hg (Hn0 & Hsim & Hft & (Hmode & Hmt & Hx & [Hperm Hwf] & Hc) & _ & Hread) Hl Hd.
  pose proof (pt_plain _ _ Hpt) as Hp. pose proof (good_key_clean r Hg) as Hcl.
  destruct n as [fm c| |]; try done. destruct Hc as (z & Hz & Hdec).
  assert (reach W t r) as Hr.
  { split; [done|]. intros r' c' ->. apply Hdp.
    apply (pl_parent _ _ (lg_plain0 _ _ _ _ _ _ L) r' c'). by eexists. }
  unfold restore_file. erewrite stm_bind_ok by (unfold lift; by rewrite Hread).
  rewrite path_join_key by done. erewrite stm_bind_ok by done.
  erewrite stm_bind_ok; cycle 1.
  { destruct (path_cases r) as [->|(r' & c' & ->)].
    - rewrite app_nil_r in Hn0. destruct (pl_root _ _ (lg_plain0 _ _ _ _ _ _ L) W) as [? ?]; [done|].
      simplify_eq. by destruct Hsim.
    - rewrite parent_app_snoc, path_exists_plain by (done || by apply clean_snoc in Hcl as [? _]).
      rewrite bool_decide_eq_true_2; [done|].
      destruct (proj2 Hr r' c' eq_refl) as [m' Hm']. by eexists. }
  rewrite Hft. simpl. destruct (fs_write_sim t r fm c Hp Hr) as (t1 & m1 & Hw & Hp1 & H1 & Hs1).
  { intros n Hn. pose proof (pt_some _ _ Hpt r n0 Hn0) as Hk. rewrite Hn in Hk.
    destruct Hk as [-> _]. by destruct n0. }
  erewrite stm_bind_ok; cycle 1.
  { erewrite stm_bind_ok by (unfold lift; simpl; by rewrite Hz).
    erewrite stm_bind_ok by (unfold lift; by rewrite Hdec). unfold sys. by rewrite Hw. }
  rewrite (restore_metadata_ok W t1 r (File m1 c)) by (done || by rewrite Hmt).
  eexists. split; [done|]. split; [done|]. split; [done|].
  rewrite Hmode, st_mode_perm, Hmt, Hx by done. unfold put_meta. simpl. by destruct fm.
Qed.

(** What is left after the files in [ds]. *)
Definition pending (ds : list (string * string)) (r : path) : Prop :=
  to_restore r ∧ key r ∉ ds.*1.

Lemma pending_snoc ds r hash q :
  clean r → clean q → pending ds q ∧ q ≠ r → pending (ds ++ [(key r, hash)]) q.
Proof.
  intros Hr Hq [[Ht Hn] Hne]. split; [done|]. rewrite fmap_app, elem_of_app.
  intros [?|Hin]; [done|]. simpl in Hin. apply list_elem_of_singleton in Hin.
  by apply key_inj in Hin.
Qed.

Lemma to_restore_clean r : to_restore r → clean r → good r.
Proof.
  intros (e & He & _) Hr. destruct (entry_cases _ _ He) as (r' & Hr' & Hk & _).
  apply key_inj in Hk; [by subst | done | by apply good_key_clean].
Qed.

Lemma partial_step ds t t' r n' n0 hash :
  partial (λ q, clean q ∧ pending ds q) t → S0 !! (W ++ r) = Some n0 → reach W t r →
  node_sim n' n0 → tree_sim t' (<[W ++ r := n']> t) →
  partial (λ q, clean q ∧ pending (ds ++ [(key r, hash)]) q) t'.
Proof.
  intros Hpt Hn0 Hr Hs Ht'. eapply partial_weaken; [|by eapply partial_restore].
  intros q [[Hq Hp] Hne]. split; [done|]. apply pending_snoc; [by apply Hr | done | done].
Qed.

Lemma pass_1c t :
  partial to_restore t → dirs_present t →
  ∃ t', for_each (λ '(rel_path, hash), restore_file h W pol (Some pd) rel_path hash)
          (omap file_entry (btree_iter es)) t = (Ok (), t') ∧
        partial (λ q, clean q ∧ pending (omap file_entry (btree_iter es)) q) t' ∧ dirs_present t'.
Proof.
  intros Hpt Hdp. apply (for_each_inv _ (λ ds t,
    partial (λ q, clean q ∧ pending ds q) t ∧ dirs_present t)).
  - split; [|done]. split; [apply Hpt | apply Hpt | | apply Hpt].
    intros r n0 Hn0. pose proof (pt_some _ _ Hpt r n0 Hn0) as Hr.
    assert (clean r) by (apply (pl_clean _ _ (lg_plain0 _ _ _ _ _ _ L)); by eexists).
    unfold pending. destruct (t !! (W ++ r)); [destruct Hr as [? [?|?]]|]; set_solver.
  - intros ds [k hash] todo s Hl [Hps Hds].
    assert ((k, hash) ∈ omap file_entry (btree_iter es)) as Hin by (rewrite Hl; set_solver).
    apply file_group in Hin as (r & n0 & n & m & Hr & -> & -> & Hsv & Hl' & Hd).
    destruct (restore_file_ok _ s r n0 n m Hps Hds Hr Hsv Hl' Hd) as (s' & Hs' & Hreach & Hsim & Hts).
    exists s'. split; [done|]. split; [eapply partial_step; [done | apply Hsv | done..]|].
    intros q Hq. destruct (Hds q Hq) as [mq Hmq]. eapply tree_sim_dir; [by symmetry|].
    exists mq. rewrite lookup_insert_ne; [done|]. intros Heq.
    destruct Hq as [m0 Hm0], Hsv as (Hn0 & _). rewrite Heq in Hn0. simplify_eq. by destruct n.
Qed.

(** *** Pass 2 *)

Lemma restore_dir_metadata_ok (P : path → Prop) t r n0 n m :
  partial P t → dirs_present t → good r → saved r n0 n m → is_dir_node n = true →
  ∃ t' n', restore_dir_metadata W (Some pd) (path_hash r) t = (Ok (), t') ∧
        reach W t r ∧ node_sim n' n0 ∧ t' = <[W ++ r := n']> t.
Proof.
  intros Hpt Hdp Hg (Hn0 & Hsim & Hft & (Hmode & Hmt & Hx & [Hperm Hwf] & _) & Hrel & Hread) Hd.
  pose proof (pt_plain _ _ Hpt) as Hp. pose proof (good_key_clean r Hg) as Hcl.
  destruct n as [|dm|]; try done. destruct n0 as [|dm0|]; try done.
  destruct (Hdp r) as [mt Hmt']; [by eexists|].
  unfold restore_dir_metadata. erewrite stm_bind_ok by (unfold lift; by rewrite Hread).
  rewrite Hrel, path_join_key by done. erewrite stm_bind_ok by done.
  rewrite path_exists_plain, bool_decide_eq_true_2 by (done || by eexists).
  rewrite (restore_metadata_ok W t r (Dir mt)) by (done || by rewrite Hmt).
  eexists _, _. split_and!; [done | | | reflexivity].
  - apply reach_present; [done|by eexists].
  - rewrite Hmode, st_mode_perm, Hx by done. simpl. by destruct Hsim.
Qed.

Lemma pass_2 t :
  partial (λ q, clean q ∧ pending (omap file_entry (btree_iter es)) q) t → dirs_present t →
  ∃ t', for_each (λ '(_, hash), restore_dir_metadata W (Some pd) hash)
          (sort_by deepest_first (sort_by shallowest_first (omap dir_entry (btree_iter es)))) t
        = (Ok (), t') ∧ tree_sim t' S0.
Proof.
  intros Hpt Hdp. set (files := omap file_entry (btree_iter es)) in *.
  set (dirs := sort_by deepest_first _).
  assert (∀ x, x ∈ dirs ↔ x ∈ omap dir_entry (btree_iter es)) as Hdirs
    by (intros x; unfold dirs; by rewrite !sort_by_perm).
  destruct (for_each_inv (λ '(_, hash), restore_dir_metadata W (Some pd) hash)
    (λ ds t, partial (λ q, clean q ∧ pending (files ++ ds) q) t ∧ dirs_present t) dirs t)
    as (t' & Ht' & Hpt' & _).
  - by rewrite app_nil_r.
  - intros ds [k hash] todo s Hl [Hps Hds].
    assert ((k, hash) ∈ omap dir_entry (btree_iter es)) as Hin by (apply Hdirs; rewrite Hl; set_solver).
    apply dir_group in Hin as (r & n0 & n & m & Hr & -> & -> & Hsv & Hd).
    destruct (restore_dir_metadata_ok _ s r n0 n m Hps Hds Hr Hsv Hd) as (s' & n' & Hs' & Hreach & Hsim & ->).
    exists (<[W ++ r := n']> s). split; [done|]. rewrite app_assoc.
    split; [eapply partial_step; [done | apply Hsv | done..]|].
    intros q Hq. destruct (Hds q Hq) as [mq Hmq]. destruct (decide (q = r)) as [->|Hne].
    + destruct Hq as [m0 Hm0], Hsv as (Hn0 & _). simplify_eq. destruct n'; try done.
      eexists. apply lookup_insert_eq.
    + exists mq. by rewrite lookup_insert_ne by (intros ?; simplify_eq).
  - exists t'. split; [done|]. apply partial_done. eapply partial_weaken; [|done].
    intros r (Hcl & (e & He & Hb) & Hnot). apply Hnot. rewrite fmap_app, elem_of_app.
    destruct (existed_entry _ _ He Hb) as (r' & n0 & n & m & Hr' & Hk & Hh & Hsv & _ & Hd).
    assert (∀ f : string * ManifestEntry → option (string * string),
      f (key r, e) = Some (key r, me_path_hash e) →
      key r ∈ (omap f (btree_iter es)).*1) as Hin.
    { intros f Hf. apply list_elem_of_fmap. exists (key r, me_path_hash e). split; [done|].
      apply elem_of_group. eauto. }
    destruct (is_dir_node n) eqn:E.
    + right. assert (key r ∈ (omap dir_entry (btree_iter es)).*1) as H.
      { apply Hin. unfold dir_entry. simpl. by rewrite Hb, Hd. }
      apply list_elem_of_fmap in H as (x & -> & Hx). apply list_elem_of_fmap. exists x.
      split; [done|]. by apply Hdirs.
    + left. apply Hin. unfold file_entry. simpl. by rewrite Hb, Hd.
Qed.

(** The rollback of a step whose log describes the working tree succeeds and
    brings back the tree the step started from. *)
Lemma rollback_step_logged sd mf :
  sd_manifest sd = Some (Json mf) → sm_entries mf = es → sd_preimages sd = Some pd →
  ∃ t', rollback_step h W pol sd t0 = (Ok (), t') ∧ tree_sim t' S0.
Proof.
  intros Hm Hes Hpd. unfold rollback_step, manifest_read_from.
  erewrite stm_bind_ok by (unfold lift; by rewrite Hm). rewrite Hes, Hpd, classify_omap.
  destruct (for_each_inv (λ '(rel_path, _), delete_created h W rel_path) cleared
    (sort_by deepest_first (omap created_entry (btree_iter es))) t0) as (t1 & H1 & Hc).
  - split; [apply (lg_plain _ _ _ _ _ _ L) | | |].
    + intros r _. apply option_sim_refl.
    + intros r Hr. split; [done|]. intros H. by apply elem_of_nil in H.
    + intros p _. apply option_sim_refl.
  - intros ds [k hash] todo s Hl Hcl.
    destruct (delete_created_ok ds s (k, hash) todo Hcl Hl) as (s' & Hs' & HI). by exists s'.
  - erewrite stm_bind_ok by exact H1. apply cleared_partial in Hc.
    destruct (pass_1b t1 Hc) as (t2 & H2 & Hp2 & Hd2). erewrite stm_bind_ok by exact H2.
    destruct (pass_1c t2 Hp2 Hd2) as (t3 & H3 & Hp3 & Hd3). erewrite stm_bind_ok by exact H3.
    by apply pass_2.
Qed.

End passes.
