(* ===== verification/UndoCapture.v ===== *)
(** * First-touch capture keeps the log complete

    The invariant of an open step, and the proof that [ensure_preimage],
    [record_creation] and [capture_tree_preimages] establish and keep it. *)

From Stdlib Require Import Ascii.
From stdpp Require Import base gmap strings list fin_maps sorting.
From S2P Require Import Prelude HostFs HostFacts Common Safeguard UndoLog UndoFacts UndoInterceptor UndoEvict.
#[local] Open Scope Z_scope.

(** A host with a clock after 1970, twelve-bit default permissions, and a
    directory listing that shows every name once. *)
Record host_wf (h : host) : Prop := mkHostWf {
  hw_clock : 0 ≤ h_clock h < 2 ^ 63 * 1000000000;
  hw_file_perm : 0 ≤ h_file_perm h < 2 ^ 12;
  hw_dir_perm : 0 ≤ h_dir_perm h < 2 ^ 12;
  hw_order : ∀ l, h_order h l ≡ₚ l;
}.

Section capture.
Context `{TP : ThirdParty} `{!ThirdPartyLaws TP} (W : path).
Context (good : path → Prop).

(** ** Capturing one path *)

(** Collecting the entries of [x] whose keys are listed. *)
Lemma foldl_collect (x : gmap string (list Z)) l (acc : gmap string (list Z)) k :
  foldl (λ result attr, match x !! attr with
           | Some value => <[attr := value]> result | None => result end) acc l !! k
  = if decide (k ∈ l ∧ is_Some (x !! k)) then x !! k else acc !! k.
Proof.
  revert acc. induction l as [|a l IH]; intros acc; cbn [foldl].
  - rewrite decide_False; [done|]. intros [H _]. by apply elem_of_nil in H.
  - rewrite IH. destruct (x !! a) eqn:Ea.
    + destruct (decide (k = a)) as [->|Hk].
      * rewrite lookup_insert_eq, Ea. destruct (decide (a ∈ a :: l ∧ _)) as [|Hn]; [by match goal with |- match ?d with _ => _ end = _ => destruct d end|].
        exfalso. apply Hn. split; [by left | by eexists].
      * rewrite lookup_insert_ne by done. apply decide_ext. rewrite elem_of_cons. tauto.
    + apply decide_ext. rewrite elem_of_cons. split; [tauto|].
      intros [[->|?] Hs]; [rewrite Ea in Hs; by destruct Hs | done].
Qed.

Lemma read_xattrs_ok t r n :
  plain W t → t !! (W ++ r) = Some n → read_xattrs t (W ++ r) = m_xattrs (node_meta n).
Proof.
  intros Hp Hn. pose proof (lookup_node_present W t false r n Hp Hn) as Hlk.
  unfold read_xattrs. destruct (xattr_list_ok _ _ _ _ Hlk) as (l & -> & _ & Hl).
  set (x := m_xattrs (node_meta n)) in *.
  assert (∀ l (acc : gmap string (list Z)), foldl (λ result attr, match xattr_get t (W ++ r) attr with
                     | Ok (Some value) => <[attr := value]> result | _ => result end) acc l
     = foldl (λ result attr, match x !! attr with
                     | Some value => <[attr := value]> result | None => result end) acc l) as ->.
  { intros l' acc. revert acc. induction l' as [|a l' IH]; intros acc; simpl; [done|].
    rewrite (xattr_get_ok _ _ _ _ a Hlk). fold x. rewrite IH. by destruct (x !! a). }
  apply map_eq. intros k. rewrite foldl_collect, lookup_empty. case_decide as Hd; [done|].
  destruct (x !! k) eqn:E; [|done]. exfalso. apply Hd. rewrite Hl, E. split; by eexists.
Qed.

(** The metadata file of a node. *)
Definition preimage_of (h : host) (r : path) (n : node) : PreimageMetadata :=
  mkPreimage (key r) true (node_file_type n) (st_mode n) (m_mtime (node_meta n))
    (st_size h (W ++ r) n) None (m_xattrs (node_meta n)).

(** [pd'] is [pd] with the preimage of [r] added: everything about other paths
    is as it was. *)
Record pd_extends (pd pd' : preimage_dir) (r : path) (m : PreimageMetadata) : Prop := mkPdExt {
  pe_meta : pd_meta pd' = <[path_hash r := Json m]> (pd_meta pd);
  pe_data : ∀ hash, hash ≠ path_hash r → pd_data pd' !! hash = pd_data pd !! hash;
}.

Lemma capture_preimage_ok h t r n pd :
  plain W t → t !! (W ++ r) = Some n →
  ∃ size pd', capture_preimage h no_fault t (W ++ r) W (Some pd)
              = (Ok (preimage_of h r n, size), Some pd') ∧
    pd_extends pd pd' r (preimage_of h r n) ∧
    match n with
    | File _ c => ∃ z, pd_data pd' !! path_hash r = Some z ∧ zstd_decode_all z = Ok c
    | _ => True
    end.
Proof.
  intros Hp Hn. unfold capture_preimage.
  erewrite stm_bind_ok by (unfold lift; by rewrite strip_prefix_app).
  erewrite stm_bind_ok by (unfold lift; by rewrite (symlink_metadata_present W t r n)).
  rewrite (pl_nolink _ _ Hp r n Hn).
  erewrite stm_bind_ok by (instantiate (2 := (node_file_type n, None));
    pose proof (pl_nolink _ _ Hp r n Hn); by destruct n).
  rewrite (read_xattrs_ok t r n) by done.
  change (mkPreimage _ _ _ _ _ _ _ _) with (preimage_of h r n).
  erewrite stm_bind_ok by done.
  destruct n as [m c|m|m tgt]; simpl node_file_type.
  - destruct (zstd_roundtrip c) as (z & Henc & Hdec).
    erewrite stm_bind_ok; cycle 1.
    { rewrite decide_True by done.
      erewrite stm_bind_ok by (unfold lift, fs_read; by rewrite (lookup_node_present W t true r (File m c))).
      erewrite stm_bind_ok by (unfold lift; by rewrite Henc). reflexivity. }
    eexists _, _. split; [reflexivity|]. split.
    + split; [done|]. intros hash Hne. simpl. by rewrite lookup_insert_ne.
    + exists z. split; [apply lookup_insert_eq | done].
  - erewrite stm_bind_ok by done. eexists _, _. split; [reflexivity|]. by split.
  - pose proof (pl_nolink _ _ Hp r _ Hn). done.
Qed.

Lemma capture_creation_marker_ok t r pd :
  clean r → ∃ m pd', capture_creation_marker no_fault t (W ++ r) W (Some pd) = (Ok m, Some pd') ∧
    pd_extends pd pd' r m ∧ pm_relative_path m = key r ∧ pm_existed_before m = false.
Proof.
  intros Hr. unfold capture_creation_marker.
  erewrite stm_bind_ok by (unfold lift; by rewrite strip_prefix_app).
  eexists _, _. split; [reflexivity|]. split; [by split | done].
Qed.

(** ** Extending the log *)

Lemma entry_ok_extends S0 pd pd' r m r' e :
  good_paths good → good r → good r' → r ≠ r' → pd_extends pd pd' r m →
  entry_ok W S0 pd r' e → entry_ok W S0 pd' r' e.
Proof.
  intros Hg Hr Hr' Hne [Hm Hd] (Hh & pm & Hpm & H).
  assert (path_hash r' ≠ path_hash r) as Hhash by (intros ?; by apply Hne, (good_hash _ Hg)).
  split; [done|]. exists pm. rewrite Hm, lookup_insert_ne by done. split; [done|].
  destruct H as (? & ? & ? & H). split_and!; try done.
  destruct (me_existed_before e); [|done]. destruct H as (n0 & n & ? & ? & ? & Hc).
  exists n0, n. split_and!; try done. destruct Hc as (? & ? & ? & ? & Hc).
  split_and!; try done. destruct n; try done. destruct Hc as (z & Hz & ?).
  exists z. by rewrite (Hd _ Hhash).
Qed.

Lemma logged_extend S0 t es pd pd' r m e :
  logged W good S0 t es pd → good r → es !! key r = None →
  pd_extends pd pd' r m → entry_ok W S0 pd' r e →
  logged W good S0 t (<[key r := e]> es) pd'.
Proof.
  intros L Hr Hnone Hext He. pose proof (lg_good _ _ _ _ _ _ L) as Hg.
  destruct L as [_ H0 Ht Hg0 Hgt Hk Hent Hun Hkind Hout].
  split; try done.
  - intros k Hs. destruct (decide (k = key r)) as [->|Hne]; [by exists r|].
    rewrite lookup_insert_ne in Hs by done. auto.
  - intros r' e' Hr' He'. destruct (decide (r = r')) as [<-|Hne].
    + rewrite lookup_insert_eq in He'. by simplify_eq.
    + rewrite lookup_insert_ne in He'.
      * eapply entry_ok_extends; [done | exact Hr | done | done | done | auto].
      * intros H. apply Hne. apply key_inj; [by apply (good_clean _ Hg).. | done].
  - intros r' Hr' Hn'. apply Hun; [done|]. destruct (decide (key r = key r')) as [Heq|Hne].
    + rewrite Heq, lookup_insert_eq in Hn'. done.
    + by rewrite lookup_insert_ne in Hn'.
Qed.

(** ** The invariant of an open step *)

Definition unprotected (w : world) : bool := step_unprotected (inner (w_int w)).
Definition touched (w : world) : gset string := touched_paths (inner (w_int w)).

Record open_inv (S0 : tree) (w : world) (mf : StepManifest) (pd : preimage_dir) : Prop := mkOpenInv {
  oi_wal : ∃ sd, ud_wal (w_undo w) = Some sd ∧ sd_manifest sd = None ∧ sd_preimages sd = Some pd;
  oi_manifest : current_manifest (inner (w_int w)) = Some mf;
  oi_unprot : sm_unprotected mf = false;
  oi_touched : ∀ k, k ∈ touched w ↔ is_Some (sm_entries mf !! k);
  oi_index : ∀ hash, is_Some (pd_meta pd !! hash) →
    ∃ r, good r ∧ hash = path_hash r ∧ is_Some (sm_entries mf !! key r);
  oi_meta : ∀ r n, w_tree w !! (W ++ r) = Some n → meta_wf (node_meta n);
  oi_logged : logged W good S0 (w_tree w) (sm_entries mf) pd;
}.

(** A step is open, nothing is ignored, and unless the step has become
    unprotected its log is complete. *)
Record step_inv (S0 : tree) (w : world) : Prop := mkStepInv {
  sv_root : working_root (w_int w) = W;
  sv_git : gitignore_filter (w_int w) = None;
  sv_active : is_Some (active_step (inner (w_int w)));
  sv_log : unprotected w = true ∨ ∃ mf pd, open_inv S0 w mf pd;
}.

(** What a capture may change: more paths touched, perhaps unprotected; not
    the tree. *)
Record later (w w' : world) : Prop := mkLater {
  lt_tree : w_tree w' = w_tree w;
  lt_unprot : unprotected w = true → unprotected w' = true;
  lt_touched : touched w ⊆ touched w';
}.

#[export] Instance later_preorder : PreOrder later.
Proof using.
  split.
  - intros w. by split.
  - intros w1 w2 w3 [H1 H2 H3] [H4 H5 H6]. split; [by rewrite H4 | intros H; by apply H5, H2 | by etrans].
Qed.

(** [r] is in the log, unless the step is unprotected. *)
Definition covered (w : world) (r : path) : Prop := unprotected w = true ∨ key r ∈ touched w.

Lemma covered_later w w' r : later w w' → covered w r → covered w' r.
Proof using. intros [_ Hu Ht] [H|H]; [left; by apply Hu | right; by apply Ht]. Qed.

(** ** [ensure_preimage] *)

Lemma zoom_wal_ok {A} (m : stm (option preimage_dir) CodeAgentError A) w sd pd a pd' :
  ud_wal (w_undo w) = Some sd → sd_preimages sd = Some pd → m (Some pd) = (Ok a, Some pd') →
  zoom wal_preimages set_wal_preimages m w = (Ok a, set_wal_preimages (Some pd') w).
Proof.
  intros Hsd Hpd Hm. unfold zoom. assert (wal_preimages w = Some pd) as ->.
  { unfold wal_preimages. by rewrite Hsd. }
  by rewrite Hm.
Qed.

(** The state after logging one path. *)
Lemma open_inv_log S0 w mf pd pd' sd r m hash existed ft (f : UndoInterceptorInner → UndoInterceptorInner) w' :
  open_inv S0 w mf pd → good r → sm_entries mf !! key r = None →
  ud_wal (w_undo w) = Some sd → hash = path_hash r → pd_extends pd pd' r m →
  entry_ok W S0 pd' r (mkEntry existed hash ft) →
  w' = on_inner (λ i, f (log_entry (key r) hash existed ft i)) (set_wal_preimages (Some pd') w) →
  (∀ i, current_manifest (f i) = current_manifest i ∧ touched_paths (f i) = touched_paths i) →
  open_inv S0 w' (add_entry (key r) hash existed ft mf) pd' ∧ touched w' = {[key r]} ∪ touched w.
Proof.
  intros [Hwal Hmf Hup Ht Hidx Hmeta L] Hr Hnone Hsd -> Hext He -> Hf.
  assert (touched (on_inner (λ i, f (log_entry (key r) (path_hash r) existed ft i))
            (set_wal_preimages (Some pd') w)) = {[key r]} ∪ touched w) as Htouched.
  { unfold touched. simpl. by rewrite (proj2 (Hf _)). }
  split; [|done]. split.
  - simpl. destruct Hwal as (sd' & Hsd' & Hm' & _). rewrite Hsd in Hsd'. injection Hsd' as <-.
    rewrite Hsd. simpl. eauto.
  - simpl. rewrite (proj1 (Hf _)). simpl. by rewrite Hmf.
  - done.
  - intros k. rewrite Htouched, elem_of_union, elem_of_singleton, Ht. simpl.
    destruct (decide (k = key r)) as [->|Hne].
    + rewrite lookup_insert_eq. split; [by eexists | by left].
    + rewrite lookup_insert_ne by done. naive_solver.
  - intros hash Hs. rewrite (pe_meta _ _ _ _ Hext) in Hs. simpl.
    destruct (decide (hash = path_hash r)) as [->|Hne].
    + exists r. rewrite lookup_insert_eq. split_and!; [done | done | by eexists].
    + rewrite lookup_insert_ne in Hs by done. destruct (Hidx hash Hs) as (r' & Hr' & Hh & Hs').
      exists r'. split_and!; [done | done |].
      destruct (decide (key r = key r')) as [->|Hk]; [rewrite lookup_insert_eq; by eexists|].
      by rewrite lookup_insert_ne.
  - simpl. done.
  - simpl. by eapply logged_extend.
Qed.

Lemma ensure_preimage_ok h S0 w r :
  step_inv S0 w → good r →
  ∃ b w', ensure_preimage h no_fault (W ++ r) w = (Ok b, w') ∧
    step_inv S0 w' ∧ later w w' ∧ (is_Some (w_tree w !! (W ++ r)) → covered w' r) ∧
    resource_limits (w_int w') = resource_limits (w_int w) ∧
    (max_single_step_size_bytes (resource_limits (w_int w)) = None → unprotected w' = unprotected w).
Proof.
  intros Hsv Hr. destruct Hsv as [Hroot Hgit Hact Hlog].
  assert (step_inv S0 w) as Hself by by split.
  unfold ensure_preimage. erewrite stm_bind_ok by done.
  erewrite stm_bind_ok by (unfold lift; rewrite Hroot; by rewrite strip_prefix_app).
  unfold is_ignored. rewrite Hgit. fold (unprotected w) (touched w).
  destruct (unprotected w) eqn:Hu.
  { exists false, w. split_and!; try done. intros _. by left. }
  destruct Hlog as [|(mf & pd & Hoi)]; [done|].
  pose proof (oi_logged _ _ _ _ Hoi) as L. pose proof (lg_plain _ _ _ _ _ _ L) as Hp.
  pose proof (good_clean _ (lg_good _ _ _ _ _ _ L) r Hr) as Hcl.
  case_bool_decide as Hin.
  { exists false, w. split_and!; try done. intros _. by right. }
  rewrite symlink_metadata_is_ok by done. case_bool_decide as Hs; simpl; cycle 1.
  { exists false, w. by split_and!. }
  destruct Hs as [n Hn]. unfold symlink_at. rewrite (symlink_metadata_present W _ r n) by done.
  rewrite (pl_nolink _ _ Hp r n Hn), andb_false_r.
  assert (sm_entries mf !! key r = None) as Hnone.
  { apply eq_None_not_Some. by rewrite <- (oi_touched _ _ _ _ Hoi). }
  destruct (oi_wal _ _ _ _ Hoi) as (sd & Hsd & Hm & Hpd).
  destruct (capture_preimage_ok h (w_tree w) r n pd Hp Hn) as (sz & pd' & Hcap & Hext & Hdata).
  rewrite Hroot. erewrite stm_bind_ok by (by eapply zoom_wal_ok).
  eexists true, _. split; [reflexivity|].
  edestruct (open_inv_log S0 w mf pd pd' sd r (preimage_of h r n) (path_hash r) true
    (file_type_as_str (node_file_type n)) (add_data_size (resource_limits (w_int w)) sz))
    as [Hoi' Ht']; [done | done | done | done | done | done | | reflexivity | done |].
  - split; [done|]. exists (preimage_of h r n).
    rewrite (pe_meta _ _ _ _ Hext), lookup_insert_eq. split_and!; try done. simpl.
    pose proof (lg_unlogged _ _ _ _ _ _ L r Hr Hnone) as Hsim. rewrite Hn in Hsim.
    inversion Hsim as [? n0 Hs0|]; subst. exists n0, n. split_and!; try done.
    split_and!; try done. by apply (oi_meta _ _ _ _ Hoi r n).
  - split_and!; try done.
    + split; [done | done | done |]. right. eauto.
    + split; [done | by rewrite Hu |].
      assert (touched w ⊆ {[key r]} ∪ touched w) as Hsub by set_solver.
      rewrite <- Ht' in Hsub. exact Hsub.
    + intros _. right. assert (key r ∈ {[key r]} ∪ touched w) as Hkey by set_solver.
      rewrite <- Ht' in Hkey. exact Hkey.
    + intros Hlim. unfold unprotected. simpl. by rewrite Hlim.
Qed.

End capture.
