(* ===== verification/UndoSteps.v ===== *)
(** * Hooks around filesystem operations

    [record_creation] after a creation and [capture_tree_preimages] before a
    removal keep the invariant of an open step; so does every hook together
    with the operation it guards. *)

From Stdlib Require Import Ascii.
From stdpp Require Import base gmap strings list fin_maps sorting.
From S2P Require Import Prelude HostFs HostFacts Common Safeguard UndoLog UndoInterceptor UndoEvict UndoFacts UndoCapture.
#[local] Open Scope Z_scope.

Section steps.
Context `{TP : ThirdParty} `{!ThirdPartyLaws TP} (W : path) (good : path → Prop).

Abbreviation logged := (logged W good).
Abbreviation step_inv := (step_inv W good).
Abbreviation open_inv := (open_inv W good).

(** ** Changing a logged path *)

Lemma logged_update S0 t t' es pd r :
  logged S0 t es pd → good r → is_Some (es !! key r) → plain W t' →
  (∀ p, p ≠ W ++ r → option_Forall2 node_sim (t' !! p) (t !! p)) →
  (∀ n n0, t' !! (W ++ r) = Some n → S0 !! (W ++ r) = Some n0 → is_dir_node n = is_dir_node n0) →
  logged S0 t' es pd.
Proof.
  intros L Hr Hes Hp Hsame Hkind. destruct L as [Hg H0 Ht Hg0 Hgt Hk Hent Hun Hkd Hout].
  assert (∀ q, q ≠ r → option_Forall2 node_sim (t' !! (W ++ q)) (t !! (W ++ q))) as Hother.
  { intros q Hq. apply Hsame. intros ?. simplify_eq. }
  split; try done.
  - intros q Hs. destruct (decide (q = r)) as [->|Hq]; [done|].
    apply Hgt. by destruct (Hother q Hq); [eexists|destruct Hs].
  - intros q Hq Hnone. destruct (decide (q = r)) as [->|Hne].
    + rewrite Hnone in Hes. by destruct Hes.
    + eapply option_sim_trans; [by apply Hother | by apply Hun].
  - intros q n n0 Hn Hn0. destruct (decide (q = r)) as [->|Hne]; [by eapply Hkind|].
    pose proof (Hother q Hne) as Hs. rewrite Hn in Hs. inversion Hs as [? n1 Hs1 E1 E2|]; subst.
    rewrite <- (Hkd q n1 n0) by done. by destruct n, n1.
  - intros p Hpo. eapply option_sim_trans; [|by apply Hout]. apply Hsame.
    intros ->. apply Hpo. by exists r.
Qed.

(** ** Metadata stays representable *)

Definition tree_meta_wf (t : tree) : Prop :=
  ∀ r n, t !! (W ++ r) = Some n → meta_wf (node_meta n).

Lemma touch_parent_meta h p t :
  host_wf h → tree_meta_wf t → tree_meta_wf (touch_parent h p t).
Proof.
  intros Hh Ht r n Hn. unfold touch_parent in Hn. destruct (parent p) as [d|]; [|by eapply Ht].
  apply lookup_alter_Some in Hn as [(_ & n' & Hn' & ->)|[_ Hn]]; [|by eapply Ht].
  destruct (Ht r n' Hn') as [Hp Hm]. by destruct n'; split; try apply (hw_clock _ Hh).
Qed.

Lemma insert_meta t r n : tree_meta_wf t → meta_wf (node_meta n) → tree_meta_wf (<[W ++ r := n]> t).
Proof.
  intros Ht Hn q n' Hq. destruct (decide (q = r)) as [->|Hne].
  - rewrite lookup_insert_eq in Hq. by simplify_eq.
  - rewrite lookup_insert_ne in Hq by (intros ?; simplify_eq). by eapply Ht.
Qed.

Lemma add_node_meta h t r n :
  host_wf h → tree_meta_wf t → meta_wf (node_meta n) → tree_meta_wf (add_node h (W ++ r) n t).
Proof. intros. apply touch_parent_meta; [done|]. by apply insert_meta. Qed.

Lemma delete_meta t p : tree_meta_wf t → tree_meta_wf (delete p t).
Proof. intros Ht r n [_ Hn]%lookup_delete_Some. by eapply Ht. Qed.

Lemma new_meta_wf h perm : host_wf h → 0 ≤ perm < 2 ^ 12 → meta_wf (new_meta h perm).
Proof. intros Hh Hp. split; [done | apply (hw_clock _ Hh)]. Qed.

(** ** Creation *)

(** The world with another tree. *)
Lemma open_inv_tree S0 w mf pd r t' :
  open_inv S0 w mf pd → good r → is_Some (sm_entries mf !! key r) → plain W t' → tree_meta_wf t' →
  (∀ p, p ≠ W ++ r → option_Forall2 node_sim (t' !! p) (w_tree w !! p)) →
  (∀ n n0, t' !! (W ++ r) = Some n → S0 !! (W ++ r) = Some n0 → is_dir_node n = is_dir_node n0) →
  open_inv S0 (set_tree t' w) mf pd.
Proof.
  intros [Hwal Hmf Hup Ht Hidx Hmeta L] Hr Hs Hp Hwf Hsame Hkind.
  split; [done | done | done | done | done | exact Hwf |]. by eapply logged_update.
Qed.

Lemma step_inv_unprotected S0 w w' :
  step_inv S0 w → working_root (w_int w') = working_root (w_int w) →
  gitignore_filter (w_int w') = gitignore_filter (w_int w) →
  active_step (inner (w_int w')) = active_step (inner (w_int w)) →
  unprotected w' = true → step_inv S0 w'.
Proof. intros [H1 H2 H3 _] E1 E2 E3 Hu. split; [congruence | congruence | by rewrite E3 | by left]. Qed.

(** Logging a path that has just been created. *)
Lemma record_creation_ok S0 w r t' n :
  step_inv S0 w → good r → w_tree w !! (W ++ r) = None → plain W t' → tree_meta_wf t' →
  t' !! (W ++ r) = Some n →
  (∀ p, p ≠ W ++ r → option_Forall2 node_sim (t' !! p) (w_tree w !! p)) →
  (∀ n0, S0 !! (W ++ r) = Some n0 → is_dir_node n = is_dir_node n0) →
  ∃ w', record_creation no_fault (W ++ r) (set_tree t' w) = (Ok (), w') ∧
    step_inv S0 w' ∧ w_tree w' = t'.
Proof.
  intros Hsv Hr Habs Hp Hwf Hn Hsame Hkind.
  pose proof Hsv as [Hroot Hgit Hact Hlog]. unfold record_creation.
  erewrite stm_bind_ok by done. simpl. unfold symlink_at.
  rewrite (symlink_metadata_present W t' r n), (pl_nolink _ _ Hp r n Hn), andb_false_r by done.
  erewrite stm_bind_ok by (unfold lift; rewrite Hroot; by rewrite strip_prefix_app).
  unfold is_ignored. rewrite Hgit. fold (unprotected w) (touched w).
  destruct (unprotected w) eqn:Hu.
  { eexists. split_and!; [reflexivity | | done]. by eapply step_inv_unprotected. }
  destruct Hlog as [|(mf & pd & Hoi)]; [done|].
  pose proof (oi_logged _ _ _ _ _ _ Hoi) as L.
  assert (∀ m k, t' !! (W ++ r) = Some m → S0 !! (W ++ r) = Some k →
          is_dir_node m = is_dir_node k) as Hkind'
    by (intros m k Hm; rewrite Hn in Hm; simplify_eq; apply Hkind).
  case_bool_decide as Hin.
  { eexists. split_and!; [reflexivity | | done]. split; [done | done | done |]. right.
    exists mf, pd. apply (open_inv_tree S0 w mf pd r); try done. by apply (oi_touched _ _ _ _ _ _ Hoi). }
  assert (sm_entries mf !! key r = None) as Hnone.
  { apply eq_None_not_Some. by rewrite <- (oi_touched _ _ _ _ _ _ Hoi). }
  destruct (oi_wal _ _ _ _ _ _ Hoi) as (sd & Hsd & Hm & Hpd).
  destruct (capture_creation_marker_ok W t' r pd) as (m & pd' & Hcap & Hext & Hrel & Hex);
    [by apply (good_clean _ (lg_good _ _ _ _ _ _ L))|].
  rewrite Hroot. erewrite stm_bind_ok by (by eapply zoom_wal_ok).
  eexists. split_and!; [reflexivity | | done].
  edestruct (open_inv_log W good S0 w mf pd pd' sd r m (path_hash r) false
    (file_type_as_str (pm_file_type m)) (λ i, i))
    as [Hoi' Ht']; [done | done | done | done | done | done | | reflexivity | done |].
  - split; [done|]. exists m. rewrite (pe_meta _ _ _ _ Hext), lookup_insert_eq.
    split_and!; try done. simpl.
    pose proof (lg_unlogged _ _ _ _ _ _ L r Hr Hnone) as Hsim. rewrite Habs in Hsim.
    by inversion Hsim.
  - split; [done | done | done |]. right. eexists _, _.
    eapply (open_inv_tree S0 _ _ pd' r t') in Hoi'; [exact Hoi' | done | | done | done | done | done].
    simpl. rewrite lookup_insert_eq. by eexists.
Qed.

(** ** Capturing a subtree *)

(** Nothing but the log, the touched set and the protection flag changes. *)
Record captured (S0 : tree) (w w' : world) : Prop := mkCaptured {
  ca_inv : step_inv S0 w';
  ca_later : later w w';
  ca_limits : resource_limits (w_int w') = resource_limits (w_int w);
  ca_unprot : max_single_step_size_bytes (resource_limits (w_int w)) = None →
              unprotected w' = unprotected w;
}.

Lemma captured_refl S0 w : step_inv S0 w → captured S0 w w.
Proof. by split. Qed.
Lemma captured_trans S0 w1 w2 w3 : captured S0 w1 w2 → captured S0 w2 w3 → captured S0 w1 w3.
Proof.
  intros [_ H1 H2 H3] [K0 K1 K2 K3]. split; [done | by etrans | congruence |].
  intros Hl. rewrite K3, H3; congruence.
Qed.

Lemma ensure_preimage_captured h S0 w r :
  step_inv S0 w → good r →
  ∃ b w', ensure_preimage h no_fault (W ++ r) w = (Ok b, w') ∧ captured S0 w w' ∧
    (is_Some (w_tree w !! (W ++ r)) → covered w' r).
Proof.
  intros H Hr. destruct (ensure_preimage_ok W good h S0 w r H Hr) as (b & w' & ? & ? & ? & ? & ? & ?).
  exists b, w'. by split_and!.
Qed.

Definition below_covered (t : tree) (w : world) (r : path) : Prop :=
  ∀ k, k ≠ [] → is_Some (t !! (W ++ r ++ k)) → covered w (r ++ k).

Lemma path_is_dir_inv t r : plain W t → clean r → path_is_dir t (W ++ r) = true → dir_at t (W ++ r).
Proof.
  intros Hp Hr. rewrite path_is_dir_plain by done.
  destruct (t !! (W ++ r)) as [[]|] eqn:E; try done. intros _. by eexists.
Qed.

Lemma not_dir_below t r k :
  plain W t → clean r → path_is_dir t (W ++ r) = false → k ≠ [] → t !! (W ++ r ++ k) = None.
Proof.
  intros Hp Hr Hd Hk. apply eq_None_not_Some. intros Hs.
  destruct (path_cases k) as [->|(k' & c & ->)]; [done|].
  rewrite (app_assoc r) in Hs. apply (pl_parent _ _ Hp), pl_dir_prefix in Hs as [m Hm]; [|done].
  rewrite path_is_dir_plain, Hm in Hd by done. done.
Qed.

Lemma capture_tree_leaf h fuel p w :
  path_is_dir (w_tree w) p = false → capture_tree h no_fault fuel p w = (Ok (), w).
Proof. intros Hd. destruct fuel; cbn [capture_tree]; erewrite stm_bind_ok by done; by rewrite Hd. Qed.

(** One name of the listing: capture it, and what is below it. *)
Lemma capture_child h S0 t fuel r w w1 ds c :
  plain W t → (∀ r, is_Some (t !! (W ++ r)) → good r) → w_tree w = t →
  working_root (w_int w) = W → gitignore_filter (w_int w) = None →
  (size t ≤ S fuel + length (W ++ r))%nat →
  (∀ r w, w_tree w = t → step_inv S0 w → clean r → (size t ≤ fuel + length (W ++ r))%nat →
     ∃ w', capture_tree h no_fault fuel (W ++ r) w = (Ok (), w') ∧ captured S0 w w' ∧
           below_covered t w' r) →
  captured S0 w w1 →
  (∀ c k, c ∈ ds → is_Some (t !! (W ++ r ++ c :: k)) → covered w1 (r ++ c :: k)) →
  is_Some (t !! (W ++ r ++ [c])) →
  ∃ w', (let p := (W ++ r) ++ [c] in
         if bool_decide (symlink_policy (w_int w) = SymlinkIgnore) && symlink_at t p then mret ()
         else if match strip_prefix (working_root (w_int w)) p with
                 | Some relative =>
                     is_ignored (w_int w) (normalized_relative_path relative) (path_is_dir t p)
                 | None => false
                 end
         then mret ()
         else ensure_preimage h no_fault p;;
              if path_is_dir t p then capture_tree h no_fault fuel p else mret ()) w1 = (Ok (), w') ∧
    captured S0 w w' ∧
    ∀ c' k, c' ∈ ds ++ [c] → is_Some (t !! (W ++ r ++ c' :: k)) → covered w' (r ++ c' :: k).
Proof.
  intros Hp Hg Ht Hroot Hgit Hfuel IH Hcap Hcov [n Hn]. cbv zeta. rewrite <- app_assoc.
  pose proof (Hg _ ltac:(by eexists)) as Hgood.
  pose proof (pl_clean _ _ Hp (r ++ [c]) ltac:(by eexists)) as Hcl.
  unfold symlink_at. rewrite (symlink_metadata_present W t (r ++ [c]) n) by done.
  rewrite (pl_nolink _ _ Hp _ _ Hn), andb_false_r, Hroot, strip_prefix_app.
  unfold is_ignored. rewrite Hgit.
  pose proof (lt_tree _ _ (ca_later _ _ _ Hcap)) as Ht1. rewrite Ht in Ht1.
  destruct (ensure_preimage_captured h S0 w1 (r ++ [c]) (ca_inv _ _ _ Hcap) Hgood)
    as (b & w2 & He & Hcap2 & Hcov2).
  rewrite Ht1 in Hcov2. specialize (Hcov2 ltac:(by eexists)).
  rewrite (stm_bind_ok _ _ _ _ _ He).
  pose proof (lt_tree _ _ (ca_later _ _ _ Hcap2)) as Ht2. rewrite Ht1 in Ht2.
  assert (∃ w3, (if path_is_dir t (W ++ r ++ [c])
                 then capture_tree h no_fault fuel (W ++ r ++ [c]) else mret ()) w2
      = (Ok (), w3) ∧ captured S0 w2 w3 ∧ below_covered t w3 (r ++ [c])) as (w3 & H3 & Hcap3 & Hcov3).
  { destruct (path_is_dir t (W ++ r ++ [c])) eqn:Hd.
    - apply IH; [done | apply (ca_inv _ _ _ Hcap2) | done |]. rewrite !length_app in *. simpl. lia.
    - exists w2. split_and!; [done | by apply captured_refl, (ca_inv _ _ _ Hcap2) |].
      intros k Hk Hs. by rewrite (not_dir_below t _ k) in Hs; destruct Hs. }
  exists w3. split; [done|]. pose proof (captured_trans _ _ _ _ Hcap2 Hcap3) as Hcap13.
  split; [by eapply captured_trans|].
  intros c' k [Hc'|Hc']%elem_of_app Hs.
  - eapply covered_later; [apply (ca_later _ _ _ Hcap13) | by apply Hcov].
  - apply list_elem_of_singleton in Hc' as ->. destruct (decide (k = [])) as [->|Hk].
    + eapply covered_later; [apply (ca_later _ _ _ Hcap3) | done].
    + change (c :: k) with ([c] ++ k). rewrite app_assoc. apply Hcov3; [done|].
      by rewrite <- app_assoc.
Qed.

Lemma capture_tree_ok h S0 t :
  host_wf h → plain W t → (∀ r, is_Some (t !! (W ++ r)) → good r) →
  ∀ fuel r w, w_tree w = t → step_inv S0 w → clean r →
    (size t ≤ fuel + length (W ++ r))%nat →
    ∃ w', capture_tree h no_fault fuel (W ++ r) w = (Ok (), w') ∧ captured S0 w w' ∧
          below_covered t w' r.
Proof.
  intros Hh Hp Hg. induction fuel as [|fuel IH]; intros r w Ht Hsv Hcl Hfuel;
    (destruct (path_is_dir t (W ++ r)) eqn:Hd;
     [|exists w; split_and!;
       [apply capture_tree_leaf; by rewrite Ht | by apply captured_refl |];
       intros k Hk Hs; by rewrite (not_dir_below t r k) in Hs; destruct Hs]).
  - exfalso. apply path_is_dir_inv in Hd as [m Hm]; [|done..].
    pose proof (present_length W t r Hp ltac:(by eexists)). lia.
  - pose proof Hsv as [Hroot Hgit _ _]. cbn [capture_tree].
    erewrite stm_bind_ok by done. rewrite Ht, Hd. cbn [negb].
    apply path_is_dir_inv in Hd as [m Hm]; [|done..].
    erewrite stm_bind_ok by (unfold lift; by rewrite (read_dir_present W h t r m)).
    match goal with |- ∃ _, for_each ?f ?l w = _ ∧ _ => 
      destruct (for_each_inv f (λ ds w1, captured S0 w w1 ∧
        ∀ c k, c ∈ ds → is_Some (t !! (W ++ r ++ c :: k)) → covered w1 (r ++ c :: k)) l w)
        as (w' & Hw' & Hcap & Hcov) end.
    + split; [by apply captured_refl|]. intros c k H. by apply elem_of_nil in H.
    + intros ds c todo w1 Hl [Hcap Hcov].
      assert (is_Some (t !! (W ++ r ++ [c]))) as Hc.
      { apply children_elem. rewrite <- (hw_order _ Hh), Hl. set_solver. }
      eapply capture_child; eauto.
    + exists w'. split_and!; [done | done |]. intros [|c k] Hk Hs; [done|].
      apply Hcov; [|done]. rewrite (hw_order _ Hh), children_elem.
      apply not_eq_None_Some. intros Hno. change (c :: k) with ([c] ++ k) in Hs.
      rewrite (app_assoc r) in Hs. rewrite (pl_absent_below W t _ k Hp Hno) in Hs. by destruct Hs.
Qed.

(** In an unprotected step nothing is captured. *)
Lemma capture_tree_unprotected h fuel r w :
  working_root (w_int w) = W → gitignore_filter (w_int w) = None → unprotected w = true →
  (capture_tree h no_fault fuel (W ++ r) w).2 = w.
Proof.
  intros Hroot Hgit Hu.
  assert (∀ r, ensure_preimage h no_fault (W ++ r) w = (Ok false, w)) as He.
  { intros q. unfold ensure_preimage. erewrite stm_bind_ok by done.
    erewrite stm_bind_ok by (unfold lift; rewrite Hroot; by rewrite strip_prefix_app).
    unfold is_ignored. rewrite Hgit. unfold unprotected in Hu. by rewrite Hu. }
  revert r. induction fuel as [|fuel IH]; intros r; cbn [capture_tree];
    erewrite stm_bind_ok by done; destruct (path_is_dir (w_tree w) (W ++ r)); try done.
  cbn [negb]. unfold mbind, stm_bind, lift.
  destruct (read_dir h (w_tree w) (W ++ r)) as [names| |]; [|done|done]. simpl.
  apply for_each_same. intros c. rewrite <- app_assoc.
  destruct (_ && _); [done|]. rewrite Hroot, strip_prefix_app. unfold is_ignored. rewrite Hgit.
  rewrite He. destruct (path_is_dir _ _); [apply IH | done].
Qed.

Lemma capture_tree_keeps h S0 w w' r :
  host_wf h → step_inv S0 w → good r →
  capture_tree_preimages h no_fault (W ++ r) w = (Ok (), w') → captured S0 w w'.
Proof.
  intros Hh Hsv Hr Hc. unfold capture_tree_preimages in Hc.
  erewrite stm_bind_ok in Hc by done. destruct (sv_log _ _ _ _ Hsv) as [Hu|(mf & pd & Hoi)].
  - pose proof (capture_tree_unprotected h (capture_fuel (w_tree w)) r w
      (sv_root _ _ _ _ Hsv) (sv_git _ _ _ _ Hsv) Hu) as Hsame.
    rewrite Hc in Hsame. simpl in Hsame. subst. by apply captured_refl.
  - pose proof (oi_logged _ _ _ _ _ _ Hoi) as L.
    destruct (capture_tree_ok h S0 (w_tree w) Hh (lg_plain _ _ _ _ _ _ L) (lg_goodt _ _ _ _ _ _ L)
      (capture_fuel (w_tree w)) r w) as (w2 & Hw2 & Hcap & _); [done | done | | |].
    + by apply (good_clean _ (lg_good _ _ _ _ _ _ L)).
    + unfold capture_fuel. lia.
    + rewrite Hc in Hw2. by simplify_eq.
Qed.

(** ** Safeguard checks *)

Lemma step_inv_tracker S0 w t : step_inv S0 w → step_inv S0 (on_inner (set_tracker t) w).
Proof.
  intros [H1 H2 H3 H4]. split; [done | done | done |].
  destruct H4 as [H4|(mf & pd & [? ? ? ? ? ? ?])]; [by left|]. right. exists mf, pd. by split.
Qed.

(** Rolling back the open step restores the tree and closes the step. *)
Lemma rollback_current_step_ok h S0 w mf pd :
  step_inv S0 w → open_inv S0 w mf pd →
  ∃ w', rollback_current_step h no_fault w = (Ok (), w') ∧ tree_sim (w_tree w') S0 ∧
        active_step (inner (w_int w')) = None ∧ ud_wal (w_undo w') = None ∧
        completed_steps_ (inner (w_int w')) = completed_steps_ (inner (w_int w)) ∧
        ud_steps (w_undo w') = ud_steps (w_undo w).
Proof.
  intros [Hroot _ [id Hact] _] [(sd & Hsd & _ & Hpd) Hmf _ _ _ _ L].
  unfold rollback_current_step. erewrite stm_bind_ok by done. rewrite Hact, bool_decide_eq_false_2 by done.
  rewrite Hmf. erewrite stm_bind_ok; cycle 1.
  { apply ignore_ok with (a := ()). unfold write_wal_manifest.
    erewrite stm_bind_ok by done. rewrite Hsd. reflexivity. }
  erewrite stm_bind_ok by done. erewrite stm_bind_ok by done.
  cbn [fst snd w_undo on_inner on_int on_undo ud_wal set_wal].
  set (sd1 := mkStepFiles (Some (Json mf)) (sd_preimages sd) (sd_barriers sd)).
  destruct (rollback_step_logged h W (symlink_policy (w_int w)) good S0 (w_tree w) _ pd L sd1 mf)
    as (t' & Hrb & Hsim); [done | done | done |].
  erewrite stm_bind_ok; cycle 1.
  { unfold try, run_rollback_step, mbind, stm_bind, gets, zoom. cbn.
    rewrite Hroot. fold sd1. rewrite Hrb. reflexivity. }
  eexists. split; [reflexivity|]. by split_and!.
Qed.

(** A safeguard check: either the operation may proceed, or the step has been
    rolled back. *)
Lemma safeguard_ok h S0 w f :
  step_inv S0 w →
  let check := event ← with_tracker f; handle_safeguard_event h no_fault event in
  (∃ w', check w = (Ok (), w') ∧ step_inv S0 w' ∧ later w w') ∨
  (∃ res w', check w = (res, w') ∧ res ≠ Ok () ∧
     (unprotected w = false → (∃ id step, res = Err (SafeguardDenied id step)) ∧
        tree_sim (w_tree w') S0 ∧ active_step (inner (w_int w')) = None)).
Proof.
  intros Hsv check. unfold check. unfold with_tracker.
  destruct (f (safeguard_tracker (inner (w_int w)))) as [ev t] eqn:Ef.
  set (w1 := on_inner (set_tracker t) w).
  pose proof (step_inv_tracker S0 w t Hsv) as Hsv1. fold w1 in Hsv1.
  assert (later w w1) as Hl by by split.
  erewrite stm_bind_ok; cycle 1.
  { erewrite stm_bind_ok by done. rewrite Ef. erewrite stm_bind_ok by done. reflexivity. }
  fold w1. unfold handle_safeguard_event. erewrite stm_bind_ok by done.
  destruct ev as [e|]; [|left; by exists w1].
  destruct (safeguard_handler (w_int w1)) as [handler|]; [|left; by exists w1].
  destruct (handler e).
  - left. eexists. split; [reflexivity|]. split; [by apply step_inv_tracker|].
    etrans; [done|]. by split.
  - right. destruct (unprotected w1) eqn:Hu.
    + eexists _, _. split; [apply surjective_pairing|]. change (unprotected w1 = true) in Hu.
      split; [|intros Hu'; by rewrite (Hu : unprotected w = true) in Hu'].
      unfold mbind, stm_bind. by destruct (rollback_current_step h no_fault w1) as [[] w2].
    + destruct (sv_log _ _ _ _ Hsv1) as [|(mf & pd & Hoi)]; [congruence|].
      destruct (rollback_current_step_ok h S0 w1 mf pd Hsv1 Hoi) as (w2 & Hrb & Hsim & Hact & _).
      erewrite stm_bind_ok by exact Hrb. eexists _, _. split; [reflexivity|]. split; [done|]. intros _.
      split_and!; [by eexists _, _ | done | done].
Qed.

End steps.
