(* ===== verification/UndoCorrect.v ===== *)
(** * Undo restores the working tree

    A filesystem backend wraps every mutating operation in the hooks of the
    interceptor.  [backend_step] is that contract: an in-place change after a
    capture hook, a creation before [post_create] or [post_mkdir], a removal
    after [pre_unlink].  Whatever sequence of such operations an open step
    contains, rolling the step back (while it is open, after it was closed, or
    by crash recovery from the write-ahead log alone) brings back the tree the
    step started from, up to the modification times of directories. *)

From Stdlib Require Import Ascii.
From stdpp Require Import base gmap strings list fin_maps sorting relations.
From S2P Require Import Prelude HostFs HostFacts Common Safeguard UndoLog UndoInterceptor UndoEvict UndoFacts UndoCapture UndoSteps.
#[local] Open Scope Z_scope.

(** The hooks that precede an in-place change. *)
Inductive update_hook := HWrite | HOpenTrunc | HSetattr | HXattr | HFallocate | HCopyFileRange.

Definition run_hook `{ThirdParty} (k : update_hook) (h : host) (fault : undo_io → option io_error)
    (p : path) : WorldM unit :=
  match k with
  | HWrite => pre_write h fault p
  | HOpenTrunc => pre_open_trunc h fault p
  | HSetattr => pre_setattr h fault p
  | HXattr => pre_xattr h fault p
  | HFallocate => pre_fallocate h fault p
  | HCopyFileRange => pre_copy_file_range h fault p
  end.

Section correct.
Context `{TP : ThirdParty} `{!ThirdPartyLaws TP} `{JL : JsonLen} (W : path) (good : path → Prop).

Abbreviation step_inv := (step_inv W good).
Abbreviation open_inv := (open_inv W good).

(** One guarded operation of a backend in a step that started from [S0].  A
    path does not change between file and directory within the step. *)
Inductive backend_step (S0 : tree) : world → world → Prop :=
  | bs_update k h r w w1 n n' :
      host_wf h → good r → run_hook k h no_fault (W ++ r) w = (Ok (), w1) →
      w_tree w1 !! (W ++ r) = Some n → is_dir_node n' = is_dir_node n →
      is_symlink_node n' = false → meta_wf (node_meta n') →
      backend_step S0 w (set_tree (<[W ++ r := n']> (w_tree w1)) w1)
  | bs_create h r w t res w' :
      host_wf h → good r → (∀ n0, S0 !! (W ++ r) = Some n0 → is_dir_node n0 = false) →
      fs_create_new h (w_tree w) (W ++ r) = Ok t →
      post_create no_fault (W ++ r) (set_tree t w) = (res, w') →
      backend_step S0 w w'
  | bs_mkdir h r w t res w' :
      host_wf h → good r → (∀ n0, S0 !! (W ++ r) = Some n0 → is_dir_node n0 = true) →
      create_dir h (w_tree w) (W ++ r) = Ok t →
      post_mkdir no_fault (W ++ r) (set_tree t w) = (res, w') →
      backend_step S0 w w'
  | bs_unlink h r w w1 t :
      host_wf h → good r → pre_unlink h no_fault (W ++ r) false w = (Ok (), w1) →
      remove_file h (w_tree w1) (W ++ r) = Ok t → backend_step S0 w (set_tree t w1)
  | bs_rmdir h r w w1 t :
      host_wf h → good r → r ≠ [] → pre_unlink h no_fault (W ++ r) true w = (Ok (), w1) →
      remove_dir h (w_tree w1) (W ++ r) = Ok t → backend_step S0 w (set_tree t w1)
  | bs_failed_update k h r w w1 :
      host_wf h → good r → run_hook k h no_fault (W ++ r) w = (Ok (), w1) → backend_step S0 w w1
  | bs_failed_unlink h r d w w1 :
      host_wf h → good r → pre_unlink h no_fault (W ++ r) d w = (Ok (), w1) → backend_step S0 w w1.

(** ** Hooks *)

(** What a hook that let the operation proceed guarantees. *)
Record hook_post (S0 : tree) (w w' : world) (r : path) : Prop := mkHookPost {
  hp_inv : step_inv S0 w';
  hp_tree : w_tree w' = w_tree w;
  hp_covered : is_Some (w_tree w !! (W ++ r)) → covered w' r;
}.

Lemma is_active_ok S0 w : step_inv S0 w → is_active w = (Ok true, w).
Proof. intros Hsv. unfold is_active, gets. by rewrite bool_decide_eq_true_2 by apply Hsv. Qed.

(** A capture followed by a safeguard check. *)
Lemma capture_then_check h S0 w w1 w' r f :
  captured W good S0 w w1 → (is_Some (w_tree w !! (W ++ r)) → covered w1 r) →
  (event ← with_tracker f; handle_safeguard_event h no_fault event) w1 = (Ok (), w') →
  hook_post S0 w w' r.
Proof.
  intros [Hsv Hl _ _] Hcov Hchk.
  destruct (safeguard_ok W good h S0 w1 f Hsv) as [(w2 & Hw2 & Hsv2 & Hl2)|(res & w2 & Hw2 & Hres & _)];
    rewrite Hw2 in Hchk; simplify_eq.
  split; [done | by rewrite (lt_tree _ _ Hl2), (lt_tree _ _ Hl) |].
  intros Hs. eapply covered_later; [exact Hl2 | auto].
Qed.

Lemma pre_write_post h S0 w w' r :
  step_inv S0 w → good r → pre_write h no_fault (W ++ r) w = (Ok (), w') → hook_post S0 w w' r.
Proof.
  intros Hsv Hr. unfold pre_write. destruct (sv_active _ _ _ _ Hsv) as [id Hact].
  erewrite stm_bind_ok by done. rewrite Hact. erewrite stm_bind_ok by done.
  destruct (ensure_preimage_captured W good h S0 w r Hsv Hr) as (b & w1 & He & Hcap & Hcov).
  rewrite (stm_bind_ok _ _ _ _ _ He). destruct (metadata (w_tree w) (W ++ r)).
  - intros Hchk. by eapply capture_then_check.
  - intros [= <-]. split; [apply (ca_inv _ _ _ _ _ Hcap) | apply (lt_tree _ _ (ca_later _ _ _ _ _ Hcap)) | done].
  - intros [= <-]. split; [apply (ca_inv _ _ _ _ _ Hcap) | apply (lt_tree _ _ (ca_later _ _ _ _ _ Hcap)) | done].
Qed.

Lemma capture_if_active_post h S0 w w' r :
  step_inv S0 w → good r → capture_if_active h no_fault (W ++ r) w = (Ok (), w') → hook_post S0 w w' r.
Proof.
  intros Hsv Hr. unfold capture_if_active. erewrite stm_bind_ok by (by eapply is_active_ok).
  destruct (ensure_preimage_captured W good h S0 w r Hsv Hr) as (b & w1 & He & Hcap & Hcov).
  rewrite (stm_bind_ok _ _ _ _ _ He). intros [= <-]. split; [apply (ca_inv _ _ _ _ _ Hcap) | apply (lt_tree _ _ (ca_later _ _ _ _ _ Hcap)) | done].
Qed.

Lemma run_hook_post k h S0 w w' r :
  step_inv S0 w → good r → run_hook k h no_fault (W ++ r) w = (Ok (), w') → hook_post S0 w w' r.
Proof. destruct k; [apply pre_write_post | apply pre_write_post | apply capture_if_active_post..]. Qed.

Lemma pre_unlink_post h S0 w w' r d :
  host_wf h → step_inv S0 w → good r → pre_unlink h no_fault (W ++ r) d w = (Ok (), w') →
  hook_post S0 w w' r.
Proof.
  intros Hh Hsv Hr. unfold pre_unlink. destruct (sv_active _ _ _ _ Hsv) as [id Hact].
  erewrite stm_bind_ok by done. rewrite Hact.
  destruct (ensure_preimage_captured W good h S0 w r Hsv Hr) as (b & w1 & He & Hcap & Hcov).
  rewrite (stm_bind_ok _ _ _ _ _ He). intros Hrest.
  apply stm_bind_inv in Hrest as ([] & w2 & Hd & Hrest).
  assert (captured W good S0 w w2 ∧ (is_Some (w_tree w !! (W ++ r)) → covered w2 r)) as [Hcap2 Hcov2].
  { destruct d; [|by injection Hd as <-].
    pose proof (capture_tree_keeps W good h S0 w1 w2 r Hh (ca_inv _ _ _ _ _ Hcap) Hr Hd) as Hcap2.
    split; [by eapply captured_trans|]. intros Hs.
    eapply covered_later; [apply (ca_later _ _ _ _ _ Hcap2) | auto]. }
  erewrite stm_bind_ok in Hrest by done. by eapply capture_then_check.
Qed.

(** ** Operations preserve the invariant *)

Lemma change_tree S0 w r t' :
  step_inv S0 w → good r → covered w r →
  (∀ mf pd, open_inv S0 w mf pd →
     plain W t' ∧ tree_meta_wf W t' ∧
     (∀ p, p ≠ W ++ r → option_Forall2 node_sim (t' !! p) (w_tree w !! p)) ∧
     (∀ n n0, t' !! (W ++ r) = Some n → S0 !! (W ++ r) = Some n0 → is_dir_node n = is_dir_node n0)) →
  step_inv S0 (set_tree t' w).
Proof.
  intros Hsv Hr Hcov Hch. destruct (unprotected w) eqn:Hu; [by eapply step_inv_unprotected|].
  destruct Hsv as [H1 H2 H3 [|(mf & pd & Hoi)]]; [congruence|].
  destruct Hcov as [|Hcov]; [congruence|].
  destruct (Hch mf pd Hoi) as (Hp & Hwf & Hsame & Hkind).
  split; [done | done | done |]. right. exists mf, pd.
  apply (open_inv_tree W good S0 w mf pd r); try done. by apply (oi_touched _ _ _ _ _ _ Hoi).
Qed.

(** Removing a logged path that has nothing below it. *)
Lemma remove_step_inv h S0 w r t' n :
  host_wf h → step_inv S0 w → good r → covered w r → r ≠ [] → w_tree w !! (W ++ r) = Some n →
  (∀ mf pd, open_inv S0 w mf pd → ∀ c, w_tree w !! (W ++ r ++ [c]) = None) →
  t' = touch_parent h (W ++ r) (delete (W ++ r) (w_tree w)) → tree_sim t' (delete (W ++ r) (w_tree w)) →
  step_inv S0 (set_tree t' w).
Proof.
  intros Hh Hsv Hr Hcov Hne Hn Hleaf -> Hsim. apply (change_tree S0 w r); try done.
  intros mf pd Hoi. pose proof (lg_plain _ _ _ _ _ _ (oi_logged _ _ _ _ _ _ Hoi)) as Hp. split_and!.
  - rewrite Hsim. apply plain_delete; [done | done | by eapply Hleaf].
  - apply touch_parent_meta; [done|]. apply delete_meta. exact (oi_meta _ _ _ _ _ _ Hoi).
  - intros p Hpr. eapply option_sim_trans; [apply Hsim|]. rewrite lookup_delete_ne by done.
    apply option_sim_refl.
  - intros n' n0 Hn' _. assert (is_Some (delete (W ++ r) (w_tree w) !! (W ++ r))) as Hs.
    { rewrite <- (tree_sim_lookup _ _ _ Hsim), Hn'. by eexists. }
    rewrite lookup_delete_eq in Hs. by destruct Hs.
Qed.

Lemma post_create_unprotected r w t res w' :
  working_root (w_int w) = W → gitignore_filter (w_int w) = None → unprotected w = true →
  post_create no_fault (W ++ r) (set_tree t w) = (res, w') → w' = set_tree t w.
Proof.
  intros Hroot Hgit Hu. unfold post_create, mbind, stm_bind, is_active, gets.
  destruct (bool_decide _); [|by intros [= _ <-]].
  unfold record_creation, mbind, stm_bind, get. destruct (_ && _); [by intros [= _ <-]|].
  unfold lift. simpl. rewrite Hroot, strip_prefix_app. simpl. unfold is_ignored. rewrite Hgit.
  unfold unprotected in Hu. rewrite Hu. by intros [= _ <-].
Qed.

(** Creating a path and logging the creation. *)
Lemma create_step_inv h S0 w r n t res w' :
  host_wf h → step_inv S0 w → good r → is_symlink_node n = false → meta_wf (node_meta n) →
  (∀ n0, S0 !! (W ++ r) = Some n0 → is_dir_node n0 = is_dir_node n) →
  (∀ mf pd, open_inv S0 w mf pd →
     w_tree w !! (W ++ r) = None ∧ reach W (w_tree w) r ∧ t = add_node h (W ++ r) n (w_tree w)) →
  post_create no_fault (W ++ r) (set_tree t w) = (res, w') → step_inv S0 w'.
Proof.
  intros Hh Hsv Hr Hl Hwf Hkind Hinv Hpost. destruct (unprotected w) eqn:Hu.
  { apply post_create_unprotected in Hpost as ->; [by eapply step_inv_unprotected | apply Hsv..|done]. }
  destruct (sv_log _ _ _ _ Hsv) as [|(mf & pd & Hoi)]; [congruence|].
  destruct (Hinv mf pd Hoi) as (Habs & Hreach & ->).
  pose proof (lg_plain _ _ _ _ _ _ (oi_logged _ _ _ _ _ _ Hoi)) as Hp.
  pose proof (add_node_sim W h (w_tree w) r n Hp Hreach Habs) as Hsim.
  unfold post_create in Hpost.
  erewrite stm_bind_ok in Hpost by (unfold is_active, gets; simpl;
    by rewrite bool_decide_eq_true_2 by apply (sv_active _ _ _ _ Hsv)).
  destruct (tree_sim_Some _ _ (W ++ r) n (symmetry Hsim)) as (n1 & Hn1 & Hs1);
    [apply lookup_insert_eq|].
  destruct (record_creation_ok W good S0 w r (add_node h (W ++ r) n (w_tree w)) n1)
    as (w2 & Hw2 & Hsv2 & _); try done.
  - rewrite Hsim. by apply plain_insert_new.
  - apply add_node_meta; [done | exact (oi_meta _ _ _ _ _ _ Hoi) | done].
  - intros p Hpr. eapply option_sim_trans; [apply Hsim|]. rewrite lookup_insert_ne by done.
    apply option_sim_refl.
  - intros n0 Hn0. rewrite (Hkind n0 Hn0). by destruct n, n1.
  - cbv beta iota in Hpost. rewrite Hw2 in Hpost. by simplify_eq.
Qed.

Lemma step_unlink_inv h S0 w w1 r d t :
  host_wf h → step_inv S0 w → good r → pre_unlink h no_fault (W ++ r) d w = (Ok (), w1) →
  (d = true ∧ r ≠ [] ∧ remove_dir h (w_tree w1) (W ++ r) = Ok t ∨
   d = false ∧ remove_file h (w_tree w1) (W ++ r) = Ok t) →
  step_inv S0 (set_tree t w1).
Proof.
  intros Hh Hsv Hr Hpre Hrm.
  destruct (pre_unlink_post h S0 w w1 r d Hh Hsv Hr Hpre) as [Hsv1 Ht Hcov].
  destruct (unprotected w1) eqn:Hu; [by eapply step_inv_unprotected|].
  destruct (sv_log _ _ _ _ Hsv1) as [|(mf & pd & Hoi)]; [congruence|].
  pose proof (oi_logged _ _ _ _ _ _ Hoi) as L. pose proof (lg_plain _ _ _ _ _ _ L) as Hp.
  pose proof (good_clean _ (lg_good _ _ _ _ _ _ L) r Hr) as Hcl.
  destruct Hrm as [(_ & Hne & Hrm)|(_ & Hrm)].
  - destruct (remove_dir_inv W h _ r t Hp Hne Hcl Hrm) as ([m Hm] & Hleaf & Heq & Hsim).
    apply (remove_step_inv h S0 w1 r t (Dir m) Hh Hsv1 Hr); [|exact Hne | exact Hm | | exact Heq | exact Hsim].
    + apply Hcov. rewrite <- Ht, Hm. by eexists.
    + intros _ _ _. exact Hleaf.
  - destruct (remove_file_inv W h _ r t Hp Hcl Hrm) as (n & Hn & Hd & Heq & Hsim).
    apply (remove_step_inv h S0 w1 r t n Hh Hsv1 Hr); [| | exact Hn | | exact Heq | exact Hsim].
    + apply Hcov. rewrite <- Ht, Hn. by eexists.
    + intros ->. rewrite app_nil_r in Hn. destruct (pl_root _ _ Hp W) as [m Hm]; [done|]. by simplify_eq.
    + intros _ _ _ c. apply eq_None_not_Some. intros Hs.
      apply (pl_parent _ _ Hp) in Hs as [m Hm]. by simplify_eq.
Qed.

(** Every operation of a backend keeps the log complete. *)
Lemma backend_step_inv S0 w w' : backend_step S0 w w' → step_inv S0 w → step_inv S0 w'.
Proof.
  destruct 1 as [k h r w w1 n n' Hh Hr Hk Hn Hd Hl Hwf
    | h r w t res w' Hh Hr Hkind Hc Hpost | h r w t res w' Hh Hr Hkind Hc Hpost
    | h r w w1 t Hh Hr Hpre Hrm | h r w w1 t Hh Hr Hne Hpre Hrm
    | k h r w w1 Hh Hr Hk | h r d w w1 Hh Hr Hpre]; intros Hsv.
  - destruct (run_hook_post k h S0 w w1 r Hsv Hr Hk) as [Hsv1 Ht Hcov].
    apply (change_tree S0 w1 r); [done | done | apply Hcov; rewrite <- Ht, Hn; by eexists |].
    intros mf pd Hoi. pose proof (oi_logged _ _ _ _ _ _ Hoi) as L. split_and!.
    + eapply plain_update; [apply (lg_plain _ _ _ _ _ _ L) | done..].
    + apply insert_meta; [exact (oi_meta _ _ _ _ _ _ Hoi) | done].
    + intros p Hp. rewrite lookup_insert_ne by done. apply option_sim_refl.
    + intros m n0 Hm Hn0. rewrite lookup_insert_eq in Hm. simplify_eq. rewrite Hd.
      by apply (lg_kind _ _ _ _ _ _ L r).
  - apply (create_step_inv h S0 w r (File (new_meta h (h_file_perm h)) []) t res w' Hh Hsv Hr eq_refl);
      [| exact Hkind | | exact Hpost].
    + apply new_meta_wf; [done | apply (hw_file_perm _ Hh)].
    + intros mf pd Hoi. pose proof (oi_logged _ _ _ _ _ _ Hoi) as L.
      eapply (create_inv W h _ r _ (fs_create_new h)); [done | apply (lg_plain _ _ _ _ _ _ L) | | done].
      by apply (good_clean _ (lg_good _ _ _ _ _ _ L)).
  - apply (create_step_inv h S0 w r (Dir (new_meta h (h_dir_perm h))) t res w' Hh Hsv Hr eq_refl);
      [| exact Hkind | | exact Hpost].
    + apply new_meta_wf; [done | apply (hw_dir_perm _ Hh)].
    + intros mf pd Hoi. pose proof (oi_logged _ _ _ _ _ _ Hoi) as L.
      eapply (create_inv W h _ r _ (create_dir h)); [done | apply (lg_plain _ _ _ _ _ _ L) | | done].
      by apply (good_clean _ (lg_good _ _ _ _ _ _ L)).
  - apply (step_unlink_inv h S0 w w1 r false t Hh Hsv Hr Hpre). by right.
  - apply (step_unlink_inv h S0 w w1 r true t Hh Hsv Hr Hpre). by left.
  - by destruct (run_hook_post k h S0 w w1 r Hsv Hr Hk).
  - by destruct (pre_unlink_post h S0 w w1 r d Hh Hsv Hr Hpre).
Qed.

Lemma backend_steps_inv S0 w w' : rtc (backend_step S0) w w' → step_inv S0 w → step_inv S0 w'.
Proof. induction 1; [done|]. eauto using backend_step_inv. Qed.

(** ** Opening a step *)

Record start_ok (w : world) : Prop := mkStartOk {
  so_root : working_root (w_int w) = W;
  so_git : gitignore_filter (w_int w) = None;
  so_plain : plain W (w_tree w);
  so_good : good_paths good;
  so_paths : ∀ r, is_Some (w_tree w !! (W ++ r)) → good r;
  so_meta : tree_meta_wf W (w_tree w);
}.

Lemma logged_empty t pd :
  good_paths good → plain W t → (∀ r, is_Some (t !! (W ++ r)) → good r) → logged W good t t ∅ pd.
Proof.
  intros Hg Hp Hr. split; [done | done | done | done | done | | | | |].
  - intros k [e He]. by rewrite lookup_empty in He.
  - intros r e Hgr He. by rewrite lookup_empty in He.
  - intros r Hgr He. apply option_sim_refl.
  - intros r n n0 H1 H2. by simplify_eq.
  - intros p _. apply option_sim_refl.
Qed.

Lemma open_step_start h id w w1 :
  start_ok w → open_step h no_fault id w = (Ok (), w1) →
  step_inv (w_tree w) w1 ∧ unprotected w1 = false ∧ w_tree w1 = w_tree w.
Proof.
  intros [Hroot Hgit Hp Hg Hr Hm] Ho. unfold open_step in Ho.
  apply stm_bind_inv in Ho as ([] & wa & Hchk & Ho).
  assert (wa = w) as ->.
  { unfold check_undo_enabled, mbind, stm_bind, gets in Hchk.
    destruct (undo_disabled (w_int w)); [|by injection Hchk].
    destruct (version_mismatch_info (w_int w)) as [[]|]; by inversion Hchk. }
  erewrite stm_bind_ok in Ho by done.
  apply stm_bind_inv in Ho as ([] & wb & Hb & Ho).
  assert (w_tree wb = w_tree w ∧ w_int wb = w_int w) as [Hbt Hbi].
  { destruct (ud_wal (w_undo w)); by injection Hb as <-. }
  erewrite stm_bind_ok in Ho by done. erewrite stm_bind_ok in Ho by done.
  destruct (active_step _) eqn:Hact; [done|]. injection Ho as <-.
  split; [|by split]. split; [simpl; by rewrite Hbi | simpl; by rewrite Hbi | by eexists |].
  right. exists (StepManifest_new (h_clock h) id), empty_preimage_dir. split.
  - eexists. by split_and!.
  - done.
  - done.
  - intros k. unfold touched. simpl. rewrite lookup_empty, elem_of_empty.
    split; [done | by intros []].
  - intros hash [x Hx]. simpl in Hx. by rewrite lookup_empty in Hx.
  - simpl. rewrite Hbt. exact Hm.
  - simpl. rewrite Hbt. by apply logged_empty.
Qed.

(** A log without entries: nothing changed but directory times. *)
Lemma logged_nothing S0 t pd : logged W good S0 t ∅ pd → tree_sim t S0.
Proof.
  intros L p. destruct (decide (W `prefix_of` p)) as [[r ->]|Hp].
  - destruct (decide (is_Some (t !! (W ++ r)) ∨ is_Some (S0 !! (W ++ r)))) as [Hs|Hs].
    + apply (lg_unlogged _ _ _ _ _ _ L); [|apply lookup_empty].
      destruct Hs; [by apply (lg_goodt _ _ _ _ _ _ L) | by apply (lg_good0 _ _ _ _ _ _ L)].
    + destruct (t !! (W ++ r)), (S0 !! (W ++ r)); try constructor; exfalso; apply Hs; eauto.
  - by apply (lg_outside _ _ _ _ _ _ L).
Qed.

(** ** The rollback of the newest completed step *)

Lemma rollback_newest h w id rest sdc mf pd S0 :
  working_root (w_int w) = W → rev (completed_steps_ (inner (w_int w))) = id :: rest →
  ud_steps (w_undo w) !! id = Some sdc → sd_manifest sdc = Some (Json mf) →
  sm_unprotected mf = false → sd_preimages sdc = Some pd →
  logged W good S0 (w_tree w) (sm_entries mf) pd →
  ∃ res w', rollback h no_fault 1 true w = (Ok res, w') ∧
            rr_steps_rolled_back res = 1%nat ∧
            tree_sim (w_tree w') S0 ∧ (id ∉ completed_steps_ (inner (w_int w'))) ∧
            ud_steps (w_undo w') !! id = None.
Proof.
  intros Hroot Hrev Hsd Hmf Hun Hpd L. unfold rollback.
  erewrite stm_bind_ok by done. rewrite Hrev. cbn [take]. rewrite ?take_0. erewrite stm_bind_ok by done.
  assert (find_unprotected (ud_steps (w_undo w)) [id] = None) as ->.
  { unfold find_unprotected. rewrite filter_cons_False; [done|].
    rewrite Hsd. simpl. unfold manifest_read_from. rewrite Hmf. simpl. by rewrite Hun. }
  erewrite stm_bind_ok by done. rewrite andb_false_r. erewrite stm_bind_ok by done.
  destruct (rollback_step_logged h W (symlink_policy (w_int w)) good S0 (w_tree w) _ pd L sdc mf)
    as (t' & Hrb & Hsim); [done | done | done |].
  erewrite stm_bind_ok; cycle 1.
  { cbn [for_each]. erewrite stm_bind_ok; [reflexivity|]. erewrite stm_bind_ok by done. rewrite Hsd.
    erewrite stm_bind_ok; [reflexivity|]. unfold run_rollback_step, mbind, stm_bind, gets, zoom. cbn.
    rewrite Hroot, Hrb. reflexivity. }
  erewrite stm_bind_ok by done. eexists _, _. split; [reflexivity|].
  split_and!; [done | exact Hsim | |].
  - simpl. rewrite list_elem_of_filter, list_elem_of_singleton. tauto.
  - simpl. apply lookup_delete_eq.
Qed.

(** ** Rebuilding the manifest from the preimages *)

Definition rebuild_entry (d : preimage_dir) (acc : outcome CodeAgentError StepManifest) (hash : string) :=
  manifest ← acc;
  match pd_meta d !! hash with
  | Some (Json m) =>
      Ok (add_entry (pm_relative_path m) hash (pm_existed_before m)
            (file_type_as_str (pm_file_type m)) manifest)
  | Some Corrupt => Ok manifest
  | Some (Unreadable e) => Err (CaIo e)
  | None => Ok manifest
  end.

(** A preimage file that agrees with the manifest [es]. *)
Definition indexed (d : preimage_dir) (es : gmap string ManifestEntry) (hash : string) : Prop :=
  ∃ m, pd_meta d !! hash = Some (Json m) ∧
    es !! pm_relative_path m
    = Some (mkEntry (pm_existed_before m) hash (file_type_as_str (pm_file_type m))).

Lemma rebuild_fold d es l acc :
  Forall (indexed d es) l → sm_entries acc ⊆ es →
  ∃ mf, foldl (rebuild_entry d) (Ok acc) l = Ok mf ∧ sm_entries mf ⊆ es ∧
        sm_entries acc ⊆ sm_entries mf ∧
        ∀ hash m, hash ∈ l → pd_meta d !! hash = Some (Json m) →
                  is_Some (sm_entries mf !! pm_relative_path m).
Proof.
  intros Hl. revert acc. induction Hl as [|hash l (m & Hm & He) Hl IH]; intros acc Hacc.
  - exists acc. split_and!; [done | done | done |]. intros hash m H. by apply elem_of_nil in H.
  - cbn [foldl]. unfold rebuild_entry at 2. simpl. rewrite Hm.
    set (acc' := add_entry _ _ _ _ acc).
    assert (sm_entries acc' ⊆ es) as Hacc' by by apply insert_subseteq_l.
    destruct (IH acc' Hacc') as (mf & Hf & Hsub & Hmono & Hin).
    assert (sm_entries acc ⊆ sm_entries acc') as Hstep.
    { apply map_subseteq_spec. intros k e Hk. simpl. destruct (decide (k = pm_relative_path m)) as [->|Hne].
      - rewrite lookup_insert_eq. rewrite <- He. by eapply lookup_weaken.
      - by rewrite lookup_insert_ne. }
    exists mf. split_and!; [done | done | by etrans |].
    intros hash' m' [->|Hin']%elem_of_cons Hm'; [|by eapply Hin].
    rewrite Hm in Hm'. simplify_eq. eapply lookup_weaken_is_Some; [|exact Hmono].
    simpl. rewrite lookup_insert_eq. by eexists.
Qed.

Lemma rebuild_ok h S0 w mf pd :
  host_wf h → open_inv S0 w mf pd →
  ∃ mf', rebuild_manifest_from_preimages h (Some pd) = Ok mf' ∧ sm_entries mf' = sm_entries mf.
Proof.
  intros Hh Hoi. pose proof (oi_logged _ _ _ _ _ _ Hoi) as L.
  assert (∀ r e, good r → sm_entries mf !! key r = Some e →
    ∃ m, pd_meta pd !! path_hash r = Some (Json m) ∧ pm_relative_path m = key r ∧
         e = mkEntry (pm_existed_before m) (path_hash r) (file_type_as_str (pm_file_type m))) as Hent.
  { intros r e Hr He. destruct (lg_entry _ _ _ _ _ _ L r e Hr He) as (Hh' & m & Hm & Hrel & Hex & Hft & _).
    exists m. split_and!; [done | done |]. destruct e; simpl in *. by subst. }
  destruct (rebuild_fold pd (sm_entries mf) (h_order h (elements (dom (pd_meta pd))))
    (StepManifest_new (h_clock h) 0)) as (mf' & Hf & Hsub & _ & Hall).
  - apply Forall_forall. intros hash Hin. rewrite (hw_order _ Hh), elem_of_elements, elem_of_dom in Hin.
    destruct (oi_index _ _ _ _ _ _ Hoi hash Hin) as (r & Hr & -> & [e He]).
    destruct (Hent r e Hr He) as (m & Hm & Hrel & ->). exists m. by rewrite Hrel.
  - simpl. apply map_empty_subseteq.
  - exists mf'. split; [exact Hf|]. apply (anti_symm (⊆)); [done|].
    apply map_subseteq_spec. intros k e He.
    destruct (lg_keys _ _ _ _ _ _ L k ltac:(by eexists)) as (r & Hr & ->).
    destruct (Hent r e Hr He) as (m & Hm & Hrel & _).
    destruct (Hall (path_hash r) m) as [e' He']; [|done|].
    + rewrite (hw_order _ Hh), elem_of_elements, elem_of_dom. by eexists.
    + rewrite Hrel in He'. rewrite He', <- He. symmetry. by eapply lookup_weaken.
Qed.

Lemma build_keeps_wal gi config d :
  ud_wal (build no_fault gi W config d).2 = ud_wal d.
Proof.
  unfold build. simpl. destruct (bool_decide _).
  - by destruct (ud_version d).
  - unfold migrate_global_barriers. destruct (ud_version d); simpl; by destruct (ud_legacy_barriers d).
Qed.

Lemma recover_ok h S0 w mf pd gi config :
  host_wf h → open_inv S0 w mf pd →
  ∃ info w', recover h no_fault (mkWorld (w_tree w) (build no_fault gi W config (w_undo w)).2
                                 (build no_fault gi W config (w_undo w)).1) = (Ok (Some info), w') ∧
    tree_sim (w_tree w') S0 ∧ ud_wal (w_undo w') = None.
Proof.
  intros Hh Hoi. pose proof (oi_logged _ _ _ _ _ _ Hoi) as L.
  destruct (oi_wal _ _ _ _ _ _ Hoi) as (sd & Hsd & Hm & Hpd).
  unfold recover. erewrite stm_bind_ok by done. cbn [w_undo]. rewrite build_keeps_wal, Hsd.
  rewrite Hpd, Hm, (bool_decide_eq_false_2 (is_Some None)) by (by intros []).
  destruct (preimage_dir_nonempty (Some pd)) eqn:Hne; cbn [negb andb]; cycle 1.
  - eexists _, _. split; [reflexivity|]. split; [|done]. simpl.
    apply (logged_nothing _ _ pd). destruct (decide (sm_entries mf = ∅)) as [<-|Hnz]; [done|].
    apply map_choose in Hnz as (k & e & He).
    destruct (lg_keys _ _ _ _ _ _ L k ltac:(by eexists)) as (r & Hr & ->).
    destruct (lg_entry _ _ _ _ _ _ L r e Hr He) as (_ & m & Hmm & _).
    unfold preimage_dir_nonempty in Hne. apply negb_false_iff, bool_decide_eq_true in Hne as (E & _).
    rewrite E, lookup_empty in Hmm. done.
  - destruct (rebuild_ok h S0 w mf pd Hh Hoi) as (mf' & Hrb & Hes).
    erewrite stm_bind_ok by (erewrite stm_bind_ok by (unfold lift; by rewrite Hrb); reflexivity).
    cbv beta iota. case_bool_decide as Hempty.
    + erewrite stm_bind_ok by done. eexists _, _. split; [reflexivity|]. split; [|done]. simpl.
      apply (logged_nothing _ _ pd). by rewrite <- Hempty, Hes.
    + set (sd1 := mkStepFiles (Some (Json mf')) (sd_preimages sd) (sd_barriers sd)).
      destruct (rollback_step_logged h W (uc_symlink_policy config) good S0 (w_tree w) _ pd L sd1 mf')
        as (t' & Hstep & Hsim); [done | done | done |].
      erewrite stm_bind_ok; cycle 1.
      { erewrite stm_bind_ok; cycle 1.
        { unfold write_wal_manifest. erewrite stm_bind_ok by done. cbn [w_undo].
          rewrite build_keeps_wal, Hsd. reflexivity. }
        erewrite stm_bind_ok by done. unfold run_rollback_step, mbind, stm_bind, gets, zoom.
        cbn [ud_wal set_wal on_undo w_undo w_int w_tree fst snd]. fold sd1.
        change (rollback_step h (working_root _) (symlink_policy _) sd1 (w_tree w))
          with (rollback_step h W (uc_symlink_policy config) sd1 (w_tree w)).
        rewrite Hstep. reflexivity. }
      eexists _, _. split; [reflexivity|]. by split.
Qed.

(** ** Denied operations *)

Lemma check_denied h S0 w w1 f res w' :
  captured W good S0 w w1 → unprotected w = false →
  max_single_step_size_bytes (resource_limits (w_int w)) = None →
  (event ← with_tracker f; handle_safeguard_event h no_fault event) w1 = (res, w') → res ≠ Ok () →
  (∃ id step, res = Err (SafeguardDenied id step)) ∧ tree_sim (w_tree w') S0 ∧
  active_step (inner (w_int w')) = None.
Proof.
  intros [Hsv _ _ Hun] Hu Hlim Hchk Hres.
  destruct (safeguard_ok W good h S0 w1 f Hsv) as [(w2 & Hw2 & _)|(res2 & w2 & Hw2 & _ & H)];
    rewrite Hw2 in Hchk; simplify_eq. apply H. by rewrite Hun.
Qed.

Lemma pre_write_denied h S0 w r res w' :
  step_inv S0 w → good r → unprotected w = false →
  max_single_step_size_bytes (resource_limits (w_int w)) = None →
  pre_write h no_fault (W ++ r) w = (res, w') → res ≠ Ok () →
  (∃ id step, res = Err (SafeguardDenied id step)) ∧ tree_sim (w_tree w') S0 ∧
  active_step (inner (w_int w')) = None.
Proof.
  intros Hsv Hr Hu Hlim Hpre Hres. unfold pre_write in Hpre.
  destruct (sv_active _ _ _ _ Hsv) as [id Hact].
  erewrite stm_bind_ok in Hpre by done. rewrite Hact in Hpre. erewrite stm_bind_ok in Hpre by done.
  destruct (ensure_preimage_captured W good h S0 w r Hsv Hr) as (b & w1 & He & Hcap & _).
  rewrite (stm_bind_ok _ _ _ _ _ He) in Hpre. destruct (metadata (w_tree w) (W ++ r)).
  - by eapply check_denied.
  - by injection Hpre as <- _.
  - by injection Hpre as <- _.
Qed.

Lemma pre_unlink_denied h S0 w r d res w' :
  host_wf h → step_inv S0 w → good r → unprotected w = false →
  max_single_step_size_bytes (resource_limits (w_int w)) = None →
  pre_unlink h no_fault (W ++ r) d w = (res, w') → res ≠ Ok () →
  (∃ id step, res = Err (SafeguardDenied id step)) ∧ tree_sim (w_tree w') S0 ∧
  active_step (inner (w_int w')) = None.
Proof.
  intros Hh Hsv Hr Hu Hlim Hpre Hres. unfold pre_unlink in Hpre.
  destruct (sv_active _ _ _ _ Hsv) as [id Hact].
  erewrite stm_bind_ok in Hpre by done. rewrite Hact in Hpre.
  destruct (ensure_preimage_captured W good h S0 w r Hsv Hr) as (b & w1 & He & Hcap & _).
  rewrite (stm_bind_ok _ _ _ _ _ He) in Hpre.
  assert (∃ w2, (if d then capture_tree_preimages h no_fault (W ++ r) else mret ()) w1 = (Ok (), w2) ∧
                captured W good S0 w w2) as (w2 & Hd & Hcap2).
  { destruct d; [|by exists w1]. unfold capture_tree_preimages. erewrite stm_bind_ok by done.
    assert (unprotected w1 = false) as Hu1 by by rewrite (ca_unprot _ _ _ _ _ Hcap).
    destruct (sv_log _ _ _ _ (ca_inv _ _ _ _ _ Hcap)) as [|(mf & pd & Hoi)]; [congruence|].
    pose proof (oi_logged _ _ _ _ _ _ Hoi) as L.
    destruct (capture_tree_ok W good h S0 (w_tree w1) Hh (lg_plain _ _ _ _ _ _ L)
      (lg_goodt _ _ _ _ _ _ L) (capture_fuel (w_tree w1)) r w1)
      as (w2 & Hw2 & Hcap2 & _); [done | apply (ca_inv _ _ _ _ _ Hcap) | | |].
    - by apply (good_clean _ (lg_good _ _ _ _ _ _ L)).
    - unfold capture_fuel. lia.
    - exists w2. split; [done|]. by eapply captured_trans. }
  rewrite (stm_bind_ok _ _ _ _ _ Hd) in Hpre. erewrite stm_bind_ok in Hpre by done.
  by eapply check_denied.
Qed.

(** ** Removing a directory logs everything below it *)

Lemma pre_unlink_covers h S0 w w' r k :
  host_wf h → step_inv S0 w → good r → pre_unlink h no_fault (W ++ r) true w = (Ok (), w') →
  is_Some (w_tree w !! (W ++ r ++ k)) → covered w' (r ++ k).
Proof.
  intros Hh Hsv Hr Hpre Hs. destruct (pre_unlink_post h S0 w w' r true Hh Hsv Hr Hpre) as [_ _ Hcov].
  unfold pre_unlink in Hpre. destruct (sv_active _ _ _ _ Hsv) as [id Hact].
  erewrite stm_bind_ok in Hpre by done. rewrite Hact in Hpre.
  destruct (ensure_preimage_captured W good h S0 w r Hsv Hr) as (b & w1 & He & Hcap & _).
  rewrite (stm_bind_ok _ _ _ _ _ He) in Hpre.
  apply stm_bind_inv in Hpre as ([] & w2 & Hd & Hrest). erewrite stm_bind_ok in Hrest by done.
  assert (covered w2 (r ++ k) → covered w' (r ++ k)) as Hfinal.
  { pose proof (capture_tree_keeps W good h S0 w1 w2 r Hh (ca_inv _ _ _ _ _ Hcap) Hr Hd) as Hcap2.
    destruct (safeguard_ok W good h S0 w2
      (check_delete (relative_path_str (w_int w2) (W ++ r)) id) (ca_inv _ _ _ _ _ Hcap2))
      as [(w3 & Hw3 & _ & Hl)|(res & w3 & Hw3 & Hres & _)];
      rewrite Hw3 in Hrest; simplify_eq. by apply covered_later. }
  destruct (decide (k = [])) as [->|Hk]; [rewrite app_nil_r in Hs |- *; auto|].
  apply Hfinal. destruct (unprotected w1) eqn:Hu.
  { pose proof (ca_inv _ _ _ _ _ Hcap) as [Hroot Hgit _ _]. unfold capture_tree_preimages in Hd.
    erewrite stm_bind_ok in Hd by done.
    pose proof (capture_tree_unprotected W h (capture_fuel (w_tree w1)) r w1 Hroot Hgit Hu) as Hsame.
    rewrite Hd in Hsame. simpl in Hsame. subst w2. by left. }
  destruct (sv_log _ _ _ _ (ca_inv _ _ _ _ _ Hcap)) as [|(mf & pd & Hoi)]; [congruence|].
  pose proof (oi_logged _ _ _ _ _ _ Hoi) as L. unfold capture_tree_preimages in Hd.
  erewrite stm_bind_ok in Hd by done.
  destruct (capture_tree_ok W good h S0 (w_tree w1) Hh (lg_plain _ _ _ _ _ _ L)
    (lg_goodt _ _ _ _ _ _ L) (capture_fuel (w_tree w1)) r w1)
    as (w3 & Hw3 & _ & Hbelow); [done | apply (ca_inv _ _ _ _ _ Hcap) | | |].
  - by apply (good_clean _ (lg_good _ _ _ _ _ _ L)).
  - unfold capture_fuel. lia.
  - rewrite Hd in Hw3. simplify_eq. apply Hbelow; [done|].
    by rewrite (lt_tree _ _ (ca_later _ _ _ _ _ Hcap)).
Qed.

End correct.
