(* ===== verification/UndoTheorems.v ===== *)
(** * The guarantees of the undo log

    The theorems a user of the undo log relies on, and a concrete instance of
    the third-party crates at which they are applied. *)

From Stdlib Require Import Ascii.
From stdpp Require Import base gmap strings list fin_maps sorting relations.
From S2P Require Import Prelude HostFs HostFacts Common Safeguard UndoLog UndoInterceptor UndoEvict UndoFacts UndoCapture UndoSteps UndoCorrect.
#[local] Open Scope Z_scope.

(** ** A concrete instance of the crates

    An identity "hash" and "compression", and the documented effect of the
    metadata calls. *)

Definition with_node (ns : tree) (follow : bool) (p : path) (f : node → node) : io tree :=
  '(q, n) ← lookup_node ns follow p; Ok (<[q := f n]> ns).

#[export] Instance concrete_crates : ThirdParty := {|
  blake3_hex := string_of_bytes;
  zstd_encode_all c := Ok c;
  zstd_decode_all c := Ok c;
  set_file_mtime ns p secs nanos :=
    if bool_decide (0 ≤ nanos < 1000000000)
    then with_node ns true p (with_meta (set_mtime (secs * 1000000000 + nanos)))
    else err InvalidInput;
  xattr_list ns p := (λ '(q, n), elements (dom (m_xattrs (node_meta n)))) <$> lookup_node ns false p;
  xattr_get ns p k := (λ '(q, n), m_xattrs (node_meta n) !! k) <$> lookup_node ns false p;
  xattr_set ns p k v :=
    with_node ns false p (with_meta (λ m, set_xattrs (<[k := v]> (m_xattrs m)) m));
  xattr_remove ns p k :=
    '(q, n) ← lookup_node ns false p;
    if bool_decide (is_Some (m_xattrs (node_meta n) !! k))
    then Ok (<[q := with_meta (λ m, set_xattrs (delete k (m_xattrs m)) m) n]> ns)
    else err NotFound;
|}.

#[export] Instance concrete_crates_laws : ThirdPartyLaws concrete_crates.
Proof.
  split; simpl.
  - eauto.
  - intros ns p q n secs nanos Hl Hn. rewrite bool_decide_eq_true_2 by done.
    unfold with_node. by rewrite Hl.
  - intros ns p q n ->. simpl. eexists. split; [done|]. split; [apply NoDup_elements|].
    intros k. by rewrite elem_of_elements, elem_of_dom.
  - by intros ns p q n k ->.
  - intros ns p q n k v Hl. unfold with_node. by rewrite Hl.
  - intros ns p q n k -> Hk. simpl. by rewrite bool_decide_eq_true_2.
Qed.

#[export] Instance concrete_lens : JsonLen := {|
  manifest_len _ := 100; barriers_len _ := 50; meta_len _ := 80; tmp_len _ := 10;
|}.

#[export] Instance concrete_lens_laws : JsonLenLaws concrete_lens.
Proof. by split. Qed.

Lemma clean_good_paths : good_paths clean.
Proof.
  split; [done|]. intros r r' Hr Hr'. unfold path_hash. simpl.
  rewrite !string_of_bytes_of_string. by apply key_inj.
Qed.

(** ** Deciding that a concrete tree is plain *)

Definition below_ok (W : path) (t : tree) (kv : path * node) : bool :=
  match strip_prefix W kv.1 with
  | None => true
  | Some r =>
      forallb name_ok r && negb (is_symlink_node kv.2) &&
      bool_decide (0 ≤ m_perm (node_meta kv.2) < 2 ^ 12 ∧
                   0 ≤ m_mtime (node_meta kv.2) < 2 ^ 63 * 1000000000) &&
      match r with
      | [] => true
      | _ => match t !! (W ++ removelast r) with Some (Dir _) => true | _ => false end
      end
  end.

Definition plain_check (W : path) (t : tree) : bool :=
  forallb (λ c, bool_decide (c ≠ "..")) W &&
  forallb (λ i, match t !! take i W with Some (Dir _) => true | _ => false end)
    (seq 0 (S (length W))) &&
  forallb (below_ok W t) (map_to_list t).

Lemma plain_check_ok W t : plain_check W t = true → plain W t ∧ tree_meta_wf W t.
Proof.
  unfold plain_check. rewrite !andb_true_iff, !forallb_forall. intros [[HW Hroot] Hall].
  assert (∀ r n, t !! (W ++ r) = Some n → below_ok W t (W ++ r, n) = true) as Hb.
  { intros r n Hn. apply Hall. apply list_elem_of_In. by apply elem_of_map_to_list. }
  unfold below_ok in Hb. simpl in Hb.
  assert (∀ r n, t !! (W ++ r) = Some n → clean r ∧ is_symlink_node n = false ∧ meta_wf (node_meta n) ∧
            (∀ r' c, r = r' ++ [c] → dir_at t (W ++ r'))) as Hspec.
  { intros r n Hn. specialize (Hb r n Hn). rewrite strip_prefix_app, !andb_true_iff in Hb.
    destruct Hb as [[[Hc Hl] Hm] Hp]. split_and!.
    - apply Forall_forall. intros x Hx. rewrite forallb_forall in Hc. apply Hc. by apply list_elem_of_In.
    - by apply negb_true_iff.
    - by apply bool_decide_eq_true in Hm.
    - intros r' c ->. destruct (r' ++ [c]) as [|x l] eqn:E; [by destruct r'|].
      rewrite <- E, removelast_last in Hp. destruct (t !! (W ++ r')) as [[]|] eqn:E'; try done.
      by eexists. }
  split; [split|].
  - apply Forall_forall. intros c Hc. specialize (HW c). rewrite <- list_elem_of_In in HW.
    apply HW, bool_decide_eq_true in Hc. done.
  - intros q [k Hk]. specialize (Hroot (length q)). rewrite in_seq in Hroot.
    assert (take (length q) W = q) as Ht by (rewrite Hk; apply take_app_length).
    rewrite Ht in Hroot. assert (length q ≤ length W)%nat by (rewrite Hk, length_app; lia).
    specialize (Hroot ltac:(lia)). destruct (t !! q) as [[]|] eqn:E; try done. by eexists.
  - intros r c [n Hn]. destruct (Hspec _ n Hn) as (_ & _ & _ & H). by eapply H.
  - intros r [n Hn]. by destruct (Hspec _ n Hn).
  - intros r n Hn. by destruct (Hspec _ n Hn) as (_ & ? & _).
  - intros r n Hn. by destruct (Hspec _ n Hn) as (_ & _ & ? & _).
Qed.

(** ** A sample session

    A working tree [/w] with a file [a] and a directory [d] holding [f]; a
    step that overwrites [a], creates [b], removes [d/f] and [d], and makes a
    directory [e]. *)

Definition sample_host : host := mkHost 5000 420 493 (λ _, 4096) (λ l, l).

Definition sample_W : path := ["w"].
Definition sample_meta (perm : Z) : meta := mkMeta perm 1000 ∅.
Definition sample_tree : tree :=
  list_to_map [([], Dir (sample_meta 493)); (["w"], Dir (sample_meta 493));
               (["w"; "a"], File (sample_meta 420) [104; 105]);
               (["w"; "d"], Dir (sample_meta 448));
               (["w"; "d"; "f"], File (mkMeta 256 1500 {["user.tag" := [1; 2]]}) [7]);
               (["etc"], File (sample_meta 420) [1])].

Definition sample_config (sg : SafeguardConfig) (handler : option (SafeguardEvent → SafeguardDecision))
    (limits : ResourceLimitsConfig) : UndoConfig :=
  mkUndoConfig PolicyBarrier sg handler limits SymlinkIgnore false.
Definition no_safeguards : SafeguardConfig := mkSafeguardConfig None None false.
Definition no_limits : ResourceLimitsConfig := mkResourceLimits None None None.
Definition empty_undo_dir : undo_dir := mkUndoDir None None ∅ None.

Definition start_world (config : UndoConfig) : world :=
  let '(u, d) := build no_fault (λ _, None) sample_W config empty_undo_dir in
  mkWorld sample_tree d u.

Definition get_tree (r : io tree) : tree := match r with Ok t => t | _ => ∅ end.
Definition exec {A} (m : WorldM A) (w : world) : world := (m w).2.

Definition sample_w0 : world := start_world (sample_config no_safeguards None no_limits).
Definition sample_w1 : world := exec (open_step sample_host no_fault 7) sample_w0.
Definition write_a (w : world) : world :=
  let w1 := exec (pre_write sample_host no_fault (sample_W ++ ["a"])) w in
  set_tree (<[sample_W ++ ["a"] := File (mkMeta 420 5000 ∅) [1; 2; 3]]> (w_tree w1)) w1.
Definition create_b (w : world) : world :=
  exec (post_create no_fault (sample_W ++ ["b"]))
    (set_tree (get_tree (fs_create_new sample_host (w_tree w) (sample_W ++ ["b"]))) w).
Definition remove_node (is_dir : bool) (r : path) (w : world) : world :=
  let w1 := exec (pre_unlink sample_host no_fault (sample_W ++ r) is_dir) w in
  set_tree (get_tree ((if is_dir then remove_dir else remove_file) sample_host (w_tree w1)
                        (sample_W ++ r))) w1.
Definition make_e (w : world) : world :=
  exec (post_mkdir no_fault (sample_W ++ ["e"]))
    (set_tree (get_tree (create_dir sample_host (w_tree w) (sample_W ++ ["e"]))) w).

Definition sample_w2 : world :=
  make_e (remove_node true ["d"] (remove_node false ["d"; "f"] (create_b (write_a sample_w1)))).

Lemma exec_ok {A} (m : WorldM A) w a : (m w).1 = Ok a → m w = (Ok a, exec m w).
Proof. unfold exec. intros <-. apply surjective_pairing. Qed.

Lemma get_tree_ok (r : io tree) : is_ok r = true → r = Ok (get_tree r).
Proof. by destruct r. Qed.

Lemma sample_host_wf : host_wf sample_host.
Proof. by split. Qed.

Lemma clean_check r : forallb name_ok r = true → clean r.
Proof.
  rewrite forallb_forall. intros H. apply Forall_forall. intros c Hc. by apply H, list_elem_of_In.
Qed.

Lemma start_world_ok config : uc_gitignore config = false → start_ok sample_W clean (start_world config).
Proof.
  intros Hgit. destruct (plain_check_ok sample_W sample_tree) as [Hp Hm]; [by vm_compute|].
  split; try done.
  - simpl. by rewrite Hgit.
  - apply clean_good_paths.
  - apply (pl_clean _ _ Hp).
Qed.

Lemma sample_steps S0 : S0 = sample_tree → rtc (backend_step sample_W clean S0) sample_w1 sample_w2.
Proof.
  intros ->. unfold sample_w2.
  apply rtc_l with (write_a sample_w1); [|apply rtc_l with (create_b (write_a sample_w1));
    [|apply rtc_l with (remove_node false ["d"; "f"] (create_b (write_a sample_w1)));
      [|apply rtc_l with (remove_node true ["d"] (remove_node false ["d"; "f"] (create_b (write_a sample_w1))));
        [|apply rtc_once]]]].
  - eapply (bs_update _ _ _ HWrite sample_host ["a"]);
      [exact sample_host_wf | by apply clean_check | apply exec_ok; by vm_compute | by vm_compute | done | done |].
    split; simpl; lia.
  - eapply (bs_create _ _ _ sample_host ["b"]);
      [exact sample_host_wf | by apply clean_check | | apply get_tree_ok; by vm_compute
       | apply surjective_pairing].
    intros n0 Hn0. exfalso. revert Hn0. by vm_compute.
  - eapply (bs_unlink _ _ _ sample_host ["d"; "f"]);
      [exact sample_host_wf | by apply clean_check | apply exec_ok; by vm_compute
       | apply get_tree_ok; by vm_compute].
  - eapply (bs_rmdir _ _ _ sample_host ["d"]);
      [exact sample_host_wf | by apply clean_check | done | apply exec_ok; by vm_compute
       | apply get_tree_ok; by vm_compute].
  - eapply (bs_mkdir _ _ _ sample_host ["e"]);
      [exact sample_host_wf | by apply clean_check | | apply get_tree_ok; by vm_compute
       | apply surjective_pairing].
    intros n0 Hn0. exfalso. revert Hn0. by vm_compute.
Qed.

(** ** Undo *)



(** Closing a step whose log is complete, and rolling it back. *)
Lemma close_then_rollback `{TP : ThirdParty} `{!ThirdPartyLaws TP} `{JL : JsonLen} `{!JsonLenLaws JL}
    W good h' id S0 w2 :
  step_inv W good S0 w2 → unprotected w2 = false → touched w2 ≠ ∅ →
  NoDup (completed_steps_ (inner (w_int w2)) ++ [next_step_id (w_int w2)]) →
  limits_wf (resource_limits (w_int w2)) →
  ∃ evicted w3, close_step no_fault id w2 = (Ok evicted, w3) ∧ w_tree w3 = w_tree w2 ∧
    (max_step_count (resource_limits (w_int w2)) = None →
     max_log_size_bytes (resource_limits (w_int w2)) = None → evicted = []) ∧
    (next_step_id (w_int w2) ∉ evicted →
     ∃ res w4, rollback h' no_fault 1 true w3 = (Ok res, w4) ∧
       tree_sim (w_tree w4) S0 ∧
       (next_step_id (w_int w2) ∉ completed_steps_ (inner (w_int w4)))).
Proof.
  intros Hsv Hu Hne Hnd Hwf.
  destruct (sv_log _ _ _ _ Hsv) as [|(mf & pd & Hoi)]; [congruence|].
  destruct (oi_wal _ _ _ _ _ _ Hoi) as (sd & Hsd & Hm & Hpd).
  destruct (close_step_ok id w2 sd mf) as (k & w3 & Hc & Hcl); try done.
  - apply (sv_active _ _ _ _ Hsv).
  - apply (oi_manifest _ _ _ _ _ _ Hoi).
  - intros He. apply Hne. apply set_eq. intros x. rewrite (oi_touched _ _ _ _ _ _ Hoi), He, lookup_empty.
    split; [by intros [] | set_solver].
  - eexists _, w3. split; [exact Hc|]. split; [apply (cs_tree _ _ _ _ _ Hcl)|].
    split; [apply (cs_unlimited _ _ _ _ _ Hcl)|]. intros Hnot.
    destruct (rollback_newest W good h' w3 (next_step_id (w_int w2))
      (rev (drop k (completed_steps_ (inner (w_int w2)))))
      (mkStepFiles (Some (Json (closed_manifest w2 mf))) (sd_preimages sd) (sd_barriers sd))
      (closed_manifest w2 mf) pd S0) as (res & w4 & Hrb & _ & Hsim & Hgone & _).
    + rewrite (proj1 (cs_config _ _ _ _ _ Hcl)). apply (sv_root _ _ _ _ Hsv).
    + rewrite (cs_completed _ _ _ _ _ Hcl). rewrite drop_app_le, rev_app_distr; [done|].
      destruct (decide (k ≤ length (completed_steps_ (inner (w_int w2))))%nat) as [|Hk]; [done|].
      exfalso. apply Hnot. rewrite take_ge; [set_solver|]. rewrite length_app. simpl. lia.
    + apply (cs_step _ _ _ _ _ Hcl Hnot).
    + done.
    + simpl. unfold unprotected in Hu. by rewrite Hu, (oi_unprot _ _ _ _ _ _ Hoi).
    + done.
    + rewrite (cs_tree _ _ _ _ _ Hcl). apply (oi_logged _ _ _ _ _ _ Hoi).
    + exists res, w4. by split_and!.
Qed.






(** A step in which the first delete is denied. *)
Definition deny_config : UndoConfig :=
  sample_config (mkSafeguardConfig (Some 1) None false) (Some (λ _, Deny)) no_limits.
Definition deny_w0 : world := start_world deny_config.
Definition deny_w1 : world := exec (open_step sample_host no_fault 7) deny_w0.
Definition deny_w2 : world := create_b (write_a deny_w1).

Lemma deny_steps S0 : S0 = sample_tree → rtc (backend_step sample_W clean S0) deny_w1 deny_w2.
Proof.
  intros ->. apply rtc_l with (write_a deny_w1); [|apply rtc_once].
  - eapply (bs_update _ _ _ HWrite sample_host ["a"]);
      [exact sample_host_wf | by apply clean_check | apply exec_ok; by vm_compute | by vm_compute | done | done |].
    split; simpl; lia.
  - eapply (bs_create _ _ _ sample_host ["b"]);
      [exact sample_host_wf | by apply clean_check | | apply get_tree_ok; by vm_compute
       | apply surjective_pairing].
    intros n0 Hn0. exfalso. revert Hn0. by vm_compute.
Qed.


(** Removing a directory tree is fully logged: once [pre_unlink] has let the
    removal of a directory proceed, every path that exists at or below it is in
    the log (or the step has been declared unprotected). *)
Theorem pre_unlink_logs_subtree `{TP : ThirdParty} `{!ThirdPartyLaws TP} W good h h' id w0 w1 w2 w3 r k :
  start_ok W good w0 → open_step h no_fault id w0 = (Ok (), w1) →
  rtc (backend_step W good (w_tree w0)) w1 w2 → host_wf h' → good r →
  pre_unlink h' no_fault (W ++ r) true w2 = (Ok (), w3) →
  is_Some (w_tree w2 !! (W ++ r ++ k)) → covered w3 (r ++ k).
Proof.
  intros Hs Ho Hsteps Hh Hr Hpre Hk. destruct (open_step_start W good h id w0 w1 Hs Ho) as [Hsv _].
  apply (backend_steps_inv W good _ _ _ Hsteps) in Hsv. by eapply pre_unlink_covers.
Qed.

Lemma pre_unlink_logs_subtree_witness :
  let w3 := exec (pre_unlink sample_host no_fault (sample_W ++ ["d"]) true) sample_w1 in
  covered w3 (["d"] ++ ["f"]).
Proof.
  refine (pre_unlink_logs_subtree sample_W clean sample_host sample_host 7 sample_w0 sample_w1 sample_w1
    _ ["d"] ["f"] _ _ _ _ _ _ _).
  - by apply start_world_ok.
  - apply exec_ok. by vm_compute.
  - apply rtc_refl.
  - exact sample_host_wf.
  - by apply clean_check.
  - apply exec_ok. by vm_compute.
  - apply (bool_decide_unpack _). by vm_compute.
Defined.

(** C25. Closing a step that touched files assigns it the next identifier and
    evicts only the oldest steps; afterwards the history respects both the
    step-count and the log-size limit, the evicted step directories are gone
    from the in-memory history, and the identifier counter has advanced. *)
Theorem close_step_within_limits `{JL : JsonLen} `{!JsonLenLaws JL} id w sd mf :
  ud_wal (w_undo w) = Some sd → is_Some (active_step (inner (w_int w))) →
  current_manifest (inner (w_int w)) = Some mf → sm_entries mf ≠ ∅ →
  NoDup (completed_steps_ (inner (w_int w)) ++ [next_step_id (w_int w)]) →
  limits_wf (resource_limits (w_int w)) →
  let history := completed_steps_ (inner (w_int w)) ++ [next_step_id (w_int w)] in
  ∃ k w', close_step no_fault id w = (Ok (take k history), w') ∧
    completed_steps_ (inner (w_int w')) = drop k history ∧
    (∀ c, max_step_count (resource_limits (w_int w)) = Some c → (length (drop k history) ≤ c)%nat) ∧
    (∀ s, max_log_size_bytes (resource_limits (w_int w)) = Some s →
          calculate_total_log_size (ud_steps (w_undo w')) (drop k history) ≤ s) ∧
    next_step_id (w_int w') = next_step_id (w_int w) + 1.
Proof.
  intros Hsd Hact Hmf Hne Hnd Hwf history.
  destruct (close_step_ok id w sd mf Hsd Hact Hmf Hne Hnd Hwf) as (k & w' & Hc & Hcl).
  exists k, w'. destruct Hcl as [_ _ Hcomp Hnext _ _ _ [H1 H2]]. by split_and!.
Qed.

(** A history of three steps with room for two. *)
Definition limited_world : world :=
  let w := start_world (sample_config no_safeguards None (mkResourceLimits (Some 1000) (Some 2%nat) None)) in
  let step w := exec (close_step no_fault 7) (write_a (exec (open_step sample_host no_fault 7) w)) in
  write_a (exec (open_step sample_host no_fault 7) (step (step w))).

Lemma close_step_within_limits_witness :
  ∃ k w', close_step no_fault 7 limited_world = (Ok (take k [1; 2; 3]), w') ∧
    completed_steps_ (inner (w_int w')) = drop k [1; 2; 3] ∧ (length (drop k [1; 2; 3]%Z) ≤ 2)%nat.
Proof.
  destruct (ud_wal (w_undo limited_world)) as [sd|] eqn:Hsd; [|by vm_compute in Hsd].
  destruct (current_manifest (inner (w_int limited_world))) as [mf|] eqn:Hmf; [|by vm_compute in Hmf].
  assert (completed_steps_ (inner (w_int limited_world)) ++ [next_step_id (w_int limited_world)]
          = [1; 2; 3]) as Hh by by vm_compute.
  destruct (close_step_within_limits 7 limited_world sd mf) as (k & w' & H1 & H2 & H3 & _).
  - exact Hsd.
  - apply (bool_decide_unpack _). by vm_compute.
  - exact Hmf.
  - intros He.
    assert (match current_manifest (inner (w_int limited_world)) with
            | Some m => bool_decide (sm_entries m = ∅) | None => true end = false) as H' by by vm_compute.
    rewrite Hmf, He in H'. discriminate H'.
  - rewrite Hh. apply (bool_decide_unpack _). by vm_compute.
  - intros s Hs. vm_compute in Hs. injection Hs as <-. lia.
  - rewrite Hh in H1, H2, H3. exists k, w'. split; [exact H1|]. split; [exact H2|].
    apply H3. by vm_compute.
Defined.
