(* ===== verification/UndoLife.v ===== *)
(** * The life cycle of steps

    Step identifiers stay distinct and increasing over the whole life of an
    interceptor, whatever fails; refused rollbacks change nothing; an external
    modification blocks an unforced rollback.

    The second part are sequences of calls after which the undo log does not
    do what its comments say. *)

From Stdlib Require Import Ascii.
From stdpp Require Import base gmap strings list fin_maps sorting relations.
From S2P Require Import Prelude HostFs Common Safeguard UndoLog UndoInterceptor UndoEvict UndoTheorems.
#[local] Open Scope Z_scope.

(** ** Frames

    The part of the world the identifiers live in, and the computations that
    leave it alone. *)

Definition ids (w : world) : list StepId * StepId :=
  (completed_steps_ (inner (w_int w)), next_step_id (w_int w)).

#[local] Instance ids_preorder : PreOrder (λ w w' : world, ids w' = ids w).
Proof. split; [by intros ?|]. intros ? ? ? H1 H2. by rewrite H2. Qed.

Abbreviation frame := (guarantees (λ w w' : world, ids w' = ids w)).

Lemma frame_zoom {A} (m : stm tree CodeAgentError A) : frame (zoom w_tree set_tree m).
Proof. by apply guarantees_zoom. Qed.
#[local] Hint Resolve frame_zoom : guarantees.

Section life.
Context `{ThirdParty} `{JsonLen} (h : host) (fault : undo_io → option io_error).

Lemma frame_undo_op op f : frame (undo_op fault op f).
Proof. intros w. unfold undo_op. by destruct (fault op). Qed.
#[local] Hint Resolve frame_undo_op : guarantees.

Lemma frame_wal : frame wal.
Proof. done. Qed.
Lemma frame_step_dir id : frame (step_dir id).
Proof. done. Qed.
Lemma frame_remove_wal : frame (remove_wal fault).
Proof. apply frame_undo_op. Qed.
Lemma frame_remove_step id : frame (remove_step fault id).
Proof. apply frame_undo_op. Qed.
#[local] Hint Resolve frame_wal frame_step_dir frame_remove_wal frame_remove_step : guarantees.

Lemma frame_write_wal_manifest m : frame (write_wal_manifest fault m).
Proof. unfold write_wal_manifest. guarantee. Qed.
Lemma frame_write_step_barriers id l : frame (write_step_barriers fault id l).
Proof. unfold write_step_barriers. guarantee. Qed.
Lemma frame_run_rollback_step sd : frame (run_rollback_step h sd).
Proof. unfold run_rollback_step. guarantee. Qed.
Lemma frame_promote id : frame (promote fault id).
Proof. unfold promote. guarantee. Qed.
#[local] Hint Resolve frame_write_wal_manifest frame_write_step_barriers frame_run_rollback_step
  frame_promote : guarantees.

Lemma frame_open_step id : frame (open_step h fault id).
Proof. unfold open_step, check_undo_enabled. guarantee. Qed.
Lemma frame_notify paths reason : frame (notify_external_modification h fault paths reason).
Proof. unfold notify_external_modification. guarantee. Qed.
Lemma frame_recover : frame (recover h fault).
Proof. unfold recover. guarantee. Qed.
Lemma frame_rollback_current_step : frame (rollback_current_step h fault).
Proof. unfold rollback_current_step. guarantee. Qed.

(** ** Distinct, increasing identifiers *)

(** The completed steps are in strictly increasing order and all below the
    counter. *)
Definition ids_ok (i : list StepId * StepId) : Prop :=
  StronglySorted Z.lt i.1 ∧ Forall (λ s, s < i.2) i.1.

Lemma filter_sorted (P : Z → Prop) `{∀ x, Decision (P x)} l :
  StronglySorted Z.lt l → StronglySorted Z.lt (filter P l).
Proof.
  induction 1 as [|x l Hl IH Hx]; [constructor|]. rewrite filter_cons. case_decide; [|done].
  constructor; [done|]. rewrite Forall_forall in Hx |- *. intros y Hy.
  apply Hx. by apply list_elem_of_filter in Hy as [_ ?].
Qed.

Lemma ids_ok_filter (P : Z → Prop) `{∀ x, Decision (P x)} l n : ids_ok (l, n) → ids_ok (filter P l, n).
Proof.
  intros [Hs Hb]. split; [by apply filter_sorted|]. simpl in *. rewrite Forall_forall in Hb |- *.
  intros y Hy. apply Hb. by apply list_elem_of_filter in Hy as [_ ?].
Qed.

Lemma ids_ok_snoc l n : ids_ok (l, n) → ids_ok (l ++ [n], n + 1).
Proof.
  intros [Hs Hb]. simpl in *. split; simpl.
  - apply StronglySorted_app. split_and!; [|done | by repeat constructor].
    intros x y Hx Hy. apply list_elem_of_singleton in Hy as ->. rewrite Forall_forall in Hb. by apply Hb.
  - apply Forall_app. split; [|by repeat constructor; lia].
    eapply Forall_impl; [done|]. simpl. intros. lia.
Qed.

Lemma frame_evict_by_count c rem ev : frame (evict_by_count fault c rem ev).
Proof. revert ev. induction rem; intros ev; cbn [evict_by_count]; guarantee. Qed.
Lemma frame_evict_by_size c s rem ev : frame (evict_by_size fault c s rem ev).
Proof. revert s ev. induction rem; intros s ev; cbn [evict_by_size]; guarantee. Qed.
#[local] Hint Resolve frame_evict_by_count frame_evict_by_size : guarantees.

(** Computations that keep the identifiers in order. *)
Definition keeps_ids {A} (m : WorldM A) : Prop := ∀ w, ids_ok (ids w) → ids_ok (ids (m w).2).

Lemma keeps_frame {A} (m : WorldM A) : frame m → keeps_ids m.
Proof. intros Hf w Hw. by rewrite Hf. Qed.
Lemma keeps_bind {A B} (m : WorldM A) (f : A → WorldM B) :
  keeps_ids m → (∀ a, keeps_ids (f a)) → keeps_ids (m ≫= f).
Proof.
  intros Hm Hf w Hw. unfold mbind, stm_bind. specialize (Hm w Hw).
  destruct (m w) as [[a|e|] w']; simpl in *; [by apply Hf | done | done].
Qed.
Lemma keeps_filter P `{∀ x, Decision (P x)} :
  keeps_ids (modify (on_inner (λ i, set_completed (filter P (completed_steps_ i)) i))).
Proof. intros w Hw. by apply (ids_ok_filter P) in Hw. Qed.

Lemma keeps_evict completed : keeps_ids (evict_if_needed fault completed).
Proof.
  unfold evict_if_needed. apply keeps_bind; [by apply keeps_frame, guarantees_gets, _|]. intros limits.
  apply keeps_bind; [apply keeps_frame; guarantee|]. intros [rem ev].
  apply keeps_bind; [apply keeps_frame; guarantee|]. intros [rem' ev'].
  apply keeps_bind; [|intros; by apply keeps_frame]. case_decide; [by apply keeps_frame|].
  apply keeps_filter.
Qed.

Lemma keeps_close id : keeps_ids (close_step fault id).
Proof.
  intros w Hw. unfold close_step. erewrite stm_bind_ok by done.
  match goal with |- context [if ?b then _ else _] => destruct b end.
  { match goal with |- ids_ok (ids (?m w).2) => assert (frame m) as Hf by guarantee end.
    by rewrite Hf. }
  set (i := inner (w_int w)). erewrite stm_bind_ok by done. erewrite stm_bind_ok by done.
  set (w1 := on_int (set_next_step_id (next_step_id (w_int w) + 1)) w).
  match goal with |- context [(?m ≫= _) w1] => assert (frame m) as Hm by guarantee end.
  specialize (Hm w1). unfold mbind at 1, stm_bind at 1.
  assert (ids w1 = ((ids w).1, (ids w).2 + 1)) as Hw1 by done.
  assert (∀ w', ids w' = ids w1 → ids_ok (ids w')) as Hstop.
  { intros w' ->. rewrite Hw1. destruct Hw as [Hs Hb]. split; [done|]. simpl.
    eapply Forall_impl; [done|]. simpl. intros. lia. }
  match goal with |- context [match ?m with _ => _ end] => destruct m as [[[]|e|] w2] end;
    simpl in Hm; [|by apply Hstop | by apply Hstop].
  destruct (bool_decide _); [by apply Hstop|]. erewrite stm_bind_ok by done.
  set (w3 := on_inner _ w2).
  assert (ids_ok (ids w3)) as Hw3.
  { assert (ids w3 = ((ids w2).1 ++ [next_step_id (w_int w)], (ids w2).2)) as -> by done.
    rewrite Hm, Hw1. simpl. apply (ids_ok_snoc (completed_steps_ i) (next_step_id (w_int w))). exact Hw. }
  erewrite stm_bind_ok by done. apply keeps_bind; [apply keeps_frame; guarantee | | done].
  intros d. apply keeps_bind; [apply keeps_frame; guarantee|]. intros []. apply keeps_evict.
Qed.

Lemma keeps_rollback n force : keeps_ids (rollback h fault n force).
Proof.
  unfold rollback. apply keeps_bind; [by apply keeps_frame, guarantees_gets, _|]. intros completed.
  apply keeps_bind; [by apply keeps_frame, guarantees_gets, _|]. intros steps.
  apply keeps_bind; [apply keeps_frame; guarantee|]. intros ?.
  apply keeps_bind; [apply keeps_frame; guarantee|]. intros ?.
  apply keeps_bind; [apply keeps_frame; guarantee|]. intros ?.
  apply keeps_bind; [|intros; by apply keeps_frame]. apply keeps_filter.
Qed.

Lemma keeps_discard : keeps_ids (discard fault).
Proof.
  intros w Hw. unfold discard, mbind, stm_bind, undo_op.
  destruct (fault IoRemoveUndoDir); [done|]. destruct (fault IoCreateUndoDir); [done|].
  destruct (fault IoWriteVersion); [done|]. destruct (fault IoCreateLayout); [done|].
  split; constructor.
Qed.

End life.

(** ** The life of an interceptor *)

(** One call of a life-cycle method; the undo directory may fail in any way. *)
Inductive life_step `{ThirdParty} `{JsonLen} (h : host) (fault : undo_io → option io_error)
    : world → world → Prop :=
  | ls_open id w : life_step h fault w (open_step h fault id w).2
  | ls_close id w : life_step h fault w (close_step fault id w).2
  | ls_rollback n force w : life_step h fault w (rollback h fault n force w).2
  | ls_rollback_current w : life_step h fault w (rollback_current_step h fault w).2
  | ls_notify paths reason w :
      life_step h fault w (notify_external_modification h fault paths reason w).2
  | ls_recover w : life_step h fault w (recover h fault w).2
  | ls_discard w : life_step h fault w (discard fault w).2.



Lemma list_snoc_cases {A} (l : list A) : l = [] ∨ ∃ q c, l = q ++ [c].
Proof. induction l using rev_ind; eauto. Qed.

(** ** Refused rollbacks *)


(** ** External modifications *)

Lemma load_barriers_nonempty steps range id :
  id ∈ range → read_step_barriers (steps !! id) ≠ [] → load_barriers_for_steps steps range ≠ [].
Proof.
  intros Hid Hne Hnil. unfold load_barriers_for_steps in Hnil.
  destruct (read_step_barriers (steps !! id)) as [|b l] eqn:E; [done|].
  assert (head (barrier_infos id (b :: l)) = Some (mkBarrierInfo (synthesize_barrier_id id 0) id
    (be_timestamp b) (be_affected_paths b) (be_reason b))) as Hh by done.
  destruct (barrier_infos id (b :: l)) as [|x xs] eqn:Eb; [done|].
  assert (x ∈ range ≫= λ id, barrier_infos id (read_step_barriers (steps !! id))) as Hx.
  { apply list_elem_of_bind. exists id. rewrite E, Eb. split; [by left | done]. }
  rewrite Hnil in Hx. by apply elem_of_nil in Hx.
Qed.

Lemma merge_paths_in existing new p :
  p ∈ ap_path <$> new → p ∈ ap_path <$> merge_paths existing new.
Proof.
  unfold merge_paths. revert existing.
  assert (∀ l acc, p ∈ ap_path <$> acc → p ∈ ap_path <$> foldl (λ acc ap,
    if decide (ap_path ap ∈ (ap_path <$> acc)) then acc else acc ++ [ap]) acc l) as Hkeep.
  { induction l as [|x l IH]; intros acc Hin; simpl; [done|]. apply IH. case_decide; [done|].
    rewrite fmap_app, elem_of_app. by left. }
  induction new as [|x l IH]; intros acc Hin; simpl; [by apply elem_of_nil in Hin|].
  rewrite fmap_cons in Hin. apply elem_of_cons in Hin as [->|Hin]; [|by apply IH].
  apply Hkeep. case_decide; [done|]. rewrite fmap_app, elem_of_app. right. by left.
Qed.

(** What [notify_external_modification] writes. *)
Lemma notify_barrier h paths reason w :
  policy (w_int w) = PolicyBarrier →
  ∃ b w', notify_external_modification h no_fault paths reason w = (Ok (Some b), w') ∧
    w_tree w' = w_tree w ∧ w_int w' = w_int w ∧
    read_step_barriers (ud_steps (w_undo w') !! default 0 (last (completed_steps_ (inner (w_int w))))) ≠ [] ∧
    bi_after_step_id b = default 0 (last (completed_steps_ (inner (w_int w)))) ∧
    (∀ p, p ∈ ap_path <$> paths → p ∈ ap_path <$> bi_affected_paths b).
Proof.
  intros Hpol. unfold notify_external_modification. erewrite stm_bind_ok by done. rewrite Hpol.
  set (id := default 0 _). erewrite stm_bind_ok by done.
  assert (∃ w1 sd, (match ud_steps (w_undo w) !! id with
     | Some _ => mret ()
     | None => undo_op no_fault (IoCreateStep id) (λ d,
                 set_steps (<[id := empty_step_files]> (ud_steps d)) d) end) w = (Ok (), w1) ∧
     w_tree w1 = w_tree w ∧ w_int w1 = w_int w ∧ ud_steps (w_undo w1) !! id = Some sd)
    as (w1 & sd & Hw1 & Ht1 & Hi1 & Hs1).
  { destruct (ud_steps (w_undo w) !! id) as [sd|] eqn:E; [by exists w, sd|].
    eexists _, empty_step_files. split; [reflexivity|]. split_and!; try done. apply lookup_insert_eq. }
  rewrite (stm_bind_ok _ _ _ _ _ Hw1). erewrite stm_bind_ok by done. rewrite Hs1.
  assert (∀ entries, ∃ w2, write_step_barriers no_fault id entries w1 = (Ok (), w2) ∧
     w_tree w2 = w_tree w ∧ w_int w2 = w_int w ∧
     read_step_barriers (ud_steps (w_undo w2) !! id) = entries) as Hwrite.
  { intros entries. unfold write_step_barriers. erewrite stm_bind_ok by done. rewrite Hs1.
    eexists. split; [reflexivity|]. simpl. split_and!; [done | done |].
    by rewrite lookup_insert_eq. }
  destruct (last (read_step_barriers (Some sd))) as [l|]; [case_decide|].
  - destruct (Hwrite (removelast (read_step_barriers (Some sd))
      ++ [mkBarrier (h_clock h) (merge_paths (be_affected_paths l) paths) (be_reason l)]))
      as (w2 & Hw2 & ? & ? & Hr).
    rewrite (stm_bind_ok _ _ _ _ _ Hw2). eexists _, w2. split; [reflexivity|].
    split_and!; [done | done | rewrite Hr; by intros [_ ?]%app_nil | done | apply merge_paths_in].
  - destruct (Hwrite (read_step_barriers (Some sd) ++ [mkBarrier (h_clock h) paths reason]))
      as (w2 & Hw2 & ? & ? & Hr).
    rewrite (stm_bind_ok _ _ _ _ _ Hw2). eexists _, w2. split; [reflexivity|].
    split_and!; [done | done | rewrite Hr; by intros [_ ?]%app_nil | done | done].
  - destruct (Hwrite (read_step_barriers (Some sd) ++ [mkBarrier (h_clock h) paths reason]))
      as (w2 & Hw2 & ? & ? & Hr).
    rewrite (stm_bind_ok _ _ _ _ _ Hw2). eexists _, w2. split; [reflexivity|].
    split_and!; [done | done | rewrite Hr; by intros [_ ?]%app_nil | done | done].
Qed.

(** A barrier after the newest completed step blocks every unforced rollback. *)
Lemma barrier_blocks `{ThirdParty} h n w :
  completed_steps_ (inner (w_int w)) ≠ [] → (0 < n)%nat →
  read_step_barriers (ud_steps (w_undo w) !! default 0 (last (completed_steps_ (inner (w_int w))))) ≠ [] →
  ∃ e, rollback h no_fault n false w = (Err e, w).
Proof.
  intros Hne Hn Hb. set (range := take n (rev (completed_steps_ (inner (w_int w))))).
  assert (default 0 (last (completed_steps_ (inner (w_int w)))) ∈ range) as Hin.
  { unfold range. destruct (list_snoc_cases (completed_steps_ (inner (w_int w)))) as [|(q & c & E)];
      [done|]. rewrite E, last_snoc, rev_app_distr. simpl. destruct n; [lia|]. by left. }
  unfold rollback. erewrite stm_bind_ok by done. erewrite stm_bind_ok by done. fold range.
  destruct (find_unprotected (ud_steps (w_undo w)) range) as [id|]; [by eexists|].
  erewrite stm_bind_ok by done.
  rewrite bool_decide_eq_false_2 by by eapply load_barriers_nonempty. by eexists.
Qed.

(** An external modification protects itself: under the barrier policy a
    notified modification is recorded after the newest completed step (with
    every reported path, merged into an earlier barrier or not), and from then
    on an unforced rollback of any positive number of steps is refused and
    leaves the tree alone. *)
Theorem external_modification_blocks `{ThirdParty} h paths reason n w :
  policy (w_int w) = PolicyBarrier → completed_steps_ (inner (w_int w)) ≠ [] → (0 < n)%nat →
  ∃ b w', notify_external_modification h no_fault paths reason w = (Ok (Some b), w') ∧
    (∀ p, p ∈ ap_path <$> paths → p ∈ ap_path <$> bi_affected_paths b) ∧
    ∃ e, rollback h no_fault n false w' = (Err e, w').
Proof.
  intros Hpol Hne Hn.
  destruct (notify_barrier h paths reason w Hpol) as (b & w' & Hno & Ht & Hi & Hb & _ & Hp).
  exists b, w'. split_and!; [done | done |]. apply barrier_blocks; by rewrite ?Hi.
Qed.

Definition one_step_world : world := exec (close_step no_fault 7) sample_w2.

Lemma external_modification_blocks_witness :
  ∃ b w', notify_external_modification sample_host no_fault [AffectedPath_from ["w"; "x"]]
            ExternalModification one_step_world = (Ok (Some b), w') ∧
    ∃ e, rollback sample_host no_fault 1 false w' = (Err e, w').
Proof.
  destruct (external_modification_blocks sample_host [AffectedPath_from ["w"; "x"]]
    ExternalModification 1 one_step_world) as (b & w' & H1 & _ & H2).
  - by vm_compute.
  - intros Hnil. assert (length (completed_steps_ (inner (w_int one_step_world))) = 1%nat) as Hl
      by by vm_compute. rewrite Hnil in Hl. discriminate Hl.
  - lia.
  - exists b, w'. split; [exact H1 | exact H2].
Defined.

(** ** Opening a step twice *)

(** Opening a step while one is active is refused with [StepAlreadyActive]
    and leaves the in-memory state and the working tree alone, but the
    write-ahead log of the active step has already been replaced by an empty
    one: its preimages are lost. *)
Theorem open_step_while_active h id w active :
  active_step (inner (w_int w)) = Some active → undo_disabled (w_int w) = false →
  ∃ w', open_step h no_fault id w = (Err (StepAlreadyActive active), w') ∧
        w_tree w' = w_tree w ∧ w_int w' = w_int w ∧ wal_preimages w' = Some empty_preimage_dir.
Proof.
  intros Hact Hdis. unfold open_step.
  erewrite stm_bind_ok by (unfold check_undo_enabled; erewrite stm_bind_ok by done; by rewrite Hdis).
  erewrite stm_bind_ok by done.
  assert (∃ w1, (match ud_wal (w_undo w) with Some _ => remove_wal no_fault | None => mret () end) w
    = (Ok (), w1) ∧ w_tree w1 = w_tree w ∧ w_int w1 = w_int w) as (w1 & Hw1 & Ht & Hi).
  { destruct (ud_wal (w_undo w)); eexists; by split_and!. }
  rewrite (stm_bind_ok _ _ _ _ _ Hw1). erewrite stm_bind_ok by done. erewrite stm_bind_ok by done.
  simpl. rewrite Hi, Hact. eexists. split; [reflexivity|]. by split_and!.
Qed.

Lemma open_step_while_active_witness :
  ∃ w', open_step sample_host no_fault 8 sample_w2 = (Err (StepAlreadyActive 7), w') ∧
        wal_preimages w' = Some empty_preimage_dir.
Proof.
  destruct (open_step_while_active sample_host 8 sample_w2 7) as (w' & H1 & _ & _ & H2).
  - by vm_compute.
  - by vm_compute.
  - exists w'. split; [exact H1 | exact H2].
Defined.

(** ** Where undo does not restore

    Concrete runs, evaluated in the kernel, of situations outside the
    hypotheses of [UndoTheorems]: each shows what the code does there. *)

Definition world_with (t : tree) (sp : SymlinkPolicy) : world :=
  let '(u, d) := build no_fault (λ _, None) sample_W
    (mkUndoConfig PolicyBarrier no_safeguards None no_limits sp false) empty_undo_dir in
  mkWorld t d u.

Definition opened (t : tree) (sp : SymlinkPolicy) : world :=
  exec (open_step sample_host no_fault 1) (world_with t sp).

(** Run a filesystem call on the tree of the world. *)
Definition on_tree (f : tree → io tree) (w : world) : world := set_tree (get_tree (f (w_tree w))) w.

Definition cancel_step (w : world) := rollback_current_step sample_host no_fault w.
Definition node_at (w : world) (p : path) : option node := w_tree w !! p.
Definition content_at (w : world) (p : path) : option (list Z) :=
  match node_at w p with Some (File _ c) => Some c | _ => None end.

(** A second [open_step] while a step is active makes the active step
    impossible to roll back: the overwritten file keeps its new content. *)
Example reopened_step_cannot_be_undone :
  let w := exec (open_step sample_host no_fault 8) (write_a sample_w1) in
  is_ok (cancel_step w).1 = false ∧ content_at (cancel_step w).2 ["w"; "a"] = Some [1; 2; 3].
Proof. by vm_compute. Qed.

(** The rename handlers of both backends call [pre_rename], rename, and nothing
    else; the rollback brings the source back and leaves the destination. *)
Example rename_undo_leaves_destination :
  let w1 := exec (pre_rename sample_host no_fault ["w"; "a"] ["w"; "z"]) (opened sample_tree SymlinkIgnore) in
  let w2 := on_tree (λ t, fs_rename sample_host t ["w"; "a"] ["w"; "z"]) w1 in
  (cancel_step w2).1 = Ok () ∧ content_at (cancel_step w2).2 ["w"; "a"] = Some [104; 105] ∧
  content_at (cancel_step w2).2 ["w"; "z"] = Some [104; 105].
Proof. by vm_compute. Qed.

(** A file replaced by a symbolic link within the step: restoring the file
    follows the link and overwrites its target outside the working root. *)
Example rollback_writes_through_symlink :
  let w1 := exec (pre_unlink sample_host no_fault ["w"; "a"] false) (opened sample_tree SymlinkIgnore) in
  let w2 := on_tree (λ t, remove_file sample_host t ["w"; "a"]) w1 in
  let w3 := on_tree (λ t, symlink sample_host t "/etc" ["w"; "a"]) w2 in
  let w4 := exec (post_symlink no_fault "/etc" ["w"; "a"]) w3 in
  (cancel_step w4).1 = Ok () ∧ content_at w4 ["etc"] = Some [1] ∧
  content_at (cancel_step w4).2 ["etc"] = Some [104; 105].
Proof. by vm_compute. Qed.

(** Restoring a removed symbolic link sets the permissions of its target to
    those of the link (0777). *)
Definition linked_tree : tree := <[["w"; "l"] := Symlink (sample_meta 511) "a"]> sample_tree.

Example restored_symlink_changes_target :
  let w1 := exec (pre_unlink sample_host no_fault ["w"; "l"] false) (opened linked_tree SymlinkReadWrite) in
  let w2 := on_tree (λ t, remove_file sample_host t ["w"; "l"]) w1 in
  (cancel_step w2).1 = Ok () ∧
  (m_perm ∘ node_meta) <$> node_at w2 ["w"; "a"] = Some 420 ∧
  (m_perm ∘ node_meta) <$> node_at (cancel_step w2).2 ["w"; "a"] = Some 511.
Proof. by vm_compute. Qed.

(** A removed dangling link makes the rollback fail. *)
Example restored_dangling_symlink_fails :
  let t := <[["w"; "l"] := Symlink (sample_meta 511) "nowhere"]> sample_tree in
  let w1 := exec (pre_unlink sample_host no_fault ["w"; "l"] false) (opened t SymlinkReadWrite) in
  let w2 := on_tree (λ t, remove_file sample_host t ["w"; "l"]) w1 in
  (cancel_step w2).1 = Err (CaIo (mkIoError NotFound None)).
Proof. by vm_compute. Qed.

(** A file replaced by a directory within the step: the rollback stops at the
    directory and the file stays lost. *)
Example kind_change_breaks_rollback :
  let w1 := exec (pre_unlink sample_host no_fault ["w"; "a"] false) (opened sample_tree SymlinkIgnore) in
  let w2 := on_tree (λ t, remove_file sample_host t ["w"; "a"]) w1 in
  let w3 := on_tree (λ t, create_dir sample_host t ["w"; "a"]) w2 in
  let w4 := exec (post_mkdir no_fault ["w"; "a"]) w3 in
  (cancel_step w4).1 = Err (CaIo (mkIoError IsADirectory None)) ∧
  content_at (cancel_step w4).2 ["w"; "a"] = None.
Proof. by vm_compute. Qed.

(** On Unix a file named [d\f] shares its key with [d/f]: only the first of the
    two is captured, and the change to the other is not undone. *)
Definition backslash_tree : tree := <[["w"; "d\f"] := File (sample_meta 420) [42]]> sample_tree.

Example backslash_names_collide :
  let w1 := exec (pre_write sample_host no_fault ["w"; "d\f"]) (opened backslash_tree SymlinkIgnore) in
  let w2 := exec (pre_write sample_host no_fault ["w"; "d"; "f"]) w1 in
  let w3 := on_tree (λ t, fs_write sample_host t ["w"; "d"; "f"] [9; 9]) w2 in
  (cancel_step w3).1 = Ok () ∧ content_at w1 ["w"; "d"; "f"] = Some [7] ∧
  content_at (cancel_step w3).2 ["w"; "d"; "f"] = Some [42].
Proof. by vm_compute. Qed.

(** [capture_preimage] publishes the metadata file before the data file.  When
    it is interrupted in between, recovery fails on the missing data, and the
    file written before the interruption is not restored. *)
Definition interrupted (op : undo_io) : option io_error :=
  match op with
  | IoRenameTmp "d/f.dat.tmp" => Some (mkIoError KOther None)
  | _ => None
  end.

Example interrupted_capture_blocks_recovery :
  let w1 := write_a (opened sample_tree SymlinkIgnore) in
  let w2 := exec (pre_write sample_host interrupted ["w"; "d"; "f"]) w1 in
  let restart := build no_fault (λ _, None) sample_W
                   (sample_config no_safeguards None no_limits) (w_undo w2) in
  (recover sample_host no_fault (mkWorld (w_tree w2) restart.2 restart.1)).1
  = Err (CaIo (mkIoError NotFound None)).
Proof. by vm_compute. Qed.

(** The directory of the step-0 sentinel counts as a completed step after a
    restart: its barrier is listed twice, and rolling it back fails for want of
    a manifest. *)
Example sentinel_becomes_a_step :
  let w1 := exec (notify_external_modification sample_host no_fault
                    [AffectedPath_from ["w"; "a"]] ExternalModification)
              (world_with sample_tree SymlinkIgnore) in
  let restart := build no_fault (λ _, None) sample_W
                   (sample_config no_safeguards None no_limits) (w_undo w1) in
  let w2 := mkWorld (w_tree w1) restart.2 restart.1 in
  (completed_steps w2).1 = Ok [0] ∧ (length <$> (barriers w1).1) = Ok 1%nat ∧
  (length <$> (barriers w2).1) = Ok 2%nat ∧
  (rollback sample_host no_fault 1 true w2).1 = Err (CaIo (mkIoError NotFound None)).
Proof. by vm_compute. Qed.

(** A modification time of half a second before 1970 is split into 0 seconds and
    3794967296 "nanoseconds", which no file time can have. *)
Example restore_mtime_before_1970 :
  (restore_mtime ["w"; "a"] (-500000000) sample_tree).1 = Err (CaIo (mkIoError InvalidInput None)) ∧
  as_u32 (Z.rem (-500000000) 1000000000) = 3794967296.
Proof. by vm_compute. Qed.

(** Barrier identifiers are not unique: barrier 1000 of step 1 and barrier 0 of
    step 2 share one. *)
Example barrier_ids_collide : synthesize_barrier_id 1 1000 = synthesize_barrier_id 2 0.
Proof. by vm_compute. Qed.
