(* ===== verification/StdioProtocol.v ===== *)
(** * Messages of the request interfaces

    Models [crates/stdio/src/protocol.rs], [version.rs] and [error.rs]: requests
    with their payloads, responses, the events sent on their own, and errors.
    [json] is [serde_json::Value].  Converting between values and the typed
    payloads is generated code and a parameter of the parsers. *)

From stdpp Require Import base gmap strings list pretty.
From S2P Require Import Prelude HostFs Common.
#[local] Open Scope Z_scope.

(** ** Values *)

#[warnings="-register-all"]
Inductive json :=
  | JNull
  | JBool (b : bool)
  | JNumber (n : Z)
  | JString (s : string)
  | JArray (l : list json)
  | JObject (fields : list (string * json)).

(** [Value::get] with a key. *)
Definition json_get (v : json) (key : string) : option json :=
  match v with
  | JObject fields => (λ found, found.2.2) <$> list_find (λ kv, kv.1 = key) fields
  | _ => None
  end.
Definition json_as_str (v : json) : option string :=
  match v with JString s => Some s | _ => None end.
Definition json_is_null (v : json) : bool := match v with JNull => true | _ => false end.

Definition json_opt {A} (f : A → json) (o : option A) : json := match o with Some a => f a | None => JNull end.
Definition JStrings (l : list string) : json := JArray (JString <$> l).

(** ** Payloads *)

Record WorkingDirectoryConfig := mkWorkingDirectory {
  wdc_path : string;
  wdc_label : option string;
}.

Record SessionStartPayload := mkSessionStart {
  sp_working_directories : list WorkingDirectoryConfig;
  sp_network_policy : string;
  sp_vm_mode : string;
  sp_protocol_version : option Z;
}.

Record UndoRollbackPayload := mkUndoRollback {
  up_count : Z;
  up_force : bool;
  up_directory : option string;
}.

Record UndoHistoryPayload := mkUndoHistory { uh_directory : option string }.

Record UndoConfigurePayload := mkUndoConfigure {
  uc_max_log_size_bytes : option Z;
  uc_max_step_count : option Z;
  uc_max_single_step_size_bytes : option Z;
}.

Record AgentExecutePayload := mkAgentExecute {
  ae_command : string;
  ae_env : option (gmap string string);
  ae_cwd : option string;
}.

Record AgentPromptPayload := mkAgentPrompt { prompt : string }.

Record FsListPayload := mkFsList { fl_path : string; fl_directory : option string }.
Record FsReadPayload := mkFsRead { fr_path : string; fr_directory : option string }.

Record SafeguardConfigurePayload := mkSafeguardConfigure {
  sc_delete_threshold : option Z;
  sc_overwrite_file_size_threshold : option Z;
  sc_rename_over_existing : bool;
  sc_timeout_seconds : option Z;
}.

Record SafeguardConfirmPayload := mkSafeguardConfirm {
  sf_safeguard_id : string;
  sf_action : string;
}.

(** The payloads that derive [Default]. *)
Definition UndoHistoryPayload_default : UndoHistoryPayload := mkUndoHistory None.
Definition UndoConfigurePayload_default : UndoConfigurePayload := mkUndoConfigure None None None.
Definition SafeguardConfigurePayload_default : SafeguardConfigurePayload := mkSafeguardConfigure None None false None.

(** ** Requests and responses *)

Record RequestEnvelope := mkRequestEnvelope {
  re_message_type : string;
  re_request_id : string;
  re_payload : json;
}.

Inductive Request :=
  | RSessionStart (request_id : string) (payload : SessionStartPayload)
  | RSessionStop (request_id : string)
  | RSessionReset (request_id : string)
  | RSessionStatus (request_id : string)
  | RUndoRollback (request_id : string) (payload : UndoRollbackPayload)
  | RUndoHistory (request_id : string) (payload : UndoHistoryPayload)
  | RUndoConfigure (request_id : string) (payload : UndoConfigurePayload)
  | RUndoDiscard (request_id : string)
  | RAgentExecute (request_id : string) (payload : AgentExecutePayload)
  | RAgentPrompt (request_id : string) (payload : AgentPromptPayload)
  | RFsList (request_id : string) (payload : FsListPayload)
  | RFsRead (request_id : string) (payload : FsReadPayload)
  | RFsStatus (request_id : string)
  | RSafeguardConfigure (request_id : string) (payload : SafeguardConfigurePayload)
  | RSafeguardConfirm (request_id : string) (payload : SafeguardConfirmPayload).

Definition request_id (r : Request) : string :=
  match r with
  | RSessionStart id _ | RSessionStop id | RSessionReset id | RSessionStatus id
  | RUndoRollback id _ | RUndoHistory id _ | RUndoConfigure id _ | RUndoDiscard id
  | RAgentExecute id _ | RAgentPrompt id _ | RFsList id _ | RFsRead id _ | RFsStatus id
  | RSafeguardConfigure id _ | RSafeguardConfirm id _ => id
  end.

(** The type in the envelope, as the server logs it. *)
Definition request_type_name (r : Request) : string :=
  match r with
  | RSessionStart _ _ => "session.start" | RSessionStop _ => "session.stop"
  | RSessionReset _ => "session.reset" | RSessionStatus _ => "session.status"
  | RUndoRollback _ _ => "undo.rollback" | RUndoHistory _ _ => "undo.history"
  | RUndoConfigure _ _ => "undo.configure" | RUndoDiscard _ => "undo.discard"
  | RAgentExecute _ _ => "agent.execute" | RAgentPrompt _ _ => "agent.prompt"
  | RFsList _ _ => "fs.list" | RFsRead _ _ => "fs.read" | RFsStatus _ => "fs.status"
  | RSafeguardConfigure _ _ => "safeguard.configure" | RSafeguardConfirm _ _ => "safeguard.confirm"
  end.

(** ** Events *)

Inductive Event :=
  | StepCompletedEvent (step_id : StepId) (affected_paths : list string) (exit_code : Z)
  | AgentOutputEvent (data : string)
  | TerminalOutputEvent (stream data : string)
  | WarningEvent (code message : string)
  | ErrorEvent (code message : string)
  | SafeguardTriggeredEvent (step_id : StepId) (safeguard_id kind : string) (sample_paths : list string)
      (message : string)
  | ExternalModificationEvent (affected_paths : list string) (barrier_id : option BarrierId)
  | RecoveryEvent (paths_restored paths_deleted : nat)
  | UndoVersionMismatchEvent (expected_version found_version : string).

Record EventEnvelope := mkEventEnvelope { ee_event_type : string; ee_payload : json }.

Definition to_envelope (e : Event) : EventEnvelope :=
  match e with
  | StepCompletedEvent step_id affected_paths exit_code =>
      mkEventEnvelope "event.step_completed"
        (JObject [("step_id", JNumber step_id); ("affected_paths", JStrings affected_paths);
                  ("exit_code", JNumber exit_code)])
  | AgentOutputEvent data => mkEventEnvelope "event.agent_output" (JObject [("data", JString data)])
  | TerminalOutputEvent stream data =>
      mkEventEnvelope "event.terminal_output" (JObject [("stream", JString stream); ("data", JString data)])
  | WarningEvent code message =>
      mkEventEnvelope "event.warning" (JObject [("code", JString code); ("message", JString message)])
  | ErrorEvent code message =>
      mkEventEnvelope "event.error" (JObject [("code", JString code); ("message", JString message)])
  | SafeguardTriggeredEvent step_id safeguard_id kind sample_paths message =>
      mkEventEnvelope "event.safeguard_triggered"
        (JObject [("step_id", JNumber step_id); ("safeguard_id", JString safeguard_id); ("kind", JString kind);
                  ("sample_paths", JStrings sample_paths); ("message", JString message)])
  | ExternalModificationEvent affected_paths barrier_id =>
      mkEventEnvelope "event.external_modification"
        (JObject [("affected_paths", JStrings affected_paths); ("barrier_id", json_opt JNumber barrier_id)])
  | RecoveryEvent paths_restored paths_deleted =>
      mkEventEnvelope "event.recovery"
        (JObject [("paths_restored", JNumber (Z.of_nat paths_restored));
                  ("paths_deleted", JNumber (Z.of_nat paths_deleted))])
  | UndoVersionMismatchEvent expected found =>
      mkEventEnvelope "event.undo_version_mismatch"
        (JObject [("expected_version", JString expected); ("found_version", JString found)])
  end.

(** ** Errors *)

Inductive StdioError :=
  | SeMalformedJson (source : string)
  | SeUnknownOperation (operation : string)
  | SeMissingField (field : string)
  | SeInvalidField (field : string) (message : error_text)
  | SeOversizedMessage (max_size actual_size : Z)
  | SeUnsupportedProtocolVersion (version min max : Z)
  | SePathOutsideRoot (path : string)
  | SeMissingRequestId
  | SeIo (source : io_error).

Record ErrorDetail := mkErrorDetail {
  ed_code : string;
  ed_message : error_text;
  ed_field : option string;
}.

Definition to_error_detail (e : StdioError) : ErrorDetail :=
  match e with
  | SeMalformedJson source => mkErrorDetail "malformed_json" (Text source) None
  | SeUnknownOperation operation =>
      mkErrorDetail "unknown_operation" (Text ("unknown operation type: " +:+ operation)) None
  | SeMissingField field =>
      mkErrorDetail "missing_field" (Text ("missing required field: " +:+ field)) (Some field)
  | SeInvalidField field message => mkErrorDetail "invalid_field" message (Some field)
  | SeOversizedMessage max_size actual_size =>
      mkErrorDetail "oversized_message"
        (Text ("message exceeds maximum size of " +:+ pretty max_size +:+ " bytes (got " +:+ pretty actual_size +:+ ")")) None
  | SeUnsupportedProtocolVersion version min max =>
      mkErrorDetail "unsupported_protocol_version"
        (Text ("unsupported protocol version " +:+ pretty version +:+ " (supported: " +:+ pretty min +:+ "..="
               +:+ pretty max +:+ ")")) None
  | SePathOutsideRoot path =>
      mkErrorDetail "path_outside_root" (Text ("path is outside working directory root: " +:+ path)) None
  | SeMissingRequestId =>
      mkErrorDetail "missing_request_id" (Text "missing required field: request_id") (Some "request_id")
  | SeIo source => mkErrorDetail "io_error" (FromIo source) None
  end.

Record ResponseEnvelope := mkResponseEnvelope {
  rs_message_type : string;
  rs_request_id : string;
  rs_status : string;
  rs_payload : option json;
  rs_error : option ErrorDetail;
}.

Definition ResponseEnvelope_ok (request_id : string) (payload : option json) : ResponseEnvelope :=
  mkResponseEnvelope "response" request_id "ok" payload None.
Definition ResponseEnvelope_error (request_id : string) (error : ErrorDetail) : ResponseEnvelope :=
  mkResponseEnvelope "response" request_id "error" None (Some error).

(** ** version.rs *)

Definition MIN_SUPPORTED_VERSION : Z := 1.
Definition MAX_SUPPORTED_VERSION : Z := 1.
