(* ===== verification/McpProtocol.v ===== *)
(** * Messages of the MCP interface

    Models [crates/mcp/src/protocol.rs] and [error.rs]: JSON-RPC requests and
    responses, the arguments of the tools, and errors with their codes. *)

From stdpp Require Import base gmap strings list pretty.
From S2P Require Import Prelude HostFs Common StdioProtocol.
#[local] Open Scope Z_scope.

(** ** Errors *)

Definition PARSE_ERROR : Z := -32700.
Definition INVALID_REQUEST : Z := -32600.
Definition METHOD_NOT_FOUND : Z := -32601.
Definition INVALID_PARAMS : Z := -32602.
Definition INTERNAL_ERROR : Z := -32603.
Definition PATH_OUTSIDE_ROOT : Z := -32001.

Inductive McpError :=
  | McpParseError (source : string)
  | InvalidRequest (message : string)
  | MethodNotFound (method : string)
  | InvalidParams (message : string)
  | MissingField (field : string)
  | McpPathOutsideRoot (path : string)
  | InternalError (message : error_text)
  | McpOversizedMessage (max_size actual_size : Z)
  | McpIo (source : io_error).

Record JsonRpcError := mkJsonRpcError {
  je_code : Z;
  je_message : error_text;
  je_data : option json;
}.

Definition to_jsonrpc_error (e : McpError) : JsonRpcError :=
  match e with
  | McpParseError source => mkJsonRpcError PARSE_ERROR (Text ("Parse error: " +:+ source)) None
  | InvalidRequest message => mkJsonRpcError INVALID_REQUEST (Text message) None
  | MethodNotFound method => mkJsonRpcError METHOD_NOT_FOUND (Text ("Method not found: " +:+ method)) None
  | InvalidParams message => mkJsonRpcError INVALID_PARAMS (Text message) None
  | MissingField field =>
      mkJsonRpcError INVALID_PARAMS (Text ("Missing required parameter: " +:+ field))
        (Some (JObject [("field", JString field)]))
  | McpPathOutsideRoot path => mkJsonRpcError PATH_OUTSIDE_ROOT (Text ("Path outside root: " +:+ path)) None
  | InternalError message => mkJsonRpcError INTERNAL_ERROR message None
  | McpOversizedMessage max_size actual_size =>
      mkJsonRpcError INVALID_REQUEST
        (Text ("Message exceeds maximum size of " +:+ pretty max_size +:+ " bytes (got " +:+ pretty actual_size +:+ ")")) None
  | McpIo source => mkJsonRpcError INTERNAL_ERROR (FromIo source) None
  end.

(** ** JSON-RPC *)

Record JsonRpcRequest := mkJsonRpcRequest {
  jr_jsonrpc : string;
  jr_id : option json;
  jr_method : string;
  jr_params : json;
}.

Record JsonRpcResponse := mkJsonRpcResponse {
  jp_jsonrpc : string;
  jp_id : option json;
  jp_result : option json;
  jp_error : option JsonRpcError;
}.

Definition JsonRpcResponse_success (id : option json) (result : json) : JsonRpcResponse :=
  mkJsonRpcResponse "2.0" id (Some result) None.
Definition JsonRpcResponse_error (id : option json) (error : JsonRpcError) : JsonRpcResponse :=
  mkJsonRpcResponse "2.0" id None (Some error).

Record ToolContent := mkToolContent { content_type : string; content_text : string }.
Record ToolCallResult := mkToolCallResult { tc_content : list ToolContent; tc_is_error : bool }.

Definition ToolCallResult_text (text : string) : ToolCallResult :=
  mkToolCallResult [mkToolContent "text" text] false.

Record ToolCallParams := mkToolCallParams { tp_name : string; tp_arguments : json }.

(** ** Tool arguments *)

Record BashArgs := mkBashArgs {
  ba_command : string;
  ba_description : option string;
  ba_timeout : option Z;
}.
Record ReadFileArgs := mkReadFileArgs { rf_path : string }.
Record WriteFileArgs := mkWriteFileArgs { wf_path : string; wf_content : list Z }.
Record EditFileArgs := mkEditFileArgs {
  ef_path : string;
  ef_old_string : list Z;
  ef_new_string : list Z;
  ef_replace_all : bool;
}.
Record GlobArgs := mkGlobArgs {
  ga_pattern : string;
  ga_path : option string;
  ga_limit : option nat;
}.
Record GrepArgs := mkGrepArgs {
  gr_pattern : string;
  gr_path : option string;
  gr_include : option string;
  gr_output_mode : string;
  gr_context_lines : option Z;
  gr_case_insensitive : bool;
}.
Record UndoArgs := mkUndoArgs { ua_count : Z; ua_force : bool }.
