(* ===== verification/ControlProtocol.v ===== *)
(** * The control channel: messages, parsing and the command state machine

    Models [crates/control/src]: [protocol.rs], [error.rs], [parser.rs] and
    [state_machine.rs].  [serde_json] is a parameter: the class [SerdeJson]
    holds the deserialisers the parser calls.  Identifiers are [u64]s, exit
    codes [i32]s, both as [Z]. *)

From stdpp Require Import base gmap strings list pretty.
From S2P Require Import Prelude.
#[local] Open Scope Z_scope.

(** ** protocol.rs *)

Inductive OutputStream := Stdout | Stderr.

Inductive HostMessage :=
  | HostExec (id : Z) (command : string) (env : option (gmap string string)) (cwd : option string)
  | HostCancel (id : Z)
  | HostRollbackNotify (step_id : Z).

Inductive VmMessage :=
  | VmStepStarted (id : Z)
  | VmOutput (id : Z) (stream : OutputStream) (data : string)
  | VmStepCompleted (id : Z) (exit_code : Z).

#[export] Instance OutputStream_eq_dec : EqDecision OutputStream.
Proof. solve_decision. Defined.
#[export] Instance VmMessage_eq_dec : EqDecision VmMessage.
Proof. solve_decision. Defined.

(** What the parser uses of [serde_json]. *)
Class SerdeJson := {
  json_error : Type;
  json_error_display : json_error → string;
  json_value : Type;
  from_str_vm : string → json_error + VmMessage;
  from_str_host : string → json_error + HostMessage;
  from_str_value : string → json_error + json_value;
  value_get : json_value → string → option json_value;
}.

(** ** error.rs *)

Section errors.
Context `{SerdeJson}.

Inductive ControlChannelError :=
  | MalformedJson (source : json_error)
  | UnknownMessageType (line : string)
  | OversizedMessage (max_size actual_size : Z)
  | UnexpectedStepCompleted (id : Z)
  | DuplicateStepStarted (id : Z)
  | OutputForUnknownCommand (id : Z)
  | UnexpectedStepStarted (id : Z)
  | CancelUnknownCommand (id : Z).

(** [Display], as [to_string] renders it. *)
Definition control_error_display (e : ControlChannelError) : string :=
  match e with
  | MalformedJson source => "malformed JSON: " +:+ json_error_display source
  | UnknownMessageType line => "unknown message type: " +:+ line
  | OversizedMessage max_size actual_size =>
      "message exceeds maximum size of " +:+ pretty max_size +:+ " bytes (got "
        +:+ pretty actual_size +:+ ")"
  | UnexpectedStepCompleted id =>
      "step_completed for unknown command " +:+ pretty id +:+ ": no matching step_started"
  | DuplicateStepStarted id => "duplicate step_started for command " +:+ pretty id
  | OutputForUnknownCommand id => "output for unknown command " +:+ pretty id
  | UnexpectedStepStarted id =>
      "step_started for unknown command " +:+ pretty id +:+ ": no matching exec"
  | CancelUnknownCommand id => "cancel for unknown command " +:+ pretty id
  end.

(** ** parser.rs *)

Definition CONTROL_MAX_MESSAGE_SIZE : Z := 1048576.
Definition MAX_DISPLAY_LEN : nat := 200.

(** [str::is_char_boundary]: the end of the string, or a byte that does not
    continue a character. *)
Definition is_char_boundary (s : string) (n : nat) : bool :=
  match bytes_of_string s !! n with
  | Some b => negb (cont_byte b)
  | None => bool_decide (n = String.length s)
  end.

(** [&line[..n]] panics off a character boundary. *)
Definition str_prefix (s : string) (n : nat) : outcome ControlChannelError string :=
  if is_char_boundary s n then Ok (String.substring 0 n s) else Panic.

Definition truncate_for_display (line : string) : outcome ControlChannelError string :=
  if (String.length line <=? MAX_DISPLAY_LEN)%nat then Ok line
  else p ← str_prefix line MAX_DISPLAY_LEN; Ok (p +:+ "...").

Definition is_unknown_type_error (line : string) : bool :=
  match from_str_value line with
  | inr value => bool_decide (is_Some (value_get value "type"))
  | inl _ => false
  end.

(** The closure of [map_err] in both parsers. *)
Definition classify_error {A} (line : string) (source : json_error)
    : outcome ControlChannelError A :=
  if is_unknown_type_error line
  then shown ← truncate_for_display line; Err (UnknownMessageType shown)
  else Err (MalformedJson source).

Definition parse_vm_message (line : string) : outcome ControlChannelError VmMessage :=
  if CONTROL_MAX_MESSAGE_SIZE <? Z.of_nat (String.length line)
  then Err (OversizedMessage CONTROL_MAX_MESSAGE_SIZE (Z.of_nat (String.length line)))
  else match from_str_vm line with
       | inr msg => Ok msg
       | inl source => classify_error line source
       end.

Definition parse_host_message (line : string) : outcome ControlChannelError HostMessage :=
  if CONTROL_MAX_MESSAGE_SIZE <? Z.of_nat (String.length line)
  then Err (OversizedMessage CONTROL_MAX_MESSAGE_SIZE (Z.of_nat (String.length line)))
  else match from_str_host line with
       | inr msg => Ok msg
       | inl source => classify_error line source
       end.

(** ** state_machine.rs *)

Record PendingCommand := mkPending { pc_id : Z; pc_command : string }.

Record ActiveCommand := mkActive { ac_id : Z; ac_command : string; ac_cancelled : bool }.

Inductive ControlEvent :=
  | CeStepStarted (id : Z) (command : string)
  | CeOutput (id : Z) (stream : OutputStream) (data : string)
  | CeStepCompleted (id : Z) (exit_code : Z) (cancelled : bool)
  | CeProtocolError (error : string).

Record ControlChannelState := mkChannel {
  pending : gmap Z PendingCommand;
  active : gmap Z ActiveCommand;
}.

Definition ControlChannelState_new : ControlChannelState := mkChannel ∅ ∅.

Definition command_sent (id : Z) (command : string) (s : ControlChannelState)
    : ControlChannelState :=
  mkChannel (<[id := mkPending id command]> (pending s)) (active s).

Definition cancel_command (id : Z) : stm ControlChannelState ControlChannelError ControlEvent :=
  s ← get;
  match pending s !! id with
  | Some _ =>
      put (mkChannel (delete id (pending s)) (active s));;
      mret (CeStepCompleted id (-1) true)
  | None =>
      match active s !! id with
      | Some a =>
          put (mkChannel (pending s) (<[id := mkActive (ac_id a) (ac_command a) true]> (active s)));;
          mret (CeProtocolError
                  ("command " +:+ pretty id +:+ " cancel sent; awaiting step_completed from VM"))
      | None => throw (CancelUnknownCommand id)
      end
  end.

Definition handle_step_started (id : Z) (s : ControlChannelState)
    : ControlEvent * ControlChannelState :=
  match active s !! id with
  | Some _ => (CeProtocolError (control_error_display (DuplicateStepStarted id)), s)
  | None =>
      match pending s !! id with
      | Some p =>
          (CeStepStarted id (pc_command p),
           mkChannel (delete id (pending s))
                     (<[id := mkActive id (pc_command p) false]> (active s)))
      | None => (CeProtocolError (control_error_display (UnexpectedStepStarted id)), s)
      end
  end.

Definition handle_output (id : Z) (stream : OutputStream) (data : string)
    (s : ControlChannelState) : ControlEvent :=
  match active s !! id with
  | Some _ => CeOutput id stream data
  | None => CeProtocolError (control_error_display (OutputForUnknownCommand id))
  end.

Definition handle_step_completed (id exit_code : Z) (s : ControlChannelState)
    : ControlEvent * ControlChannelState :=
  match active s !! id with
  | Some a =>
      (CeStepCompleted id exit_code (ac_cancelled a),
       mkChannel (pending s) (delete id (active s)))
  | None => (CeProtocolError (control_error_display (UnexpectedStepCompleted id)), s)
  end.

Definition process_vm_message (msg : VmMessage) (s : ControlChannelState)
    : ControlEvent * ControlChannelState :=
  match msg with
  | VmStepStarted id => handle_step_started id s
  | VmOutput id stream data => (handle_output id stream data s, s)
  | VmStepCompleted id exit_code => handle_step_completed id exit_code s
  end.

Definition pending_count (s : ControlChannelState) : nat := size (pending s).
Definition active_count (s : ControlChannelState) : nat := size (active s).
Definition get_active (s : ControlChannelState) (id : Z) : option ActiveCommand := active s !! id.

End errors.
Arguments ControlChannelError {_}.

(** ** Sequences of calls *)

Inductive channel_op :=
  | OpSent (id : Z) (command : string)
  | OpCancel (id : Z)
  | OpMessage (msg : VmMessage).

Section traces.
Context `{SerdeJson}.

(** One call, and the event it returns ([command_sent] returns none, a cancel
    of an unknown command an error). *)
Definition channel_step (op : channel_op) (s : ControlChannelState)
    : option ControlEvent * ControlChannelState :=
  match op with
  | OpSent id command => (None, command_sent id command s)
  | OpCancel id =>
      match cancel_command id s with
      | (Ok e, s') => (Some e, s')
      | (_, s') => (None, s')
      end
  | OpMessage msg => let '(e, s') := process_vm_message msg s in (Some e, s')
  end.

Fixpoint channel_run (ops : list channel_op) (s : ControlChannelState)
    : list (channel_op * option ControlEvent) * ControlChannelState :=
  match ops with
  | [] => ([], s)
  | op :: ops' =>
      let '(e, s1) := channel_step op s in
      let '(tr, s2) := channel_run ops' s1 in ((op, e) :: tr, s2)
  end.

(** An observer of the calls and events of one command, which knows nothing of
    the two tables: how many [exec]s are unanswered, the text of the last one,
    whether the step is open, and whether it has been cancelled since. *)
Record observer := mkObserver {
  ob_credit : nat;
  ob_command : option string;
  ob_open : bool;
  ob_cancelled : bool;
}.

Definition observer_new : observer := mkObserver 0 None false false.

(** [None] is a violation: a start without an unanswered [exec], with another
    command's text or while the step is open; output or completion of a step
    that is not open; a completion whose [cancelled] flag does not tell whether
    a cancel was accepted. *)
Definition observe (id : Z) (x : channel_op * option ControlEvent) (o : observer)
    : option observer :=
  match x with
  | (OpSent i c, _) =>
      if decide (i = id) then Some (mkObserver (S (ob_credit o)) (Some c) (ob_open o) (ob_cancelled o))
      else Some o
  | (OpMessage _, Some (CeStepStarted i c)) =>
      if decide (i = id) then
        guard (ob_open o = false);; guard (0 < ob_credit o)%nat;; guard (ob_command o = Some c);;
        Some (mkObserver (pred (ob_credit o)) (ob_command o) true false)
      else Some o
  | (OpMessage _, Some (CeOutput i _ _)) =>
      if decide (i = id) then guard (ob_open o = true);; Some o else Some o
  | (OpMessage _, Some (CeStepCompleted i _ c)) =>
      if decide (i = id) then
        guard (ob_open o = true);; guard (c = ob_cancelled o);;
        Some (mkObserver (ob_credit o) (ob_command o) false false)
      else Some o
  | (OpCancel i, Some (CeStepCompleted j code c)) =>
      if decide (i = id) then
        guard (i = j);; guard (code = -1);; guard (c = true);; guard (0 < ob_credit o)%nat;;
        Some (mkObserver (pred (ob_credit o)) (ob_command o) (ob_open o) (ob_cancelled o))
      else Some o
  | (OpCancel i, Some (CeProtocolError _)) =>
      if decide (i = id) then
        guard (ob_open o = true);;
        Some (mkObserver (ob_credit o) (ob_command o) true true)
      else Some o
  | (OpCancel i, None) =>
      if decide (i = id) then guard (ob_open o = false);; Some o else Some o
  | (OpCancel _, _) => None
  | (OpMessage _, _) => Some o
  end.

Fixpoint observe_all (id : Z) (tr : list (channel_op * option ControlEvent)) (o : observer)
    : option observer :=
  match tr with
  | [] => Some o
  | x :: tr' => observe id x o ≫= observe_all id tr'
  end.

(** What the observer knows agrees with the tables. *)
Definition observed (id : Z) (s : ControlChannelState) (o : observer) : Prop :=
  (∀ p, pending s !! id = Some p → (0 < ob_credit o)%nat ∧ ob_command o = Some (pc_command p)) ∧
  match active s !! id with
  | Some a => ob_open o = true ∧ ob_cancelled o = ac_cancelled a
  | None => ob_open o = false
  end.

Lemma observed_ne id i s o pe ac :
  i ≠ id → observed id s o →
  (∀ j, j ≠ i → pe !! j = pending s !! j) → (∀ j, j ≠ i → ac !! j = active s !! j) →
  observed id (mkChannel pe ac) o.
Proof. intros Hi Ho Hpe Hac. unfold observed. simpl. by rewrite Hpe, Hac. Qed.

(** Calls on another command do not concern the observer. *)
Lemma channel_step_other id op s e s' o :
  channel_step op s = (e, s') → observed id s o →
  match op with
  | OpSent i _ | OpCancel i | OpMessage (VmStepStarted i)
  | OpMessage (VmOutput i _ _) | OpMessage (VmStepCompleted i _) => i ≠ id
  end →
  observe id (op, e) o = Some o ∧ observed id s' o.
Proof.
  intros Hstep Ho Hi. pose proof (observed_ne id) as Hne.
  destruct op as [i c|i|[i|i st d|i code]]; simpl in Hstep;
    unfold cancel_command, handle_step_started, handle_output, handle_step_completed, command_sent,
      mbind, stm_bind, mret, stm_ret, get, put, throw in Hstep; simpl in Hstep;
    simplify_eq/=; repeat (case_match; simplify_eq/=); try rewrite decide_False by done; split;
    try done; (eapply Hne; [exact Hi | exact Ho | |]); intros j Hj;
    by rewrite ?lookup_insert_ne, ?lookup_delete_ne by done.
Qed.

Lemma channel_step_same id op s e s' o :
  channel_step op s = (e, s') → observed id s o →
  match op with
  | OpSent i _ | OpCancel i | OpMessage (VmStepStarted i)
  | OpMessage (VmOutput i _ _) | OpMessage (VmStepCompleted i _) => i = id
  end →
  ∃ o', observe id (op, e) o = Some o' ∧ observed id s' o'.
Proof.
  intros Hstep [Hp Ha] Hi. unfold observed.
  destruct op as [i c|i|[i|i st d|i code]]; simpl in Hstep; subst i;
    unfold cancel_command, handle_step_started, handle_output, handle_step_completed, command_sent,
      mbind, stm_bind, mret, stm_ret, get, put, throw in Hstep; simpl in Hstep;
    simplify_eq/=; repeat (case_match; simplify_eq/=); try rewrite decide_True by done;
    destruct_and?; try (edestruct Hp as [??]; [reflexivity|]);
    repeat (case_guard; simpl; [|done]); eexists; (split; [reflexivity|]); simpl;
    simplify_map_eq; (split; [intros q Hq; simplify_map_eq; try (split; [lia|done]); by auto | done]).
Qed.

Lemma channel_step_observed id op s e s' o :
  channel_step op s = (e, s') → observed id s o →
  ∃ o', observe id (op, e) o = Some o' ∧ observed id s' o'.
Proof.
  intros Hs Ho.
  destruct (decide (match op with
    | OpSent i _ | OpCancel i | OpMessage (VmStepStarted i)
    | OpMessage (VmOutput i _ _) | OpMessage (VmStepCompleted i _) => i
    end = id)) as [Hi|Hi].
  - eapply channel_step_same; [done | done |]. by repeat case_match.
  - exists o. eapply channel_step_other; [done | done |]. by repeat case_match.
Qed.

Lemma channel_run_observed id ops s tr s' o :
  channel_run ops s = (tr, s') → observed id s o →
  ∃ o', observe_all id tr o = Some o' ∧ observed id s' o'.
Proof.
  revert s tr o. induction ops as [|op ops IH]; intros s tr o Hrun Ho; simpl in Hrun.
  - simplify_eq. by exists o.
  - destruct (channel_step op s) as [e s1] eqn:Es.
    destruct (channel_run ops s1) as [tr1 s2] eqn:Er. simplify_eq.
    destruct (channel_step_observed _ _ _ _ _ _ Es Ho) as (o1 & H1 & Ho1).
    destruct (IH _ _ _ Er Ho1) as (o2 & H2 & Ho2). exists o2. cbn [observe_all]. by rewrite H1.
Qed.

(** C31. The channel keeps every command's life cycle in order, whatever the
    guest sends: after any sequence of [command_sent], [cancel_command] and
    [process_vm_message] calls, an observer of one command has seen its step
    start only after an unanswered [exec] (and with that [exec]'s text), never
    start twice without completing, produce output only while open, complete
    only when open, and report [cancelled] exactly when a cancel was accepted
    during the step. *)
Theorem channel_life_cycle ops id :
  is_Some (observe_all id (channel_run ops ControlChannelState_new).1 observer_new).
Proof.
  destruct (channel_run ops ControlChannelState_new) as [tr s] eqn:Er.
  destruct (channel_run_observed id _ _ _ _ observer_new Er) as (o & Ho & _); [|by eexists].
  split; [intros p Hp|]; simplify_map_eq; done.
Qed.

Lemma length_prefix n s : (String.length (String.substring 0 n s) ≤ n)%nat.
Proof. revert n. induction s as [|c s IH]; intros [|n]; simpl; [lia..|]. specialize (IH n). lia. Qed.

Lemma length_append s t : String.length (s +:+ t) = (String.length s + String.length t)%nat.
Proof. induction s as [|c s IH]; simpl; [done|]. by rewrite IH. Qed.

(** A malformed line from the guest is reported and never stops the
    reader, except for one case: [parse_vm_message] panics exactly on a line
    of more than 200 (and at most 1048576) bytes that is a JSON object with a
    [type] field, is not a known message, and whose byte 200 lies inside a
    multi-byte character.  On every other line it returns, and the text an
    error carries is at most 203 bytes long. *)
Theorem parse_vm_message_panics line :
  (parse_vm_message line = Panic ↔
     (200 < String.length line)%nat ∧ Z.of_nat (String.length line) ≤ CONTROL_MAX_MESSAGE_SIZE ∧
     (∃ e, from_str_vm line = inl e) ∧ is_unknown_type_error line = true ∧
     is_char_boundary line 200 = false) ∧
  (∀ shown, parse_vm_message line = Err (UnknownMessageType shown) →
     (String.length shown ≤ 203)%nat).
Proof.
  unfold parse_vm_message, classify_error, truncate_for_display, str_prefix.
  change MAX_DISPLAY_LEN with 200%nat.
  destruct (Z.ltb_spec CONTROL_MAX_MESSAGE_SIZE (Z.of_nat (String.length line))).
  { split; [|done]. split; [done|]. intros (_ & ? & _). lia. }
  destruct (from_str_vm line) as [e|m]; [|split; [split; [done|]|done]; by intros (_ & _ & [??] & _)].
  destruct (is_unknown_type_error line); [|split; [split; [done|]|done]; by intros (_ & _ & _ & ? & _)].
  destruct (Nat.leb_spec (String.length line) 200); simpl.
  { split; [split; [done|] | intros ? [= <-]; lia]. intros (? & _). lia. }
  destruct (is_char_boundary line 200) eqn:Eb; simpl.
  - split; [split; [done|by intros (_ & _ & _ & _ & ?)]|]. intros ? [= <-].
    rewrite length_append. pose proof (length_prefix 200 line). simpl String.length. lia.
  - split; [|done]. split; [|done]. intros _. split_and!; [done|done|by eexists|done|done].
Qed.

End traces.
