(* ===== verification/ControlHandler.v ===== *)
(** * The control channel handler

    Models [crates/control/src/handler.rs] and [in_flight.rs]: the handler that
    opens and closes undo steps as commands start and complete in the guest.
    The step manager is any instance of [StepManager]; what its errors print as
    ([display]) is a parameter.

    The asynchronous parts are explicit: the tasks the handler spawns are
    values ([task]) in its state, each waiting at one of its suspension points,
    and [resume] runs a task from there to its next suspension point.  A method
    runs from start to end in one go, as it does on a single-threaded executor
    when the mutex is free; the pieces between two lock acquisitions are
    separate definitions, so that interleavings of them can be written down.
    Time is a clock in the state, in nanoseconds. *)

From stdpp Require Import base gmap strings list pretty.
From S2P Require Import Prelude HostFs Common ControlProtocol.
#[local] Open Scope Z_scope.

Record QuiescenceConfig := mkQuiescence {
  idle_timeout : Z;
  max_timeout : Z;
  ambient_inactivity_timeout : Z;
}.

Definition QuiescenceConfig_default : QuiescenceConfig :=
  mkQuiescence 100000000 2000000000 5000000000.

Inductive HandlerEvent :=
  | HeStepStarted (step_id : StepId) (command : string)
  | HeOutput (step_id : StepId) (stream : OutputStream) (data : string)
  | HeStepCompleted (step_id : StepId) (exit_code : Z) (cancelled : bool) (evicted_steps : list StepId)
  | HeAmbientStepOpened (step_id : StepId)
  | HeAmbientStepClosed (step_id : StepId) (evicted_steps : list StepId)
  | HeProtocolError (error : string).

Record HandlerState := mkHandlerState {
  protocol : ControlChannelState;
  next_ambient_id : StepId;
  active_command_step : option StepId;
  in_quiescence_ : bool;
  ambient_step_id_ : option StepId;
}.

(** Where a quiescence task is suspended: not started yet, in
    [wait_for_drain] until a time, or in the idle sleep until a time; the last
    two know the [max_deadline]. *)
Inductive quiesce_wait :=
  | QStart
  | QDrain (until max_deadline : Z)
  | QIdle (until max_deadline : Z).

(** An ambient timeout task is not started yet ([None]) or waits for its
    deadline; the flag says that [reset_notify] has woken it. *)
Inductive task :=
  | TQuiesce (step_id : StepId) (exit_code : Z) (cancelled : bool) (w : quiesce_wait)
  | TAmbient (ambient_id : StepId) (w : option (Z * bool)).

Record handler (S : Type) := mkHandler {
  hd_state : HandlerState;
  hd_steps : S;
  hd_in_flight : Z;
  hd_now : Z;
  hd_events : list HandlerEvent;
  hd_tasks : list task;
}.
Arguments mkHandler {S}.
Arguments hd_state {S}.
Arguments hd_steps {S}.
Arguments hd_in_flight {S}.
Arguments hd_now {S}.
Arguments hd_events {S}.
Arguments hd_tasks {S}.

Section handler.
Context `{SerdeJson} {S : Type} `{StepManager S}.
Context (display : CodeAgentError → string) (config : QuiescenceConfig).

Abbreviation HM := (stm (handler S) CodeAgentError).

Definition on_state (f : HandlerState → HandlerState) (m : handler S) : handler S :=
  mkHandler (f (hd_state m)) (hd_steps m) (hd_in_flight m) (hd_now m) (hd_events m) (hd_tasks m).
Definition set_steps_ (s : S) (m : handler S) : handler S :=
  mkHandler (hd_state m) s (hd_in_flight m) (hd_now m) (hd_events m) (hd_tasks m).
Definition on_tasks (f : list task → list task) (m : handler S) : handler S :=
  mkHandler (hd_state m) (hd_steps m) (hd_in_flight m) (hd_now m) (hd_events m) (f (hd_tasks m)).

Definition set_protocol (p : ControlChannelState) (s : HandlerState) : HandlerState :=
  mkHandlerState p (next_ambient_id s) (active_command_step s) (in_quiescence_ s) (ambient_step_id_ s).
Definition set_active_command (a : option StepId) (s : HandlerState) : HandlerState :=
  mkHandlerState (protocol s) (next_ambient_id s) a (in_quiescence_ s) (ambient_step_id_ s).
Definition set_quiescence (b : bool) (s : HandlerState) : HandlerState :=
  mkHandlerState (protocol s) (next_ambient_id s) (active_command_step s) b (ambient_step_id_ s).
Definition set_ambient (a : option StepId) (s : HandlerState) : HandlerState :=
  mkHandlerState (protocol s) (next_ambient_id s) (active_command_step s) (in_quiescence_ s) a.

(** [ControlChannelHandler::new] *)
Definition ControlChannelHandler_new (steps : S) (in_flight now : Z) : handler S :=
  mkHandler (mkHandlerState ControlChannelState_new (-1) None false None) steps in_flight now [] [].

Definition emit (event : HandlerEvent) : HM unit :=
  modify (λ m, mkHandler (hd_state m) (hd_steps m) (hd_in_flight m) (hd_now m)
                 (hd_events m ++ [event]) (hd_tasks m)).

Definition spawn (t : task) : HM unit := modify (on_tasks (λ ts, ts ++ [t])).

(** A call of the step manager; it runs outside the handler's lock. *)
Definition steps {A} (m : stm S CodeAgentError A) : HM A := zoom hd_steps set_steps_ m.

(** [Notify::notify_waiters]: wakes the tasks that are waiting now. *)
Definition wake (t : task) : task :=
  match t with
  | TAmbient a (Some (deadline, _)) => TAmbient a (Some (deadline, true))
  | t => t
  end.
Definition notify_waiters : HM unit := modify (on_tasks (fmap wake)).

(** ** in_flight.rs *)

Definition begin_operation : HM unit :=
  modify (λ m, mkHandler (hd_state m) (hd_steps m) (as_u64 (hd_in_flight m + 1)) (hd_now m)
                 (hd_events m) (hd_tasks m)).
(** [fetch_sub]; the [debug_assert] of the source is not part of a release
    build.  Waiting tasks look at the counter when they are resumed. *)
Definition end_operation : HM unit :=
  modify (λ m, mkHandler (hd_state m) (hd_steps m) (as_u64 (hd_in_flight m - 1)) (hd_now m)
                 (hd_events m) (hd_tasks m)).

(** [wait_for_drain], polled: [Some drained] when it returns.  It looks at the
    counter when it is called, each time the counter has dropped to zero and
    woken it, and when the timeout has elapsed. *)
Definition wait_for_drain (elapsed : bool) (count : Z) : option bool :=
  if count =? 0 then Some true else if elapsed then Some false else None.

(** ** handler.rs *)

(** [match step_manager.close_step(id)]: the error is reported and replaced by
    an empty list. *)
Definition close_or_report (what : string) (id : StepId) : HM (list StepId) :=
  r ← try (steps (sm_close_step id));
  match r with
  | inr evicted => mret evicted
  | inl error =>
      emit (HeProtocolError ("failed to close " +:+ what +:+ " " +:+ pretty id +:+ ": " +:+ display error));;
      mret []
  end.

(** [close_ambient_step_if_open]: [take] under the lock, then the call. *)
Definition take_ambient : HM (option StepId) :=
  ambient_id ← gets (λ m, ambient_step_id_ (hd_state m));
  modify (on_state (set_ambient None));;
  mret ambient_id.

Definition close_ambient_step_if_open : HM unit :=
  ambient_id ← take_ambient;
  match ambient_id with
  | Some ambient_id =>
      notify_waiters;;
      evicted ← close_or_report "ambient step" ambient_id;
      emit (HeAmbientStepClosed ambient_id evicted)
  | None => mret ()
  end.

Definition send_exec (id : Z) (command : string) (env : option (gmap string string))
    (cwd : option string) : HM HostMessage :=
  close_ambient_step_if_open;;
  modify (on_state (λ s, set_protocol (command_sent id command (protocol s)) s));;
  mret (HostExec id command env cwd).

Definition spawn_quiescence_task (step_id : StepId) (exit_code : Z) (cancelled : bool) : HM unit :=
  spawn (TQuiesce step_id exit_code cancelled QStart).

Definition spawn_ambient_timeout_task (ambient_id : StepId) : HM unit :=
  spawn (TAmbient ambient_id None).

(** The [StepStarted] arm of [handle_vm_message]. *)
Definition on_step_started (id : Z) (command : string) : HM unit :=
  let step_id := as_i64 id in
  close_ambient_step_if_open;;
  r ← try (steps (sm_open_step step_id));
  match r with
  | inl error =>
      emit (HeProtocolError ("failed to open step " +:+ pretty step_id +:+ ": " +:+ display error))
  | inr _ =>
      modify (λ m, set_steps_ (sm_set_step_command step_id command (hd_steps m)) m);;
      modify (on_state (set_active_command (Some step_id)));;
      emit (HeStepStarted step_id command)
  end.

Definition process (msg : VmMessage) : HM ControlEvent :=
  s ← gets hd_state;
  let '(event, p) := process_vm_message msg (protocol s) in
  modify (on_state (set_protocol p));;
  mret event.

Definition handle_vm_message (msg : VmMessage) : HM unit :=
  event ← process msg;
  match event with
  | CeStepStarted id command => on_step_started id command
  | CeOutput id stream data => emit (HeOutput (as_i64 id) stream data)
  | CeStepCompleted id exit_code cancelled =>
      let step_id := as_i64 id in
      modify (on_state (λ s, set_quiescence true (set_active_command None s)));;
      spawn_quiescence_task step_id exit_code cancelled
  | CeProtocolError error => emit (HeProtocolError error)
  end.

(** [open_ambient_step]: the identifier is taken under the lock, the step
    manager is called outside it. *)
Definition take_ambient_id : HM StepId :=
  id ← gets (λ m, next_ambient_id (hd_state m));
  modify (on_state (λ s, mkHandlerState (protocol s) (id - 1) (active_command_step s)
                           (in_quiescence_ s) (Some id)));;
  mret id.

Definition open_ambient_step_at (ambient_id : StepId) : HM unit :=
  r ← try (steps (sm_open_step ambient_id));
  match r with
  | inl error =>
      emit (HeProtocolError
              ("failed to open ambient step " +:+ pretty ambient_id +:+ ": " +:+ display error));;
      modify (on_state (set_ambient None))
  | inr _ =>
      emit (HeAmbientStepOpened ambient_id);;
      spawn_ambient_timeout_task ambient_id
  end.

Definition open_ambient_step : HM unit :=
  ambient_id ← take_ambient_id; open_ambient_step_at ambient_id.

(** The two reads of [notify_fs_write], each under the lock. *)
Definition should_open_ambient : HM bool :=
  gets (λ m, let s := hd_state m in
    bool_decide (active_command_step s = None) && negb (in_quiescence_ s)
    && bool_decide (ambient_step_id_ s = None)).
Definition should_reset_ambient : HM bool :=
  gets (λ m, let s := hd_state m in
    bool_decide (active_command_step s = None) && negb (in_quiescence_ s)
    && bool_decide (is_Some (ambient_step_id_ s))).

Definition notify_fs_write : HM unit :=
  should_open ← should_open_ambient;
  should_reset ← should_reset_ambient;
  if should_open : bool then open_ambient_step
  else if should_reset : bool then notify_waiters
  else mret ().

Definition cancel (id : Z) : HM unit :=
  s ← gets hd_state;
  let '(result, p) := cancel_command id (protocol s) in
  modify (on_state (set_protocol p));;
  match result with
  | Ok (CeStepCompleted id exit_code cancelled) =>
      emit (HeStepCompleted (as_i64 id) exit_code cancelled [])
  | Ok (CeProtocolError error) => emit (HeProtocolError error)
  | Ok _ => mret ()
  | Err error => emit (HeProtocolError (control_error_display error))
  | Panic => lift Panic
  end.

Definition in_quiescence : HM bool := gets (λ m, in_quiescence_ (hd_state m)).
Definition ambient_step_id : HM (option StepId) := gets (λ m, ambient_step_id_ (hd_state m)).

(** ** The quiescence task

    Each piece runs from one suspension point to the next; [None] is the
    [break] out of the loop. *)

Definition quiesce_idle (max_deadline : Z) : HM (option quiesce_wait) :=
  now ← gets hd_now;
  let remaining := Z.max 0 (max_deadline - now) in
  if remaining =? 0 then mret None
  else mret (Some (QIdle (now + Z.min remaining (idle_timeout config)) max_deadline)).

Definition quiesce_loop (max_deadline : Z) : HM (option quiesce_wait) :=
  now ← gets hd_now;
  let remaining := Z.max 0 (max_deadline - now) in
  if remaining =? 0 then mret None
  else
    count ← gets hd_in_flight;
    match wait_for_drain false count with
    | Some true => quiesce_idle max_deadline
    | Some false => mret None
    | None => mret (Some (QDrain (now + remaining) max_deadline))
    end.

Definition quiesce_resume (w : quiesce_wait) : HM (option quiesce_wait) :=
  count ← gets hd_in_flight;
  now ← gets hd_now;
  match w with
  | QStart => quiesce_loop (now + max_timeout config)
  | QDrain until max_deadline =>
      match wait_for_drain (until <=? now) count with
      | Some true => quiesce_idle max_deadline
      | Some false => mret None
      | None => mret (Some w)
      end
  | QIdle _ max_deadline => if count =? 0 then mret None else quiesce_loop max_deadline
  end.

Definition quiesce_close (step_id : StepId) (exit_code : Z) (cancelled : bool) : HM unit :=
  evicted ← close_or_report "step" step_id;
  modify (on_state (set_quiescence false));;
  emit (HeStepCompleted step_id exit_code cancelled evicted).

(** ** The ambient timeout task *)

(** The timer branch: check and take under the lock, then close. *)
Definition ambient_expire (ambient_id : StepId) : HM bool :=
  current ← gets (λ m, ambient_step_id_ (hd_state m));
  if bool_decide (current = Some ambient_id)
  then modify (on_state (set_ambient None));; mret true
  else mret false.

Definition ambient_close (ambient_id : StepId) : HM unit :=
  evicted ← close_or_report "ambient step" ambient_id;
  emit (HeAmbientStepClosed ambient_id evicted).

Definition ambient_timer (ambient_id : StepId) : HM unit :=
  mine ← ambient_expire ambient_id;
  if mine : bool then ambient_close ambient_id else mret ().

(** The notification branch: the new deadline, or [None] to return. *)
Definition ambient_notified (ambient_id : StepId) : HM (option (Z * bool)) :=
  current ← gets (λ m, ambient_step_id_ (hd_state m));
  now ← gets hd_now;
  if bool_decide (current = Some ambient_id)
  then mret (Some (now + ambient_inactivity_timeout config, false))
  else mret None.

(** Whether a suspended task can run; a task that has both its timer expired
    and a notification may take either branch ([by_timer]). *)
Definition ready (by_timer : bool) (t : task) (m : handler S) : bool :=
  match t with
  | TQuiesce _ _ _ QStart => true
  | TQuiesce _ _ _ (QDrain until _) =>
      bool_decide (is_Some (wait_for_drain (until <=? hd_now m) (hd_in_flight m)))
  | TQuiesce _ _ _ (QIdle until _) => until <=? hd_now m
  | TAmbient _ None => true
  | TAmbient _ (Some (deadline, notified)) =>
      if by_timer then deadline <=? hd_now m else notified
  end.

(** Run a task to its next suspension point, or to its end. *)
Definition resume (by_timer : bool) (t : task) : HM (option task) :=
  match t with
  | TQuiesce step_id exit_code cancelled w =>
      next ← quiesce_resume w;
      match next with
      | Some w' => mret (Some (TQuiesce step_id exit_code cancelled w'))
      | None => quiesce_close step_id exit_code cancelled;; mret None
      end
  | TAmbient ambient_id None =>
      now ← gets hd_now;
      mret (Some (TAmbient ambient_id (Some (now + ambient_inactivity_timeout config, false))))
  | TAmbient ambient_id (Some _) =>
      if by_timer then ambient_timer ambient_id;; mret None
      else next ← ambient_notified ambient_id;
           match next with
           | Some w' => mret (Some (TAmbient ambient_id (Some w')))
           | None => mret None
           end
  end.

(** The executor resumes the [i]-th task if it is ready. *)
Definition resume_at (i : nat) (by_timer : bool) : HM unit :=
  m ← get;
  match hd_tasks m !! i with
  | Some t =>
      if ready by_timer t m then
        next ← resume by_timer t;
        modify (on_tasks (λ ts, take i ts ++ option_list next ++ drop (Datatypes.S i) ts))
      else mret ()
  | None => mret ()
  end.

Definition tick (d : Z) : HM unit :=
  modify (λ m, mkHandler (hd_state m) (hd_steps m) (hd_in_flight m) (hd_now m + Z.max 0 d)
                 (hd_events m) (hd_tasks m)).

End handler.
