(* ===== verification/ControlTheorems.v ===== *)
(** * Correctness of the control channel handler

    The handler is proved against the interface of the step manager: the class
    [StepManagerLaws] states what the handler relies on, and the undo
    interceptor is shown to provide it in [ControlUndo]. *)

From stdpp Require Import base gmap strings list pretty relations.
From S2P Require Import Prelude HostFs Common ControlProtocol ControlHandler.
#[local] Open Scope Z_scope.

(** ** What the handler relies on

    [good] is the step manager's own invariant and [env] what the file system
    backend may do to it in between (a denied safeguard cancels the step). *)
Class StepManagerLaws {S} `{StepManager S} (good : S → Prop) (env : relation S) := {
  sml_open id s : good s → sm_current_step s = None →
    ∃ s', sm_open_step id s = (Ok (), s') ∧ good s' ∧ sm_current_step s' = Some id;
  sml_close id s : good s →
    ∃ r s', sm_close_step id s = (r, s') ∧ r ≠ Panic ∧ good s' ∧ sm_current_step s' = None;
  sml_command id c s : good s →
    good (sm_set_step_command id c s) ∧ sm_current_step (sm_set_step_command id c s) = sm_current_step s;
  sml_env s s' : env s s' → good s →
    good s' ∧ (sm_current_step s' = sm_current_step s ∨ sm_current_step s' = None);
}.

(** ** The phases of the handler *)

Definition quiescing (ts : list task) : list StepId :=
  omap (λ t, match t with TQuiesce s _ _ _ => Some s | TAmbient _ _ => None end) ts.

Definition cur_in {S} `{StepManager S} (m : handler S) (s : StepId) : Prop :=
  sm_current_step (hd_steps m) = None ∨ sm_current_step (hd_steps m) = Some s.

(** At any moment the handler is idle, runs one command, waits for one command
    to become quiescent, or keeps one ambient step open; the step manager's
    open step, if there is one, is the one of that phase. *)
Inductive phase {S} `{StepManager S} (m : handler S) : option StepId → Prop :=
  | ph_idle :
      active_command_step (hd_state m) = None → in_quiescence_ (hd_state m) = false →
      ambient_step_id_ (hd_state m) = None → quiescing (hd_tasks m) = [] →
      active (protocol (hd_state m)) = ∅ → sm_current_step (hd_steps m) = None →
      phase m None
  | ph_command id :
      active_command_step (hd_state m) = Some (as_i64 id) → in_quiescence_ (hd_state m) = false →
      ambient_step_id_ (hd_state m) = None → quiescing (hd_tasks m) = [] →
      dom (active (protocol (hd_state m))) = {[id]} → cur_in m (as_i64 id) →
      phase m (Some (as_i64 id))
  | ph_quiescing s :
      active_command_step (hd_state m) = None → in_quiescence_ (hd_state m) = true →
      ambient_step_id_ (hd_state m) = None → quiescing (hd_tasks m) = [s] →
      active (protocol (hd_state m)) = ∅ → cur_in m s →
      phase m (Some s)
  | ph_ambient a :
      active_command_step (hd_state m) = None → in_quiescence_ (hd_state m) = false →
      ambient_step_id_ (hd_state m) = Some a → quiescing (hd_tasks m) = [] →
      active (protocol (hd_state m)) = ∅ → cur_in m a →
      (∃ w, TAmbient a w ∈ hd_tasks m) →
      phase m (Some a).

Section handler.
Context `{SerdeJson} {S : Type} `{StepManager S} {good : S → Prop} {env : relation S}.
Context `{!StepManagerLaws good env}.
Context (display : CodeAgentError → string) (config : QuiescenceConfig).

Record handler_inv (m : handler S) : Prop := mkHandlerInv {
  hi_good : good (hd_steps m);
  hi_phase : ∃ o, phase m o;
}.

(** The guest runs one command at a time, and the host sends the next one
    after the step of the last one has been closed. *)
Definition one_at_a_time (msg : VmMessage) (m : handler S) : Prop :=
  match msg with
  | VmStepStarted _ => active (protocol (hd_state m)) = ∅ ∧ in_quiescence_ (hd_state m) = false
  | _ => True
  end.

(** Everything that can happen to the handler, in any order. *)
Inductive client_step : relation (handler S) :=
  | cs_exec id command envs cwd m : client_step m (send_exec display id command envs cwd m).2
  | cs_message msg m : one_at_a_time msg m → client_step m (handle_vm_message display msg m).2
  | cs_write m : client_step m (notify_fs_write display m).2
  | cs_cancel id m : client_step m (cancel id m).2
  | cs_resume i by_timer m : client_step m (resume_at display config i by_timer m).2
  | cs_begin m : client_step m (begin_operation m).2
  | cs_end m : client_step m (end_operation m).2
  | cs_tick d m : client_step m (tick d m).2
  | cs_backend s m : env (hd_steps m) s → client_step m (set_steps_ s m).

(** ** The pieces *)

Lemma quiescing_app ts us : quiescing (ts ++ us) = quiescing ts ++ quiescing us.
Proof. apply omap_app. Qed.

Lemma quiescing_wake ts : quiescing (wake <$> ts) = quiescing ts.
Proof.
  unfold quiescing. induction ts as [|[| ? [[]|]] ts IH]; [done|..|done]; [|exact IH..].
  cbn. f_equal. exact IH.
Qed.

Lemma wake_ambient a (ts : list task) : (∃ w, TAmbient a w ∈ ts) → ∃ w, TAmbient a w ∈ wake <$> ts.
Proof.
  intros [w Hw]. destruct w as [[d b]|]; eexists; apply list_elem_of_fmap;
    eexists; (split; [|exact Hw]); done.
Qed.

(** [emit] changes nothing the invariant speaks of. *)
Definition same_but_events (m m' : handler S) : Prop :=
  hd_state m' = hd_state m ∧ hd_steps m' = hd_steps m ∧ hd_tasks m' = hd_tasks m ∧
  hd_now m' = hd_now m ∧ hd_in_flight m' = hd_in_flight m.

(** Closing a step: whatever the step manager answers, no step is open
    afterwards. *)
Lemma close_or_report_ok what id m :
  good (hd_steps m) →
  ∃ ev m', close_or_report display what id m = (Ok ev, m') ∧
    good (hd_steps m') ∧ sm_current_step (hd_steps m') = None ∧
    hd_state m' = hd_state m ∧ hd_tasks m' = hd_tasks m ∧ hd_now m' = hd_now m.
Proof.
  intros Hg. destruct (sml_close id _ Hg) as (r & s' & Hc & Hr & Hg' & Hcur).
  unfold close_or_report, mbind, stm_bind, try, steps, zoom. rewrite Hc.
  destruct r as [ev|e|]; [| |done]; eexists _, _; (split; [reflexivity|]); done.
Qed.

(** Opening a step when none is open. *)
Lemma open_ok id m :
  good (hd_steps m) → sm_current_step (hd_steps m) = None →
  ∃ s', try (steps (sm_open_step id)) m = (Ok (inr ()), set_steps_ s' m) ∧ good s' ∧
        sm_current_step s' = Some id.
Proof.
  intros Hg Hcur. destruct (sml_open id _ Hg Hcur) as (s' & Ho & ? & ?).
  exists s'. split; [|done]. unfold try, steps, zoom. by rewrite Ho.
Qed.

(** After [close_ambient_step_if_open] no ambient step is open, neither for the
    handler nor for the step manager. *)
Lemma close_ambient_ok m :
  good (hd_steps m) →
  ∃ m', close_ambient_step_if_open display m = (Ok (), m') ∧ good (hd_steps m') ∧
    hd_state m' = set_ambient None (hd_state m) ∧
    quiescing (hd_tasks m') = quiescing (hd_tasks m) ∧
    sm_current_step (hd_steps m') =
      match ambient_step_id_ (hd_state m) with
      | Some _ => None
      | None => sm_current_step (hd_steps m)
      end.
Proof.
  intros Hg. unfold close_ambient_step_if_open, take_ambient.
  erewrite stm_bind_ok by done. destruct (ambient_step_id_ (hd_state m)) as [a|] eqn:Ea.
  - erewrite stm_bind_ok by done.
    destruct (close_or_report_ok "ambient step" a
      (on_tasks (fmap wake) (on_state (set_ambient None) m)))
      as (ev & m' & Hc & Hg' & Hcur & Hst & Hts & _); [done|].
    rewrite (stm_bind_ok _ _ _ _ _ Hc). eexists. split; [reflexivity|]. simpl. rewrite Hst, Hts.
    split_and!; [done | done | apply quiescing_wake | done].
  - by eexists.
Qed.

(** The phase depends on little of the state. *)
Lemma phase_ext (m m' : handler S) o :
  active_command_step (hd_state m') = active_command_step (hd_state m) →
  in_quiescence_ (hd_state m') = in_quiescence_ (hd_state m) →
  ambient_step_id_ (hd_state m') = ambient_step_id_ (hd_state m) →
  quiescing (hd_tasks m') = quiescing (hd_tasks m) →
  (∀ a, ambient_step_id_ (hd_state m) = Some a →
     (∃ w, TAmbient a w ∈ hd_tasks m) → ∃ w, TAmbient a w ∈ hd_tasks m') →
  dom (active (protocol (hd_state m'))) = dom (active (protocol (hd_state m))) →
  (sm_current_step (hd_steps m') = sm_current_step (hd_steps m) ∨
   sm_current_step (hd_steps m') = None) →
  phase m o → phase m' o.
Proof.
  intros Ha Hq Hb Hts Ham Hdom Hcur Hph.
  assert (active (protocol (hd_state m)) = ∅ → active (protocol (hd_state m')) = ∅) as Hempty.
  { intros He. apply dom_empty_iff_L. by rewrite Hdom, He, dom_empty_L. }
  assert (∀ s, cur_in m s → cur_in m' s) as Hin.
  { unfold cur_in. intros s. destruct Hcur as [->| ->]; auto. }
  destruct Hph as [????? Hc|id ???? Hd ?|s|a].
  - apply ph_idle; try congruence; [auto|]. destruct Hcur; congruence.
  - apply ph_command; try congruence. auto.
  - apply ph_quiescing; try congruence; auto.
  - apply ph_ambient; try congruence; auto.
Qed.

Lemma inv_exec id command envs cwd m :
  handler_inv m → handler_inv (send_exec display id command envs cwd m).2.
Proof.
  intros [Hg [o Hph]]. unfold send_exec.
  destruct (close_ambient_ok m Hg) as (m' & Hm' & Hg' & Hst & Hts & Hcur).
  rewrite (stm_bind_ok _ _ _ _ _ Hm'). simpl. split; [done|].
  destruct (ambient_step_id_ (hd_state m)) as [a|] eqn:Ea.
  - exists None. destruct Hph; simplify_eq; apply ph_idle; simpl; rewrite ?Hst, ?Hts; simpl; done.
  - exists o. eapply phase_ext, Hph; simpl; rewrite ?Hst; simpl; auto. congruence.
Qed.

(** A command that starts while no other runs gets its step, whether or not an
    ambient step was open. *)
Lemma step_started_ok id command m o :
  good (hd_steps m) → phase m o →
  active (protocol (hd_state m)) = ∅ → in_quiescence_ (hd_state m) = false →
  pc_command <$> pending (protocol (hd_state m)) !! id = Some command →
  ∃ m', handle_vm_message display (VmStepStarted id) m = (Ok (), m') ∧
    good (hd_steps m') ∧ phase m' (Some (as_i64 id)) ∧
    active_command_step (hd_state m') = Some (as_i64 id) ∧
    sm_current_step (hd_steps m') = Some (as_i64 id) ∧
    last (hd_events m') = Some (HeStepStarted (as_i64 id) command).
Proof.
  intros Hg Hph Hact Hq Hpend.
  destruct (pending (protocol (hd_state m)) !! id) as [pe|] eqn:Epe; [|done]. simpl in Hpend. simplify_eq.
  set (p' := mkChannel (delete id (pending (protocol (hd_state m))))
               (<[id := mkActive id (pc_command pe) false]> (active (protocol (hd_state m))))).
  assert (process_vm_message (VmStepStarted id) (protocol (hd_state m)) =
          (CeStepStarted id (pc_command pe), p')) as Hproc.
  { simpl. unfold handle_step_started. by rewrite Hact, lookup_empty, Epe, <- Hact. }
  assert (handle_vm_message display (VmStepStarted id) m =
          on_step_started display id (pc_command pe) (on_state (set_protocol p') m)) as ->.
  { unfold handle_vm_message, process, mbind, stm_bind. simpl in Hproc |- *. by rewrite Hproc. }
  unfold on_step_started.
  destruct (close_ambient_ok (on_state (set_protocol p') m)) as (m1 & Hm1 & Hg1 & Hst & Hts & Hcur); [done|].
  rewrite (stm_bind_ok _ _ _ _ _ Hm1).
  assert (sm_current_step (hd_steps m1) = None ∧ quiescing (hd_tasks m1) = []) as [Hcur1 Hq1].
  { rewrite Hcur, Hts. simpl. destruct Hph as [|id' ???? Hd| |a]; [| | congruence |].
    - by destruct (ambient_step_id_ (hd_state m)).
    - rewrite Hact, dom_empty_L in Hd. set_solver.
    - by replace (ambient_step_id_ (hd_state m)) with (Some a). }
  destruct (open_ok (as_i64 id) m1 Hg1 Hcur1) as (s2 & Ho & Hg2 & Hcur2).
  rewrite (stm_bind_ok _ _ _ _ _ Ho). destruct (sml_command (as_i64 id) (pc_command pe) s2 Hg2) as [Hg3 Hcur3].
  eexists. split; [reflexivity|]. simpl. rewrite Hst. simpl.
  split_and!; [done | | done | congruence | by rewrite last_snoc].
  apply ph_command; simpl; rewrite ?Hst; simpl; try done.
  - by rewrite Hact, dom_insert_L, dom_empty_L, union_empty_r_L.
  - right. simpl. congruence.
Qed.

Lemma handle_vm_message_unfold msg m :
  handle_vm_message display msg m =
  let '(event, p) := process_vm_message msg (protocol (hd_state m)) in
  match event with
  | CeStepStarted id command => on_step_started display id command
  | CeOutput id stream data => emit (HeOutput (as_i64 id) stream data)
  | CeStepCompleted id exit_code cancelled =>
      modify (on_state (λ s, set_quiescence true (set_active_command None s)));;
      spawn_quiescence_task (as_i64 id) exit_code cancelled
  | CeProtocolError error => emit (HeProtocolError error)
  end (on_state (set_protocol p) m).
Proof.
  unfold handle_vm_message, process, mbind, stm_bind. simpl. by destruct (process_vm_message _ _).
Qed.

Lemma inv_message msg m :
  one_at_a_time msg m → handler_inv m → handler_inv (handle_vm_message display msg m).2.
Proof.
  intros Hone [Hg [o Hph]].
  assert (∀ e, handler_inv (emit e (on_state (set_protocol (protocol (hd_state m))) m)).2) as Hemit.
  { intros e. split; [done|]. exists o. eapply phase_ext, Hph; simpl; auto. }
  destruct msg as [id|id st d|id code].
  - destruct Hone as [Hact Hq].
    destruct (pending (protocol (hd_state m)) !! id) as [pe|] eqn:Epe.
    + destruct (step_started_ok id (pc_command pe) m o) as (m' & -> & ? & ? & _);
        rewrite ?Epe; [done..|]. split; [done | by eexists].
    + rewrite handle_vm_message_unfold. simpl. unfold handle_step_started.
      rewrite Hact, lookup_empty, Epe. apply Hemit.
  - rewrite handle_vm_message_unfold. simpl. unfold handle_output. destruct (_ !! _); apply Hemit.
  - rewrite handle_vm_message_unfold. simpl. unfold handle_step_completed.
    destruct (active (protocol (hd_state m)) !! id) as [a|] eqn:Ea; [|apply Hemit].
    split; [done|]. simpl.
    assert (id ∈ dom (active (protocol (hd_state m)))) as Hid by (apply elem_of_dom; by eexists).
    destruct Hph as [???? Hd|id' Hac Hq Ham Hqs Hd Hcur|??? ? ? Hd|???? ? Hd];
      rewrite ?Hd, ?dom_empty_L in Hid; try set_solver.
    assert (id = id') as <- by set_solver. exists (Some (as_i64 id)). apply ph_quiescing; simpl; try done.
    + by rewrite quiescing_app, Hqs.
    + apply dom_empty_iff_L. rewrite dom_delete_L, Hd. set_solver.
Qed.

Lemma inv_write m : handler_inv m → handler_inv (notify_fs_write display m).2.
Proof.
  intros [Hg [o Hph]]. unfold notify_fs_write. erewrite stm_bind_ok by done.
  erewrite stm_bind_ok by done. simpl.
  assert (∀ m', hd_state m' = hd_state m → hd_steps m' = hd_steps m → hd_tasks m' = wake <$> hd_tasks m →
    handler_inv m') as Hwake.
  { intros m' Hst Hs Hts. split; [by rewrite Hs|]. exists o.
    eapply phase_ext, Hph; rewrite ?Hst, ?Hs, ?Hts; auto using quiescing_wake, wake_ambient. }
  destruct (bool_decide (active_command_step (hd_state m) = None)
            && negb (in_quiescence_ (hd_state m))) eqn:E1; simpl; [|split; [done | by eexists]].
  apply andb_true_iff in E1 as [E1%bool_decide_eq_true E2%negb_true_iff].
  case_bool_decide as Ea; [|case_bool_decide; [by apply Hwake | split; [done | by eexists]]].
  unfold open_ambient_step, take_ambient_id. erewrite stm_bind_ok by done.
  assert (sm_current_step (hd_steps m) = None ∧ quiescing (hd_tasks m) = [] ∧
          active (protocol (hd_state m)) = ∅) as (Hc & Hq & Hact).
  { destruct Hph; [done | congruence..]. }
  unfold open_ambient_step_at.
  match goal with |- context [(try (steps (sm_open_step ?i)) ≫= _) ?mm] =>
    destruct (open_ok i mm Hg Hc) as (s2 & Ho & Hg2 & Hcur2) end.
  rewrite (stm_bind_ok _ _ _ _ _ Ho). split; [done|]. simpl. eexists. eapply ph_ambient; simpl; try done.
  - by rewrite quiescing_app, Hq.
  - right. exact Hcur2.
  - exists None. set_solver.
Qed.

Lemma inv_cancel id m : handler_inv m → handler_inv (cancel id m).2.
Proof.
  intros [Hg [o Hph]]. unfold cancel. erewrite stm_bind_ok by done.
  destruct (cancel_command id (protocol (hd_state m))) as [r p] eqn:Ec.
  erewrite stm_bind_ok by done.
  assert (dom (active p) = dom (active (protocol (hd_state m)))) as Hdom.
  { unfold cancel_command, mbind, stm_bind, get, put, throw, mret, stm_ret in Ec. simpl in Ec.
    repeat case_match; simplify_eq/=; try done. rewrite dom_insert_L.
    assert (id ∈ dom (active (protocol (hd_state m)))) by (apply elem_of_dom; by eexists). set_solver. }
  assert (∀ m', hd_state m' = set_protocol p (hd_state m) → hd_steps m' = hd_steps m →
    hd_tasks m' = hd_tasks m → handler_inv m') as Hk.
  { intros m' Hst Hs Hts. split; [by rewrite Hs|]. exists o.
    eapply phase_ext, Hph; rewrite ?Hst, ?Hs, ?Hts; simpl; auto. }
  destruct r as [[]| |]; by apply Hk.
Qed.

(** ** Tasks *)

(** The executor's bookkeeping around one task. *)
Lemma quiescing_replace (ts : list task) i t next :
  ts !! i = Some t → quiescing (option_list next) = quiescing [t] →
  quiescing (take i ts ++ option_list next ++ drop (Datatypes.S i) ts) = quiescing ts.
Proof.
  intros Hi Hn. rewrite <- (take_drop_middle ts i t Hi) at 3.
  rewrite !quiescing_app, Hn. by rewrite <- quiescing_app.
Qed.

Lemma ambient_replace (ts : list task) i t next a :
  ts !! i = Some t → (∀ w, t = TAmbient a w → ∃ w', next = Some (TAmbient a w')) →
  (∃ w, TAmbient a w ∈ ts) →
  ∃ w, TAmbient a w ∈ take i ts ++ option_list next ++ drop (Datatypes.S i) ts.
Proof.
  intros Hi Hn [w Hw]. rewrite <- (take_drop_middle ts i t Hi) in Hw.
  apply elem_of_app in Hw as [Hw|[Ht|Hw]%elem_of_cons]; [by exists w; set_solver | | by exists w; set_solver].
  destruct (Hn w (eq_sym Ht)) as [w' ->]. exists w'. set_solver.
Qed.

(** A quiescence task either waits again or finishes, without touching
    anything. *)
Lemma quiesce_resume_ok w (m : handler S) : ∃ next, quiesce_resume config w m = (Ok next, m).
Proof.
  unfold quiesce_resume, quiesce_loop, quiesce_idle, mbind, stm_bind. simpl.
  destruct w; repeat case_match; by eexists.
Qed.

Definition replace_task (i : nat) (next : option task) : handler S → handler S :=
  on_tasks (λ ts, take i ts ++ option_list next ++ drop (Datatypes.S i) ts).

Lemma inv_quiesce i b s code c w m :
  hd_tasks m !! i = Some (TQuiesce s code c w) → handler_inv m →
  ∃ next m1, resume display config b (TQuiesce s code c w) m = (Ok next, m1) ∧
    handler_inv (replace_task i next m1).
Proof.
  intros Hi [Hg [o Hph]]. unfold resume. destruct (quiesce_resume_ok w m) as [[w'|] Hw];
    rewrite (stm_bind_ok _ _ _ _ _ Hw).
  - eexists _, m. split; [reflexivity|]. split; [done|]. exists o.
    assert (∀ w, TQuiesce s code c w' = TQuiesce s code c w → True) by done.
    eapply phase_ext, Hph; simpl; auto.
    + by eapply (quiescing_replace _ _ _ (Some _)).
    + intros a _. by eapply (ambient_replace _ _ _ (Some _)).
  - unfold quiesce_close. destruct (close_or_report_ok "step" s m Hg)
      as (ev & m1 & Hc & Hg1 & Hcur & Hst & Hts & _).
    eexists None, _. split; [unfold mbind, stm_bind; rewrite Hc; reflexivity|].
    split; [done|]. exists None.
    assert (s ∈ quiescing (hd_tasks m)) as Hin.
    { apply list_elem_of_omap. eexists. split; [by eapply list_elem_of_lookup_2|done]. }
    destruct Hph as [??? Hq|???? Hq|s' ??? Hq|???? Hq]; rewrite Hq in Hin; try set_solver.
    assert (quiescing (take i (hd_tasks m) ++ drop (Datatypes.S i) (hd_tasks m)) = []) as Hnil.
    { rewrite <- (take_drop_middle _ _ _ Hi) in Hq. rewrite quiescing_app in Hq |- *. simpl in Hq.
      destruct (quiescing (take i _)) as [|x l]; simpl in Hq; simplify_eq; [done|]. by destruct l. }
    apply ph_idle; simpl; rewrite ?Hst, ?Hts; simpl; done.
Qed.

Lemma inv_ambient i b a w m :
  hd_tasks m !! i = Some (TAmbient a w) → handler_inv m →
  ∃ next m1, resume display config b (TAmbient a w) m = (Ok next, m1) ∧
    handler_inv (replace_task i next m1).
Proof.
  intros Hi [Hg [o Hph]].
  assert (∀ next, (∃ w', next = Some (TAmbient a w')) ∨
                  (next = None ∧ ambient_step_id_ (hd_state m) ≠ Some a) →
    handler_inv (replace_task i next m)) as Hk.
  { intros next Hn. split; [done|]. exists o. eapply phase_ext, Hph; simpl; auto.
    - eapply quiescing_replace; [done|]. by destruct Hn as [[w' ->]|[-> _]].
    - intros a' Ha'. eapply ambient_replace; [done|]. intros w' [= -> ->].
      destruct Hn as [[w'' ->]|[_ Hne]]; [by eexists | done]. }
  destruct w as [dl|]; [|eexists _, m; split; [reflexivity|]; apply Hk; left; by eexists].
  destruct b; cbn [resume].
  - unfold ambient_timer, ambient_expire, mbind, stm_bind. simpl. case_bool_decide as Ea; simpl.
    + unfold ambient_close, mbind, stm_bind. simpl.
      destruct (close_or_report_ok "ambient step" a (on_state (set_ambient None) m))
        as (ev & m1 & -> & Hg1 & Hcur & Hst & Hts & _); [done|]. simpl.
      eexists None, _. split; [reflexivity|]. split; [done|]. exists None.
      destruct Hph as [| | |a' ???? ? ?]; try congruence.
      apply ph_idle; simpl; rewrite ?Hst, ?Hts; simpl; try done.
      pose proof (quiescing_replace _ _ _ None Hi eq_refl) as Hr. simpl in Hr. by rewrite Hr.
    + eexists None, m. split; [reflexivity|]. apply Hk. by right.
  - unfold ambient_notified, mbind, stm_bind. simpl. case_bool_decide as Ea; simpl;
      eexists _, m; (split; [reflexivity|]); apply Hk; [left; by eexists | by right].
Qed.

Lemma inv_resume i b m : handler_inv m → handler_inv (resume_at display config i b m).2.
Proof.
  intros Hinv. unfold resume_at. erewrite stm_bind_ok by done.
  destruct (hd_tasks m !! i) as [t|] eqn:Ei; [|done]. destruct (ready b t m); [|done].
  assert (∃ next m1, resume display config b t m = (Ok next, m1) ∧ handler_inv (replace_task i next m1))
    as (next & m1 & Hr & ?); [|by rewrite (stm_bind_ok _ _ _ _ _ Hr)].
  destruct t; [by apply inv_quiesce | by apply inv_ambient].
Qed.

Lemma client_step_inv m m' : client_step m m' → handler_inv m → handler_inv m'.
Proof.
  intros [] Hinv; auto using inv_exec, inv_message, inv_write, inv_cancel, inv_resume.
  all: destruct Hinv as [Hg [o Hph]].
  4: { destruct (sml_env _ _ ltac:(eassumption) Hg) as [Hg' Hcur]. split; [done|]. exists o.
       eapply phase_ext, Hph; simpl; auto. }
  all: split; [done|]; exists o; eapply phase_ext, Hph; simpl; auto.
Qed.

Lemma handler_new_inv s n t :
  good s → sm_current_step s = None → handler_inv (ControlChannelHandler_new s n t).
Proof. intros Hg Hc. split; [done|]. exists None. by apply ph_idle. Qed.

(** What the handler attributes file system writes to. *)
Definition step_owner (m : handler S) : option StepId :=
  let st := hd_state m in
  match active_command_step st, quiescing (hd_tasks m), ambient_step_id_ st with
  | Some s, _, _ => Some s
  | None, s :: _, _ => Some s
  | None, [], a => a
  end.


(** ** The quiescence window *)

(** The life of one quiescence task: the times at which it was resumed, the
    in-flight counts it saw then, and where it waits now. *)
Inductive quiesce_path (step_id : StepId) (code : Z) (c : bool)
    : list (Z * Z) → quiesce_wait → Prop :=
  | qp_start : quiesce_path step_id code c [] QStart
  | qp_resume obs w w' b (m : handler S) :
      quiesce_path step_id code c obs w →
      ready b (TQuiesce step_id code c w) m = true →
      quiesce_resume config w m = (Ok (Some w'), m) →
      quiesce_path step_id code c (obs ++ [(hd_now m, hd_in_flight m)]) w'.

(** The wait fits what the task saw last. *)
Definition wait_ok (t0 : Z) (seen : Z * Z) (w : quiesce_wait) : Prop :=
  let deadline := t0 + max_timeout config in
  match w with
  | QStart => False
  | QDrain until d => d = deadline ∧ until = deadline
  | QIdle until d =>
      d = deadline ∧ seen.2 = 0 ∧ seen.1 < deadline ∧
      until = seen.1 + Z.min (deadline - seen.1) (idle_timeout config)
  end.

Lemma quiesce_loop_wait t0 (m : handler S) w :
  quiesce_loop config (t0 + max_timeout config) m = (Ok (Some w), m) →
  wait_ok t0 (hd_now m, hd_in_flight m) w.
Proof.
  unfold quiesce_loop, quiesce_idle, wait_for_drain, mbind, stm_bind, mret, stm_ret. simpl. intros Hl.
  repeat (case_match; simplify_eq/=); unfold wait_ok; simpl; split_and!; try done; lia.
Qed.

Lemma quiesce_idle_wait t0 (m : handler S) w :
  hd_in_flight m = 0 →
  quiesce_idle config (t0 + max_timeout config) m = (Ok (Some w), m) →
  wait_ok t0 (hd_now m, hd_in_flight m) w.
Proof.
  unfold quiesce_idle, mbind, stm_bind, mret, stm_ret. simpl. intros Hc Hl.
  repeat (case_match; simplify_eq/=); unfold wait_ok; simpl; split_and!; try done; lia.
Qed.

Lemma quiesce_path_nil step_id code c obs w :
  quiesce_path step_id code c obs w → obs = [] → w = QStart.
Proof. destruct 1; [done|]. by intros [_ ?]%app_nil. Qed.

Lemma quiesce_path_wait step_id code c obs w t0 c0 rest :
  quiesce_path step_id code c obs w → obs = (t0, c0) :: rest →
  ∃ seen, last obs = Some seen ∧ wait_ok t0 seen w.
Proof.
  intros Hp. revert rest. induction Hp as [|obs w w' b m Hp IH Hr Hw]; intros rest Hobs; [done|].
  eexists. rewrite last_snoc. split; [reflexivity|].
  destruct obs as [|[t1 c1] obs'].
  - rewrite (quiesce_path_nil _ _ _ _ _ Hp eq_refl) in Hw. simplify_eq/=. by apply quiesce_loop_wait in Hw.
  - simpl in Hobs. simplify_eq. destruct (IH _ eq_refl) as (seen & _ & Hok).
    unfold quiesce_resume in Hw. erewrite stm_bind_ok in Hw by done. erewrite stm_bind_ok in Hw by done.
    destruct w as [|u d|u d]; [done| |]; destruct Hok as [-> Hok]; simpl in Hr.
    + apply bool_decide_eq_true in Hr. unfold wait_for_drain in Hr, Hw.
      destruct (Z.eqb_spec (hd_in_flight m) 0); [by apply quiesce_idle_wait|].
      destruct (u <=? hd_now m); [done | by destruct Hr].
    + destruct (Z.eqb_spec (hd_in_flight m) 0); [done|].
      by apply quiesce_loop_wait.
Qed.

(** C30. The quiescence window is bounded and means what it says: once a
    completed command's task has started at time [t0], resuming it at or after
    [t0 + max_timeout] always closes the step; and if it closes the step
    earlier, no file system operation is in flight then, nor was one when the
    task was resumed before, at least [idle_timeout] ago. *)
Theorem quiescence_window step_id code c t0 c0 rest w b (m : handler S) :
  quiesce_path step_id code c ((t0, c0) :: rest) w →
  ready b (TQuiesce step_id code c w) m = true →
  (t0 + max_timeout config ≤ hd_now m → quiesce_resume config w m = (Ok None, m)) ∧
  (hd_now m < t0 + max_timeout config → quiesce_resume config w m = (Ok None, m) →
     hd_in_flight m = 0 ∧
     ∃ t1, last ((t0, c0) :: rest) = Some (t1, 0) ∧ t1 + idle_timeout config ≤ hd_now m).
Proof.
  intros Hp Hr. destruct (quiesce_path_wait _ _ _ _ _ _ _ _ Hp eq_refl) as ([t1 c1] & Hlast & Hok).
  unfold quiesce_resume, quiesce_loop, quiesce_idle, wait_for_drain, mbind, stm_bind, mret, stm_ret.
  simpl. destruct w as [|u d|u d]; [done| |]; simpl in Hok, Hr; destruct_and!; subst.
  - split; intros.
    + repeat case_match; try done; lia.
    + exfalso. repeat case_match; simplify_eq; lia.
  - split; intros.
    + repeat case_match; try done; lia.
    + apply Z.leb_le in Hr. split; [repeat case_match; simplify_eq; lia|].
      exists t1. split; [done|]. lia.
Qed.

End handler.
