(* ===== verification/ControlUndo.v ===== *)
(** * The undo interceptor as the control channel's step manager

    [impl StepManager for UndoInterceptor], and the proof that it provides what
    the handler relies on ([StepManagerLaws]) as long as undo is enabled and
    the undo directory does not fail.  Between two calls of the handler the
    file system backend runs the write hooks, which may cancel the open step
    when a safeguard is denied.

    The second part applies the theorems about the handler, and holds
    sequences of messages for which steps are lost. *)

From Stdlib Require Import Ascii.
From stdpp Require Import base gmap strings list relations.
From S2P Require Import Prelude HostFs Common Safeguard UndoLog UndoInterceptor UndoEvict UndoTheorems ControlProtocol ControlHandler ControlTheorems.
#[local] Open Scope Z_scope.

Section undo.
Context `{ThirdParty} `{JsonLen}.

#[export] Instance StepManager_UndoInterceptor (h : host) (fault : undo_io → option io_error)
    : StepManager world := {
  sm_open_step := open_step h fault;
  sm_close_step := close_step fault;
  sm_current_step w := active_step (inner (w_int w));
  sm_set_step_command _ command w := (set_step_command command w).2;
}.

(** Undo is enabled, and an open step has a manifest and a write-ahead log. *)
Definition undo_ready (w : world) : Prop :=
  undo_disabled (w_int w) = false ∧
  (is_Some (active_step (inner (w_int w))) →
     is_Some (ud_wal (w_undo w)) ∧ is_Some (current_manifest (inner (w_int w)))).

(** What an operation of the backend may do: the step stays open, or is
    cancelled. *)
Definition keeps_step (w w' : world) : Prop :=
  undo_ready w → undo_ready w' ∧
  (active_step (inner (w_int w')) = active_step (inner (w_int w)) ∨
   active_step (inner (w_int w')) = None).

#[local] Instance keeps_step_preorder : PreOrder keeps_step.
Proof.
  split; [by intros w Hw; split; [done | left]|].
  intros w1 w2 w3 H12 H23 Hw. destruct (H12 Hw) as [H2 E2]. destruct (H23 H2) as [H3 E3].
  split; [done|]. destruct E3 as [->|]; [done | by right].
Qed.

Section hooks.
Context (h : host).

Lemma keeps_inner f :
  (∀ i, active_step (f i) = active_step i ∧
        (is_Some (current_manifest i) → is_Some (current_manifest (f i)))) →
  guarantees keeps_step (modify (E := CodeAgentError) (on_inner f)).
Proof.
  intros Hf w [Hd Hw]. simpl. destruct (Hf (inner (w_int w))) as [Ha Hm]. split; [|by left].
  split; [done|]. simpl. rewrite Ha. intros Hs. destruct (Hw Hs). auto.
Qed.

Lemma keeps_preimages {A} (m : stm (option preimage_dir) CodeAgentError A) :
  guarantees keeps_step (zoom wal_preimages set_wal_preimages m).
Proof.
  apply guarantees_zoom. intros pd w [Hd Hw]. split; [|by left]. split; [done|].
  intros Hs. destruct (Hw Hs) as [Hl Hm]. split; [|done]. simpl. by destruct (ud_wal (w_undo w)).
Qed.
#[local] Hint Resolve keeps_preimages : guarantees.

Lemma keeps_log_entry rel hash b ty :
  guarantees keeps_step (modify (E := CodeAgentError) (on_inner (log_entry rel hash b ty))).
Proof. apply keeps_inner. intros i. split; [done|]. simpl. by rewrite fmap_is_Some. Qed.
Lemma keeps_data_size limits n :
  guarantees keeps_step (modify (E := CodeAgentError) (on_inner (add_data_size limits n))).
Proof. by apply keeps_inner. Qed.
Lemma keeps_tracker t : guarantees keeps_step (modify (E := CodeAgentError) (on_inner (set_tracker t))).
Proof. by apply keeps_inner. Qed.
Lemma keeps_mark k :
  guarantees keeps_step (modify (E := CodeAgentError)
    (on_inner (λ i, set_tracker (mark_allowed k (safeguard_tracker i)) i))).
Proof. by apply keeps_inner. Qed.
#[local] Hint Resolve keeps_log_entry keeps_data_size keeps_tracker keeps_mark : guarantees.

Lemma keeps_ensure p : guarantees keeps_step (ensure_preimage h no_fault p).
Proof. unfold ensure_preimage. guarantee. Qed.
Lemma keeps_record p : guarantees keeps_step (record_creation no_fault p).
Proof. unfold record_creation. guarantee. Qed.
#[local] Hint Resolve keeps_ensure keeps_record : guarantees.

Lemma keeps_capture_tree fuel p : guarantees keeps_step (capture_tree h no_fault fuel p).
Proof. revert p. induction fuel as [|fuel IH]; intros p; cbn [capture_tree]; guarantee. Qed.
Lemma keeps_capture_tree_preimages p : guarantees keeps_step (capture_tree_preimages h no_fault p).
Proof. unfold capture_tree_preimages. guarantee. apply keeps_capture_tree. Qed.
#[local] Hint Resolve keeps_capture_tree_preimages : guarantees.

(** Operations on the two directories alone do not touch the step. *)
Definition life (w : world) : bool * option StepId :=
  (undo_disabled (w_int w), active_step (inner (w_int w))).

#[local] Instance life_preorder : PreOrder (λ w w', life w' = life w).
Proof. split; [by intros ?|]. intros ? ? ? H1 H2. by rewrite H2. Qed.

Abbreviation same_life := (guarantees (λ w w', life w' = life w)).

Lemma life_tree {A} (m : stm tree CodeAgentError A) : same_life (zoom w_tree set_tree m).
Proof. by apply guarantees_zoom. Qed.
Lemma life_undo_op op f : same_life (undo_op no_fault op f).
Proof. by intros w. Qed.
#[local] Hint Resolve life_tree life_undo_op : guarantees.

Lemma life_run_rollback sd : same_life (run_rollback_step h sd).
Proof. unfold run_rollback_step. guarantee. Qed.
Lemma life_remove_wal : same_life (remove_wal no_fault).
Proof. apply life_undo_op. Qed.
Lemma life_remove_step id : same_life (remove_step no_fault id).
Proof. apply life_undo_op. Qed.
Lemma life_wal : same_life wal.
Proof. by intros w. Qed.
Lemma life_step_dir id : same_life (step_dir id).
Proof. by intros w. Qed.
#[local] Hint Resolve life_run_rollback life_remove_wal life_remove_step life_wal life_step_dir : guarantees.

Lemma life_promote id : same_life (promote no_fault id).
Proof. unfold promote. guarantee. Qed.
Lemma life_evict_count n rem ev : same_life (evict_by_count no_fault n rem ev).
Proof. revert ev. induction rem; intros ev; cbn [evict_by_count]; guarantee. Qed.
Lemma life_evict_size n s rem ev : same_life (evict_by_size no_fault n s rem ev).
Proof. revert s ev. induction rem; intros s ev; cbn [evict_by_size]; guarantee. Qed.
#[local] Hint Resolve life_promote life_evict_count life_evict_size : guarantees.
Lemma life_evict l : same_life (evict_if_needed no_fault l).
Proof. unfold evict_if_needed. guarantee. Qed.
#[local] Hint Resolve life_evict : guarantees.

(** With no step open nothing is asked of the log. *)
Lemma closed_ready w : life w = (false, None) → undo_ready w.
Proof. intros [= Hd Ha]. split; [done|]. rewrite Ha. by intros []. Qed.

Lemma keeps_write_manifest m : guarantees keeps_step (write_wal_manifest no_fault m).
Proof.
  intros w [Hd Hw]. unfold write_wal_manifest, mbind, stm_bind. simpl.
  destruct (ud_wal (w_undo w)) as [s|] eqn:Es; simpl; (split; [split; [done|] | by left]).
  - intros Hs. split; [done | by apply Hw].
  - rewrite Es. exact Hw.
Qed.

(** Cancelling the step leaves no step open, whatever happens to the log. *)
Lemma keeps_rollback_current : guarantees keeps_step (rollback_current_step h no_fault).
Proof.
  unfold rollback_current_step. apply guarantees_bind; [apply _ | apply guarantees_gets, _|]. intros i.
  destruct (bool_decide _); [apply guarantees_throw, _|].
  apply guarantees_bind; [apply _ | |].
  { destruct (current_manifest i); [apply guarantees_ignore, keeps_write_manifest | apply guarantees_ret, _]. }
  intros _ w [Hd Hw].
  match goal with |- context [(modify ?f ≫= ?g) w] =>
    assert (same_life (g ())) as Hrest by guarantee; specialize (Hrest (f w));
    change ((modify f ≫= g) w) with (g () (f w)) end.
  match goal with |- context [?m.2] => set (w3 := m.2) in * end.
  assert (life w3 = (false, None)) as Hl by (rewrite Hrest; unfold life; simpl; by rewrite Hd).
  split; [by apply closed_ready|]. right. by injection Hl.
Qed.
#[local] Hint Resolve keeps_rollback_current : guarantees.

Lemma keeps_safeguard ev : guarantees keeps_step (handle_safeguard_event h no_fault ev).
Proof. unfold handle_safeguard_event. guarantee. Qed.
Lemma keeps_with_tracker f : guarantees keeps_step (with_tracker f).
Proof. unfold with_tracker. guarantee. Qed.
#[local] Hint Resolve keeps_safeguard keeps_with_tracker : guarantees.

(** ** The backend *)

(** What the file system backend does between two calls of the handler: change
    the working tree, and call the hooks. *)
Inductive backend_call : relation world :=
  | bc_tree t w : backend_call w (set_tree t w)
  | bc_pre_write p w : backend_call w (pre_write h no_fault p w).2
  | bc_pre_open_trunc p w : backend_call w (pre_open_trunc h no_fault p w).2
  | bc_pre_unlink p d w : backend_call w (pre_unlink h no_fault p d w).2
  | bc_pre_rename from to w : backend_call w (pre_rename h no_fault from to w).2
  | bc_post_create p w : backend_call w (post_create no_fault p w).2
  | bc_post_mkdir p w : backend_call w (post_mkdir no_fault p w).2
  | bc_pre_setattr p w : backend_call w (pre_setattr h no_fault p w).2
  | bc_pre_link t l w : backend_call w (pre_link h no_fault t l w).2
  | bc_post_symlink t l w : backend_call w (post_symlink no_fault t l w).2
  | bc_pre_xattr p w : backend_call w (pre_xattr h no_fault p w).2
  | bc_pre_fallocate p w : backend_call w (pre_fallocate h no_fault p w).2
  | bc_pre_copy_file_range p w : backend_call w (pre_copy_file_range h no_fault p w).2.

Lemma keeps_current : guarantees keeps_step current_step.
Proof. by intros w Hw; split; [|left]. Qed.
Lemma keeps_is_active : guarantees keeps_step is_active.
Proof. by intros w Hw; split; [|left]. Qed.
#[local] Hint Resolve keeps_current keeps_is_active : guarantees.

Lemma keeps_capture_if_active p : guarantees keeps_step (capture_if_active h no_fault p).
Proof. unfold capture_if_active. guarantee. Qed.
Lemma keeps_pre_write p : guarantees keeps_step (pre_write h no_fault p).
Proof. unfold pre_write. guarantee. Qed.
Lemma keeps_post_create p : guarantees keeps_step (post_create no_fault p).
Proof. unfold post_create. guarantee. Qed.
#[local] Hint Resolve keeps_capture_if_active keeps_pre_write keeps_post_create : guarantees.

Lemma backend_call_keeps w w' : backend_call w w' → keeps_step w w'.
Proof.
  intros Hc. destruct Hc; [by intros Hw; split; [|left]|..];
    match goal with |- keeps_step ?w (?m ?w).2 =>
      assert (guarantees keeps_step m) as Hg; [|exact (Hg w)] end;
    unfold pre_open_trunc, pre_unlink, pre_rename, post_mkdir, pre_setattr, pre_link, post_symlink,
      pre_xattr, pre_fallocate, pre_copy_file_range; guarantee.
Qed.

(** ** The laws *)

Lemma never_panics_undo_op op f : never_panics (undo_op no_fault op f).
Proof. done. Qed.
Lemma never_panics_wal : never_panics wal.
Proof. done. Qed.
Lemma never_panics_step_dir id : never_panics (step_dir id).
Proof. done. Qed.
Lemma never_panics_remove_wal : never_panics (remove_wal no_fault).
Proof. done. Qed.
Lemma never_panics_remove_step id : never_panics (remove_step no_fault id).
Proof. done. Qed.
#[local] Hint Resolve never_panics_undo_op never_panics_wal never_panics_step_dir
  never_panics_remove_wal never_panics_remove_step : guarantees.
Lemma never_panics_write_manifest m : never_panics (write_wal_manifest no_fault m).
Proof. unfold write_wal_manifest. no_panic. Qed.
Lemma never_panics_promote id : never_panics (promote no_fault id).
Proof. unfold promote. no_panic. Qed.
Lemma never_panics_evict_count n rem ev : never_panics (evict_by_count no_fault n rem ev).
Proof. revert ev. induction rem; intros ev; cbn [evict_by_count]; no_panic. Qed.
Lemma never_panics_evict_size n s rem ev : never_panics (evict_by_size no_fault n s rem ev).
Proof. revert s ev. induction rem; intros s ev; cbn [evict_by_size]; no_panic. Qed.
#[local] Hint Resolve never_panics_write_manifest never_panics_promote never_panics_evict_count
  never_panics_evict_size : guarantees.
Lemma never_panics_evict l : never_panics (evict_if_needed no_fault l).
Proof. unfold evict_if_needed. no_panic. Qed.
#[local] Hint Resolve never_panics_evict : guarantees.
Lemma never_panics_close id : never_panics (close_step no_fault id).
Proof. unfold close_step. no_panic. Qed.

Lemma life_write_manifest m : same_life (write_wal_manifest no_fault m).
Proof. unfold write_wal_manifest. guarantee. Qed.
#[local] Hint Resolve life_write_manifest : guarantees.

(** Clearing the step and whatever follows. *)
Lemma clear_then {A} f (m : WorldM A) w :
  undo_disabled (w_int w) = false → (∀ i, active_step (f i) = None) → same_life m →
  life ((modify (on_inner f);; m) w).2 = (false, None).
Proof.
  intros Hd Hf Hm. erewrite stm_bind_ok by done. rewrite Hm. unfold life. simpl. by rewrite Hd, Hf.
Qed.

Lemma close_step_life id w :
  undo_ready w → life (close_step no_fault id w).2 = (false, None).
Proof.
  intros [Hd Hw]. unfold close_step. erewrite stm_bind_ok by done.
  match goal with |- context [if ?b then _ else _] => destruct b eqn:Em end.
  - clear Em. case_bool_decide as Ha; [unfold life; simpl; by rewrite Hd, Ha|].
    apply clear_then; [done | done | guarantee].
  - destruct (current_manifest (inner (w_int w))) as [mf|] eqn:Emf; [|done].
    erewrite stm_bind_ok by done. erewrite stm_bind_ok by done.
    destruct (active_step (inner (w_int w))) as [a|] eqn:Ea.
    + destruct (Hw ltac:(by eexists)) as [[sd Hsd] _].
      erewrite stm_bind_ok; cycle 1.
      { erewrite stm_bind_ok by done. unfold write_wal_manifest. erewrite stm_bind_ok by done.
        cbn [w_undo on_inner on_int]. rewrite Hsd. reflexivity. }
      rewrite bool_decide_eq_false_2 by done. apply clear_then; [done | done | guarantee].
    + rewrite bool_decide_eq_true_2 by done.
      match goal with |- life (?m ?w0).2 = _ => assert (same_life m) as Hm by guarantee end.
      rewrite Hm. unfold life. simpl. by rewrite Hd, Ea.
Qed.

#[export] Instance StepManagerLaws_UndoInterceptor :
  StepManagerLaws (H := StepManager_UndoInterceptor h no_fault) undo_ready backend_call.
Proof.
  split; simpl.
  - intros id w [Hd Hw] Hc. unfold open_step, check_undo_enabled, mbind, stm_bind, undo_op. simpl.
    rewrite Hd. simpl. destruct (ud_wal (w_undo w)); simpl; rewrite Hc;
      (eexists; split; [reflexivity|]); (split; [split; [done|]|done]); done.
  - intros id w Hw. pose proof (close_step_life id w Hw) as Hl. pose proof (never_panics_close id w) as Hp.
    destruct (close_step no_fault id w) as [r w']. exists r, w'. simpl in *.
    split_and!; [done | done | by apply closed_ready | by injection Hl].
  - intros id c w [Hd Hw]. unfold set_step_command, undo_ready. simpl.
    destruct (current_manifest (inner (w_int w))) as [mf|] eqn:Em; simpl; [|by rewrite Em].
    split; [|done]. split; [done|]. intros Hs. split; [by apply Hw | by eexists].
  - intros w w' Hc Hw. exact (backend_call_keeps w w' Hc Hw).
Qed.

End hooks.
End undo.

(** ** The control channel with the undo interceptor

    The handler of [ControlHandler] run on the undo interceptor: the theorems
    of [ControlTheorems] at concrete sessions, and what happens when commands
    overlap or the handler's pieces interleave. *)

(** A deserialiser that knows no message and reads a line that starts as an
    object with a [type] field as such an object. *)
#[local] Instance sample_json : SerdeJson := {
  json_error := unit;
  json_error_display _ := "invalid";
  json_value := string;
  from_str_vm _ := inl ();
  from_str_host _ := inl ();
  from_str_value line := if String.prefix "{'type':" line then inr line else inl ();
  value_get v key := if bool_decide (key = "type") then Some v else None;
}.

#[local] Instance sample_steps_manager : StepManager world :=
  StepManager_UndoInterceptor sample_host no_fault.

Definition sample_display (e : CodeAgentError) : string := "error".
Definition sample_quiescence : QuiescenceConfig := QuiescenceConfig_default.
Definition run {A} (c : stm (handler world) CodeAgentError A) (m : handler world) : handler world := (c m).2.

Definition sample_handler : handler world := ControlChannelHandler_new sample_w0 0 0.
Definition first_exec : handler world := run (send_exec sample_display 1 "make" None None) sample_handler.
Definition first_started : handler world :=
  run (handle_vm_message sample_display (VmStepStarted 1)) first_exec.


(** A task resumed at time 0 and again after the idle period. *)
Definition later_handler : handler world := run (tick 100000000) sample_handler.

Lemma quiescence_window_witness :
  quiesce_resume sample_quiescence (QIdle 100000000 2000000000) later_handler = (Ok None, later_handler) ∧
  hd_in_flight later_handler = 0.
Proof.
  assert (quiesce_resume sample_quiescence (QIdle 100000000 2000000000) later_handler
          = (Ok None, later_handler)) as Hr by reflexivity.
  split; [exact Hr|].
  refine (proj1 (proj2 (quiescence_window sample_quiescence 1 0 false 0 0 []
    (QIdle 100000000 2000000000) false later_handler _ _) _ Hr)).
  - change [(0, 0)] with ([] ++ [(hd_now sample_handler, hd_in_flight sample_handler)]).
    by eapply (qp_resume _ _ _ _ _ QStart _ false sample_handler (qp_start _ _ _ _)).
  - reflexivity.
  - reflexivity.
Defined.

(** ** Commands that overlap *)

(** A command that starts while the step of another is still open (for
    instance within the quiescence window of the one before) is refused its
    step, and the refusal costs the other one its log: the handler reports an
    error, the old step stays open with an empty write-ahead log, and no step
    is recorded for the command that started. *)
Theorem overlapping_start_loses_log `{TP : ThirdParty} `{JL : JsonLen} `{SJ : SerdeJson}
    (h : host) (display : CodeAgentError → string) (m : handler world) id p a :
  let SM := StepManager_UndoInterceptor h no_fault in
  undo_disabled (w_int (hd_steps m)) = false →
  active_step (inner (w_int (hd_steps m))) = Some a →
  ambient_step_id_ (hd_state m) = None →
  pending (protocol (hd_state m)) !! id = Some p → active (protocol (hd_state m)) !! id = None →
  ∃ m', handle_vm_message display (VmStepStarted id) m = (Ok (), m') ∧
    active_step (inner (w_int (hd_steps m'))) = Some a ∧
    ud_wal (w_undo (hd_steps m')) = Some (mkStepFiles None (Some empty_preimage_dir) None) ∧
    current_manifest (inner (w_int (hd_steps m'))) = current_manifest (inner (w_int (hd_steps m))) ∧
    active_command_step (hd_state m') = active_command_step (hd_state m) ∧
    ∃ e, last (hd_events m') = Some (HeProtocolError e).
Proof.
  intros SM Hd Ha Ham Hp Hact. rewrite handle_vm_message_unfold. simpl. unfold handle_step_started.
  rewrite Hact, Hp. unfold on_step_started, close_ambient_step_if_open, take_ambient.
  unfold mbind, stm_bind. simpl. rewrite Ham. simpl.
  unfold try, steps, zoom. simpl. unfold open_step, check_undo_enabled, mbind, stm_bind, undo_op. simpl.
  rewrite Hd. simpl. destruct (ud_wal (w_undo (hd_steps m))); simpl; rewrite Ha; simpl;
    eexists; (split; [reflexivity|]); simpl; rewrite last_snoc; split_and!; try done; by eexists.
Qed.

(** The second command starts in the quiescence window of the first, which has
    overwritten [a]. *)
Definition first_wrote : handler world := set_steps_ (write_a (hd_steps first_started)) first_started.
Definition second_exec : handler world :=
  run (send_exec sample_display 2 "test" None None)
    (run (handle_vm_message sample_display (VmStepCompleted 1 0)) first_wrote).
Definition second_started : handler world :=
  run (handle_vm_message sample_display (VmStepStarted 2)) second_exec.

Lemma overlapping_start_loses_log_witness :
  ∃ m', handle_vm_message sample_display (VmStepStarted 2) second_exec = (Ok (), m') ∧
    active_step (inner (w_int (hd_steps m'))) = Some 1 ∧
    ud_wal (w_undo (hd_steps m')) = Some (mkStepFiles None (Some empty_preimage_dir) None).
Proof.
  destruct (overlapping_start_loses_log sample_host sample_display second_exec 2
    (mkPending 2 "test") 1) as (m' & H1 & H2 & H3 & _).
  - by vm_compute.
  - by vm_compute.
  - by vm_compute.
  - by vm_compute.
  - by vm_compute.
  - exists m'. split; [exact H1|]. split; [exact H2 | exact H3].
Defined.

(** The first step is then closed as if nothing had happened, and its rollback
    fails: [a] keeps what the first command wrote. *)
Definition both_closed : handler world :=
  run (resume_at sample_display sample_quiescence 0 true)
    (run (tick 3000000000) (run (resume_at sample_display sample_quiescence 0 true) second_started)).

Example overlapped_step_cannot_be_undone :
  completed_steps_ (inner (w_int (hd_steps both_closed))) = [1] ∧
  last (hd_events both_closed) = Some (HeStepCompleted 1 0 false []) ∧
  is_ok (rollback sample_host no_fault 1 false (hd_steps both_closed)).1 = false.
Proof. by vm_compute. Qed.

(** ** Interleavings *)

(** Two writes notified at once: both see no ambient step, both open one; the
    second is refused and clears the handler's record of the first, which is
    then open with nobody to close it, and its log is gone. *)
Definition two_writes : handler world :=
  let m := sample_handler in
  if ((should_open_ambient m).1 , (should_open_ambient m).1) is (Ok true, Ok true)
  then run (open_ambient_step sample_display) (run (open_ambient_step sample_display) m)
  else m.

Example concurrent_writes_strand_step :
  ambient_step_id_ (hd_state two_writes) = None ∧
  sm_current_step (hd_steps two_writes) = Some (-1) ∧
  step_owner (run (resume_at sample_display sample_quiescence 0 true)
    (run (tick 5000000000) (run (resume_at sample_display sample_quiescence 0 true) two_writes))) = None ∧
  sm_current_step (hd_steps (run (resume_at sample_display sample_quiescence 0 true)
    (run (tick 5000000000) (run (resume_at sample_display sample_quiescence 0 true) two_writes))))
    = Some (-1).
Proof. by vm_compute. Qed.

(** An ambient step expires while a command starts: the timer has cleared the
    handler's record but not yet closed the step, so the command is refused its
    step. *)
Definition ambient_open : handler world :=
  run (notify_fs_write sample_display) first_exec.
Definition expiring : handler world :=
  run (ambient_close sample_display (-1))
    (run (handle_vm_message sample_display (VmStepStarted 1)) (run (ambient_expire (-1)) ambient_open)).

Example expiry_race_loses_command_step :
  sm_current_step (hd_steps ambient_open) = Some (-1) ∧
  active_command_step (hd_state expiring) = None ∧ sm_current_step (hd_steps expiring) = None ∧
  is_Some (active (protocol (hd_state expiring)) !! 1).
Proof. vm_compute. split_and!; try done. by eexists. Qed.

(** ** The parser *)

Fixpoint repeat_char (c : ascii) (n : nat) : string :=
  match n with O => EmptyString | S n' => String c (repeat_char c n') end.

(** 199 bytes, a two-byte character and the end of the line. *)
Definition panic_line : string :=
  "{'type':" +:+ repeat_char "a" 191 +:+ String (ascii_of_nat 195) (String (ascii_of_nat 169) "}").

Example parser_panics : is_utf8 panic_line = true ∧ parse_vm_message panic_line = Panic.
Proof. by vm_compute. Qed.
