(* ===== verification/CommandWaiter.v ===== *)
(** * Waiting for a command of the guest

    Models [crates/sandbox/src/command_waiter.rs] and [event_bridge.rs]: the
    events of the control channel go to the waiter, where the thread of the tool
    call collects them, and to the event stream of the client.

    The waiting thread looks at the results when it starts to wait and each time
    it is woken; in between it holds no lock and the bridge runs.  A wait is
    therefore a list of rounds: the events that were forwarded before the thread
    looked, and whether its deadline had passed when it did. *)

From stdpp Require Import base gmap strings list.
From S2P Require Import Prelude HostFs Common StdioProtocol ControlProtocol ControlHandler.
#[local] Open Scope Z_scope.

Record CommandResult := mkCommandResult {
  cr_stdout : string;
  cr_stderr : string;
  cr_exit_code : option Z;
  cr_completed : bool;
}.

Definition CommandResult_default : CommandResult := mkCommandResult "" "" None false.

(** [CommandWaiter::results]. *)
Abbreviation CommandWaiter := (gmap Z CommandResult).

Definition CommandWaiter_new : CommandWaiter := ∅.

Definition register (command_id : Z) (results : CommandWaiter) : CommandWaiter :=
  <[command_id := CommandResult_default]> results.

Definition append_output (command_id : Z) (stream data : string) (results : CommandWaiter) : CommandWaiter :=
  alter (λ r,
    if bool_decide (stream = "stderr")
    then mkCommandResult (cr_stdout r) (cr_stderr r +:+ data) (cr_exit_code r) (cr_completed r)
    else mkCommandResult (cr_stdout r +:+ data) (cr_stderr r) (cr_exit_code r) (cr_completed r))
    command_id results.

Definition mark_completed (command_id exit_code : Z) (results : CommandWaiter) : CommandWaiter :=
  alter (λ r, mkCommandResult (cr_stdout r) (cr_stderr r) (Some exit_code) true) command_id results.

(** One round of the loop: [None] waits again. *)
Definition wait_round (command_id : Z) (expired : bool) (results : CommandWaiter)
    : option (option CommandResult) * CommandWaiter :=
  match results !! command_id with
  | Some result =>
      if cr_completed result then (Some (Some result), delete command_id results)
      else if expired then (Some (Some result), delete command_id results)
      else (None, results)
  | None => (Some None, results)
  end.

(** ** The event bridge *)

Definition stream_name (stream : OutputStream) : string :=
  match stream with Stdout => "stdout" | Stderr => "stderr" end.

Definition translate_handler_event (event : HandlerEvent) : option Event :=
  match event with
  | HeOutput _ stream data => Some (TerminalOutputEvent (stream_name stream) data)
  | HeStepCompleted step_id exit_code _ _ => Some (StepCompletedEvent step_id [] exit_code)
  | HeProtocolError error => Some (ErrorEvent "control_channel_error" error)
  | HeStepStarted _ _ | HeAmbientStepOpened _ | HeAmbientStepClosed _ _ => None
  end.

(** [step_id as u64]. *)
Definition forward_to_command_waiter (event : HandlerEvent) (waiter : CommandWaiter) : CommandWaiter :=
  match event with
  | HeOutput step_id stream data => append_output (as_u64 step_id) (stream_name stream) data waiter
  | HeStepCompleted step_id exit_code _ _ => mark_completed (as_u64 step_id) exit_code waiter
  | _ => waiter
  end.

(** The loop of the bridge over the events it has received: the waiter it
    leaves and the events it has sent. *)
Definition run_event_bridge (events : list HandlerEvent) (waiter : CommandWaiter) : CommandWaiter * list Event :=
  (foldl (λ w e, forward_to_command_waiter e w) waiter events, omap translate_handler_event events).

(** [wait_for_completion], round by round; [None] is still waiting after the
    last round. *)
Fixpoint wait_for_completion (command_id : Z) (rounds : list (list HandlerEvent * bool)) (waiter : CommandWaiter)
    : option (option CommandResult) * CommandWaiter :=
  match rounds with
  | [] => (None, waiter)
  | (events, expired) :: rest =>
      match wait_round command_id expired (run_event_bridge events waiter).1 with
      | (None, waiter') => wait_for_completion command_id rest waiter'
      | done => done
      end
  end.

(** ** What the thread gets *)

Section facts.
Context (id : Z) (Hid : in_u64 id).

(** The events about command [id], in the order they came. *)
Definition about (e : HandlerEvent) : bool :=
  match e with
  | HeOutput step_id _ _ | HeStepCompleted step_id _ _ _ => as_u64 step_id =? id
  | _ => false
  end.

Definition output_of (stream : OutputStream) (e : HandlerEvent) : string :=
  match e with
  | HeOutput step_id s data => if (as_u64 step_id =? id) && bool_decide (s = stream) then data else EmptyString
  | _ => EmptyString
  end.
Definition output (stream : OutputStream) (events : list HandlerEvent) : string :=
  foldr (λ e s, output_of stream e +:+ s) EmptyString events.

Definition completion_of (e : HandlerEvent) : option Z :=
  match e with
  | HeStepCompleted step_id exit_code _ _ => if as_u64 step_id =? id then Some exit_code else None
  | _ => None
  end.

(** What a result looks like after [events]. *)
Definition collected (r : CommandResult) (events : list HandlerEvent) : CommandResult :=
  let codes := omap completion_of events in
  mkCommandResult (cr_stdout r +:+ output Stdout events) (cr_stderr r +:+ output Stderr events)
    (match last codes with Some c => Some c | None => cr_exit_code r end)
    (cr_completed r || negb (bool_decide (codes = []))).

Lemma str_app_nil_r s : s +:+ EmptyString = s.
Proof. induction s as [|c s IH]; [done|]. change (String c (s +:+ EmptyString) = String c s). by rewrite IH. Qed.
Lemma str_app_assoc s1 s2 s3 : s1 +:+ s2 +:+ s3 = (s1 +:+ s2) +:+ s3.
Proof. induction s1 as [|c s IH]; [done|]. change (String c (s +:+ s2 +:+ s3) = String c ((s +:+ s2) +:+ s3)). by rewrite IH. Qed.

Lemma forward_collected e (w : CommandWaiter) r :
  w !! id = Some r → forward_to_command_waiter e w !! id = Some (collected r [e]).
Proof.
  intros Hr. unfold collected, output. destruct e as [|step_id stream data|step_id code c ev| | |]; cbn;
    rewrite ?str_app_nil_r, ?orb_false_r; try (rewrite Hr; by destruct r).
  - destruct (Z.eqb_spec (as_u64 step_id) id) as [->|Hne]; cbn.
    + unfold append_output. rewrite lookup_alter_eq, Hr. by destruct stream; cbn; rewrite !str_app_nil_r.
    + unfold append_output. rewrite lookup_alter_ne, Hr by done. rewrite !str_app_nil_r. by destruct r.
  - destruct (Z.eqb_spec (as_u64 step_id) id) as [->|Hne]; cbn.
    + unfold mark_completed. rewrite lookup_alter_eq, Hr. cbn. by rewrite orb_true_r.
    + unfold mark_completed. rewrite lookup_alter_ne, Hr by done. rewrite orb_false_r. by destruct r.
Qed.

Lemma output_app stream l k : output stream (l ++ k) = output stream l +:+ output stream k.
Proof. unfold output. induction l as [|e l IH]; cbn; [done|]. by rewrite IH, str_app_assoc. Qed.

Lemma collected_app r l k : collected r (l ++ k) = collected (collected r l) k.
Proof.
  unfold collected. rewrite !output_app, omap_app, last_app. cbn. rewrite !str_app_assoc. f_equal.
  - by destruct (last (omap completion_of k)).
  - rewrite <- orb_assoc. f_equal. by destruct (omap completion_of l), (omap completion_of k).
Qed.

Lemma bridge_collected events (w : CommandWaiter) r :
  w !! id = Some r → (run_event_bridge events w).1 !! id = Some (collected r events).
Proof.
  revert w r. induction events as [|e events IH]; intros w r Hr; cbn [run_event_bridge fst foldl].
  - rewrite Hr. unfold collected, output. cbn. rewrite !str_app_nil_r, orb_false_r. by destruct r.
  - cbn in IH. rewrite (IH _ (collected r [e])) by by apply forward_collected.
    by rewrite <- (collected_app r [e] events).
Qed.
End facts.

(** ** The wait *)

(** The events of the first [n] rounds. *)
Definition seen (rounds : list (list HandlerEvent * bool)) (n : nat) : list HandlerEvent :=
  concat (take n rounds).*1.

Definition ended (id : Z) (rounds : list (list HandlerEvent * bool)) (n : nat) : Prop :=
  omap (completion_of id) (seen rounds n) ≠ [] ∨ ∃ round, rounds !! pred n = Some round ∧ round.2 = true.

Lemma wait_cases id rounds (w : CommandWaiter) r :
  w !! id = Some r → cr_completed r = false →
  match wait_for_completion id rounds w with
  | (Some res, w') => ∃ n, (0 < n ≤ length rounds)%nat ∧ res = Some (collected id r (seen rounds n)) ∧
      ended id rounds n ∧ (∀ k, 0 < k < n → ¬ ended id rounds k)%nat ∧ w' !! id = None
  | (None, w') => (∀ k, 0 < k ≤ length rounds → ¬ ended id rounds k)%nat ∧
      w' !! id = Some (collected id r (seen rounds (length rounds)))
  end.
Proof.
  revert w r. induction rounds as [|[events expired] rounds IH]; intros w r Hr Hc; cbn [wait_for_completion].
  { split; [intros k; cbn; lia|]. exact (bridge_collected id [] w r Hr). }
  unfold wait_round. rewrite (bridge_collected id events w r Hr).
  assert (seen ((events, expired) :: rounds) 1 = events) as E1 by (unfold seen; cbn; by rewrite app_nil_r).
  assert (∀ n, seen ((events, expired) :: rounds) (S n) = events ++ seen rounds n) as ES by done.
  assert (∀ res (w' : CommandWaiter), res = Some (collected id r events) → w' !! id = None → ended id ((events, expired) :: rounds) 1 →
    ∃ n, (0 < n ≤ S (length rounds))%nat ∧ res = Some (collected id r (seen ((events, expired) :: rounds) n)) ∧
      ended id ((events, expired) :: rounds) n ∧
      (∀ k, 0 < k < n → ¬ ended id ((events, expired) :: rounds) k)%nat ∧ w' !! id = None) as Hnow.
  { intros res w' -> Hw' He. exists 1%nat. rewrite E1. split_and!; [lia | lia | done | done | lia | done]. }
  destruct (cr_completed (collected id r events)) eqn:Ecc.
  - apply Hnow; [done | apply lookup_delete_eq |]. left. rewrite E1. unfold collected in Ecc. cbn in Ecc.
    rewrite Hc in Ecc. by apply negb_true_iff, bool_decide_eq_false in Ecc.
  - assert (omap (completion_of id) events = []) as Hnone.
    { unfold collected in Ecc. cbn in Ecc. rewrite Hc in Ecc. by apply negb_false_iff, bool_decide_eq_true in Ecc. }
    destruct expired; [apply Hnow; [done | apply lookup_delete_eq | right; by eexists]|].
    assert (∀ k, ended id ((events, false) :: rounds) (S k) ↔ (0 < k)%nat ∧ ended id rounds k) as Hend.
    { intros k. unfold ended. rewrite ES, omap_app, Hnone. cbn. destruct k as [|k]; cbn.
      - split; [intros [?|(? & [= <-] & ?)]; done | lia].
      - split; [intros; split; [lia | done] | by intros [_ ?]]. }
    specialize (IH (run_event_bridge events w).1 (collected id r events)).
    destruct (wait_for_completion id rounds _) as [[res|] w'].
    + destruct IH as (n & Hn & Hres & He & Hmin & Hw'); [by apply bridge_collected | done |].
      exists (S n). rewrite ES, collected_app. split_and!; [cbn; lia | cbn; lia | done | | | done].
      * apply Hend. split; [lia | done].
      * intros [|k] Hk; [lia|]. rewrite Hend. intros [? ?]. apply (Hmin k); [lia | done].
    + destruct IH as [Hmin Hw']; [by apply bridge_collected | done |]. cbn [length]. rewrite ES, collected_app.
      split; [|done]. intros [|k] Hk; [lia|]. rewrite Hend. intros [? ?]. apply (Hmin k); [lia | done].
Qed.

(** C28. A tool call gets the output of its command: from its registration on, the
    wait ends in the first round in which the command has completed or the
    deadline has passed, and in no other; the result is the concatenation of what
    the command wrote to each stream, in order, and its exit code if it has
    completed, whatever the events of other commands in between; the entry of the
    command is then gone. *)
Theorem command_output_exact (id : Z) (rounds : list (list HandlerEvent * bool)) (waiter : CommandWaiter) :
  match wait_for_completion id rounds (register id waiter) with
  | (Some res, waiter') => ∃ n r, (0 < n ≤ length rounds)%nat ∧ res = Some r ∧
      ended id rounds n ∧ (∀ k, 0 < k < n → ¬ ended id rounds k)%nat ∧ waiter' !! id = None ∧
      cr_stdout r = output id Stdout (seen rounds n) ∧ cr_stderr r = output id Stderr (seen rounds n) ∧
      cr_exit_code r = last (omap (completion_of id) (seen rounds n))
  | (None, _) => ∀ k, (0 < k ≤ length rounds)%nat → ¬ ended id rounds k
  end.
Proof.
  pose proof (wait_cases id rounds (register id waiter) CommandResult_default) as H.
  destruct (wait_for_completion id rounds (register id waiter)) as [[res|] w'].
  - destruct H as (n & Hn & -> & He & Hmin & Hw'); [apply lookup_insert_eq | done |].
    exists n, (collected id CommandResult_default (seen rounds n)). split_and!; try done; [lia | lia |].
    unfold collected. cbn. by destruct (last _).
  - destruct H as [H _]; [apply lookup_insert_eq | done | exact H].
Qed.
