(* ===== verification/PathValidation.v ===== *)
(** * Path validation of the two request interfaces

    Models [crates/stdio/src/path_validation.rs]; [crates/mcp/src/path_validation.rs]
    has the same code with another error type.  Paths are strings on a Unix
    host; [path_components] is [Path::components]. *)

From Stdlib Require Import Ascii.
From stdpp Require Import base gmap strings list.
From S2P Require Import Prelude HostFs.
#[local] Open Scope Z_scope.

(** ** std::path *)

Inductive component := RootDir | CurDir | ParentDir | Normal (name : string).

(** A name between two slashes; empty ones and [.] disappear. *)
Definition component_of (c : string) : option component :=
  if decide (c = "") then None
  else if decide (c = ".") then None
  else if decide (c = "..") then Some ParentDir
  else Some (Normal c).

(** [.] is kept as [CurDir] at the start of a relative path only. *)
Definition path_components (s : string) : list component :=
  let parts := split_on slash s in
  (if is_absolute s then [RootDir]
   else match parts with "." :: _ => [CurDir] | _ => [] end)
  ++ omap component_of parts.

(** A [PathBuf] built by pushing components: absolute or not, and its names. *)
Record path_buf := mkPathBuf { pb_absolute : bool; pb_names : list string }.

Definition path_buf_new : path_buf := mkPathBuf false [].

(** [PathBuf::pop]: [None] is [false], when there is no parent. *)
Definition path_buf_pop (p : path_buf) : option path_buf :=
  match pb_names p with
  | [] => None
  | _ => Some (mkPathBuf (pb_absolute p) (removelast (pb_names p)))
  end.

(** [PathBuf::push] of one component: a root replaces everything. *)
Definition path_buf_push (c : component) (p : path_buf) : path_buf :=
  match c with
  | RootDir => mkPathBuf true []
  | CurDir => mkPathBuf (pb_absolute p) (pb_names p ++ ["."])
  | ParentDir => mkPathBuf (pb_absolute p) (pb_names p ++ [".."])
  | Normal n => mkPathBuf (pb_absolute p) (pb_names p ++ [n])
  end.

(** [Path::starts_with]. *)
Definition path_starts_with (p base : path_buf) : bool :=
  bool_decide (pb_absolute p = pb_absolute base) && bool_decide (pb_names base `prefix_of` pb_names p).

Fixpoint ends_with_slash (s : string) : bool :=
  match s with
  | EmptyString => false
  | String c EmptyString => Ascii.eqb c slash
  | String _ s' => ends_with_slash s'
  end.

(** [Path::join] of a relative path. *)
Definition join_relative (root s : string) : string :=
  if decide (root = "") then s
  else if ends_with_slash root then root +:+ s
  else root +:+ String slash s.

(** ** path_validation.rs *)

Inductive PathError := PathOutsideRoot (path : string).

Fixpoint resolve_from (resolved : path_buf) (cs : list component) : option path_buf :=
  match cs with
  | [] => Some resolved
  | ParentDir :: cs' => r ← path_buf_pop resolved; resolve_from r cs'
  | CurDir :: cs' => resolve_from resolved cs'
  | other :: cs' => resolve_from (path_buf_push other resolved) cs'
  end.

Definition resolve_components (p : string) : option path_buf :=
  resolve_from path_buf_new (path_components p).

(** The loop over the roots for an absolute path: a root that cannot be
    resolved is an error. *)
Fixpoint within_roots (resolved : path_buf) (err : PathError) (roots : list string)
    : outcome PathError path_buf :=
  match roots with
  | [] => Err err
  | root :: roots' =>
      canonical_root ← ok_or (resolve_components root) err;
      if path_starts_with resolved canonical_root then Ok resolved
      else within_roots resolved err roots'
  end.

(** The loop for a relative path: such a root is skipped. *)
Fixpoint relative_to_roots (requested : string) (err : PathError) (roots : list string)
    : outcome PathError path_buf :=
  match roots with
  | [] => Err err
  | root :: roots' =>
      match resolve_components (join_relative root requested), resolve_components root with
      | Some resolved, Some canonical_root =>
          if path_starts_with resolved canonical_root then Ok resolved
          else relative_to_roots requested err roots'
      | _, _ => relative_to_roots requested err roots'
      end
  end.

Definition validate_path_multi (path : string) (roots : list string) : outcome PathError path_buf :=
  let make_err := PathOutsideRoot path in
  if is_absolute path then
    resolved ← ok_or (resolve_components path) make_err;
    within_roots resolved make_err roots
  else relative_to_roots path make_err roots.

Definition validate_path (path root : string) : outcome PathError path_buf :=
  validate_path_multi path [root].

(** ** Containment *)

(** A name that is one ordinary step down. *)
Definition plain_name (c : string) : Prop :=
  c ≠ "" ∧ c ≠ "." ∧ c ≠ ".." ∧ lacks slash c = true.

Lemma split_on_all_lack sep s : Forall (λ x, lacks sep x = true) (split_on sep s).
Proof.
  induction s as [|c s IH]; simpl; [by repeat constructor|].
  destruct (Ascii.eqb c sep) eqn:E; [by constructor|].
  destruct (split_on sep s) as [|w ws]; inversion_clear IH; constructor; try done;
    unfold lacks in *; simpl; by rewrite E.
Qed.

Lemma component_names s n : Normal n ∈ path_components s → plain_name n.
Proof.
  unfold path_components. intros [Hn|Hn]%elem_of_app.
  - repeat case_match; set_solver.
  - apply list_elem_of_omap in Hn as (c & Hc & Hof). unfold component_of in Hof.
    repeat case_decide; simplify_eq. pose proof (split_on_all_lack slash s) as Hall.
    rewrite Forall_forall in Hall. split_and!; auto.
Qed.

Lemma resolve_from_plain r cs r' :
  Forall (λ c, ∀ n, c = Normal n → plain_name n) cs → Forall plain_name (pb_names r) →
  resolve_from r cs = Some r' → Forall plain_name (pb_names r').
Proof.
  intros Hcs. revert r. induction Hcs as [|c cs Hc _ IH]; intros r Hr Hres; simpl in Hres; [by simplify_eq|].
  destruct c; simpl in Hres.
  - eapply IH; [|done]. constructor.
  - by eapply IH.
  - unfold path_buf_pop in Hres. destruct (pb_names r) as [|x l] eqn:E; [done|].
    eapply IH; [|exact Hres]. cbn [pb_names].
    destruct (exists_last (l := x :: l)) as (l' & y & El); [done|]. rewrite El in Hr |- *.
    rewrite removelast_last. by apply Forall_app in Hr as [? _].
  - eapply IH; [|done]. simpl. apply Forall_app. split; [done|]. constructor; [by apply Hc | constructor].
Qed.

Lemma resolve_components_plain s r : resolve_components s = Some r → Forall plain_name (pb_names r).
Proof.
  apply resolve_from_plain; [|constructor]. apply Forall_forall. intros c Hc n ->. by eapply component_names.
Qed.

Lemma starts_with_spec p base :
  path_starts_with p base = true ↔ pb_absolute p = pb_absolute base ∧ pb_names base `prefix_of` pb_names p.
Proof. unfold path_starts_with. by rewrite andb_true_iff, !bool_decide_eq_true. Qed.

(** C34. A validated path is inside a root: it has no [.] or [..] left, consists
    of plain names, and extends one of the (resolved) roots component by
    component. *)
Theorem validate_path_contained path roots r :
  validate_path_multi path roots = Ok r →
  Forall plain_name (pb_names r) ∧
  ∃ root c, root ∈ roots ∧ resolve_components root = Some c ∧ pb_absolute r = pb_absolute c ∧
    pb_names c `prefix_of` pb_names r.
Proof.
  unfold validate_path_multi. destruct (is_absolute path).
  - destruct (resolve_components path) as [p|] eqn:Ep; [|done]. simpl. intros Hw.
    assert (r = p ∧ ∃ root c, root ∈ roots ∧ resolve_components root = Some c ∧
      path_starts_with p c = true) as (-> & root & c & ? & ? & Hs).
    { induction roots as [|root roots IH]; [done|]. simpl in Hw.
      destruct (resolve_components root) as [c|] eqn:Er; [|done]. simpl in Hw.
      destruct (path_starts_with p c) eqn:Es.
      - simplify_eq. split; [done|]. exists root, c. split_and!; [by left | done | done].
      - destruct (IH Hw) as (? & root' & c' & ? & ? & ?). split; [done|]. exists root', c'.
        split_and!; [by right | done | done]. }
    apply starts_with_spec in Hs. split; [by eapply resolve_components_plain|]. by exists root, c.
  - intros Hw. induction roots as [|root roots IH]; [done|]. simpl in Hw.
    assert (relative_to_roots path (PathOutsideRoot path) roots = Ok r →
      Forall plain_name (pb_names r) ∧ ∃ root0 c, root0 ∈ root :: roots ∧
        resolve_components root0 = Some c ∧ pb_absolute r = pb_absolute c ∧
        pb_names c `prefix_of` pb_names r) as Hrec.
    { intros H'. destruct (IH H') as (? & root' & c' & ? & ?). split; [done|].
      exists root', c'. split; [by right | done]. }
    destruct (resolve_components (join_relative root path)) as [p|] eqn:Ep; [|by apply Hrec].
    destruct (resolve_components root) as [c|] eqn:Er; [|by apply Hrec].
    destruct (path_starts_with p c) eqn:Es; [|by apply Hrec]. simplify_eq.
    apply starts_with_spec in Es. split; [by eapply resolve_components_plain|].
    exists root, c. split; [by left | done].
Qed.

Lemma validate_path_contained_witness :
  ["work"] `prefix_of` ["work"; "b"] ∧ Forall plain_name ["work"; "b"].
Proof.
  destruct (validate_path_contained "a/../b" ["/work"] (mkPathBuf true ["work"; "b"]))
    as (Hp & root & c & Hroot & Hc & _ & Hpre); [by vm_compute|].
  apply list_elem_of_singleton in Hroot as ->. vm_compute in Hc. injection Hc as <-. by split.
Defined.
