(* ===== verification/Stdio.v ===== *)
(** * The STDIO API

    Models [crates/stdio/src/parser.rs], [router.rs] and [server.rs]: from a line
    of input to the response written for it.  The handler of the requests is any
    instance of [RequestHandler].  What [serde_json] makes of a line or a value
    is the interface [SerdeStdio]; its laws are what the derived code
    guarantees about the field [request_id]. *)

From Stdlib Require Import Ascii.
From stdpp Require Import base gmap strings list pretty.
From S2P Require Import Prelude HostFs Common StdioProtocol ControlProtocol PathValidation.
#[local] Open Scope Z_scope.

(** A failure is its text. *)
Class SerdeStdio := {
  value_from_str : string → string + json;
  envelope_from_str : string → string + RequestEnvelope;
  from_session_start : json → string + SessionStartPayload;
  from_undo_rollback : json → string + UndoRollbackPayload;
  from_undo_history : json → string + UndoHistoryPayload;
  from_undo_configure : json → string + UndoConfigurePayload;
  from_agent_execute : json → string + AgentExecutePayload;
  from_agent_prompt : json → string + AgentPromptPayload;
  from_fs_list : json → string + FsListPayload;
  from_fs_read : json → string + FsReadPayload;
  from_safeguard_configure : json → string + SafeguardConfigurePayload;
  from_safeguard_confirm : json → string + SafeguardConfirmPayload;
}.

Class SerdeStdioLaws (SS : SerdeStdio) := {
  (** An envelope is an object with a string [request_id]. *)
  envelope_fields line e : envelope_from_str line = inr e →
    ∃ v, value_from_str line = inr v ∧ json_get v "request_id" = Some (JString (re_request_id e));
}.

(** ** parser.rs *)

Definition MAX_MESSAGE_SIZE : Z := 1048576.

Definition backtick : ascii := "`".

(** The text from character [n], and the text before the first [c]. *)
Fixpoint str_drop (n : nat) (s : string) : string :=
  match n, s with S n', String _ s' => str_drop n' s' | _, _ => s end.
Fixpoint str_until (c : ascii) (s : string) : option string :=
  match s with
  | EmptyString => None
  | String d s' => if Ascii.eqb d c then Some EmptyString else String d <$> str_until c s'
  end.

Definition extract_missing_field (message : string) : option string :=
  let prefix := "missing field `" in
  start ← String.index 0 prefix message;
  str_until backtick (str_drop (start + String.length prefix) message).

Section parser.
Context `{SerdeStdio}.

Definition extract_request_id (line : string) : option string :=
  match value_from_str line with
  | inr v => id ← json_get v "request_id"; json_as_str id
  | inl _ => None
  end.

Definition classify_envelope_error (line source : string) : StdioError :=
  match value_from_str line with
  | inr value =>
      if bool_decide (json_get value "request_id" = None) && bool_decide (is_Some (json_get value "type"))
      then SeMissingRequestId else SeMalformedJson source
  | inl _ => SeMalformedJson source
  end.

Definition classify_payload_error (message : string) : StdioError :=
  match extract_missing_field message with
  | Some field => SeMissingField field
  | None => SeInvalidField "payload" (Text message)
  end.

Definition parse_payload {T} (from_value : json → string + T) (value : json) : outcome StdioError T :=
  match from_value value with
  | inr payload => Ok payload
  | inl source => Err (classify_payload_error source)
  end.

Definition parse_payload_or_default {T} (from_value : json → string + T) (default_ : T) (value : json) : T :=
  if json_is_null value then default_
  else match from_value value with inr payload => payload | inl _ => default_ end.

Definition parse_typed_request (envelope : RequestEnvelope) : outcome StdioError Request :=
  let request_id := re_request_id envelope in
  let payload := re_payload envelope in
  let type := re_message_type envelope in
  if decide (type = "session.start") then RSessionStart request_id <$> parse_payload from_session_start payload
  else if decide (type = "session.stop") then Ok (RSessionStop request_id)
  else if decide (type = "session.reset") then Ok (RSessionReset request_id)
  else if decide (type = "session.status") then Ok (RSessionStatus request_id)
  else if decide (type = "undo.rollback") then RUndoRollback request_id <$> parse_payload from_undo_rollback payload
  else if decide (type = "undo.history") then
    Ok (RUndoHistory request_id (parse_payload_or_default from_undo_history UndoHistoryPayload_default payload))
  else if decide (type = "undo.configure") then
    Ok (RUndoConfigure request_id
          (parse_payload_or_default from_undo_configure UndoConfigurePayload_default payload))
  else if decide (type = "undo.discard") then Ok (RUndoDiscard request_id)
  else if decide (type = "agent.execute") then RAgentExecute request_id <$> parse_payload from_agent_execute payload
  else if decide (type = "agent.prompt") then RAgentPrompt request_id <$> parse_payload from_agent_prompt payload
  else if decide (type = "fs.list") then RFsList request_id <$> parse_payload from_fs_list payload
  else if decide (type = "fs.read") then RFsRead request_id <$> parse_payload from_fs_read payload
  else if decide (type = "fs.status") then Ok (RFsStatus request_id)
  else if decide (type = "safeguard.configure") then
    Ok (RSafeguardConfigure request_id
          (parse_payload_or_default from_safeguard_configure SafeguardConfigurePayload_default payload))
  else if decide (type = "safeguard.confirm") then
    RSafeguardConfirm request_id <$> parse_payload from_safeguard_confirm payload
  else Err (SeUnknownOperation type).

Definition parse_request (line : string) : outcome StdioError Request :=
  if MAX_MESSAGE_SIZE <? Z.of_nat (String.length line)
  then Err (SeOversizedMessage MAX_MESSAGE_SIZE (Z.of_nat (String.length line)))
  else match envelope_from_str line with
       | inr envelope => parse_typed_request envelope
       | inl source => Err (classify_envelope_error line source)
       end.
End parser.

(** ** router.rs *)

Class RequestHandler (S : Type) := {
  rh_session_start : SessionStartPayload → stm S StdioError json;
  rh_session_stop : stm S StdioError json;
  rh_session_reset : stm S StdioError json;
  rh_session_status : stm S StdioError json;
  rh_undo_rollback : UndoRollbackPayload → stm S StdioError json;
  rh_undo_history : UndoHistoryPayload → stm S StdioError json;
  rh_undo_configure : UndoConfigurePayload → stm S StdioError json;
  rh_undo_discard : stm S StdioError json;
  rh_agent_execute : AgentExecutePayload → stm S StdioError json;
  rh_agent_prompt : AgentPromptPayload → stm S StdioError json;
  rh_fs_list : FsListPayload → stm S StdioError json;
  rh_fs_read : FsReadPayload → stm S StdioError json;
  rh_fs_status : stm S StdioError json;
  rh_safeguard_configure : SafeguardConfigurePayload → stm S StdioError json;
  rh_safeguard_confirm : SafeguardConfirmPayload → stm S StdioError json;
}.

Section router.
Context {S : Type} `{RequestHandler S} (root_dir : string).

Definition check_path (path : string) : stm S StdioError unit :=
  match validate_path path root_dir with
  | Ok _ => mret ()
  | Err (PathOutsideRoot p) => throw (SePathOutsideRoot p)
  | Panic => panic
  end.

Definition check_version (version : option Z) : stm S StdioError unit :=
  match version with
  | Some v =>
      if (v <? MIN_SUPPORTED_VERSION) || (MAX_SUPPORTED_VERSION <? v)
      then throw (SeUnsupportedProtocolVersion v MIN_SUPPORTED_VERSION MAX_SUPPORTED_VERSION)
      else mret ()
  | None => mret ()
  end.

Definition dispatch_inner (request : Request) : stm S StdioError json :=
  match request with
  | RSessionStart _ payload => check_version (sp_protocol_version payload);; rh_session_start payload
  | RSessionStop _ => rh_session_stop
  | RSessionReset _ => rh_session_reset
  | RSessionStatus _ => rh_session_status
  | RUndoRollback _ payload => rh_undo_rollback payload
  | RUndoHistory _ payload => rh_undo_history payload
  | RUndoConfigure _ payload => rh_undo_configure payload
  | RUndoDiscard _ => rh_undo_discard
  | RAgentExecute _ payload => rh_agent_execute payload
  | RAgentPrompt _ payload => rh_agent_prompt payload
  | RFsList _ payload => check_path (fl_path payload);; rh_fs_list payload
  | RFsRead _ payload => check_path (fr_path payload);; rh_fs_read payload
  | RFsStatus _ => rh_fs_status
  | RSafeguardConfigure _ payload => rh_safeguard_configure payload
  | RSafeguardConfirm _ payload => rh_safeguard_confirm payload
  end.

Definition dispatch (request : Request) : stm S StdioError ResponseEnvelope :=
  result ← try (dispatch_inner request);
  mret (match result with
        | inr payload => ResponseEnvelope_ok (request_id request) (Some payload)
        | inl error => ResponseEnvelope_error (request_id request) (to_error_detail error)
        end).

(** ** server.rs *)

Definition MAX_LOG_LEN : nat := 200.

(** [&line[..200]] panics inside a character. *)
Definition truncate_for_log (line : string) : outcome StdioError string :=
  if (String.length line <=? MAX_LOG_LEN)%nat then Ok line
  else if is_char_boundary line MAX_LOG_LEN then Ok (String.substring 0 MAX_LOG_LEN line) else Panic.

(** One line of input: the response written for it. *)
Definition serve_line `{SerdeStdio} (line : string) : stm S StdioError ResponseEnvelope :=
  _ ← lift (truncate_for_log line);
  match parse_request line with
  | Ok request => dispatch request
  | Err error =>
      mret (ResponseEnvelope_error (default EmptyString (extract_request_id line)) (to_error_detail error))
  | Panic => panic
  end.

(** The loop: input lines and events as they come in, and what is written. *)
Inductive stdio_output := OutResponse (r : ResponseEnvelope) | OutEvent (e : EventEnvelope).

Fixpoint run `{SerdeStdio} (inputs : list (string + Event)) : stm S StdioError (list stdio_output) :=
  match inputs with
  | [] => mret []
  | inl line :: rest =>
      response ← serve_line line;
      out ← run rest;
      mret (OutResponse response :: out)
  | inr event :: rest =>
      out ← run rest;
      mret (OutEvent (to_envelope event) :: out)
  end.
End router.

(** ** Every line is answered *)

Section answers.
Context {S : Type} `{RequestHandler S} `{SS : SerdeStdio} `{!SerdeStdioLaws SS} (root_dir : string).

Lemma parse_typed_request_id e r : parse_typed_request e = Ok r → request_id r = re_request_id e.
Proof.
  unfold parse_typed_request, parse_payload. intros Hp. repeat case_decide; try (by simplify_eq/=);
    unfold fmap, outcome_fmap in Hp; by repeat case_match; simplify_eq/=.
Qed.

Lemma parse_typed_request_total e : parse_typed_request e ≠ Panic.
Proof.
  unfold parse_typed_request, parse_payload, fmap, outcome_fmap. intros Hp.
  repeat case_decide; try done; by repeat case_match.
Qed.

Lemma parse_request_total line : parse_request line ≠ Panic.
Proof.
  unfold parse_request. destruct (_ <? _); [done|]. destruct (envelope_from_str line); [done|].
  apply parse_typed_request_total.
Qed.

(** The request has the identifier that an error response would have. *)
Lemma parse_request_id line r : parse_request line = Ok r → extract_request_id line = Some (request_id r).
Proof.
  unfold parse_request, extract_request_id. destruct (_ <? _); [done|].
  destruct (envelope_from_str line) as [|e] eqn:Ee; [done|]. intros Hp%parse_typed_request_id.
  destruct (envelope_fields line e Ee) as (v & -> & Hg). cbn. by rewrite Hg, Hp.
Qed.

(** A request whose path or version is refused, and what is answered. *)
Definition refusal (request : Request) : option StdioError :=
  let path p := match validate_path p root_dir with
                | Err (PathOutsideRoot p') => Some (SePathOutsideRoot p') | _ => None end in
  match request with
  | RSessionStart _ payload =>
      v ← sp_protocol_version payload;
      if decide (v = 1) then None else Some (SeUnsupportedProtocolVersion v 1 1)
  | RFsList _ payload => path (fl_path payload)
  | RFsRead _ payload => path (fr_path payload)
  | _ => None
  end.

Lemma refusal_answer request error s :
  refusal request = Some error → dispatch_inner root_dir request s = (Err error, s).
Proof.
  destruct request as [id p| | | | | | | | | |id p|id p| | |]; cbn [refusal]; try done.
  - destruct (sp_protocol_version p) as [v|] eqn:Ev; [|done]. cbn. case_decide as Hv; [done|]. intros [= <-].
    unfold mbind, stm_bind, check_version. rewrite Ev. unfold MIN_SUPPORTED_VERSION, MAX_SUPPORTED_VERSION.
    destruct (Z.ltb_spec v 1), (Z.ltb_spec 1 v); cbn; try done; lia.
  - unfold dispatch_inner, check_path, mbind, stm_bind. destruct (validate_path _ _) as [|[]|]; [done| |done].
    by intros [= <-].
  - unfold dispatch_inner, check_path, mbind, stm_bind. destruct (validate_path _ _) as [|[]|]; [done| |done].
    by intros [= <-].
Qed.
End answers.

(** C35. The STDIO server answers every line once, and with the request
    identifier of the line: a request that parses and a line that does not are
    answered under the same identifier, the one in the field [request_id], or
    the empty one if the line has none.  A line that does not parse, a request
    for a path outside the root and a start with another protocol version are
    answered with their error and never reach the handler.  No answer comes only
    when the handler panics, or when the line is longer than 200 bytes and byte
    200 is inside a character. *)
Theorem stdio_line_answered {S : Type} `{RequestHandler S} `{SS : SerdeStdio} `{!SerdeStdioLaws SS} root_dir line (s : S) :
  match serve_line root_dir line s with
  | (Ok response, s') =>
      rs_request_id response = default EmptyString (extract_request_id line) ∧
      match parse_request line with
      | Ok request =>
          match refusal root_dir request with
          | Some error => response = ResponseEnvelope_error (request_id request) (to_error_detail error) ∧ s' = s
          | None =>
              match dispatch_inner root_dir request s with
              | (Ok payload, s1) => response = ResponseEnvelope_ok (request_id request) (Some payload) ∧ s' = s1
              | (Err error, s1) =>
                  response = ResponseEnvelope_error (request_id request) (to_error_detail error) ∧ s' = s1
              | (Panic, _) => False
              end
          end
      | Err error => rs_status response = "error" ∧ rs_error response = Some (to_error_detail error) ∧ s' = s
      | Panic => False
      end
  | (Err _, _) => False
  | (Panic, _) =>
      ((MAX_LOG_LEN < String.length line)%nat ∧ is_char_boundary line MAX_LOG_LEN = false) ∨
      ∃ request, parse_request line = Ok request ∧ (dispatch_inner root_dir request s).1 = Panic
  end.
Proof.
  unfold serve_line. unfold mbind at 1, stm_bind at 1, lift.
  destruct (truncate_for_log line) as [shown|e|] eqn:Et.
  2: { unfold truncate_for_log in Et. by repeat case_match. }
  2: { left. unfold truncate_for_log in Et. destruct (Nat.leb_spec (String.length line) MAX_LOG_LEN); [done|].
       split; [lia|]. by destruct (is_char_boundary line MAX_LOG_LEN). }
  destruct (parse_request line) as [request|error|] eqn:Ep; [|done|by apply parse_request_total in Ep].
  rewrite (parse_request_id line request Ep). unfold dispatch, try, mbind, stm_bind.
  destruct (refusal root_dir request) as [error|] eqn:Er.
  - by rewrite (refusal_answer root_dir request error s Er).
  - destruct (dispatch_inner root_dir request s) as [[payload|error|] s1] eqn:Ed; cbn; [done..|].
    right. exists request. by rewrite Ed.
Qed.

(** Two lines that the sample library understands, and a handler that counts
    its calls. *)
Definition sample_value (line : string) : option (string * json) :=
  if decide (line = "read") then Some ("fs.read", JObject [("path", JString "../x")])
  else if decide (line = "status") then Some ("session.status", JNull)
  else None.

#[local] Instance sample_serde_stdio : SerdeStdio := {
  value_from_str line :=
    match sample_value line with
    | Some (type, payload) =>
        inr (JObject [("type", JString type); ("request_id", JString "7"); ("payload", payload)])
    | None => inl "expected value at line 1 column 1"
    end;
  envelope_from_str line :=
    match sample_value line with
    | Some (type, payload) => inr (mkRequestEnvelope type "7" payload)
    | None => inl "expected value at line 1 column 1"
    end;
  from_session_start _ := inl "missing field `working_directories`";
  from_undo_rollback _ := inl "missing field `count`";
  from_undo_history _ := inr UndoHistoryPayload_default;
  from_undo_configure _ := inr UndoConfigurePayload_default;
  from_agent_execute _ := inl "missing field `command`";
  from_agent_prompt _ := inl "missing field `prompt`";
  from_fs_list _ := inl "missing field `path`";
  from_fs_read v :=
    match json_get v "path" with
    | Some (JString p) => inr (mkFsRead p None)
    | _ => inl "missing field `path`"
    end;
  from_safeguard_configure _ := inr SafeguardConfigurePayload_default;
  from_safeguard_confirm _ := inl "missing field `safeguard_id`";
}.

#[local] Instance sample_serde_stdio_laws : SerdeStdioLaws sample_serde_stdio.
Proof.
  split. intros line e. cbn. destruct (sample_value line) as [[type payload]|]; [|done].
  intros [= <-]. eexists. by split.
Qed.

Definition counted : stm nat StdioError json := λ n, (Ok JNull, Datatypes.S n).
#[local] Instance counting_handler : RequestHandler nat := {
  rh_session_start _ := counted; rh_session_stop := counted; rh_session_reset := counted;
  rh_session_status := counted; rh_undo_rollback _ := counted; rh_undo_history _ := counted;
  rh_undo_configure _ := counted; rh_undo_discard := counted; rh_agent_execute _ := counted;
  rh_agent_prompt _ := counted; rh_fs_list _ := counted; rh_fs_read _ := counted; rh_fs_status := counted;
  rh_safeguard_configure _ := counted; rh_safeguard_confirm _ := counted;
}.

Lemma stdio_line_answered_witness :
  match serve_line "/w" "read" 5%nat, serve_line "/w" "status" 5%nat with
  | (Ok r1, s1), (Ok r2, s2) =>
      rs_request_id r1 = "7" ∧ rs_status r1 = "error" ∧ s1 = 5%nat ∧ rs_status r2 = "ok" ∧ s2 = 6%nat
  | _, _ => False
  end.
Proof.
  pose proof (stdio_line_answered "/w" "read" 5%nat) as H1.
  pose proof (stdio_line_answered "/w" "status" 5%nat) as H2.
  vm_compute in H1, H2 |- *. destruct H1 as (H1 & _ & H1'), H2 as (_ & _ & H2').
  split; [exact H1|]. split; [reflexivity|]. split; [exact H1'|]. split; [reflexivity | exact H2'].
Defined.

(** 199 bytes, then a character of three bytes. *)
Fixpoint str_repeat (n : nat) (c : ascii) (s : string) : string :=
  match n with O => s | Datatypes.S n' => String c (str_repeat n' c s) end.
Definition long_line : string :=
  str_repeat 199 "a" (string_of_bytes [226; 130; 172]).

Example long_line_kills_server : is_utf8 long_line = true ∧ (serve_line "/w" long_line 5%nat).1 = Panic.
Proof. by vm_compute. Qed.

