(* ===== verification/Mcp.v ===== *)
(** * The MCP server

    Models [crates/mcp/src/parser.rs], [router.rs] and [server.rs], and the
    router of a connection of [crates/sandbox/src/socket_server.rs]: from a line
    of input to the response written for it, if there is one.  The tools are any
    instance of [McpHandler]; [SerdeMcp] is what the code uses of [serde_json]. *)

From Stdlib Require Import Ascii.
From stdpp Require Import base gmap strings list pretty.
From S2P Require Import Prelude HostFs Common StdioProtocol McpProtocol PathValidation Stdio.
#[local] Open Scope Z_scope.

Class SerdeMcp := {
  mcp_value_from_str : string → string + json;
  request_from_str : string → string + JsonRpcRequest;
  from_tool_call_params : json → string + ToolCallParams;
  from_bash_args : json → string + BashArgs;
  from_read_file_args : json → string + ReadFileArgs;
  from_write_file_args : json → string + WriteFileArgs;
  from_edit_file_args : json → string + EditFileArgs;
  from_glob_args : json → string + GlobArgs;
  from_grep_args : json → string + GrepArgs;
  from_undo_args : json → string + UndoArgs;
  from_get_undo_history_args : json → string + unit;
  from_discard_undo_history_args : json → string + unit;
  json_to_string : json → string;
}.

(** A request is an object; [Option] reads a missing [id] and a null one as
    [None]. *)
Definition id_of (v : json) : option json :=
  id ← json_get v "id"; if json_is_null id then None else Some id.

Class SerdeMcpLaws (SM : SerdeMcp) := {
  request_fields line r : request_from_str line = inr r →
    ∃ v, mcp_value_from_str line = inr v ∧ jr_id r = id_of v;
}.

(** ** parser.rs *)

Definition MCP_MAX_MESSAGE_SIZE : Z := 1048576.

Definition double_quote : string := String (ascii_of_nat 34) EmptyString.
Definition wrong_version (found : string) : string :=
  "Expected jsonrpc version " +:+ double_quote +:+ "2.0" +:+ double_quote +:+ ", got " +:+ double_quote
    +:+ found +:+ double_quote.

Section parser.
Context `{SerdeMcp}.

Definition parse_jsonrpc (line : string) : outcome McpError JsonRpcRequest :=
  if MCP_MAX_MESSAGE_SIZE <? Z.of_nat (String.length line)
  then Err (McpOversizedMessage MCP_MAX_MESSAGE_SIZE (Z.of_nat (String.length line)))
  else match request_from_str line with
       | inl source => Err (McpParseError source)
       | inr request =>
           if decide (jr_jsonrpc request = "2.0") then Ok request
           else Err (InvalidRequest (wrong_version (jr_jsonrpc request)))
       end.

Definition extract_id (line : string) : option json :=
  match mcp_value_from_str line with inr v => json_get v "id" | inl _ => None end.
End parser.

(** ** router.rs *)

Class McpHandler (S : Type) := {
  mh_bash : BashArgs → stm S McpError json;
  mh_read_file : ReadFileArgs → stm S McpError json;
  mh_write_file : WriteFileArgs → stm S McpError json;
  mh_edit_file : EditFileArgs → stm S McpError json;
  mh_glob : GlobArgs → stm S McpError json;
  mh_grep : GrepArgs → stm S McpError json;
  mh_undo : UndoArgs → stm S McpError json;
  mh_get_undo_history : stm S McpError json;
  mh_get_session_status : stm S McpError json;
  mh_discard_undo_history : stm S McpError json;
}.

Definition server_info (instructions : string) : json :=
  JObject [("protocolVersion", JString "2024-11-05");
           ("capabilities", JObject [("tools", JObject [])]);
           ("serverInfo", JObject [("name", JString "codeagent-mcp"); ("version", JString "0.1.0")]);
           ("instructions", JString instructions)].

Record ToolDefinition := mkTool {
  td_name : string;
  td_description : string;
  td_input_schema : json;
}.

(** A property of a schema, and a schema. *)
Definition property (name type description : string) : string * json :=
  (name, JObject [("type", JString type); ("description", JString description)]).
Definition property_default (name type description : string) (d : json) : string * json :=
  (name, JObject [("type", JString type); ("description", JString description); ("default", d)]).
Definition schema (properties : list (string * json)) : json :=
  JObject [("type", JString "object"); ("properties", JObject properties)].
Definition schema_required (properties : list (string * json)) (required : list string) : json :=
  JObject [("type", JString "object"); ("properties", JObject properties); ("required", JStrings required)].

Definition tool_definitions : list ToolDefinition := [
  mkTool "Bash"
    "Executes a bash command in the sandbox VM. Working directory persists between commands; shell state does not."
    (schema_required
       [property "command" "string" "The command to execute";
        property "description" "string" "Clear, concise description of what this command does";
        property "timeout" "number" "Optional timeout in milliseconds (max 600000)"]
       ["command"]);
  mkTool "read_file" "Read a file's contents from the working folder"
    (schema_required [property "path" "string" "Relative path to the file"] ["path"]);
  mkTool "write_file" "Write content to a file in the working folder"
    (schema_required
       [property "path" "string" "Relative path to the file"; property "content" "string" "File content to write"]
       ["path"; "content"]);
  mkTool "edit_file" "Perform exact string replacement in a file"
    (schema_required
       [property "path" "string" "Relative path to the file"; property "old_string" "string" "Exact text to find";
        property "new_string" "string" "Replacement text";
        property_default "replace_all" "boolean" "Replace all occurrences (default: false)" (JBool false)]
       ["path"; "old_string"; "new_string"]);
  mkTool "glob" "Find files matching a glob pattern. Results sorted by modification time (newest first)."
    (schema_required
       [property "pattern" "string" "Glob pattern (e.g. **/*.rs, src/**/*.ts)";
        property "path" "string" "Directory to search in (relative to working dir)";
        property "limit" "integer" "Max results to return (default: 200)"]
       ["pattern"]);
  mkTool "grep" "Search file contents with a regex pattern"
    (schema_required
       [property "pattern" "string" "Regex pattern to search for";
        property "path" "string" "File or directory to search (relative to working dir)";
        property "include" "string" "Glob pattern to filter files (e.g. *.rs)";
        property_default "output_mode" "string" "Output format: files_with_matches (default), content, or count"
          (JString "files_with_matches");
        property "context_lines" "integer" "Lines of context around matches (content mode)";
        property_default "case_insensitive" "boolean" "Case-insensitive matching" (JBool false)]
       ["pattern"]);
  mkTool "undo" "Roll back the most recent N steps"
    (schema
       [property_default "count" "integer" "Number of steps to undo" (JNumber 1);
        property_default "force" "boolean" "Force rollback across barriers" (JBool false)]);
  mkTool "get_undo_history" "List recent steps with metadata" (schema []);
  mkTool "get_session_status" "Query current session state" (schema []);
  mkTool "discard_undo_history" "Discard all undo history, resetting the undo log. Cannot be undone." (schema []);
  mkTool "get_working_directory"
    "Get the sandbox working directory. This is the root directory for all file operations — NOT the project directory open in your editor."
    (schema [])].

Definition tool_value (t : ToolDefinition) : json :=
  JObject [("name", JString (td_name t)); ("description", JString (td_description t));
           ("inputSchema", td_input_schema t)].

(** Serializing a result leaves out [isError] when it is false. *)
Definition result_value (r : ToolCallResult) : json :=
  JObject (("content", JArray ((λ c, JObject [("type", JString (content_type c)); ("text", JString (content_text c))])
                                 <$> tc_content r))
           :: if tc_is_error r then [("isError", JBool true)] else []).

(** The paths are texts: they are only validated and printed. *)
Record McpRouter := mkMcpRouter {
  mr_root_dir : string;
  mr_working_dirs : list string;
  mr_instructions : string;
}.

Definition newline : string := String (ascii_of_nat 10) EmptyString.

Definition instructions_text (roots : string) : string :=
  "IMPORTANT: You are operating inside a sandboxed environment. "
  +:+ "Your working directory is NOT the project open in your editor. "
  +:+ "Call get_working_directory to find the real sandbox working directory. "
  +:+ "All file paths must be relative to that sandbox directory." +:+ newline +:+ newline
  +:+ roots +:+ newline +:+ newline
  +:+ "Use ONLY this server's tools for ALL file and command operations. "
  +:+ "Built-in tools (Read, Edit, Write, Glob, Grep, Bash) have been "
  +:+ "disabled — do not attempt to use them.".

Definition McpRouter_new (root_dir : string) : McpRouter :=
  mkMcpRouter root_dir [root_dir] (instructions_text ("Sandbox root: " +:+ root_dir)).

Definition with_working_dirs (root_dir : string) (all_dirs : list string) : McpRouter :=
  let dir_list := (λ d, "  - " +:+ d) <$> all_dirs in
  mkMcpRouter root_dir all_dirs
    (instructions_text ("Sandbox roots:" +:+ newline +:+ join_with (ascii_of_nat 10) dir_list)).

(** A handler of further methods: [None] falls through. *)
Definition CustomMethodHandler (S : Type) : Type :=
  string → option json → json → stm S McpError (option JsonRpcResponse).

Section router.
Context {S : Type} `{McpHandler S} `{SerdeMcp} (self : McpRouter) (custom : option (CustomMethodHandler S)).

Definition parse_tool_args {T} (from_value : json → string + T) (value : json) : stm S McpError T :=
  lift match from_value value with
       | inr args => Ok args
       | inl message =>
           Err (match extract_missing_field message with
                | Some field => MissingField field
                | None => InvalidParams message
                end)
       end.

Definition check_tool_path (path : string) : stm S McpError unit :=
  match validate_path_multi path (mr_working_dirs self) with
  | Ok _ => mret ()
  | Err (PathOutsideRoot p) => throw (McpPathOutsideRoot p)
  | Panic => panic
  end.

Definition text_result (value : json) : ToolCallResult := ToolCallResult_text (json_to_string value).

Definition working_directory_value : json :=
  JObject [("working_directory", JString (mr_root_dir self));
           ("all_working_directories", JStrings (mr_working_dirs self))].

(** The arm of [dispatch_tool_call] for a tool. *)
Definition call_tool (name : string) (arguments : json) : stm S McpError json :=
  if decide (name = "Bash") then args ← parse_tool_args from_bash_args arguments; mh_bash args
  else if decide (name = "read_file") then
    args ← parse_tool_args from_read_file_args arguments; check_tool_path (rf_path args);; mh_read_file args
  else if decide (name = "write_file") then
    args ← parse_tool_args from_write_file_args arguments; check_tool_path (wf_path args);; mh_write_file args
  else if decide (name = "edit_file") then
    args ← parse_tool_args from_edit_file_args arguments; check_tool_path (ef_path args);; mh_edit_file args
  else if decide (name = "glob") then
    args ← parse_tool_args from_glob_args arguments;
    (match ga_path args with Some p => check_tool_path p | None => mret () end);; mh_glob args
  else if decide (name = "grep") then
    args ← parse_tool_args from_grep_args arguments;
    (match gr_path args with Some p => check_tool_path p | None => mret () end);; mh_grep args
  else if decide (name = "undo") then args ← parse_tool_args from_undo_args arguments; mh_undo args
  else if decide (name = "get_undo_history") then
    parse_tool_args from_get_undo_history_args arguments;; mh_get_undo_history
  else if decide (name = "get_session_status") then mh_get_session_status
  else if decide (name = "discard_undo_history") then
    parse_tool_args from_discard_undo_history_args arguments;; mh_discard_undo_history
  else if decide (name = "get_working_directory") then mret working_directory_value
  else throw (MethodNotFound ("tools/call: unknown tool `" +:+ name +:+ "`")).

Definition dispatch_tool_call (params : json) : stm S McpError ToolCallResult :=
  tool_params ← lift match from_tool_call_params params with
                     | inr p => Ok p
                     | inl e => Err (InvalidParams ("Invalid tools/call params: " +:+ e))
                     end;
  value ← call_tool (tp_name tool_params) (tp_arguments tool_params);
  mret (text_result value).

(** The flag [initialized] is set and never read. *)
Definition mcp_dispatch (request : JsonRpcRequest) : stm S McpError (option JsonRpcResponse) :=
  let id := jr_id request in
  let method := jr_method request in
  if decide (method = "initialize") then
    mret (Some (JsonRpcResponse_success id (server_info (mr_instructions self))))
  else if decide (method = "notifications/initialized") then mret None
  else if decide (method = "tools/list") then
    mret (Some (JsonRpcResponse_success id (JObject [("tools", JArray (tool_value <$> tool_definitions))])))
  else if decide (method = "tools/call") then
    result ← try (dispatch_tool_call (jr_params request));
    mret (Some match result with
               | inr tool_result => JsonRpcResponse_success id (result_value tool_result)
               | inl error => JsonRpcResponse_error id (to_jsonrpc_error error)
               end)
  else
    answered ← match custom with
               | Some handler => handler method id (jr_params request)
               | None => mret None
               end;
    mret match answered with
         | Some response => Some response
         | None =>
             if bool_decide (id = None) then None
             else Some (JsonRpcResponse_error id (to_jsonrpc_error (MethodNotFound method)))
         end.

(** ** server.rs *)

Definition mcp_serve_line (line : string) : stm S McpError (option JsonRpcResponse) :=
  match parse_jsonrpc line with
  | Ok request => mcp_dispatch request
  | Err error => mret (Some (JsonRpcResponse_error (extract_id line) (to_jsonrpc_error error)))
  | Panic => panic
  end.

(** The loop over the lines: the responses written. *)
Fixpoint mcp_run (lines : list string) : stm S McpError (list JsonRpcResponse) :=
  match lines with
  | [] => mret []
  | line :: rest =>
      response ← mcp_serve_line line;
      out ← mcp_run rest;
      mret (option_list response ++ out)
  end.
End router.

(** ** Answers *)

Section answers.
Context {S : Type} `{McpHandler S} `{SM : SerdeMcp} `{!SerdeMcpLaws SM} (self : McpRouter)
  (custom : option (CustomMethodHandler S)).

(** The identifier of a line. *)
Definition line_id (line : string) : option json :=
  match mcp_value_from_str line with inr v => id_of v | inl _ => None end.

(** A null identifier is none. *)
Definition non_null (id : option json) : option json := v ← id; if json_is_null v then None else Some v.

(** A further handler returns, and answers under the identifier it is given. *)
Definition custom_ok : Prop :=
  match custom with
  | Some f => ∀ method id params s, ∃ r s', f method id params s = (Ok r, s') ∧
                ∀ response, r = Some response → jp_id response = id
  | None => True
  end.

Lemma parse_jsonrpc_total line : parse_jsonrpc line ≠ Panic.
Proof. unfold parse_jsonrpc. destruct (_ <? _); [done|]. destruct (request_from_str line); [done|]. by case_decide. Qed.

Lemma parse_jsonrpc_id line r :
  parse_jsonrpc line = Ok r → jr_id r = line_id line ∧ non_null (jr_id r) = jr_id r.
Proof.
  unfold parse_jsonrpc, line_id. destruct (_ <? _); [done|].
  destruct (request_from_str line) as [|r'] eqn:Er; [done|]. case_decide; [|done]. intros [= ->].
  destruct (request_fields line r Er) as (v & -> & ->). split; [done|].
  unfold id_of, non_null. destruct (json_get v "id") as [[]|]; by cbn.
Qed.

(** What is answered to a request that parses. *)
Lemma dispatch_answer request (s : S) :
  custom_ok →
  match mcp_dispatch self custom request s with
  | (Ok (Some response), _) => jp_id response = jr_id request
  | (Ok None, s') => jr_id request = None ∨ jr_method request = "notifications/initialized" ∧ s' = s
  | (Err _, _) => False
  | (Panic, _) => (dispatch_tool_call self (jr_params request) s).1 = Panic
  end.
Proof.
  intros Hc. unfold mcp_dispatch, mbind, stm_bind, try.
  case_decide; [done|]. case_decide; [by cbn; auto|]. case_decide; [done|]. case_decide.
  - by destruct (dispatch_tool_call self (jr_params request) s) as [[] ?].
  - unfold custom_ok in Hc. destruct custom as [f|].
    + destruct (Hc (jr_method request) (jr_id request) (jr_params request) s) as (r & s' & -> & Hr). cbn.
      destruct r as [response|]; [by apply Hr|]. case_bool_decide; [by left | done].
    + cbn. case_bool_decide; [by left | done].
Qed.

(** The path a tool is called with. *)
Definition tool_path (name : string) (arguments : json) : option string :=
  let get {T} (from_value : json → string + T) (f : T → option string) :=
    match from_value arguments with inr args => f args | inl _ => None end in
  if decide (name = "read_file") then get from_read_file_args (Some ∘ rf_path)
  else if decide (name = "write_file") then get from_write_file_args (Some ∘ wf_path)
  else if decide (name = "edit_file") then get from_edit_file_args (Some ∘ ef_path)
  else if decide (name = "glob") then get from_glob_args ga_path
  else if decide (name = "grep") then get from_grep_args gr_path
  else None.

Lemma validate_path_error p roots e : validate_path_multi p roots = Err e → e = PathOutsideRoot p.
Proof.
  unfold validate_path_multi. destruct (is_absolute p).
  - destruct (resolve_components p) as [r|]; cbn; [|by intros [= <-]].
    induction roots as [|root roots IH]; cbn; [by intros [= <-]|].
    destruct (resolve_components root); cbn; [|by intros [= <-]]. by destruct (path_starts_with _ _).
  - induction roots as [|root roots IH]; cbn; [by intros [= <-]|]. repeat case_match; by auto.
Qed.

Lemma tool_path_refused name arguments p e (s : S) :
  tool_path name arguments = Some p → validate_path_multi p (mr_working_dirs self) = Err e →
  call_tool self name arguments s = (Err (McpPathOutsideRoot p), s).
Proof.
  intros Ht Hv. pose proof (validate_path_error _ _ _ Hv) as ->.
  unfold tool_path in Ht. unfold call_tool, parse_tool_args, check_tool_path, lift, mbind, stm_bind.
  destruct (decide (name = "read_file")) as [->|]; [|destruct (decide (name = "write_file")) as [->|];
    [|destruct (decide (name = "edit_file")) as [->|]; [|destruct (decide (name = "glob")) as [->|];
    [|destruct (decide (name = "grep")) as [->|]; [|done]]]]].
  all: repeat (case_decide; [discriminate|]).
  all: case_match; [done|]; cbn in Ht; simplify_eq/=; rewrite ?Ht; by rewrite Hv.
Qed.

Lemma unknown_tool name arguments (s : S) :
  name ∉ td_name <$> tool_definitions →
  call_tool self name arguments s = (Err (MethodNotFound ("tools/call: unknown tool `" +:+ name +:+ "`")), s).
Proof.
  intros Hn. unfold call_tool.
  by repeat (case_decide; [exfalso; apply Hn; subst name; apply (bool_decide_unpack _); by vm_compute|]).
Qed.
End answers.


(** Sample lines and tools. *)
Definition sample_request (line : string) : option (option json * string) :=
  if decide (line = "list") then Some (Some (JNumber 3), "tools/list")
  else if decide (line = "ready") then Some (None, "notifications/initialized")
  else None.

#[local] Instance sample_serde_mcp : SerdeMcp := {
  mcp_value_from_str line :=
    match sample_request line with
    | Some (id, method) =>
        inr (JObject ([("jsonrpc", JString "2.0"); ("method", JString method)]
                      ++ match id with Some i => [("id", i)] | None => [] end))
    | None => if decide (line = "bad") then inr (JObject [("id", JNumber 4)]) else inl "expected value"
    end;
  request_from_str line :=
    match sample_request line with
    | Some (id, method) => inr (mkJsonRpcRequest "2.0" id method JNull)
    | None => inl "missing field `jsonrpc`"
    end;
  from_tool_call_params _ := inl "missing field `name`";
  from_bash_args _ := inl "missing field `command`";
  from_read_file_args _ := inl "missing field `path`";
  from_write_file_args _ := inl "missing field `path`";
  from_edit_file_args _ := inl "missing field `path`";
  from_glob_args _ := inl "missing field `pattern`";
  from_grep_args _ := inl "missing field `pattern`";
  from_undo_args _ := inr (mkUndoArgs 1 false);
  from_get_undo_history_args _ := inr ();
  from_discard_undo_history_args _ := inr ();
  json_to_string _ := "value";
}.

#[local] Instance sample_serde_mcp_laws : SerdeMcpLaws sample_serde_mcp.
Proof.
  split. intros line r. cbn. unfold sample_request. repeat case_decide; [| |done|done]; intros [= <-]; eexists; by split.
Qed.

Definition done_tool : stm unit McpError json := mret JNull.
#[local] Instance sample_mcp_handler : McpHandler unit := {
  mh_bash _ := done_tool; mh_read_file _ := done_tool; mh_write_file _ := done_tool; mh_edit_file _ := done_tool;
  mh_glob _ := done_tool; mh_grep _ := done_tool; mh_undo _ := done_tool; mh_get_undo_history := done_tool;
  mh_get_session_status := done_tool; mh_discard_undo_history := done_tool;
}.

