(* ===== verification/RecentWrites.v ===== *)
(** * Writes of the sandbox's own backends

    Models [crates/sandbox/src/recent_writes.rs]: the record of paths the
    sandbox wrote itself, by which the filesystem watcher tells its own events
    from external modifications, and the decorator [WriteTrackingInterceptor]
    that fills it.  The paths are absolute ones of a Unix host.  An [Instant] is
    a number of nanoseconds; [Instant::now()] is an argument of the operation,
    or the clock of the decorated state. *)

From Stdlib Require Import Ascii.
From stdpp Require Import base gmap strings list countable.
From S2P Require Import Prelude HostFs HostFacts Common WriteInterceptor PathValidation.
#[local] Open Scope Z_scope.

#[export] Instance component_eq_dec : EqDecision component.
Proof. solve_decision. Defined.
#[export] Instance component_countable : Countable component.
Proof.
  refine (inj_countable'
    (λ c, match c with RootDir => inl 0 | CurDir => inl 1 | ParentDir => inl 2 | Normal n => inr n end)
    (λ x : Z + string, match x with
          | inr n => Normal n
          | inl z => if decide (z = 0) then RootDir else if decide (z = 1) then CurDir else ParentDir
          end) _).
  by intros [].
Defined.

Definition DEFAULT_TTL : Z := 5 * 1000000000.
Definition ARRIVAL_JITTER_BUFFER : Z := 50 * 1000000.

(** A [PathBuf] as a key: two paths are equal when their components are. *)
Abbreviation path_key := (list component).

Record RecentBackendWrites := mkRecentWrites {
  rw_entries : gmap path_key Z;
  rw_ttl : Z;
  rw_active_suppressions : Z;
  rw_suppress_ended_at : option Z;
}.

Definition RecentBackendWrites_new (ttl : Z) : RecentBackendWrites := mkRecentWrites ∅ ttl 0 None.
Definition RecentBackendWrites_default : RecentBackendWrites := RecentBackendWrites_new DEFAULT_TTL.

(** [str::strip_prefix(s).unwrap_or(self)]. *)
Fixpoint strip_str_prefix (pre s : string) : option string :=
  match pre, s with
  | EmptyString, _ => Some s
  | String a pre', String b s' => if Ascii.eqb a b then strip_str_prefix pre' s' else None
  | String _ _, EmptyString => None
  end.

Definition normalize_path (p : path) : path_key :=
  let normalized := str_map (λ c, if Ascii.eqb c backslash then slash else c) (path_string p) in
  path_components (default normalized (strip_str_prefix "//?/" normalized)).

(** [Path::parent], with the empty parent of a one-component relative path
    left out, as [record] does. *)
Definition recorded_parent (k : path_key) : option path_key :=
  match rev k with
  | [] | RootDir :: _ | [_] => None
  | _ :: k' => Some (rev k')
  end.

Definition record (p : path) (now : Z) (rw : RecentBackendWrites) : RecentBackendWrites :=
  let canonical := normalize_path p in
  let entries := match recorded_parent canonical with
                 | Some par => <[par := now]> (rw_entries rw)
                 | None => rw_entries rw
                 end in
  mkRecentWrites (<[canonical := now]> entries) (rw_ttl rw) (rw_active_suppressions rw)
    (rw_suppress_ended_at rw).

(** [saturating_duration_since] is zero for an event older than the record. *)
Definition should_suppress (p : path) (event_time : Z) (rw : RecentBackendWrites) : bool :=
  if 0 <? rw_active_suppressions rw then true
  else if match rw_suppress_ended_at rw with
          | Some ended_at => event_time <=? ended_at + ARRIVAL_JITTER_BUFFER
          | None => false
          end then true
  else match rw_entries rw !! normalize_path p with
       | Some recorded_at => Z.max 0 (event_time - recorded_at) <? rw_ttl rw
       | None => false
       end.

Definition begin_suppression (rw : RecentBackendWrites) : RecentBackendWrites :=
  mkRecentWrites (rw_entries rw) (rw_ttl rw) (as_u64 (rw_active_suppressions rw + 1))
    (rw_suppress_ended_at rw).

(** [fetch_sub] wraps; the [debug_assert] fails after the subtraction. *)
Definition end_suppression (debug_assertions : bool) (now : Z)
    : stm RecentBackendWrites Empty_set unit := λ rw,
  let prev := rw_active_suppressions rw in
  let sub ended := mkRecentWrites (rw_entries rw) (rw_ttl rw) (as_u64 (prev - 1)) ended in
  if debug_assertions && negb (0 <? prev) then (Panic, sub (rw_suppress_ended_at rw))
  else if prev =? 1 then (Ok (), sub (Some now))
  else (Ok (), sub (rw_suppress_ended_at rw)).

Definition prune_expired (now : Z) (rw : RecentBackendWrites) : RecentBackendWrites :=
  mkRecentWrites (filter (λ kt, Z.max 0 (now - kt.2) < rw_ttl rw) (rw_entries rw)) (rw_ttl rw)
    (rw_active_suppressions rw) (rw_suppress_ended_at rw).

(** ** WriteTrackingInterceptor *)

(** The host state of the inner interceptor, the shared record, the clock. *)
Record tracked (S : Type) := mkTracked {
  t_inner : S;
  t_recent : RecentBackendWrites;
  t_now : Z;
}.
Arguments mkTracked {S}.
Arguments t_inner {S}.
Arguments t_recent {S}.
Arguments t_now {S}.

Section tracking.
Context {S : Type}.

Definition record_now (p : path) : stm (tracked S) CodeAgentError unit :=
  modify (λ t, mkTracked (t_inner t) (record p (t_now t) (t_recent t)) (t_now t)).

Definition on_inner_state {A} (m : stm S CodeAgentError A) : stm (tracked S) CodeAgentError A :=
  zoom t_inner (λ s t, mkTracked s (t_recent t) (t_now t)) m.

Definition WriteTrackingInterceptor (inner : WriteInterceptor S) : WriteInterceptor (tracked S) := {|
  wi_pre_write p := record_now p;; on_inner_state (wi_pre_write inner p);
  wi_pre_unlink p is_dir := record_now p;; on_inner_state (wi_pre_unlink inner p is_dir);
  wi_pre_rename from to :=
    record_now from;; record_now to;; on_inner_state (wi_pre_rename inner from to);
  wi_post_create p := record_now p;; on_inner_state (wi_post_create inner p);
  wi_post_mkdir p := record_now p;; on_inner_state (wi_post_mkdir inner p);
  wi_pre_setattr p := record_now p;; on_inner_state (wi_pre_setattr inner p);
  wi_pre_link target link_path :=
    record_now link_path;; on_inner_state (wi_pre_link inner target link_path);
  wi_post_symlink target link_path :=
    record_now link_path;; on_inner_state (wi_post_symlink inner target link_path);
  wi_pre_xattr p := record_now p;; on_inner_state (wi_pre_xattr inner p);
  wi_pre_open_trunc p := record_now p;; on_inner_state (wi_pre_open_trunc inner p);
  wi_pre_fallocate p := record_now p;; on_inner_state (wi_pre_fallocate inner p);
  wi_pre_copy_file_range p := record_now p;; on_inner_state (wi_pre_copy_file_range inner p);
  wi_current_step t := wi_current_step inner (t_inner t);
|}.

(** The paths a call changes, which the decorator records. *)
Definition call_paths (c : hook_call) : list path :=
  match c with
  | PreWrite p | PreUnlink p _ | PostCreate p | PostMkdir p | PreSetattr p | PreLink _ p
  | PostSymlink _ p | PreXattr p | PreOpenTrunc p | PreFallocate p | PreCopyFileRange p => [p]
  | PreRename from to => [from; to]
  end.

#[export] Instance tracked_HasTree `{HasTree S} : HasTree (tracked S) := {
  tree_of t := tree_of (t_inner t);
  put_tree x t := mkTracked (put_tree x (t_inner t)) (t_recent t) (t_now t);
}.

#[export] Instance tracked_HasTreeLaws `{HasTreeLaws S} : HasTreeLaws (tracked S).
Proof.
  split; simpl; intros.
  - apply tree_of_put.
  - rewrite put_tree_of. by destruct s.
  - by rewrite put_put_tree.
Qed.

(** One call through the decorator: the inner call, with the paths recorded at
    the time of the call. *)
Lemma tracking_call inner c t :
  call_hook (WriteTrackingInterceptor inner) c t =
  let '(r, s) := call_hook inner c (t_inner t) in
  (r, mkTracked s (foldl (λ rw p, record p (t_now t) rw) (t_recent t) (call_paths c)) (t_now t)).
Proof.
  destruct c; cbn [call_hook WriteTrackingInterceptor call_paths foldl wi_pre_write wi_pre_unlink
    wi_pre_rename wi_post_create wi_post_mkdir wi_pre_setattr wi_pre_link wi_post_symlink
    wi_pre_xattr wi_pre_open_trunc wi_pre_fallocate wi_pre_copy_file_range];
    unfold mbind, stm_bind, record_now, modify, on_inner_state, zoom; simpl;
    match goal with |- context [let '(_, _) := ?m in _] => by destruct m end.
Qed.

#[export] Instance tracking_laws `{HasTree S} inner :
  WriteInterceptorLaws inner → WriteInterceptorLaws (WriteTrackingInterceptor inner).
Proof.
  intros L. split.
  - intros c t [] t' Hc. rewrite tracking_call in Hc.
    destruct (call_hook inner c (t_inner t)) as [r s] eqn:E. simplify_eq.
    exact (hook_allows c _ _ _ E).
  - intros c Hc t. rewrite tracking_call. pose proof (post_keeps_tree (i := inner) c Hc (t_inner t)) as E.
    by destruct (call_hook inner c (t_inner t)).
Qed.

End tracking.

(** ** What the watcher is told *)

Inductive rw_op := OpRecord (p : path) | OpBegin | OpEnd | OpPrune.

Definition rw_apply (rw : RecentBackendWrites) (o : Z * rw_op) : RecentBackendWrites :=
  match o.2 with
  | OpRecord p => record p o.1 rw
  | OpBegin => begin_suppression rw
  | OpEnd => (end_suppression false o.1 rw).2
  | OpPrune => prune_expired o.1 rw
  end.

Definition rw_run (rw : RecentBackendWrites) (ops : list (Z * rw_op)) : RecentBackendWrites :=
  foldl rw_apply rw ops.

Lemma str_map_lacks c d s : lacks c s = true → str_map (λ x, if Ascii.eqb x c then d else x) s = s.
Proof.
  unfold lacks. induction s as [|x s IH]; simpl; [done|].
  intros [Hx Hs]%andb_true_iff. apply negb_true_iff in Hx. rewrite Hx. by rewrite IH.
Qed.

Lemma lacks_join c sep ws :
  Ascii.eqb sep c = false → Forall (λ w, lacks c w = true) ws → lacks c (join_with sep ws) = true.
Proof.
  intros Hs. assert (∀ a b, lacks c (a +:+ String sep b) = lacks c a && lacks c b) as Happ.
  { intros a b. unfold lacks. induction a as [|x a IH]; simpl; [by rewrite Hs|].
    rewrite <- andb_assoc. f_equal. exact IH. }
  induction 1 as [|w [|w' ws] Hw Hws IH]; [done | done |].
  change (join_with sep (w :: w' :: ws)) with (w +:+ String sep (join_with sep (w' :: ws))).
  rewrite Happ, Hw. exact IH.
Qed.

Lemma component_of_plain c : name_ok c = true → component_of c = Some (Normal c).
Proof. intros (? & ? & ? & ?)%name_ok_spec. unfold component_of. by rewrite !decide_False. Qed.

(** The key of a path with plain names is its names. *)
Lemma normalize_path_plain p : clean p → normalize_path p = RootDir :: map Normal p.
Proof.
  intros Hp. unfold normalize_path, path_string.
  assert (lacks backslash (join_with slash p) = true) as Hb.
  { apply lacks_join; [done|]. eapply Forall_impl; [|exact Hp]. by intros c (_ & _ & _ & _ & ?)%name_ok_spec. }
  cbn [str_map]. rewrite str_map_lacks by exact Hb.
  change (Ascii.eqb slash backslash) with false. cbv iota.
  assert (strip_str_prefix "//?/" (String slash (join_with slash p)) = None) as ->.
  { destruct p as [|[|a c] p]; [done | by inversion_clear Hp |].
    inversion_clear Hp as [|? ? Hn _]. apply name_ok_spec in Hn as (_ & _ & _ & Hc & _). unfold lacks in Hc. simpl in Hc.
    apply andb_true_iff in Hc as [Ha _]. apply negb_true_iff in Ha.
    change (strip_str_prefix "//?/" (String slash (join_with slash (String a c :: p)))) with
      (strip_str_prefix "/?/" (join_with slash (String a c :: p))).
    assert (∃ s, join_with slash (String a c :: p) = String a s) as [s ->] by (destruct p; by eexists).
    cbn [strip_str_prefix]. rewrite Ascii.eqb_sym in Ha. change "/"%char with slash. by rewrite Ha. }
  simpl. unfold path_components.
  change (is_absolute (String slash (join_with slash p))) with true.
  change (split_on slash (String slash (join_with slash p))) with ("" :: split_on slash (join_with slash p)).
  simpl. f_equal. destruct p as [|w ws]; [done|].
  rewrite split_join by (eapply Forall_impl; [|exact Hp]; by intros c (_ & _ & _ & ? & _)%name_ok_spec).
  clear Hb. revert Hp. generalize (w :: ws). clear. intros p Hp.
  induction Hp as [|c cs Hc _ IH]; [done|]. cbn [list_omap map].
  rewrite component_of_plain by done. by f_equal.
Qed.

Lemma recorded_parent_plain p c :
  recorded_parent (RootDir :: map Normal (p ++ [c])) = Some (RootDir :: map Normal p).
Proof.
  unfold recorded_parent. rewrite map_app, app_comm_cons. cbn [map]. rewrite rev_unit.
  destruct (rev (RootDir :: map Normal p)) as [|x l] eqn:E.
  - apply (f_equal (@length component)) in E. by rewrite length_rev in E.
  - by rewrite <- E, rev_involutive.
Qed.

(** A record not older than [t]. *)
Definition seen_since (t : Z) (k : path_key) (rw : RecentBackendWrites) : Prop :=
  ∃ t', rw_entries rw !! k = Some t' ∧ t ≤ t'.

Lemma record_seen p now k t rw : seen_since t k rw → t ≤ now → seen_since t k (record p now rw).
Proof.
  intros (t' & Hk & Ht) Hnow. unfold seen_since, record. simpl.
  destruct (decide (k = normalize_path p)) as [->|Hne];
    [exists now; by rewrite lookup_insert_eq|]. rewrite lookup_insert_ne by done.
  destruct (recorded_parent (normalize_path p)) as [par|]; [|by exists t'].
  destruct (decide (k = par)) as [->|]; [exists now; by rewrite lookup_insert_eq|].
  rewrite lookup_insert_ne by done. by exists t'.
Qed.

Lemma rw_apply_ttl rw o : rw_ttl (rw_apply rw o) = rw_ttl rw.
Proof. destruct o as [now []]; cbn [rw_apply fst snd]; try done. unfold end_suppression. cbn [andb]. by destruct (rw_active_suppressions rw =? 1). Qed.

(** Within the time to live nothing removes the record. *)
Lemma rw_apply_seen rw now op t k :
  seen_since t k rw → t ≤ now < t + rw_ttl rw → seen_since t k (rw_apply rw (now, op)).
Proof.
  intros Hs Hnow. destruct op as [p | | |]; cbn [rw_apply fst snd].
  - apply record_seen; [done | lia].
  - done.
  - unfold end_suppression. cbn [andb]. by destruct (rw_active_suppressions rw =? 1).
  - destruct Hs as (t' & Hk & Ht). exists t'. split; [|done]. simpl.
    apply map_lookup_filter_Some_2; [done|]. simpl. lia.
Qed.

Lemma rw_run_seen rw ops t k :
  seen_since t k rw → Forall (λ o, t ≤ o.1 < t + rw_ttl rw) ops →
  seen_since t k (rw_run rw ops) ∧ rw_ttl (rw_run rw ops) = rw_ttl rw.
Proof.
  intros Hs Hops. revert rw Hs Hops. induction ops as [|[now op] ops IH]; intros rw Hs Hops; simpl; [done|].
  inversion_clear Hops as [|? ? Ho Hops']. pose proof (rw_apply_ttl rw (now, op)) as Ht.
  destruct (IH (rw_apply rw (now, op))) as [H1 H2]; [by apply rw_apply_seen | by rewrite Ht |].
  split; [done | congruence].
Qed.

Lemma seen_suppressed t p e rw :
  seen_since t (normalize_path p) rw → 0 < rw_ttl rw → e < t + rw_ttl rw → should_suppress p e rw = true.
Proof.
  intros (t' & Hk & Ht) Hpos He. unfold should_suppress. rewrite Hk.
  destruct (0 <? rw_active_suppressions rw); [done|].
  destruct (rw_suppress_ended_at rw) as [z|]; [destruct (e <=? z + ARRIVAL_JITTER_BUFFER); [done|]|]. all: apply Z.ltb_lt; lia.
Qed.

(** Every path of the call, and its parent, is recorded. *)
Lemma record_now_seen p now rw :
  seen_since now (normalize_path p) (record p now rw) ∧
  ∀ k, recorded_parent (normalize_path p) = Some k → seen_since now k (record p now rw).
Proof.
  unfold seen_since, record. simpl. split; [exists now; by rewrite lookup_insert_eq|].
  intros k ->. exists now. split; [|done]. destruct (decide (k = normalize_path p)) as [->|];
    [by rewrite lookup_insert_eq | rewrite lookup_insert_ne by done; by rewrite lookup_insert_eq].
Qed.

Lemma foldl_record_keeps now ps k rw :
  seen_since now k rw → seen_since now k (foldl (λ rw p, record p now rw) rw ps).
Proof. revert rw. induction ps; intros rw Hs; simpl; [done|]. auto using record_seen with lia. Qed.

Lemma foldl_record_seen now ps p rw :
  p ∈ ps →
  let rw' := foldl (λ rw p, record p now rw) rw ps in
  seen_since now (normalize_path p) rw' ∧
  ∀ k, recorded_parent (normalize_path p) = Some k → seen_since now k rw'.
Proof.
  cbv zeta. revert rw. induction ps as [|q ps IH]; intros rw Hp; [by apply not_elem_of_nil in Hp|].
  simpl. apply elem_of_cons in Hp as [<-|Hp]; [|by apply IH].
  destruct (record_now_seen p now rw) as [H1 H2].
  split; [by apply foldl_record_keeps|]. intros k Hk. apply foldl_record_keeps. by apply H2.
Qed.

#[local] Instance map_Normal_inj : Inj (=) (=) (map Normal).
Proof. intros l. induction l as [|x l IH]; intros [|y l'] H; try done. injection H as -> H. f_equal. auto. Qed.

(** ** The guarantees *)

(** The paths of a call, and their parent directories. *)
Definition own_path (c : hook_call) (p : path) : Prop :=
  ∃ q, q ∈ call_paths c ∧ (p = q ∨ parent q = Some p).

(** A call through the decorator records its own paths at its time. *)
Lemma tracked_seen {S} (inner : WriteInterceptor S) c t r t' :
  call_hook (WriteTrackingInterceptor inner) c t = (r, t') → Forall clean (call_paths c) →
  rw_ttl (t_recent t') = rw_ttl (t_recent t) ∧
  ∀ p, own_path c p → seen_since (t_now t) (normalize_path p) (t_recent t').
Proof.
  rewrite tracking_call. destruct (call_hook inner c (t_inner t)) as [r' s'].
  intros [= <- <-] Hc. cbn [t_recent]. split.
  - induction (call_paths c) as [|q ps IH] using rev_ind; [done|]. rewrite foldl_app.
    apply Forall_app in Hc as [Hc _]. by apply IH.
  - intros p (q & Hq & Hp). destruct (foldl_record_seen (t_now t) _ _ (t_recent t) Hq) as [H1 H2].
    destruct Hp as [->|Hp]; [done|]. apply H2.
    destruct (path_cases q) as [->|(d & x & ->)]; [done|]. rewrite parent_snoc in Hp. simplify_eq.
    rewrite Forall_forall in Hc. pose proof (Hc _ (proj1 (list_elem_of_In _ _) Hq)) as Hqc. pose proof (proj1 (clean_snoc p x) Hqc) as [Hcd _].
    rewrite !normalize_path_plain by done. apply recorded_parent_plain.
Qed.

(** The paths whose records carry the key of [p]: [p] and its children. *)
Definition touches (p q : path) : Prop := q = p ∨ parent q = Some p.

(** A modification the sandbox did not make is reported: with no
    suppression in force, a path that was never recorded, and none of whose
    entries was, is not suppressed. *)
Theorem foreign_write_reported ttl ops p e :
  Forall (λ o, match o.2 with
               | OpRecord q => clean q ∧ ¬ touches p q
               | OpBegin | OpEnd => False
               | OpPrune => True
               end) ops →
  clean p → should_suppress p e (rw_run (RecentBackendWrites_new ttl) ops) = false.
Proof.
  intros Hops Hp. set (rw := rw_run _ ops).
  assert (rw_active_suppressions rw = 0 ∧ rw_suppress_ended_at rw = None ∧
          rw_entries rw !! normalize_path p = None) as (Ha & He & Hn).
  { subst rw. induction ops as [|[now op] ops IH] using rev_ind; [done|].
    apply Forall_app in Hops as [Hops Hop]. inversion_clear Hop as [|? ? Ho _].
    unfold rw_run. rewrite foldl_app. destruct (IH Hops) as (Ha & He & Hn). cbn [foldl].
    destruct op as [q | | |]; simpl in Ho; try done.
    - destruct Ho as [Hq Ht]. cbn [rw_apply fst snd]. unfold record. split; [done|]. split; [done|].
      cbn [rw_entries]. rewrite (normalize_path_plain p) in Hn |- * by done.
      rewrite (normalize_path_plain q) by done.
      rewrite lookup_insert_ne by (intros [= H]; apply Ht; left; by apply (inj (map Normal)) in H).
      destruct (path_cases q) as [->|(d & x & ->)]; [done|].
      rewrite recorded_parent_plain, lookup_insert_ne; [done|].
      intros [= H]. apply Ht. right. rewrite parent_snoc. f_equal. by apply (inj (map Normal)) in H.
    - cbn [rw_apply fst snd prune_expired rw_entries rw_active_suppressions rw_suppress_ended_at].
      split_and!; [done | done |]. apply map_lookup_filter_None. by left. }
  unfold should_suppress. by rewrite Ha, He, Hn.
Qed.

(** An interceptor that lets everything pass. *)
Definition permissive {S} : WriteInterceptor S := {|
  wi_pre_write _ := mret ();
  wi_pre_unlink _ _ := mret ();
  wi_pre_rename _ _ := mret ();
  wi_post_create _ := mret ();
  wi_post_mkdir _ := mret ();
  wi_pre_setattr _ := mret ();
  wi_pre_link _ _ := mret ();
  wi_post_symlink _ _ := mret ();
  wi_pre_xattr _ := mret ();
  wi_pre_open_trunc _ := mret ();
  wi_pre_fallocate _ := mret ();
  wi_pre_copy_file_range _ := mret ();
  wi_current_step _ := None;
|}.

(** A backend at time 100 with nothing recorded. *)
Definition sample_tracked : tracked tree := mkTracked ∅ RecentBackendWrites_default 100.

Lemma foreign_write_reported_witness :
  should_suppress ["w"; "b"] 200
    (rw_run (RecentBackendWrites_new DEFAULT_TTL) [(100, OpRecord ["w"; "a"]); (150, OpPrune)]) = false.
Proof.
  apply foreign_write_reported; [|repeat constructor].
  constructor; [|by repeat constructor]. split; [repeat constructor|]. intros [?|?]; simplify_eq/=.
Defined.

(** An event that arrived within the time to live, but is looked at after the
    next prune, is reported as external: pruning goes by the clock, the check
    by the arrival time. *)
Example pruned_before_processing :
  let rw := record ["w"; "a"] 0 RecentBackendWrites_default in
  should_suppress ["w"; "a"] 4900000000 rw = true ∧
  should_suppress ["w"; "a"] 4900000000 (prune_expired 5000000000 rw) = false.
Proof. by vm_compute. Qed.
