(* ===== verification/Classifier.v ===== *)
(** * Command sanitisation and classification

    Models [crates/sandbox/src/command_classifier.rs].  A Rust [&str] is the
    list of its characters (see [Text]).  A loop over an index is a recursion over the rest
    of the characters; a jump ahead is a number of characters to [skip].

    The six scanners of the source start each iteration with the same code for
    escapes and quotes, which is [quote_step] here. *)

From stdpp Require Import base gmap strings list sets.
From S2P Require Import Prelude Text.
#[local] Open Scope Z_scope.

(** ** Strings of the standard library *)

(** [str::split_whitespace]. *)
Fixpoint split_whitespace_from (current : text) (s : text) : list text :=
  match s with
  | [] => if decide (current = []) then [] else [current]
  | c :: s' =>
      if is_whitespace c
      then (if decide (current = []) then [] else [current]) ++ split_whitespace_from [] s'
      else split_whitespace_from (current ++ [c]) s'
  end.
Definition split_whitespace (s : text) : list text := split_whitespace_from [] s.

(** [str::contains] of a string and of a character. *)
Fixpoint contains (p s : text) : bool :=
  starts_with p s || match s with [] => false | _ :: s' => contains p s' end.
Definition contains_char (c : Z) (s : text) : bool := bool_decide (c ∈ s).

(** [str::replace(c, "")]. *)
Definition remove_char (c : Z) (s : text) : text := filter (λ d, d ≠ c) s.

(** [str::to_lowercase] on the ASCII letters and on the two other characters
    whose lower case contains an ASCII letter (the Kelvin sign, and the capital
    I with a dot); the remaining characters are left alone, since the code only
    looks for ASCII patterns in the result. *)
Definition to_lowercase (s : text) : text :=
  s ≫= λ c, if between 65 90 c then [c + 32]
            else if c =? 8490 then [107]
            else if c =? 304 then [105; 775]
            else [c].

(** [word.rsplit('/').next()]. *)
Fixpoint after_last_slash (acc s : text) : text :=
  match s with
  | [] => acc
  | c :: s' => if c =? 47 then after_last_slash [] s' else after_last_slash (acc ++ [c]) s'
  end.

(** ** Types *)

Inductive SanitizeResult := SanOk | SanRejected (reason : string).

Inductive CommandClassification := ReadOnly | Write | Destructive.

Definition rank (c : CommandClassification) : nat :=
  match c with ReadOnly => 0 | Write => 1 | Destructive => 2 end.

(** [Ord::max]. *)
Definition class_max (a b : CommandClassification) : CommandClassification :=
  if (rank a <=? rank b)%nat then b else a.

Definition classification_display (c : CommandClassification) : string :=
  match c with ReadOnly => "read_only" | Write => "write" | Destructive => "destructive" end.

Record CommandClassifierConfig := mkClassifierConfig {
  read_only_commands : list text;
  write_commands : list text;
  destructive_commands : list text;
  git_read_only_subcommands : list text;
  git_destructive_subcommands : list text;
  cargo_read_only_subcommands : list text;
  cargo_destructive_subcommands : list text;
  npm_read_only_subcommands : list text;
  npm_read_only_scripts_ : list text;
}.

Definition DEFAULT_READ_ONLY_COMMANDS : list text := chars <$> [
  "cd"; "ls"; "cat"; "head"; "tail"; "less"; "more"; "wc"; "file"; "find";
  "grep"; "egrep"; "fgrep"; "rg"; "ag"; "awk"; "gawk"; "which"; "whereis";
  "type"; "echo"; "printf"; "pwd"; "env"; "printenv"; "whoami"; "id";
  "hostname"; "uname"; "date"; "cal"; "uptime"; "df"; "du"; "free"; "top";
  "htop"; "ps"; "stat"; "readlink"; "realpath"; "basename"; "dirname";
  "test"; "["; "true"; "false"; "diff"; "cmp"; "md5sum"; "sha256sum";
  "sha1sum"; "sha512sum"; "xxd"; "od"; "strings"; "tree"; "bat"; "jq";
  "yq"; "sort"; "uniq"; "cut"; "tr"; "column"; "comm"; "join"; "paste";
  "fold"; "rev"; "tac"; "nl"; "expand"; "unexpand"; "hexdump"; "man";
  "help"; "info"].

Definition DEFAULT_WRITE_COMMANDS : list text := chars <$> [
  "touch"; "mkdir"; "cp"; "mv"; "chmod"; "chown"; "chgrp"; "curl"; "wget";
  "tar"; "unzip"; "zip"; "gzip"; "gunzip"; "bzip2"; "bunzip2"; "xz";
  "unxz"; "make"; "cmake"; "patch"; "ln"].

Definition DEFAULT_DESTRUCTIVE_COMMANDS : list text := chars <$> [
  "rm"; "rmdir"; "dd"; "mkfs"; "shred"; "truncate"].

Definition DEFAULT_GIT_READ_ONLY_SUBCOMMANDS : list text := chars <$> [
  "status"; "log"; "diff"; "show"; "branch"; "tag"; "remote"; "rev-parse";
  "ls-files"; "ls-tree"; "describe"; "shortlog"; "blame"; "bisect";
  "reflog"; "stash list"; "config"; "help"; "version"].

Definition DEFAULT_GIT_DESTRUCTIVE_SUBCOMMANDS : list text := chars <$> ["clean"].

Definition DEFAULT_CARGO_READ_ONLY_SUBCOMMANDS : list text := chars <$> [
  "check"; "test"; "clippy"; "doc"; "bench"; "metadata"; "tree"; "version"; "help"].

Definition DEFAULT_CARGO_DESTRUCTIVE_SUBCOMMANDS : list text := chars <$> ["clean"].

Definition DEFAULT_NPM_READ_ONLY_SUBCOMMANDS : list text := chars <$> [
  "test"; "list"; "ls"; "view"; "info"; "outdated"; "help"; "version"].

Definition DEFAULT_NPM_READ_ONLY_SCRIPTS : list text := chars <$> [
  "test"; "lint"; "check"; "typecheck"; "type-check"; "validate"].

Definition CommandClassifierConfig_default : CommandClassifierConfig :=
  mkClassifierConfig DEFAULT_READ_ONLY_COMMANDS DEFAULT_WRITE_COMMANDS DEFAULT_DESTRUCTIVE_COMMANDS
    DEFAULT_GIT_READ_ONLY_SUBCOMMANDS DEFAULT_GIT_DESTRUCTIVE_SUBCOMMANDS
    DEFAULT_CARGO_READ_ONLY_SUBCOMMANDS DEFAULT_CARGO_DESTRUCTIVE_SUBCOMMANDS
    DEFAULT_NPM_READ_ONLY_SUBCOMMANDS DEFAULT_NPM_READ_ONLY_SCRIPTS.

Record CommandClassifier := mkClassifier {
  cc_read_only : gset text;
  cc_write : gset text;
  cc_destructive : gset text;
  cc_git_read_only : gset text;
  cc_git_destructive : gset text;
  cc_cargo_read_only : gset text;
  cc_cargo_destructive : gset text;
  cc_npm_read_only : gset text;
  cc_npm_read_only_scripts : gset text;
}.

Definition CommandClassifier_new (config : CommandClassifierConfig) : CommandClassifier :=
  mkClassifier
    (list_to_set (read_only_commands config)) (list_to_set (write_commands config))
    (list_to_set (destructive_commands config)) (list_to_set (git_read_only_subcommands config))
    (list_to_set (git_destructive_subcommands config)) (list_to_set (cargo_read_only_subcommands config))
    (list_to_set (cargo_destructive_subcommands config)) (list_to_set (npm_read_only_subcommands config))
    (list_to_set (npm_read_only_scripts_ config)).

Definition CommandClassifier_with_defaults : CommandClassifier :=
  CommandClassifier_new CommandClassifierConfig_default.

(** ** Quoting *)

Record quotes := mkQuotes { in_single_quote : bool; in_double_quote : bool; escape_next : bool }.
Definition no_quotes : quotes := mkQuotes false false false.

(** What an iteration finds before it looks at the character itself: an escaped
    character, a backslash, a quote that opens or closes, a quoted character,
    or a character that is the scanner's business. *)
Inductive quote_kind := KEscaped | KBackslash | KQuote | KQuoted | KPlain.

Definition quote_step (ch : Z) (q : quotes) : quotes * quote_kind :=
  if escape_next q then (mkQuotes (in_single_quote q) (in_double_quote q) false, KEscaped)
  else if (ch =? 92) && negb (in_single_quote q)
  then (mkQuotes (in_single_quote q) (in_double_quote q) true, KBackslash)
  else if (ch =? 39) && negb (in_double_quote q)
  then (mkQuotes (negb (in_single_quote q)) (in_double_quote q) false, KQuote)
  else if (ch =? 34) && negb (in_single_quote q)
  then (mkQuotes (in_single_quote q) (negb (in_double_quote q)) false, KQuote)
  else if in_single_quote q || in_double_quote q then (q, KQuoted)
  else (q, KPlain).

(** ** Scanners *)

(** The loop of [classify_redirects]; [prev] is the character before. *)
Fixpoint redirects_from (q : quotes) (prev : option Z) (s : text) : CommandClassification :=
  match s with
  | [] => ReadOnly
  | ch :: rest =>
      let '(q', kind) := quote_step ch q in
      match kind with
      | KPlain =>
          if ch =? 62 then
            if decide (prev = Some 60) then redirects_from q' (Some ch) rest
            else
              match rest with
              | next :: rest' =>
                  if next =? 40 then redirects_from q' (Some ch) rest
                  else if next =? 62 then class_max Write (redirects_from q' (Some next) rest')
                  else class_max Destructive (redirects_from q' (Some ch) rest)
              | [] => Destructive
              end
          else redirects_from q' (Some ch) rest
      | _ => redirects_from q' (Some ch) rest
      end
  end.

Definition classify_redirects (command : text) : CommandClassification :=
  redirects_from no_quotes None command.

Definition is_segment_boundary (ch : Z) : bool :=
  bool_decide (ch ∈ [32; 9; 59; 38; 124; 10; 40; 41]).

(** [find_matching_paren], from the character after the opening one: the inner
    text and the number of characters up to and including the closing one. *)
Fixpoint matching_paren_from (q : quotes) (depth : nat) (inner : text) (s : text)
    : option (text * nat) :=
  match s with
  | [] => None
  | ch :: rest =>
      let '(q', kind) := quote_step ch q in
      let continue depth' :=
        '(found, n) ← matching_paren_from q' depth' (inner ++ [ch]) rest; Some (found, S n) in
      match kind with
      | KPlain =>
          if ch =? 40 then continue (S depth)
          else if ch =? 41 then
            match depth with
            | S (S d) => continue (S d)
            | _ => Some (inner, 1%nat)
            end
          else continue depth
      | _ => continue depth
      end
  end.

Definition find_matching_paren (s : text) : option (text * nat) :=
  matching_paren_from no_quotes 1 [] s.

(** The loop of [extract_parenthesized_contents]; after a match the next [skip]
    characters have been consumed. *)
Fixpoint parens_from (skip : nat) (q : quotes) (prev : option Z) (s : text) : list text :=
  match s with
  | [] => []
  | ch :: rest =>
      match skip with
      | S skip' => parens_from skip' q (Some ch) rest
      | O =>
          let '(q', kind) := quote_step ch q in
          match kind with
          | KPlain =>
              let followed_by_paren := bool_decide (head rest = Some 40) in
              let is_dollar_paren := (ch =? 36) && followed_by_paren in
              let is_process_sub := (ch =? 62) && followed_by_paren in
              let is_input_sub := (ch =? 60) && followed_by_paren in
              let is_bare_subshell := (ch =? 40)
                && match prev with None => true | Some p => is_segment_boundary p end in
              if is_dollar_paren || is_process_sub || is_input_sub then
                match find_matching_paren (drop 1 rest) with
                | Some (inner, n) => inner :: parens_from (S n) q' (Some ch) rest
                | None => parens_from 0 q' (Some ch) rest
                end
              else if is_bare_subshell then
                match find_matching_paren rest with
                | Some (inner, n) => inner :: parens_from n q' (Some ch) rest
                | None => parens_from 0 q' (Some ch) rest
                end
              else parens_from 0 q' (Some ch) rest
          | _ => parens_from 0 q' (Some ch) rest
          end
      end
  end.

Definition extract_parenthesized_contents (command : text) : list text :=
  parens_from 0 no_quotes None command.

(** The inner loop of [extract_backtick_contents]: the text up to the closing
    backtick, and the number of characters including it. *)
Fixpoint closing_backtick (bt_escape : bool) (inner : text) (s : text) : option (text * nat) :=
  match s with
  | [] => None
  | ch :: rest =>
      let continue bt := '(found, n) ← closing_backtick bt (inner ++ [ch]) rest; Some (found, S n) in
      if bt_escape then continue false
      else if ch =? 92 then continue true
      else if ch =? 96 then Some (inner, 1%nat)
      else continue false
  end.

(** Here only single quotes count; an unclosed backtick ends the scan. *)
Fixpoint backticks_from (skip : nat) (in_single escape : bool) (s : text) : list text :=
  match s with
  | [] => []
  | ch :: rest =>
      match skip with
      | S skip' => backticks_from skip' in_single escape rest
      | O =>
          if escape then backticks_from 0 in_single false rest
          else if (ch =? 92) && negb in_single then backticks_from 0 in_single true rest
          else if ch =? 39 then backticks_from 0 (negb in_single) false rest
          else if (ch =? 96) && negb in_single then
            match closing_backtick false [] rest with
            | Some (inner, n) => inner :: backticks_from n in_single false rest
            | None => []
            end
          else backticks_from 0 in_single false rest
      end
  end.

Definition extract_backtick_contents (command : text) : list text :=
  backticks_from 0 false false command.

(** [push_segment] *)
Definition push_segment (current : text) : list text :=
  let trimmed := chars_trim current in
  if decide (trimmed = []) then [] else [trimmed].

(** The loop of [split_command_segments]. *)
Fixpoint segments_from (q : quotes) (current : text) (s : text) : list text :=
  match s with
  | [] => push_segment current
  | ch :: rest =>
      let '(q', kind) := quote_step ch q in
      match kind with
      | KPlain =>
          if (ch =? 10) || (ch =? 59) then push_segment current ++ segments_from q' [] rest
          else if (ch =? 38) || (ch =? 124) then
            match rest with
            | next :: rest' =>
                push_segment current ++
                (if next =? ch then segments_from q' [] rest' else segments_from q' [] rest)
            | [] => push_segment current ++ segments_from q' [] rest
            end
          else segments_from q' (current ++ [ch]) rest
      | _ => segments_from q' (current ++ [ch]) rest
      end
  end.

Definition split_command_segments (command : text) : list text := segments_from no_quotes [] command.

(** [split_segments_simple]: no quoting; the separators are single bytes, so
    that the byte positions of the source are character positions. *)
Fixpoint simple_segments_from (current : text) (s : text) : list text :=
  match s with
  | [] => push_segment current
  | ch :: rest =>
      if (ch =? 10) || (ch =? 59) then push_segment current ++ simple_segments_from [] rest
      else if (ch =? 38) || (ch =? 124) then
        match rest with
        | next :: rest' =>
            push_segment current ++
            (if next =? ch then simple_segments_from [] rest' else simple_segments_from [] rest)
        | [] => push_segment current ++ simple_segments_from [] rest
        end
      else simple_segments_from (current ++ [ch]) rest
  end.

Definition split_segments_simple (command : text) : list text := simple_segments_from [] command.

Definition first_word_of (s : text) : text := default [] (head (split_whitespace s)).

(** The loop of [unquoted_tokens]. *)
Fixpoint tokens_from (q : quotes) (current : text) (s : text) : list text :=
  match s with
  | [] => if decide (current = []) then [] else [current]
  | ch :: rest =>
      let '(q', kind) := quote_step ch q in
      match kind with
      | KPlain =>
          if is_whitespace ch
          then (if decide (current = []) then [] else [current]) ++ tokens_from q' [] rest
          else tokens_from q' (current ++ [ch]) rest
      | _ => tokens_from q' current rest
      end
  end.

Definition unquoted_tokens (command : text) : list text := tokens_from no_quotes [] command.

Definition shell_words (segment : text) : list text := split_whitespace segment.

Definition extract_command_name (word : text) : text := after_last_slash [] word.

(** ** Sanitisation *)

Definition is_fork_bomb (command : text) : bool :=
  let normalized := remove_char 32 command in
  if contains (chars "(){:|:&};") normalized then true
  else if contains (chars "while") command && contains (chars "true") command && contains_char 38 command
  then
    let lower := to_lowercase command in
    (contains (chars "while true") lower || contains (chars "while :") lower)
    && (contains (chars "& done") lower || contains (chars "&done") lower)
  else false.

Definition escalation_commands : list text := chars <$> ["sudo"; "su"; "doas"; "pkexec"].

Definition contains_privilege_escalation (command : text) : bool :=
  existsb (λ segment, bool_decide (first_word_of (chars_trim segment) ∈ escalation_commands))
    (split_segments_simple command).

Definition device_patterns : list text :=
  chars <$> ["/dev/sd"; "/dev/nvme"; "/dev/loop"; "/dev/vd"; "/dev/hd"].

Definition contains_raw_device_access (command : text) : bool :=
  existsb (λ token, existsb (λ pattern, contains pattern token) device_patterns)
    (unquoted_tokens command).

Definition module_commands : list text := chars <$> ["insmod"; "modprobe"; "rmmod"; "depmod"].

Definition contains_kernel_module_commands (command : text) : bool :=
  existsb (λ segment, bool_decide (first_word_of (chars_trim segment) ∈ module_commands))
    (split_segments_simple command).

Definition sanitize (command : text) : SanitizeResult :=
  let trimmed := chars_trim command in
  if decide (trimmed = []) then SanRejected "empty command"
  else if contains_char 0 command then SanRejected "command contains null byte"
  else if is_fork_bomb trimmed then SanRejected "fork bomb detected"
  else if contains_privilege_escalation trimmed
  then SanRejected "privilege escalation commands are not allowed"
  else if contains_raw_device_access trimmed then SanRejected "raw device access is not allowed"
  else if contains_kernel_module_commands trimmed
  then SanRejected "kernel module manipulation is not allowed"
  else SanOk.

(** ** Classification *)

Definition arg0 (args : list text) : text := default [] (head args).
Definition has (a : string) (args : list text) : bool := bool_decide (chars a ∈ args).

Definition classify_sed (args : list text) : CommandClassification :=
  if existsb (λ a, bool_decide (a = chars "-i") || starts_with (chars "-i") a) args
  then Write else ReadOnly.

Definition classify_python (args : list text) : CommandClassification :=
  if decide (head args = Some (chars "-c")) then Write
  else if decide (head args = Some (chars "--version") ∨ head args = Some (chars "-V")) then ReadOnly
  else if decide (head args = Some (chars "--help") ∨ head args = Some (chars "-h")) then ReadOnly
  else Write.

Definition classify_node (args : list text) : CommandClassification :=
  if decide (head args = Some (chars "-e") ∨ head args = Some (chars "--eval")) then Write
  else if decide (head args = Some (chars "--version") ∨ head args = Some (chars "-v")) then ReadOnly
  else if decide (head args = Some (chars "--help") ∨ head args = Some (chars "-h")) then ReadOnly
  else Write.

Definition classify_tee (args : list text) : CommandClassification :=
  if existsb (λ a, negb (starts_with (chars "-") a)) args then Write else ReadOnly.

Section classifier.
Context (cc : CommandClassifier).

Definition classify_git (args : list text) : CommandClassification :=
  let subcommand := arg0 args in
  if decide (subcommand ∈ cc_git_read_only cc) then ReadOnly
  else if decide (subcommand ∈ cc_git_destructive cc) then Destructive
  else if bool_decide (subcommand = chars "reset") && has "--hard" args then Destructive
  else if bool_decide (subcommand = chars "push")
          && existsb (λ a, bool_decide (a = chars "--force") || bool_decide (a = chars "-f")
                           || starts_with (chars "--force-with-lease") a) args
  then Destructive
  else if bool_decide (subcommand = chars "checkout") && has "." args then Destructive
  else Write.

Definition classify_cargo (args : list text) : CommandClassification :=
  let subcommand := arg0 args in
  if decide (subcommand ∈ cc_cargo_read_only cc) then ReadOnly
  else if decide (subcommand ∈ cc_cargo_destructive cc) then Destructive
  else Write.

Definition classify_npm (command : text) (args : list text) : CommandClassification :=
  let subcommand := arg0 args in
  if decide (command = chars "npx") then
    if bool_decide (arg0 args = chars "tsc") && has "--noEmit" args then ReadOnly else Write
  else if decide (subcommand ∈ cc_npm_read_only cc) then ReadOnly
  else if (bool_decide (subcommand = chars "run") || bool_decide (subcommand = chars "run-script"))
          && bool_decide (default [] (args !! 1%nat) ∈ cc_npm_read_only_scripts cc)
  then ReadOnly
  else if bool_decide (subcommand = chars "cache") && has "clean" args then Destructive
  else Write.

(** [classify_command_with_args] without its [xargs] arm. *)
Definition classify_simple_command (command : text) (args : list text) : CommandClassification :=
  if decide (command = chars "git") then classify_git args
  else if decide (command = chars "cargo") then classify_cargo args
  else if decide (command = chars "npm" ∨ command = chars "npx") then classify_npm command args
  else if decide (command = chars "sed") then classify_sed args
  else if decide (command = chars "python" ∨ command = chars "python3") then classify_python args
  else if decide (command = chars "node") then classify_node args
  else if decide (command = chars "tee") then classify_tee args
  else if decide (command ∈ cc_read_only cc) then ReadOnly
  else if decide (command ∈ cc_destructive cc) then Destructive
  else if decide (command ∈ cc_write cc) then Write
  else Write.

(** The loop of [classify_xargs], and the command it ends at, which may be
    [xargs] again. *)
Fixpoint classify_xargs (args : list text) : CommandClassification :=
  match args with
  | [] => ReadOnly
  | arg :: rest =>
      if decide (arg ∈ chars <$> ["-I"; "-L"; "-n"; "-P"; "-d"]) then
        match rest with
        | [] => ReadOnly
        | _ :: rest' => classify_xargs rest'
        end
      else if starts_with (chars "-") arg then classify_xargs rest
      else
        let command := extract_command_name arg in
        if decide (command = chars "xargs") then classify_xargs rest
        else classify_simple_command command rest
  end.

Definition classify_command_with_args (command : text) (args : list text) : CommandClassification :=
  if decide (command = chars "xargs") then classify_xargs args
  else classify_simple_command command args.

Definition classify_single_segment (segment : text) : CommandClassification :=
  match shell_words segment with
  | [] => ReadOnly
  | word :: args => classify_command_with_args (extract_command_name word) args
  end.

Definition max_over (l : list CommandClassification) : CommandClassification :=
  foldr class_max ReadOnly l.

(** [classify] and [classify_nested] call each other on the text inside
    parentheses and backticks, which is shorter; [fuel] bounds the nesting and
    running out of it would be a stack overflow. *)
Fixpoint classify_fuel (fuel : nat) (command : text) : outcome () CommandClassification :=
  match fuel with
  | O => Panic
  | S fuel' =>
      let trimmed := chars_trim command in
      if decide (trimmed = []) then Ok ReadOnly
      else
        let segments := (λ segment, classify_single_segment (chars_trim segment))
                        <$> split_command_segments trimmed in
        inner ← mapM (classify_fuel fuel') (extract_parenthesized_contents trimmed);
        ticks ← mapM (classify_fuel fuel') (extract_backtick_contents trimmed);
        Ok (class_max (class_max (class_max (classify_redirects trimmed) (max_over segments))
                        (max_over inner)) (max_over ticks))
  end.

Definition classify_command (command : text) : outcome () CommandClassification :=
  classify_fuel (S (length command)) command.

End classifier.

(** The free function [classify]. *)
Definition classify_default (command : text) : outcome () CommandClassification :=
  classify_command CommandClassifier_with_defaults command.

Example classify_samples :
  classify_default (chars "ls -la | grep foo") = Ok ReadOnly ∧
  classify_default (chars "echo $(rm -rf x)") = Ok Destructive ∧
  classify_default (chars "echo hi >> log") = Ok Write ∧
  classify_default (chars "find . | xargs -n 1 xargs rm") = Ok Destructive ∧
  sanitize (chars "ls; sudo rm x") = SanRejected "privilege escalation commands are not allowed".
Proof. by vm_compute. Qed.
