(* ===== verification/ClassifierFacts.v ===== *)
(** * Correctness of the command classifier

    Termination of the mutual recursion, what the classification is the maximum
    of, what the sanitiser keeps out, and the quoting rules. *)

From stdpp Require Import base gmap strings list sets.
From S2P Require Import Prelude Text Classifier.
#[local] Open Scope Z_scope.

(** ** Lengths *)

Lemma length_trim_start s : (length (chars_trim_start s) ≤ length s)%nat.
Proof. induction s as [|c s IH]; simpl; [lia|]. case_match; simpl; lia. Qed.

Lemma length_trim s : (length (chars_trim s) ≤ length s)%nat.
Proof.
  unfold chars_trim, chars_trim_end. rewrite length_reverse.
  etrans; [apply length_trim_start|]. rewrite length_reverse. apply length_trim_start.
Qed.

Lemma matching_paren_length q d inner s found n :
  matching_paren_from q d inner s = Some (found, n) →
  (length found < length inner + length s)%nat.
Proof.
  revert q d inner n. induction s as [|ch s IH]; intros q d inner n Hm; simpl in Hm; [done|].
  destruct (quote_step ch q) as [q' kind].
  assert (∀ d' n', matching_paren_from q' d' (inner ++ [ch]) s = Some (found, n') →
    (length found < length inner + S (length s))%nat) as Hrec.
  { intros d' n' H'. apply IH in H'. rewrite length_app in H'. simpl in H'. lia. }
  simpl. destruct kind; repeat case_match; simplify_option_eq; try (by eapply Hrec); try lia;
    repeat case_match; simplify_eq; try (by eapply Hrec).
Qed.

Lemma find_matching_paren_length s found n :
  find_matching_paren s = Some (found, n) → (length found < length s)%nat.
Proof. apply (matching_paren_length no_quotes 1 [] s). Qed.

Lemma parens_from_length k q prev s x : x ∈ parens_from k q prev s → (length x < length s)%nat.
Proof.
  revert k q prev. induction s as [|ch s IH]; intros k q prev Hx; simpl in Hx; [by apply not_elem_of_nil in Hx|].
  assert (∀ k q prev, x ∈ parens_from k q prev s → (length x < S (length s))%nat) as Hrec.
  { intros ??? H'. apply IH in H'. lia. }
  simpl. destruct k as [|k]; [|by eapply Hrec]. destruct (quote_step ch q) as [q' kind].
  destruct kind; try by eapply Hrec. case_match.
  - destruct (find_matching_paren (drop 1 s)) as [[inner n]|] eqn:E; [|by eapply Hrec].
    apply elem_of_cons in Hx as [->|Hx]; [|by eapply Hrec].
    apply find_matching_paren_length in E. rewrite length_drop in E. lia.
  - case_match; [|by eapply Hrec].
    destruct (find_matching_paren s) as [[inner n]|] eqn:E; [|by eapply Hrec].
    apply elem_of_cons in Hx as [->|Hx]; [|by eapply Hrec].
    apply find_matching_paren_length in E. lia.
Qed.

Lemma closing_backtick_length b inner s found n :
  closing_backtick b inner s = Some (found, n) → (length found < length inner + length s)%nat.
Proof.
  revert b inner n. induction s as [|ch s IH]; intros b inner n Hm; simpl in Hm; [done|].
  assert (∀ b' n', closing_backtick b' (inner ++ [ch]) s = Some (found, n') →
    (length found < length inner + S (length s))%nat) as Hrec.
  { intros b' n' H'. apply IH in H'. rewrite length_app in H'. simpl in H'. lia. }
  simpl. repeat case_match; simplify_option_eq; try lia;
    repeat case_match; simplify_eq; try (by eapply Hrec).
Qed.

Lemma backticks_from_length k a e s x : x ∈ backticks_from k a e s → (length x < length s)%nat.
Proof.
  revert k a e. induction s as [|ch s IH]; intros k a e Hx; simpl in Hx; [by apply not_elem_of_nil in Hx|].
  assert (∀ k a e, x ∈ backticks_from k a e s → (length x < S (length s))%nat) as Hrec.
  { intros ??? H'. apply IH in H'. lia. }
  simpl. destruct k as [|k]; [|by eapply Hrec]. repeat (case_match; [by eapply Hrec|]).
  case_match; [|by eapply Hrec].
  destruct (closing_backtick false [] s) as [[inner n]|] eqn:E; [|by apply not_elem_of_nil in Hx].
  apply elem_of_cons in Hx as [->|Hx]; [|by eapply Hrec].
  apply closing_backtick_length in E. simpl in E. lia.
Qed.

(** The two lists [classify_nested] goes through. *)
Definition nested_texts (command : text) : list text :=
  extract_parenthesized_contents command ++ extract_backtick_contents command.

Lemma nested_length c x : x ∈ nested_texts (chars_trim c) → (length x < length c)%nat.
Proof.
  unfold nested_texts. intros Hx. pose proof (length_trim c).
  apply elem_of_app in Hx as [Hx|Hx]; [apply parens_from_length in Hx | apply backticks_from_length in Hx]; lia.
Qed.

(** ** The order of the classes *)

Definition class_le (a b : CommandClassification) : Prop := (rank a ≤ rank b)%nat.

Lemma class_le_max r a b : class_le r (class_max a b) ↔ class_le r a ∨ class_le r b.
Proof. unfold class_le, class_max. destruct (Nat.leb_spec (rank a) (rank b)); lia. Qed.

Lemma class_le_max_over r l :
  class_le r (max_over l) ↔ r = ReadOnly ∨ ∃ a, a ∈ l ∧ class_le r a.
Proof.
  induction l as [|a l IH]; simpl.
  - split; [destruct r; unfold class_le; simpl; [by left | lia | lia]|].
    intros [->|(a & Ha & _)]; [apply Nat.le_0_l | by apply not_elem_of_nil in Ha].
  - rewrite class_le_max, IH. split.
    + intros [?|[?|(b & ? & ?)]]; [right; exists a; set_solver | by left | right; exists b; set_solver].
    + intros [->|(b & [->|Hb]%elem_of_cons & ?)]; [left; apply Nat.le_0_l | by left | right; right; by exists b].
Qed.

(** ** Termination and meaning of the classification *)

(** [nested_in d c]: [d] is the trimmed command [c] or one of the commands
    nested in it at any depth. *)
Inductive nested_in : text → text → Prop :=
  | nested_here c : chars_trim c ≠ [] → nested_in (chars_trim c) c
  | nested_deeper c x d :
      chars_trim c ≠ [] → x ∈ nested_texts (chars_trim c) → nested_in d x → nested_in d c.

(** What a command contributes by itself. *)
Definition own_class (cc : CommandClassifier) (r : CommandClassification) (d : text) : Prop :=
  class_le r (classify_redirects d) ∨
  ∃ seg, seg ∈ split_command_segments d ∧ class_le r (classify_single_segment cc (chars_trim seg)).

Lemma mapM_ok {A B} (f : A → outcome () B) (P : A → B → Prop) l :
  (∀ x, x ∈ l → ∃ y, f x = Ok y ∧ P x y) →
  ∃ k, mapM f l = Ok k ∧ Forall2 P l k.
Proof.
  induction l as [|x l IH]; intros Hf; [by exists []; split; [|constructor]|].
  destruct (Hf x) as (y & Hy & HP); [set_solver|].
  destruct IH as (k & Hk & HF); [intros; apply Hf; set_solver|].
  exists (y :: k). split; [|by constructor]. simpl. unfold mbind. by rewrite Hy, Hk.
Qed.

Definition meets (cc : CommandClassifier) (c : text) (k : CommandClassification) : Prop :=
  ∀ r, class_le r k ↔ r = ReadOnly ∨ ∃ d, nested_in d c ∧ own_class cc r d.

Lemma max_over_meets cc l k :
  Forall2 (meets cc) l k →
  ∀ r, class_le r (max_over k) ↔ r = ReadOnly ∨ ∃ x d, x ∈ l ∧ nested_in d x ∧ own_class cc r d.
Proof.
  intros HF r. rewrite class_le_max_over. split.
  - intros [->|(a & Ha & Hr)]; [by left|]. apply list_elem_of_lookup in Ha as [i Hi].
    destruct (Forall2_lookup_r _ _ _ _ _ HF Hi) as (x & Hx & Hm).
    destruct (proj1 (Hm r) Hr) as [Hro|(d & ? & ?)]; [by left|]. right. exists x, d.
    split_and!; [by eapply list_elem_of_lookup_2 | done | done].
  - intros [->|(x & d & Hx & Hd & Ho)]; [by left|]. apply list_elem_of_lookup in Hx as [i Hi].
    destruct (Forall2_lookup_l _ _ _ _ _ HF Hi) as (a & Ha & Hm). right. exists a.
    split; [by eapply list_elem_of_lookup_2|]. apply Hm. right. by exists d.
Qed.

Lemma classify_fuel_meets cc n c :
  (length c < n)%nat → ∃ k, classify_fuel cc n c = Ok k ∧ meets cc c k.
Proof.
  revert c. induction n as [|n IH]; intros c Hn; [lia|]. cbn [classify_fuel]. cbv zeta.
  case_decide as Hc.
  { exists ReadOnly. split; [done|]. intros r. split.
    - destruct r; unfold class_le; simpl; [by left | lia | lia].
    - intros [->|(d & Hd & _)]; [apply Nat.le_0_l|]. inversion Hd; congruence. }
  assert (∀ x, x ∈ nested_texts (chars_trim c) → ∃ k, classify_fuel cc n x = Ok k ∧ meets cc x k) as Hrec.
  { intros x Hx. apply IH. pose proof (nested_length c x Hx). lia. }
  unfold nested_texts in Hrec.
  destruct (mapM_ok (classify_fuel cc n) (meets cc) (extract_parenthesized_contents (chars_trim c)))
    as (k1 & H1 & HF1); [intros; apply Hrec; set_solver|].
  destruct (mapM_ok (classify_fuel cc n) (meets cc) (extract_backtick_contents (chars_trim c)))
    as (k2 & H2 & HF2); [intros; apply Hrec; set_solver|].
  rewrite H1. cbn [mbind outcome_bind]. rewrite H2. eexists. split; [reflexivity|]. intros r.
  rewrite !class_le_max, (max_over_meets cc _ _ HF1), (max_over_meets cc _ _ HF2), class_le_max_over.
  split.
  - intros [[[Hr|[->|(a & Ha & Hr)]]|[->|(x & d & Hx & Hd & Ho)]]|[->|(x & d & Hx & Hd & Ho)]]; try by left.
    + right. exists (chars_trim c). split; [by constructor | by left].
    + right. exists (chars_trim c). split; [by constructor|]. right.
      apply list_elem_of_fmap in Ha as (seg & -> & ?). by exists seg.
    + right. exists d. split; [|done]. apply (nested_deeper c x); [done | | done].
      unfold nested_texts. set_solver.
    + right. exists d. split; [|done]. apply (nested_deeper c x); [done | | done].
      unfold nested_texts. set_solver.
  - intros [->|(d & Hd & Ho)]; [left; left; right; by left|]. inversion Hd as [|? x ? ? Hx Hdx]; subst.
    + destruct Ho as [Ho|(seg & Hs & Ho)]; [left; left; by left|]. left. left. right. right.
      eexists. split; [|exact Ho]. apply list_elem_of_fmap. by exists seg.
    + apply elem_of_app in Hx as [Hx|Hx]; [left; right | right]; right; by exists x, d.
Qed.


(** ** Words *)

Definition all_space (s : text) : Prop := Forall (λ c, is_whitespace c = true) s.
Definition no_space (s : text) : Prop := Forall (λ c, is_whitespace c = false) s.
Definition space_next (s : text) : Prop :=
  match s with [] => True | c :: _ => is_whitespace c = true end.

Lemma split_whitespace_word cur w tl :
  no_space w → space_next tl → cur ++ w ≠ [] →
  head (split_whitespace_from cur (w ++ tl)) = Some (cur ++ w).
Proof.
  intros Hw. revert cur. induction Hw as [|c w Hc _ IH]; intros cur Ht Hne; simpl.
  - rewrite app_nil_r in *. destruct tl as [|c tl]; simpl; [by rewrite decide_False|].
    simpl in Ht. by rewrite Ht, decide_False.
  - rewrite Hc, IH; [by rewrite <- app_assoc | done | by destruct cur].
Qed.

Lemma first_word_intro a w tl :
  all_space a → no_space w → w ≠ [] → space_next tl → first_word_of (a ++ w ++ tl) = w.
Proof.
  intros Ha Hw Hne Ht. unfold first_word_of, split_whitespace.
  induction Ha as [|c a Hc _ IH]; simpl; [by rewrite (split_whitespace_word [])|].
  rewrite Hc. done.
Qed.

Lemma first_word_elim s :
  first_word_of s ≠ [] → ∃ a tl, s = a ++ first_word_of s ++ tl ∧ all_space a ∧
    no_space (first_word_of s) ∧ space_next tl.
Proof.
  assert (∃ a r, s = a ++ r ∧ all_space a ∧ match r with [] => True | c :: _ => is_whitespace c = false end)
    as (a & r & -> & Ha & Hr).
  { induction s as [|c s (a & r & -> & Ha & Hr)]; [by exists [], []; repeat constructor|].
    destruct (is_whitespace c) eqn:E; [exists (c :: a), r | exists [], (c :: a ++ r)];
      repeat constructor; done. }
  assert (∃ w tl, r = w ++ tl ∧ no_space w ∧ space_next tl) as (w & tl & -> & Hw & Ht).
  { clear. induction r as [|c r (w & tl & -> & Hw & Ht)]; [by exists [], []; repeat constructor|].
    destruct (is_whitespace c) eqn:E; [exists [], (c :: w ++ tl) | exists (c :: w), tl];
      repeat constructor; done. }
  destruct w as [|x w].
  - destruct tl as [|y tl]; [|simpl in Hr, Ht; congruence]. intros Hne. destruct Hne.
    unfold first_word_of, split_whitespace. simpl. rewrite app_nil_r.
    induction Ha as [|c a Hc _ IH]; simpl; [done | by rewrite Hc].
  - intros _. exists a, tl. by rewrite (first_word_intro a (x :: w) tl).
Qed.

Lemma trim_start_split s : ∃ a, s = a ++ chars_trim_start s ∧ all_space a.
Proof.
  induction s as [|c s (a & Hs & Ha)]; [by exists []; split; [|constructor]|]. simpl.
  destruct (is_whitespace c) eqn:E; [|by exists []; split; [|constructor]].
  exists (c :: a). split; [simpl; by f_equal | by constructor].
Qed.

Lemma trim_split s : ∃ a b, s = a ++ chars_trim s ++ b ∧ all_space a ∧ all_space b.
Proof.
  destruct (trim_start_split s) as (a & Hs & Ha).
  destruct (trim_start_split (reverse (chars_trim_start s))) as (b & Hr & Hb).
  exists a, (reverse b). split_and!; [|done | by apply Forall_reverse].
  unfold chars_trim, chars_trim_end. rewrite <- reverse_app, <- Hr, reverse_involutive. done.
Qed.

Lemma space_next_app tl b : space_next tl → all_space b → space_next (tl ++ b).
Proof. destruct tl; [|done]. intros _ Hb. destruct Hb; done. Qed.

Lemma first_word_trim s : first_word_of (chars_trim s) ≠ [] → first_word_of s = first_word_of (chars_trim s).
Proof.
  intros Hne. destruct (first_word_elim _ Hne) as (a & tl & Ht & Ha & Hw & Hn).
  destruct (trim_split s) as (a' & b & Hs & Ha' & Hb).
  rewrite Hs, Ht at 1. rewrite <- !app_assoc, (app_assoc a').
  apply first_word_intro; [by apply Forall_app | done | done | by apply space_next_app].
Qed.

Lemma trim_end_snoc s c :
  chars_trim_end (s ++ [c]) = if is_whitespace c then chars_trim_end s else s ++ [c].
Proof.
  unfold chars_trim_end. rewrite reverse_snoc. simpl. case_match; [done|].
  by rewrite reverse_cons, reverse_involutive.
Qed.

Lemma trim_end_word w tl :
  no_space w → w ≠ [] → ∃ tl', chars_trim_end (w ++ tl) = w ++ tl' ∧ tl' `prefix_of` tl.
Proof.
  intros Hw Hne. induction tl as [|c tl (tl' & IH & Hp)] using rev_ind.
  - exists []. split; [|done]. rewrite app_nil_r. destruct w as [|c w _] using rev_ind; [done|].
    apply Forall_app in Hw as [_ Hc]. inversion Hc as [|?? Hsp]; subst. by rewrite trim_end_snoc, Hsp.
  - rewrite app_assoc, trim_end_snoc. case_match.
    + exists tl'. split; [done|]. by apply prefix_app_r.
    + exists (tl ++ [c]). by rewrite <- app_assoc.
Qed.

(** Trimming keeps the first word. *)
Lemma first_word_trim_intro a w tl :
  all_space a → no_space w → w ≠ [] → space_next tl →
  first_word_of (chars_trim (a ++ w ++ tl)) = w.
Proof.
  intros Ha Hw Hne Ht. unfold chars_trim.
  assert (chars_trim_start (a ++ w ++ tl) = w ++ tl) as ->.
  { induction Ha as [|c a Hc _ IH]; simpl; [|by rewrite Hc].
    destruct Hw as [|c w Hc _]; [done|]. simpl. by rewrite Hc. }
  destruct (trim_end_word w tl Hw Hne) as (tl' & -> & [k ->]).
  apply (first_word_intro [] w tl'); [constructor | done | done |]. by destruct tl'.
Qed.

(** ** Segments *)

Definition is_sep (ch : Z) : bool := ((ch =? 10) || (ch =? 59)) || ((ch =? 38) || (ch =? 124)).
Definition sep_free (s : text) : Prop := Forall (λ c, is_sep c = false) s.
Definition sep_next (s : text) : Prop := match s with [] => True | c :: _ => is_sep c = true end.

(** The reference splitter: cut at every separator character. *)
Fixpoint blocks_from (cur s : text) : list text :=
  match s with
  | [] => [cur]
  | ch :: rest => if is_sep ch then cur :: blocks_from [] rest else blocks_from (cur ++ [ch]) rest
  end.

(** The simple splitter, with its treatment of doubled operators, finds the
    blocks that are not blank. *)
Lemma simple_segments_blocks cur s : simple_segments_from cur s = blocks_from cur s ≫= push_segment.
Proof.
  revert cur. induction s as [s IH] using (Wf_nat.induction_ltof1 _ (@length Z)). unfold Wf_nat.ltof in IH.
  intros cur. destruct s as [|ch rest]; [simpl; by rewrite app_nil_r|].
  cbn [simple_segments_from blocks_from]. unfold is_sep at 1.
  destruct ((ch =? 10) || (ch =? 59)); simpl; [rewrite IH by (simpl; lia); done|].
  destruct ((ch =? 38) || (ch =? 124)) eqn:E2; simpl; [|apply IH; simpl; lia].
  destruct rest as [|next rest']; [done|]. f_equal.
  destruct (Z.eqb_spec next ch) as [->|]; [|rewrite IH by (simpl; lia); done].
  rewrite IH by (simpl; lia). cbn [blocks_from]. unfold is_sep. rewrite E2, orb_true_r. done.
Qed.

Lemma blocks_after cur a x s b : is_sep x = true → b ∈ blocks_from [] s → b ∈ blocks_from cur (a ++ x :: s).
Proof.
  intros Hx Hb. revert cur. induction a as [|y a IH]; intros cur; simpl.
  - rewrite Hx. by right.
  - destruct (is_sep y); [right|]; apply IH.
Qed.

Lemma blocks_first cur b post : sep_free b → sep_next post → cur ++ b ∈ blocks_from cur (b ++ post).
Proof.
  intros Hb Hp. revert cur. induction Hb as [|y b Hy _ IH]; intros cur; simpl.
  - rewrite app_nil_r. destruct post as [|z post]; simpl in *; [by left|]. rewrite Hp. by left.
  - rewrite Hy. specialize (IH (cur ++ [y])). by rewrite <- app_assoc in IH.
Qed.

Lemma elem_of_push seg cur : seg ∈ push_segment cur ↔ seg = chars_trim cur ∧ seg ≠ [].
Proof. unfold push_segment. case_decide; set_solver. Qed.

(** Where a segment of the quote-aware splitter comes from: it is the trimmed
    text between two separators (or the ends of the input). *)
Definition comes_from (seg cur s : text) : Prop :=
  (∃ body post, s = body ++ post ∧ sep_next post ∧ seg = chars_trim (cur ++ body)) ∨
  (∃ pre x body post, s = pre ++ x :: body ++ post ∧ is_sep x = true ∧ sep_next post ∧
     seg = chars_trim body).

Lemma comes_from_sep seg cur ch s :
  is_sep ch = true → comes_from seg [] s → comes_from seg cur (ch :: s).
Proof.
  intros Hc [(body & post & -> & Hp & ->)|(pre & x & body & post & -> & Hx & Hp & ->)]; right.
  - by exists [], ch, body, post.
  - by exists (ch :: pre), x, body, post.
Qed.

Lemma comes_from_char seg cur ch s : comes_from seg (cur ++ [ch]) s → comes_from seg cur (ch :: s).
Proof.
  intros [(body & post & -> & Hp & ->)|(pre & x & body & post & -> & Hx & Hp & ->)].
  - left. exists (ch :: body), post. by rewrite <- app_assoc.
  - right. by exists (ch :: pre), x, body, post.
Qed.

Lemma comes_from_here cur s : sep_next s → comes_from (chars_trim cur) cur s.
Proof. intros Hs. left. exists [], s. by rewrite app_nil_r. Qed.

Lemma segments_come_from seg q cur s : seg ∈ segments_from q cur s → comes_from seg cur s.
Proof.
  revert q cur. induction s as [s IH] using (Wf_nat.induction_ltof1 _ (@length Z)). unfold Wf_nat.ltof in IH.
  intros q cur Hseg. destruct s as [|ch rest]; cbn [segments_from] in Hseg.
  { apply elem_of_push in Hseg as [-> _]. by apply comes_from_here. }
  destruct (quote_step ch q) as [q' kind].
  assert (∀ q, seg ∈ segments_from q (cur ++ [ch]) rest → comes_from seg cur (ch :: rest)) as Hchar.
  { intros ? H'. apply comes_from_char. eapply IH; [simpl; lia | exact H']. }
  assert (∀ q t, is_sep ch = true → (length t < length (ch :: rest))%nat → t = rest →
    seg ∈ push_segment cur ++ segments_from q [] t → comes_from seg cur (ch :: rest)) as Hsep.
  { intros q0 t Hc Ht -> [[-> _]%elem_of_push|H']%elem_of_app; [by apply comes_from_here|].
    apply comes_from_sep; [done|]. by eapply IH. }
  destruct kind; try by eapply Hchar.
  destruct ((ch =? 10) || (ch =? 59)) eqn:E1.
  { eapply (Hsep q' rest); [unfold is_sep; by rewrite E1 | simpl; lia | done | done]. }
  destruct ((ch =? 38) || (ch =? 124)) eqn:E2; [|by eapply Hchar].
  assert (is_sep ch = true) as Hc by (unfold is_sep; by rewrite E1, E2).
  destruct rest as [|next rest']; [by eapply (Hsep q' []); simpl; try lia|].
  destruct (Z.eqb_spec next ch) as [->|]; [|by eapply (Hsep q' (next :: rest')); simpl; try lia].
  apply elem_of_app in Hseg as [[-> _]%elem_of_push|H']; [by apply comes_from_here|].
  do 2 (apply comes_from_sep; [done|]). eapply IH; [simpl; lia | exact H'].
Qed.

(** ** The sanitiser *)

(** Cut a text at its last, or its first, separator. *)
Lemma split_last_sep s : ∃ s1 s2, s = s1 ++ s2 ∧ sep_free s2 ∧
  (s1 = [] ∨ ∃ p x, s1 = p ++ [x] ∧ is_sep x = true).
Proof.
  induction s as [|c s (s1 & s2 & -> & H2 & H1)] using rev_ind;
    [exists [], []; split_and!; [done | constructor | by left]|].
  destruct (is_sep c) eqn:E.
  - exists (s1 ++ s2 ++ [c]), []. rewrite app_nil_r, <- app_assoc. split_and!; [done | constructor|].
    right. exists (s1 ++ s2), c. by rewrite <- app_assoc.
  - exists s1, (s2 ++ [c]). rewrite <- app_assoc. split_and!; [done | | done].
    apply Forall_app. by repeat constructor.
Qed.

Lemma split_first_sep s : ∃ s1 s2, s = s1 ++ s2 ∧ sep_free s1 ∧ sep_next s2.
Proof.
  induction s as [|c s (s1 & s2 & -> & H1 & H2)]; [exists [], []; by repeat constructor|].
  destruct (is_sep c) eqn:E; [exists [], (c :: s1 ++ s2) | exists (c :: s1), s2]; repeat constructor; done.
Qed.

Lemma first_word_trim_keep s : first_word_of s ≠ [] → first_word_of (chars_trim s) = first_word_of s.
Proof.
  intros Hne. destruct (first_word_elim s Hne) as (a & tl & Hs & Ha & Hw & Ht).
  rewrite Hs at 1. by apply first_word_trim_intro.
Qed.

(** A block between separators is found by the simple splitter. *)
Lemma block_found t pre b post :
  t = pre ++ b ++ post → (pre = [] ∨ ∃ p x, pre = p ++ [x] ∧ is_sep x = true) →
  sep_free b → sep_next post → first_word_of b ≠ [] →
  chars_trim b ∈ split_segments_simple t.
Proof.
  intros -> Hpre Hb Hpost Hne. unfold split_segments_simple. rewrite simple_segments_blocks.
  apply list_elem_of_bind. exists b. split.
  - apply elem_of_push. split; [done|]. intros Hnil. rewrite <- (first_word_trim_keep b Hne), Hnil in Hne.
    by destruct Hne.
  - destruct Hpre as [->|(p & x & -> & Hx)].
    + by apply (blocks_first [] b post).
    + rewrite <- app_assoc. apply blocks_after; [done|]. by apply (blocks_first [] b post).
Qed.

(** The first word of every segment of the quote-aware splitter, if it contains
    no separator, is the first word of a segment of the simple one. *)
Lemma simple_segment_of_word t seg w :
  seg ∈ split_command_segments t → first_word_of seg = w → w ≠ [] → sep_free w →
  ∃ seg', seg' ∈ split_segments_simple t ∧ first_word_of (chars_trim seg') = w.
Proof.
  intros Hseg Hfw Hne Hfree.
  assert (∃ pre body post, t = pre ++ body ++ post ∧ (pre = [] ∨ ∃ p x, pre = p ++ [x] ∧ is_sep x = true) ∧
    sep_next post ∧ seg = chars_trim body) as (pre & body & post & -> & Hpre & Hpost & ->).
  { apply segments_come_from in Hseg
      as [(body & post & -> & ? & ->)|(p & x & body & post & -> & Hx & ? & ->)].
    - exists [], body, post. split_and!; [done | by left | done | done].
    - exists (p ++ [x]), body, post. rewrite <- app_assoc. split_and!; [done | | done | done].
      right. by exists p, x. }
  assert (first_word_of body = w) as Hb by (rewrite first_word_trim; congruence).
  destruct (first_word_elim body) as (a & tl & Hbody & Ha & Hw & Ht); [congruence|]. rewrite Hb in Hbody, Hw.
  destruct (split_last_sep a) as (a1 & a2 & -> & Hf2 & Ha1).
  destruct (split_first_sep tl) as (t1 & t2 & -> & Hf1 & Ht2).
  apply Forall_app in Ha as [_ Ha2].
  assert (first_word_of (a2 ++ w ++ t1) = w) as Hword.
  { apply first_word_intro; try done. by destruct t1. }
  exists (chars_trim (a2 ++ w ++ t1)). split.
  - apply (block_found _ (pre ++ a1) _ (t2 ++ post)).
    + by rewrite Hbody, <- !app_assoc.
    + destruct Ha1 as [->|(p & x & -> & ?)]; [by rewrite app_nil_r|].
      right. exists (pre ++ p), x. by rewrite app_assoc.
    + apply Forall_app; split; [done|]. by apply Forall_app.
    + by destruct t2.
    + congruence.
  - rewrite !first_word_trim_keep; rewrite ?first_word_trim_keep; congruence.
Qed.

Lemma forbidden_words_plain w :
  w ∈ escalation_commands ++ module_commands → w ≠ [] ∧ sep_free w.
Proof.
  intros Hw.
  assert (forallb (λ w, bool_decide (w ≠ []) && forallb (λ c, negb (is_sep c)) w)
            (escalation_commands ++ module_commands) = true) as Hall by by vm_compute.
  rewrite forallb_forall in Hall. apply list_elem_of_In in Hw.
  apply Hall, andb_true_iff in Hw as [H1%bool_decide_eq_true H2]. split; [done|].
  rewrite forallb_forall in H2. apply Forall_forall. intros c Hc%list_elem_of_In.
  by apply negb_true_iff, H2.
Qed.

(** C33. What the sanitiser lets through: a command it accepts is not blank, has
    no null byte, and none of the segments the shell would run by the quoting
    rules starts with a privilege-escalation or kernel-module command, although
    the sanitiser itself splits the command without looking at quotes. *)
Theorem sanitize_segments c :
  sanitize c = SanOk →
  chars_trim c ≠ [] ∧ (0 ∉ c) ∧
  ∀ seg, seg ∈ split_command_segments (chars_trim c) →
    first_word_of seg ∉ escalation_commands ++ module_commands.
Proof.
  unfold sanitize. intros Hs. repeat (case_match; try done).
  split_and!; [done | by eapply bool_decide_eq_false_1|]. intros seg Hseg Hbad.
  destruct (forbidden_words_plain _ Hbad) as [Hne Hfree].
  destruct (simple_segment_of_word _ _ _ Hseg eq_refl Hne Hfree) as (seg' & Hin & Hfw).
  assert (∀ cmds : list text, first_word_of seg ∈ cmds →
    existsb (λ s, bool_decide (first_word_of (chars_trim s) ∈ cmds)) (split_segments_simple (chars_trim c)) = true)
    as Hcaught.
  { intros cmds Hc. apply existsb_exists. exists seg'. split; [by apply list_elem_of_In|].
    apply bool_decide_eq_true. by rewrite Hfw. }
  apply elem_of_app in Hbad as [Hbad|Hbad]; apply Hcaught in Hbad;
    unfold contains_privilege_escalation, contains_kernel_module_commands in *; congruence.
Qed.

Lemma sanitize_segments_witness :
  first_word_of (chars "make 'sudo; x'") ∉ escalation_commands ++ module_commands.
Proof.
  refine (proj2 (proj2 (sanitize_segments (chars "make 'sudo; x' && ls") _)) (chars "make 'sudo; x'") _).
  - by vm_compute.
  - apply (bool_decide_unpack _). by vm_compute.
Defined.

(** ** Quoting *)

Definition in_single : quotes := mkQuotes true false false.

Lemma quote_step_single ch : ch ≠ 39 → quote_step ch in_single = (in_single, KQuoted).
Proof.
  intros Hch. unfold quote_step. simpl. rewrite !andb_false_r.
  by destruct (Z.eqb_spec ch 39).
Qed.

Section single_quoted.
Context (s : text) (Hs : 39 ∉ s).

Lemma redirects_single prev : redirects_from in_single prev (s ++ [39]) = ReadOnly.
Proof.
  revert prev. induction s as [|c s' IH]; intros prev; [done|].
  cbn [app redirects_from]. rewrite quote_step_single by set_solver. apply IH. set_solver.
Qed.

Lemma parens_single prev : parens_from 0 in_single prev (s ++ [39]) = [].
Proof.
  revert prev. induction s as [|c s' IH]; intros prev; [done|].
  cbn [app parens_from]. rewrite quote_step_single by set_solver. apply IH. set_solver.
Qed.

Lemma backticks_single : backticks_from 0 true false (s ++ [39]) = [].
Proof.
  induction s as [|c s' IH]; [done|]. cbn [app backticks_from]. rewrite andb_false_r.
  destruct (Z.eqb_spec c 39); [set_solver|]. rewrite andb_false_r. apply IH. set_solver.
Qed.

Lemma segments_single cur : segments_from in_single cur (s ++ [39]) = push_segment (cur ++ s ++ [39]).
Proof.
  revert cur. induction s as [|c s' IH]; intros cur; [done|].
  cbn [app segments_from]. rewrite quote_step_single by set_solver. rewrite IH by set_solver.
  by rewrite <- app_assoc.
Qed.

End single_quoted.

Definition echo_quoted (s : text) : text := chars "echo '" ++ s ++ [39].

Lemma trim_echo_quoted s : chars_trim (echo_quoted s) = echo_quoted s.
Proof.
  unfold chars_trim. change (chars_trim_start (echo_quoted s)) with (echo_quoted s).
  unfold echo_quoted. by rewrite app_assoc, trim_end_snoc.
Qed.

Lemma segments_echo_quoted s : 39 ∉ s → split_command_segments (echo_quoted s) = [echo_quoted s].
Proof.
  intros Hs. unfold split_command_segments.
  change (segments_from no_quotes [] (echo_quoted s))
    with (segments_from in_single (chars "echo '") (s ++ [39])).
  rewrite segments_single by done. fold (echo_quoted s). unfold push_segment.
  by rewrite trim_echo_quoted.
Qed.

Lemma class_echo cc args :
  chars "echo" ∈ cc_read_only cc →
  classify_command_with_args cc (extract_command_name (chars "echo")) args = ReadOnly.
Proof.
  intros Hecho. change (extract_command_name (chars "echo")) with (chars "echo").
  unfold classify_command_with_args, classify_simple_command.
  repeat (rewrite decide_False by (vm_compute; intuition discriminate)).
  by rewrite decide_True.
Qed.

(** Single quotes protect: whatever text without a single quote is given to
    [echo] in single quotes (operators, redirections, substitutions,
    backticks), the command is read-only. *)
Theorem single_quoted_inert cc s :
  chars "echo" ∈ cc_read_only cc → 39 ∉ s →
  classify_command cc (chars "echo '" ++ s ++ [39]) = Ok ReadOnly.
Proof.
  intros Hecho Hs. fold (echo_quoted s). unfold classify_command. cbn [classify_fuel]. cbv zeta.
  rewrite trim_echo_quoted, decide_False by done. rewrite segments_echo_quoted by done.
  cbn [fmap list_fmap]. rewrite trim_echo_quoted.
  change (extract_parenthesized_contents (echo_quoted s))
    with (parens_from 0 in_single (Some 39) (s ++ [39])).
  change (extract_backtick_contents (echo_quoted s)) with (backticks_from 0 true false (s ++ [39])).
  change (classify_redirects (echo_quoted s)) with (redirects_from in_single (Some 39) (s ++ [39])).
  rewrite parens_single, backticks_single, redirects_single by done.
  change (classify_single_segment cc (echo_quoted s))
    with (classify_command_with_args cc (extract_command_name (chars "echo"))
            (split_whitespace_from [] (39 :: s ++ [39]))).
  by rewrite class_echo.
Qed.

Lemma single_quoted_inert_witness :
  classify_command CommandClassifier_with_defaults (chars "echo '" ++ chars "a > b; `rm -rf /`" ++ [39])
  = Ok ReadOnly.
Proof.
  apply single_quoted_inert.
  - apply (bool_decide_unpack _). by vm_compute.
  - apply (bool_decide_unpack _). by vm_compute.
Defined.

(** ** Limits of the rules *)

(** A substitution inside double quotes runs in a shell, but is not looked at
    (backticks there are). *)
Example double_quoted_substitution_missed :
  classify_default (chars "echo " ++ [34] ++ chars "$(rm -rf x)" ++ [34]) = Ok ReadOnly ∧
  classify_default (chars "echo " ++ [34] ++ chars "`rm -rf x`" ++ [34]) = Ok Destructive.
Proof. by vm_compute. Qed.

(** The sanitiser compares the word as written, the classifier its last path
    component. *)
Example qualified_sudo_accepted :
  sanitize (chars "/usr/bin/sudo rm x") = SanOk ∧ sanitize (chars "(sudo rm x)") = SanOk ∧
  sanitize (chars "sudo rm x") = SanRejected "privilege escalation commands are not allowed".
Proof. by vm_compute. Qed.

(** Commands that run their arguments are read-only whatever they run. *)
Example env_runs_anything :
  classify_default (chars "env rm -rf x") = Ok ReadOnly ∧
  classify_default (chars "find . -delete") = Ok ReadOnly.
Proof. by vm_compute. Qed.

(** Duplicating a file descriptor counts as overwriting a file. *)
Example descriptor_duplication_destructive : classify_default (chars "ls 2>&1") = Ok Destructive.
Proof. by vm_compute. Qed.

(** The fork-bomb pattern knows one function name. *)
Example renamed_fork_bomb_accepted :
  sanitize (chars ":(){ :|:& };:") = SanRejected "fork bomb detected" ∧
  sanitize (chars "f(){ f|f& };f") = SanOk.
Proof. by vm_compute. Qed.
