(* ===== verification/P9Wire.v ===== *)
(** * The 9P wire format

    Models [crates/p9/src/wire.rs] and [crates/p9/src/qid.rs]: the cursor
    reader [WireReader], the writer [WireWriter], QIDs, the size check and the
    header parser.  A byte is a [Z] in [0, 256).  Reader operations are actions
    of a state-and-error monad over the cursor; an index past the end of the
    buffer is [Panic].

    [reads p bs a] says that [p] parses exactly the bytes [bs] to [a] wherever
    they stand in a buffer, and [writes f bs] that [f] appends exactly [bs];
    both compose, which is what makes the round trip of each message a matter
    of automation.

    The errors of [crates/p9/src/error.rs] and their numbers come first. *)

From stdpp Require Import base strings list pretty.
From S2P Require Import Prelude.
#[local] Open Scope Z_scope.

(** ** Errors of the 9P2000.L server

    Models [crates/p9/src/error.rs]: the error type of the server, the Linux
    errno constants and the two conversions that pick the errno an [Rlerror]
    response carries.  The platform switch of the source ([cfg(unix)],
    [cfg(windows)]) is an argument. *)

Inductive P9Error :=
  | Io (source : io_error)
  | MalformedMessage (reason : string)
  | OversizedMessage (size max_size : Z)
  | UnknownMessageType (msg_type : Z)
  | UnknownFid (fid : Z)
  | FidInUse (fid : Z)
  | FidNotOpen (fid : Z)
  | ProtocolError (reason : string)
  | InterceptorDenied (reason : string)
  | ReservedName (name : string)
  | CaseCollision (existing attempted : string)
  | PathOutsideRoot (path : string).

Definition EPERM : Z := 1.
Definition ENOENT : Z := 2.
Definition EIO : Z := 5.
Definition EBADF : Z := 9.
Definition EACCES : Z := 13.
Definition EEXIST : Z := 17.
Definition ENOTDIR : Z := 20.
Definition EISDIR : Z := 21.
Definition EINVAL : Z := 22.
Definition ENOSPC : Z := 28.
Definition ENAMETOOLONG : Z := 36.
Definition ENOTEMPTY : Z := 39.
Definition ENODATA : Z := 61.
Definition EOVERFLOW : Z := 75.
Definition EOPNOTSUPP : Z := 95.

(** The constants of [pub mod errno]. *)
Definition errno_table : list Z :=
  [EPERM; ENOENT; EIO; EBADF; EACCES; EEXIST; ENOTDIR; EISDIR; EINVAL; ENOSPC;
   ENAMETOOLONG; ENOTEMPTY; ENODATA; EOVERFLOW; EOPNOTSUPP].

(** The catch-all branch looks at the raw OS code; [raw as u32] reinterprets a
    negative code. *)
Definition raw_to_errno (pl : platform) (raw : Z) : Z :=
  match pl with
  | Windows => if raw =? 145 then ENOTEMPTY else EIO
  | Unix =>
      let v := as_u32 raw in
      if v =? ENOTEMPTY then ENOTEMPTY
      else if v =? EISDIR then EISDIR
      else if v =? ENOTDIR then ENOTDIR
      else if v =? ENOSPC then ENOSPC
      else if v =? ENAMETOOLONG then ENAMETOOLONG
      else EIO
  end.

Definition io_error_to_errno (pl : platform) (e : io_error) : Z :=
  match io_kind e with
  | NotFound => ENOENT
  | PermissionDenied => EACCES
  | AlreadyExists => EEXIST
  | InvalidInput => EINVAL
  | DirectoryNotEmpty => ENOTEMPTY
  | IsADirectory => EISDIR
  | NotADirectory => ENOTDIR
  | StorageFull => ENOSPC
  | InvalidFilename => EINVAL
  | KOther =>
      match raw_os_error e with Some raw => raw_to_errno pl raw | None => EIO end
  end.

Definition p9_error_to_errno (pl : platform) (e : P9Error) : Z :=
  match e with
  | Io source => io_error_to_errno pl source
  | UnknownFid _ | FidNotOpen _ => EBADF
  | FidInUse _ => EBADF
  | InterceptorDenied _ => EACCES
  | ReservedName _ => EINVAL
  | CaseCollision _ _ => EEXIST
  | PathOutsideRoot _ => EACCES
  | MalformedMessage _ | OversizedMessage _ _ | UnknownMessageType _
  | ProtocolError _ => EIO
  end.

(** Every error is reported with an errno of the table; in particular an
    [Rlerror] never carries 0, which a Linux client reads as success. *)
Lemma raw_to_errno_in_table pl raw : raw_to_errno pl raw ∈ errno_table.
Proof.
  unfold raw_to_errno.
  destruct pl; repeat case_match; apply (bool_decide_unpack _); by vm_compute.
Qed.

Lemma p9_error_to_errno_in_table pl e : p9_error_to_errno pl e ∈ errno_table.
Proof.
  destruct e as [[[] [raw|]]| | | | | | | | | | |]; simpl;
    try apply raw_to_errno_in_table; apply (bool_decide_unpack _); by vm_compute.
Qed.

Lemma errno_table_in_u32 z : z ∈ errno_table → in_u32 z ∧ z ≠ 0.
Proof.
  revert z. apply Forall_forall, (bool_decide_unpack _). by vm_compute.
Qed.

Definition MAX_MESSAGE_SIZE : Z := 16 * 1024 * 1024.
Definition MIN_MESSAGE_SIZE : Z := 7.
Definition HEADER_SIZE : Z := 7.

(** ** QIDs ([qid.rs]) *)

Definition QTFILE : Z := 0x00.
Definition QTSYMLINK : Z := 0x02.
Definition QTEXCL : Z := 0x20.
Definition QTAPPEND : Z := 0x40.
Definition QTDIR : Z := 0x80.

Record Qid := mkQid { qid_ty : Z; qid_version : Z; qid_path : Z }.

Definition Qid_WIRE_SIZE : nat := 13.
Definition Qid_new (ty version path : Z) : Qid := mkQid ty version path.
Definition Qid_directory (version path : Z) : Qid := Qid_new QTDIR version path.
Definition Qid_file (version path : Z) : Qid := Qid_new QTFILE version path.
Definition Qid_symlink (version path : Z) : Qid := Qid_new QTSYMLINK version path.
Definition Qid_is_dir (q : Qid) : bool := negb (Z.land (qid_ty q) QTDIR =? 0).
Definition Qid_is_symlink (q : Qid) : bool := negb (Z.land (qid_ty q) QTSYMLINK =? 0).

Definition qid_wf (q : Qid) : Prop :=
  in_u8 (qid_ty q) ∧ in_u32 (qid_version q) ∧ in_u64 (qid_path q).

(** ** The reader *)

Record WireReader := mkReader { rbuf : list Z; rpos : nat }.

Definition WireReader_new (buf : list Z) : WireReader := mkReader buf 0.

(** [saturating_sub] on [usize] is truncated subtraction. *)
Definition remaining (r : WireReader) : nat := (length (rbuf r) - rpos r)%nat.

Definition position (r : WireReader) : nat := rpos r.

Definition reader (A : Type) : Type := WireReader → outcome P9Error (A * WireReader).

#[export] Instance reader_ret : MRet reader := λ A a r, Ok (a, r).
#[export] Instance reader_bind : MBind reader := λ A B f p r,
  match p r with
  | Ok (a, r') => f a r'
  | Err e => Err e
  | Panic => Panic
  end.

#[export] Instance reader_fmap : FMap reader := λ A B f p, x ← p; mret (f x).

Definition ensure_remaining (count : nat) : reader unit := λ r,
  if decide (remaining r < count)%nat then
    Err (MalformedMessage ("unexpected end of message: need " +:+ pretty count
           +:+ " bytes but only " +:+ pretty (remaining r) +:+ " remain"))
  else Ok (tt, r).

(** [&self.buf[self.pos..self.pos + count]] followed by [self.pos += count]. *)
Definition advance (count : nat) : reader (list Z) := λ r,
  match slice (rbuf r) (rpos r) count with
  | Some bs => Ok (bs, mkReader (rbuf r) (rpos r + count))
  | None => Panic
  end.

Definition read_u8 : reader Z :=
  _ ← ensure_remaining 1; bs ← advance 1; mret (le_value bs).

Definition read_u16 : reader Z :=
  _ ← ensure_remaining 2; bs ← advance 2; mret (le_value bs).

Definition read_u32 : reader Z :=
  _ ← ensure_remaining 4; bs ← advance 4; mret (le_value bs).

Definition read_u64 : reader Z :=
  _ ← ensure_remaining 8; bs ← advance 8; mret (le_value bs).

Definition from_utf8 (bs : list Z) : reader string := λ r,
  if utf8_valid bs then Ok (string_of_bytes bs, r)
  else Err (MalformedMessage "string is not valid UTF-8").

Definition read_string : reader string :=
  len ← read_u16;
  _ ← ensure_remaining (Z.to_nat len);
  bs ← advance (Z.to_nat len);
  from_utf8 bs.

Definition read_qid : reader Qid :=
  ty ← read_u8; version ← read_u32; path ← read_u64;
  mret (mkQid ty version path).

Definition read_data : reader (list Z) :=
  len ← read_u32;
  _ ← ensure_remaining (Z.to_nat len);
  advance (Z.to_nat len).

Definition read_raw (count : nat) : reader (list Z) :=
  _ ← ensure_remaining count; advance count.

(** [for _ in 0..count { v.push(read()?) }] *)
Fixpoint read_many {A} (count : nat) (p : reader A) : reader (list A) :=
  match count with
  | O => mret []
  | S n => a ← p; rest ← read_many n p; mret (a :: rest)
  end.

Definition read_qids : reader (list Qid) :=
  count ← read_u16; read_many (Z.to_nat count) read_qid.

Definition read_strings : reader (list string) :=
  count ← read_u16; read_many (Z.to_nat count) read_string.

(** ** The writer *)

Record WireWriter := mkWriter { wbuf : list Z }.

Definition WireWriter_new : WireWriter := mkWriter [0; 0; 0; 0].

Definition extend_from_slice (bs : list Z) (w : WireWriter) : WireWriter :=
  mkWriter (wbuf w ++ bs).

Definition write_u8 (value : Z) : WireWriter → WireWriter := extend_from_slice [value].
Definition write_u16 (value : Z) : WireWriter → WireWriter :=
  extend_from_slice (le_bytes 2 value).
Definition write_u32 (value : Z) : WireWriter → WireWriter :=
  extend_from_slice (le_bytes 4 value).
Definition write_u64 (value : Z) : WireWriter → WireWriter :=
  extend_from_slice (le_bytes 8 value).

Definition write_string (value : string) (w : WireWriter) : WireWriter :=
  let bytes := bytes_of_string value in
  extend_from_slice bytes (write_u16 (as_u16 (Z.of_nat (length bytes))) w).

Definition write_qid (q : Qid) (w : WireWriter) : WireWriter :=
  write_u64 (qid_path q) (write_u32 (qid_version q) (write_u8 (qid_ty q) w)).

Definition write_data (data : list Z) (w : WireWriter) : WireWriter :=
  extend_from_slice data (write_u32 (as_u32 (Z.of_nat (length data))) w).

Definition write_raw (data : list Z) : WireWriter → WireWriter := extend_from_slice data.

Definition write_qids (qids : list Qid) (w : WireWriter) : WireWriter :=
  fold_left (λ w q, write_qid q w) qids
    (write_u16 (as_u16 (Z.of_nat (length qids))) w).

Definition write_strings (strings : list string) (w : WireWriter) : WireWriter :=
  fold_left (λ w s, write_string s w) strings
    (write_u16 (as_u16 (Z.of_nat (length strings))) w).

(** The first four bytes are overwritten with the total length. *)
Definition finish (w : WireWriter) : list Z :=
  le_bytes 4 (as_u32 (Z.of_nat (length (wbuf w)))) ++ drop 4 (wbuf w).

Definition WireWriter_len (w : WireWriter) : nat := length (wbuf w).
Definition WireWriter_is_empty (w : WireWriter) : bool := (length (wbuf w) <=? 4)%nat.

(** ** Message framing *)

Definition validate_message_size (size max_size : Z) : outcome P9Error unit :=
  if size <? MIN_MESSAGE_SIZE then
    Err (MalformedMessage ("message size " +:+ pretty size +:+ " is below minimum ("
           +:+ pretty MIN_MESSAGE_SIZE +:+ ")"))
  else if max_size <? size then Err (OversizedMessage size max_size)
  else Ok tt.

Definition parse_header (buf : list Z) : outcome P9Error (Z * Z) :=
  match buf with
  | b0 :: b1 :: b2 :: _ => Ok (b0, le_value [b1; b2])
  | _ => Err (MalformedMessage "message too short for header")
  end.

(** ** Parsing relations and their composition *)

Definition reads {A} (p : reader A) (bs : list Z) (a : A) : Prop :=
  ∀ pre post, p (mkReader (pre ++ bs ++ post) (length pre))
            = Ok (a, mkReader (pre ++ bs ++ post) (length pre + length bs)).

Definition writes (f : WireWriter → WireWriter) (bs : list Z) : Prop :=
  ∀ w, wbuf (f w) = wbuf w ++ bs.

Lemma reads_ret {A} (a : A) : reads (mret a) [] a.
Proof. intros pre post. cbn. by rewrite Nat.add_0_r. Qed.

Lemma reads_bind {A B} (p : reader A) (f : A → reader B) bs1 bs2 a b :
  reads p bs1 a → reads (f a) bs2 b → reads (p ≫= f) (bs1 ++ bs2) b.
Proof.
  intros Hp Hf pre post.
  unfold mbind, reader_bind. rewrite <- (assoc_L (++)), Hp.
  specialize (Hf (pre ++ bs1) post).
  rewrite length_app, <- !(assoc_L (++)) in Hf. rewrite Hf.
  rewrite length_app, Nat.add_assoc. done.
Qed.

Lemma reads_bind_ret {A B} (p : reader A) (g : A → B) bs a :
  reads p bs a → reads (x ← p; mret (g x)) bs (g a).
Proof.
  intros Hp. rewrite <- (app_nil_r bs). eapply reads_bind; [done|]. apply reads_ret.
Qed.

Lemma reads_bind_nil {A B} (p : reader A) (f : A → reader B) bs a b :
  reads p [] a → reads (f a) bs b → reads (p ≫= f) bs b.
Proof. intros. by apply (reads_bind p f [] bs a b). Qed.

(** A length check in front of the bytes it checks for. *)
Lemma reads_ensure {A} (f : unit → reader A) bs (a : A) :
  reads (f tt) bs a → reads (ensure_remaining (length bs) ≫= f) bs a.
Proof.
  intros Hf pre post. unfold mbind, reader_bind, ensure_remaining, remaining; simpl.
  rewrite decide_False by (rewrite !length_app; lia). apply Hf.
Qed.

Lemma reads_advance bs : reads (advance (length bs)) bs bs.
Proof. intros pre post. unfold advance; simpl. by rewrite slice_app. Qed.

Lemma reads_ensure_advance {A} (f : list Z → reader A) bs a :
  reads (f bs) [] a →
  reads (_ ← ensure_remaining (length bs); x ← advance (length bs); f x) bs a.
Proof.
  intros Hf. apply reads_ensure. rewrite <- (app_nil_r bs) at 2.
  eapply reads_bind; [apply reads_advance | done].
Qed.

Lemma reads_le n v :
  0 ≤ v < 256 ^ Z.of_nat n →
  reads (_ ← ensure_remaining n; bs ← advance n; mret (le_value bs)) (le_bytes n v) v.
Proof.
  intros Hv. pose proof (reads_ensure_advance (λ bs, mret (le_value bs)) (le_bytes n v)
    (le_value (le_bytes n v)) (reads_ret _)) as H.
  by rewrite length_le_bytes, (le_value_le_bytes n v Hv) in H.
Qed.

Lemma reads_u8 v : in_u8 v → reads read_u8 [v] v.
Proof.
  intros Hv. pose proof (reads_le 1 v Hv) as H. simpl in H.
  by rewrite Z.mod_small in H.
Qed.
Lemma reads_u16 v : in_u16 v → reads read_u16 (le_bytes 2 v) v.
Proof. intros Hv. apply (reads_le 2 v). exact Hv. Qed.
Lemma reads_u32 v : in_u32 v → reads read_u32 (le_bytes 4 v) v.
Proof. intros Hv. apply (reads_le 4 v). exact Hv. Qed.
Lemma reads_u64 v : in_u64 v → reads read_u64 (le_bytes 8 v) v.
Proof. intros Hv. apply (reads_le 8 v). exact Hv. Qed.

(** The invariant of a Rust [String] that fits the 16-bit length prefix. *)
Definition wire_string (s : string) : Prop :=
  is_utf8 s = true ∧ (Z.of_nat (String.length s) < 2 ^ 16).

Definition string_bytes (s : string) : list Z :=
  le_bytes 2 (Z.of_nat (String.length s)) ++ bytes_of_string s.

Lemma reads_string s : wire_string s → reads read_string (string_bytes s) s.
Proof.
  intros [Hu Hlen]. unfold read_string, string_bytes.
  eapply reads_bind; [apply reads_u16; unfold in_width; lia|].
  rewrite Nat2Z.id, <- length_bytes_of_string.
  apply (reads_ensure_advance from_utf8).
  intros pre post. unfold from_utf8, is_utf8 in *. rewrite Hu.
  by rewrite string_of_bytes_of_string, Nat.add_0_r.
Qed.

Definition qid_bytes (q : Qid) : list Z :=
  [qid_ty q] ++ le_bytes 4 (qid_version q) ++ le_bytes 8 (qid_path q).

Lemma reads_qid q : qid_wf q → reads read_qid (qid_bytes q) q.
Proof.
  intros (Ht & Hv & Hp). unfold read_qid, qid_bytes. destruct q as [ty version path].
  eapply reads_bind; [by apply reads_u8|]. eapply reads_bind; [by apply reads_u32|].
  apply (reads_bind_ret read_u64 (mkQid ty version)). by apply reads_u64.
Qed.

Definition data_wf (data : list Z) : Prop :=
  Forall in_u8 data ∧ Z.of_nat (length data) < 2 ^ 32.

Definition data_bytes (data : list Z) : list Z :=
  le_bytes 4 (Z.of_nat (length data)) ++ data.

Lemma reads_data data : data_wf data → reads read_data (data_bytes data) data.
Proof.
  intros [_ Hlen]. unfold read_data, data_bytes.
  eapply reads_bind; [apply reads_u32; unfold in_width; lia|].
  rewrite Nat2Z.id. apply reads_ensure, reads_advance.
Qed.

Lemma reads_many {A} (p : reader A) (enc : A → list Z) l :
  Forall (λ a, reads p (enc a) a) l →
  reads (read_many (length l) p) (concat (enc <$> l)) l.
Proof.
  induction 1 as [|a l Ha _ IH]; simpl; [apply reads_ret|].
  eapply reads_bind; [done|]. by apply (reads_bind_ret _ (cons a)).
Qed.

Definition qids_wf (qids : list Qid) : Prop :=
  Forall qid_wf qids ∧ Z.of_nat (length qids) < 2 ^ 16.
Definition qids_bytes (qids : list Qid) : list Z :=
  le_bytes 2 (Z.of_nat (length qids)) ++ concat (qid_bytes <$> qids).

Lemma reads_qids qids : qids_wf qids → reads read_qids (qids_bytes qids) qids.
Proof.
  intros [Hall Hlen]. unfold read_qids, qids_bytes.
  eapply reads_bind; [apply reads_u16; unfold in_width; lia|].
  rewrite Nat2Z.id. apply reads_many.
  eapply Forall_impl; [done|]. intros. by apply reads_qid.
Qed.

Definition strings_wf (ss : list string) : Prop :=
  Forall wire_string ss ∧ Z.of_nat (length ss) < 2 ^ 16.
Definition strings_bytes (ss : list string) : list Z :=
  le_bytes 2 (Z.of_nat (length ss)) ++ concat (string_bytes <$> ss).

Lemma reads_strings ss : strings_wf ss → reads read_strings (strings_bytes ss) ss.
Proof.
  intros [Hall Hlen]. unfold read_strings, strings_bytes.
  eapply reads_bind; [apply reads_u16; unfold in_width; lia|].
  rewrite Nat2Z.id. apply reads_many.
  eapply Forall_impl; [done|]. intros. by apply reads_string.
Qed.

(** ** What the writer appends *)

Lemma writes_extend bs : writes (extend_from_slice bs) bs.
Proof. done. Qed.

Lemma writes_comp f g bs1 bs2 :
  writes f bs1 → writes g bs2 → writes (λ w, g (f w)) (bs1 ++ bs2).
Proof. intros Hf Hg w. by rewrite Hg, Hf, (assoc_L (++)). Qed.

Lemma writes_u16_len n :
  Z.of_nat n < 2 ^ 16 → writes (write_u16 (as_u16 (Z.of_nat n))) (le_bytes 2 (Z.of_nat n)).
Proof. intros H. rewrite as_u16_small by (unfold in_width; lia). apply writes_extend. Qed.

Lemma writes_string s : wire_string s → writes (write_string s) (string_bytes s).
Proof.
  intros [_ Hlen]. unfold write_string, string_bytes. rewrite length_bytes_of_string.
  apply (writes_comp (write_u16 _) (extend_from_slice _)); [by apply writes_u16_len|].
  apply writes_extend.
Qed.

Lemma writes_qid q : writes (write_qid q) (qid_bytes q).
Proof.
  unfold write_qid, qid_bytes. rewrite (assoc_L (++)).
  apply (writes_comp (λ w, write_u32 _ (write_u8 _ w)) (write_u64 _)); [|done].
  by apply (writes_comp (write_u8 _) (write_u32 _)).
Qed.

Lemma writes_data data : data_wf data → writes (write_data data) (data_bytes data).
Proof.
  intros [_ Hlen]. unfold write_data, data_bytes.
  rewrite as_u32_small by (unfold in_width; lia).
  by apply (writes_comp (write_u32 _) (extend_from_slice _)).
Qed.

Lemma writes_fold {A} (f : A → WireWriter → WireWriter) (enc : A → list Z) l :
  Forall (λ a, writes (f a) (enc a)) l →
  writes (λ w, fold_left (λ w a, f a w) l w) (concat (enc <$> l)).
Proof.
  induction 1 as [|a l Ha _ IH]; intros w; simpl; [by rewrite app_nil_r|].
  by rewrite IH, Ha, (assoc_L (++)).
Qed.

Lemma writes_qids qids : qids_wf qids → writes (write_qids qids) (qids_bytes qids).
Proof.
  intros [_ Hlen]. unfold write_qids, qids_bytes.
  apply (writes_comp (write_u16 _) (λ w, fold_left _ qids w)); [by apply writes_u16_len|].
  apply writes_fold, Forall_true. apply writes_qid.
Qed.

Lemma writes_strings ss : strings_wf ss → writes (write_strings ss) (strings_bytes ss).
Proof.
  intros [Hall Hlen]. unfold write_strings, strings_bytes.
  apply (writes_comp (write_u16 _) (λ w, fold_left _ ss w)); [by apply writes_u16_len|].
  apply writes_fold. eapply Forall_impl; [done|]. apply writes_string.
Qed.

#[export] Hint Resolve reads_u8 reads_u16 reads_u32 reads_u64 reads_string reads_qid
  reads_data reads_qids reads_strings : sandbox.
#[export] Hint Resolve writes_extend writes_string writes_qid writes_data writes_qids
  writes_strings : sandbox.

(** ** Safety of the reader

    [steady p]: started inside the buffer, [p] never panics, and when it
    succeeds it leaves the buffer alone and the cursor inside it, no further
    left than before. *)

Definition in_bounds (r : WireReader) : Prop := (rpos r ≤ length (rbuf r))%nat.

Definition steady {A} (p : reader A) : Prop := ∀ r, in_bounds r →
  match p r with
  | Ok (_, r') => rbuf r' = rbuf r ∧ (rpos r ≤ rpos r')%nat ∧ in_bounds r'
  | Err _ => True
  | Panic => False
  end.

Lemma steady_ret {A} (a : A) : steady (mret a).
Proof. intros r Hr. cbn. auto. Qed.

Lemma steady_bind {A B} (p : reader A) (f : A → reader B) :
  steady p → (∀ a, steady (f a)) → steady (p ≫= f).
Proof.
  intros Hp Hf r Hr. specialize (Hp r Hr). unfold mbind, reader_bind.
  destruct (p r) as [[a r']| |]; [|done|done]. destruct Hp as (Hb & Hle & Hr').
  specialize (Hf a r' Hr'). destruct (f a r') as [[b r'']| |]; [|done|done].
  destruct Hf as (Hb' & Hle' & Hr''). rewrite Hb', Hb. repeat split; auto; lia.
Qed.

Lemma steady_take {A} n (f : list Z → reader A) :
  (∀ bs, steady (f bs)) → steady (_ ← ensure_remaining n; bs ← advance n; f bs).
Proof.
  intros Hf r Hr. unfold mbind, reader_bind, ensure_remaining, remaining.
  case_decide as Hn; [done|]. unfold advance, slice, in_bounds in *.
  rewrite decide_True by lia.
  set (r1 := mkReader (rbuf r) (rpos r + n)).
  assert (in_bounds r1) as Hr1 by (unfold in_bounds; simpl; lia).
  specialize (Hf (take n (drop (rpos r) (rbuf r))) r1 Hr1).
  destruct (f _ r1) as [[b r2]| |]; [|done|done]. simpl in Hf. unfold in_bounds in Hf.
  destruct Hf as (? & ? & ?). repeat split; auto; lia.
Qed.

Lemma steady_advance n : steady (_ ← ensure_remaining n; advance n).
Proof.
  pose proof (steady_take n mret (λ bs, steady_ret bs)) as H.
  intros r Hr. specialize (H r Hr).
  unfold mbind, reader_bind, mret, reader_ret in *.
  destruct (ensure_remaining n r) as [[[] r']| |]; [|done|done].
  by destruct (advance n r') as [[] | |].
Qed.

Lemma steady_from_utf8 bs : steady (from_utf8 bs).
Proof. intros r Hr. unfold from_utf8. by destruct (utf8_valid bs). Qed.

Lemma steady_many {A} n (p : reader A) : steady p → steady (read_many n p).
Proof.
  intros Hp. induction n as [|n IH]; simpl; [apply steady_ret|].
  apply steady_bind; [done|]. intros a. apply steady_bind; [done|].
  intros. apply steady_ret.
Qed.

Create HintDb steady discriminated.
#[export] Hint Resolve steady_ret steady_bind steady_take steady_advance steady_from_utf8
  steady_many : steady.

Lemma steady_u8 : steady read_u8.
Proof. apply steady_take. auto with steady. Qed.
Lemma steady_u16 : steady read_u16.
Proof. apply steady_take. auto with steady. Qed.
Lemma steady_u32 : steady read_u32.
Proof. apply steady_take. auto with steady. Qed.
Lemma steady_u64 : steady read_u64.
Proof. apply steady_take. auto with steady. Qed.
#[export] Hint Resolve steady_u8 steady_u16 steady_u32 steady_u64 : steady.

Lemma steady_string : steady read_string.
Proof. apply steady_bind; [auto with steady|]. intros. apply steady_take. auto with steady. Qed.
Lemma steady_qid : steady read_qid.
Proof. unfold read_qid. auto 10 with steady. Qed.
Lemma steady_data : steady read_data.
Proof. unfold read_data. auto with steady. Qed.
#[export] Hint Resolve steady_string steady_qid steady_data : steady.
Lemma steady_qids : steady read_qids.
Proof. unfold read_qids. auto with steady. Qed.
Lemma steady_strings : steady read_strings.
Proof. unfold read_strings. auto with steady. Qed.
#[export] Hint Resolve steady_qids steady_strings : steady.
