(* ===== verification/P9Messages.v ===== *)
(** * The messages of 9P2000.L

    Models [crates/p9/src/messages.rs]: the message type constants, one record
    per message with its decoder and encoder in the order of the source, the
    [Message] trait with its [to_wire], and [parse_message].

    [Message] is the trait as a type class; [MessageLaws] is what the rest of
    the server relies on: whatever [encode] writes, [decode] reads back, and
    [decode] never panics.  Each message discharges it with [codec_tac]. *)

From stdpp Require Import base strings list pretty.
From S2P Require Import Prelude P9Wire.
#[local] Open Scope Z_scope.

(** ** Constants *)

Definition RLERROR : Z := 7.
Definition TSTATFS : Z := 8.
Definition RSTATFS : Z := 9.
Definition TLOPEN : Z := 12.
Definition RLOPEN : Z := 13.
Definition TLCREATE : Z := 14.
Definition RLCREATE : Z := 15.
Definition TSYMLINK : Z := 16.
Definition RSYMLINK : Z := 17.
Definition TMKNOD : Z := 18.
Definition RMKNOD : Z := 19.
Definition TRENAME : Z := 20.
Definition RRENAME : Z := 21.
Definition TREADLINK : Z := 22.
Definition RREADLINK : Z := 23.
Definition TGETATTR : Z := 24.
Definition RGETATTR : Z := 25.
Definition TSETATTR : Z := 26.
Definition RSETATTR : Z := 27.
Definition TXATTRWALK : Z := 30.
Definition RXATTRWALK : Z := 31.
Definition TXATTRCREATE : Z := 32.
Definition RXATTRCREATE : Z := 33.
Definition TREADDIR : Z := 40.
Definition RREADDIR : Z := 41.
Definition TFSYNC : Z := 50.
Definition RFSYNC : Z := 51.
Definition TLOCK : Z := 52.
Definition RLOCK : Z := 53.
Definition TGETLOCK : Z := 54.
Definition RGETLOCK : Z := 55.
Definition TLINK : Z := 70.
Definition RLINK : Z := 71.
Definition TMKDIR : Z := 72.
Definition RMKDIR : Z := 73.
Definition TRENAMEAT : Z := 74.
Definition RRENAMEAT : Z := 75.
Definition TUNLINKAT : Z := 76.
Definition RUNLINKAT : Z := 77.
Definition TVERSION : Z := 100.
Definition RVERSION : Z := 101.
Definition TAUTH : Z := 102.
Definition RAUTH : Z := 103.
Definition TATTACH : Z := 104.
Definition RATTACH : Z := 105.
Definition TFLUSH : Z := 108.
Definition RFLUSH : Z := 109.
Definition TWALK : Z := 110.
Definition RWALK : Z := 111.
Definition TREAD : Z := 116.
Definition RREAD : Z := 117.
Definition TWRITE : Z := 118.
Definition RWRITE : Z := 119.
Definition TCLUNK : Z := 120.
Definition RCLUNK : Z := 121.
Definition TREMOVE : Z := 122.
Definition RREMOVE : Z := 123.
Definition NOTAG : Z := 0xFFFF.
Definition P9_GETATTR_MODE : Z := 0x00000001.
Definition P9_GETATTR_NLINK : Z := 0x00000002.
Definition P9_GETATTR_UID : Z := 0x00000004.
Definition P9_GETATTR_GID : Z := 0x00000008.
Definition P9_GETATTR_RDEV : Z := 0x00000010.
Definition P9_GETATTR_ATIME : Z := 0x00000020.
Definition P9_GETATTR_MTIME : Z := 0x00000040.
Definition P9_GETATTR_CTIME : Z := 0x00000080.
Definition P9_GETATTR_INO : Z := 0x00000100.
Definition P9_GETATTR_SIZE : Z := 0x00000200.
Definition P9_GETATTR_BLOCKS : Z := 0x00000400.
Definition P9_GETATTR_BTIME : Z := 0x00000800.
Definition P9_GETATTR_GEN : Z := 0x00001000.
Definition P9_GETATTR_DATA_VERSION : Z := 0x00002000.
Definition P9_GETATTR_BASIC : Z := 0x000007ff.
Definition P9_GETATTR_ALL : Z := 0x00003fff.
Definition P9_SETATTR_MODE : Z := 0x00000001.
Definition P9_SETATTR_UID : Z := 0x00000002.
Definition P9_SETATTR_GID : Z := 0x00000004.
Definition P9_SETATTR_SIZE : Z := 0x00000008.
Definition P9_SETATTR_ATIME : Z := 0x00000010.
Definition P9_SETATTR_MTIME : Z := 0x00000020.
Definition P9_SETATTR_CTIME : Z := 0x00000040.
Definition P9_SETATTR_ATIME_SET : Z := 0x00000100.
Definition P9_SETATTR_MTIME_SET : Z := 0x00000200.
Definition AT_REMOVEDIR : Z := 0x200.
Definition P9_LOCK_TYPE_RDLCK : Z := 0.
Definition P9_LOCK_TYPE_WRLCK : Z := 1.
Definition P9_LOCK_TYPE_UNLCK : Z := 2.
Definition P9_LOCK_SUCCESS : Z := 0.
Definition P9_LOCK_BLOCKED : Z := 1.
Definition P9_LOCK_ERROR : Z := 2.
Definition P9_LOCK_GRACE : Z := 3.
Definition P9_LOCK_FLAGS_BLOCK : Z := 1.
Definition DT_UNKNOWN : Z := 0.
Definition DT_FIFO : Z := 1.
Definition DT_CHR : Z := 2.
Definition DT_DIR : Z := 4.
Definition DT_BLK : Z := 6.
Definition DT_REG : Z := 8.
Definition DT_LNK : Z := 10.
Definition DT_SOCK : Z := 12.

(** ** The [Message] trait *)

Class Message (M : Type) := {
  MSG_TYPE : Z;
  decode : reader M;
  encode : M → WireWriter → WireWriter;
}.

Definition to_wire `{Message M} (m : M) (tag : Z) : list Z :=
  let writer := WireWriter_new in
  let writer := write_u8 MSG_TYPE writer in
  let writer := write_u16 tag writer in
  let writer := encode m writer in
  finish writer.
Arguments to_wire {M _} m tag.

(** Statement sequencing on the writer. *)
Definition seqw (f g : WireWriter → WireWriter) : WireWriter → WireWriter := λ w, g (f w).
#[local] Notation "f ▷ g" := (seqw f g) (at level 60, right associativity).

(** [codec f p bs a]: [f] appends exactly the bytes that [p] reads as [a]. *)
Definition codec {A} (f : WireWriter → WireWriter) (p : reader A) (bs : list Z) (a : A) :=
  writes f bs ∧ reads p bs a.

Lemma codec_step {A B} f g (p : reader A) (k : A → reader B) bs1 bs2 a b :
  writes f bs1 → reads p bs1 a → codec g (k a) bs2 b →
  codec (f ▷ g) (p ≫= k) (bs1 ++ bs2) b.
Proof.
  intros Hf Hp []. split; [by apply (writes_comp f g) | by eapply reads_bind].
Qed.

Lemma codec_last {A B} f (p : reader A) (k : A → reader B) bs a b :
  writes f bs → reads p bs a → k a = mret b → codec f (p ≫= k) bs b.
Proof.
  intros ? ? Hk. split; [done|]. rewrite <- (app_nil_r bs).
  eapply reads_bind; [done|]. rewrite Hk. apply reads_ret.
Qed.

Lemma codec_nil {A} (a : A) : codec id (mret a) [] a.
Proof. split; [intros w; by rewrite app_nil_r | apply reads_ret]. Qed.

(** What a message promises, for the values satisfying [wf]: the integers in
    range, the strings valid UTF-8 and short enough for their length prefix. *)
Class MessageLaws (M : Type) `{Message M} (wf : M → Prop) := {
  message_type_u8 : in_u8 MSG_TYPE;
  message_codec : ∀ m, wf m → ∃ bs, codec (encode m) decode bs m;
  message_steady : steady (decode (M := M));
}.

Ltac codec_tac m :=
  repeat first
    [ destruct m; apply codec_nil
    | eapply codec_last; [solve [eauto with sandbox] | solve [eauto with sandbox] | by destruct m]
    | eapply codec_step; [solve [eauto with sandbox] | solve [eauto with sandbox] |] ].

(** The instance, its encoder, its decoder and its well-formedness. *)
Tactic Notation "message_tac" reference(i) reference(e) reference(d) reference(w) :=
  constructor;
  [ by vm_compute
  | let m := fresh "m" in let wf := fresh "wf" in
    intros m wf; cbv [encode decode i e d w] in *; split_and_all; eexists;
    codec_tac m
  | cbv [decode i d]; auto 50 with steady ].

(** ** Rlerror *)

Record Rlerror := mkRlerror { Rlerror_ecode : Z }.

Definition decode_Rlerror : reader Rlerror :=
  ecode ← read_u32; mret (mkRlerror ecode).

Definition encode_Rlerror (m : Rlerror) : WireWriter → WireWriter :=
  write_u32 (Rlerror_ecode m).

Definition wf_Rlerror (m : Rlerror) : Prop :=
  in_u32 (Rlerror_ecode m).

#[export] Instance Message_Rlerror : Message Rlerror :=
  { MSG_TYPE := RLERROR; decode := decode_Rlerror; encode := encode_Rlerror }.

#[export] Instance MessageLaws_Rlerror : MessageLaws Rlerror wf_Rlerror.
Proof. message_tac Message_Rlerror encode_Rlerror decode_Rlerror wf_Rlerror. Qed.

(** ** Tversion *)

Record Tversion := mkTversion { Tversion_msize : Z; Tversion_version : string }.

Definition decode_Tversion : reader Tversion :=
  msize ← read_u32; version ← read_string; mret (mkTversion msize version).

Definition encode_Tversion (m : Tversion) : WireWriter → WireWriter :=
  write_u32 (Tversion_msize m) ▷ write_string (Tversion_version m).

Definition wf_Tversion (m : Tversion) : Prop :=
  in_u32 (Tversion_msize m) ∧ wire_string (Tversion_version m).

#[export] Instance Message_Tversion : Message Tversion :=
  { MSG_TYPE := TVERSION; decode := decode_Tversion; encode := encode_Tversion }.

#[export] Instance MessageLaws_Tversion : MessageLaws Tversion wf_Tversion.
Proof. message_tac Message_Tversion encode_Tversion decode_Tversion wf_Tversion. Qed.

(** ** Rversion *)

Record Rversion := mkRversion { Rversion_msize : Z; Rversion_version : string }.

Definition decode_Rversion : reader Rversion :=
  msize ← read_u32; version ← read_string; mret (mkRversion msize version).

Definition encode_Rversion (m : Rversion) : WireWriter → WireWriter :=
  write_u32 (Rversion_msize m) ▷ write_string (Rversion_version m).

Definition wf_Rversion (m : Rversion) : Prop :=
  in_u32 (Rversion_msize m) ∧ wire_string (Rversion_version m).

#[export] Instance Message_Rversion : Message Rversion :=
  { MSG_TYPE := RVERSION; decode := decode_Rversion; encode := encode_Rversion }.

#[export] Instance MessageLaws_Rversion : MessageLaws Rversion wf_Rversion.
Proof. message_tac Message_Rversion encode_Rversion decode_Rversion wf_Rversion. Qed.

(** ** Tauth *)

Record Tauth := mkTauth {
  Tauth_afid : Z;
  Tauth_uname : string;
  Tauth_aname : string;
  Tauth_n_uname : Z }.

Definition decode_Tauth : reader Tauth :=
  afid ← read_u32;
  uname ← read_string;
  aname ← read_string;
  n_uname ← read_u32;
  mret (mkTauth afid uname aname n_uname).

Definition encode_Tauth (m : Tauth) : WireWriter → WireWriter :=
  write_u32 (Tauth_afid m)
  ▷ write_string (Tauth_uname m)
  ▷ write_string (Tauth_aname m)
  ▷ write_u32 (Tauth_n_uname m).

Definition wf_Tauth (m : Tauth) : Prop :=
  in_u32 (Tauth_afid m) ∧
  wire_string (Tauth_uname m) ∧
  wire_string (Tauth_aname m) ∧
  in_u32 (Tauth_n_uname m).

#[export] Instance Message_Tauth : Message Tauth :=
  { MSG_TYPE := TAUTH; decode := decode_Tauth; encode := encode_Tauth }.

#[export] Instance MessageLaws_Tauth : MessageLaws Tauth wf_Tauth.
Proof. message_tac Message_Tauth encode_Tauth decode_Tauth wf_Tauth. Qed.

(** ** Rauth *)

Record Rauth := mkRauth { Rauth_aqid : Qid }.

Definition decode_Rauth : reader Rauth :=
  aqid ← read_qid; mret (mkRauth aqid).

Definition encode_Rauth (m : Rauth) : WireWriter → WireWriter :=
  write_qid (Rauth_aqid m).

Definition wf_Rauth (m : Rauth) : Prop :=
  qid_wf (Rauth_aqid m).

#[export] Instance Message_Rauth : Message Rauth :=
  { MSG_TYPE := RAUTH; decode := decode_Rauth; encode := encode_Rauth }.

#[export] Instance MessageLaws_Rauth : MessageLaws Rauth wf_Rauth.
Proof. message_tac Message_Rauth encode_Rauth decode_Rauth wf_Rauth. Qed.

(** ** Tattach *)

Record Tattach := mkTattach {
  Tattach_fid : Z;
  Tattach_afid : Z;
  Tattach_uname : string;
  Tattach_aname : string;
  Tattach_n_uname : Z }.

Definition decode_Tattach : reader Tattach :=
  fid ← read_u32;
  afid ← read_u32;
  uname ← read_string;
  aname ← read_string;
  n_uname ← read_u32;
  mret (mkTattach fid afid uname aname n_uname).

Definition encode_Tattach (m : Tattach) : WireWriter → WireWriter :=
  write_u32 (Tattach_fid m)
  ▷ write_u32 (Tattach_afid m)
  ▷ write_string (Tattach_uname m)
  ▷ write_string (Tattach_aname m)
  ▷ write_u32 (Tattach_n_uname m).

Definition wf_Tattach (m : Tattach) : Prop :=
  in_u32 (Tattach_fid m) ∧
  in_u32 (Tattach_afid m) ∧
  wire_string (Tattach_uname m) ∧
  wire_string (Tattach_aname m) ∧
  in_u32 (Tattach_n_uname m).

#[export] Instance Message_Tattach : Message Tattach :=
  { MSG_TYPE := TATTACH; decode := decode_Tattach; encode := encode_Tattach }.

#[export] Instance MessageLaws_Tattach : MessageLaws Tattach wf_Tattach.
Proof. message_tac Message_Tattach encode_Tattach decode_Tattach wf_Tattach. Qed.

(** ** Rattach *)

Record Rattach := mkRattach { Rattach_qid : Qid }.

Definition decode_Rattach : reader Rattach :=
  qid ← read_qid; mret (mkRattach qid).

Definition encode_Rattach (m : Rattach) : WireWriter → WireWriter :=
  write_qid (Rattach_qid m).

Definition wf_Rattach (m : Rattach) : Prop :=
  qid_wf (Rattach_qid m).

#[export] Instance Message_Rattach : Message Rattach :=
  { MSG_TYPE := RATTACH; decode := decode_Rattach; encode := encode_Rattach }.

#[export] Instance MessageLaws_Rattach : MessageLaws Rattach wf_Rattach.
Proof. message_tac Message_Rattach encode_Rattach decode_Rattach wf_Rattach. Qed.

(** ** Tflush *)

Record Tflush := mkTflush { Tflush_oldtag : Z }.

Definition decode_Tflush : reader Tflush :=
  oldtag ← read_u16; mret (mkTflush oldtag).

Definition encode_Tflush (m : Tflush) : WireWriter → WireWriter :=
  write_u16 (Tflush_oldtag m).

Definition wf_Tflush (m : Tflush) : Prop :=
  in_u16 (Tflush_oldtag m).

#[export] Instance Message_Tflush : Message Tflush :=
  { MSG_TYPE := TFLUSH; decode := decode_Tflush; encode := encode_Tflush }.

#[export] Instance MessageLaws_Tflush : MessageLaws Tflush wf_Tflush.
Proof. message_tac Message_Tflush encode_Tflush decode_Tflush wf_Tflush. Qed.

(** ** Rflush *)

Inductive Rflush := mkRflush.

Definition decode_Rflush : reader Rflush := mret mkRflush.

Definition encode_Rflush (m : Rflush) : WireWriter → WireWriter := id.

Definition wf_Rflush (m : Rflush) : Prop := True.

#[export] Instance Message_Rflush : Message Rflush :=
  { MSG_TYPE := RFLUSH; decode := decode_Rflush; encode := encode_Rflush }.

#[export] Instance MessageLaws_Rflush : MessageLaws Rflush wf_Rflush.
Proof. message_tac Message_Rflush encode_Rflush decode_Rflush wf_Rflush. Qed.

(** ** Twalk *)

Record Twalk := mkTwalk { Twalk_fid : Z; Twalk_newfid : Z; Twalk_wnames : list string }.

Definition decode_Twalk : reader Twalk :=
  fid ← read_u32;
  newfid ← read_u32;
  wnames ← read_strings;
  mret (mkTwalk fid newfid wnames).

Definition encode_Twalk (m : Twalk) : WireWriter → WireWriter :=
  write_u32 (Twalk_fid m) ▷ write_u32 (Twalk_newfid m) ▷ write_strings (Twalk_wnames m).

Definition wf_Twalk (m : Twalk) : Prop :=
  in_u32 (Twalk_fid m) ∧ in_u32 (Twalk_newfid m) ∧ strings_wf (Twalk_wnames m).

#[export] Instance Message_Twalk : Message Twalk :=
  { MSG_TYPE := TWALK; decode := decode_Twalk; encode := encode_Twalk }.

#[export] Instance MessageLaws_Twalk : MessageLaws Twalk wf_Twalk.
Proof. message_tac Message_Twalk encode_Twalk decode_Twalk wf_Twalk. Qed.

(** ** Rwalk *)

Record Rwalk := mkRwalk { Rwalk_wqids : list Qid }.

Definition decode_Rwalk : reader Rwalk :=
  wqids ← read_qids; mret (mkRwalk wqids).

Definition encode_Rwalk (m : Rwalk) : WireWriter → WireWriter :=
  write_qids (Rwalk_wqids m).

Definition wf_Rwalk (m : Rwalk) : Prop :=
  qids_wf (Rwalk_wqids m).

#[export] Instance Message_Rwalk : Message Rwalk :=
  { MSG_TYPE := RWALK; decode := decode_Rwalk; encode := encode_Rwalk }.

#[export] Instance MessageLaws_Rwalk : MessageLaws Rwalk wf_Rwalk.
Proof. message_tac Message_Rwalk encode_Rwalk decode_Rwalk wf_Rwalk. Qed.

(** ** Tread *)

Record Tread := mkTread { Tread_fid : Z; Tread_offset : Z; Tread_count : Z }.

Definition decode_Tread : reader Tread :=
  fid ← read_u32; offset ← read_u64; count ← read_u32; mret (mkTread fid offset count).

Definition encode_Tread (m : Tread) : WireWriter → WireWriter :=
  write_u32 (Tread_fid m) ▷ write_u64 (Tread_offset m) ▷ write_u32 (Tread_count m).

Definition wf_Tread (m : Tread) : Prop :=
  in_u32 (Tread_fid m) ∧ in_u64 (Tread_offset m) ∧ in_u32 (Tread_count m).

#[export] Instance Message_Tread : Message Tread :=
  { MSG_TYPE := TREAD; decode := decode_Tread; encode := encode_Tread }.

#[export] Instance MessageLaws_Tread : MessageLaws Tread wf_Tread.
Proof. message_tac Message_Tread encode_Tread decode_Tread wf_Tread. Qed.

(** ** Rread *)

Record Rread := mkRread { Rread_data : list Z }.

Definition decode_Rread : reader Rread :=
  data ← read_data; mret (mkRread data).

Definition encode_Rread (m : Rread) : WireWriter → WireWriter :=
  write_data (Rread_data m).

Definition wf_Rread (m : Rread) : Prop :=
  data_wf (Rread_data m).

#[export] Instance Message_Rread : Message Rread :=
  { MSG_TYPE := RREAD; decode := decode_Rread; encode := encode_Rread }.

#[export] Instance MessageLaws_Rread : MessageLaws Rread wf_Rread.
Proof. message_tac Message_Rread encode_Rread decode_Rread wf_Rread. Qed.

(** ** Twrite *)

Record Twrite := mkTwrite { Twrite_fid : Z; Twrite_offset : Z; Twrite_data : list Z }.

Definition decode_Twrite : reader Twrite :=
  fid ← read_u32; offset ← read_u64; data ← read_data; mret (mkTwrite fid offset data).

Definition encode_Twrite (m : Twrite) : WireWriter → WireWriter :=
  write_u32 (Twrite_fid m) ▷ write_u64 (Twrite_offset m) ▷ write_data (Twrite_data m).

Definition wf_Twrite (m : Twrite) : Prop :=
  in_u32 (Twrite_fid m) ∧ in_u64 (Twrite_offset m) ∧ data_wf (Twrite_data m).

#[export] Instance Message_Twrite : Message Twrite :=
  { MSG_TYPE := TWRITE; decode := decode_Twrite; encode := encode_Twrite }.

#[export] Instance MessageLaws_Twrite : MessageLaws Twrite wf_Twrite.
Proof. message_tac Message_Twrite encode_Twrite decode_Twrite wf_Twrite. Qed.

(** ** Rwrite *)

Record Rwrite := mkRwrite { Rwrite_count : Z }.

Definition decode_Rwrite : reader Rwrite :=
  count ← read_u32; mret (mkRwrite count).

Definition encode_Rwrite (m : Rwrite) : WireWriter → WireWriter :=
  write_u32 (Rwrite_count m).

Definition wf_Rwrite (m : Rwrite) : Prop :=
  in_u32 (Rwrite_count m).

#[export] Instance Message_Rwrite : Message Rwrite :=
  { MSG_TYPE := RWRITE; decode := decode_Rwrite; encode := encode_Rwrite }.

#[export] Instance MessageLaws_Rwrite : MessageLaws Rwrite wf_Rwrite.
Proof. message_tac Message_Rwrite encode_Rwrite decode_Rwrite wf_Rwrite. Qed.

(** ** Tclunk *)

Record Tclunk := mkTclunk { Tclunk_fid : Z }.

Definition decode_Tclunk : reader Tclunk :=
  fid ← read_u32; mret (mkTclunk fid).

Definition encode_Tclunk (m : Tclunk) : WireWriter → WireWriter :=
  write_u32 (Tclunk_fid m).

Definition wf_Tclunk (m : Tclunk) : Prop :=
  in_u32 (Tclunk_fid m).

#[export] Instance Message_Tclunk : Message Tclunk :=
  { MSG_TYPE := TCLUNK; decode := decode_Tclunk; encode := encode_Tclunk }.

#[export] Instance MessageLaws_Tclunk : MessageLaws Tclunk wf_Tclunk.
Proof. message_tac Message_Tclunk encode_Tclunk decode_Tclunk wf_Tclunk. Qed.

(** ** Rclunk *)

Inductive Rclunk := mkRclunk.

Definition decode_Rclunk : reader Rclunk := mret mkRclunk.

Definition encode_Rclunk (m : Rclunk) : WireWriter → WireWriter := id.

Definition wf_Rclunk (m : Rclunk) : Prop := True.

#[export] Instance Message_Rclunk : Message Rclunk :=
  { MSG_TYPE := RCLUNK; decode := decode_Rclunk; encode := encode_Rclunk }.

#[export] Instance MessageLaws_Rclunk : MessageLaws Rclunk wf_Rclunk.
Proof. message_tac Message_Rclunk encode_Rclunk decode_Rclunk wf_Rclunk. Qed.

(** ** Tremove *)

Record Tremove := mkTremove { Tremove_fid : Z }.

Definition decode_Tremove : reader Tremove :=
  fid ← read_u32; mret (mkTremove fid).

Definition encode_Tremove (m : Tremove) : WireWriter → WireWriter :=
  write_u32 (Tremove_fid m).

Definition wf_Tremove (m : Tremove) : Prop :=
  in_u32 (Tremove_fid m).

#[export] Instance Message_Tremove : Message Tremove :=
  { MSG_TYPE := TREMOVE; decode := decode_Tremove; encode := encode_Tremove }.

#[export] Instance MessageLaws_Tremove : MessageLaws Tremove wf_Tremove.
Proof. message_tac Message_Tremove encode_Tremove decode_Tremove wf_Tremove. Qed.

(** ** Rremove *)

Inductive Rremove := mkRremove.

Definition decode_Rremove : reader Rremove := mret mkRremove.

Definition encode_Rremove (m : Rremove) : WireWriter → WireWriter := id.

Definition wf_Rremove (m : Rremove) : Prop := True.

#[export] Instance Message_Rremove : Message Rremove :=
  { MSG_TYPE := RREMOVE; decode := decode_Rremove; encode := encode_Rremove }.

#[export] Instance MessageLaws_Rremove : MessageLaws Rremove wf_Rremove.
Proof. message_tac Message_Rremove encode_Rremove decode_Rremove wf_Rremove. Qed.

(** ** Tstatfs *)

Record Tstatfs := mkTstatfs { Tstatfs_fid : Z }.

Definition decode_Tstatfs : reader Tstatfs :=
  fid ← read_u32; mret (mkTstatfs fid).

Definition encode_Tstatfs (m : Tstatfs) : WireWriter → WireWriter :=
  write_u32 (Tstatfs_fid m).

Definition wf_Tstatfs (m : Tstatfs) : Prop :=
  in_u32 (Tstatfs_fid m).

#[export] Instance Message_Tstatfs : Message Tstatfs :=
  { MSG_TYPE := TSTATFS; decode := decode_Tstatfs; encode := encode_Tstatfs }.

#[export] Instance MessageLaws_Tstatfs : MessageLaws Tstatfs wf_Tstatfs.
Proof. message_tac Message_Tstatfs encode_Tstatfs decode_Tstatfs wf_Tstatfs. Qed.

(** ** Rstatfs *)

Record Rstatfs := mkRstatfs {
  Rstatfs_fs_type : Z;
  Rstatfs_bsize : Z;
  Rstatfs_blocks : Z;
  Rstatfs_bfree : Z;
  Rstatfs_bavail : Z;
  Rstatfs_files : Z;
  Rstatfs_ffree : Z;
  Rstatfs_fsid : Z;
  Rstatfs_namelen : Z }.

Definition decode_Rstatfs : reader Rstatfs :=
  fs_type ← read_u32;
  bsize ← read_u32;
  blocks ← read_u64;
  bfree ← read_u64;
  bavail ← read_u64;
  files ← read_u64;
  ffree ← read_u64;
  fsid ← read_u64;
  namelen ← read_u32;
  mret (mkRstatfs fs_type bsize blocks bfree bavail files ffree fsid namelen).

Definition encode_Rstatfs (m : Rstatfs) : WireWriter → WireWriter :=
  write_u32 (Rstatfs_fs_type m)
  ▷ write_u32 (Rstatfs_bsize m)
  ▷ write_u64 (Rstatfs_blocks m)
  ▷ write_u64 (Rstatfs_bfree m)
  ▷ write_u64 (Rstatfs_bavail m)
  ▷ write_u64 (Rstatfs_files m)
  ▷ write_u64 (Rstatfs_ffree m)
  ▷ write_u64 (Rstatfs_fsid m)
  ▷ write_u32 (Rstatfs_namelen m).

Definition wf_Rstatfs (m : Rstatfs) : Prop :=
  in_u32 (Rstatfs_fs_type m) ∧
  in_u32 (Rstatfs_bsize m) ∧
  in_u64 (Rstatfs_blocks m) ∧
  in_u64 (Rstatfs_bfree m) ∧
  in_u64 (Rstatfs_bavail m) ∧
  in_u64 (Rstatfs_files m) ∧
  in_u64 (Rstatfs_ffree m) ∧
  in_u64 (Rstatfs_fsid m) ∧
  in_u32 (Rstatfs_namelen m).

#[export] Instance Message_Rstatfs : Message Rstatfs :=
  { MSG_TYPE := RSTATFS; decode := decode_Rstatfs; encode := encode_Rstatfs }.

#[export] Instance MessageLaws_Rstatfs : MessageLaws Rstatfs wf_Rstatfs.
Proof. message_tac Message_Rstatfs encode_Rstatfs decode_Rstatfs wf_Rstatfs. Qed.

(** ** Tlopen *)

Record Tlopen := mkTlopen { Tlopen_fid : Z; Tlopen_flags : Z }.

Definition decode_Tlopen : reader Tlopen :=
  fid ← read_u32; flags ← read_u32; mret (mkTlopen fid flags).

Definition encode_Tlopen (m : Tlopen) : WireWriter → WireWriter :=
  write_u32 (Tlopen_fid m) ▷ write_u32 (Tlopen_flags m).

Definition wf_Tlopen (m : Tlopen) : Prop :=
  in_u32 (Tlopen_fid m) ∧ in_u32 (Tlopen_flags m).

#[export] Instance Message_Tlopen : Message Tlopen :=
  { MSG_TYPE := TLOPEN; decode := decode_Tlopen; encode := encode_Tlopen }.

#[export] Instance MessageLaws_Tlopen : MessageLaws Tlopen wf_Tlopen.
Proof. message_tac Message_Tlopen encode_Tlopen decode_Tlopen wf_Tlopen. Qed.

(** ** Rlopen *)

Record Rlopen := mkRlopen { Rlopen_qid : Qid; Rlopen_iounit : Z }.

Definition decode_Rlopen : reader Rlopen :=
  qid ← read_qid; iounit ← read_u32; mret (mkRlopen qid iounit).

Definition encode_Rlopen (m : Rlopen) : WireWriter → WireWriter :=
  write_qid (Rlopen_qid m) ▷ write_u32 (Rlopen_iounit m).

Definition wf_Rlopen (m : Rlopen) : Prop :=
  qid_wf (Rlopen_qid m) ∧ in_u32 (Rlopen_iounit m).

#[export] Instance Message_Rlopen : Message Rlopen :=
  { MSG_TYPE := RLOPEN; decode := decode_Rlopen; encode := encode_Rlopen }.

#[export] Instance MessageLaws_Rlopen : MessageLaws Rlopen wf_Rlopen.
Proof. message_tac Message_Rlopen encode_Rlopen decode_Rlopen wf_Rlopen. Qed.

(** ** Tlcreate *)

Record Tlcreate := mkTlcreate {
  Tlcreate_fid : Z;
  Tlcreate_name : string;
  Tlcreate_flags : Z;
  Tlcreate_mode : Z;
  Tlcreate_gid : Z }.

Definition decode_Tlcreate : reader Tlcreate :=
  fid ← read_u32;
  name ← read_string;
  flags ← read_u32;
  mode ← read_u32;
  gid ← read_u32;
  mret (mkTlcreate fid name flags mode gid).

Definition encode_Tlcreate (m : Tlcreate) : WireWriter → WireWriter :=
  write_u32 (Tlcreate_fid m)
  ▷ write_string (Tlcreate_name m)
  ▷ write_u32 (Tlcreate_flags m)
  ▷ write_u32 (Tlcreate_mode m)
  ▷ write_u32 (Tlcreate_gid m).

Definition wf_Tlcreate (m : Tlcreate) : Prop :=
  in_u32 (Tlcreate_fid m) ∧
  wire_string (Tlcreate_name m) ∧
  in_u32 (Tlcreate_flags m) ∧
  in_u32 (Tlcreate_mode m) ∧
  in_u32 (Tlcreate_gid m).

#[export] Instance Message_Tlcreate : Message Tlcreate :=
  { MSG_TYPE := TLCREATE; decode := decode_Tlcreate; encode := encode_Tlcreate }.

#[export] Instance MessageLaws_Tlcreate : MessageLaws Tlcreate wf_Tlcreate.
Proof. message_tac Message_Tlcreate encode_Tlcreate decode_Tlcreate wf_Tlcreate. Qed.

(** ** Rlcreate *)

Record Rlcreate := mkRlcreate { Rlcreate_qid : Qid; Rlcreate_iounit : Z }.

Definition decode_Rlcreate : reader Rlcreate :=
  qid ← read_qid; iounit ← read_u32; mret (mkRlcreate qid iounit).

Definition encode_Rlcreate (m : Rlcreate) : WireWriter → WireWriter :=
  write_qid (Rlcreate_qid m) ▷ write_u32 (Rlcreate_iounit m).

Definition wf_Rlcreate (m : Rlcreate) : Prop :=
  qid_wf (Rlcreate_qid m) ∧ in_u32 (Rlcreate_iounit m).

#[export] Instance Message_Rlcreate : Message Rlcreate :=
  { MSG_TYPE := RLCREATE; decode := decode_Rlcreate; encode := encode_Rlcreate }.

#[export] Instance MessageLaws_Rlcreate : MessageLaws Rlcreate wf_Rlcreate.
Proof. message_tac Message_Rlcreate encode_Rlcreate decode_Rlcreate wf_Rlcreate. Qed.

(** ** Tsymlink *)

Record Tsymlink := mkTsymlink {
  Tsymlink_fid : Z;
  Tsymlink_name : string;
  Tsymlink_symtgt : string;
  Tsymlink_gid : Z }.

Definition decode_Tsymlink : reader Tsymlink :=
  fid ← read_u32;
  name ← read_string;
  symtgt ← read_string;
  gid ← read_u32;
  mret (mkTsymlink fid name symtgt gid).

Definition encode_Tsymlink (m : Tsymlink) : WireWriter → WireWriter :=
  write_u32 (Tsymlink_fid m)
  ▷ write_string (Tsymlink_name m)
  ▷ write_string (Tsymlink_symtgt m)
  ▷ write_u32 (Tsymlink_gid m).

Definition wf_Tsymlink (m : Tsymlink) : Prop :=
  in_u32 (Tsymlink_fid m) ∧
  wire_string (Tsymlink_name m) ∧
  wire_string (Tsymlink_symtgt m) ∧
  in_u32 (Tsymlink_gid m).

#[export] Instance Message_Tsymlink : Message Tsymlink :=
  { MSG_TYPE := TSYMLINK; decode := decode_Tsymlink; encode := encode_Tsymlink }.

#[export] Instance MessageLaws_Tsymlink : MessageLaws Tsymlink wf_Tsymlink.
Proof. message_tac Message_Tsymlink encode_Tsymlink decode_Tsymlink wf_Tsymlink. Qed.

(** ** Rsymlink *)

Record Rsymlink := mkRsymlink { Rsymlink_qid : Qid }.

Definition decode_Rsymlink : reader Rsymlink :=
  qid ← read_qid; mret (mkRsymlink qid).

Definition encode_Rsymlink (m : Rsymlink) : WireWriter → WireWriter :=
  write_qid (Rsymlink_qid m).

Definition wf_Rsymlink (m : Rsymlink) : Prop :=
  qid_wf (Rsymlink_qid m).

#[export] Instance Message_Rsymlink : Message Rsymlink :=
  { MSG_TYPE := RSYMLINK; decode := decode_Rsymlink; encode := encode_Rsymlink }.

#[export] Instance MessageLaws_Rsymlink : MessageLaws Rsymlink wf_Rsymlink.
Proof. message_tac Message_Rsymlink encode_Rsymlink decode_Rsymlink wf_Rsymlink. Qed.

(** ** Tmknod *)

Record Tmknod := mkTmknod {
  Tmknod_dfid : Z;
  Tmknod_name : string;
  Tmknod_mode : Z;
  Tmknod_major : Z;
  Tmknod_minor : Z;
  Tmknod_gid : Z }.

Definition decode_Tmknod : reader Tmknod :=
  dfid ← read_u32;
  name ← read_string;
  mode ← read_u32;
  major ← read_u32;
  minor ← read_u32;
  gid ← read_u32;
  mret (mkTmknod dfid name mode major minor gid).

Definition encode_Tmknod (m : Tmknod) : WireWriter → WireWriter :=
  write_u32 (Tmknod_dfid m)
  ▷ write_string (Tmknod_name m)
  ▷ write_u32 (Tmknod_mode m)
  ▷ write_u32 (Tmknod_major m)
  ▷ write_u32 (Tmknod_minor m)
  ▷ write_u32 (Tmknod_gid m).

Definition wf_Tmknod (m : Tmknod) : Prop :=
  in_u32 (Tmknod_dfid m) ∧
  wire_string (Tmknod_name m) ∧
  in_u32 (Tmknod_mode m) ∧
  in_u32 (Tmknod_major m) ∧
  in_u32 (Tmknod_minor m) ∧
  in_u32 (Tmknod_gid m).

#[export] Instance Message_Tmknod : Message Tmknod :=
  { MSG_TYPE := TMKNOD; decode := decode_Tmknod; encode := encode_Tmknod }.

#[export] Instance MessageLaws_Tmknod : MessageLaws Tmknod wf_Tmknod.
Proof. message_tac Message_Tmknod encode_Tmknod decode_Tmknod wf_Tmknod. Qed.

(** ** Rmknod *)

Record Rmknod := mkRmknod { Rmknod_qid : Qid }.

Definition decode_Rmknod : reader Rmknod :=
  qid ← read_qid; mret (mkRmknod qid).

Definition encode_Rmknod (m : Rmknod) : WireWriter → WireWriter :=
  write_qid (Rmknod_qid m).

Definition wf_Rmknod (m : Rmknod) : Prop :=
  qid_wf (Rmknod_qid m).

#[export] Instance Message_Rmknod : Message Rmknod :=
  { MSG_TYPE := RMKNOD; decode := decode_Rmknod; encode := encode_Rmknod }.

#[export] Instance MessageLaws_Rmknod : MessageLaws Rmknod wf_Rmknod.
Proof. message_tac Message_Rmknod encode_Rmknod decode_Rmknod wf_Rmknod. Qed.

(** ** Trename *)

Record Trename := mkTrename { Trename_fid : Z; Trename_dfid : Z; Trename_name : string }.

Definition decode_Trename : reader Trename :=
  fid ← read_u32; dfid ← read_u32; name ← read_string; mret (mkTrename fid dfid name).

Definition encode_Trename (m : Trename) : WireWriter → WireWriter :=
  write_u32 (Trename_fid m)
  ▷ write_u32 (Trename_dfid m)
  ▷ write_string (Trename_name m).

Definition wf_Trename (m : Trename) : Prop :=
  in_u32 (Trename_fid m) ∧ in_u32 (Trename_dfid m) ∧ wire_string (Trename_name m).

#[export] Instance Message_Trename : Message Trename :=
  { MSG_TYPE := TRENAME; decode := decode_Trename; encode := encode_Trename }.

#[export] Instance MessageLaws_Trename : MessageLaws Trename wf_Trename.
Proof. message_tac Message_Trename encode_Trename decode_Trename wf_Trename. Qed.

(** ** Rrename *)

Inductive Rrename := mkRrename.

Definition decode_Rrename : reader Rrename := mret mkRrename.

Definition encode_Rrename (m : Rrename) : WireWriter → WireWriter := id.

Definition wf_Rrename (m : Rrename) : Prop := True.

#[export] Instance Message_Rrename : Message Rrename :=
  { MSG_TYPE := RRENAME; decode := decode_Rrename; encode := encode_Rrename }.

#[export] Instance MessageLaws_Rrename : MessageLaws Rrename wf_Rrename.
Proof. message_tac Message_Rrename encode_Rrename decode_Rrename wf_Rrename. Qed.

(** ** Treadlink *)

Record Treadlink := mkTreadlink { Treadlink_fid : Z }.

Definition decode_Treadlink : reader Treadlink :=
  fid ← read_u32; mret (mkTreadlink fid).

Definition encode_Treadlink (m : Treadlink) : WireWriter → WireWriter :=
  write_u32 (Treadlink_fid m).

Definition wf_Treadlink (m : Treadlink) : Prop :=
  in_u32 (Treadlink_fid m).

#[export] Instance Message_Treadlink : Message Treadlink :=
  { MSG_TYPE := TREADLINK; decode := decode_Treadlink; encode := encode_Treadlink }.

#[export] Instance MessageLaws_Treadlink : MessageLaws Treadlink wf_Treadlink.
Proof. message_tac Message_Treadlink encode_Treadlink decode_Treadlink wf_Treadlink. Qed.

(** ** Rreadlink *)

Record Rreadlink := mkRreadlink { Rreadlink_target : string }.

Definition decode_Rreadlink : reader Rreadlink :=
  target ← read_string; mret (mkRreadlink target).

Definition encode_Rreadlink (m : Rreadlink) : WireWriter → WireWriter :=
  write_string (Rreadlink_target m).

Definition wf_Rreadlink (m : Rreadlink) : Prop :=
  wire_string (Rreadlink_target m).

#[export] Instance Message_Rreadlink : Message Rreadlink :=
  { MSG_TYPE := RREADLINK; decode := decode_Rreadlink; encode := encode_Rreadlink }.

#[export] Instance MessageLaws_Rreadlink : MessageLaws Rreadlink wf_Rreadlink.
Proof. message_tac Message_Rreadlink encode_Rreadlink decode_Rreadlink wf_Rreadlink. Qed.

(** ** Tgetattr *)

Record Tgetattr := mkTgetattr { Tgetattr_fid : Z; Tgetattr_request_mask : Z }.

Definition decode_Tgetattr : reader Tgetattr :=
  fid ← read_u32; request_mask ← read_u64; mret (mkTgetattr fid request_mask).

Definition encode_Tgetattr (m : Tgetattr) : WireWriter → WireWriter :=
  write_u32 (Tgetattr_fid m) ▷ write_u64 (Tgetattr_request_mask m).

Definition wf_Tgetattr (m : Tgetattr) : Prop :=
  in_u32 (Tgetattr_fid m) ∧ in_u64 (Tgetattr_request_mask m).

#[export] Instance Message_Tgetattr : Message Tgetattr :=
  { MSG_TYPE := TGETATTR; decode := decode_Tgetattr; encode := encode_Tgetattr }.

#[export] Instance MessageLaws_Tgetattr : MessageLaws Tgetattr wf_Tgetattr.
Proof. message_tac Message_Tgetattr encode_Tgetattr decode_Tgetattr wf_Tgetattr. Qed.

(** ** Rgetattr *)

Record Rgetattr := mkRgetattr {
  Rgetattr_valid : Z;
  Rgetattr_qid : Qid;
  Rgetattr_mode : Z;
  Rgetattr_uid : Z;
  Rgetattr_gid : Z;
  Rgetattr_nlink : Z;
  Rgetattr_rdev : Z;
  Rgetattr_size : Z;
  Rgetattr_blksize : Z;
  Rgetattr_blocks : Z;
  Rgetattr_atime_sec : Z;
  Rgetattr_atime_nsec : Z;
  Rgetattr_mtime_sec : Z;
  Rgetattr_mtime_nsec : Z;
  Rgetattr_ctime_sec : Z;
  Rgetattr_ctime_nsec : Z;
  Rgetattr_btime_sec : Z;
  Rgetattr_btime_nsec : Z;
  Rgetattr_generation : Z;
  Rgetattr_data_version : Z }.

Definition decode_Rgetattr : reader Rgetattr :=
  valid ← read_u64;
  qid ← read_qid;
  mode ← read_u32;
  uid ← read_u32;
  gid ← read_u32;
  nlink ← read_u64;
  rdev ← read_u64;
  size ← read_u64;
  blksize ← read_u64;
  blocks ← read_u64;
  atime_sec ← read_u64;
  atime_nsec ← read_u64;
  mtime_sec ← read_u64;
  mtime_nsec ← read_u64;
  ctime_sec ← read_u64;
  ctime_nsec ← read_u64;
  btime_sec ← read_u64;
  btime_nsec ← read_u64;
  generation ← read_u64;
  data_version ← read_u64;
  mret (mkRgetattr valid qid mode uid gid nlink rdev size blksize blocks atime_sec atime_nsec mtime_sec mtime_nsec ctime_sec ctime_nsec btime_sec btime_nsec generation data_version).

Definition encode_Rgetattr (m : Rgetattr) : WireWriter → WireWriter :=
  write_u64 (Rgetattr_valid m)
  ▷ write_qid (Rgetattr_qid m)
  ▷ write_u32 (Rgetattr_mode m)
  ▷ write_u32 (Rgetattr_uid m)
  ▷ write_u32 (Rgetattr_gid m)
  ▷ write_u64 (Rgetattr_nlink m)
  ▷ write_u64 (Rgetattr_rdev m)
  ▷ write_u64 (Rgetattr_size m)
  ▷ write_u64 (Rgetattr_blksize m)
  ▷ write_u64 (Rgetattr_blocks m)
  ▷ write_u64 (Rgetattr_atime_sec m)
  ▷ write_u64 (Rgetattr_atime_nsec m)
  ▷ write_u64 (Rgetattr_mtime_sec m)
  ▷ write_u64 (Rgetattr_mtime_nsec m)
  ▷ write_u64 (Rgetattr_ctime_sec m)
  ▷ write_u64 (Rgetattr_ctime_nsec m)
  ▷ write_u64 (Rgetattr_btime_sec m)
  ▷ write_u64 (Rgetattr_btime_nsec m)
  ▷ write_u64 (Rgetattr_generation m)
  ▷ write_u64 (Rgetattr_data_version m).

Definition wf_Rgetattr (m : Rgetattr) : Prop :=
  in_u64 (Rgetattr_valid m) ∧
  qid_wf (Rgetattr_qid m) ∧
  in_u32 (Rgetattr_mode m) ∧
  in_u32 (Rgetattr_uid m) ∧
  in_u32 (Rgetattr_gid m) ∧
  in_u64 (Rgetattr_nlink m) ∧
  in_u64 (Rgetattr_rdev m) ∧
  in_u64 (Rgetattr_size m) ∧
  in_u64 (Rgetattr_blksize m) ∧
  in_u64 (Rgetattr_blocks m) ∧
  in_u64 (Rgetattr_atime_sec m) ∧
  in_u64 (Rgetattr_atime_nsec m) ∧
  in_u64 (Rgetattr_mtime_sec m) ∧
  in_u64 (Rgetattr_mtime_nsec m) ∧
  in_u64 (Rgetattr_ctime_sec m) ∧
  in_u64 (Rgetattr_ctime_nsec m) ∧
  in_u64 (Rgetattr_btime_sec m) ∧
  in_u64 (Rgetattr_btime_nsec m) ∧
  in_u64 (Rgetattr_generation m) ∧
  in_u64 (Rgetattr_data_version m).

#[export] Instance Message_Rgetattr : Message Rgetattr :=
  { MSG_TYPE := RGETATTR; decode := decode_Rgetattr; encode := encode_Rgetattr }.

#[export] Instance MessageLaws_Rgetattr : MessageLaws Rgetattr wf_Rgetattr.
Proof. message_tac Message_Rgetattr encode_Rgetattr decode_Rgetattr wf_Rgetattr. Qed.

(** ** Tsetattr *)

Record Tsetattr := mkTsetattr {
  Tsetattr_fid : Z;
  Tsetattr_valid : Z;
  Tsetattr_mode : Z;
  Tsetattr_uid : Z;
  Tsetattr_gid : Z;
  Tsetattr_size : Z;
  Tsetattr_atime_sec : Z;
  Tsetattr_atime_nsec : Z;
  Tsetattr_mtime_sec : Z;
  Tsetattr_mtime_nsec : Z }.

Definition decode_Tsetattr : reader Tsetattr :=
  fid ← read_u32;
  valid ← read_u32;
  mode ← read_u32;
  uid ← read_u32;
  gid ← read_u32;
  size ← read_u64;
  atime_sec ← read_u64;
  atime_nsec ← read_u64;
  mtime_sec ← read_u64;
  mtime_nsec ← read_u64;
  mret (mkTsetattr fid valid mode uid gid size atime_sec atime_nsec mtime_sec mtime_nsec).

Definition encode_Tsetattr (m : Tsetattr) : WireWriter → WireWriter :=
  write_u32 (Tsetattr_fid m)
  ▷ write_u32 (Tsetattr_valid m)
  ▷ write_u32 (Tsetattr_mode m)
  ▷ write_u32 (Tsetattr_uid m)
  ▷ write_u32 (Tsetattr_gid m)
  ▷ write_u64 (Tsetattr_size m)
  ▷ write_u64 (Tsetattr_atime_sec m)
  ▷ write_u64 (Tsetattr_atime_nsec m)
  ▷ write_u64 (Tsetattr_mtime_sec m)
  ▷ write_u64 (Tsetattr_mtime_nsec m).

Definition wf_Tsetattr (m : Tsetattr) : Prop :=
  in_u32 (Tsetattr_fid m) ∧
  in_u32 (Tsetattr_valid m) ∧
  in_u32 (Tsetattr_mode m) ∧
  in_u32 (Tsetattr_uid m) ∧
  in_u32 (Tsetattr_gid m) ∧
  in_u64 (Tsetattr_size m) ∧
  in_u64 (Tsetattr_atime_sec m) ∧
  in_u64 (Tsetattr_atime_nsec m) ∧
  in_u64 (Tsetattr_mtime_sec m) ∧
  in_u64 (Tsetattr_mtime_nsec m).

#[export] Instance Message_Tsetattr : Message Tsetattr :=
  { MSG_TYPE := TSETATTR; decode := decode_Tsetattr; encode := encode_Tsetattr }.

#[export] Instance MessageLaws_Tsetattr : MessageLaws Tsetattr wf_Tsetattr.
Proof. message_tac Message_Tsetattr encode_Tsetattr decode_Tsetattr wf_Tsetattr. Qed.

(** ** Rsetattr *)

Inductive Rsetattr := mkRsetattr.

Definition decode_Rsetattr : reader Rsetattr := mret mkRsetattr.

Definition encode_Rsetattr (m : Rsetattr) : WireWriter → WireWriter := id.

Definition wf_Rsetattr (m : Rsetattr) : Prop := True.

#[export] Instance Message_Rsetattr : Message Rsetattr :=
  { MSG_TYPE := RSETATTR; decode := decode_Rsetattr; encode := encode_Rsetattr }.

#[export] Instance MessageLaws_Rsetattr : MessageLaws Rsetattr wf_Rsetattr.
Proof. message_tac Message_Rsetattr encode_Rsetattr decode_Rsetattr wf_Rsetattr. Qed.

(** ** Txattrwalk *)

Record Txattrwalk := mkTxattrwalk { Txattrwalk_fid : Z; Txattrwalk_newfid : Z; Txattrwalk_name : string }.

Definition decode_Txattrwalk : reader Txattrwalk :=
  fid ← read_u32; newfid ← read_u32; name ← read_string; mret (mkTxattrwalk fid newfid name).

Definition encode_Txattrwalk (m : Txattrwalk) : WireWriter → WireWriter :=
  write_u32 (Txattrwalk_fid m)
  ▷ write_u32 (Txattrwalk_newfid m)
  ▷ write_string (Txattrwalk_name m).

Definition wf_Txattrwalk (m : Txattrwalk) : Prop :=
  in_u32 (Txattrwalk_fid m) ∧
  in_u32 (Txattrwalk_newfid m) ∧
  wire_string (Txattrwalk_name m).

#[export] Instance Message_Txattrwalk : Message Txattrwalk :=
  { MSG_TYPE := TXATTRWALK; decode := decode_Txattrwalk; encode := encode_Txattrwalk }.

#[export] Instance MessageLaws_Txattrwalk : MessageLaws Txattrwalk wf_Txattrwalk.
Proof. message_tac Message_Txattrwalk encode_Txattrwalk decode_Txattrwalk wf_Txattrwalk. Qed.

(** ** Rxattrwalk *)

Record Rxattrwalk := mkRxattrwalk { Rxattrwalk_size : Z }.

Definition decode_Rxattrwalk : reader Rxattrwalk :=
  size ← read_u64; mret (mkRxattrwalk size).

Definition encode_Rxattrwalk (m : Rxattrwalk) : WireWriter → WireWriter :=
  write_u64 (Rxattrwalk_size m).

Definition wf_Rxattrwalk (m : Rxattrwalk) : Prop :=
  in_u64 (Rxattrwalk_size m).

#[export] Instance Message_Rxattrwalk : Message Rxattrwalk :=
  { MSG_TYPE := RXATTRWALK; decode := decode_Rxattrwalk; encode := encode_Rxattrwalk }.

#[export] Instance MessageLaws_Rxattrwalk : MessageLaws Rxattrwalk wf_Rxattrwalk.
Proof. message_tac Message_Rxattrwalk encode_Rxattrwalk decode_Rxattrwalk wf_Rxattrwalk. Qed.

(** ** Txattrcreate *)

Record Txattrcreate := mkTxattrcreate {
  Txattrcreate_fid : Z;
  Txattrcreate_name : string;
  Txattrcreate_attr_size : Z;
  Txattrcreate_flags : Z }.

Definition decode_Txattrcreate : reader Txattrcreate :=
  fid ← read_u32;
  name ← read_string;
  attr_size ← read_u64;
  flags ← read_u32;
  mret (mkTxattrcreate fid name attr_size flags).

Definition encode_Txattrcreate (m : Txattrcreate) : WireWriter → WireWriter :=
  write_u32 (Txattrcreate_fid m)
  ▷ write_string (Txattrcreate_name m)
  ▷ write_u64 (Txattrcreate_attr_size m)
  ▷ write_u32 (Txattrcreate_flags m).

Definition wf_Txattrcreate (m : Txattrcreate) : Prop :=
  in_u32 (Txattrcreate_fid m) ∧
  wire_string (Txattrcreate_name m) ∧
  in_u64 (Txattrcreate_attr_size m) ∧
  in_u32 (Txattrcreate_flags m).

#[export] Instance Message_Txattrcreate : Message Txattrcreate :=
  { MSG_TYPE := TXATTRCREATE; decode := decode_Txattrcreate; encode := encode_Txattrcreate }.

#[export] Instance MessageLaws_Txattrcreate : MessageLaws Txattrcreate wf_Txattrcreate.
Proof. message_tac Message_Txattrcreate encode_Txattrcreate decode_Txattrcreate wf_Txattrcreate. Qed.

(** ** Rxattrcreate *)

Inductive Rxattrcreate := mkRxattrcreate.

Definition decode_Rxattrcreate : reader Rxattrcreate := mret mkRxattrcreate.

Definition encode_Rxattrcreate (m : Rxattrcreate) : WireWriter → WireWriter := id.

Definition wf_Rxattrcreate (m : Rxattrcreate) : Prop := True.

#[export] Instance Message_Rxattrcreate : Message Rxattrcreate :=
  { MSG_TYPE := RXATTRCREATE; decode := decode_Rxattrcreate; encode := encode_Rxattrcreate }.

#[export] Instance MessageLaws_Rxattrcreate : MessageLaws Rxattrcreate wf_Rxattrcreate.
Proof. message_tac Message_Rxattrcreate encode_Rxattrcreate decode_Rxattrcreate wf_Rxattrcreate. Qed.

(** ** Treaddir *)

Record Treaddir := mkTreaddir { Treaddir_fid : Z; Treaddir_offset : Z; Treaddir_count : Z }.

Definition decode_Treaddir : reader Treaddir :=
  fid ← read_u32; offset ← read_u64; count ← read_u32; mret (mkTreaddir fid offset count).

Definition encode_Treaddir (m : Treaddir) : WireWriter → WireWriter :=
  write_u32 (Treaddir_fid m)
  ▷ write_u64 (Treaddir_offset m)
  ▷ write_u32 (Treaddir_count m).

Definition wf_Treaddir (m : Treaddir) : Prop :=
  in_u32 (Treaddir_fid m) ∧ in_u64 (Treaddir_offset m) ∧ in_u32 (Treaddir_count m).

#[export] Instance Message_Treaddir : Message Treaddir :=
  { MSG_TYPE := TREADDIR; decode := decode_Treaddir; encode := encode_Treaddir }.

#[export] Instance MessageLaws_Treaddir : MessageLaws Treaddir wf_Treaddir.
Proof. message_tac Message_Treaddir encode_Treaddir decode_Treaddir wf_Treaddir. Qed.

(** ** Rreaddir *)

Record Rreaddir := mkRreaddir { Rreaddir_data : list Z }.

Definition decode_Rreaddir : reader Rreaddir :=
  data ← read_data; mret (mkRreaddir data).

Definition encode_Rreaddir (m : Rreaddir) : WireWriter → WireWriter :=
  write_data (Rreaddir_data m).

Definition wf_Rreaddir (m : Rreaddir) : Prop :=
  data_wf (Rreaddir_data m).

#[export] Instance Message_Rreaddir : Message Rreaddir :=
  { MSG_TYPE := RREADDIR; decode := decode_Rreaddir; encode := encode_Rreaddir }.

#[export] Instance MessageLaws_Rreaddir : MessageLaws Rreaddir wf_Rreaddir.
Proof. message_tac Message_Rreaddir encode_Rreaddir decode_Rreaddir wf_Rreaddir. Qed.

(** ** Tfsync *)

Record Tfsync := mkTfsync { Tfsync_fid : Z }.

Definition decode_Tfsync : reader Tfsync :=
  fid ← read_u32; mret (mkTfsync fid).

Definition encode_Tfsync (m : Tfsync) : WireWriter → WireWriter :=
  write_u32 (Tfsync_fid m).

Definition wf_Tfsync (m : Tfsync) : Prop :=
  in_u32 (Tfsync_fid m).

#[export] Instance Message_Tfsync : Message Tfsync :=
  { MSG_TYPE := TFSYNC; decode := decode_Tfsync; encode := encode_Tfsync }.

#[export] Instance MessageLaws_Tfsync : MessageLaws Tfsync wf_Tfsync.
Proof. message_tac Message_Tfsync encode_Tfsync decode_Tfsync wf_Tfsync. Qed.

(** ** Rfsync *)

Inductive Rfsync := mkRfsync.

Definition decode_Rfsync : reader Rfsync := mret mkRfsync.

Definition encode_Rfsync (m : Rfsync) : WireWriter → WireWriter := id.

Definition wf_Rfsync (m : Rfsync) : Prop := True.

#[export] Instance Message_Rfsync : Message Rfsync :=
  { MSG_TYPE := RFSYNC; decode := decode_Rfsync; encode := encode_Rfsync }.

#[export] Instance MessageLaws_Rfsync : MessageLaws Rfsync wf_Rfsync.
Proof. message_tac Message_Rfsync encode_Rfsync decode_Rfsync wf_Rfsync. Qed.

(** ** Tlock *)

Record Tlock := mkTlock {
  Tlock_fid : Z;
  Tlock_lock_type : Z;
  Tlock_flags : Z;
  Tlock_start : Z;
  Tlock_length : Z;
  Tlock_proc_id : Z;
  Tlock_client_id : string }.

Definition decode_Tlock : reader Tlock :=
  fid ← read_u32;
  lock_type ← read_u8;
  flags ← read_u32;
  start ← read_u64;
  length ← read_u64;
  proc_id ← read_u32;
  client_id ← read_string;
  mret (mkTlock fid lock_type flags start length proc_id client_id).

Definition encode_Tlock (m : Tlock) : WireWriter → WireWriter :=
  write_u32 (Tlock_fid m)
  ▷ write_u8 (Tlock_lock_type m)
  ▷ write_u32 (Tlock_flags m)
  ▷ write_u64 (Tlock_start m)
  ▷ write_u64 (Tlock_length m)
  ▷ write_u32 (Tlock_proc_id m)
  ▷ write_string (Tlock_client_id m).

Definition wf_Tlock (m : Tlock) : Prop :=
  in_u32 (Tlock_fid m) ∧
  in_u8 (Tlock_lock_type m) ∧
  in_u32 (Tlock_flags m) ∧
  in_u64 (Tlock_start m) ∧
  in_u64 (Tlock_length m) ∧
  in_u32 (Tlock_proc_id m) ∧
  wire_string (Tlock_client_id m).

#[export] Instance Message_Tlock : Message Tlock :=
  { MSG_TYPE := TLOCK; decode := decode_Tlock; encode := encode_Tlock }.

#[export] Instance MessageLaws_Tlock : MessageLaws Tlock wf_Tlock.
Proof. message_tac Message_Tlock encode_Tlock decode_Tlock wf_Tlock. Qed.

(** ** Rlock *)

Record Rlock := mkRlock { Rlock_status : Z }.

Definition decode_Rlock : reader Rlock :=
  status ← read_u8; mret (mkRlock status).

Definition encode_Rlock (m : Rlock) : WireWriter → WireWriter :=
  write_u8 (Rlock_status m).

Definition wf_Rlock (m : Rlock) : Prop :=
  in_u8 (Rlock_status m).

#[export] Instance Message_Rlock : Message Rlock :=
  { MSG_TYPE := RLOCK; decode := decode_Rlock; encode := encode_Rlock }.

#[export] Instance MessageLaws_Rlock : MessageLaws Rlock wf_Rlock.
Proof. message_tac Message_Rlock encode_Rlock decode_Rlock wf_Rlock. Qed.

(** ** Tgetlock *)

Record Tgetlock := mkTgetlock {
  Tgetlock_fid : Z;
  Tgetlock_lock_type : Z;
  Tgetlock_start : Z;
  Tgetlock_length : Z;
  Tgetlock_proc_id : Z;
  Tgetlock_client_id : string }.

Definition decode_Tgetlock : reader Tgetlock :=
  fid ← read_u32;
  lock_type ← read_u8;
  start ← read_u64;
  length ← read_u64;
  proc_id ← read_u32;
  client_id ← read_string;
  mret (mkTgetlock fid lock_type start length proc_id client_id).

Definition encode_Tgetlock (m : Tgetlock) : WireWriter → WireWriter :=
  write_u32 (Tgetlock_fid m)
  ▷ write_u8 (Tgetlock_lock_type m)
  ▷ write_u64 (Tgetlock_start m)
  ▷ write_u64 (Tgetlock_length m)
  ▷ write_u32 (Tgetlock_proc_id m)
  ▷ write_string (Tgetlock_client_id m).

Definition wf_Tgetlock (m : Tgetlock) : Prop :=
  in_u32 (Tgetlock_fid m) ∧
  in_u8 (Tgetlock_lock_type m) ∧
  in_u64 (Tgetlock_start m) ∧
  in_u64 (Tgetlock_length m) ∧
  in_u32 (Tgetlock_proc_id m) ∧
  wire_string (Tgetlock_client_id m).

#[export] Instance Message_Tgetlock : Message Tgetlock :=
  { MSG_TYPE := TGETLOCK; decode := decode_Tgetlock; encode := encode_Tgetlock }.

#[export] Instance MessageLaws_Tgetlock : MessageLaws Tgetlock wf_Tgetlock.
Proof. message_tac Message_Tgetlock encode_Tgetlock decode_Tgetlock wf_Tgetlock. Qed.

(** ** Rgetlock *)

Record Rgetlock := mkRgetlock {
  Rgetlock_lock_type : Z;
  Rgetlock_start : Z;
  Rgetlock_length : Z;
  Rgetlock_proc_id : Z;
  Rgetlock_client_id : string }.

Definition decode_Rgetlock : reader Rgetlock :=
  lock_type ← read_u8;
  start ← read_u64;
  length ← read_u64;
  proc_id ← read_u32;
  client_id ← read_string;
  mret (mkRgetlock lock_type start length proc_id client_id).

Definition encode_Rgetlock (m : Rgetlock) : WireWriter → WireWriter :=
  write_u8 (Rgetlock_lock_type m)
  ▷ write_u64 (Rgetlock_start m)
  ▷ write_u64 (Rgetlock_length m)
  ▷ write_u32 (Rgetlock_proc_id m)
  ▷ write_string (Rgetlock_client_id m).

Definition wf_Rgetlock (m : Rgetlock) : Prop :=
  in_u8 (Rgetlock_lock_type m) ∧
  in_u64 (Rgetlock_start m) ∧
  in_u64 (Rgetlock_length m) ∧
  in_u32 (Rgetlock_proc_id m) ∧
  wire_string (Rgetlock_client_id m).

#[export] Instance Message_Rgetlock : Message Rgetlock :=
  { MSG_TYPE := RGETLOCK; decode := decode_Rgetlock; encode := encode_Rgetlock }.

#[export] Instance MessageLaws_Rgetlock : MessageLaws Rgetlock wf_Rgetlock.
Proof. message_tac Message_Rgetlock encode_Rgetlock decode_Rgetlock wf_Rgetlock. Qed.

(** ** Tlink *)

Record Tlink := mkTlink { Tlink_dfid : Z; Tlink_fid : Z; Tlink_name : string }.

Definition decode_Tlink : reader Tlink :=
  dfid ← read_u32; fid ← read_u32; name ← read_string; mret (mkTlink dfid fid name).

Definition encode_Tlink (m : Tlink) : WireWriter → WireWriter :=
  write_u32 (Tlink_dfid m) ▷ write_u32 (Tlink_fid m) ▷ write_string (Tlink_name m).

Definition wf_Tlink (m : Tlink) : Prop :=
  in_u32 (Tlink_dfid m) ∧ in_u32 (Tlink_fid m) ∧ wire_string (Tlink_name m).

#[export] Instance Message_Tlink : Message Tlink :=
  { MSG_TYPE := TLINK; decode := decode_Tlink; encode := encode_Tlink }.

#[export] Instance MessageLaws_Tlink : MessageLaws Tlink wf_Tlink.
Proof. message_tac Message_Tlink encode_Tlink decode_Tlink wf_Tlink. Qed.

(** ** Rlink *)

Inductive Rlink := mkRlink.

Definition decode_Rlink : reader Rlink := mret mkRlink.

Definition encode_Rlink (m : Rlink) : WireWriter → WireWriter := id.

Definition wf_Rlink (m : Rlink) : Prop := True.

#[export] Instance Message_Rlink : Message Rlink :=
  { MSG_TYPE := RLINK; decode := decode_Rlink; encode := encode_Rlink }.

#[export] Instance MessageLaws_Rlink : MessageLaws Rlink wf_Rlink.
Proof. message_tac Message_Rlink encode_Rlink decode_Rlink wf_Rlink. Qed.

(** ** Tmkdir *)

Record Tmkdir := mkTmkdir { Tmkdir_dfid : Z; Tmkdir_name : string; Tmkdir_mode : Z; Tmkdir_gid : Z }.

Definition decode_Tmkdir : reader Tmkdir :=
  dfid ← read_u32;
  name ← read_string;
  mode ← read_u32;
  gid ← read_u32;
  mret (mkTmkdir dfid name mode gid).

Definition encode_Tmkdir (m : Tmkdir) : WireWriter → WireWriter :=
  write_u32 (Tmkdir_dfid m)
  ▷ write_string (Tmkdir_name m)
  ▷ write_u32 (Tmkdir_mode m)
  ▷ write_u32 (Tmkdir_gid m).

Definition wf_Tmkdir (m : Tmkdir) : Prop :=
  in_u32 (Tmkdir_dfid m) ∧
  wire_string (Tmkdir_name m) ∧
  in_u32 (Tmkdir_mode m) ∧
  in_u32 (Tmkdir_gid m).

#[export] Instance Message_Tmkdir : Message Tmkdir :=
  { MSG_TYPE := TMKDIR; decode := decode_Tmkdir; encode := encode_Tmkdir }.

#[export] Instance MessageLaws_Tmkdir : MessageLaws Tmkdir wf_Tmkdir.
Proof. message_tac Message_Tmkdir encode_Tmkdir decode_Tmkdir wf_Tmkdir. Qed.

(** ** Rmkdir *)

Record Rmkdir := mkRmkdir { Rmkdir_qid : Qid }.

Definition decode_Rmkdir : reader Rmkdir :=
  qid ← read_qid; mret (mkRmkdir qid).

Definition encode_Rmkdir (m : Rmkdir) : WireWriter → WireWriter :=
  write_qid (Rmkdir_qid m).

Definition wf_Rmkdir (m : Rmkdir) : Prop :=
  qid_wf (Rmkdir_qid m).

#[export] Instance Message_Rmkdir : Message Rmkdir :=
  { MSG_TYPE := RMKDIR; decode := decode_Rmkdir; encode := encode_Rmkdir }.

#[export] Instance MessageLaws_Rmkdir : MessageLaws Rmkdir wf_Rmkdir.
Proof. message_tac Message_Rmkdir encode_Rmkdir decode_Rmkdir wf_Rmkdir. Qed.

(** ** Trenameat *)

Record Trenameat := mkTrenameat {
  Trenameat_olddirfid : Z;
  Trenameat_oldname : string;
  Trenameat_newdirfid : Z;
  Trenameat_newname : string }.

Definition decode_Trenameat : reader Trenameat :=
  olddirfid ← read_u32;
  oldname ← read_string;
  newdirfid ← read_u32;
  newname ← read_string;
  mret (mkTrenameat olddirfid oldname newdirfid newname).

Definition encode_Trenameat (m : Trenameat) : WireWriter → WireWriter :=
  write_u32 (Trenameat_olddirfid m)
  ▷ write_string (Trenameat_oldname m)
  ▷ write_u32 (Trenameat_newdirfid m)
  ▷ write_string (Trenameat_newname m).

Definition wf_Trenameat (m : Trenameat) : Prop :=
  in_u32 (Trenameat_olddirfid m) ∧
  wire_string (Trenameat_oldname m) ∧
  in_u32 (Trenameat_newdirfid m) ∧
  wire_string (Trenameat_newname m).

#[export] Instance Message_Trenameat : Message Trenameat :=
  { MSG_TYPE := TRENAMEAT; decode := decode_Trenameat; encode := encode_Trenameat }.

#[export] Instance MessageLaws_Trenameat : MessageLaws Trenameat wf_Trenameat.
Proof. message_tac Message_Trenameat encode_Trenameat decode_Trenameat wf_Trenameat. Qed.

(** ** Rrenameat *)

Inductive Rrenameat := mkRrenameat.

Definition decode_Rrenameat : reader Rrenameat := mret mkRrenameat.

Definition encode_Rrenameat (m : Rrenameat) : WireWriter → WireWriter := id.

Definition wf_Rrenameat (m : Rrenameat) : Prop := True.

#[export] Instance Message_Rrenameat : Message Rrenameat :=
  { MSG_TYPE := RRENAMEAT; decode := decode_Rrenameat; encode := encode_Rrenameat }.

#[export] Instance MessageLaws_Rrenameat : MessageLaws Rrenameat wf_Rrenameat.
Proof. message_tac Message_Rrenameat encode_Rrenameat decode_Rrenameat wf_Rrenameat. Qed.

(** ** Tunlinkat *)

Record Tunlinkat := mkTunlinkat { Tunlinkat_dirfid : Z; Tunlinkat_name : string; Tunlinkat_flags : Z }.

Definition decode_Tunlinkat : reader Tunlinkat :=
  dirfid ← read_u32;
  name ← read_string;
  flags ← read_u32;
  mret (mkTunlinkat dirfid name flags).

Definition encode_Tunlinkat (m : Tunlinkat) : WireWriter → WireWriter :=
  write_u32 (Tunlinkat_dirfid m)
  ▷ write_string (Tunlinkat_name m)
  ▷ write_u32 (Tunlinkat_flags m).

Definition wf_Tunlinkat (m : Tunlinkat) : Prop :=
  in_u32 (Tunlinkat_dirfid m) ∧
  wire_string (Tunlinkat_name m) ∧
  in_u32 (Tunlinkat_flags m).

#[export] Instance Message_Tunlinkat : Message Tunlinkat :=
  { MSG_TYPE := TUNLINKAT; decode := decode_Tunlinkat; encode := encode_Tunlinkat }.

#[export] Instance MessageLaws_Tunlinkat : MessageLaws Tunlinkat wf_Tunlinkat.
Proof. message_tac Message_Tunlinkat encode_Tunlinkat decode_Tunlinkat wf_Tunlinkat. Qed.

(** ** Runlinkat *)

Inductive Runlinkat := mkRunlinkat.

Definition decode_Runlinkat : reader Runlinkat := mret mkRunlinkat.

Definition encode_Runlinkat (m : Runlinkat) : WireWriter → WireWriter := id.

Definition wf_Runlinkat (m : Runlinkat) : Prop := True.

#[export] Instance Message_Runlinkat : Message Runlinkat :=
  { MSG_TYPE := RUNLINKAT; decode := decode_Runlinkat; encode := encode_Runlinkat }.

#[export] Instance MessageLaws_Runlinkat : MessageLaws Runlinkat wf_Runlinkat.
Proof. message_tac Message_Runlinkat encode_Runlinkat decode_Runlinkat wf_Runlinkat. Qed.

(** ** Parsed messages *)

Inductive MessageBody :=
  | MB_Rlerror (m : Rlerror)
  | MB_Tversion (m : Tversion)
  | MB_Rversion (m : Rversion)
  | MB_Tauth (m : Tauth)
  | MB_Rauth (m : Rauth)
  | MB_Tattach (m : Tattach)
  | MB_Rattach (m : Rattach)
  | MB_Tflush (m : Tflush)
  | MB_Rflush (m : Rflush)
  | MB_Twalk (m : Twalk)
  | MB_Rwalk (m : Rwalk)
  | MB_Tread (m : Tread)
  | MB_Rread (m : Rread)
  | MB_Twrite (m : Twrite)
  | MB_Rwrite (m : Rwrite)
  | MB_Tclunk (m : Tclunk)
  | MB_Rclunk (m : Rclunk)
  | MB_Tremove (m : Tremove)
  | MB_Rremove (m : Rremove)
  | MB_Tstatfs (m : Tstatfs)
  | MB_Rstatfs (m : Rstatfs)
  | MB_Tlopen (m : Tlopen)
  | MB_Rlopen (m : Rlopen)
  | MB_Tlcreate (m : Tlcreate)
  | MB_Rlcreate (m : Rlcreate)
  | MB_Tsymlink (m : Tsymlink)
  | MB_Rsymlink (m : Rsymlink)
  | MB_Tmknod (m : Tmknod)
  | MB_Rmknod (m : Rmknod)
  | MB_Trename (m : Trename)
  | MB_Rrename (m : Rrename)
  | MB_Treadlink (m : Treadlink)
  | MB_Rreadlink (m : Rreadlink)
  | MB_Tgetattr (m : Tgetattr)
  | MB_Rgetattr (m : Rgetattr)
  | MB_Tsetattr (m : Tsetattr)
  | MB_Rsetattr (m : Rsetattr)
  | MB_Txattrwalk (m : Txattrwalk)
  | MB_Rxattrwalk (m : Rxattrwalk)
  | MB_Txattrcreate (m : Txattrcreate)
  | MB_Rxattrcreate (m : Rxattrcreate)
  | MB_Treaddir (m : Treaddir)
  | MB_Rreaddir (m : Rreaddir)
  | MB_Tfsync (m : Tfsync)
  | MB_Rfsync (m : Rfsync)
  | MB_Tlock (m : Tlock)
  | MB_Rlock (m : Rlock)
  | MB_Tgetlock (m : Tgetlock)
  | MB_Rgetlock (m : Rgetlock)
  | MB_Tlink (m : Tlink)
  | MB_Rlink (m : Rlink)
  | MB_Tmkdir (m : Tmkdir)
  | MB_Rmkdir (m : Rmkdir)
  | MB_Trenameat (m : Trenameat)
  | MB_Rrenameat (m : Rrenameat)
  | MB_Tunlinkat (m : Tunlinkat)
  | MB_Runlinkat (m : Runlinkat).

Record ParsedMessage := mkParsedMessage { pm_tag : Z; pm_body : MessageBody }.

(** The [match msg_type] of [parse_message]: the first constant that matches
    picks the decoder. *)
Definition decode_body (msg_type : Z) : reader MessageBody :=
  if msg_type =? RLERROR then MB_Rlerror <$> decode_Rlerror else
  if msg_type =? TVERSION then MB_Tversion <$> decode_Tversion else
  if msg_type =? RVERSION then MB_Rversion <$> decode_Rversion else
  if msg_type =? TAUTH then MB_Tauth <$> decode_Tauth else
  if msg_type =? RAUTH then MB_Rauth <$> decode_Rauth else
  if msg_type =? TATTACH then MB_Tattach <$> decode_Tattach else
  if msg_type =? RATTACH then MB_Rattach <$> decode_Rattach else
  if msg_type =? TFLUSH then MB_Tflush <$> decode_Tflush else
  if msg_type =? RFLUSH then MB_Rflush <$> decode_Rflush else
  if msg_type =? TWALK then MB_Twalk <$> decode_Twalk else
  if msg_type =? RWALK then MB_Rwalk <$> decode_Rwalk else
  if msg_type =? TREAD then MB_Tread <$> decode_Tread else
  if msg_type =? RREAD then MB_Rread <$> decode_Rread else
  if msg_type =? TWRITE then MB_Twrite <$> decode_Twrite else
  if msg_type =? RWRITE then MB_Rwrite <$> decode_Rwrite else
  if msg_type =? TCLUNK then MB_Tclunk <$> decode_Tclunk else
  if msg_type =? RCLUNK then MB_Rclunk <$> decode_Rclunk else
  if msg_type =? TREMOVE then MB_Tremove <$> decode_Tremove else
  if msg_type =? RREMOVE then MB_Rremove <$> decode_Rremove else
  if msg_type =? TSTATFS then MB_Tstatfs <$> decode_Tstatfs else
  if msg_type =? RSTATFS then MB_Rstatfs <$> decode_Rstatfs else
  if msg_type =? TLOPEN then MB_Tlopen <$> decode_Tlopen else
  if msg_type =? RLOPEN then MB_Rlopen <$> decode_Rlopen else
  if msg_type =? TLCREATE then MB_Tlcreate <$> decode_Tlcreate else
  if msg_type =? RLCREATE then MB_Rlcreate <$> decode_Rlcreate else
  if msg_type =? TSYMLINK then MB_Tsymlink <$> decode_Tsymlink else
  if msg_type =? RSYMLINK then MB_Rsymlink <$> decode_Rsymlink else
  if msg_type =? TMKNOD then MB_Tmknod <$> decode_Tmknod else
  if msg_type =? RMKNOD then MB_Rmknod <$> decode_Rmknod else
  if msg_type =? TRENAME then MB_Trename <$> decode_Trename else
  if msg_type =? RRENAME then MB_Rrename <$> decode_Rrename else
  if msg_type =? TREADLINK then MB_Treadlink <$> decode_Treadlink else
  if msg_type =? RREADLINK then MB_Rreadlink <$> decode_Rreadlink else
  if msg_type =? TGETATTR then MB_Tgetattr <$> decode_Tgetattr else
  if msg_type =? RGETATTR then MB_Rgetattr <$> decode_Rgetattr else
  if msg_type =? TSETATTR then MB_Tsetattr <$> decode_Tsetattr else
  if msg_type =? RSETATTR then MB_Rsetattr <$> decode_Rsetattr else
  if msg_type =? TXATTRWALK then MB_Txattrwalk <$> decode_Txattrwalk else
  if msg_type =? RXATTRWALK then MB_Rxattrwalk <$> decode_Rxattrwalk else
  if msg_type =? TXATTRCREATE then MB_Txattrcreate <$> decode_Txattrcreate else
  if msg_type =? RXATTRCREATE then MB_Rxattrcreate <$> decode_Rxattrcreate else
  if msg_type =? TREADDIR then MB_Treaddir <$> decode_Treaddir else
  if msg_type =? RREADDIR then MB_Rreaddir <$> decode_Rreaddir else
  if msg_type =? TFSYNC then MB_Tfsync <$> decode_Tfsync else
  if msg_type =? RFSYNC then MB_Rfsync <$> decode_Rfsync else
  if msg_type =? TLOCK then MB_Tlock <$> decode_Tlock else
  if msg_type =? RLOCK then MB_Rlock <$> decode_Rlock else
  if msg_type =? TGETLOCK then MB_Tgetlock <$> decode_Tgetlock else
  if msg_type =? RGETLOCK then MB_Rgetlock <$> decode_Rgetlock else
  if msg_type =? TLINK then MB_Tlink <$> decode_Tlink else
  if msg_type =? RLINK then MB_Rlink <$> decode_Rlink else
  if msg_type =? TMKDIR then MB_Tmkdir <$> decode_Tmkdir else
  if msg_type =? RMKDIR then MB_Rmkdir <$> decode_Rmkdir else
  if msg_type =? TRENAMEAT then MB_Trenameat <$> decode_Trenameat else
  if msg_type =? RRENAMEAT then MB_Rrenameat <$> decode_Rrenameat else
  if msg_type =? TUNLINKAT then MB_Tunlinkat <$> decode_Tunlinkat else
  if msg_type =? RUNLINKAT then MB_Runlinkat <$> decode_Runlinkat else
  λ _, Err (UnknownMessageType msg_type).

Definition parse_message (buf : list Z) : outcome P9Error ParsedMessage :=
  if decide (length buf < 7)%nat then
    Err (MalformedMessage ("message too short: " +:+ pretty (length buf)
           +:+ " bytes (minimum 7)"))
  else
    match slice buf 0 4, slice buf 4 1, slice buf 5 2 with
    | Some size_bytes, Some [msg_type], Some tag_bytes =>
        let size := le_value size_bytes in
        if negb (size =? Z.of_nat (length buf)) then
          Err (MalformedMessage ("size field (" +:+ pretty size
                 +:+ ") does not match buffer length (" +:+ pretty (length buf) +:+ ")"))
        else
          let tag := le_value tag_bytes in
          '(body, _) ← decode_body msg_type (WireReader_new (drop 7 buf));
          Ok (mkParsedMessage tag body)
    | _, _, _ => Panic
    end.
