(* ===== verification/P9Codec.v ===== *)
(** * Round trip and safety of 9P messages

    The theorems about [parse_message] and [to_wire] as a whole: what one side
    of the connection encodes the other decodes, for each of the 57 message
    types, and no input whatsoever makes the parser panic. *)

From stdpp Require Import base strings list pretty.
From S2P Require Import Prelude P9Wire P9Messages.
#[local] Open Scope Z_scope.

(** ** Round trip of whole messages *)

(** The encoder of a parsed message: [to_wire] of the message it holds. *)
Definition body_to_wire (b : MessageBody) (tag : Z) : list Z :=
  match b with
  | MB_Rlerror m => to_wire m tag
  | MB_Tversion m => to_wire m tag
  | MB_Rversion m => to_wire m tag
  | MB_Tauth m => to_wire m tag
  | MB_Rauth m => to_wire m tag
  | MB_Tattach m => to_wire m tag
  | MB_Rattach m => to_wire m tag
  | MB_Tflush m => to_wire m tag
  | MB_Rflush m => to_wire m tag
  | MB_Twalk m => to_wire m tag
  | MB_Rwalk m => to_wire m tag
  | MB_Tread m => to_wire m tag
  | MB_Rread m => to_wire m tag
  | MB_Twrite m => to_wire m tag
  | MB_Rwrite m => to_wire m tag
  | MB_Tclunk m => to_wire m tag
  | MB_Rclunk m => to_wire m tag
  | MB_Tremove m => to_wire m tag
  | MB_Rremove m => to_wire m tag
  | MB_Tstatfs m => to_wire m tag
  | MB_Rstatfs m => to_wire m tag
  | MB_Tlopen m => to_wire m tag
  | MB_Rlopen m => to_wire m tag
  | MB_Tlcreate m => to_wire m tag
  | MB_Rlcreate m => to_wire m tag
  | MB_Tsymlink m => to_wire m tag
  | MB_Rsymlink m => to_wire m tag
  | MB_Tmknod m => to_wire m tag
  | MB_Rmknod m => to_wire m tag
  | MB_Trename m => to_wire m tag
  | MB_Rrename m => to_wire m tag
  | MB_Treadlink m => to_wire m tag
  | MB_Rreadlink m => to_wire m tag
  | MB_Tgetattr m => to_wire m tag
  | MB_Rgetattr m => to_wire m tag
  | MB_Tsetattr m => to_wire m tag
  | MB_Rsetattr m => to_wire m tag
  | MB_Txattrwalk m => to_wire m tag
  | MB_Rxattrwalk m => to_wire m tag
  | MB_Txattrcreate m => to_wire m tag
  | MB_Rxattrcreate m => to_wire m tag
  | MB_Treaddir m => to_wire m tag
  | MB_Rreaddir m => to_wire m tag
  | MB_Tfsync m => to_wire m tag
  | MB_Rfsync m => to_wire m tag
  | MB_Tlock m => to_wire m tag
  | MB_Rlock m => to_wire m tag
  | MB_Tgetlock m => to_wire m tag
  | MB_Rgetlock m => to_wire m tag
  | MB_Tlink m => to_wire m tag
  | MB_Rlink m => to_wire m tag
  | MB_Tmkdir m => to_wire m tag
  | MB_Rmkdir m => to_wire m tag
  | MB_Trenameat m => to_wire m tag
  | MB_Rrenameat m => to_wire m tag
  | MB_Tunlinkat m => to_wire m tag
  | MB_Runlinkat m => to_wire m tag
  end.

Definition body_wf (b : MessageBody) : Prop :=
  match b with
  | MB_Rlerror m => wf_Rlerror m
  | MB_Tversion m => wf_Tversion m
  | MB_Rversion m => wf_Rversion m
  | MB_Tauth m => wf_Tauth m
  | MB_Rauth m => wf_Rauth m
  | MB_Tattach m => wf_Tattach m
  | MB_Rattach m => wf_Rattach m
  | MB_Tflush m => wf_Tflush m
  | MB_Rflush m => wf_Rflush m
  | MB_Twalk m => wf_Twalk m
  | MB_Rwalk m => wf_Rwalk m
  | MB_Tread m => wf_Tread m
  | MB_Rread m => wf_Rread m
  | MB_Twrite m => wf_Twrite m
  | MB_Rwrite m => wf_Rwrite m
  | MB_Tclunk m => wf_Tclunk m
  | MB_Rclunk m => wf_Rclunk m
  | MB_Tremove m => wf_Tremove m
  | MB_Rremove m => wf_Rremove m
  | MB_Tstatfs m => wf_Tstatfs m
  | MB_Rstatfs m => wf_Rstatfs m
  | MB_Tlopen m => wf_Tlopen m
  | MB_Rlopen m => wf_Rlopen m
  | MB_Tlcreate m => wf_Tlcreate m
  | MB_Rlcreate m => wf_Rlcreate m
  | MB_Tsymlink m => wf_Tsymlink m
  | MB_Rsymlink m => wf_Rsymlink m
  | MB_Tmknod m => wf_Tmknod m
  | MB_Rmknod m => wf_Rmknod m
  | MB_Trename m => wf_Trename m
  | MB_Rrename m => wf_Rrename m
  | MB_Treadlink m => wf_Treadlink m
  | MB_Rreadlink m => wf_Rreadlink m
  | MB_Tgetattr m => wf_Tgetattr m
  | MB_Rgetattr m => wf_Rgetattr m
  | MB_Tsetattr m => wf_Tsetattr m
  | MB_Rsetattr m => wf_Rsetattr m
  | MB_Txattrwalk m => wf_Txattrwalk m
  | MB_Rxattrwalk m => wf_Rxattrwalk m
  | MB_Txattrcreate m => wf_Txattrcreate m
  | MB_Rxattrcreate m => wf_Rxattrcreate m
  | MB_Treaddir m => wf_Treaddir m
  | MB_Rreaddir m => wf_Rreaddir m
  | MB_Tfsync m => wf_Tfsync m
  | MB_Rfsync m => wf_Rfsync m
  | MB_Tlock m => wf_Tlock m
  | MB_Rlock m => wf_Rlock m
  | MB_Tgetlock m => wf_Tgetlock m
  | MB_Rgetlock m => wf_Rgetlock m
  | MB_Tlink m => wf_Tlink m
  | MB_Rlink m => wf_Rlink m
  | MB_Tmkdir m => wf_Tmkdir m
  | MB_Rmkdir m => wf_Rmkdir m
  | MB_Trenameat m => wf_Trenameat m
  | MB_Rrenameat m => wf_Rrenameat m
  | MB_Tunlinkat m => wf_Tunlinkat m
  | MB_Runlinkat m => wf_Runlinkat m
  end.

(** Framing: the bytes of a message are its size, its type, its tag and the
    body, and the first two are where [parse_message] looks for them. *)
Lemma to_wire_bytes `{Message M} (m : M) tag bs :
  writes (encode m) bs →
  to_wire m tag
  = le_bytes 4 (as_u32 (7 + Z.of_nat (length bs))) ++ [MSG_TYPE] ++ le_bytes 2 tag ++ bs.
Proof.
  intros Hw. unfold to_wire, finish. rewrite Hw.
  assert (∀ l, wbuf (write_u16 tag (write_u8 MSG_TYPE WireWriter_new)) ++ l
               = [0; 0; 0; 0] ++ MSG_TYPE :: le_bytes 2 tag ++ l) as ->.
  { done. }
  rewrite drop_app_length' by done.
  do 3 f_equal. rewrite length_app. cbn [length]. rewrite length_app, length_le_bytes.
  simpl length. lia.
Qed.

Lemma parse_message_frame (msg_type tag : Z) bs (r : outcome P9Error (MessageBody * WireReader)) :
  in_u16 tag → 7 + Z.of_nat (length bs) < 2 ^ 32 →
  decode_body msg_type (WireReader_new bs) = r →
  parse_message (le_bytes 4 (as_u32 (7 + Z.of_nat (length bs)))
                   ++ [msg_type] ++ le_bytes 2 tag ++ bs)
  = ('(body, _) ← r; Ok (mkParsedMessage tag body)).
Proof.
  intros Htag Hlen Hr. rewrite as_u32_small by (unfold in_width; lia).
  set (n := Z.of_nat (length bs)) in *. unfold parse_message.
  assert (length (le_bytes 4 (7 + n) ++ [msg_type] ++ le_bytes 2 tag ++ bs)
          = 7 + length bs)%nat as Hl by (rewrite !length_app, !length_le_bytes; done).
  rewrite decide_False by lia.
  rewrite (slice_app_at _ [] (le_bytes 4 (7 + n)) ([msg_type] ++ le_bytes 2 tag ++ bs))
    by (rewrite ?length_le_bytes; done).
  rewrite (slice_app_at _ (le_bytes 4 (7 + n)) [msg_type] (le_bytes 2 tag ++ bs))
    by (rewrite ?length_le_bytes; done).
  rewrite (slice_app_at _ (le_bytes 4 (7 + n) ++ [msg_type]) (le_bytes 2 tag) bs)
    by (rewrite ?length_app, ?length_le_bytes, <- ?(assoc_L (++)); done).
  rewrite Hl, (le_value_le_bytes 4), (le_value_le_bytes 2)
    by (unfold in_width in *; lia).
  replace (7 + n =? Z.of_nat (7 + length bs)) with true by (symmetry; apply Z.eqb_eq; lia).
  cbn [negb]. by rewrite <- Hr.
Qed.

Lemma decode_body_message `{MessageLaws M wf} (inj : M → MessageBody) (m : M) tag :
  wf m → in_u16 tag → Z.of_nat (length (to_wire m tag)) < 2 ^ 32 →
  decode_body MSG_TYPE = inj <$> decode →
  parse_message (to_wire m tag) = Ok (mkParsedMessage tag (inj m)).
Proof.
  intros Hwf Htag Hlen Hd. destruct (message_codec m Hwf) as (bs & Hw & Hr).
  rewrite (to_wire_bytes m tag bs Hw) in *.
  rewrite !length_app, !length_le_bytes in Hlen. simpl length in Hlen.
  erewrite parse_message_frame; [| done | lia | reflexivity].
  rewrite Hd. specialize (Hr [] []). rewrite app_nil_r in Hr.
  cbn [app length] in Hr. unfold fmap, reader_fmap, mbind, reader_bind, WireReader_new.
  by rewrite Hr.
Qed.

(** ** Safety of the parser *)

Lemma steady_fmap {A B} (f : A → B) (p : reader A) : steady p → steady (f <$> p).
Proof. intros. apply steady_bind; auto with steady. Qed.

Lemma steady_decode_body msg_type : steady (decode_body msg_type).
Proof.
  unfold decode_body.
  repeat (case_match;
    [ apply steady_fmap; match goal with |- @steady ?M _ => refine (message_steady (M := M)) end |]).
  by intros r _.
Qed.

(** The type byte a parsed message was sent with. *)
Definition body_type (b : MessageBody) : Z :=
  match b with
  | MB_Rlerror _ => MSG_TYPE (M := Rlerror)
  | MB_Tversion _ => MSG_TYPE (M := Tversion)
  | MB_Rversion _ => MSG_TYPE (M := Rversion)
  | MB_Tauth _ => MSG_TYPE (M := Tauth)
  | MB_Rauth _ => MSG_TYPE (M := Rauth)
  | MB_Tattach _ => MSG_TYPE (M := Tattach)
  | MB_Rattach _ => MSG_TYPE (M := Rattach)
  | MB_Tflush _ => MSG_TYPE (M := Tflush)
  | MB_Rflush _ => MSG_TYPE (M := Rflush)
  | MB_Twalk _ => MSG_TYPE (M := Twalk)
  | MB_Rwalk _ => MSG_TYPE (M := Rwalk)
  | MB_Tread _ => MSG_TYPE (M := Tread)
  | MB_Rread _ => MSG_TYPE (M := Rread)
  | MB_Twrite _ => MSG_TYPE (M := Twrite)
  | MB_Rwrite _ => MSG_TYPE (M := Rwrite)
  | MB_Tclunk _ => MSG_TYPE (M := Tclunk)
  | MB_Rclunk _ => MSG_TYPE (M := Rclunk)
  | MB_Tremove _ => MSG_TYPE (M := Tremove)
  | MB_Rremove _ => MSG_TYPE (M := Rremove)
  | MB_Tstatfs _ => MSG_TYPE (M := Tstatfs)
  | MB_Rstatfs _ => MSG_TYPE (M := Rstatfs)
  | MB_Tlopen _ => MSG_TYPE (M := Tlopen)
  | MB_Rlopen _ => MSG_TYPE (M := Rlopen)
  | MB_Tlcreate _ => MSG_TYPE (M := Tlcreate)
  | MB_Rlcreate _ => MSG_TYPE (M := Rlcreate)
  | MB_Tsymlink _ => MSG_TYPE (M := Tsymlink)
  | MB_Rsymlink _ => MSG_TYPE (M := Rsymlink)
  | MB_Tmknod _ => MSG_TYPE (M := Tmknod)
  | MB_Rmknod _ => MSG_TYPE (M := Rmknod)
  | MB_Trename _ => MSG_TYPE (M := Trename)
  | MB_Rrename _ => MSG_TYPE (M := Rrename)
  | MB_Treadlink _ => MSG_TYPE (M := Treadlink)
  | MB_Rreadlink _ => MSG_TYPE (M := Rreadlink)
  | MB_Tgetattr _ => MSG_TYPE (M := Tgetattr)
  | MB_Rgetattr _ => MSG_TYPE (M := Rgetattr)
  | MB_Tsetattr _ => MSG_TYPE (M := Tsetattr)
  | MB_Rsetattr _ => MSG_TYPE (M := Rsetattr)
  | MB_Txattrwalk _ => MSG_TYPE (M := Txattrwalk)
  | MB_Rxattrwalk _ => MSG_TYPE (M := Rxattrwalk)
  | MB_Txattrcreate _ => MSG_TYPE (M := Txattrcreate)
  | MB_Rxattrcreate _ => MSG_TYPE (M := Rxattrcreate)
  | MB_Treaddir _ => MSG_TYPE (M := Treaddir)
  | MB_Rreaddir _ => MSG_TYPE (M := Rreaddir)
  | MB_Tfsync _ => MSG_TYPE (M := Tfsync)
  | MB_Rfsync _ => MSG_TYPE (M := Rfsync)
  | MB_Tlock _ => MSG_TYPE (M := Tlock)
  | MB_Rlock _ => MSG_TYPE (M := Rlock)
  | MB_Tgetlock _ => MSG_TYPE (M := Tgetlock)
  | MB_Rgetlock _ => MSG_TYPE (M := Rgetlock)
  | MB_Tlink _ => MSG_TYPE (M := Tlink)
  | MB_Rlink _ => MSG_TYPE (M := Rlink)
  | MB_Tmkdir _ => MSG_TYPE (M := Tmkdir)
  | MB_Rmkdir _ => MSG_TYPE (M := Rmkdir)
  | MB_Trenameat _ => MSG_TYPE (M := Trenameat)
  | MB_Rrenameat _ => MSG_TYPE (M := Rrenameat)
  | MB_Tunlinkat _ => MSG_TYPE (M := Tunlinkat)
  | MB_Runlinkat _ => MSG_TYPE (M := Runlinkat)
  end.

(** The 57 type bytes [parse_message] knows. *)
Definition known_types : list Z :=
  [RLERROR; TVERSION; RVERSION; TAUTH; RAUTH; TATTACH; RATTACH; TFLUSH; RFLUSH; TWALK; RWALK; TREAD; RREAD; TWRITE; RWRITE; TCLUNK; RCLUNK; TREMOVE; RREMOVE; TSTATFS; RSTATFS; TLOPEN; RLOPEN; TLCREATE; RLCREATE; TSYMLINK; RSYMLINK; TMKNOD; RMKNOD; TRENAME; RRENAME; TREADLINK; RREADLINK; TGETATTR; RGETATTR; TSETATTR; RSETATTR; TXATTRWALK; RXATTRWALK; TXATTRCREATE; RXATTRCREATE; TREADDIR; RREADDIR; TFSYNC; RFSYNC; TLOCK; RLOCK; TGETLOCK; RGETLOCK; TLINK; RLINK; TMKDIR; RMKDIR; TRENAMEAT; RRENAMEAT; TUNLINKAT; RUNLINKAT].

Lemma decode_body_unknown msg_type r :
  msg_type ∉ known_types → decode_body msg_type r = Err (UnknownMessageType msg_type).
Proof.
  unfold known_types. rewrite !not_elem_of_cons. intros. destruct_and!.
  unfold decode_body. by rewrite !(proj2 (Z.eqb_neq _ _)) by done.
Qed.

(** A decoder that starts with a known type byte yields a body of that type. *)
Lemma decode_body_type msg_type r b r' :
  decode_body msg_type r = Ok (b, r') → body_type b = msg_type.
Proof.
  unfold decode_body.
  repeat (case_match eqn:Heq;
    [ apply Z.eqb_eq in Heq; subst msg_type; unfold fmap, reader_fmap, mbind, reader_bind;
      intros H; inv_match H; by unfold mret, reader_ret in *; simplify_eq | clear Heq ]).
  done.
Qed.

(** C37. Round trip of the wire protocol: a well-formed message of any of the
    57 types (integers in range, strings valid UTF-8 and shorter than 64 KiB,
    at most 65535 names or QIDs), written with [to_wire] under a 16-bit tag, is
    parsed back by [parse_message] to the same tag and the same message. *)
Theorem parse_message_to_wire (tag : Z) (b : MessageBody) :
  in_u16 tag → body_wf b → Z.of_nat (length (body_to_wire b tag)) < 2 ^ 32 →
  parse_message (body_to_wire b tag) = Ok (mkParsedMessage tag b).
Proof.
  intros Htag Hwf Hlen.
  destruct b; by eapply decode_body_message; [ exact Hwf | done | exact Hlen | reflexivity ].
Qed.

(** The parser never panics: on an arbitrary byte buffer, however short or
    malformed, no index or slice of [parse_message] and of the decoders it
    calls is out of range. *)
Theorem parse_message_no_panic (buf : list Z) : parse_message buf ≠ Panic.
Proof.
  unfold parse_message. case_decide as Hlen; [done|].
  destruct (slice_is_Some buf 0 4) as [sz ->]; [lia|].
  destruct (slice_is_Some buf 4 1) as [ty Hty]; [lia|]. rewrite Hty.
  destruct (slice_is_Some buf 5 2) as [tg ->]; [lia|].
  apply slice_length in Hty. destruct ty as [|t [|? ?]]; try done.
  case_match; [done|].
  pose proof (steady_decode_body t (WireReader_new (drop 7 buf))) as Hs.
  unfold in_bounds in Hs. specialize (Hs ltac:(simpl; lia)).
  destruct (decode_body t _) as [[b r]| |]; done.
Qed.

(** What an accepted buffer looks like: its size field is its length, the
    body is a message of the type in byte 4, and the tag is the one in bytes 5
    and 6; a type byte outside the 57 known ones is never accepted. *)
Theorem parse_message_accepts (buf : list Z) (pm : ParsedMessage) :
  parse_message buf = Ok pm →
  (7 ≤ length buf)%nat ∧ le_value (take 4 buf) = Z.of_nat (length buf) ∧
  buf !! 4%nat = Some (body_type (pm_body pm)) ∧
  le_value (take 2 (drop 5 buf)) = pm_tag pm ∧
  body_type (pm_body pm) ∈ known_types.
Proof.
  unfold parse_message. case_decide as Hlen; [done|].
  unfold slice. rewrite !decide_True by lia.
  destruct (take 1 (drop 4 buf)) as [|t [|? ?]] eqn:Ht; try done.
  case_match eqn:Hsz; [done|]. intros ([b r] & Hb & [= <-])%bind_ok_inv.
  pose proof (decode_body_type _ _ _ _ Hb) as Hty. simpl. rewrite drop_0 in *.
  split; [lia|]. split; [by apply negb_false_iff, Z.eqb_eq in Hsz|].
  split.
  { rewrite Hty. apply (f_equal (.!! 0%nat)) in Ht.
    by rewrite lookup_take_lt, lookup_drop in Ht by lia. }
  split; [done|]. rewrite Hty.
  destruct (decide (t ∈ known_types)); [done|]. by rewrite decode_body_unknown in Hb.
Qed.

(** A Twalk with two names, on which the round trip is evaluated. *)
Definition sample_walk : MessageBody :=
  MB_Twalk (mkTwalk 1 2 ["src"; "lib.rs"]).

Lemma parse_message_to_wire_witness :
  in_u16 7 ∧ body_wf sample_walk ∧ (Z.of_nat (length (body_to_wire sample_walk 7)) < 2 ^ 32) ∧
  parse_message (body_to_wire sample_walk 7) = Ok (mkParsedMessage 7 sample_walk).
Proof.
  assert (in_u16 7) as H1 by (by vm_compute).
  assert (body_wf sample_walk) as H2.
  { repeat split; try (by vm_compute). repeat constructor; by vm_compute. }
  assert (Z.of_nat (length (body_to_wire sample_walk 7)) < 2 ^ 32) as H3 by (by vm_compute).
  split_and!; [done..|]. exact (parse_message_to_wire 7 sample_walk H1 H2 H3).
Defined.

Lemma parse_message_accepts_witness :
  let buf := body_to_wire sample_walk 7 in
  parse_message buf = Ok (mkParsedMessage 7 sample_walk) ∧
  buf !! 4%nat = Some (body_type sample_walk).
Proof.
  assert (parse_message (body_to_wire sample_walk 7) = Ok (mkParsedMessage 7 sample_walk))
    as H by (by vm_compute).
  split; [exact H|].
  exact (proj1 (proj2 (proj2 (parse_message_accepts _ _ H)))).
Defined.
