(* ===== verification/P9Ops.v ===== *)
(** * The operations of the 9P server

    Models [crates/p9/src/operations/*.rs] and [platform/unix.rs] on a Unix
    host.  Each handler is a program over [env]: it reads the FID table, makes
    its system calls on the file tree and keeps the open files of the FIDs in
    step with it.

    A path is its list of components: a trailing slash of a name is not kept.
    The host file system is one without hard links (the kernel answers [EPERM]
    to [link], after the checks it makes first), with room for every file up to
    the [2^63 - 1] bytes an offset can name.

    The first part models [crates/p9/src/fid.rs], the table of FIDs. *)

From Stdlib Require Import Ascii.
From stdpp Require Import base gmap strings list.
From S2P Require Import Prelude HostFs WriteInterceptor P9Wire P9Messages.
#[local] Open Scope Z_scope.

(** ** FIDs and open files

    Models [crates/p9/src/fid.rs].  A FID may hold an open [File], which refers
    to a file and not to a path: it follows the file through a rename and keeps
    an unlinked file alive.  [file_loc] says where that file is now, and
    [settle] moves the open files when the tree changes under them. *)

(** ** Open files

    A file with a name, or one whose last name was removed; the latter is
    identified by the change that removed it and the name it had. *)
Inductive file_loc :=
  | Linked (q : path)
  | Unlinked (gen : nat) (q : path).

Record file := mkFile {
  f_loc : file_loc;
  f_readable : bool;
  f_writable : bool;
  f_append : bool;
}.

(** ** FIDs *)

Record FidState := mkFidState {
  fid_path : path;
  fid_qid : Qid;
  open_handle : option file;
  open_flags : Z;
  dir_offset : Z;
}.

Definition FidState_new (p : path) (qid : Qid) : FidState := mkFidState p qid None 0 0.
Definition is_open (st : FidState) : bool := bool_decide (is_Some (open_handle st)).

Record FidTable := mkFidTable { fids : gmap Z FidState; root_path : path }.

Definition FidTable_new (root : path) : FidTable := mkFidTable ∅ root.

Definition FidTable_insert (fid : Z) (st : FidState) (tb : FidTable) : outcome P9Error FidTable :=
  if bool_decide (is_Some (fids tb !! fid)) then Err (FidInUse fid)
  else Ok (mkFidTable (<[fid := st]> (fids tb)) (root_path tb)).

Definition FidTable_get (fid : Z) (tb : FidTable) : outcome P9Error FidState :=
  ok_or (fids tb !! fid) (UnknownFid fid).

(** [get_mut] and an assignment through it. *)
Definition FidTable_get_mut (fid : Z) (f : FidState → FidState) (tb : FidTable)
    : outcome P9Error FidTable :=
  st ← FidTable_get fid tb; Ok (mkFidTable (<[fid := f st]> (fids tb)) (root_path tb)).

Definition FidTable_remove (fid : Z) (tb : FidTable) : outcome P9Error (FidState * FidTable) :=
  st ← FidTable_get fid tb; Ok (st, mkFidTable (delete fid (fids tb)) (root_path tb)).

Definition get_path (fid : Z) (tb : FidTable) : outcome P9Error path :=
  fid_path <$> FidTable_get fid tb.

Definition resolve_child (parent_fid : Z) (name : string) (tb : FidTable) : outcome P9Error path :=
  (λ p, path_join p name) <$> get_path parent_fid tb.

Definition FidTable_count (tb : FidTable) : nat := size (fids tb).
Definition FidTable_is_empty (tb : FidTable) : bool := bool_decide (fids tb = ∅).

Definition set_path (p : path) (st : FidState) : FidState :=
  mkFidState p (fid_qid st) (open_handle st) (open_flags st) (dir_offset st).
Definition update_path (fid : Z) (new_path : path) (tb : FidTable) : outcome P9Error FidTable :=
  FidTable_get_mut fid (set_path new_path) tb.

(** ** What the operations work on

    The FID table, the host state with the file tree, and the contents of the
    unlinked files that are still open. *)
Record env (S : Type) := mkEnv {
  e_table : FidTable;
  e_os : S;
  e_unlinked : gmap (nat * path) (list Z);
  e_gen : nat;
}.
Arguments mkEnv {S}.
Arguments e_table {S}.
Arguments e_os {S}.
Arguments e_unlinked {S}.
Arguments e_gen {S}.

Section env.
Context {S : Type} `{HasTree S}.

Definition e_tree (e : env S) : tree := tree_of (e_os e).
Definition set_table (tb : FidTable) (e : env S) : env S :=
  mkEnv tb (e_os e) (e_unlinked e) (e_gen e).
Definition set_os (s : S) (e : env S) : env S :=
  mkEnv (e_table e) s (e_unlinked e) (e_gen e).

Definition file_at (t : tree) (q : path) : option (list Z) :=
  match t !! q with Some (File _ c) => Some c | _ => None end.

(** The contents of an open file. *)
Definition contents (f : file) (e : env S) : list Z :=
  default [] (match f_loc f with
              | Linked q => file_at (e_tree e) q
              | Unlinked g q => e_unlinked e !! (g, q)
              end).

(** Where the open files are after a change of the tree: [reloc q] is the new
    name of the file that was [q], [None] if it has none left. *)
Definition relocate (gen : nat) (reloc : path → option path) (st : FidState) : FidState :=
  match open_handle st with
  | Some (mkFile (Linked q) r w a) =>
      let loc := match reloc q with Some q' => Linked q' | None => Unlinked gen q end in
      mkFidState (fid_path st) (fid_qid st) (Some (mkFile loc r w a)) (open_flags st) (dir_offset st)
  | _ => st
  end.

Definition orphans (gen : nat) (reloc : path → option path) (old : tree) (tb : FidTable)
    : gmap (nat * path) (list Z) :=
  map_fold (λ _ st acc,
    match open_handle st with
    | Some (mkFile (Linked q) _ _ _) =>
        match reloc q with
        | Some _ => acc
        | None => <[(gen, q) := default [] (file_at old q)]> acc
        end
    | _ => acc
    end) ∅ (fids tb).

(** The host state becomes [s]. *)
Definition settle (reloc : path → option path) (s : S) (e : env S) : env S :=
  mkEnv (mkFidTable (relocate (e_gen e) reloc <$> fids (e_table e)) (root_path (e_table e)))
    s (orphans (e_gen e) reloc (e_tree e) (e_table e) ∪ e_unlinked e) (Datatypes.S (e_gen e)).

(** A change that renames nothing: the files that are gone lost their name. *)
Definition reloc_in (t : tree) (q : path) : option path :=
  match t !! q with Some (File _ _) => Some q | _ => None end.

(** [rename]: what was at [q] is at [q'], what was at [q'] is gone. *)
Definition reloc_rename (q q' : path) (p : path) : option path :=
  if decide (q = q') then Some p else
  match strip_prefix q p with
  | Some r => Some (q' ++ r)
  | None => match strip_prefix q' p with Some _ => None | None => Some p end
  end.

End env.

Definition P9_VERSION_STRING : string := "9P2000.L".

(** ** session.rs, the parts without state *)

Definition handle_version (request : Tversion) (server_msize : Z) : Rversion :=
  let negotiated_msize := Z.min (Tversion_msize request) server_msize in
  let version := if decide (Tversion_version request = P9_VERSION_STRING)
                 then P9_VERSION_STRING else "unknown" in
  mkRversion negotiated_msize version.

Definition handle_auth : Rlerror := mkRlerror EOPNOTSUPP.

(** FNV-1a over the bytes of the canonical path. *)
Definition fnv_basis : Z := 0xcbf29ce484222325.
Definition fnv_prime : Z := 0x100000001b3.
Definition path_to_qid_path (p : path) : Z :=
  foldl (λ hash byte, as_u64 (Z.lxor hash byte * fnv_prime)) fnv_basis
    (bytes_of_string (path_string p)).

(** [fs::canonicalize]. *)
Definition canonicalize (ns : tree) (p : path) : io path := fst <$> lookup_node ns true p.

(** ** std::fs::OpenOptions and File *)

Record OpenOptions := mkOpenOptions {
  oo_read : bool; oo_write : bool; oo_append : bool; oo_truncate : bool }.

Definition einval : io_error := mkIoError InvalidInput (Some EINVAL).
Definition ebadf : io_error := mkIoError KOther (Some EBADF).
Definition efbig : io_error := mkIoError KOther (Some 27).
Definition eperm : io_error := mkIoError PermissionDenied (Some EPERM).

(** The checks [OpenOptions::open] makes before the system call. *)
Definition open_checks (o : OpenOptions) : io unit :=
  if negb (oo_read o) && negb (oo_write o) && negb (oo_append o) then Err einval
  else if oo_append o then (if oo_truncate o then Err einval else Ok ())
  else if negb (oo_write o) && oo_truncate o then Err einval
  else Ok ().

(** The largest offset of a file. *)
Definition max_offset : Z := 2 ^ 63 - 1.

(** Write [data] at [off], filling a gap with zeros. *)
Definition splice (c : list Z) (off : nat) (data : list Z) : list Z :=
  take off (c ++ replicate (off - length c) 0) ++ data ++ drop (off + length data) c.

(** [File::set_len]. *)
Definition resize_to (c : list Z) (n : nat) : list Z := take n c ++ replicate (n - length c) 0.

(** ** What [stat] reports beside the node *)
Record stat_rest := mkStatRest {
  sr_uid : Z; sr_gid : Z; sr_nlink : Z; sr_rdev : Z; sr_blksize : Z; sr_blocks : Z;
  sr_atime_ns : Z; sr_ctime_ns : Z }.

Record FileAttributes := mkFileAttributes {
  fa_mode : Z; fa_uid : Z; fa_gid : Z; fa_nlink : Z; fa_rdev : Z; fa_size : Z;
  fa_blksize : Z; fa_blocks : Z; fa_atime_sec : Z; fa_atime_nsec : Z; fa_mtime_sec : Z;
  fa_mtime_nsec : Z; fa_ctime_sec : Z; fa_ctime_nsec : Z }.

Definition ns_per_s : Z := 1000000000.

Section operations.
Context {S : Type} `{HasTree S} (h : host) (stat_more : path → node → stat_rest).

Abbreviation EnvM := (stm (env S) P9Error).

(** ** System calls and the FID table as steps *)

(** A call that reads the tree. *)
Definition look {A} (f : tree → io A) : EnvM A := λ e, (map_err Io (f (e_tree e)), e).

(** A call that changes the tree, and how it moves open files. *)
Definition change (reloc : tree → tree → path → option path) (f : tree → io tree) : EnvM unit := λ e,
  match f (e_tree e) with
  | Ok t => (Ok (), settle (reloc (e_tree e) t) (put_tree t (e_os e)) e)
  | Err er => (Err (Io er), e)
  | Panic => (Panic, e)
  end.

Definition in_place (_ t : tree) : path → option path := reloc_in t.

Definition get_fid (fid : Z) : EnvM FidState := λ e, (FidTable_get fid (e_table e), e).

Definition on_table {A} (f : FidTable → outcome P9Error (A * FidTable)) : EnvM A := λ e,
  match f (e_table e) with
  | Ok (a, tb) => (Ok a, set_table tb e)
  | Err er => (Err er, e)
  | Panic => (Panic, e)
  end.

Definition insert_fid (fid : Z) (st : FidState) : EnvM unit :=
  on_table (λ tb, pair () <$> FidTable_insert fid st tb).
Definition update_fid (fid : Z) (f : FidState → FidState) : EnvM unit :=
  on_table (λ tb, pair () <$> FidTable_get_mut fid f tb).
Definition remove_fid (fid : Z) : EnvM FidState := on_table (FidTable_remove fid).

(** ** session.rs *)

Definition qid_of (ns : tree) (p : path) : io Qid :=
  '(q, metadata) ← lookup_node ns true p;
  let ty := if is_dir_node metadata then QTDIR
            else if is_symlink_node metadata then QTSYMLINK else QTFILE in
  let version := Z.land (st_size h q metadata) 0xFFFFFFFF in
  canonical ← canonicalize ns p;
  Ok (Qid_new ty version (path_to_qid_path canonical)).

Definition qid_from_path (p : path) : EnvM Qid := look (λ ns, qid_of ns p).

Definition handle_attach (request : Tattach) : EnvM Rattach :=
  root ← gets (λ e, root_path (e_table e));
  root_qid ← qid_from_path root;
  insert_fid (Tattach_fid request) (FidState_new root root_qid);;
  mret (mkRattach root_qid).

Definition handle_clunk (request : Tclunk) : EnvM unit :=
  remove_fid (Tclunk_fid request);; mret ().

Definition handle_remove (request : Tremove) : EnvM unit :=
  st ← get_fid (Tremove_fid request);
  let p := fid_path st in
  ns ← gets e_tree;
  result ← try (if path_is_dir ns p then change in_place (λ ns, remove_dir h ns p)
                else change in_place (λ ns, remove_file h ns p));
  ignore (remove_fid (Tremove_fid request));;
  match result with inl e => throw e | inr _ => mret () end.

(** ** walk.rs *)

Fixpoint resolve_logical_from (resolved : path) (cs : path) : option path :=
  match cs with
  | [] => Some resolved
  | c :: cs' =>
      if decide (c = "..") then
        match parent resolved with Some r => resolve_logical_from r cs' | None => None end
      else resolve_logical_from (resolved ++ [c]) cs'
  end.
Definition resolve_logical (p : path) : option path := resolve_logical_from [] p.

Definition logical_contains (p root : path) : bool :=
  match resolve_logical p, resolve_logical root with
  | Some resolved, Some resolved_root => bool_decide (resolved_root `prefix_of` resolved)
  | _, _ => false
  end.

Definition is_contained (ns : tree) (p root : path) : bool :=
  match canonicalize ns p, canonicalize ns root with
  | Ok canonical_path, Ok canonical_root => bool_decide (canonical_root `prefix_of` canonical_path)
  | _, _ => logical_contains p root
  end.

Definition next_path (current_path : path) (name : string) : path :=
  if decide (name = "..") then default current_path (parent current_path)
  else if decide (name = ".") then current_path
  else path_join current_path name.

(** The loop over the names: the QIDs of the resolved prefix and its path. *)
Fixpoint walk_names (ns : tree) (root current_path : path) (wqids : list Qid) (wnames : list string)
    : outcome P9Error (list Qid * path) :=
  match wnames with
  | [] => Ok (wqids, current_path)
  | name :: wnames' =>
      let p := next_path current_path name in
      if negb (is_contained ns p root) then
        if decide (wqids = []) then Err (PathOutsideRoot (path_string p))
        else Ok (wqids, current_path)
      else
        match qid_of ns p with
        | Ok qid => walk_names ns root p (wqids ++ [qid]) wnames'
        | Err _ => Ok (wqids, current_path)
        | Panic => Panic
        end
  end.

Definition set_walked (p : path) (qid : Qid) (st : FidState) : FidState :=
  mkFidState p qid (open_handle st) (open_flags st) (dir_offset st).

Definition handle_walk (request : Twalk) : EnvM Rwalk :=
  st ← get_fid (Twalk_fid request);
  let source_path := fid_path st in
  let source_qid := fid_qid st in
  match Twalk_wnames request with
  | [] =>
      (if decide (Twalk_newfid request = Twalk_fid request) then mret ()
       else insert_fid (Twalk_newfid request) (FidState_new source_path source_qid));;
      mret (mkRwalk [])
  | wnames =>
      root ← gets (λ e, root_path (e_table e));
      ns ← gets e_tree;
      '(wqids, current_path) ← lift (walk_names ns root source_path [] wnames);
      (if decide (length wqids = length wnames) then
         match last wqids with
         | None => panic
         | Some final_qid =>
             if decide (Twalk_newfid request = Twalk_fid request)
             then update_fid (Twalk_fid request) (set_walked current_path final_qid)
             else insert_fid (Twalk_newfid request) (FidState_new current_path final_qid)
         end
       else mret ());;
      mret (mkRwalk wqids)
  end.

(** ** attr.rs and platform/unix.rs *)

Definition get_file_attributes (ns : tree) (p : path) : io FileAttributes :=
  '(q, n) ← lookup_node ns true p;
  let more := stat_more q n in
  let mtime := m_mtime (node_meta n) in
  Ok (mkFileAttributes (st_mode n) (sr_uid more) (sr_gid more) (sr_nlink more) (sr_rdev more)
        (st_size h q n) (sr_blksize more) (sr_blocks more)
        (as_u64 (sr_atime_ns more / ns_per_s)) (as_u64 (sr_atime_ns more mod ns_per_s))
        (as_u64 (mtime / ns_per_s)) (as_u64 (mtime mod ns_per_s))
        (as_u64 (sr_ctime_ns more / ns_per_s)) (as_u64 (sr_ctime_ns more mod ns_per_s))).

Definition provided_attributes : Z :=
  foldl Z.lor P9_GETATTR_MODE
    [P9_GETATTR_NLINK; P9_GETATTR_UID; P9_GETATTR_GID; P9_GETATTR_RDEV; P9_GETATTR_ATIME;
     P9_GETATTR_MTIME; P9_GETATTR_CTIME; P9_GETATTR_INO; P9_GETATTR_SIZE; P9_GETATTR_BLOCKS].

Definition handle_getattr (request : Tgetattr) : EnvM Rgetattr :=
  st ← get_fid (Tgetattr_fid request);
  qid ← qid_from_path (fid_path st);
  attrs ← look (λ ns, get_file_attributes ns (fid_path st));
  let valid := Z.land (Tgetattr_request_mask request) provided_attributes in
  mret (mkRgetattr valid qid (fa_mode attrs) (fa_uid attrs) (fa_gid attrs) (fa_nlink attrs)
          (fa_rdev attrs) (fa_size attrs) (fa_blksize attrs) (fa_blocks attrs)
          (fa_atime_sec attrs) (fa_atime_nsec attrs) (fa_mtime_sec attrs) (fa_mtime_nsec attrs)
          (fa_ctime_sec attrs) (fa_ctime_nsec attrs) 0 0 0 0).

(** [OpenOptions::new().write(true).open(path)?.set_len(size)?]. *)
Definition fs_set_len (ns : tree) (p : path) (size : Z) : io tree :=
  '(q, n) ← lookup_node ns true p;
  match n with
  | File m c =>
      if max_offset <? size then err InvalidInput
      else Ok (<[q := File (set_mtime (h_clock h) m) (resize_to c (Z.to_nat size))]> ns)
  | _ => err IsADirectory
  end.

Definition handle_setattr (request : Tsetattr) : EnvM unit :=
  st ← get_fid (Tsetattr_fid request);
  if negb (Z.land (Tsetattr_valid request) P9_SETATTR_SIZE =? 0)
  then change in_place (λ ns, fs_set_len ns (fid_path st) (Tsetattr_size request))
  else mret ().

(** ** file.rs *)

(** [OpenOptions::open] of a path that need not be created. *)
Definition fs_open (ns : tree) (o : OpenOptions) (p : path) : io (path * tree) :=
  open_checks o;;
  '(q, n) ← lookup_node ns true p;
  match n with
  | File m _ =>
      if oo_truncate o then Ok (q, <[q := File (set_mtime (h_clock h) m) []]> ns) else Ok (q, ns)
  | _ => if oo_write o || oo_append o then err IsADirectory else Ok (q, ns)
  end.

Definition open_options (flags : Z) : OpenOptions :=
  let access_mode := Z.land flags 3 in
  mkOpenOptions (negb (access_mode =? 1)) ((access_mode =? 1) || (access_mode =? 2))
    (negb (Z.land flags 0x400 =? 0)) (negb (Z.land flags 0x200 =? 0)).

Definition open_with_flags (p : path) (flags : Z) : EnvM file :=
  let o := open_options flags in
  q ← look (λ ns, fst <$> fs_open ns o p);
  change in_place (λ ns, snd <$> fs_open ns o p);;
  mret (mkFile (Linked q) (oo_read o) (oo_write o || oo_append o) (oo_append o)).

Definition set_handle (f : option file) (st : FidState) : FidState :=
  mkFidState (fid_path st) (fid_qid st) f (open_flags st) (dir_offset st).
Definition set_flags (flags : Z) (st : FidState) : FidState :=
  mkFidState (fid_path st) (fid_qid st) (open_handle st) flags (dir_offset st).

(** [msize.saturating_sub(24)]. *)
Definition iounit_of (msize : Z) : Z := Z.max 0 (msize - 24).

Definition handle_lopen (request : Tlopen) (msize : Z) : EnvM Rlopen :=
  st ← get_fid (Tlopen_fid request);
  let p := fid_path st in
  qid ← qid_from_path p;
  ns ← gets e_tree;
  (if path_is_dir ns p then mret ()
   else
     f ← open_with_flags p (Tlopen_flags request);
     update_fid (Tlopen_fid request) (set_handle (Some f)));;
  update_fid (Tlopen_fid request) (set_flags (Tlopen_flags request));;
  mret (mkRlopen qid (iounit_of msize)).

Definition handle_lcreate (request : Tlcreate) (msize : Z) : EnvM Rlcreate :=
  st ← get_fid (Tlcreate_fid request);
  let new_path := path_join (fid_path st) (Tlcreate_name request) in
  q ← look (λ ns, resolve ns false new_path);
  change in_place (λ ns, fs_create_new h ns new_path);;
  qid ← qid_from_path new_path;
  update_fid (Tlcreate_fid request) (λ st,
    mkFidState new_path qid (Some (mkFile (Linked q) true true false)) (Tlcreate_flags request)
      (dir_offset st));;
  mret (mkRlcreate qid (iounit_of msize)).

Definition get_handle (fid : Z) : EnvM file :=
  st ← get_fid fid;
  lift (ok_or (open_handle st) (FidNotOpen fid)).

(** [File::seek] to an offset from the start. *)
Definition seek (offset : Z) : EnvM unit :=
  if max_offset <? offset then throw (Io einval) else mret ().

(** [read]: what the file has at the offset, at most [count] bytes. *)
Definition file_read (f : file) (offset count : Z) : EnvM (list Z) :=
  if negb (f_readable f) then throw (Io ebadf)
  else if max_offset <? offset + count then throw (Io einval)
  else
    c ← gets (contents f);
    mret (take (Z.to_nat count) (drop (Z.to_nat offset) c)).

Definition handle_read (request : Tread) : EnvM Rread :=
  f ← get_handle (Tread_fid request);
  seek (Tread_offset request);;
  data ← file_read f (Tread_offset request) (Tread_count request);
  mret (mkRread data).

Definition set_contents (f : file) (c : list Z) : EnvM unit :=
  match f_loc f with
  | Linked q =>
      change in_place (λ ns, Ok (alter (λ n, match n with
                                        | File m _ => File (set_mtime (h_clock h) m) c
                                        | n => n
                                        end) q ns))
  | Unlinked g q =>
      modify (λ e, mkEnv (e_table e) (e_os e) (<[(g, q) := c]> (e_unlinked e)) (e_gen e))
  end.

(** [write_all]: no system call for an empty buffer; in append mode the data
    goes to the end. *)
Definition file_write (f : file) (offset : Z) (data : list Z) : EnvM unit :=
  if decide (data = []) then mret ()
  else if negb (f_writable f) then throw (Io ebadf)
  else if max_offset <? offset + Z.of_nat (length data) then throw (Io einval)
  else
    c ← gets (contents f);
    if f_append f then
      if max_offset <? Z.of_nat (length c + length data) then throw (Io efbig)
      else set_contents f (c ++ data)
    else set_contents f (splice c (Z.to_nat offset) data).

Definition handle_write (request : Twrite) : EnvM Rwrite :=
  f ← get_handle (Twrite_fid request);
  seek (Twrite_offset request);;
  file_write f (Twrite_offset request) (Twrite_data request);;
  mret (mkRwrite (as_u32 (Z.of_nat (length (Twrite_data request))))).

Definition handle_fsync (request : Tfsync) : EnvM unit :=
  get_handle (Tfsync_fid request);; mret ().

(** ** dir.rs *)

Definition entry_bytes (qid : Qid) (offset : Z) (dtype : Z) (name : string) : list Z :=
  [qid_ty qid] ++ le_bytes 4 (qid_version qid) ++ le_bytes 8 (qid_path qid) ++
  le_bytes 8 offset ++ [dtype] ++ le_bytes 2 (as_u16 (Z.of_nat (String.length name))) ++
  bytes_of_string name.

Definition dtype_of (qid : Qid) : Z :=
  if Qid_is_dir qid then DT_DIR else if Qid_is_symlink qid then DT_LNK else DT_REG.

(** The loop over the remaining entries. *)
Fixpoint pack_entries (ns : tree) (dir_path : path) (count current_offset : Z) (data : list Z)
    (names : list string) : outcome P9Error (list Z) :=
  match names with
  | [] => Ok data
  | name :: names' =>
      match qid_of ns (path_join dir_path name) with
      | Ok qid =>
          let current_offset := current_offset + 1 in
          let entry_size := 13 + 8 + 1 + 2 + Z.of_nat (String.length name) in
          if count <? Z.of_nat (length data) + entry_size then Ok data
          else
            let data := data ++ entry_bytes qid current_offset (dtype_of qid) name in
            pack_entries ns dir_path count current_offset data names'
      | Err _ => pack_entries ns dir_path count current_offset data names'
      | Panic => Panic
      end
  end.

Definition handle_readdir (request : Treaddir) : EnvM Rreaddir :=
  st ← get_fid (Treaddir_fid request);
  let dir_path := fid_path st in
  entries ← look (λ ns, read_dir h ns dir_path);
  ns ← gets e_tree;
  data ← lift (pack_entries ns dir_path (Treaddir_count request) (Treaddir_offset request) []
                 (drop (Z.to_nat (Treaddir_offset request)) entries));
  mret (mkRreaddir data).

Definition handle_mkdir (request : Tmkdir) : EnvM Rmkdir :=
  st ← get_fid (Tmkdir_dfid request);
  let new_path := path_join (fid_path st) (Tmkdir_name request) in
  change in_place (λ ns, create_dir h ns new_path);;
  qid ← qid_from_path new_path;
  mret (mkRmkdir qid).

Definition handle_unlinkat (request : Tunlinkat) : EnvM unit :=
  st ← get_fid (Tunlinkat_dirfid request);
  let target_path := path_join (fid_path st) (Tunlinkat_name request) in
  if negb (Z.land (Tunlinkat_flags request) AT_REMOVEDIR =? 0)
  then change in_place (λ ns, remove_dir h ns target_path)
  else change in_place (λ ns, remove_file h ns target_path).

(** The open files of a renamed subtree keep their place in it. *)
Definition renaming (src dst : path) (ns _ : tree) (p : path) : option path :=
  match resolve ns false src, resolve ns false dst with
  | Ok q, Ok q' => reloc_rename q q' p
  | _, _ => Some p
  end.

Definition handle_renameat (request : Trenameat) : EnvM unit :=
  old_st ← get_fid (Trenameat_olddirfid request);
  new_st ← get_fid (Trenameat_newdirfid request);
  let old_path := path_join (fid_path old_st) (Trenameat_oldname request) in
  let new_path := path_join (fid_path new_st) (Trenameat_newname request) in
  change (renaming old_path new_path) (λ ns, fs_rename h ns old_path new_path).

Definition handle_statfs (fid : Z) : EnvM Rstatfs :=
  get_fid fid;;
  mret (mkRstatfs 0x01021997 4096 1000000 500000 500000 1000000 500000 0 255).

(** ** link.rs *)

Definition handle_symlink (request : Tsymlink) : EnvM Rsymlink :=
  st ← get_fid (Tsymlink_fid request);
  let link_path := path_join (fid_path st) (Tsymlink_name request) in
  change in_place (λ ns, symlink h ns (Tsymlink_symtgt request) link_path);;
  qid ← qid_from_path link_path;
  mret (mkRsymlink qid).

Definition handle_readlink (request : Treadlink) : EnvM Rreadlink :=
  st ← get_fid (Treadlink_fid request);
  target ← look (λ ns, read_link ns (fid_path st));
  mret (mkRreadlink target).

Definition hard_link (ns : tree) (target link_path : path) : io tree :=
  lookup_node ns false target;;
  q ← resolve ns false link_path;
  match ns !! q with Some _ => err AlreadyExists | None => Err eperm end.

Definition handle_link (request : Tlink) : EnvM unit :=
  dir_st ← get_fid (Tlink_dfid request);
  target_st ← get_fid (Tlink_fid request);
  let link_path := path_join (fid_path dir_st) (Tlink_name request) in
  change in_place (λ ns, hard_link ns (fid_path target_st) link_path).

End operations.
