(* ===== verification/P9Server.v ===== *)
(** * The 9P server

    Models [crates/p9/src/server.rs]: the dispatch of a request to its handler,
    the calls of the write interceptor around it, the encoding of the reply,
    and the loop that reads frames from a byte stream.

    A handler that returns early with an encoded reply throws it; [reply]
    collects the two ways out.  A panic (of a hook) is caught by the loop and
    answered with [EIO]; what was done before it stays done. *)

From Stdlib Require Import Ascii.
From stdpp Require Import base gmap strings list.
From S2P Require Import Prelude HostFs Common WriteInterceptor P9Wire P9Messages P9Ops.
#[local] Open Scope Z_scope.

Definition DEFAULT_MSIZE : Z := 4 * 1024 * 1024.

(** The interceptor sees the same host (clock, ...) as the operation it is
    called around. *)
Record P9Server (S : Type) := mkServer {
  sv_env : env S;
  sv_msize : Z;
  sv_negotiated : bool;
  sv_interceptor : option (host → WriteInterceptor S);
  sv_in_flight : option Z;
}.
Arguments mkServer {S}.
Arguments sv_env {S}.
Arguments sv_msize {S}.
Arguments sv_negotiated {S}.
Arguments sv_interceptor {S}.
Arguments sv_in_flight {S}.

Definition encode_error (tag ecode : Z) : list Z := to_wire (mkRlerror ecode) tag.

Definition encode_empty_response (response_type tag : Z) : list Z :=
  let writer := WireWriter_new in
  let writer := write_u8 response_type writer in
  let writer := write_u16 tag writer in
  finish writer.

(** On a Unix host no name is reserved and case distinguishes names. *)
Definition is_reserved_name (name : string) : bool := false.
Definition check_case_collision (parent : path) (name : string) : outcome P9Error (option string) :=
  Ok None.

Definition validate_name (tag : Z) (parent : path) (name : string) : option (list Z) :=
  if is_reserved_name name then Some (encode_error tag (p9_error_to_errno Unix (ReservedName name)))
  else
    match check_case_collision parent name with
    | Ok (Some existing) =>
        Some (encode_error tag (p9_error_to_errno Unix (CaseCollision existing name)))
    | Ok None => None
    | Err e => Some (encode_error tag (p9_error_to_errno Unix e))
    | Panic => None
    end.

Section server.
Context {S : Type} `{HasTree S}.

Definition with_msize (root : path) (s : S) (msize : Z) : P9Server S :=
  mkServer (mkEnv (FidTable_new root) s ∅ 0) msize false None None.
Definition P9Server_new (root : path) (s : S) : P9Server S := with_msize root s DEFAULT_MSIZE.

Definition with_interceptor (i : host → WriteInterceptor S) (sv : P9Server S) : P9Server S :=
  mkServer (sv_env sv) (sv_msize sv) (sv_negotiated sv) (Some i) (sv_in_flight sv).
Definition with_in_flight (tracker : Z) (sv : P9Server S) : P9Server S :=
  mkServer (sv_env sv) (sv_msize sv) (sv_negotiated sv) (sv_interceptor sv) (Some tracker).
Definition set_env (e : env S) (sv : P9Server S) : P9Server S :=
  mkServer e (sv_msize sv) (sv_negotiated sv) (sv_interceptor sv) (sv_in_flight sv).

Context (h : host) (stat_more : path → node → stat_rest).

(** A handler: the error is the reply it returns early with. *)
Abbreviation ServerM := (stm (P9Server S) (list Z)).

(** [match f(..) { Ok(r) => .., Err(e) => encode_error(tag, errno of e) }]. *)
Definition operation {A} (tag : Z) (m : stm (env S) P9Error A) : ServerM A := λ sv,
  let '(r, e) := m (sv_env sv) in
  (map_err (λ er, encode_error tag (p9_error_to_errno Unix er)) r, set_env e sv).

Definition decoded {M} `{Message M} (tag : Z) (payload : list Z) : ServerM M := λ sv,
  (match decode (M := M) (WireReader_new payload) with
   | Ok (m, _) => Ok m
   | Err _ => Err (encode_error tag EIO)
   | Panic => Panic
   end, sv).

(** [if let Some(ref interceptor) = self.interceptor { .. }]. *)
Definition if_interceptor (f : WriteInterceptor S → ServerM unit) : ServerM unit :=
  i ← gets sv_interceptor;
  match i with Some i => f (i h) | None => mret () end.

(** A hook runs on the host state; files it removed (a denied step is rolled
    back) lose their name. *)
Definition hook (i : WriteInterceptor S) (c : hook_call) : ServerM (CodeAgentError + unit) := λ sv,
  let e := sv_env sv in
  let '(r, s) := call_hook i c (e_os e) in
  let sv' := set_env (settle (reloc_in (tree_of s)) s e) sv in
  (match r with Ok _ => Ok (inr ()) | Err er => Ok (inl er) | Panic => Panic end, sv').

Definition denied (tag : Z) {A} : ServerM A := throw (encode_error tag EACCES).

(** A pre-hook: an error denies the operation. *)
Definition pre_hook (tag : Z) (i : WriteInterceptor S) (c : hook_call) : ServerM unit :=
  r ← hook i c;
  match r with inl _ => denied tag | inr _ => mret () end.

(** A post-hook: [let _ = interceptor.post_*(..)]. *)
Definition post_hook (c : hook_call) : ServerM unit :=
  if_interceptor (λ i, hook i c;; mret ()).

Definition check_name (tag : Z) (parent : path) (name : string) : ServerM unit :=
  match validate_name tag parent name with Some err_response => throw err_response | None => mret () end.

(** ** Session operations *)

Definition handle_tversion (tag : Z) (payload : list Z) : ServerM (list Z) :=
  request ← decoded (M := Tversion) tag payload;
  sv ← get;
  let response := handle_version request (sv_msize sv) in
  let e := sv_env sv in
  put (mkServer (set_table (FidTable_new (root_path (e_table e))) e) (Rversion_msize response) true
         (sv_interceptor sv) (sv_in_flight sv));;
  mret (to_wire response tag).

Definition handle_tauth (tag : Z) : ServerM (list Z) := mret (to_wire handle_auth tag).

Definition handle_tattach (tag : Z) (payload : list Z) : ServerM (list Z) :=
  request ← decoded (M := Tattach) tag payload;
  response ← operation tag (handle_attach h request);
  mret (to_wire response tag).

Definition handle_twalk (tag : Z) (payload : list Z) : ServerM (list Z) :=
  request ← decoded (M := Twalk) tag payload;
  response ← operation tag (handle_walk h request);
  mret (to_wire response tag).

Definition handle_tclunk (tag : Z) (payload : list Z) : ServerM (list Z) :=
  request ← decoded (M := Tclunk) tag payload;
  operation tag (handle_clunk request);;
  mret (encode_empty_response RCLUNK tag).

Definition handle_tremove (tag : Z) (payload : list Z) : ServerM (list Z) :=
  request ← decoded (M := Tremove) tag payload;
  if_interceptor (λ i,
    st ← operation tag (get_fid (Tremove_fid request));
    ns ← gets (λ sv, e_tree (sv_env sv));
    r ← hook i (PreUnlink (fid_path st) (path_is_dir ns (fid_path st)));
    match r with
    | inl _ => ignore (operation tag (remove_fid (Tremove_fid request)));; denied tag
    | inr _ => mret ()
    end);;
  operation tag (handle_remove h request);;
  mret (encode_empty_response RREMOVE tag).

Definition handle_tflush (tag : Z) : ServerM (list Z) := mret (encode_empty_response RFLUSH tag).

(** ** Read-only operations *)

Definition handle_tgetattr (tag : Z) (payload : list Z) : ServerM (list Z) :=
  request ← decoded (M := Tgetattr) tag payload;
  response ← operation tag (handle_getattr h stat_more request);
  mret (to_wire response tag).

Definition handle_tlopen (tag : Z) (payload : list Z) : ServerM (list Z) :=
  request ← decoded (M := Tlopen) tag payload;
  (if negb (Z.land (Tlopen_flags request) 0x200 =? 0) then
     if_interceptor (λ i,
       st ← operation tag (get_fid (Tlopen_fid request));
       pre_hook tag i (PreOpenTrunc (fid_path st)))
   else mret ());;
  msize ← gets sv_msize;
  response ← operation tag (handle_lopen h request msize);
  mret (to_wire response tag).

Definition handle_tread (tag : Z) (payload : list Z) : ServerM (list Z) :=
  request ← decoded (M := Tread) tag payload;
  response ← operation tag (handle_read request);
  mret (to_wire response tag).

Definition handle_treaddir (tag : Z) (payload : list Z) : ServerM (list Z) :=
  request ← decoded (M := Treaddir) tag payload;
  response ← operation tag (handle_readdir h request);
  mret (to_wire response tag).

Definition handle_tstatfs (tag : Z) (payload : list Z) : ServerM (list Z) :=
  request ← decoded (M := Tstatfs) tag payload;
  response ← operation tag (handle_statfs (Tstatfs_fid request));
  mret (to_wire response tag).

(** ** Write operations *)

Definition handle_tsetattr (tag : Z) (payload : list Z) : ServerM (list Z) :=
  request ← decoded (M := Tsetattr) tag payload;
  st ← operation tag (get_fid (Tsetattr_fid request));
  let atime_only_mask := Z.lor P9_SETATTR_ATIME P9_SETATTR_ATIME_SET in
  let modifies_beyond_atime := negb (Z.ldiff (Tsetattr_valid request) atime_only_mask =? 0) in
  (if modifies_beyond_atime then if_interceptor (λ i, pre_hook tag i (PreSetattr (fid_path st)))
   else mret ());;
  operation tag (handle_setattr h request);;
  mret (encode_empty_response RSETATTR tag).

Definition handle_tlcreate (tag : Z) (payload : list Z) : ServerM (list Z) :=
  request ← decoded (M := Tlcreate) tag payload;
  st ← operation tag (get_fid (Tlcreate_fid request));
  check_name tag (fid_path st) (Tlcreate_name request);;
  let new_path := path_join (fid_path st) (Tlcreate_name request) in
  msize ← gets sv_msize;
  response ← operation tag (handle_lcreate h request msize);
  post_hook (PostCreate new_path);;
  mret (to_wire response tag).

Definition handle_twrite (tag : Z) (payload : list Z) : ServerM (list Z) :=
  request ← decoded (M := Twrite) tag payload;
  if_interceptor (λ i,
    st ← operation tag (get_fid (Twrite_fid request));
    pre_hook tag i (PreWrite (fid_path st)));;
  response ← operation tag (handle_write h request);
  mret (to_wire response tag).

Definition handle_tfsync (tag : Z) (payload : list Z) : ServerM (list Z) :=
  request ← decoded (M := Tfsync) tag payload;
  operation tag (handle_fsync request);;
  mret (encode_empty_response RFSYNC tag).

Definition handle_tmkdir (tag : Z) (payload : list Z) : ServerM (list Z) :=
  request ← decoded (M := Tmkdir) tag payload;
  st ← operation tag (get_fid (Tmkdir_dfid request));
  check_name tag (fid_path st) (Tmkdir_name request);;
  response ← operation tag (handle_mkdir h request);
  post_hook (PostMkdir (path_join (fid_path st) (Tmkdir_name request)));;
  mret (to_wire response tag).

Definition handle_tunlinkat (tag : Z) (payload : list Z) : ServerM (list Z) :=
  request ← decoded (M := Tunlinkat) tag payload;
  st ← operation tag (get_fid (Tunlinkat_dirfid request));
  let target_path := path_join (fid_path st) (Tunlinkat_name request) in
  let is_dir := negb (Z.land (Tunlinkat_flags request) AT_REMOVEDIR =? 0) in
  if_interceptor (λ i, pre_hook tag i (PreUnlink target_path is_dir));;
  operation tag (handle_unlinkat h request);;
  mret (encode_empty_response RUNLINKAT tag).

Definition handle_trenameat (tag : Z) (payload : list Z) : ServerM (list Z) :=
  request ← decoded (M := Trenameat) tag payload;
  old_st ← operation tag (get_fid (Trenameat_olddirfid request));
  new_st ← operation tag (get_fid (Trenameat_newdirfid request));
  let old_path := path_join (fid_path old_st) (Trenameat_oldname request) in
  let new_path := path_join (fid_path new_st) (Trenameat_newname request) in
  check_name tag (fid_path new_st) (Trenameat_newname request);;
  if_interceptor (λ i, pre_hook tag i (PreRename old_path new_path));;
  operation tag (handle_renameat h request);;
  mret (encode_empty_response RRENAMEAT tag).

(** ** Link operations *)

Definition handle_tsymlink (tag : Z) (payload : list Z) : ServerM (list Z) :=
  request ← decoded (M := Tsymlink) tag payload;
  st ← operation tag (get_fid (Tsymlink_fid request));
  check_name tag (fid_path st) (Tsymlink_name request);;
  let link_path := path_join (fid_path st) (Tsymlink_name request) in
  response ← operation tag (handle_symlink h request);
  post_hook (PostSymlink (Tsymlink_symtgt request) link_path);;
  mret (to_wire response tag).

Definition handle_treadlink (tag : Z) (payload : list Z) : ServerM (list Z) :=
  request ← decoded (M := Treadlink) tag payload;
  response ← operation tag (handle_readlink request);
  mret (to_wire response tag).

Definition handle_tlink (tag : Z) (payload : list Z) : ServerM (list Z) :=
  request ← decoded (M := Tlink) tag payload;
  dir_st ← operation tag (get_fid (Tlink_dfid request));
  target_st ← operation tag (get_fid (Tlink_fid request));
  check_name tag (fid_path dir_st) (Tlink_name request);;
  let link_path := path_join (fid_path dir_st) (Tlink_name request) in
  if_interceptor (λ i, pre_hook tag i (PreLink (fid_path target_st) link_path));;
  operation tag (handle_link request);;
  mret (encode_empty_response RLINK tag).

Definition handle_tmknod (tag : Z) : ServerM (list Z) := mret (encode_error tag EPERM).

(** ** Dispatch *)

Definition handler_of (msg_type tag : Z) (payload : list Z) : ServerM (list Z) :=
  if msg_type =? TVERSION then handle_tversion tag payload
  else if msg_type =? TAUTH then handle_tauth tag
  else if msg_type =? TATTACH then handle_tattach tag payload
  else if msg_type =? TWALK then handle_twalk tag payload
  else if msg_type =? TGETATTR then handle_tgetattr tag payload
  else if msg_type =? TSETATTR then handle_tsetattr tag payload
  else if msg_type =? TLOPEN then handle_tlopen tag payload
  else if msg_type =? TLCREATE then handle_tlcreate tag payload
  else if msg_type =? TREAD then handle_tread tag payload
  else if msg_type =? TWRITE then handle_twrite tag payload
  else if msg_type =? TREADDIR then handle_treaddir tag payload
  else if msg_type =? TSTATFS then handle_tstatfs tag payload
  else if msg_type =? TFSYNC then handle_tfsync tag payload
  else if msg_type =? TMKDIR then handle_tmkdir tag payload
  else if msg_type =? TUNLINKAT then handle_tunlinkat tag payload
  else if msg_type =? TRENAMEAT then handle_trenameat tag payload
  else if msg_type =? TSYMLINK then handle_tsymlink tag payload
  else if msg_type =? TREADLINK then handle_treadlink tag payload
  else if msg_type =? TLINK then handle_tlink tag payload
  else if msg_type =? TMKNOD then handle_tmknod tag
  else if msg_type =? TREMOVE then handle_tremove tag payload
  else if msg_type =? TCLUNK then handle_tclunk tag payload
  else if msg_type =? TFLUSH then handle_tflush tag
  else mret (encode_error tag EOPNOTSUPP).

(** The reply, whichever way the handler returned; [None] is a panic. *)
Definition reply (r : outcome (list Z) (list Z)) : option (list Z) :=
  match r with Ok b | Err b => Some b | Panic => None end.

Definition dispatch (msg_type tag : Z) (payload : list Z) (sv : P9Server S)
    : option (list Z) * P9Server S :=
  let '(r, sv') := handler_of msg_type tag payload sv in (reply r, sv').

(** ** The loop *)

(** The drop guard around one request. *)
Definition on_in_flight (f : Z → Z) (sv : P9Server S) : P9Server S :=
  mkServer (sv_env sv) (sv_msize sv) (sv_negotiated sv) (sv_interceptor sv) (f <$> sv_in_flight sv).
Definition InFlightGuard_new : P9Server S → P9Server S := on_in_flight (λ n, as_u64 (n + 1)).
Definition InFlightGuard_drop : P9Server S → P9Server S := on_in_flight (λ n, as_u64 (n - 1)).

(** One request, with [catch_unwind] around its dispatch. *)
Definition serve (body : list Z) (sv : P9Server S) : list Z * P9Server S :=
  match parse_header body with
  | Ok (msg_type, tag) =>
      let '(r, sv') := dispatch msg_type tag (drop 3 body) (InFlightGuard_new sv) in
      (default (encode_error tag EIO) r, InFlightGuard_drop sv')
  | _ => ([], sv)
  end.

Definition max_frame (sv : P9Server S) : Z :=
  if sv_negotiated sv then sv_msize sv else MAX_MESSAGE_SIZE.

Definition unexpected_eof : P9Error := Io (mkIoError KOther None).

(** [run] on the bytes the reader will deliver before it ends: the result, the
    bytes written, the server.  Each round consumes a frame of at least seven
    bytes. *)
Fixpoint run_fuel (fuel : nat) (input : list Z) (sv : P9Server S)
    : outcome P9Error unit * list Z * P9Server S :=
  match fuel with
  | O => (Panic, [], sv)
  | Datatypes.S fuel' =>
      if (length input <? 4)%nat then (Ok (), [], sv)
      else
        let size := le_value (take 4 input) in
        match validate_message_size size (max_frame sv) with
        | Err e => (Err e, [], sv)
        | Panic => (Panic, [], sv)
        | Ok _ =>
            let body_len := Z.to_nat (size - 4) in
            let rest := drop 4 input in
            if (length rest <? body_len)%nat then (Err unexpected_eof, [], sv)
            else
              let '(out, sv1) := serve (take body_len rest) sv in
              let '(r, outs, sv2) := run_fuel fuel' (drop body_len rest) sv1 in
              (r, out ++ outs, sv2)
        end
  end.

Definition run (input : list Z) (sv : P9Server S) : outcome P9Error unit * list Z * P9Server S :=
  run_fuel (Datatypes.S (length input)) input sv.

End server.
