(* ===== verification/P9Sim.v ===== *)
(** * The server does not depend on the host state it is given

    Two host states with the same file tree, and two interceptors that answer
    alike, are indistinguishable to the 9P server: it gives the same replies.
    Used for the decorator [WriteTrackingInterceptor], which the sandbox puts
    between the server and the undo interceptor.

    The second part says what the replies of a request are. *)

From stdpp Require Import base gmap strings list.
From S2P Require Import Prelude HostFs Common WriteInterceptor PathValidation RecentWrites P9Wire P9Messages P9Ops P9Server.
#[local] Open Scope Z_scope.

(** Same result, related states. *)
Definition simulates {S1 S2 E A} (R : S1 → S2 → Prop) (m1 : stm S1 E A) (m2 : stm S2 E A) : Prop :=
  ∀ s1 s2, R s1 s2 → (m1 s1).1 = (m2 s2).1 ∧ R (m1 s1).2 (m2 s2).2.

Create HintDb simulates discriminated.

Section rules.
Context {S1 S2 E : Type} (R : S1 → S2 → Prop).

Lemma sim_ret {A} (a : A) : simulates R (mret (M := stm S1 E) a) (mret (M := stm S2 E) a).
Proof. by intros s1 s2 ?. Qed.
Lemma sim_throw {A} (e : E) : simulates R (throw (A := A) e) (throw e).
Proof. by intros s1 s2 ?. Qed.
Lemma sim_lift {A} (o : outcome E A) : simulates R (lift o) (lift o).
Proof. by intros s1 s2 ?. Qed.
Lemma sim_gets {A} (f : S1 → A) (g : S2 → A) :
  (∀ s1 s2, R s1 s2 → f s1 = g s2) → simulates R (gets (E := E) f) (gets g).
Proof. intros Hf s1 s2 HR. split; [|done]. simpl. by rewrite (Hf s1 s2). Qed.
Lemma sim_modify (f : S1 → S1) (g : S2 → S2) :
  (∀ s1 s2, R s1 s2 → R (f s1) (g s2)) → simulates R (modify (E := E) f) (modify g).
Proof. intros Hf s1 s2 HR. split; [done|]. by apply Hf. Qed.
Lemma sim_bind {A B} (m1 : stm S1 E A) m2 (f1 : A → stm S1 E B) f2 :
  simulates R m1 m2 → (∀ a, simulates R (f1 a) (f2 a)) → simulates R (m1 ≫= f1) (m2 ≫= f2).
Proof.
  intros Hm Hf s1 s2 HR. destruct (Hm s1 s2 HR) as [Hr Hs]. unfold mbind, stm_bind.
  destruct (m1 s1) as [[a|e|] s1'], (m2 s2) as [[]s2']; simplify_eq/=; [by apply Hf | done | done].
Qed.
Lemma sim_ignore {A} (m1 : stm S1 E A) m2 : simulates R m1 m2 → simulates R (ignore m1) (ignore m2).
Proof.
  intros Hm s1 s2 HR. destruct (Hm s1 s2 HR) as [Hr Hs]. unfold ignore.
  by destruct (m1 s1) as [[] ?], (m2 s2) as [[] ?]; simplify_eq/=.
Qed.
Lemma sim_try {A} (m1 : stm S1 E A) m2 : simulates R m1 m2 → simulates R (try m1) (try m2).
Proof.
  intros Hm s1 s2 HR. destruct (Hm s1 s2 HR) as [Hr Hs]. unfold try.
  by destruct (m1 s1) as [[] ?], (m2 s2) as [[] ?]; simplify_eq/=.
Qed.
End rules.

Lemma sim_panic {S1 S2 E A} (R : S1 → S2 → Prop) : simulates R (panic (E := E) (A := A)) panic.
Proof. by intros s1 s2 ?. Qed.

#[export] Hint Resolve sim_ret sim_throw sim_lift sim_panic : simulates.

Ltac simulate :=
  repeat first
    [ solve [auto with simulates]
    | apply sim_bind; [|intros ?]
    | apply sim_ignore
    | apply sim_try
    | progress cbv beta zeta
    | match goal with
      | |- simulates _ (match ?x with _ => _ end) _ => destruct x
      end ].

Section server.
Context {S1 S2 : Type} `{HasTree S1} `{HasTree S2} (R : S1 → S2 → Prop).
Context (R_tree : ∀ s1 s2, R s1 s2 → tree_of s1 = tree_of s2).
Context (R_put : ∀ t s1 s2, R s1 s2 → R (put_tree t s1) (put_tree t s2)).

(** The environments differ in the host state only. *)
Definition env_sim (e1 : env S1) (e2 : env S2) : Prop :=
  e_table e1 = e_table e2 ∧ e_unlinked e1 = e_unlinked e2 ∧ e_gen e1 = e_gen e2 ∧
  R (e_os e1) (e_os e2).

Abbreviation esim := (simulates (E := P9Error) env_sim).

Lemma env_sim_tree e1 e2 : env_sim e1 e2 → e_tree e1 = e_tree e2.
Proof. intros (_ & _ & _ & HR). by apply R_tree. Qed.

Lemma env_sim_settle reloc s1 s2 e1 e2 :
  env_sim e1 e2 → R s1 s2 → env_sim (settle reloc s1 e1) (settle reloc s2 e2).
Proof.
  intros He Hs. pose proof (env_sim_tree e1 e2 He) as Ht. destruct He as (H1 & H2 & H3 & H4).
  unfold settle, env_sim. simpl. by rewrite H1, H2, H3, Ht.
Qed.

Lemma sim_look {A} (f : tree → io A) : esim (look f) (look f).
Proof. intros e1 e2 He. unfold look. simpl. by rewrite (env_sim_tree e1 e2). Qed.
Lemma sim_change reloc f : esim (change reloc f) (change reloc f).
Proof.
  intros e1 e2 He. unfold change. rewrite (env_sim_tree e1 e2 He).
  destruct (f (e_tree e2)); [|done|done]. split; [done|]. simpl. apply env_sim_settle; [done|].
  apply R_put, He.
Qed.
Lemma sim_get_fid fid : esim (get_fid fid) (get_fid fid).
Proof. intros e1 e2 He. pose proof He as (H1 & _). unfold get_fid. simpl. by rewrite H1. Qed.
Lemma sim_on_table {A} (f : FidTable → outcome P9Error (A * FidTable)) : esim (on_table f) (on_table f).
Proof.
  intros e1 e2 He. pose proof He as (H1 & H2 & H3 & H4). unfold on_table. rewrite H1.
  by destruct (f (e_table e2)) as [[a tb]| |].
Qed.
Lemma sim_gets_tree : esim (gets e_tree) (gets e_tree).
Proof. apply sim_gets, env_sim_tree. Qed.
Lemma sim_gets_root :
  esim (gets (λ e, root_path (e_table e))) (gets (λ e, root_path (e_table e))).
Proof. apply sim_gets. by intros e1 e2 (-> & _). Qed.
Lemma sim_gets_contents f : esim (gets (contents f)) (gets (contents f)).
Proof.
  apply sim_gets. intros e1 e2 He. unfold contents. rewrite (env_sim_tree e1 e2 He).
  by destruct He as (_ & -> & _).
Qed.
#[local] Hint Resolve sim_look sim_change sim_get_fid sim_on_table sim_gets_tree sim_gets_root
  sim_gets_contents : simulates.

(** Every operation. *)
Lemma sim_remove_fid fid : esim (remove_fid fid) (remove_fid fid).
Proof. apply sim_on_table. Qed.
#[local] Hint Resolve sim_remove_fid : simulates.
Lemma sim_attach h r : esim (handle_attach h r) (handle_attach h r).
Proof. unfold handle_attach, qid_from_path, insert_fid. simulate. Qed.
Lemma sim_clunk r : esim (handle_clunk r) (handle_clunk r).
Proof. unfold handle_clunk, remove_fid. simulate. Qed.
Lemma sim_remove h r : esim (handle_remove h r) (handle_remove h r).
Proof. unfold handle_remove, remove_fid. simulate. Qed.
Lemma sim_walk h r : esim (handle_walk h r) (handle_walk h r).
Proof. unfold handle_walk, insert_fid, update_fid. simulate. Qed.
Lemma sim_getattr h more r : esim (handle_getattr h more r) (handle_getattr h more r).
Proof. unfold handle_getattr, qid_from_path. simulate. Qed.
Lemma sim_setattr h r : esim (handle_setattr h r) (handle_setattr h r).
Proof. unfold handle_setattr. simulate. Qed.
Lemma sim_lopen h r m : esim (handle_lopen h r m) (handle_lopen h r m).
Proof. unfold handle_lopen, qid_from_path, open_with_flags, update_fid. simulate. Qed.
Lemma sim_lcreate h r m : esim (handle_lcreate h r m) (handle_lcreate h r m).
Proof. unfold handle_lcreate, qid_from_path, update_fid. simulate. Qed.
Lemma sim_get_handle fid : esim (get_handle fid) (get_handle fid).
Proof. unfold get_handle. simulate. Qed.
#[local] Hint Resolve sim_get_handle : simulates.
Lemma sim_read r : esim (handle_read r) (handle_read r).
Proof. unfold handle_read, seek, file_read. simulate. Qed.
Lemma sim_set_contents h f c : esim (set_contents h f c) (set_contents h f c).
Proof.
  unfold set_contents. destruct (f_loc f); [auto with simulates|]. apply sim_modify.
  intros e1 e2 (H1 & H2 & H3 & H4). unfold env_sim. simpl. by rewrite H2.
Qed.
#[local] Hint Resolve sim_set_contents : simulates.
Lemma sim_write h r : esim (handle_write h r) (handle_write h r).
Proof. unfold handle_write, seek, file_write. simulate. Qed.
Lemma sim_fsync r : esim (handle_fsync r) (handle_fsync r).
Proof. unfold handle_fsync. simulate. Qed.
Lemma sim_readdir h r : esim (handle_readdir h r) (handle_readdir h r).
Proof. unfold handle_readdir. simulate. Qed.
Lemma sim_mkdir h r : esim (handle_mkdir h r) (handle_mkdir h r).
Proof. unfold handle_mkdir, qid_from_path. simulate. Qed.
Lemma sim_unlinkat h r : esim (handle_unlinkat h r) (handle_unlinkat h r).
Proof. unfold handle_unlinkat. simulate. Qed.
Lemma sim_renameat h r : esim (handle_renameat h r) (handle_renameat h r).
Proof. unfold handle_renameat. simulate. Qed.
Lemma sim_statfs fid : esim (handle_statfs fid) (handle_statfs fid).
Proof. unfold handle_statfs. simulate. Qed.
Lemma sim_symlink h r : esim (handle_symlink h r) (handle_symlink h r).
Proof. unfold handle_symlink, qid_from_path. simulate. Qed.
Lemma sim_readlink r : esim (handle_readlink r) (handle_readlink r).
Proof. unfold handle_readlink. simulate. Qed.
Lemma sim_link r : esim (handle_link r) (handle_link r).
Proof. unfold handle_link. simulate. Qed.
#[local] Hint Resolve sim_attach sim_clunk sim_remove sim_walk sim_getattr sim_setattr sim_lopen
  sim_lcreate sim_read sim_write sim_fsync sim_readdir sim_mkdir sim_unlinkat sim_renameat
  sim_statfs sim_symlink sim_readlink sim_link : simulates.

(** ** The server *)

Context (i1 : option (host → WriteInterceptor S1)) (i2 : option (host → WriteInterceptor S2)).
Context (R_hooks : match i1, i2 with
                   | Some j1, Some j2 => ∀ h c, simulates R (call_hook (j1 h) c) (call_hook (j2 h) c)
                   | None, None => True
                   | _, _ => False
                   end).

Definition server_sim (sv1 : P9Server S1) (sv2 : P9Server S2) : Prop :=
  env_sim (sv_env sv1) (sv_env sv2) ∧ sv_msize sv1 = sv_msize sv2 ∧
  sv_negotiated sv1 = sv_negotiated sv2 ∧ sv_in_flight sv1 = sv_in_flight sv2 ∧
  sv_interceptor sv1 = i1 ∧ sv_interceptor sv2 = i2.

Abbreviation ssim := (simulates (E := list Z) server_sim).

Lemma server_sim_env e1 e2 sv1 sv2 :
  server_sim sv1 sv2 → env_sim e1 e2 → server_sim (set_env e1 sv1) (set_env e2 sv2).
Proof. by intros (_ & ?) ?. Qed.

Lemma sim_operation {A} tag (m1 : stm (env S1) P9Error A) m2 :
  esim m1 m2 → ssim (operation tag m1) (operation tag m2).
Proof.
  intros Hm sv1 sv2 Hsv. destruct (Hm _ _ (proj1 Hsv)) as [Hr He]. unfold operation.
  destruct (m1 (sv_env sv1)) as [r1 e1], (m2 (sv_env sv2)) as [r2 e2]. simpl in *. subst.
  split; [done|]. by apply server_sim_env.
Qed.

Lemma sim_hook h c j1 j2 :
  i1 = Some j1 → i2 = Some j2 → ssim (hook (j1 h) c) (hook (j2 h) c).
Proof.
  intros -> -> sv1 sv2 Hsv. pose proof (proj1 Hsv) as He. unfold hook.
  destruct (R_hooks h c _ _ (proj2 (proj2 (proj2 He)))) as [Hr Hs].
  destruct (call_hook (j1 h) c _) as [r1 s1], (call_hook (j2 h) c _) as [r2 s2]. simpl in *. subst.
  split; [done|]. apply server_sim_env; [done|]. rewrite (R_tree s1 s2) by done. by apply env_sim_settle.
Qed.

Lemma sim_if_interceptor h (f1 : WriteInterceptor S1 → stm (P9Server S1) (list Z) unit) f2 :
  (∀ j1 j2, i1 = Some j1 → i2 = Some j2 → ssim (f1 (j1 h)) (f2 (j2 h))) →
  ssim (if_interceptor h f1) (if_interceptor h f2).
Proof.
  intros Hf sv1 sv2 Hsv. unfold if_interceptor, mbind, stm_bind, gets.
  pose proof (proj2 (proj2 (proj2 (proj2 Hsv)))) as [E1 E2]. rewrite E1, E2. 
  destruct i1 as [j1|], i2 as [j2|]; [by apply Hf | done | done | done].
Qed.

Lemma sim_decoded {M} `{Message M} tag payload :
  ssim (decoded (M := M) tag payload) (decoded (M := M) tag payload).
Proof. by intros sv1 sv2 Hsv. Qed.
Lemma sim_gets_msize : ssim (gets sv_msize) (gets sv_msize).
Proof. apply sim_gets. by intros sv1 sv2 (_ & ? & _). Qed.
Lemma sim_gets_server_tree : ssim (gets (λ sv, e_tree (sv_env sv))) (gets (λ sv, e_tree (sv_env sv))).
Proof. apply sim_gets. intros sv1 sv2 [He _]. by apply env_sim_tree. Qed.
Lemma sim_pre_hook h tag c j1 j2 :
  i1 = Some j1 → i2 = Some j2 → ssim (pre_hook tag (j1 h) c) (pre_hook tag (j2 h) c).
Proof. intros H1 H2. unfold pre_hook, denied. apply sim_bind; [by apply sim_hook|]. intros []; simulate. Qed.
Lemma sim_check_name tag p name : ssim (check_name tag p name) (check_name tag p name).
Proof. unfold check_name. simulate. Qed.
Lemma sim_post_hook h c : ssim (post_hook h c) (post_hook h c).
Proof. apply sim_if_interceptor. intros. apply sim_bind; [by apply sim_hook | simulate]. Qed.
#[local] Hint Resolve sim_operation sim_decoded sim_gets_msize sim_gets_server_tree sim_pre_hook
  sim_check_name sim_post_hook : simulates.

Ltac simulate_server :=
  repeat (simulate; try (apply sim_if_interceptor; intros); try (apply sim_hook; assumption);
          try (apply sim_operation)).

Lemma sim_tversion tag p : ssim (handle_tversion tag p) (handle_tversion tag p).
Proof.
  unfold handle_tversion. apply sim_bind; [auto with simulates|]. intros req sv1 sv2 Hsv.
  pose proof Hsv as (He & Hm & Hn & Hf & H1 & H2). pose proof He as (E1 & E2 & E3 & E4).
  unfold mbind, stm_bind, get, put, mret, stm_ret. simpl. rewrite Hm, E1. split; [done|].
  unfold server_sim, env_sim, set_table. simpl. by rewrite E2, E3, Hf.
Qed.

Lemma sim_handler_of h more mt tag payload :
  ssim (handler_of h more mt tag payload) (handler_of h more mt tag payload).
Proof.
  unfold handler_of.
  repeat match goal with |- context [if ?b then _ else _] => destruct b end;
    try apply sim_tversion;
    cbv beta delta [handle_tauth handle_tattach handle_twalk handle_tgetattr handle_tsetattr
      handle_tlopen handle_tlcreate handle_tread handle_twrite handle_treaddir handle_tstatfs
      handle_tfsync handle_tmkdir handle_tunlinkat handle_trenameat handle_tsymlink
      handle_treadlink handle_tlink handle_tmknod handle_tremove handle_tclunk handle_tflush denied];
    simulate_server.
Qed.

Lemma sim_serve h more body sv1 sv2 :
  server_sim sv1 sv2 →
  (serve h more body sv1).1 = (serve h more body sv2).1 ∧
  server_sim (serve h more body sv1).2 (serve h more body sv2).2.
Proof.
  assert (∀ f sv1 sv2, server_sim sv1 sv2 → server_sim (on_in_flight f sv1) (on_in_flight f sv2)) as Hf.
  { intros f [] [] (? & ? & ? & Hi & ?). unfold server_sim, on_in_flight. simpl in *. by rewrite Hi. }
  intros Hsv. unfold serve. destruct (parse_header body) as [[mt tag]| |]; [|done|done].
  unfold dispatch. destruct (sim_handler_of h more mt tag (drop 3 body) _ _ (Hf (λ n, as_u64 (n + 1)) _ _ Hsv))
    as [Hr Hs]. unfold InFlightGuard_new.
  destruct (handler_of h more mt tag (drop 3 body) (on_in_flight _ sv1)) as [r1 sv1'],
    (handler_of h more mt tag (drop 3 body) (on_in_flight _ sv2)) as [r2 sv2'].
  simpl in *. subst. split; [done | by apply Hf].
Qed.

Lemma sim_run h more fuel input sv1 sv2 :
  server_sim sv1 sv2 →
  let '(r1, out1, sv1') := run_fuel h more fuel input sv1 in
  let '(r2, out2, sv2') := run_fuel h more fuel input sv2 in
  r1 = r2 ∧ out1 = out2 ∧ server_sim sv1' sv2'.
Proof.
  revert input sv1 sv2. induction fuel as [|fuel IH]; intros input sv1 sv2 Hsv; [done|].
  cbn [run_fuel]. destruct (_ <? 4)%nat; [done|].
  assert (max_frame sv1 = max_frame sv2) as ->
    by (destruct Hsv as (_ & E1 & E2 & _); unfold max_frame; by rewrite E1, E2).
  destruct (validate_message_size _ _); [|done|done]. destruct (_ <? _)%nat; [done|].
  destruct (sim_serve h more (take (Z.to_nat (le_value (take 4 input) - 4)) (drop 4 input)) sv1 sv2 Hsv)
    as [Ho Hs].
  destruct (serve h more _ sv1) as [out1 sv1'], (serve h more _ sv2) as [out2 sv2']. simpl in Ho, Hs. subst.
  specialize (IH (drop (Z.to_nat (le_value (take 4 input) - 4)) (drop 4 input)) sv1' sv2' Hs).
  destruct (run_fuel _ _ _ _ sv1') as [[r1 o1] s1], (run_fuel _ _ _ _ sv2') as [[r2 o2] s2].
  destruct IH as (-> & -> & ?). done.
Qed.

End server.

(** ** The tracking decorator is transparent *)

Section tracking.
Context {S : Type} `{HasTree S}.

(** The server of [sv] with its interceptor decorated. *)
Definition track (rw : RecentBackendWrites) (now : Z) (sv : P9Server S) : P9Server (tracked S) :=
  let e := sv_env sv in
  mkServer (mkEnv (e_table e) (mkTracked (e_os e) rw now) (e_unlinked e) (e_gen e))
    (sv_msize sv) (sv_negotiated sv) ((λ i h, WriteTrackingInterceptor (i h)) <$> sv_interceptor sv)
    (sv_in_flight sv).

(** C39. Decorating the interceptor changes nothing a client sees: on every
    input the server ends the same way, sends the same bytes and leaves the
    same FIDs and the same host state. *)
Theorem tracking_transparent h more input rw now (sv : P9Server S) :
  let '(r1, out1, sv1) := run h more input (track rw now sv) in
  let '(r2, out2, sv2) := run h more input sv in
  r1 = r2 ∧ out1 = out2 ∧ e_table (sv_env sv1) = e_table (sv_env sv2) ∧
  t_inner (e_os (sv_env sv1)) = e_os (sv_env sv2).
Proof.
  unfold run. pose proof (sim_run (S1 := tracked S) (S2 := S) (λ t s, t_inner t = s)
    ltac:(by intros ? ? <-) ltac:(by intros ? ? ? <-)
    ((λ i h, WriteTrackingInterceptor (i h)) <$> sv_interceptor sv) (sv_interceptor sv)) as Hrun.
  specialize (Hrun ltac:(destruct (sv_interceptor sv) as [i|]; [|done]; intros h' c t s <-;
    rewrite tracking_call; by destruct (call_hook (i h') c (t_inner t)))).
  specialize (Hrun h more (Datatypes.S (length input)) input (track rw now sv) sv ltac:(done)).
  destruct (run_fuel _ _ _ _ (track rw now sv)) as [[r1 o1] sv1], (run_fuel _ _ _ _ sv) as [[r2 o2] sv2].
  destruct Hrun as (-> & -> & He & _). by destruct He as (-> & _ & _ & <-).
Qed.

End tracking.

(** ** The replies of the 9P server

    Every request gets exactly one reply frame, with the tag of the request,
    of the type that answers it or [Rlerror]; the loop is the dispatch of one
    frame after the other. *)

(** ** Encoders only append *)

Definition appends (f : WireWriter → WireWriter) : Prop := ∀ w, ∃ bs, wbuf (f w) = wbuf w ++ bs.

Create HintDb appends discriminated.

Lemma appends_extend bs : appends (extend_from_slice bs).
Proof. intros w. by exists bs. Qed.
Lemma appends_seq f g : appends f → appends g → appends (seqw f g).
Proof.
  intros Hf Hg w. destruct (Hf w) as [b1 E1], (Hg (f w)) as [b2 E2]. exists (b1 ++ b2).
  unfold seqw. by rewrite E2, E1, app_assoc.
Qed.
Lemma appends_fold {A} (f : A → WireWriter → WireWriter) l :
  (∀ x, appends (f x)) → appends (λ w, fold_left (λ w x, f x w) l w).
Proof.
  intros Hf. induction l as [|x l IH]; intros w; simpl; [exists []; by rewrite app_nil_r|].
  destruct (Hf x w) as [b1 E1], (IH (f x w)) as [b2 E2]. exists (b1 ++ b2).
  by rewrite E2, E1, app_assoc.
Qed.
#[export] Hint Resolve appends_extend appends_seq : appends.

Lemma appends_u8 v : appends (write_u8 v).
Proof. apply appends_extend. Qed.
Lemma appends_u16 v : appends (write_u16 v).
Proof. apply appends_extend. Qed.
Lemma appends_u32 v : appends (write_u32 v).
Proof. apply appends_extend. Qed.
Lemma appends_u64 v : appends (write_u64 v).
Proof. apply appends_extend. Qed.
#[export] Hint Resolve appends_u8 appends_u16 appends_u32 appends_u64 : appends.
Lemma appends_string s : appends (write_string s).
Proof. apply (appends_seq (write_u16 _) (extend_from_slice _)); auto with appends. Qed.
Lemma appends_qid q : appends (write_qid q).
Proof.
  apply (appends_seq (write_u8 _) (seqw (write_u32 _) (write_u64 _))); auto with appends.
Qed.
Lemma appends_data d : appends (write_data d).
Proof. apply (appends_seq (write_u32 _) (extend_from_slice _)); auto with appends. Qed.
#[export] Hint Resolve appends_string appends_qid appends_data : appends.
Lemma appends_qids qs : appends (write_qids qs).
Proof.
  apply (appends_seq (write_u16 _) (λ w, fold_left (λ w q, write_qid q w) qs w)); auto with appends.
  apply (appends_fold write_qid). auto with appends.
Qed.
#[export] Hint Resolve appends_qids : appends.

Lemma appends_Rversion (m : Rversion) : appends (encode m).
Proof. cbv beta iota delta [encode Message_Rversion encode_Rversion]. auto 50 with appends. Qed.
Lemma appends_Rlerror (m : Rlerror) : appends (encode m).
Proof. cbv beta iota delta [encode Message_Rlerror encode_Rlerror]. auto 50 with appends. Qed.
Lemma appends_Rattach (m : Rattach) : appends (encode m).
Proof. cbv beta iota delta [encode Message_Rattach encode_Rattach]. auto 50 with appends. Qed.
Lemma appends_Rwalk (m : Rwalk) : appends (encode m).
Proof. cbv beta iota delta [encode Message_Rwalk encode_Rwalk]. auto 50 with appends. Qed.
Lemma appends_Rgetattr (m : Rgetattr) : appends (encode m).
Proof. cbv beta iota delta [encode Message_Rgetattr encode_Rgetattr]. auto 50 with appends. Qed.
Lemma appends_Rlopen (m : Rlopen) : appends (encode m).
Proof. cbv beta iota delta [encode Message_Rlopen encode_Rlopen]. auto 50 with appends. Qed.
Lemma appends_Rread (m : Rread) : appends (encode m).
Proof. cbv beta iota delta [encode Message_Rread encode_Rread]. auto 50 with appends. Qed.
Lemma appends_Rreaddir (m : Rreaddir) : appends (encode m).
Proof. cbv beta iota delta [encode Message_Rreaddir encode_Rreaddir]. auto 50 with appends. Qed.
Lemma appends_Rstatfs (m : Rstatfs) : appends (encode m).
Proof. cbv beta iota delta [encode Message_Rstatfs encode_Rstatfs]. auto 50 with appends. Qed.
Lemma appends_Rlcreate (m : Rlcreate) : appends (encode m).
Proof. cbv beta iota delta [encode Message_Rlcreate encode_Rlcreate]. auto 50 with appends. Qed.
Lemma appends_Rwrite (m : Rwrite) : appends (encode m).
Proof. cbv beta iota delta [encode Message_Rwrite encode_Rwrite]. auto 50 with appends. Qed.
Lemma appends_Rmkdir (m : Rmkdir) : appends (encode m).
Proof. cbv beta iota delta [encode Message_Rmkdir encode_Rmkdir]. auto 50 with appends. Qed.
Lemma appends_Rsymlink (m : Rsymlink) : appends (encode m).
Proof. cbv beta iota delta [encode Message_Rsymlink encode_Rsymlink]. auto 50 with appends. Qed.
Lemma appends_Rreadlink (m : Rreadlink) : appends (encode m).
Proof. cbv beta iota delta [encode Message_Rreadlink encode_Rreadlink]. auto 50 with appends. Qed.
#[export] Hint Resolve appends_Rversion appends_Rlerror appends_Rattach appends_Rwalk appends_Rgetattr appends_Rlopen appends_Rread
  appends_Rreaddir appends_Rstatfs appends_Rlcreate appends_Rwrite appends_Rmkdir appends_Rsymlink appends_Rreadlink : appends.

(** ** Reply frames *)

(** A frame of type [ty] and tag [tag], with its length in front. *)
Definition frame (ty tag : Z) (b : list Z) : Prop :=
  ∃ rest, b = le_bytes 4 (as_u32 (Z.of_nat (length b))) ++ ty :: le_bytes 2 tag ++ rest.

Lemma finish_frame f ty tag :
  appends f → frame ty tag (finish (f (write_u16 tag (write_u8 ty WireWriter_new)))).
Proof.
  intros Hf. destruct (Hf (write_u16 tag (write_u8 ty WireWriter_new))) as [bs E].
  exists bs. unfold finish. rewrite E.
  assert (∀ x l, length (le_bytes 4 x ++ drop 4 (wbuf (write_u16 tag (write_u8 ty WireWriter_new)) ++ l)) =
                 length (wbuf (write_u16 tag (write_u8 ty WireWriter_new)) ++ l)) as ->.
  { intros x l. rewrite length_app, length_le_bytes, length_drop, length_app. simpl. lia. }
  done.
Qed.

Lemma to_wire_frame `{Message M} (m : M) tag :
  (∀ m : M, appends (encode m)) → frame MSG_TYPE tag (to_wire m tag).
Proof. intros Hm. apply finish_frame, Hm. Qed.

Lemma empty_frame ty tag : frame ty tag (encode_empty_response ty tag).
Proof. apply (finish_frame id). intros w. exists []. by rewrite app_nil_r. Qed.

(** The reply to a request of type [mt]. *)
Definition answers (mt tag : Z) (b : list Z) : Prop :=
  frame RLERROR tag b ∨ frame (mt + 1) tag b.

Lemma answers_error mt tag ecode : answers mt tag (encode_error tag ecode).
Proof. left. refine (to_wire_frame (mkRlerror ecode) tag _). auto with appends. Qed.

Lemma answers_wire `{Message M} mt tag (m : M) :
  MSG_TYPE = mt + 1 → (∀ m : M, appends (encode m)) → answers mt tag (to_wire m tag).
Proof. intros E Hm. right. rewrite <- E. by apply to_wire_frame. Qed.

Lemma answers_empty mt ty tag : ty = mt + 1 → answers mt tag (encode_empty_response ty tag).
Proof. intros ->. right. apply empty_frame. Qed.

(** ** Handlers reply *)

Section replies.
Context {S : Type} `{HasTree S} (P : list Z → Prop).

Abbreviation ServerM := (stm (P9Server S) (list Z)).

(** The replies a part of a handler returns early with, and those a whole
    handler returns. *)
Definition early {A} (m : ServerM A) : Prop := ∀ sv b, (m sv).1 = Err b → P b.
Definition replies (m : ServerM (list Z)) : Prop :=
  ∀ sv b, reply (m sv).1 = Some b → P b.

Lemma replies_bind {A} (m : ServerM A) f : early m → (∀ a, replies (f a)) → replies (m ≫= f).
Proof.
  intros Hm Hf sv b. unfold mbind, stm_bind. specialize (Hm sv).
  destruct (m sv) as [[a|e|] sv']; [apply Hf | intros [= <-]; by apply Hm | done].
Qed.
Lemma replies_ret b : P b → replies (mret b).
Proof. by intros Hb sv b' [= <-]. Qed.
Lemma early_bind {A B} (m : ServerM A) (f : A → ServerM B) :
  early m → (∀ a, early (f a)) → early (m ≫= f).
Proof.
  intros Hm Hf sv b. unfold mbind, stm_bind. specialize (Hm sv).
  destruct (m sv) as [[a|e|] sv']; [apply Hf | intros [= <-]; by apply Hm | done].
Qed.
Lemma early_ret {A} (a : A) : early (mret a).
Proof. by intros sv b ?. Qed.
Lemma early_throw {A} b : P b → early (throw (A := A) b).
Proof. by intros Hb sv b' [= <-]. Qed.
Lemma early_gets {A} (f : P9Server S → A) : early (gets f).
Proof. by intros sv b ?. Qed.
Lemma early_get : early get.
Proof. by intros sv b ?. Qed.
Lemma early_put sv : early (put sv).
Proof. by intros sv' b ?. Qed.
Lemma early_ignore {A} (m : ServerM A) : early (ignore m).
Proof. intros sv b. unfold ignore. by destruct (m sv) as [[] ?]. Qed.
Lemma early_hook i c : early (hook i c).
Proof. intros sv b. unfold hook. by destruct (call_hook i c _) as [[] ?]. Qed.
Lemma early_if_interceptor h f : (∀ i, early (f i)) → early (if_interceptor h f).
Proof. intros Hf. apply early_bind; [apply early_gets|]. intros [i|]; [apply Hf | apply early_ret]. Qed.

Context (tag : Z) (P_error : ∀ ecode, P (encode_error tag ecode)).

Lemma early_operation {A} (m : stm (env S) P9Error A) : early (operation tag m).
Proof.
  intros sv b. unfold operation. destruct (m (sv_env sv)) as [[a|e|] e']; [done | | done].
  intros [= <-]. apply P_error.
Qed.
Lemma early_decoded {M} `{Message M} payload : early (decoded (M := M) tag payload).
Proof.
  intros sv b. unfold decoded. simpl. destruct (decode _) as [[]| |]; [done | | done].
  intros [= <-]. apply P_error.
Qed.
Lemma early_denied {A} : early (denied tag (A := A)).
Proof. by apply early_throw. Qed.
Lemma early_pre_hook i c : early (pre_hook tag i c).
Proof.
  apply early_bind; [apply early_hook|]. intros []; [apply early_denied | apply early_ret].
Qed.
Lemma early_check_name p name : early (check_name tag p name).
Proof. apply early_ret. Qed.
Lemma early_post_hook h c : early (post_hook h c).
Proof. apply early_if_interceptor. intros i. apply early_bind; [apply early_hook | intros ?; apply early_ret]. Qed.

End replies.

Create HintDb replies discriminated.
#[export] Hint Resolve early_ret early_gets early_get early_put early_ignore early_hook early_operation
  early_decoded early_denied early_pre_hook early_check_name early_post_hook answers_error : replies.

Ltac reply_tac :=
  repeat
    (cbv beta zeta;
     lazymatch goal with
     | |- replies _ (_ ≫= _) => apply replies_bind; [|intros ?]
     | |- replies _ (mret _) => apply replies_ret
     | |- early _ (_ ≫= _) => apply early_bind; [|intros ?]
     | |- early _ (if_interceptor _ _) => apply early_if_interceptor; intros ?
     | |- early _ (match ?x with _ => _ end) => destruct x
     | |- early _ _ => solve [auto with replies]
     | |- answers _ _ (encode_error _ _) => apply answers_error
     | |- answers _ _ (encode_empty_response _ _) => by apply answers_empty
     | |- answers _ _ (to_wire _ _) => apply answers_wire; [reflexivity | solve [auto with appends]]
     end).

Section server.
Context {S : Type} `{HasTree S} (h : host) (more : path → node → stat_rest).

Lemma handler_replies mt tag payload :
  replies (S := S) (answers mt tag) (handler_of h more mt tag payload).
Proof.
  unfold handler_of.
  repeat match goal with |- context [?a =? ?b] => destruct (Z.eqb_spec a b) as [->|_] end;
    cbv beta delta [handle_tversion handle_tauth handle_tattach handle_twalk handle_tgetattr handle_tsetattr
      handle_tlopen handle_tlcreate handle_tread handle_twrite handle_treaddir handle_tstatfs
      handle_tfsync handle_tmkdir handle_tunlinkat handle_trenameat handle_tsymlink
      handle_treadlink handle_tlink handle_tmknod handle_tremove handle_tclunk handle_tflush];
    reply_tac.
  apply (answers_error TAUTH tag EOPNOTSUPP).
Qed.

(** An answer is a well-formed frame: its length field is its length, it
    carries the tag of the request, and its type is the one that answers the
    request or [Rlerror]. *)
Lemma dispatch_header mt tag payload (sv : P9Server S) b sv' :
  dispatch h more mt tag payload sv = (Some b, sv') → in_u16 tag →
  Z.of_nat (length b) < 2 ^ 32 →
  le_value (take 4 b) = Z.of_nat (length b) ∧
  ∃ ty, parse_header (drop 4 b) = Ok (ty, tag) ∧ (ty = RLERROR ∨ ty = mt + 1).
Proof.
  unfold dispatch. intros Hd Htag Hlen.
  pose proof (handler_replies mt tag payload sv b) as Ha.
  destruct (handler_of h more mt tag payload sv) as [r sv1]. injection Hd as Hd _. specialize (Ha Hd).
  assert (∀ ty, frame ty tag b → le_value (take 4 b) = Z.of_nat (length b) ∧
                parse_header (drop 4 b) = Ok (ty, tag)) as Hf.
  { intros ty [rest E]. rewrite as_u32_small in E by (unfold in_width; lia).
    assert (length (le_bytes 4 (Z.of_nat (length b))) = 4%nat) as Hl by apply length_le_bytes.
    rewrite E at 1 3. rewrite <- Hl at 1 3. rewrite take_app_length, drop_app_length.
    split; [by apply le_value_le_bytes; simpl; lia|]. simpl. do 2 f_equal.
    apply (le_value_le_bytes 2 tag). done. }
  destruct Ha as [Ha|Ha]; destruct (Hf _ Ha) as [H1 Hp]; (split; [done|]); eauto.
Qed.

End server.
