(* ===== verification/P9Total.v ===== *)
(** * Every request is answered

    No system call of the model panics, no decoder does, and the handlers add
    no panic of their own; so with an interceptor whose hooks do not panic the
    server answers every request. *)

From stdpp Require Import base gmap strings list.
From S2P Require Import Prelude HostFs Common WriteInterceptor RecentWrites P9Wire P9Messages P9Ops P9Server P9Sim.
#[local] Open Scope Z_scope.

(** ** System calls return *)

Definition returns {E A} (o : outcome E A) : Prop := o ≠ Panic.

Create HintDb returns discriminated.

Lemma returns_ok {E A} (a : A) : returns (E := E) (Ok a).
Proof. done. Qed.
Lemma returns_err {E A} (e : E) : returns (A := A) (Err e).
Proof. done. Qed.
Lemma returns_kind {A} k : returns (A := A) (err k).
Proof. done. Qed.
Lemma returns_bind {E A B} (o : outcome E A) (f : A → outcome E B) :
  returns o → (∀ a, returns (f a)) → returns (o ≫= f).
Proof. intros Ho Hf. destruct o; [apply Hf | done | done]. Qed.
Lemma returns_fmap {E A B} (o : outcome E A) (f : A → B) : returns o → returns (f <$> o).
Proof. by destruct o. Qed.
Lemma returns_ok_or {E A} (o : option A) (e : E) : returns (ok_or o e).
Proof. by destruct o. Qed.
#[export] Hint Resolve returns_ok returns_err returns_kind returns_ok_or returns_fmap : returns.

Ltac returning :=
  repeat
    (cbv beta zeta;
     lazymatch goal with
     | |- returns (_ ≫= _) => apply returns_bind; [|intros ?]
     | |- returns (_ <$> _) => apply returns_fmap
     | |- returns (match ?x with _ => _ end) => destruct x
     | |- returns _ => solve [auto with returns]
     end).

Lemma returns_walk budget ns follow cur rest : returns (HostFs.walk budget ns follow cur rest).
Proof.
  revert cur rest. induction budget as [|b IH]; intros cur rest; revert cur;
    induction rest as [|c rest IHr]; intros cur; simpl; try done;
    (destruct (decide (c = "..")); [apply IHr|]);
    (destruct (ns !! _) as [[]|]; [by destruct (decide _) | apply IHr | | by destruct (decide _)]);
    by destruct (_ && _).
Qed.

Lemma returns_resolve ns follow p : returns (resolve ns follow p).
Proof. apply returns_walk. Qed.
#[export] Hint Resolve returns_resolve : returns.
Lemma returns_lookup ns follow p : returns (lookup_node ns follow p).
Proof. unfold lookup_node. returning. Qed.
#[export] Hint Resolve returns_lookup : returns.

Section calls.
Context (h : host).
Lemma returns_read_dir ns p : returns (read_dir h ns p).
Proof. unfold read_dir. returning. Qed.
Lemma returns_read_link ns p : returns (read_link ns p).
Proof. unfold read_link. returning. Qed.
Lemma returns_create_new ns p : returns (fs_create_new h ns p).
Proof. unfold fs_create_new. returning. Qed.
Lemma returns_create_dir ns p : returns (create_dir h ns p).
Proof. unfold create_dir. returning. Qed.
Lemma returns_remove_file ns p : returns (remove_file h ns p).
Proof. unfold remove_file. returning. Qed.
Lemma returns_remove_dir ns p : returns (remove_dir h ns p).
Proof. unfold remove_dir. returning. Qed.
Lemma returns_symlink ns t p : returns (symlink h ns t p).
Proof. unfold symlink. returning. Qed.
Lemma returns_rename ns p q : returns (fs_rename h ns p q).
Proof. unfold fs_rename. returning. Qed.
Lemma returns_canonicalize ns p : returns (canonicalize ns p).
Proof. unfold canonicalize. returning. Qed.
#[local] Hint Resolve returns_canonicalize : returns.
Lemma returns_qid_of ns p : returns (qid_of h ns p).
Proof. unfold qid_of. returning. Qed.
Lemma returns_open ns o p : returns (fs_open h ns o p).
Proof. unfold fs_open, open_checks. returning. Qed.
Lemma returns_set_len ns p n : returns (fs_set_len h ns p n).
Proof. unfold fs_set_len. returning. Qed.
Lemma returns_hard_link ns p q : returns (hard_link ns p q).
Proof. unfold hard_link. returning. Qed.
Lemma returns_attributes more ns p : returns (get_file_attributes h more ns p).
Proof. unfold get_file_attributes. returning. Qed.
End calls.
#[export] Hint Resolve returns_read_dir returns_read_link returns_create_new returns_create_dir
  returns_remove_file returns_remove_dir returns_symlink returns_rename returns_qid_of returns_open
  returns_set_len returns_hard_link returns_attributes : returns.

Lemma returns_walk_names h ns root cur wqids wnames : returns (walk_names h ns root cur wqids wnames).
Proof.
  revert cur wqids. induction wnames as [|name wnames IH]; intros cur wqids; simpl; [done|].
  destruct (negb _); [by destruct (decide _)|].
  pose proof (returns_qid_of h ns (next_path cur name)) as Hq. destruct (qid_of _ _ _); [apply IH | done | done].
Qed.
Lemma walk_names_length h ns root cur wqids wnames qs p :
  walk_names h ns root cur wqids wnames = Ok (qs, p) → (length wqids ≤ length qs)%nat.
Proof.
  revert cur wqids. induction wnames as [|name wnames IH]; intros cur wqids; simpl; [by intros [= <- _]|].
  destruct (negb _); [destruct (decide _); [done|]; by intros [= <- _]|].
  destruct (qid_of _ _ _); [|by intros [= <- _] | done].
  intros E%IH. rewrite length_app in E. simpl in E. lia.
Qed.
Lemma returns_pack h ns p count off data names : returns (pack_entries h ns p count off data names).
Proof.
  revert off data. induction names as [|name names IH]; intros off data; simpl; [done|].
  pose proof (returns_qid_of h ns (path_join p name)) as Hq. destruct (qid_of _ _ _); [|apply IH | done].
  destruct (_ <? _); [done | apply IH].
Qed.
#[export] Hint Resolve returns_walk_names returns_pack : returns.

(** ** The operations return *)

Section operations.
Context {S : Type} `{HasTree S} (h : host).

Lemma never_panics_try {T E A} (m : stm T E A) : never_panics m → never_panics (try m).
Proof. intros Hm s. specialize (Hm s). unfold try. by destruct (m s) as [[] ?]. Qed.
Lemma never_panics_lift {T E A} (o : outcome E A) : returns o → never_panics (S := T) (lift o).
Proof. by intros Ho s. Qed.
Lemma never_panics_look {A} (f : tree → io A) :
  (∀ ns, returns (f ns)) → never_panics (look (S := S) f).
Proof. intros Hf e. unfold look. simpl. specialize (Hf (e_tree e)). by destruct (f (e_tree e)). Qed.
Lemma never_panics_change reloc f : (∀ ns, returns (f ns)) → never_panics (change (S := S) reloc f).
Proof. intros Hf e. unfold change. specialize (Hf (e_tree e)). by destruct (f (e_tree e)). Qed.
Lemma never_panics_on_table {A} (f : FidTable → outcome P9Error (A * FidTable)) :
  (∀ tb, returns (f tb)) → never_panics (on_table (S := S) f).
Proof. intros Hf e. unfold on_table. specialize (Hf (e_table e)). by destruct (f (e_table e)) as [[]| |]. Qed.
Lemma never_panics_get_fid fid : never_panics (get_fid (S := S) fid).
Proof. intros e. unfold get_fid, FidTable_get. simpl. by destruct (_ !! _). Qed.
Lemma never_panics_insert_fid fid st : never_panics (insert_fid (S := S) fid st).
Proof. apply never_panics_on_table. intros tb. unfold FidTable_insert. by destruct (bool_decide _). Qed.
Lemma never_panics_update_fid fid f : never_panics (update_fid (S := S) fid f).
Proof. apply never_panics_on_table. intros tb. unfold FidTable_get_mut, FidTable_get. by destruct (_ !! _). Qed.
Lemma never_panics_remove_fid fid : never_panics (remove_fid (S := S) fid).
Proof. apply never_panics_on_table. intros tb. unfold FidTable_remove, FidTable_get. by destruct (_ !! _). Qed.
#[local] Hint Resolve never_panics_try never_panics_lift never_panics_get_fid never_panics_insert_fid
  never_panics_update_fid never_panics_remove_fid : guarantees.

Ltac env_returns :=
  repeat
    (cbv beta zeta;
     lazymatch goal with
     | |- never_panics (_ ≫= _) => apply never_panics_bind; [|intros ?]
     | |- never_panics (look _) => apply never_panics_look; intros ?; returning
     | |- never_panics (change _ _) => apply never_panics_change; intros ?; returning
     | |- never_panics (lift _) => apply never_panics_lift; returning
     | |- never_panics (match ?x with _ => _ end) => destruct x
     | |- never_panics (ignore _) => apply never_panics_ignore
     | |- never_panics (try _) => apply never_panics_try
     | |- never_panics _ => solve [auto with guarantees]
     end).

Lemma never_panics_walk r : never_panics (handle_walk (S := S) h r).
Proof.
  unfold handle_walk. apply never_panics_bind; [auto with guarantees|]. intros st.
  destruct (Twalk_wnames r) as [|name wnames]; [env_returns|]. cbv zeta.
  apply never_panics_bind; [auto with guarantees|]. intros root.
  apply never_panics_bind; [auto with guarantees|]. intros ns e.
  pose proof (returns_walk_names h ns root (fid_path st) [] (name :: wnames)) as Hw.
  unfold mbind at 1, stm_bind at 1, lift.
  destruct (walk_names h ns root (fid_path st) [] (name :: wnames)) as [[wqids cur]| |]; [|done|done].
  revert e. change (never_panics (
    (if decide (length wqids = length (name :: wnames)) then
       match last wqids with
       | None => panic
       | Some final_qid =>
           if decide (Twalk_newfid r = Twalk_fid r)
           then update_fid (Twalk_fid r) (set_walked cur final_qid)
           else insert_fid (Twalk_newfid r) (FidState_new cur final_qid)
       end
     else mret ());; mret (M := stm (env S) P9Error) (mkRwalk wqids))).
  apply never_panics_bind; [|auto with guarantees].
  destruct (decide _) as [El|]; [|auto with guarantees].
  destruct (last wqids) as [q|] eqn:E; [env_returns|]. apply last_None in E. by subst.
Qed.

Lemma never_panics_attach r : never_panics (handle_attach (S := S) h r).
Proof. unfold handle_attach, qid_from_path. env_returns. Qed.
Lemma never_panics_clunk r : never_panics (handle_clunk (S := S) r).
Proof. unfold handle_clunk. env_returns. Qed.
Lemma never_panics_remove r : never_panics (handle_remove (S := S) h r).
Proof. unfold handle_remove. env_returns. Qed.
Lemma never_panics_getattr more r : never_panics (handle_getattr (S := S) h more r).
Proof. unfold handle_getattr, qid_from_path. env_returns. Qed.
Lemma never_panics_setattr r : never_panics (handle_setattr (S := S) h r).
Proof. unfold handle_setattr. env_returns. Qed.
Lemma never_panics_lopen r m : never_panics (handle_lopen (S := S) h r m).
Proof. unfold handle_lopen, qid_from_path, open_with_flags. env_returns. Qed.
Lemma never_panics_lcreate r m : never_panics (handle_lcreate (S := S) h r m).
Proof. unfold handle_lcreate, qid_from_path. env_returns. Qed.
Lemma never_panics_get_handle fid : never_panics (get_handle (S := S) fid).
Proof. unfold get_handle. env_returns. Qed.
#[local] Hint Resolve never_panics_get_handle : guarantees.
Lemma never_panics_read r : never_panics (handle_read (S := S) r).
Proof. unfold handle_read, seek, file_read. env_returns. Qed.
Lemma never_panics_write r : never_panics (handle_write (S := S) h r).
Proof. unfold handle_write, seek, file_write, set_contents. env_returns. Qed.
Lemma never_panics_fsync r : never_panics (handle_fsync (S := S) r).
Proof. unfold handle_fsync. env_returns. Qed.
Lemma never_panics_readdir r : never_panics (handle_readdir (S := S) h r).
Proof. unfold handle_readdir. env_returns. Qed.
Lemma never_panics_mkdir r : never_panics (handle_mkdir (S := S) h r).
Proof. unfold handle_mkdir, qid_from_path. env_returns. Qed.
Lemma never_panics_unlinkat r : never_panics (handle_unlinkat (S := S) h r).
Proof. unfold handle_unlinkat. env_returns. Qed.
Lemma never_panics_renameat r : never_panics (handle_renameat (S := S) h r).
Proof. unfold handle_renameat. env_returns. Qed.
Lemma never_panics_statfs fid : never_panics (handle_statfs (S := S) fid).
Proof. unfold handle_statfs. env_returns. Qed.
Lemma never_panics_symlink r : never_panics (handle_symlink (S := S) h r).
Proof. unfold handle_symlink, qid_from_path. env_returns. Qed.
Lemma never_panics_readlink r : never_panics (handle_readlink (S := S) r).
Proof. unfold handle_readlink. env_returns. Qed.
Lemma never_panics_link r : never_panics (handle_link (S := S) r).
Proof. unfold handle_link. env_returns. Qed.
End operations.

#[export] Hint Resolve never_panics_get_fid never_panics_remove_fid never_panics_attach never_panics_clunk
  never_panics_remove never_panics_walk never_panics_getattr never_panics_setattr never_panics_lopen
  never_panics_lcreate never_panics_read never_panics_write never_panics_fsync never_panics_readdir
  never_panics_mkdir never_panics_unlinkat never_panics_renameat never_panics_statfs
  never_panics_symlink never_panics_readlink never_panics_link : guarantees.

(** ** The server answers *)

(** A host for concrete runs. *)
Definition sample_host9 : host := mkHost 5000 420 493 (λ _, 4096) (λ l, l).

Section server.
Context {S : Type} `{HasTree S} (h : host) (more : path → node → stat_rest).
Context (i : option (host → WriteInterceptor S)).
Context (hooks_return : ∀ j h c, i = Some j → never_panics (call_hook (j h) c)).

(** On servers with the interceptor [i], which no handler replaces. *)
Definition safe {A} (m : stm (P9Server S) (list Z) A) : Prop :=
  ∀ sv, sv_interceptor sv = i → (m sv).1 ≠ Panic ∧ sv_interceptor (m sv).2 = i.

Lemma safe_bind {A B} (m : stm (P9Server S) (list Z) A) (f : A → stm (P9Server S) (list Z) B) :
  safe m → (∀ a, safe (f a)) → safe (m ≫= f).
Proof.
  intros Hm Hf sv Hi. destruct (Hm sv Hi) as [H1 H2]. unfold mbind, stm_bind.
  destruct (m sv) as [[a|e|] sv']; [by apply Hf | done | done].
Qed.
Lemma safe_ret {A} (a : A) : safe (mret a).
Proof. done. Qed.
Lemma safe_throw {A} b : safe (throw (A := A) b).
Proof. done. Qed.
Lemma safe_gets {A} (f : P9Server S → A) : safe (gets f).
Proof. done. Qed.
Lemma safe_ignore {A} (m : stm (P9Server S) (list Z) A) : safe m → safe (ignore m).
Proof. intros Hm sv Hi. destruct (Hm sv Hi). unfold ignore. by destruct (m sv) as [[] ?]. Qed.
Lemma safe_operation {A} tag (m : stm (env S) P9Error A) : never_panics m → safe (operation tag m).
Proof.
  intros Hm sv Hi. specialize (Hm (sv_env sv)). unfold operation.
  by destruct (m (sv_env sv)) as [[] ?].
Qed.
Lemma safe_decoded {M} `{MessageLaws M} tag payload : safe (decoded (M := M) tag payload).
Proof.
  intros sv Hi. unfold decoded. simpl. split; [|done].
  pose proof (message_steady (M := M) (WireReader_new payload) (Nat.le_0_l _)) as Hs.
  by destruct (decode _) as [[]| |].
Qed.
Lemma safe_hook j c : i = Some j → safe (hook (j h) c).
Proof.
  intros Ej sv Hi. unfold hook. specialize (hooks_return j h c Ej (e_os (sv_env sv))).
  by destruct (call_hook (j h) c _) as [[] ?].
Qed.
Lemma safe_if_interceptor f : (∀ j, i = Some j → safe (f (j h))) → safe (if_interceptor h f).
Proof.
  intros Hf sv Hi. unfold if_interceptor, mbind, stm_bind, gets.
  destruct (sv_interceptor sv) as [j|] eqn:E; [|by rewrite <- E in Hi].
  apply (Hf j (eq_sym Hi)). congruence.
Qed.
Lemma safe_pre_hook j tag c : i = Some j → safe (pre_hook tag (j h) c).
Proof. intros Ej. apply safe_bind; [by apply safe_hook|]. by intros []. Qed.
Lemma safe_post_hook c : safe (post_hook h c).
Proof. apply safe_if_interceptor. intros j Ej. apply safe_bind; [by apply safe_hook | done]. Qed.

Ltac server_returns :=
  repeat
    (cbv beta zeta;
     lazymatch goal with
     | |- safe (_ ≫= _) => apply safe_bind; [|intros ?]
     | |- safe (if_interceptor _ _) => apply safe_if_interceptor; intros ? ?
     | |- safe (match ?x with _ => _ end) => destruct x
     | |- safe (ignore _) => apply safe_ignore
     | |- safe (operation _ _) => apply safe_operation; solve [auto with guarantees]
     | |- safe (decoded _ _) => apply safe_decoded
     | |- safe (hook _ _) => by apply safe_hook
     | |- safe (pre_hook _ _ _) => by apply safe_pre_hook
     | |- safe (post_hook _ _) => apply safe_post_hook
     | |- safe _ => done
     end).

Lemma safe_tversion tag payload : safe (handle_tversion tag payload).
Proof. apply safe_bind; [apply safe_decoded|]. by intros request sv Hi. Qed.

Lemma safe_handler_of mt tag payload : safe (handler_of h more mt tag payload).
Proof.
  unfold handler_of.
  repeat match goal with |- context [?a =? ?b] => destruct (Z.eqb_spec a b) as [->|_] end;
    try apply safe_tversion;
    cbv beta delta [handle_tauth handle_tattach handle_twalk handle_tgetattr handle_tsetattr
      handle_tlopen handle_tlcreate handle_tread handle_twrite handle_treaddir handle_tstatfs
      handle_tfsync handle_tmkdir handle_tunlinkat handle_trenameat handle_tsymlink
      handle_treadlink handle_tlink handle_tmknod handle_tremove handle_tclunk handle_tflush];
    server_returns.
Qed.

(** C40. The server answers every request, with a well-formed frame that
    carries the tag of the request and the type that answers it or [Rlerror],
    provided the hooks of the interceptor do not panic. *)
Theorem request_answered mt tag payload (sv : P9Server S) :
  sv_interceptor sv = i → in_u16 tag →
  ∃ b sv', dispatch h more mt tag payload sv = (Some b, sv') ∧
    (Z.of_nat (length b) < 2 ^ 32 →
       le_value (take 4 b) = Z.of_nat (length b) ∧
       ∃ ty, parse_header (drop 4 b) = Ok (ty, tag) ∧ (ty = RLERROR ∨ ty = mt + 1)).
Proof.
  intros Hi Htag. destruct (safe_handler_of mt tag payload sv Hi) as [Hp _].
  destruct (dispatch h more mt tag payload sv) as [[b|] sv'] eqn:E.
  - exists b, sv'. split; [done|]. intros Hlen. by eapply dispatch_header.
  - exfalso. unfold dispatch in E. destruct (handler_of h more mt tag payload sv) as [[] ?]; by simplify_eq/=.
Qed.

End server.

Lemma request_answered_witness :
  ∃ b sv', dispatch sample_host9 (λ _ _, mkStatRest 0 0 1 0 4096 8 0 0) TCLUNK 7 (le_bytes 4 3)
             (with_interceptor (λ _, permissive) (P9Server_new ["w"] (∅ : tree))) = (Some b, sv') ∧
    parse_header (drop 4 b) = Ok (RLERROR, 7).
Proof.
  destruct (request_answered sample_host9 (λ _ _, mkStatRest 0 0 1 0 4096 8 0 0)
    (Some (λ _, permissive)) ltac:(by intros j h [] [= <-]) TCLUNK 7 (le_bytes 4 3)
    (with_interceptor (λ _, permissive) (P9Server_new ["w"] (∅ : tree))) eq_refl ltac:(by vm_compute))
    as (b & sv' & Hd & Hb).
  exists b, sv'. split; [exact Hd|]. vm_compute in Hd. injection Hd as <- _.
  destruct Hb as (_ & ty & Hp & _); [by vm_compute|]. by vm_compute.
Defined.
