(* ===== verification/P9Loop.v ===== *)
(** * The server loop

    [run] terminates on every input, serves the frames of a stream one after
    the other, and keeps the in-flight counter balanced. *)

From stdpp Require Import base gmap strings list.
From S2P Require Import Prelude HostFs Common WriteInterceptor RecentWrites P9Wire P9Messages P9Ops P9Server P9Sim P9Total.
#[local] Open Scope Z_scope.

Section loop.
Context {S : Type} `{HasTree S} (h : host) (more : path → node → stat_rest).

(** A body with its length in front. *)
Definition framed (body : list Z) : list Z := le_bytes 4 (4 + Z.of_nat (length body)) ++ body.

Lemma validate_ok size max :
  MIN_MESSAGE_SIZE ≤ size ≤ max → validate_message_size size max = Ok ().
Proof.
  intros [H1 H2]. unfold validate_message_size.
  rewrite (proj2 (Z.ltb_ge size MIN_MESSAGE_SIZE)), (proj2 (Z.ltb_ge max size)) by lia. done.
Qed.

Lemma validate_inv size max u :
  validate_message_size size max = Ok u → MIN_MESSAGE_SIZE ≤ size ≤ max.
Proof.
  unfold validate_message_size. destruct (Z.ltb_spec size MIN_MESSAGE_SIZE); [done|].
  by destruct (Z.ltb_spec max size).
Qed.

(** Fuel beyond the length of the input changes nothing. *)
Lemma run_fuel_enough fuel fuel' input (sv : P9Server S) :
  (length input < fuel)%nat → (length input < fuel')%nat →
  run_fuel h more fuel input sv = run_fuel h more fuel' input sv ∧
  (run_fuel h more fuel input sv).1.1 ≠ Panic.
Proof.
  revert fuel' input sv. induction fuel as [|fuel IH]; intros [|fuel'] input sv Hf Hf'; try lia.
  cbn [run_fuel]. destruct (Nat.ltb_spec (length input) 4); [done|].
  destruct (validate_message_size _ _) as [u| |] eqn:Ev; [|done|].
  - apply validate_inv in Ev. unfold MIN_MESSAGE_SIZE in Ev.
    set (n := Z.to_nat (le_value (take 4 input) - 4)).
    destruct (Nat.ltb_spec (length (drop 4 input)) n); [done|].
    destruct (serve h more (take n (drop 4 input)) sv) as [out sv1].
    destruct (IH fuel' (drop n (drop 4 input)) sv1) as [E Hp];
      [rewrite !length_drop; lia | rewrite !length_drop; lia |].
    rewrite <- E. by destruct (run_fuel h more fuel _ sv1) as [[r outs] sv2].
  - exfalso. unfold validate_message_size in Ev. destruct (_ <? MIN_MESSAGE_SIZE); [done|]. by destruct (_ <? _).
Qed.

(** The loop is the service of one frame after the other: whatever follows
    it, a frame that fits is served, its reply is sent first, and the loop goes
    on with the rest in the state the request left. *)
Theorem run_frame body rest (sv : P9Server S) :
  3 ≤ Z.of_nat (length body) → 4 + Z.of_nat (length body) ≤ max_frame sv →
  4 + Z.of_nat (length body) < 2 ^ 32 →
  run h more (framed body ++ rest) sv =
  let '(out, sv1) := serve h more body sv in
  let '(r, outs, sv2) := run h more rest sv1 in (r, out ++ outs, sv2).
Proof.
  intros H3 Hmax H32. unfold run at 1, framed. cbn [run_fuel].
  assert (length (le_bytes 4 (4 + Z.of_nat (length body))) = 4%nat) as Hl by apply length_le_bytes.
  rewrite <- app_assoc.
  set (hd := le_bytes 4 (4 + Z.of_nat (length body))) in *.
  replace (length (hd ++ body ++ rest) <? 4)%nat with false
    by (symmetry; apply Nat.ltb_ge; rewrite length_app; lia).
  rewrite take_app_length', !drop_app_length' by done.
  subst hd. rewrite le_value_le_bytes by (simpl; lia).
  rewrite validate_ok by (unfold MIN_MESSAGE_SIZE; lia).
  replace (Z.to_nat (4 + Z.of_nat (length body) - 4)) with (length body) by lia.
  replace (length (body ++ rest) <? length body)%nat with false
    by (symmetry; apply Nat.ltb_ge; rewrite length_app; lia).
  rewrite take_app_length, drop_app_length. destruct (serve h more body sv) as [out sv1].
  unfold run. rewrite !length_app, Hl.
  by rewrite (proj1 (run_fuel_enough (4 + (length body + length rest)) (Datatypes.S (length rest))
    rest sv1 ltac:(lia) ltac:(lia))).
Qed.

(** The loop terminates on every input, however malformed. *)
Theorem run_terminates input (sv : P9Server S) : (run h more input sv).1.1 ≠ Panic.
Proof. unfold run. by apply (run_fuel_enough _ (Datatypes.S (length input))); lia. Qed.

(** ** What no handler changes

    A relation that holds across every change of the environment and across
    version negotiation holds across every request. *)
Section guarantee.
Context (R : P9Server S → P9Server S → Prop) `{!PreOrder R}.
Context (R_env : ∀ e sv, R sv (set_env e sv)).
Context (R_version : ∀ request sv,
  R sv (mkServer (set_table (FidTable_new (root_path (e_table (sv_env sv)))) (sv_env sv))
          (Rversion_msize (handle_version request (sv_msize sv))) true
          (sv_interceptor sv) (sv_in_flight sv))).

Abbreviation keeps := (guarantees (E := list Z) R).

Lemma keeps_operation {A} tag (m : stm (env S) P9Error A) : keeps (operation tag m).
Proof. intros sv. unfold operation. destruct (m (sv_env sv)). apply R_env. Qed.
Lemma keeps_decoded {M} `{Message M} tag payload : keeps (decoded (M := M) tag payload).
Proof. intros sv. simpl. reflexivity. Qed.
Lemma keeps_hook i c : keeps (hook i c).
Proof. intros sv. unfold hook. destruct (call_hook i c _). apply R_env. Qed.
Lemma keeps_if_interceptor f : (∀ i, keeps (f i)) → keeps (if_interceptor h f).
Proof.
  intros Hf. apply guarantees_bind; [apply _ | apply guarantees_gets, _|].
  intros [i|]; [apply Hf | apply guarantees_ret, _].
Qed.
#[local] Hint Resolve keeps_operation keeps_decoded keeps_hook : guarantees.
Lemma keeps_pre_hook i tag c : keeps (pre_hook tag i c).
Proof. unfold pre_hook, denied. guarantee. Qed.
Lemma keeps_post_hook c : keeps (post_hook h c).
Proof. apply keeps_if_interceptor. intros i. guarantee. Qed.
Lemma keeps_check_name tag p name : keeps (check_name tag p name).
Proof. apply guarantees_ret, _. Qed.
Lemma keeps_tversion tag payload : keeps (handle_tversion tag payload).
Proof.
  apply guarantees_bind; [apply _ | apply keeps_decoded|]. intros request sv. apply R_version.
Qed.
#[local] Hint Resolve keeps_pre_hook keeps_post_hook keeps_check_name : guarantees.

Lemma keeps_handler_of mt tag payload : keeps (handler_of h more mt tag payload).
Proof.
  unfold handler_of.
  repeat match goal with |- context [?a =? ?b] => destruct (Z.eqb_spec a b) as [->|_] end;
    try apply keeps_tversion;
    cbv beta delta [handle_tauth handle_tattach handle_twalk handle_tgetattr handle_tsetattr
      handle_tlopen handle_tlcreate handle_tread handle_twrite handle_treaddir handle_tstatfs
      handle_tfsync handle_tmkdir handle_tunlinkat handle_trenameat handle_tsymlink
      handle_treadlink handle_tlink handle_tmknod handle_tremove handle_tclunk handle_tflush denied];
    repeat (guarantee; try (apply keeps_if_interceptor; intros)).
Qed.
End guarantee.

(** The settings of a server: the interceptor and the counter stay, the message
    size never grows, and once negotiated it stays negotiated. *)
Definition settings (sv sv' : P9Server S) : Prop :=
  sv_in_flight sv' = sv_in_flight sv ∧ sv_interceptor sv' = sv_interceptor sv ∧
  sv_msize sv' ≤ sv_msize sv ∧ (sv_negotiated sv = true → sv_negotiated sv' = true).

#[export] Instance settings_preorder : PreOrder settings.
Proof.
  split; [by intros sv|].
  intros sv1 sv2 sv3 (? & ? & ? & ?) (? & ? & ? & ?). split_and!; [congruence | congruence | lia | auto].
Qed.

Lemma settings_kept mt tag payload (sv : P9Server S) :
  settings sv (handler_of h more mt tag payload sv).2.
Proof.
  apply (keeps_handler_of settings); [done|].
  intros request sv'. split_and!; simpl; [done | done | lia | done].
Qed.

(** ** In-flight requests *)

(** The in-flight counter is balanced: after a request, panicking or not,
    it is what it was before. *)
Theorem serve_balanced body n (sv : P9Server S) :
  sv_in_flight sv = Some n → 0 ≤ n < 2 ^ 64 - 1 →
  sv_in_flight (serve h more body sv).2 = Some n.
Proof.
  intros Hn Hr. unfold serve. destruct (parse_header body) as [[mt tag]| |]; [|done|done].
  unfold dispatch. pose proof (settings_kept mt tag (drop 3 body) (InFlightGuard_new sv)) as [Hk _].
  destruct (handler_of h more mt tag (drop 3 body) (InFlightGuard_new sv)) as [r sv']. simpl in *.
  rewrite Hk, Hn. simpl. unfold as_u64. rewrite (Z.mod_small (n + 1)) by lia.
  rewrite Z.mod_small by lia. f_equal. lia.
Qed.

End loop.

(** An interceptor that panics, and one request in flight beside ours. *)
Definition panicking : WriteInterceptor tree := {|
  wi_pre_write _ := panic;
  wi_pre_unlink _ _ := panic;
  wi_pre_rename _ _ := panic;
  wi_post_create _ := panic;
  wi_post_mkdir _ := panic;
  wi_pre_setattr _ := panic;
  wi_pre_link _ _ := panic;
  wi_post_symlink _ _ := panic;
  wi_pre_xattr _ := panic;
  wi_pre_open_trunc _ := panic;
  wi_pre_fallocate _ := panic;
  wi_pre_copy_file_range _ := panic;
  wi_current_step _ := None;
|}.

Definition sample_stat (p : path) (n : node) : stat_rest := mkStatRest 0 0 1 0 4096 8 0 0.

(** A server on [/w] with an attached root. *)
Definition sample_tree9 : tree :=
  list_to_map [([], Dir (mkMeta 493 1000 ∅)); (["w"], Dir (mkMeta 493 1000 ∅));
               (["w"; "a"], File (mkMeta 420 1000 ∅) [104; 105]);
               (["w"; "d"], Dir (mkMeta 493 1000 ∅));
               (["etc"], File (mkMeta 420 1000 ∅) [1])].

Definition attached {S} `{HasTree S} (s : S) : P9Server S :=
  (dispatch sample_host9 sample_stat TATTACH 1 (drop 7 (to_wire (mkTattach 0 0 "u" "" 0) 1))
     (P9Server_new ["w"] s)).2.

Lemma serve_balanced_witness :
  sv_in_flight (serve sample_host9 sample_stat (drop 4 (to_wire (mkTunlinkat 0 "a" 0) 2))
    (with_in_flight 1 (with_interceptor (λ _, panicking) (attached sample_tree9)))).2 = Some 1.
Proof. apply serve_balanced; [reflexivity | by vm_compute]. Defined.

Lemma run_frame_witness :
  (run sample_host9 sample_stat (framed (drop 4 (to_wire (mkTclunk 0) 2)) ++ [1; 2]) (attached sample_tree9)).1
  = (Ok (), encode_empty_response RCLUNK 2).
Proof. rewrite run_frame; [by vm_compute | by vm_compute | by vm_compute | by vm_compute]. Defined.
