(* ===== verification/P9Facts.v ===== *)
(** * What the operations of the 9P server do

    Containment of walks, the pages of a directory listing, reading back what
    was written, and the FIDs a request leaves alone.

    The second part is a frame rule: a relation that the steps of a request
    keep is kept by the request. *)

From stdpp Require Import base gmap strings list.
From S2P Require Import Prelude HostFs Common WriteInterceptor RecentWrites P9Wire P9Messages P9Ops P9Server P9Sim P9Total P9Loop.
#[local] Open Scope Z_scope.

(** ** Walks stay inside the share *)

(** The path is one of an existing file whose real location is below the real
    location of the root. *)
Definition inside (ns : tree) (root p : path) : Prop :=
  ∃ q qroot, canonicalize ns p = Ok q ∧ canonicalize ns root = Ok qroot ∧ qroot `prefix_of` q.

Lemma qid_of_exists h ns p qid : qid_of h ns p = Ok qid → ∃ q, canonicalize ns p = Ok q.
Proof.
  unfold qid_of. intros ([q n] & _ & Hq)%bind_ok_inv.
  apply bind_ok_inv in Hq as (c & Hc & _). by exists c.
Qed.

Lemma walk_names_spec h ns root cur wqids wnames qs p :
  is_ok (canonicalize ns root) = true →
  walk_names h ns root cur wqids wnames = Ok (qs, p) →
  (length qs ≤ length wqids + length wnames)%nat ∧
  (length qs = length wqids + length wnames → wnames ≠ [] → inside ns root p)%nat.
Proof.
  intros Hroot. revert cur wqids. induction wnames as [|name wnames IH]; intros cur wqids; simpl.
  { intros [= <- <-]. split; [lia | done]. }
  destruct (is_contained ns (next_path cur name) root) eqn:Hc; simpl.
  2: { destruct (decide _); [done|]. intros [= <- <-]. split; lia. }
  destruct (qid_of h ns (next_path cur name)) as [qid| |] eqn:Hq; [|intros [= <- <-]; split; lia | done].
  intros Hw. destruct (IH _ _ Hw) as [Hle Hin]. rewrite length_app in Hle, Hin. simpl in Hle, Hin.
  split; [lia|]. intros Hlen _. destruct wnames as [|name' wnames]; [|apply Hin; [lia | done]].
  simpl in Hw. simplify_eq. destruct (qid_of_exists _ _ _ _ Hq) as [q Hcq].
  unfold is_contained in Hc. rewrite Hcq in Hc.
  destruct (canonicalize ns root) as [qroot| |] eqn:Er; [|done|done].
  apply bool_decide_eq_true in Hc. by exists q, qroot.
Qed.


(** ** Directory listings *)

(** The entries of a listing from offset [off] on. *)
Fixpoint entries_from (h : host) (ns : tree) (dir_path : path) (off : Z) (names : list string)
    : list (list Z) :=
  match names with
  | [] => []
  | name :: names' =>
      match qid_of h ns (path_join dir_path name) with
      | Ok qid => entry_bytes qid (off + 1) (dtype_of qid) name :: entries_from h ns dir_path (off + 1) names'
      | _ => []
      end
  end.

Lemma length_entry_bytes qid off ty name :
  length (entry_bytes qid off ty name) = (24 + String.length name)%nat.
Proof.
  unfold entry_bytes. rewrite !length_app, !length_le_bytes, length_bytes_of_string. simpl. lia.
Qed.

Lemma pack_entries_page h ns p count off data names out :
  Forall (λ name, is_ok (qid_of h ns (path_join p name)) = true) names →
  pack_entries h ns p count off data names = Ok out →
  ∃ k, out = data ++ concat (take k (entries_from h ns p off names)) ∧
    (Z.of_nat (length data) ≤ count → Z.of_nat (length out) ≤ count) ∧
    ∀ name, names !! k = Some name → count < Z.of_nat (length out) + (24 + Z.of_nat (String.length name)).
Proof.
  intros Hall. revert off data. induction Hall as [|name names Hq _ IH]; intros off data; simpl.
  { intros [= <-]. exists 0%nat. by rewrite app_nil_r. }
  destruct (qid_of h ns (path_join p name)) as [qid| |]; [|done|done].
  destruct (Z.ltb_spec count (Z.of_nat (length data) + (13 + 8 + 1 + 2 + Z.of_nat (String.length name)))).
  { intros [= <-]. exists 0%nat. rewrite app_nil_r. split; [done|]. split; [done|].
    intros ? [= <-]. lia. }
  intros (k & -> & Hlen & Hmax)%IH. exists (S k). simpl. rewrite <- app_assoc in Hlen, Hmax |- *.
  split; [done|]. split; [|exact Hmax]. intros _. apply Hlen.
  rewrite length_app, length_entry_bytes. lia.
Qed.

(** A page of a directory listing: the entries from the requested offset
    on, in the order of the host, each with the offset of its successor; as
    many as fit into the requested count, and never more bytes than that. *)
Theorem readdir_page {S} `{HasTree S} h request (e e' : env S) r st names :
  fids (e_table e) !! Treaddir_fid request = Some st →
  read_dir h (e_tree e) (fid_path st) = Ok names →
  Forall (λ name, is_ok (qid_of h (e_tree e) (path_join (fid_path st) name)) = true) names →
  0 ≤ Treaddir_count request →
  handle_readdir h request e = (Ok r, e') →
  let rest := drop (Z.to_nat (Treaddir_offset request)) names in
  e' = e ∧ Z.of_nat (length (Rreaddir_data r)) ≤ Treaddir_count request ∧
  ∃ k, Rreaddir_data r =
         concat (take k (entries_from h (e_tree e) (fid_path st) (Treaddir_offset request) rest)) ∧
    ∀ name, rest !! k = Some name →
      Treaddir_count request < Z.of_nat (length (Rreaddir_data r)) + (24 + Z.of_nat (String.length name)).
Proof.
  intros Hst Hnames Hall Hcount Hr. cbv zeta. unfold handle_readdir in Hr.
  apply stm_bind_inv in Hr as (st' & e1 & Hg & Hr). unfold get_fid, FidTable_get in Hg.
  rewrite Hst in Hg. simpl in Hg. injection Hg as <- <-. cbv zeta in Hr.
  apply stm_bind_inv in Hr as (names' & e1 & Hn & Hr). unfold look in Hn. rewrite Hnames in Hn.
  injection Hn as <- <-.
  apply stm_bind_inv in Hr as (ns & e1 & [= <- <-] & Hr).
  apply stm_bind_inv in Hr as (data & e1 & [Hd ->]%lift_inv & [= <- <-]).
  destruct (pack_entries_page _ _ _ _ _ _ _ _ (Forall_drop _ _ _ Hall) Hd) as (k & Hk & Hlen & Hmax).
  simpl in Hk, Hlen. split; [done|]. split; [apply Hlen; lia|]. exists k. split; [exact Hk | exact Hmax].
Qed.

(** ** Reading back what was written *)

Lemma length_splice_head c off : length (take off (c ++ replicate (off - length c) 0)) = off.
Proof. rewrite length_take, length_app, length_replicate. lia. Qed.

Lemma splice_written c off data : take (length data) (drop off (splice c off data)) = data.
Proof.
  unfold splice. rewrite drop_app_length' by (by rewrite length_splice_head). apply take_app_length.
Qed.

Lemma splice_before c off data i :
  (i < off)%nat → splice c off data !! i = Some (default 0 (c !! i)).
Proof.
  intros Hi. unfold splice. rewrite lookup_app_l by (rewrite length_splice_head; lia).
  rewrite lookup_take_lt by lia. destruct (c !! i) as [x|] eqn:E.
  - by apply lookup_app_l_Some.
  - apply lookup_ge_None in E. rewrite lookup_app_r by done. rewrite lookup_replicate_2 by lia. done.
Qed.

Lemma splice_after c off data i :
  (off + length data ≤ i)%nat → splice c off data !! i = c !! i.
Proof.
  intros Hi. unfold splice. rewrite lookup_app_r, length_splice_head by (rewrite length_splice_head; lia).
  rewrite lookup_app_r by lia. rewrite lookup_drop. f_equal. lia.
Qed.

Section read_back.
Context {S : Type} `{HasTreeLaws S} (h : host).

(** The open file still exists, with a name or without. *)
Definition alive (f : file) (e : env S) : Prop :=
  match f_loc f with
  | Linked q => is_Some (file_at (e_tree e) q)
  | Unlinked g q => is_Some (e_unlinked e !! (g, q))
  end.

#[export] Instance alive_dec f e : Decision (alive f e).
Proof. unfold alive. destruct (f_loc f); apply _. Defined.

Lemma set_contents_spec f c fid st (e : env S) :
  alive f e → fids (e_table e) !! fid = Some st → open_handle st = Some f →
  ∃ e', set_contents h f c e = (Ok (), e') ∧ contents f e' = c ∧ fids (e_table e') !! fid = Some st.
Proof.
  unfold alive, set_contents, contents. intros Ha Hst Hh. destruct f as [[q|g q] r w a]; simpl in *.
  - eexists. split; [reflexivity|]. unfold e_tree at 1 3. simpl. rewrite tree_of_put.
    destruct Ha as [c0 Hc]. unfold file_at in Hc. destruct (e_tree e !! q) as [[m c1| |]|] eqn:Eq; try done.
    unfold file_at. rewrite lookup_alter_eq, Eq. simpl. split; [done|].
    rewrite lookup_fmap, Hst. simpl. f_equal. unfold relocate. rewrite Hh. unfold in_place, reloc_in.
    rewrite lookup_alter_eq, Eq. simpl. by destruct st; simpl in *; subst.
  - eexists. split; [reflexivity|]. simpl. by rewrite lookup_insert_eq.
Qed.

(** Reading back: a write through an open FID succeeds, a read of the same
    range returns the data, the bytes before it are kept (a gap is filled with
    zeros) and so are those after it.  It does not matter whether the file was
    unlinked since it was opened. *)
Theorem write_read_back fid st f (e : env S) off data :
  fids (e_table e) !! fid = Some st → open_handle st = Some f → alive f e →
  f_readable f = true → f_writable f = true → f_append f = false →
  data ≠ [] → 0 ≤ off → off + Z.of_nat (length data) ≤ max_offset →
  Z.of_nat (length data) < 2 ^ 32 →
  ∃ e', handle_write h (mkTwrite fid off data) e = (Ok (mkRwrite (Z.of_nat (length data))), e') ∧
    handle_read (mkTread fid off (Z.of_nat (length data))) e' = (Ok (mkRread data), e') ∧
    (∀ i, (i < Z.to_nat off)%nat → contents f e' !! i = Some (default 0 (contents f e !! i))) ∧
    (∀ i, (Z.to_nat off + length data ≤ i)%nat → contents f e' !! i = contents f e !! i).
Proof.
  intros Hst Hh Ha Hr Hw Hap Hne Hoff Hmax H32.
  destruct (set_contents_spec f (splice (contents f e) (Z.to_nat off) data) fid st e Ha Hst Hh)
    as (e' & Hset & Hc & Hst').
  assert (∀ e : env S, fids (e_table e) !! fid = Some st → get_handle fid e = (Ok f, e)) as Hget.
  { intros e0 He0. unfold get_handle, mbind, stm_bind, get_fid, FidTable_get. rewrite He0. simpl.
    unfold lift. by rewrite Hh. }
  assert (∀ e : env S, seek off e = (Ok (), e)) as Hseek.
  { intros e0. unfold seek. by rewrite (proj2 (Z.ltb_ge _ _)) by lia. }
  exists e'. split_and!.
  - unfold handle_write. rewrite (stm_bind_ok _ _ _ _ _ (Hget e Hst)).
    rewrite (stm_bind_ok _ _ _ _ _ (Hseek e)). unfold file_write. simpl Twrite_data.
    rewrite decide_False by done. rewrite Hw, Hap. simpl.
    rewrite (proj2 (Z.ltb_ge _ _)) by lia. erewrite stm_bind_ok; [|erewrite stm_bind_ok; [exact Hset | done]].
    simpl. rewrite as_u32_small by (unfold in_width; lia). done.
  - unfold handle_read. rewrite (stm_bind_ok _ _ _ _ _ (Hget e' Hst')).
    rewrite (stm_bind_ok _ _ _ _ _ (Hseek e')). unfold file_read. simpl. rewrite Hr. simpl.
    rewrite (proj2 (Z.ltb_ge _ _)) by lia. unfold mbind, stm_bind, gets, mret, stm_ret.
    rewrite Hc, Nat2Z.id, splice_written. done.
  - intros i Hi. rewrite Hc. by apply splice_before.
  - intros i Hi. rewrite Hc. by apply splice_after.
Qed.

End read_back.

(** ** A request changes only the FIDs it names *)

(** Two states of a FID that differ at most in where its open file is. *)
Definition same_fid (st st' : FidState) : Prop :=
  fid_path st' = fid_path st ∧ fid_qid st' = fid_qid st ∧ open_flags st' = open_flags st ∧
  dir_offset st' = dir_offset st ∧ is_open st' = is_open st.

#[export] Instance same_fid_preorder : PreOrder same_fid.
Proof.
  split; [by intros st|]. intros s1 s2 s3 (? & ? & ? & ? & ?) (? & ? & ? & ? & ?).
  split_and!; congruence.
Qed.

Section isolation.
Context {S : Type} `{HasTree S} (h : host) (more : path → node → stat_rest).

Definition only (N : list Z) (e e' : env S) : Prop :=
  ∀ fid, fid ∉ N → option_Forall2 same_fid (fids (e_table e) !! fid) (fids (e_table e') !! fid).

#[export] Instance only_preorder N : PreOrder (only N).
Proof.
  split; [intros e fid _; reflexivity|]. intros e1 e2 e3 H1 H2 fid Hf. etrans; [by apply H1 | by apply H2].
Qed.

Section lemmas.
Context (N : list Z).

Lemma only_settle reloc s e : only N e (settle reloc s e).
Proof.
  intros fid _. simpl. rewrite lookup_fmap. destruct (fids (e_table e) !! fid) as [st|]; constructor.
  unfold relocate. destruct (open_handle st) as [[[q|g q] r w a]|] eqn:Eh; try done.
  unfold same_fid, is_open. simpl. by rewrite Eh.
Qed.

Lemma only_look {A} (f : tree → io A) : guarantees (only N) (look f).
Proof. intros e. simpl. reflexivity. Qed.
Lemma only_get_fid fid : guarantees (only N) (get_fid fid).
Proof. intros e. simpl. reflexivity. Qed.
Lemma only_change reloc f : guarantees (only N) (change reloc f).
Proof. intros e. unfold change. destruct (f (e_tree e)); [apply only_settle | reflexivity | reflexivity]. Qed.
Lemma only_set_contents f c : guarantees (only N) (set_contents h f c).
Proof. unfold set_contents. destruct (f_loc f); [apply only_change|]. intros e fid _. reflexivity. Qed.
Lemma only_get_handle fid : guarantees (only N) (get_handle fid).
Proof. intros e. unfold get_handle, mbind, stm_bind. simpl. destruct (FidTable_get _ _); simpl; reflexivity. Qed.
#[local] Hint Resolve only_look only_get_fid only_change only_set_contents only_get_handle : guarantees.

Lemma only_on_table {A} (f : FidTable → outcome P9Error (A * FidTable)) :
  (∀ tb a tb' fid, f tb = Ok (a, tb') → fid ∉ N → fids tb' !! fid = fids tb !! fid) →
  guarantees (only N) (on_table f).
Proof.
  intros Hf e. unfold on_table. destruct (f (e_table e)) as [[a tb]| |] eqn:E; [|reflexivity|reflexivity].
  intros fid Hn. simpl. rewrite (Hf _ _ _ _ E Hn). reflexivity.
Qed.
Lemma only_insert_fid fid st : fid ∈ N → guarantees (only N) (insert_fid fid st).
Proof.
  intros Hin. apply only_on_table. intros tb a tb' fid' Ht Hn. unfold FidTable_insert in Ht.
  destruct (bool_decide _); [done|]. simplify_eq/=. by rewrite lookup_insert_ne by set_solver.
Qed.
Lemma only_update_fid fid f : fid ∈ N → guarantees (only N) (update_fid fid f).
Proof.
  intros Hin. apply only_on_table. intros tb a tb' fid' Ht Hn. unfold FidTable_get_mut in Ht.
  destruct (FidTable_get fid tb); [|done|done]. simplify_eq/=. by rewrite lookup_insert_ne by set_solver.
Qed.
Lemma only_remove_fid fid : fid ∈ N → guarantees (only N) (remove_fid fid).
Proof.
  intros Hin. apply only_on_table. intros tb a tb' fid' Ht Hn. unfold FidTable_remove in Ht.
  destruct (FidTable_get fid tb); [|done|done]. simplify_eq/=. by rewrite lookup_delete_ne by set_solver.
Qed.
#[local] Hint Resolve only_insert_fid only_update_fid only_remove_fid list_elem_of_here : guarantees.

Ltac env_only := repeat (guarantee; try apply guarantees_modify; try (intros ?; reflexivity)).

Lemma only_attach r : Tattach_fid r ∈ N → guarantees (only N) (handle_attach h r).
Proof. intros. unfold handle_attach, qid_from_path. env_only. Qed.
Lemma only_clunk r : Tclunk_fid r ∈ N → guarantees (only N) (handle_clunk r).
Proof. intros. unfold handle_clunk. env_only. Qed.
Lemma only_remove r : Tremove_fid r ∈ N → guarantees (only N) (handle_remove h r).
Proof. intros. unfold handle_remove. env_only. Qed.
Lemma only_walk r : Twalk_newfid r ∈ N → guarantees (only N) (handle_walk h r).
Proof.
  intros Hin. unfold handle_walk. env_only.
  match goal with E : Twalk_newfid r = _ |- _ => rewrite <- E end. auto with guarantees.
Qed.
Lemma only_getattr r : guarantees (only N) (handle_getattr h more r).
Proof. unfold handle_getattr, qid_from_path. env_only. Qed.
Lemma only_setattr r : guarantees (only N) (handle_setattr h r).
Proof. unfold handle_setattr. env_only. Qed.
Lemma only_lopen r m : Tlopen_fid r ∈ N → guarantees (only N) (handle_lopen h r m).
Proof. intros. unfold handle_lopen, qid_from_path, open_with_flags. env_only. Qed.
Lemma only_lcreate r m : Tlcreate_fid r ∈ N → guarantees (only N) (handle_lcreate h r m).
Proof. intros. unfold handle_lcreate, qid_from_path. env_only. Qed.
Lemma only_read r : guarantees (only N) (handle_read r).
Proof. unfold handle_read, seek, file_read. env_only. Qed.
Lemma only_write r : guarantees (only N) (handle_write h r).
Proof. unfold handle_write, seek, file_write. env_only. Qed.
Lemma only_fsync r : guarantees (only N) (handle_fsync r).
Proof. unfold handle_fsync. env_only. Qed.
Lemma only_readdir r : guarantees (only N) (handle_readdir h r).
Proof. unfold handle_readdir. env_only. Qed.
Lemma only_mkdir r : guarantees (only N) (handle_mkdir h r).
Proof. unfold handle_mkdir, qid_from_path. env_only. Qed.
Lemma only_unlinkat r : guarantees (only N) (handle_unlinkat h r).
Proof. unfold handle_unlinkat. env_only. Qed.
Lemma only_renameat r : guarantees (only N) (handle_renameat h r).
Proof. unfold handle_renameat. env_only. Qed.
Lemma only_statfs fid : guarantees (only N) (handle_statfs fid).
Proof. unfold handle_statfs. env_only. Qed.
Lemma only_symlink r : guarantees (only N) (handle_symlink h r).
Proof. unfold handle_symlink, qid_from_path. env_only. Qed.
Lemma only_readlink r : guarantees (only N) (handle_readlink r).
Proof. unfold handle_readlink. env_only. Qed.
Lemma only_link r : guarantees (only N) (handle_link r).
Proof. unfold handle_link. env_only. Qed.
End lemmas.
#[local] Hint Resolve only_attach only_clunk only_remove only_walk only_getattr only_setattr only_lopen
  only_lcreate only_read only_write only_fsync only_readdir only_mkdir only_unlinkat only_renameat
  only_statfs only_symlink only_readlink only_link only_get_fid only_remove_fid
  list_elem_of_here : guarantees.

(** The server. *)
Definition only_server (N : list Z) (sv sv' : P9Server S) : Prop := only N (sv_env sv) (sv_env sv').

#[export] Instance only_server_preorder N : PreOrder (only_server N).
Proof. split; [intros sv; unfold only_server; reflexivity | intros sv1 sv2 sv3; unfold only_server; by etrans]. Qed.

Section server.
Context (N : list Z).
Abbreviation keeps := (guarantees (E := list Z) (only_server N)).

Lemma keeps_only_operation {A} tag (m : stm (env S) P9Error A) :
  guarantees (only N) m → keeps (operation tag m).
Proof. intros Hm sv. specialize (Hm (sv_env sv)). unfold operation. by destruct (m (sv_env sv)). Qed.
Lemma keeps_only_hook i c : keeps (hook i c).
Proof. intros sv. unfold hook. destruct (call_hook i c _). apply only_settle. Qed.
#[local] Hint Resolve keeps_only_operation keeps_only_hook : guarantees.
Lemma keeps_only_if f : (∀ i, keeps (f i)) → keeps (if_interceptor h f).
Proof.
  intros Hf. apply guarantees_bind; [apply _ | apply guarantees_gets, _|].
  intros [i|]; [apply Hf | apply guarantees_ret, _].
Qed.
Lemma keeps_only_pre i tag c : keeps (pre_hook tag i c).
Proof. unfold pre_hook, denied. guarantee. Qed.
Lemma keeps_only_post c : keeps (post_hook h c).
Proof. apply keeps_only_if. intros i. guarantee. Qed.
Lemma keeps_only_name tag p name : keeps (check_name tag p name).
Proof. apply guarantees_ret, _. Qed.
(** What follows the decoding of the request knows the request. *)
Lemma keeps_only_decoded {M} `{Message M} tag payload (f : M → stm (P9Server S) (list Z) (list Z)) :
  (∀ m r, decode (WireReader_new payload) = Ok (m, r) → keeps (f m)) →
  keeps (decoded (M := M) tag payload ≫= f).
Proof.
  intros Hf sv. unfold mbind, stm_bind, decoded.
  destruct (decode (WireReader_new payload)) as [[m r]| |] eqn:E; [by eapply Hf | |]; simpl; reflexivity.
Qed.
End server.
#[local] Hint Resolve keeps_only_operation keeps_only_hook keeps_only_pre keeps_only_post
  keeps_only_name : guarantees.

(** The FIDs a request may create, change or remove. *)
Definition fid_arg {M} `{Message M} (f : M → Z) (payload : list Z) : list Z :=
  match decode (M := M) (WireReader_new payload) with Ok (m, _) => [f m] | _ => [] end.

Definition named_fids (mt : Z) (payload : list Z) : list Z :=
  if mt =? TATTACH then fid_arg Tattach_fid payload
  else if mt =? TWALK then fid_arg Twalk_newfid payload
  else if mt =? TLOPEN then fid_arg Tlopen_fid payload
  else if mt =? TLCREATE then fid_arg Tlcreate_fid payload
  else if mt =? TCLUNK then fid_arg Tclunk_fid payload
  else if mt =? TREMOVE then fid_arg Tremove_fid payload
  else [].

Lemma only_handler_of mt tag payload :
  mt ≠ TVERSION → guarantees (only_server (named_fids mt payload)) (handler_of h more mt tag payload).
Proof.
  intros Hv. unfold handler_of. rewrite (proj2 (Z.eqb_neq mt TVERSION) Hv).
  repeat match goal with |- context [if ?a =? ?b then _ else _] =>
    lazymatch b with
    | TVERSION => fail
    | _ => destruct (Z.eqb_spec a b) as [->|?]
    end end;
    try (apply guarantees_ret; apply _);
    cbv beta delta [handle_tauth handle_tattach handle_twalk handle_tgetattr handle_tsetattr
      handle_tlopen handle_tlcreate handle_tread handle_twrite handle_treaddir handle_tstatfs
      handle_tfsync handle_tmkdir handle_tunlinkat handle_trenameat handle_tsymlink
      handle_treadlink handle_tlink handle_tmknod handle_tremove handle_tclunk handle_tflush denied];
    try (apply guarantees_ret; apply _);
    apply keeps_only_decoded; intros m r Hm;
    unfold named_fids; simpl; try (unfold fid_arg; rewrite Hm);
    repeat (guarantee; try (apply keeps_only_if; intros)).
Qed.

(** A request other than version negotiation changes only the FIDs it
    names: every other FID keeps its path, QID, flags and whether it is open. *)
Theorem fid_isolation mt tag payload (sv : P9Server S) fid :
  mt ≠ TVERSION → fid ∉ named_fids mt payload →
  option_Forall2 same_fid (fids (e_table (sv_env sv)) !! fid)
    (fids (e_table (sv_env (dispatch h more mt tag payload sv).2)) !! fid).
Proof.
  intros Hv Hn. pose proof (only_handler_of mt tag payload Hv sv fid Hn) as Ho. unfold dispatch.
  by destruct (handler_of h more mt tag payload sv) as [r sv'].
Qed.

End isolation.

(** ** Concrete runs *)

Definition get_ok {E A} (d : A) (o : outcome E A) : A := match o with Ok a => a | _ => d end.

Lemma run_ok {T E A} (m : stm T E A) s d :
  is_ok (m s).1 = true → m s = (Ok (get_ok d (m s).1), (m s).2).
Proof. by destruct (m s) as [[] ?]. Qed.

Lemma default_Some {A} (d : A) (o : option A) : bool_decide (is_Some o) = true → o = Some (default d o).
Proof. by destruct o. Qed.

Definition sample_env : env tree := sv_env (attached sample_tree9).

Definition no_fid : FidState := FidState_new [] (Qid_new 0 0 0).
Definition no_file : file := mkFile (Linked []) false false false.

Definition sample_walk : Twalk := mkTwalk 0 1 ["d"; ".."; "a"].


(** A listing of [/w] in which only the first entry fits. *)
Definition sample_readdir : Treaddir := mkTreaddir 0 0 40.

Lemma readdir_page_witness :
  Z.of_nat (length (Rreaddir_data
    (get_ok (mkRreaddir []) (handle_readdir sample_host9 sample_readdir sample_env).1))) ≤ 40.
Proof.
  pose (st := default no_fid (fids (e_table sample_env) !! 0)).
  pose (names := get_ok [] (read_dir sample_host9 (e_tree sample_env) (fid_path st))).
  apply (readdir_page sample_host9 sample_readdir sample_env
    (handle_readdir sample_host9 sample_readdir sample_env).2 _ st names).
  - apply default_Some. by vm_compute.
  - by vm_compute.
  - apply (bool_decide_unpack _). by vm_compute.
  - done.
  - apply run_ok. by vm_compute.
Defined.

(** [a] opened for reading and writing, then unlinked. *)
Definition opened_env : env tree :=
  (handle_unlinkat sample_host9 (mkTunlinkat 0 "a" 0)
    (handle_lopen sample_host9 (mkTlopen 1 2) 8192
      (handle_walk sample_host9 (mkTwalk 0 1 ["a"]) sample_env).2).2).2.

Lemma write_read_back_witness :
  ∃ e', handle_write sample_host9 (mkTwrite 1 4 [7; 8]) opened_env = (Ok (mkRwrite 2), e') ∧
    handle_read (mkTread 1 4 2) e' = (Ok (mkRread [7; 8]), e').
Proof.
  pose (st := default no_fid (fids (e_table opened_env) !! 1)).
  pose (f := default no_file (open_handle st)).
  destruct (write_read_back sample_host9 1 st f opened_env 4 [7; 8]) as (e' & Hw & Hr & _).
  - apply default_Some. by vm_compute.
  - apply default_Some. by vm_compute.
  - apply (bool_decide_unpack _). by vm_compute.
  - by vm_compute.
  - by vm_compute.
  - by vm_compute.
  - done.
  - done.
  - by vm_compute.
  - by vm_compute.
  - exists e'. by split.
Defined.

Lemma fid_isolation_witness :
  option_Forall2 same_fid (fids (e_table (sv_env (attached sample_tree9))) !! 0)
    (fids (e_table (sv_env (dispatch sample_host9 sample_stat TWALK 2
       (drop 7 (to_wire sample_walk 2)) (attached sample_tree9)).2)) !! 0).
Proof. apply fid_isolation; [done|]. apply (bool_decide_unpack (0 ∉ named_fids _ _)). by vm_compute. Defined.

(** ** What a request does to the environment, generically

    The operations change the environment in three ways: they replace the file
    tree (and settle the open files), they update the FID table, and they write
    to unlinked files.  A relation that holds across these, and across the
    hooks, holds across every request. *)

Section frame.
Context {S : Type} `{HasTree S} (h : host) (more : path → node → stat_rest).
Context (R : env S → env S → Prop) `{!PreOrder R}.
Context (R_settle : ∀ reloc t e, R e (settle reloc (put_tree t (e_os e)) e)).
Context (R_table : ∀ tb e, root_path tb = root_path (e_table e) → R e (set_table tb e)).
Context (R_unlinked : ∀ u e, R e (mkEnv (e_table e) (e_os e) u (e_gen e))).

Abbreviation keeps := (guarantees (E := P9Error) R).

Lemma frame_look {A} (f : tree → io A) : keeps (look f).
Proof. intros e. simpl. reflexivity. Qed.
Lemma frame_get_fid fid : keeps (get_fid fid).
Proof. intros e. simpl. reflexivity. Qed.
Lemma frame_get_handle fid : keeps (get_handle fid).
Proof.
  apply guarantees_bind; [apply _ | apply frame_get_fid|]. intros st. apply guarantees_lift, _.
Qed.
Lemma frame_change reloc f : keeps (change reloc f).
Proof. intros e. unfold change. destruct (f (e_tree e)); [apply R_settle | reflexivity | reflexivity]. Qed.
Lemma frame_set_contents f c : keeps (set_contents h f c).
Proof. unfold set_contents. destruct (f_loc f); [apply frame_change|]. intros e. apply R_unlinked. Qed.
Lemma frame_insert_fid fid st : keeps (insert_fid fid st).
Proof.
  intros e. unfold insert_fid, on_table, FidTable_insert. destruct (bool_decide _); [simpl; reflexivity|].
  by apply R_table.
Qed.
Lemma frame_update_fid fid f : keeps (update_fid fid f).
Proof.
  intros e. unfold update_fid, on_table, FidTable_get_mut.
  destruct (FidTable_get fid (e_table e)); [|simpl; reflexivity|simpl; reflexivity].
  by apply R_table.
Qed.
Lemma frame_remove_fid fid : keeps (remove_fid fid).
Proof.
  intros e. unfold remove_fid, on_table, FidTable_remove.
  destruct (FidTable_get fid (e_table e)); [|simpl; reflexivity|simpl; reflexivity].
  by apply R_table.
Qed.
#[local] Hint Resolve frame_look frame_get_fid frame_get_handle frame_change frame_set_contents
  frame_insert_fid frame_update_fid frame_remove_fid : guarantees.

Lemma frame_attach r : keeps (handle_attach h r).
Proof. unfold handle_attach, qid_from_path. guarantee. Qed.
Lemma frame_clunk r : keeps (handle_clunk r).
Proof. unfold handle_clunk. guarantee. Qed.
Lemma frame_remove r : keeps (handle_remove h r).
Proof. unfold handle_remove. guarantee. Qed.
Lemma frame_walk r : keeps (handle_walk h r).
Proof. unfold handle_walk. guarantee. Qed.
Lemma frame_getattr r : keeps (handle_getattr h more r).
Proof. unfold handle_getattr, qid_from_path. guarantee. Qed.
Lemma frame_setattr r : keeps (handle_setattr h r).
Proof. unfold handle_setattr. guarantee. Qed.
Lemma frame_lopen r m : keeps (handle_lopen h r m).
Proof. unfold handle_lopen, qid_from_path, open_with_flags. guarantee. Qed.
Lemma frame_lcreate r m : keeps (handle_lcreate h r m).
Proof. unfold handle_lcreate, qid_from_path. guarantee. Qed.
Lemma frame_read r : keeps (handle_read r).
Proof. unfold handle_read, seek, file_read. guarantee. Qed.
Lemma frame_write r : keeps (handle_write h r).
Proof. unfold handle_write, seek, file_write. guarantee. Qed.
Lemma frame_fsync r : keeps (handle_fsync r).
Proof. unfold handle_fsync. guarantee. Qed.
Lemma frame_readdir r : keeps (handle_readdir h r).
Proof. unfold handle_readdir. guarantee. Qed.
Lemma frame_mkdir r : keeps (handle_mkdir h r).
Proof. unfold handle_mkdir, qid_from_path. guarantee. Qed.
Lemma frame_unlinkat r : keeps (handle_unlinkat h r).
Proof. unfold handle_unlinkat. guarantee. Qed.
Lemma frame_renameat r : keeps (handle_renameat h r).
Proof. unfold handle_renameat. guarantee. Qed.
Lemma frame_statfs fid : keeps (handle_statfs fid).
Proof. unfold handle_statfs. guarantee. Qed.
Lemma frame_symlink r : keeps (handle_symlink h r).
Proof. unfold handle_symlink, qid_from_path. guarantee. Qed.
Lemma frame_readlink r : keeps (handle_readlink r).
Proof. unfold handle_readlink. guarantee. Qed.
Lemma frame_link r : keeps (handle_link r).
Proof. unfold handle_link. guarantee. Qed.
#[local] Hint Resolve frame_attach frame_clunk frame_remove frame_walk frame_getattr frame_setattr
  frame_lopen frame_lcreate frame_read frame_write frame_fsync frame_readdir frame_mkdir
  frame_unlinkat frame_renameat frame_statfs frame_symlink frame_readlink frame_link : guarantees.

(** ** The server with interceptor [i] *)

Context (i : host → WriteInterceptor S).
Context (R_hook : ∀ c e, let s := (call_hook (i h) c (e_os e)).2 in R e (settle (reloc_in (tree_of s)) s e)).

Definition server_rel (sv sv' : P9Server S) : Prop :=
  sv_interceptor sv = Some i → sv_interceptor sv' = Some i ∧ R (sv_env sv) (sv_env sv').

#[export] Instance server_rel_preorder : PreOrder server_rel.
Proof.
  split; [by intros sv Hi; split|]. intros sv1 sv2 sv3 H1 H2 Hi.
  destruct (H1 Hi) as [Hi2 HR]. destruct (H2 Hi2) as [Hi3 HR']. split; [done | by etrans].
Qed.

Abbreviation skeeps := (guarantees (E := list Z) server_rel).

Lemma frame_operation {A} tag (m : stm (env S) P9Error A) : keeps m → skeeps (operation tag m).
Proof. intros Hm sv Hi. specialize (Hm (sv_env sv)). unfold operation. by destruct (m (sv_env sv)). Qed.
Lemma frame_decoded {M} `{Message M} tag payload : skeeps (decoded (M := M) tag payload).
Proof. by intros sv Hi. Qed.
Lemma frame_hook c : skeeps (hook (i h) c).
Proof.
  intros sv Hi. unfold hook. specialize (R_hook c (sv_env sv)).
  by destruct (call_hook (i h) c (e_os (sv_env sv))).
Qed.
Lemma frame_if f : skeeps (f (i h)) → skeeps (if_interceptor h f).
Proof. intros Hf sv Hi. unfold if_interceptor, mbind, stm_bind, gets. rewrite Hi. by apply Hf. Qed.
#[local] Hint Resolve frame_operation frame_decoded frame_hook : guarantees.
Lemma frame_pre_hook tag c : skeeps (pre_hook tag (i h) c).
Proof. unfold pre_hook, denied. guarantee. Qed.
Lemma frame_post_hook c : skeeps (post_hook h c).
Proof. apply frame_if. guarantee. Qed.
Lemma frame_check_name tag p name : skeeps (check_name tag p name).
Proof. apply guarantees_ret, _. Qed.
#[local] Hint Resolve frame_pre_hook frame_post_hook frame_check_name : guarantees.
Lemma frame_tversion tag payload : skeeps (handle_tversion tag payload).
Proof.
  apply guarantees_bind; [apply _ | apply frame_decoded|]. intros request sv Hi.
  split; [done|]. by apply R_table.
Qed.

Lemma frame_handler_of mt tag payload : skeeps (handler_of h more mt tag payload).
Proof.
  unfold handler_of.
  repeat match goal with |- context [?a =? ?b] => destruct (Z.eqb_spec a b) as [->|_] end;
    try apply frame_tversion;
    cbv beta delta [handle_tauth handle_tattach handle_twalk handle_tgetattr handle_tsetattr
      handle_tlopen handle_tlcreate handle_tread handle_twrite handle_treaddir handle_tstatfs
      handle_tfsync handle_tmkdir handle_tunlinkat handle_trenameat handle_tsymlink
      handle_treadlink handle_tlink handle_tmknod handle_tremove handle_tclunk handle_tflush denied];
    repeat (cbv beta zeta;
      lazymatch goal with
      | |- guarantees _ (if_interceptor _ _) => apply frame_if
      | |- guarantees _ (_ ≫= _) => apply guarantees_bind; [apply _ | | intros ?]
      | |- guarantees _ (match ?x with _ => _ end) => destruct x
      | |- guarantees _ (ignore _) => apply guarantees_ignore
      | |- _ => solve [auto with guarantees typeclass_instances]
      end).
Qed.

End frame.
