(* ===== verification/UndoBackend.v ===== *)
(** * Backends under the undo log

    What both filesystem backends (the 9P server and the virtio-fs file system)
    need to know about the undo interceptor: the state of the host after a hook
    that let an operation proceed, between a creation and its post-hook, and
    that the operation the hook announced keeps the log of the step complete.

    The first part is the loss of a step: what cancels it or makes it
    unprotected stays. *)

From Stdlib Require Import Ascii.
From stdpp Require Import base gmap strings list fin_maps.
From S2P Require Import Prelude HostFs HostFacts Common WriteInterceptor Safeguard UndoLog UndoInterceptor UndoHooks UndoEvict UndoFacts UndoCapture UndoSteps UndoCorrect.
#[local] Open Scope Z_scope.

(** ** When a step stops being protected

    A backend goes on serving requests after the safeguards cancelled the step,
    or after the step outgrew its size limit.  Such a step is [lost]: it has
    been rolled back already, or cannot be.  The hooks never bring a lost step
    back, and a hook refuses an operation of a step that is not lost only by
    losing it. *)

Definition lost (w : world) : Prop :=
  active_step (inner (w_int w)) = None ∨ unprotected w = true.

Definition keeps_lost (w w' : world) : Prop := lost w → lost w'.

#[local] Instance keeps_lost_preorder : PreOrder keeps_lost.
Proof. split; [by intros w H|]. intros w1 w2 w3 H1 H2 H. by apply H2, H1. Qed.

Section lost.
Context `{TP : ThirdParty} (h : host).

(** ** Lost steps stay lost *)

Lemma lost_inner f :
  (∀ i, active_step i = None ∨ step_unprotected i = true →
        active_step (f i) = None ∨ step_unprotected (f i) = true) →
  guarantees keeps_lost (modify (E := CodeAgentError) (on_inner f)).
Proof. intros Hf w Hw. exact (Hf _ Hw). Qed.
Lemma lost_preimages {A} (m : stm (option preimage_dir) CodeAgentError A) :
  guarantees keeps_lost (zoom wal_preimages set_wal_preimages m).
Proof. apply guarantees_zoom. intros ? w Hw. exact Hw. Qed.
Lemma lost_tree {A} (m : stm tree CodeAgentError A) : guarantees keeps_lost (zoom w_tree set_tree m).
Proof. apply guarantees_zoom. intros ? w Hw. exact Hw. Qed.
Lemma lost_undo_op op f : guarantees keeps_lost (undo_op no_fault op f).
Proof. intros w Hw. unfold undo_op, no_fault. simpl. exact Hw. Qed.

Lemma lost_log_entry rel hash b ty :
  guarantees keeps_lost (modify (E := CodeAgentError) (on_inner (log_entry rel hash b ty))).
Proof. by apply lost_inner. Qed.
Lemma lost_data_size limits n :
  guarantees keeps_lost (modify (E := CodeAgentError) (on_inner (add_data_size limits n))).
Proof.
  apply lost_inner. intros i [Ha|Hu]; [by left | right]. simpl. rewrite Hu. by repeat case_match.
Qed.
Lemma lost_tracker t : guarantees keeps_lost (modify (E := CodeAgentError) (on_inner (set_tracker t))).
Proof. by apply lost_inner. Qed.
Lemma lost_mark k :
  guarantees keeps_lost (modify (E := CodeAgentError)
    (on_inner (λ i, set_tracker (mark_allowed k (safeguard_tracker i)) i))).
Proof. by apply lost_inner. Qed.
Lemma lost_clear :
  guarantees keeps_lost (modify (E := CodeAgentError)
    (on_inner (λ i, clear_step (completed_steps_ i) (tracker_reset (safeguard_tracker i))))).
Proof. apply lost_inner. by left. Qed.
#[local] Hint Resolve lost_preimages lost_tree lost_undo_op lost_log_entry lost_data_size lost_tracker
  lost_mark lost_clear : guarantees.

Lemma lost_ensure p : guarantees keeps_lost (ensure_preimage h no_fault p).
Proof. unfold ensure_preimage. guarantee. Qed.
Lemma lost_record p : guarantees keeps_lost (record_creation no_fault p).
Proof. unfold record_creation. guarantee. Qed.
Lemma lost_with_tracker f : guarantees keeps_lost (with_tracker f).
Proof. unfold with_tracker. guarantee. Qed.
Lemma lost_is_active : guarantees keeps_lost is_active.
Proof. unfold is_active. guarantee. Qed.
Lemma lost_current : guarantees keeps_lost current_step.
Proof. unfold current_step. guarantee. Qed.
Lemma lost_run_rollback sd : guarantees keeps_lost (run_rollback_step h sd).
Proof. unfold run_rollback_step. guarantee. Qed.
Lemma lost_wal : guarantees keeps_lost wal.
Proof. unfold wal. guarantee. Qed.
Lemma lost_write_manifest m : guarantees keeps_lost (write_wal_manifest no_fault m).
Proof. unfold write_wal_manifest. guarantee. Qed.
Lemma lost_remove_wal : guarantees keeps_lost (remove_wal no_fault).
Proof. apply lost_undo_op. Qed.
#[local] Hint Resolve lost_ensure lost_record lost_with_tracker lost_is_active lost_current
  lost_run_rollback lost_wal lost_write_manifest lost_remove_wal : guarantees.

Lemma lost_capture_tree fuel p : guarantees keeps_lost (capture_tree h no_fault fuel p).
Proof. revert p. induction fuel as [|fuel IH]; intros p; cbn [capture_tree]; guarantee. Qed.
Lemma lost_capture_all p : guarantees keeps_lost (capture_tree_preimages h no_fault p).
Proof. unfold capture_tree_preimages. guarantee. apply lost_capture_tree. Qed.
Lemma lost_rollback_current : guarantees keeps_lost (rollback_current_step h no_fault).
Proof. unfold rollback_current_step. guarantee. Qed.
#[local] Hint Resolve lost_capture_all lost_rollback_current : guarantees.
Lemma lost_safeguard ev : guarantees keeps_lost (handle_safeguard_event h no_fault ev).
Proof. unfold handle_safeguard_event. guarantee. Qed.
Lemma lost_if_active p : guarantees keeps_lost (capture_if_active h no_fault p).
Proof. unfold capture_if_active. guarantee. Qed.
Lemma lost_post_create p : guarantees keeps_lost (post_create no_fault p).
Proof. unfold post_create. guarantee. Qed.
#[local] Hint Resolve lost_safeguard lost_if_active lost_post_create : guarantees.
Lemma lost_pre_write p : guarantees keeps_lost (pre_write h no_fault p).
Proof. unfold pre_write. guarantee. Qed.
#[local] Hint Resolve lost_pre_write : guarantees.

Lemma hook_keeps_lost c : guarantees keeps_lost (call_hook (undo_hooks h no_fault) c).
Proof.
  destruct c; cbn [call_hook undo_hooks wi_pre_write wi_pre_unlink wi_pre_rename wi_post_create
      wi_post_mkdir wi_pre_setattr wi_pre_link wi_post_symlink wi_pre_xattr wi_pre_open_trunc
      wi_pre_fallocate wi_pre_copy_file_range]; try solve [auto with guarantees].
  - unfold pre_unlink. guarantee.
  - unfold pre_rename. guarantee.
  - unfold pre_link. guarantee.
  - unfold post_symlink. guarantee.
Qed.

(** ** A refusal loses the step *)

Context `{!ThirdPartyLaws TP} (W : path) (good : path → Prop).

Abbreviation step_inv := (step_inv W good).

Lemma safeguard_refusal S0 w f res w' :
  step_inv S0 w → (event ← with_tracker f; handle_safeguard_event h no_fault event) w = (res, w') →
  res = Ok () ∨ lost w'.
Proof.
  intros Hsv Hc. destruct (unprotected w) eqn:Hu.
  { right. assert (guarantees keeps_lost (event ← with_tracker f; handle_safeguard_event h no_fault event))
      as Hg by guarantee. specialize (Hg w). rewrite Hc in Hg. apply Hg. by right. }
  destruct (safeguard_ok W good h S0 w f Hsv) as [(w2 & Hw2 & _)|(r2 & w2 & Hw2 & _ & Hden)];
    rewrite Hw2 in Hc; simplify_eq; [by left|].
  right. left. by apply Hden.
Qed.

Lemma pre_write_refusal S0 w r res w' :
  step_inv S0 w → good r → pre_write h no_fault (W ++ r) w = (res, w') → res = Ok () ∨ lost w'.
Proof.
  intros Hsv Hr. unfold pre_write. destruct (sv_active _ _ _ _ Hsv) as [id Hact].
  erewrite stm_bind_ok by done. rewrite Hact. erewrite stm_bind_ok by done.
  destruct (ensure_preimage_captured W good h S0 w r Hsv Hr) as (b & w1 & He & Hcap & _).
  rewrite (stm_bind_ok _ _ _ _ _ He). destruct (metadata (w_tree w) (W ++ r));
    [|intros [= <- <-]; by left | intros [= <- <-]; by left].
  apply (safeguard_refusal S0). apply (ca_inv _ _ _ _ _ Hcap).
Qed.

Lemma capture_if_active_refusal S0 w r res w' :
  step_inv S0 w → good r → capture_if_active h no_fault (W ++ r) w = (res, w') → res = Ok ().
Proof.
  intros Hsv Hr. unfold capture_if_active. erewrite stm_bind_ok by (by eapply is_active_ok).
  destruct (ensure_preimage_captured W good h S0 w r Hsv Hr) as (b & w1 & He & _).
  rewrite (stm_bind_ok _ _ _ _ _ He). by intros [= <- _].
Qed.

Lemma run_hook_refusal k S0 w r res w' :
  step_inv S0 w → good r → run_hook k h no_fault (W ++ r) w = (res, w') → res = Ok () ∨ lost w'.
Proof.
  destruct k; intros Hsv Hr Hk; try (left; by eapply capture_if_active_refusal);
    by eapply pre_write_refusal.
Qed.

Lemma pre_unlink_refusal S0 w r d res w' :
  host_wf h → step_inv S0 w → unprotected w = false → good r →
  pre_unlink h no_fault (W ++ r) d w = (res, w') → res = Ok () ∨ lost w'.
Proof.
  intros Hh Hsv Hu Hr. unfold pre_unlink. destruct (sv_active _ _ _ _ Hsv) as [id Hact].
  erewrite stm_bind_ok by done. rewrite Hact.
  destruct (ensure_preimage_captured W good h S0 w r Hsv Hr) as (b & w1 & He & Hcap & _).
  rewrite (stm_bind_ok _ _ _ _ _ He). intros Hrest. destruct (unprotected w1) eqn:Hu1.
  { right. match type of Hrest with ?m w1 = _ => assert (guarantees keeps_lost m) as Hg by guarantee end.
    specialize (Hg w1). rewrite Hrest in Hg. apply Hg. by right. }
  pose proof (ca_inv _ _ _ _ _ Hcap) as Hsv1.
  destruct (sv_log _ _ _ _ Hsv1) as [|(mf & pd & Hoi)]; [congruence|].
  pose proof (oi_logged _ _ _ _ _ _ Hoi) as L. destruct d.
  - destruct (capture_tree_ok W good h S0 (w_tree w1) Hh (lg_plain _ _ _ _ _ _ L) (lg_goodt _ _ _ _ _ _ L)
      (capture_fuel (w_tree w1)) r w1) as (w2 & Hw2 & Hcap2 & _); [done | done | | |].
    + by apply (good_clean _ (lg_good _ _ _ _ _ _ L)).
    + unfold capture_fuel. lia.
    + erewrite stm_bind_ok in Hrest; [|unfold capture_tree_preimages; erewrite stm_bind_ok by done; exact Hw2].
      erewrite stm_bind_ok in Hrest by done.
      eapply (safeguard_refusal S0); [apply (ca_inv _ _ _ _ _ Hcap2) | exact Hrest].
  - erewrite stm_bind_ok in Hrest by done. erewrite stm_bind_ok in Hrest by done.
    by eapply (safeguard_refusal S0).
Qed.

End lost.

(** ** Programs that keep an invariant until it is lost *)

Section ensures.
Context {St E : Type} (gone inv : St → Prop) (R : St → St → Prop).
Context (R_gone : ∀ s s', R s s' → gone s → gone s').

Definition ensures {A} (P : St → Prop) (m : stm St E A) (Q : A → St → Prop) : Prop :=
  ∀ s, P s → match m s with
             | (Ok a, s') => gone s' ∨ Q a s'
             | (_, s') => gone s' ∨ inv s'
             end.

Lemma ensures_ret {A} (a : A) (Q : A → St → Prop) : ensures (Q a) (mret a) Q.
Proof. intros s HQ. by right. Qed.
Lemma ensures_done {A} (a : A) (P : St → Prop) : ensures P (mret a) (λ _, P).
Proof. intros s HP. by right. Qed.
Lemma ensures_throw {A} (e : E) (Q : A → St → Prop) : ensures inv (throw e) Q.
Proof. intros s Hi. by right. Qed.
Lemma ensures_gets {A} (f : St → A) (P : St → Prop) : ensures P (gets f) (λ a s, P s ∧ a = f s).
Proof. intros s Hs. by right. Qed.

Lemma ensures_conseq {A} (P P' : St → Prop) (Q Q' : A → St → Prop) m :
  (∀ s, P s → P' s) → (∀ a s, Q' a s → Q a s) → ensures P' m Q' → ensures P m Q.
Proof.
  intros HP HQ Hm s Hs. specialize (Hm s (HP s Hs)).
  destruct (m s) as [[a| |] s']; [|done|done]. destruct Hm; [by left | right; auto].
Qed.
Lemma ensures_pre {A} (P P' : St → Prop) (Q : A → St → Prop) m :
  (∀ s, P s → P' s) → ensures P' m Q → ensures P m Q.
Proof. intros HP. by apply ensures_conseq. Qed.

Lemma ensures_bind {A B} (P : St → Prop) (m : stm St E A) (k : A → stm St E B) Q T :
  ensures P m Q → (∀ a, guarantees R (k a)) → (∀ a, ensures (Q a) (k a) T) → ensures P (m ≫= k) T.
Proof.
  intros Hm Hk HT s Hs. specialize (Hm s Hs). unfold mbind, stm_bind.
  destruct (m s) as [[a|e|] s']; [|done|done]. destruct Hm as [Hg|HQ]; [|by apply HT].
  specialize (Hk a s'). apply (R_gone _ _ Hk) in Hg. destruct (k a s') as [[] ?]; by left.
Qed.

Lemma ensures_fact {A} (φ : Prop) (P : St → Prop) (m : stm St E A) Q :
  (φ → ensures P m Q) → ensures (λ s, φ ∧ P s) m Q.
Proof. intros Hm s [Hφ Hs]. by apply Hm. Qed.

Lemma ensures_try {A} P (m : stm St E A) :
  ensures P m (λ _, inv) → ensures P (try m) (λ _, inv).
Proof. intros Hm s Hs. specialize (Hm s Hs). unfold try. by destruct (m s) as [[] ?]. Qed.
Lemma ensures_ignore {A} P (m : stm St E A) :
  ensures P m (λ _, inv) → ensures P (ignore m) (λ _, inv).
Proof. intros Hm s Hs. specialize (Hm s Hs). unfold ignore. by destruct (m s) as [[] ?]. Qed.

Lemma ensures_if {A} (b : bool) P (m1 m2 : stm St E A) Q :
  ensures P m1 Q → ensures P m2 Q → ensures P (if b then m1 else m2) Q.
Proof. by destruct b. Qed.

(** A program that only reads. *)
Lemma ensures_read {A} (P : St → Prop) (m : stm St E A) :
  (∀ s, P s → inv s) → guarantees (λ s s', s' = s) m →
  ensures P m (λ a s, P s ∧ (m s).1 = Ok a).
Proof.
  intros HP Hm s Hs. specialize (Hm s). destruct (m s) as [[a|e|] s'] eqn:Em; simpl in Hm; subst;
    right; [rewrite Em; by split | auto..].
Qed.

End ensures.

(** ** The host state during an operation *)

Section backend.
Context `{TP : ThirdParty} `{!ThirdPartyLaws TP} (W : path) (good : path → Prop) (S0 : tree).

Abbreviation step_inv := (step_inv W good S0).

(** *** The tree of a step that is not lost *)

Record tree_facts (t : tree) : Prop := mkTreeFacts {
  tf_good : good_paths good;
  tf_plain : plain W t;
  tf_paths : ∀ r, is_Some (t !! (W ++ r)) → good r;
  tf_meta : tree_meta_wf W t;
}.

Lemma inv_facts w : step_inv w → lost w ∨ tree_facts (w_tree w).
Proof.
  intros Hsv. destruct (sv_log _ _ _ _ Hsv) as [Hu|(mf & pd & Hoi)]; [by left; right|]. right.
  destruct (oi_logged _ _ _ _ _ _ Hoi). split; try done. exact (oi_meta _ _ _ _ _ _ Hoi).
Qed.

Lemma lookup_node_at t f r q n :
  tree_facts t → clean r → lookup_node t f (W ++ r) = Ok (q, n) → q = W ++ r ∧ t !! (W ++ r) = Some n.
Proof.
  intros Hf Hr Hl. destruct (t !! (W ++ r)) as [n'|] eqn:E.
  - rewrite (lookup_node_present W t f r n') in Hl by (done || apply Hf). by simplify_eq.
  - destruct (lookup_node_absent W t f r) as [e He]; [apply Hf | done | done | congruence].
Qed.

Section host.
Context (h : host) (Hh : host_wf h).

(** The host state right after a capture hook for [W ++ r] returned. *)
Definition after_update (r : path) (w : world) : Prop :=
  ∃ k w0, step_inv w0 ∧ run_hook k h no_fault (W ++ r) w0 = (Ok (), w).

Lemma after_update_inv r w : good r → after_update r w → step_inv w.
Proof.
  intros Hr (k & w0 & Hsv & Hk). apply (backend_step_inv W good S0 w0); [|done].
  by apply (bs_failed_update W good S0 k h r).
Qed.

Lemma updated r w n n' :
  good r → after_update r w → w_tree w !! (W ++ r) = Some n → is_dir_node n' = is_dir_node n →
  is_symlink_node n' = false → meta_wf (node_meta n') →
  step_inv (set_tree (<[W ++ r := n']> (w_tree w)) w).
Proof.
  intros Hr (k & w0 & Hsv & Hk) Hn Hd Hl Hm. apply (backend_step_inv W good S0 w0); [|done].
  by apply (bs_update W good S0 k h r w0 w n n').
Qed.

(** The host state right after [pre_unlink] for [W ++ r] returned. *)
Definition after_unlink (r : path) (d : bool) (w : world) : Prop :=
  ∃ w0, step_inv w0 ∧ pre_unlink h no_fault (W ++ r) d w0 = (Ok (), w).

Lemma after_unlink_inv r d w : good r → after_unlink r d w → step_inv w.
Proof.
  intros Hr (w0 & Hsv & Hk). apply (backend_step_inv W good S0 w0); [|done].
  by apply (bs_failed_unlink W good S0 h r d).
Qed.

(** The matching removal. *)
Lemma removed r (d : bool) w t :
  good r → r ≠ [] → after_unlink r d w →
  (if d then remove_dir h (w_tree w) (W ++ r) else remove_file h (w_tree w) (W ++ r)) = Ok t →
  step_inv (set_tree t w).
Proof.
  intros Hr Hne (w0 & Hsv & Hk) Ht. apply (backend_step_inv W good S0 w0); [|done].
  destruct d; [by apply (bs_rmdir W good S0 h r w0 w t) | by apply (bs_unlink W good S0 h r w0 w t)].
Qed.

Definition creates (d : bool) (t : tree) (p : path) : io tree :=
  if d then create_dir h t p else fs_create_new h t p.

(** The host state between the creation of [W ++ r] and its post-hook. *)
Definition created (r : path) (d : bool) (w : world) : Prop :=
  ∃ w0 t, step_inv w0 ∧ creates d (w_tree w0) (W ++ r) = Ok t ∧ w = set_tree t w0.

Lemma creates_inv d t r t' :
  tree_facts t → good r → creates d t (W ++ r) = Ok t' →
  reach W t r ∧ ∃ n, t' !! (W ++ r) = Some n ∧ plain W t'.
Proof.
  intros Hf Hr Hc. pose proof (good_clean _ (tf_good _ Hf) r Hr) as Hcl.
  set (n := if d then Dir (new_meta h (h_dir_perm h)) else File (new_meta h (h_file_perm h)) []).
  assert (t !! (W ++ r) = None ∧ reach W t r ∧ t' = add_node h (W ++ r) n t) as (Hn & Hre & ->).
  { pose proof (tf_plain _ Hf) as Hp. destruct d;
      [by apply (create_inv W h t r n (create_dir h)) | by apply (create_inv W h t r n (fs_create_new h))]. }
  pose proof (add_node_sim W h t r n (tf_plain _ Hf) Hre Hn) as Hsim. split; [done|].
  destruct (tree_sim_Some _ _ (W ++ r) n (symmetry Hsim)) as (n1 & Hn1 & _); [apply lookup_insert_eq|].
  exists n1. split; [done|]. rewrite Hsim. apply plain_insert_new; try done; [apply Hf | by destruct d].
Qed.

Lemma created_logged r d w res w' :
  good r → (∀ n0, S0 !! (W ++ r) = Some n0 → is_dir_node n0 = d) → created r d w →
  post_create no_fault (W ++ r) w = (res, w') → step_inv w'.
Proof.
  intros Hr Hk (w0 & t & Hsv & Hc & ->) Hp. apply (backend_step_inv W good S0 w0); [|done].
  destruct d; [by apply (bs_mkdir W good S0 h r w0 t res w') | by apply (bs_create W good S0 h r w0 t res w')].
Qed.

(** What the hooks leave behind. *)
Lemma update_hook_at k c r w res w' :
  good r → call_hook (undo_hooks h no_fault) c = run_hook k h no_fault (W ++ r) → step_inv w →
  call_hook (undo_hooks h no_fault) c w = (res, w') → lost w' ∨ (res = Ok () ∧ after_update r w').
Proof.
  intros Hr -> Hsv Hk. destruct (run_hook_refusal h W good k S0 w r res w' Hsv Hr Hk) as [->|]; [|by left].
  right. split; [done|]. by exists k, w.
Qed.

Lemma unlink_hook_at r d w res w' :
  good r → step_inv w → call_hook (undo_hooks h no_fault) (PreUnlink (W ++ r) d) w = (res, w') →
  lost w' ∨ (res = Ok () ∧ w_tree w' = w_tree w ∧ after_unlink r d w').
Proof.
  intros Hr Hsv Hk. destruct (unprotected w) eqn:Hu.
  - left. pose proof (hook_keeps_lost h (PreUnlink (W ++ r) d) w ltac:(by right)) as Hl.
    by rewrite Hk in Hl.
  - destruct (pre_unlink_refusal h W good S0 w r d res w' Hh Hsv Hu Hr Hk) as [->|]; [|by left].
    right. destruct (pre_unlink_post W good h S0 w w' r d Hh Hsv Hr Hk) as [_ Ht _].
    split_and!; [done | done |]. by exists w.
Qed.

End host.

(** A step that is still open and protected can be rolled back. *)
Lemma undo_unless_lost h w :
  lost w ∨ step_inv w → is_Some (active_step (inner (w_int w))) → unprotected w = false →
  ∃ w', rollback_current_step h no_fault w = (Ok (), w') ∧ tree_sim (w_tree w') S0 ∧
        active_step (inner (w_int w')) = None.
Proof.
  intros Hw Hact Hu. destruct Hw as [[Hn|Hn]|Hsv]; [rewrite Hn in Hact; by destruct Hact | congruence |].
  destruct (sv_log _ _ _ _ Hsv) as [Hun|(mf & pd & Hoi)]; [congruence|].
  destruct (rollback_current_step_ok W good h S0 w mf pd Hsv Hoi) as (w' & Hrb & Hsim & Hn & _). by exists w'.
Qed.

End backend.

Arguments tf_good {TP W good} t _.
Arguments tf_plain {TP W good} t _.
Arguments tf_paths {TP W good} t _.
Arguments tf_meta {TP W good} t _.
