(* ===== verification/P9Undo.v ===== *)
(** * 9P operations under the undo log

    The operations of the 9P server on a host whose undo interceptor has a step
    open.  Each change of the working tree happens under a hook, at the path
    the hook was told: until the step is lost ([UndoBackend.v]), the operations
    keep the log of the step complete, the FIDs inside the working tree and
    their open files at their paths.  [P9Session.v] puts requests together. *)

From Stdlib Require Import Ascii.
From stdpp Require Import base gmap strings list fin_maps.
From S2P Require Import Prelude HostFs HostFacts Common WriteInterceptor Safeguard UndoLog UndoInterceptor UndoHooks UndoEvict UndoFacts UndoCapture UndoSteps UndoCorrect UndoBackend.
From S2P Require Import P9Wire P9Messages P9Ops P9Facts.
#[local] Open Scope Z_scope.

(** ** The operations *)

Section operations.
Context `{TP : ThirdParty} `{!ThirdPartyLaws TP} (W : path) (good : path → Prop) (S0 : tree).

Abbreviation step_inv := (step_inv W good S0).
Abbreviation tree_facts := (tree_facts W good).

Definition handle_ok (p : path) (f : file) : Prop := ∀ q, f_loc f = Linked q → q = p.

(** A FID refers to a path of the working tree, and its open file, as long as
    it has a name, is the file at that path. *)
Definition located (st : FidState) : Prop :=
  (∃ r, fid_path st = W ++ r ∧ good r) ∧ ∀ f, open_handle st = Some f → handle_ok (fid_path st) f.

Definition table_ok (tb : FidTable) : Prop := root_path tb = W ∧ map_Forall (λ _, located) (fids tb).

Definition fid_at (fid : Z) (p : path) (tb : FidTable) : Prop :=
  ∃ st, fids tb !! fid = Some st ∧ fid_path st = p.

(** The table is in order, the FID is at [p] and the host state satisfies [B]. *)
Definition at_fid (fid : Z) (p : path) (B : world → Prop) (e : env world) : Prop :=
  table_ok (e_table e) ∧ fid_at fid p (e_table e) ∧ B (e_os e).

Definition env_ok (e : env world) : Prop := table_ok (e_table e) ∧ step_inv (e_os e).
Definition gone (e : env world) : Prop := lost (e_os e).
Definition keeps_gone (e e' : env world) : Prop := gone e → gone e'.

#[export] Instance keeps_gone_preorder : PreOrder keeps_gone.
Proof. split; [by intros e H|]. intros e1 e2 e3 H1 H2 H. exact (H2 (H1 H)). Qed.

Abbreviation ensures := (ensures (E := P9Error) gone env_ok).

Lemma bind_ok {A B} P (m : stm (env world) P9Error A) (k : A → stm (env world) P9Error B) Q T :
  ensures P m Q → (∀ a, guarantees keeps_gone (k a)) → (∀ a, ensures (Q a) (k a) T) →
  ensures P (m ≫= k) T.
Proof. apply ensures_bind. intros e e' H. exact H. Qed.

(** *** The table follows the tree *)

Lemma located_relocate gen t st : located st → located (relocate gen (reloc_in t) st).
Proof.
  intros [Hp Hf]. unfold relocate. destruct (open_handle st) as [[[q|g q] rd wr ap]|] eqn:E;
    [|by split; [|rewrite E]..]. split; [done|]. intros f [= <-]. unfold handle_ok. simpl. intros q' Hq.
  specialize (Hf _ eq_refl q eq_refl). unfold reloc_in in Hq. repeat case_match; by simplify_eq.
Qed.

Lemma fid_path_relocate gen reloc st : fid_path (relocate gen reloc st) = fid_path st.
Proof. unfold relocate. by repeat case_match. Qed.

Lemma table_settle t s e :
  table_ok (e_table e) → table_ok (e_table (settle (reloc_in t) s e)).
Proof.
  intros [Hr Hf]. split; [done|]. intros fid st'. simpl. rewrite lookup_fmap_Some.
  intros (st & <- & Hst). apply located_relocate. by eapply Hf.
Qed.

Lemma fid_at_settle fid p reloc s e :
  fid_at fid p (e_table e) → fid_at fid p (e_table (settle reloc s e)).
Proof.
  intros (st & Hst & Hp). eexists. simpl. rewrite lookup_fmap, Hst. split; [done|].
  by rewrite fid_path_relocate.
Qed.

(** *** Steps of an operation at a FID *)

Section at_fid.
Context (fid : Z) (p : path).

Lemma at_env_ok B e : (∀ w, B w → step_inv w) → at_fid fid p B e → env_ok e.
Proof. intros HB (Ht & _ & Hw). split; [done | auto]. Qed.

Lemma at_inv e : at_fid fid p step_inv e → env_ok e.
Proof. by apply at_env_ok. Qed.

Lemma at_weaken (B B' : world → Prop) e : (∀ w, B w → B' w) → at_fid fid p B e → at_fid fid p B' e.
Proof. intros HB (Ht & Hp & Hw). split; [done | split; auto]. Qed.

Lemma get_fid_at (B : world → Prop) :
  ensures (at_fid fid p B) (get_fid fid)
    (λ st e, (fid_path st = p ∧ located st) ∧ at_fid fid p B e).
Proof.
  intros e (Ht & (st & Hst & Hp) & Hw). unfold get_fid, FidTable_get. rewrite Hst. right.
  split_and!; [done | by eapply Ht |]. split; [done|]. split; [by exists st | done].
Qed.

Lemma look_at {A} (f : tree → io A) (B : world → Prop) :
  (∀ w, B w → lost w ∨ step_inv w ∨ is_ok (f (w_tree w)) = true) →
  ensures (at_fid fid p B) (look f) (λ a, at_fid fid p (λ w, B w ∧ f (w_tree w) = Ok a)).
Proof.
  intros Hok e (Ht & Hp & Hw). unfold look, e_tree. simpl.
  destruct (f (w_tree (e_os e))) as [a|er|] eqn:Ef; simpl; [right; split; [done | by split]|..];
    (destruct (Hok _ Hw) as [|[|Hf]]; [by left | right; by split | by rewrite Ef in Hf]).
Qed.

Lemma change_at (f : tree → io tree) (B B' : world → Prop) :
  (∀ w, B w → step_inv w) →
  (∀ w t, B w → f (w_tree w) = Ok t → lost w ∨ B' (set_tree t w)) →
  ensures (at_fid fid p B) (change in_place f) (λ _, at_fid fid p B').
Proof.
  intros HB Hf e (Ht & Hp & Hw). unfold change, e_tree. simpl.
  destruct (f (w_tree (e_os e))) as [t|er|] eqn:Ef; [|right; split; auto..].
  destruct (Hf _ _ Hw Ef) as [|Hw']; [by left|]. right.
  split; [by apply table_settle|]. split; [by apply fid_at_settle | done].
Qed.

Lemma change_ok (f : tree → io tree) (B : world → Prop) :
  (∀ w, B w → step_inv w) →
  (∀ w t, B w → f (w_tree w) = Ok t → lost w ∨ step_inv (set_tree t w)) →
  ensures (at_fid fid p B) (change in_place f) (λ _, env_ok).
Proof.
  intros HB Hf. apply (ensures_conseq _ _ _ (at_fid fid p B) _ (λ _, at_fid fid p step_inv)).
  - done.
  - intros ? e. apply at_inv.
  - by apply change_at.
Qed.

Lemma update_fid_at (g : FidState → FidState) p' (B : world → Prop) :
  (∀ st, located st → fid_path st = p → located (g st) ∧ fid_path (g st) = p') →
  ensures (at_fid fid p B) (update_fid fid g) (λ _, at_fid fid p' B).
Proof.
  intros Hg e ([Hr Hf] & (st & Hst & Hp) & Hw).
  unfold update_fid, on_table, FidTable_get_mut, FidTable_get. rewrite Hst. simpl. right.
  destruct (Hg st (Hf _ _ Hst) Hp) as [Hl Hp']. split; [|split; [eexists; split; [apply lookup_insert_eq | done] | done]].
  split; [done|]. simpl. by apply map_Forall_insert_2.
Qed.

Lemma get_handle_at B :
  (∀ w, B w → step_inv w) →
  ensures (at_fid fid p B) (get_handle fid) (λ f e, handle_ok p f ∧ at_fid fid p B e).
Proof.
  intros HB e He. assert (env_ok e) as Hok by by eapply at_env_ok.
  destruct He as (Ht & (st & Hst & Hp) & Hw).
  unfold get_handle, mbind, stm_bind, get_fid, FidTable_get. rewrite Hst. simpl. unfold lift.
  destruct (open_handle st) as [f|] eqn:Ef; simpl; [right | by right].
  split; [rewrite <- Hp; by eapply Ht|]. split; [done|]. split; [by exists st | done].
Qed.

End at_fid.

(** *** Operations do not touch the step *)

Section host.
Context (h : host) (Hh : host_wf h).

Abbreviation after_update := (after_update W good S0 h).
Abbreviation after_unlink := (after_unlink W good S0 h).
Abbreviation created := (created W good S0 h).

Lemma gone_settle reloc t e : keeps_gone e (settle reloc (put_tree t (e_os e)) e).
Proof. intros He. exact He. Qed.
Lemma gone_table tb e : root_path tb = root_path (e_table e) → keeps_gone e (set_table tb e).
Proof. intros _ He. exact He. Qed.
Lemma gone_unlinked u e : keeps_gone e (mkEnv (e_table e) (e_os e) u (e_gen e)).
Proof. intros He. exact He. Qed.

Lemma gone_look {A} (f : tree → io A) : guarantees keeps_gone (look f).
Proof. apply frame_look, _. Qed.
Lemma gone_get_fid fid : guarantees keeps_gone (get_fid fid).
Proof. apply frame_get_fid, _. Qed.
Lemma gone_get_handle fid : guarantees keeps_gone (get_handle fid).
Proof. apply frame_get_handle, _. Qed.
Lemma gone_change reloc f : guarantees keeps_gone (change reloc f).
Proof. apply frame_change; [apply _ | apply gone_settle]. Qed.
Lemma gone_set_contents f c : guarantees keeps_gone (set_contents h f c).
Proof. apply frame_set_contents; [apply _ | apply gone_settle | apply gone_unlinked]. Qed.
Lemma gone_insert_fid fid st : guarantees keeps_gone (insert_fid fid st).
Proof. apply frame_insert_fid; [apply _ | apply gone_table]. Qed.
Lemma gone_update_fid fid f : guarantees keeps_gone (update_fid fid f).
Proof. apply frame_update_fid; [apply _ | apply gone_table]. Qed.
Lemma gone_remove_fid fid : guarantees keeps_gone (remove_fid fid).
Proof. apply frame_remove_fid; [apply _ | apply gone_table]. Qed.
#[local] Hint Resolve gone_look gone_get_fid gone_get_handle gone_change gone_set_contents
  gone_insert_fid gone_update_fid gone_remove_fid : guarantees.

(** *** Changes in place *)

(** New contents for a file. *)
Lemma rewritten r w m c c' :
  good r → after_update r w → w_tree w !! (W ++ r) = Some (File m c) →
  lost w ∨ step_inv (set_tree (<[W ++ r := File (set_mtime (h_clock h) m) c']> (w_tree w)) w).
Proof.
  intros Hr Hw Hn. destruct (inv_facts W good S0 w) as [|Hf]; [by eapply (after_update_inv W good S0 h Hh) | by left |]. right.
  apply (updated W good S0 h Hh r w (File m c)); try done. split; [apply (tf_meta _ Hf r _ Hn) | apply (hw_clock _ Hh)].
Qed.

Lemma alter_cases (g : node → node) (t : tree) q :
  alter g q t = match t !! q with Some n => <[q := g n]> t | None => t end.
Proof.
  apply map_eq. intros q'. destruct (decide (q = q')) as [<-|Hne].
  - rewrite lookup_alter_eq. destruct (t !! q) eqn:E; simpl; [by rewrite lookup_insert_eq | by rewrite E].
  - rewrite lookup_alter_ne by done. destruct (t !! q); [by rewrite lookup_insert_ne | done].
Qed.

Lemma set_contents_at fid r f c :
  good r → handle_ok (W ++ r) f →
  ensures (at_fid fid (W ++ r) (after_update r)) (set_contents h f c) (λ _, at_fid fid (W ++ r) step_inv).
Proof.
  intros Hr Hf. assert (∀ w, after_update r w → step_inv w) as HB by (intros w; by apply (after_update_inv W good S0 h Hh)).
  unfold set_contents. destruct (f_loc f) as [q|g q] eqn:Eq.
  - specialize (Hf q Eq) as ->. apply change_at; [done|]. intros w t Hw [= <-].
    rewrite alter_cases. destruct (w_tree w !! (W ++ r)) as [n|] eqn:En; [|right; destruct w; by apply HB].
    destruct n as [m c0| |]; [by eapply rewritten|..]; right; rewrite insert_id by done; destruct w; by apply HB.
  - intros e He. right. apply (at_weaken _ _ (after_update r)); [done | exact He].
Qed.

(** An operation that stops here. *)
Ltac stop := intros ? ?; right; first [by eapply at_inv | by eapply at_env_ok].

Lemma file_write_at fid r f off data :
  good r → handle_ok (W ++ r) f →
  ensures (at_fid fid (W ++ r) (after_update r)) (file_write h f off data) (λ _, env_ok).
Proof.
  intros Hr Hf. assert (∀ w, after_update r w → step_inv w) as HB by (intros w; by apply (after_update_inv W good S0 h Hh)).
  unfold file_write. destruct (decide _); [stop|]. destruct (negb _); [stop|].
  destruct (_ <? _); [stop|]. eapply bind_ok; [apply ensures_gets | intros; guarantee|]. intros c.
  eapply ensures_pre; [intros e [He _]; exact He|].
  destruct (f_append f); [destruct (_ <? _); [stop|]|];
    (eapply ensures_conseq; [| |by apply set_contents_at]; [done|]; intros ? ?; apply at_inv).
Qed.

Lemma write_at request r :
  good r →
  ensures (at_fid (Twrite_fid request) (W ++ r) (after_update r)) (handle_write h request)
    (λ _, env_ok).
Proof.
  intros Hr. assert (∀ w, after_update r w → step_inv w) as HB by (intros w; by apply (after_update_inv W good S0 h Hh)).
  unfold handle_write. eapply bind_ok; [by apply get_handle_at | unfold file_write, seek; intros; guarantee|].
  intros f. apply ensures_fact. intros Hf. unfold seek.
  destruct (max_offset <? Twrite_offset request); [stop|].
  eapply bind_ok; [apply ensures_done | unfold file_write; intros; guarantee|]. intros ?.
  eapply bind_ok; [by apply file_write_at | intros; guarantee | intros; apply ensures_done].
Qed.

Lemma setattr_at request r (B : world → Prop) :
  good r → (∀ w, B w → step_inv w) →
  (Z.land (Tsetattr_valid request) P9_SETATTR_SIZE ≠ 0 → ∀ w, B w → after_update r w) →
  ensures (at_fid (Tsetattr_fid request) (W ++ r) B) (handle_setattr h request) (λ _, env_ok).
Proof.
  intros Hr HB Hsize. unfold handle_setattr.
  eapply bind_ok; [apply get_fid_at | intros; guarantee|]. intros st. apply ensures_fact. intros [-> _].
  destruct (Z.eqb_spec (Z.land (Tsetattr_valid request) P9_SETATTR_SIZE) 0) as [_|Hs]; simpl; [stop|].
  apply change_ok; [done|].
  intros w t Hw. unfold fs_set_len. destruct (inv_facts W good S0 w) as [|Hf]; [auto | by left |].
  intros ([q n] & Hl & Ht)%bind_ok_inv.
  destruct (lookup_node_at W good (w_tree w) true r q n) as [-> Hn];
    [done | by apply (good_clean _ (tf_good _ Hf)) | done |].
  destruct n as [m c| |]; [|done|done]. destruct (_ <? _); [done|]. injection Ht as <-.
  by eapply rewritten; [|apply Hsize|].
Qed.

(** *** Opening a file *)

Lemma fs_open_at r w o q t :
  good r → step_inv w → (oo_truncate o = true → after_update r w) →
  fs_open h (w_tree w) o (W ++ r) = Ok (q, t) →
  lost w ∨ (q = W ++ r ∧ step_inv (set_tree t w)).
Proof.
  intros Hr Hw Ho Hop. destruct (inv_facts W good S0 w Hw) as [|Hf]; [by left|].
  unfold fs_open in Hop. apply bind_ok_inv in Hop as ([] & _ & Hop).
  apply bind_ok_inv in Hop as ([q' n] & Hl & Hop).
  destruct (lookup_node_at W good (w_tree w) true r q' n) as [-> Hn];
    [done | by apply (good_clean _ (tf_good _ Hf)) | done |].
  assert (step_inv (set_tree (w_tree w) w)) as Hsame by by destruct w.
  destruct n as [m c| |]; [destruct (oo_truncate o) eqn:Et|..]; repeat case_match; simplify_eq; auto.
  destruct (rewritten r w m c [] Hr (Ho eq_refl) Hn); auto.
Qed.

Lemma open_with_flags_at fid r flags (B : world → Prop) :
  good r → (∀ w, B w → step_inv w) →
  (Z.land flags 0x200 ≠ 0 → ∀ w, B w → after_update r w) →
  ensures (at_fid fid (W ++ r) B) (open_with_flags h (W ++ r) flags)
    (λ f e, handle_ok (W ++ r) f ∧ at_fid fid (W ++ r) step_inv e).
Proof.
  intros Hr HB Htr. unfold open_with_flags. set (o := open_options flags).
  assert (∀ w, B w → oo_truncate o = true → after_update r w) as Ho.
  { intros w Hw Ht. apply Htr; [|done]. simpl in Ht. by apply negb_true_iff, Z.eqb_neq in Ht. }
  eapply bind_ok; [by apply (look_at fid (W ++ r) _ B); auto | intros; guarantee|]. intros q.
  apply bind_ok with (Q := λ _ e, q = W ++ r ∧ at_fid fid (W ++ r) step_inv e); [| intros; guarantee |].
  - intros e He. pose proof (change_at fid (W ++ r) (λ ns, snd <$> fs_open h ns o (W ++ r))
      (λ w, B w ∧ fst <$> fs_open h (w_tree w) o (W ++ r) = Ok q)
      (λ w, q = W ++ r ∧ step_inv w)) as Hc.
    specialize (Hc ltac:(intros w [? ?]; auto)).
    assert (∀ w t, (B w ∧ fst <$> fs_open h (w_tree w) o (W ++ r) = Ok q) →
      snd <$> fs_open h (w_tree w) o (W ++ r) = Ok t → lost w ∨ (q = W ++ r ∧ step_inv (set_tree t w))) as Hop.
    { intros w t [Hw Hq] Ht. destruct (fs_open h (w_tree w) o (W ++ r)) as [[q' t']| |] eqn:E; [|done|done].
      simplify_eq/=. apply (fs_open_at r w o); auto. }
    specialize (Hc Hop e He). destruct (change _ _ e) as [[[]| |] e']; [|done|done].
    destruct Hc as [|(? & ? & -> & ?)]; [by left|]. right. split; [done|]. by split.
  - intros ?. apply ensures_fact. intros ->. intros e He. right. split; [|done]. by intros q [= <-].
Qed.

Lemma lopen_at request msize r (B : world → Prop) :
  good r → (∀ w, B w → step_inv w) →
  (Z.land (Tlopen_flags request) 0x200 ≠ 0 → ∀ w, B w → after_update r w) →
  ensures (at_fid (Tlopen_fid request) (W ++ r) B) (handle_lopen h request msize) (λ _, env_ok).
Proof.
  intros Hr HB Htr. unfold handle_lopen, qid_from_path.
  eapply bind_ok; [apply get_fid_at | unfold open_with_flags; intros; guarantee|].
  intros st. apply ensures_fact. intros [-> _].
  eapply bind_ok; [apply (look_at _ _ _ B); auto | unfold open_with_flags; intros; guarantee|].
  intros qid. eapply ensures_pre; [intros e He; eapply (at_weaken _ _ _ B); [|exact He]; by intros ? [? ?]|].
  eapply bind_ok; [apply ensures_gets | unfold open_with_flags; intros; guarantee|].
  intros ns. eapply ensures_pre; [intros e [He _]; exact He|].
  set (fid := Tlopen_fid request). apply bind_ok with (Q := λ _, at_fid fid (W ++ r) step_inv);
    [| intros; guarantee |].
  - destruct (path_is_dir ns (W ++ r)); [intros e He; right; by eapply at_weaken|].
    eapply bind_ok; [by apply open_with_flags_at | intros; guarantee|]. intros f.
    apply ensures_fact. intros Hf. apply update_fid_at. intros st' [Hp _] Hst.
    split; [|done]. split; [done|]. intros f' [= <-]. simpl. by rewrite Hst.
  - intros ?. eapply bind_ok; [apply (update_fid_at _ (W ++ r) _ (W ++ r)); by intros st' ? ? | intros; guarantee|].
    intros ?. stop.
Qed.

(** *** Removals *)

Lemma unlinkat_at request r name :
  name = Tunlinkat_name request → good (r ++ [name]) → name_ok name = true →
  let d := negb (Z.land (Tunlinkat_flags request) AT_REMOVEDIR =? 0) in
  ensures (at_fid (Tunlinkat_dirfid request) (W ++ r) (after_unlink (r ++ [name]) d))
    (handle_unlinkat h request) (λ _, env_ok).
Proof.
  intros Hname Hr Hok d. unfold handle_unlinkat. rewrite <- Hname.
  eapply bind_ok; [apply get_fid_at | intros; guarantee|]. intros st. apply ensures_fact. intros [-> _].
  rewrite path_join_name, <- app_assoc by done. fold d.
  assert (r ++ [name] ≠ []) as Hne by by destruct r.
  destruct d; (apply change_ok; [intros w; by apply (after_unlink_inv W good S0 h Hh)|]);
    intros w t Hw Ht; right; by apply (removed W good S0 h Hh (r ++ [name]) _ w t Hr Hne Hw).
Qed.

Lemma remove_fid_ok fid : ensures env_ok (remove_fid fid) (λ _, env_ok).
Proof.
  intros e [[Hr Hf] Hw]. unfold remove_fid, on_table, FidTable_remove, FidTable_get.
  destruct (fids (e_table e) !! fid) as [st|] eqn:E; simpl; right; (split; [|done]); (split; [done|]).
  - by apply map_Forall_delete.
  - done.
Qed.

Lemma remove_at request r :
  good r → r ≠ [] →
  ensures (at_fid (Tremove_fid request) (W ++ r)
             (λ w, after_unlink r (path_is_dir (w_tree w) (W ++ r)) w))
    (handle_remove h request) (λ _, env_ok).
Proof.
  intros Hr Hne. unfold handle_remove.
  eapply bind_ok; [apply get_fid_at | intros; guarantee|]. intros st. apply ensures_fact. intros [-> _].
  apply bind_ok with (Q := λ ns e, at_fid (Tremove_fid request) (W ++ r)
    (λ w, after_unlink r (path_is_dir ns (W ++ r)) w) e); [| intros; guarantee |].
  { intros e He. right. exact He. }
  intros ns. eapply bind_ok; [apply ensures_try | intros; guarantee|].
  - destruct (path_is_dir ns (W ++ r)) eqn:Ed; (apply change_ok; [intros w; by apply (after_unlink_inv W good S0 h Hh)|]);
      intros w t Hw Ht; right; by apply (removed W good S0 h Hh r _ w t Hr Hne Hw).
  - intros res. eapply bind_ok; [apply ensures_ignore, remove_fid_ok | intros; guarantee|].
    intros ?. destruct res; [apply ensures_throw | apply ensures_done].
Qed.

(** *** Creations *)

Lemma created_qid r d w :
  good r → created r d w → lost w ∨ step_inv w ∨ is_ok (qid_of h (w_tree w) (W ++ r)) = true.
Proof.
  intros Hr (w0 & t & Hsv & Hc & ->). destruct (inv_facts W good S0 w0 Hsv) as [|Hf]; [by left|]. right. right.
  destruct (creates_inv W good h d _ r t Hf Hr Hc) as (_ & n & Hn & Hp).
  unfold qid_of, canonicalize. simpl. by rewrite (lookup_node_present W t true r n Hp Hn).
Qed.

Lemma lcreate_at request msize r name :
  name = Tlcreate_name request → good (r ++ [name]) → name_ok name = true →
  ensures (at_fid (Tlcreate_fid request) (W ++ r) step_inv) (handle_lcreate h request msize)
    (λ _, at_fid (Tlcreate_fid request) (W ++ r ++ [name]) (created (r ++ [name]) false)).
Proof.
  intros Hname Hr Hok. unfold handle_lcreate, qid_from_path. rewrite <- Hname.
  set (fid := Tlcreate_fid request).
  eapply bind_ok; [apply get_fid_at | intros; guarantee|]. intros st. apply ensures_fact. intros [-> _].
  rewrite path_join_name, <- app_assoc by done.
  eapply bind_ok; [apply (look_at _ _ _ step_inv); auto | intros; guarantee|]. intros q.
  apply bind_ok with (Q := λ _, at_fid fid (W ++ r)
    (λ w, q = W ++ r ++ [name] ∧ created (r ++ [name]) false w)); [| intros; guarantee |].
  { apply change_at; [by intros w []|]. intros w t [Hw Hq] Ht.
    destruct (inv_facts W good S0 w Hw) as [|Hf]; [by left | right].
    destruct (creates_inv W good h false _ _ t Hf Hr Ht) as (Hre & _).
    rewrite (resolve_reach W) in Hq by (done || apply Hf). split; [by injection Hq | by exists w, t]. }
  intros ?. eapply bind_ok; [apply (look_at _ _ _ _) | intros; guarantee|].
  { intros w [_ Hw]. by eapply created_qid. }
  intros qid. apply (ensures_pre _ _ _ (λ e, q = W ++ r ++ [name] ∧
    at_fid fid (W ++ r) (created (r ++ [name]) false) e)).
  { by intros e (? & ? & [-> ?] & _). }
  apply ensures_fact. intros ->.
  eapply bind_ok; [apply (update_fid_at _ (W ++ r) _ (W ++ r ++ [name])) | intros; guarantee |
    intros; apply ensures_done].
  intros st' _ _. split; [|done]. split; [by exists (r ++ [name])|]. intros f [= <-]. by intros q [= <-].
Qed.

Lemma mkdir_at request r name :
  name = Tmkdir_name request → good (r ++ [name]) → name_ok name = true →
  ensures (at_fid (Tmkdir_dfid request) (W ++ r) step_inv) (handle_mkdir h request)
    (λ _, at_fid (Tmkdir_dfid request) (W ++ r) (created (r ++ [name]) true)).
Proof.
  intros Hname Hr Hok. unfold handle_mkdir, qid_from_path. rewrite <- Hname.
  set (fid := Tmkdir_dfid request).
  eapply bind_ok; [apply get_fid_at | intros; guarantee|]. intros st. apply ensures_fact. intros [-> _].
  rewrite path_join_name, <- app_assoc by done.
  eapply bind_ok; [apply (change_at _ _ _ step_inv (created (r ++ [name]) true)); [done|] | intros; guarantee|].
  { intros w t Hw Ht. right. by exists w, t. }
  intros ?. eapply bind_ok; [apply (look_at _ _ _ _); intros w Hw; by eapply created_qid | intros; guarantee|].
  intros qid e He. right. eapply at_weaken; [|exact He]. by intros w [? ?].
Qed.

(** *** Session operations *)

Definition walk_name (name : string) : Prop := name = ".." ∨ name = "." ∨ name_ok name = true.

Lemma resolve_root t f q : plain W t → q `prefix_of` W → resolve t f q = Ok q.
Proof.
  intros Hp [k Hk]. apply (walk_dirs 40 t f [] q). intros r1 c r2 ->. simpl.
  assert (dir_at t (r1 ++ [c])) as Hd.
  { apply (pl_root _ _ Hp). exists (r2 ++ k). by rewrite Hk, <- !app_assoc. }
  split_and!; [|done | by apply dir_not_link].
  pose proof (pl_root_names _ _ Hp) as HW. rewrite Hk, !Forall_app, Forall_cons in HW. tauto.
Qed.

Lemma canonicalize_root t q : plain W t → q `prefix_of` W → canonicalize t q = Ok q.
Proof.
  intros Hp Hq. unfold canonicalize, lookup_node. rewrite resolve_root by done. simpl.
  destruct (pl_root _ _ Hp q Hq) as [m ->]. done.
Qed.

(** One step of a walk that is accepted stays in the working tree. *)
Lemma next_path_at t r name qid :
  tree_facts t → good r → walk_name name → is_contained t (next_path (W ++ r) name) W = true →
  qid_of h t (next_path (W ++ r) name) = Ok qid →
  ∃ r', next_path (W ++ r) name = W ++ r' ∧ good r'.
Proof.
  intros Hf Hr Hname Hin Hq. pose proof (good_clean _ (tf_good _ Hf) r Hr) as Hcl.
  assert (∀ r', clean r' → next_path (W ++ r) name = W ++ r' → good r') as Hgood.
  { intros r' Hr' Heq. rewrite Heq in Hq. unfold qid_of in Hq.
    apply bind_ok_inv in Hq as ([q n] & Hl & _).
    destruct (lookup_node_at W good t true r' q n Hf Hr' Hl) as [_ Hn]. apply (tf_paths _ Hf). by exists n. }
  unfold next_path in *. destruct (decide (name = "..")) as [->|Hdd]; [|case_decide as Hd; [by exists r|]].
  - destruct (path_cases r) as [->|(r' & c & ->)].
    + rewrite app_nil_r in *. destruct (path_cases W) as [->|(W' & c & HW)]; [by exists []|].
      exfalso. rewrite HW, parent_snoc in Hin. simpl in Hin. rewrite <- HW in Hin. unfold is_contained in Hin.
      rewrite !canonicalize_root in Hin by (apply Hf || (by exists [c]) || done).
      apply bool_decide_eq_true, prefix_length in Hin. rewrite HW, length_app in Hin. simpl in Hin. lia.
    + rewrite app_assoc, parent_snoc in *. simpl in *. apply clean_app in Hcl as [Hcl _].
      exists r'. split; [done | by apply Hgood].
  - destruct Hname as [|[|Hok]]; [done | done |]. rewrite path_join_name, <- app_assoc in * by done.
    exists (r ++ [name]). split; [done|]. apply Hgood; [by apply clean_snoc | done].
Qed.

Lemma walk_names_at t wnames r qids qids' p' :
  tree_facts t → good r → Forall walk_name wnames →
  walk_names h t W (W ++ r) qids wnames = Ok (qids', p') → ∃ r', p' = W ++ r' ∧ good r'.
Proof.
  intros Hf Hr Hall. revert r qids Hr. induction Hall as [|name wnames Hname _ IH]; intros r qids Hr; simpl.
  { intros [= _ <-]. by exists r. }
  destruct (is_contained _ _ _) eqn:Hin; simpl.
  2: { case_decide; [done|]. intros [= _ <-]. by exists r. }
  destruct (qid_of h t _) as [qid| |] eqn:Hq; [|intros [= _ <-]; by exists r | done].
  destruct (next_path_at t r name qid Hf Hr Hname Hin Hq) as (r' & -> & Hr'). by apply IH.
Qed.

(** A walk names children by their plain names, and does not move a FID that is
    open. *)
Definition walk_ok (request : Twalk) (e : env world) : Prop :=
  Forall walk_name (Twalk_wnames request) ∧
  (Twalk_newfid request = Twalk_fid request →
   match fids (e_table e) !! Twalk_fid request with
   | Some st => open_handle st = None ∨ Twalk_wnames request = []
   | None => True
   end).

Lemma table_insert fid st tb :
  table_ok tb → located st → table_ok (mkFidTable (<[fid := st]> (fids tb)) (root_path tb)).
Proof. intros [Hr Hf] Hl. split; [done|]. by apply map_Forall_insert_2. Qed.

Lemma insert_fid_ok fid st : located st → ensures env_ok (insert_fid fid st) (λ _, env_ok).
Proof.
  intros Hl e [Ht Hw]. unfold insert_fid, on_table, FidTable_insert.
  destruct (bool_decide _); simpl; right; [by split|]. split; [by apply table_insert | done].
Qed.

Lemma walk_fid_ok request : ensures (λ e, env_ok e ∧ walk_ok request e) (handle_walk h request) (λ _, env_ok).
Proof.
  intros e [Hok [Hnames Hopen]]. destruct (inv_facts W good S0 (e_os e) (proj2 Hok)) as [Hlost|Hf].
  { assert (guarantees keeps_gone (handle_walk h request)) as Hg by (unfold handle_walk; guarantee).
    specialize (Hg e Hlost). destruct (handle_walk h request e) as [[] ?]; by left. }
  unfold handle_walk, mbind, stm_bind, get_fid, FidTable_get.
  destruct (fids (e_table e) !! Twalk_fid request) as [st|] eqn:Est; cbn [ok_or]; [|by right].
  destruct (proj2 (proj1 Hok) _ _ Est) as [(r & Hr & Hgood) Hh']. rewrite Hr.
  destruct (Twalk_wnames request) as [|name wnames] eqn:Enames; [case_decide; [by right|]|].
  { pose proof (insert_fid_ok (Twalk_newfid request) (FidState_new (W ++ r) (fid_qid st))
      ltac:(by split; [exists r|]) e Hok) as Hi. by destruct (insert_fid _ _ e) as [[] ?]. }
  unfold gets, lift. rewrite (proj1 (proj1 Hok)). cbv beta iota.
  destruct (walk_names _ _ _ _ _ _) as [[qids p']| |] eqn:Ew; [|by right|by right]. cbv beta iota.
  destruct (walk_names_at _ _ _ _ _ _ Hf Hgood Hnames Ew) as (r' & -> & Hr').
  case_decide; [|by right]. destruct (last qids) as [qid|]; [|by right].
  case_decide as Hsame.
  - unfold update_fid, on_table, FidTable_get_mut, FidTable_get. rewrite Est. simpl. right.
    split; [|apply Hok]. apply table_insert; [apply Hok|]. split; [by exists r'|]. simpl.
    destruct (Hopen Hsame) as [-> |]; done.
  - pose proof (insert_fid_ok (Twalk_newfid request) (FidState_new (W ++ r') qid)
      ltac:(by split; [exists r'|]) e Hok) as Hi. by destruct (insert_fid _ _ e) as [[] ?].
Qed.

Lemma attach_ok request : ensures env_ok (handle_attach h request) (λ _, env_ok).
Proof.
  intros e Hok. destruct (inv_facts W good S0 (e_os e) (proj2 Hok)) as [Hlost|Hf].
  { assert (guarantees keeps_gone (handle_attach h request)) as Hg
      by (unfold handle_attach, qid_from_path; guarantee).
    specialize (Hg e Hlost). destruct (handle_attach h request e) as [[] ?]; by left. }
  unfold handle_attach, mbind, stm_bind, gets, qid_from_path, look. rewrite (proj1 (proj1 Hok)).
  destruct (qid_of _ _ _) as [qid| |]; simpl; [|by right..].
  assert (good []) as Hg.
  { apply (tf_paths _ Hf). rewrite app_nil_r. destruct (pl_root _ _ (tf_plain _ Hf) W) as [m Hm]; [done|].
    by eexists. }
  pose proof (insert_fid_ok (Tattach_fid request) (FidState_new W qid)
    ltac:(by split; [exists []; rewrite app_nil_r|]) e Hok) as Hi. by destruct (insert_fid _ _ e) as [[] ?].
Qed.

Lemma clunk_ok request : ensures env_ok (handle_clunk request) (λ _, env_ok).
Proof.
  unfold handle_clunk. eapply bind_ok; [apply remove_fid_ok | intros; guarantee | intros; apply ensures_done].
Qed.

(** *** Requests that only read *)

Lemma read_ok {A} (m : stm (env world) P9Error A) :
  guarantees (λ e e', e' = e) m → ensures env_ok m (λ _, env_ok).
Proof.
  intros Hm. eapply ensures_conseq; [| |by apply (ensures_read _ _ env_ok)]; [done | by intros ? ? []].
Qed.

Definition same_env (e e' : env world) : Prop := e' = e.
#[local] Instance same_env_preorder : PreOrder same_env.
Proof. split; [done|]. intros e1 e2 e3 -> ->. done. Qed.
Lemma same_look {A} (f : tree → io A) : guarantees same_env (look f).
Proof. by intros e. Qed.
Lemma same_get_fid fid : guarantees same_env (get_fid fid).
Proof. by intros e. Qed.
Lemma same_get_handle fid : guarantees same_env (get_handle fid).
Proof. apply frame_get_handle, _. Qed.
#[local] Hint Resolve same_look same_get_fid same_get_handle : guarantees.

Lemma getattr_ok more r : ensures env_ok (handle_getattr h more r) (λ _, env_ok).
Proof. apply read_ok. change (guarantees same_env (handle_getattr h more r)). unfold handle_getattr, qid_from_path. guarantee. Qed.
Lemma read_file_ok r : ensures env_ok (handle_read r) (λ _, env_ok).
Proof. apply read_ok. change (guarantees same_env (handle_read r)). unfold handle_read, seek, file_read. guarantee. Qed.
Lemma readdir_ok r : ensures env_ok (handle_readdir h r) (λ _, env_ok).
Proof. apply read_ok. change (guarantees same_env (handle_readdir h r)). unfold handle_readdir. guarantee. Qed.
Lemma statfs_ok fid : ensures env_ok (handle_statfs fid) (λ _, env_ok).
Proof. apply read_ok. change (guarantees same_env (handle_statfs fid)). unfold handle_statfs. guarantee. Qed.
Lemma fsync_ok r : ensures env_ok (handle_fsync r) (λ _, env_ok).
Proof. apply read_ok. change (guarantees same_env (handle_fsync r)). unfold handle_fsync. guarantee. Qed.
Lemma readlink_ok r : ensures env_ok (handle_readlink r) (λ _, env_ok).
Proof. apply read_ok. change (guarantees same_env (handle_readlink r)). unfold handle_readlink. guarantee. Qed.

(** An operation that begins with a look-up fails there or works at a FID. *)
Lemma begin_at {A} fid (k : FidState → stm (env world) P9Error A) Q :
  (∀ r, good r → ensures (at_fid fid (W ++ r) step_inv) (get_fid fid ≫= k) Q) →
  ensures env_ok (get_fid fid ≫= k) Q.
Proof.
  intros Hk e Hok. destruct (fids (e_table e) !! fid) as [st|] eqn:Est.
  - destruct (proj2 (proj1 Hok) _ _ Est) as [(r & Hr & Hg) _]. apply (Hk r Hg e).
    split; [apply Hok|]. split; [by exists st | apply Hok].
  - unfold mbind, stm_bind, get_fid, FidTable_get. rewrite Est. by right.
Qed.

End host.

End operations.
