(* ===== verification/P9Session.v ===== *)
(** * A 9P session can be undone

    The 9P server with the undo interceptor.  While a step is open, the
    requests of a client change the working tree only in ways the log of the
    step can take back: at every point of a session the step has been lost
    ([UndoBackend.v]), or rolling it back restores the tree it started from. *)

From Stdlib Require Import Ascii.
From stdpp Require Import base gmap strings list fin_maps.
From S2P Require Import Prelude HostFs HostFacts Common WriteInterceptor Safeguard UndoLog UndoInterceptor UndoHooks UndoEvict UndoFacts UndoCapture UndoSteps UndoCorrect UndoBackend UndoTheorems.
From S2P Require Import P9Wire P9Messages P9Ops P9Server P9Loop P9Facts P9Undo.
#[local] Open Scope Z_scope.

(** The interceptor a server is given. *)
Definition undo_interceptor `{ThirdParty} (h : host) : WriteInterceptor world := undo_hooks h no_fault.

(** A condition on the message in a payload. *)
Definition decodes {M} `{Message M} (payload : list Z) (C : M → Prop) : Prop :=
  match decode (M := M) (WireReader_new payload) with Ok (m, _) => C m | _ => True end.

Section session.
Context `{TP : ThirdParty} `{!ThirdPartyLaws TP} (W : path) (good : path → Prop) (S0 : tree).
Context (more : path → node → stat_rest).

Abbreviation step_inv := (step_inv W good S0).
Abbreviation at_fid := (at_fid W good).
Abbreviation env_ok := (env_ok W good S0).

(** ** Admissible requests

    A client names files by plain names, creates under a name only what had
    that name when the step was opened (a file or a directory) or nothing, does
    not remove the share itself, and does not rename or link.  Renaming is left
    out because the log does not record the new name (see the findings). *)

Definition child_ok (fid : Z) (name : string) (kind : option bool) (e : env world) : Prop :=
  match fids (e_table e) !! fid with
  | Some st =>
      name_ok name = true ∧ good (default [] (strip_prefix W (fid_path st)) ++ [name]) ∧
      match S0 !! (fid_path st ++ [name]), kind with
      | Some n0, Some d => is_dir_node n0 = d
      | _, _ => True
      end
  | None => True
  end.

Definition not_root (fid : Z) (e : env world) : Prop :=
  match fids (e_table e) !! fid with Some st => fid_path st ≠ W | None => True end.

Definition admissible (mt : Z) (payload : list Z) (e : env world) : Prop :=
  (mt ≠ TRENAMEAT ∧ mt ≠ TSYMLINK ∧ mt ≠ TLINK) ∧
  (mt = TWALK → decodes payload (λ m : Twalk, walk_ok m e)) ∧
  (mt = TLCREATE → decodes payload (λ m, child_ok (Tlcreate_fid m) (Tlcreate_name m) (Some false) e)) ∧
  (mt = TMKDIR → decodes payload (λ m, child_ok (Tmkdir_dfid m) (Tmkdir_name m) (Some true) e)) ∧
  (mt = TUNLINKAT → decodes payload (λ m, child_ok (Tunlinkat_dirfid m) (Tunlinkat_name m) None e)) ∧
  (mt = TREMOVE → decodes payload (λ m, not_root (Tremove_fid m) e)).

(** ** Handlers *)

Definition lifted (P : env world → Prop) (sv : P9Server world) : Prop :=
  sv_interceptor sv = Some undo_interceptor ∧ P (sv_env sv).

Abbreviation ensures := (ensures (E := list Z) (lifted gone) (lifted env_ok)).
Abbreviation keeps := (guarantees (E := list Z) (server_rel keeps_gone undo_interceptor)).

Section host.
Context (h : host) (Hh : host_wf h).

Lemma bind_server {A B} P (m : stm (P9Server world) (list Z) A) (k : A → stm _ _ B) Q T :
  ensures P m Q → (∀ a, keeps (k a)) → (∀ a, ensures (Q a) (k a) T) → ensures P (m ≫= k) T.
Proof.
  apply ensures_bind. intros sv sv' Hrel [Hi Hg]. destruct (Hrel Hi) as [Hi' HR]. split; [done | by apply HR].
Qed.

Lemma server_fact {A} φ P (m : stm (P9Server world) (list Z) A) Q :
  (φ → ensures (lifted P) m Q) → ensures (lifted (λ e, φ ∧ P e)) m Q.
Proof. intros Hm sv (Hi & Hφ & HP). by apply Hm. Qed.

Lemma lift_operation {A} tag P (m : stm (env world) P9Error A) Q :
  UndoBackend.ensures gone env_ok P m Q → ensures (lifted P) (operation tag m) (λ a, lifted (Q a)).
Proof.
  intros Hm sv [Hi HP]. specialize (Hm _ HP). unfold operation.
  destruct (m (sv_env sv)) as [[a|e|] e']; simpl; (destruct Hm as [|]; [left | right]); by split.
Qed.

Lemma decoded_server {M} `{Message M} tag payload (C : M → env world → Prop) :
  ensures (lifted (λ e, env_ok e ∧ decodes payload (λ m, C m e))) (decoded tag payload)
    (λ m, lifted (λ e, env_ok e ∧ C m e)).
Proof.
  intros sv (Hi & Hok & HC). unfold decoded. unfold decodes in HC.
  destruct (decode (WireReader_new payload)) as [[m r]| |]; right; by split.
Qed.

Lemma if_interceptor_server P f Q :
  ensures (lifted P) (f (undo_interceptor h)) Q → ensures (lifted P) (if_interceptor h f) Q.
Proof.
  intros Hf sv [Hi HP]. unfold if_interceptor, mbind, stm_bind, gets. rewrite Hi. apply Hf. by split.
Qed.

Lemma hook_at fid p c (B B' : world → Prop) :
  (∀ w res w', B w → call_hook (undo_interceptor h) c w = (res, w') → lost w' ∨ (res = Ok () ∧ B' w')) →
  ensures (lifted (at_fid fid p B)) (hook (undo_interceptor h) c)
    (λ r, lifted (λ e, r = inr () ∧ at_fid fid p B' e)).
Proof.
  intros Hc sv (Hi & Ht & Hp & Hw). unfold hook.
  destruct (call_hook _ c _) as [res w'] eqn:E. specialize (Hc _ _ _ Hw E).
  destruct Hc as [Hc|[-> HB]]; [destruct res; left; by split|]. right. split; [done|].
  split; [done|]. split; [by apply table_settle|]. split; [by apply fid_at_settle | done].
Qed.

Lemma pre_hook_at tag fid p c (B B' : world → Prop) :
  (∀ w res w', B w → call_hook (undo_interceptor h) c w = (res, w') → lost w' ∨ (res = Ok () ∧ B' w')) →
  ensures (lifted (at_fid fid p B)) (pre_hook tag (undo_interceptor h) c) (λ _, lifted (at_fid fid p B')).
Proof.
  intros Hc. unfold pre_hook. eapply bind_server; [by apply hook_at | |].
  - intros []; by intros sv.
  - intros r. apply server_fact. intros ->. apply ensures_done.
Qed.

Lemma post_hook_at fid p c (B : world → Prop) :
  (∀ w res w', B w → call_hook (undo_interceptor h) c w = (res, w') → step_inv w') →
  ensures (lifted (at_fid fid p B)) (post_hook h c) (λ _, lifted env_ok).
Proof.
  intros Hc. apply if_interceptor_server. intros sv (Hi & Ht & Hp & Hw).
  unfold hook, mbind, stm_bind. destruct (call_hook _ c _) as [res w'] eqn:E. specialize (Hc _ _ _ Hw E).
  destruct res; right; (split; [done|]); (split; [by apply table_settle | done]).
Qed.

(** The FID a handler looks up first. *)
Lemma get_fid_server tag fid (C : env world → Prop) :
  ensures (lifted (λ e, env_ok e ∧ C e)) (operation tag (get_fid fid))
    (λ st, lifted (λ e, (∃ r, fid_path st = W ++ r ∧ good r) ∧
       at_fid fid (fid_path st) step_inv e ∧ fids (e_table e) !! fid = Some st ∧ C e)).
Proof.
  apply lift_operation. intros e [[[Hr Hf] Hw] HC]. unfold get_fid, FidTable_get.
  destruct (fids (e_table e) !! fid) as [st|] eqn:Est; simpl; right; [|by split].
  split; [apply (Hf _ _ Est)|]. split; [|done]. split; [done|]. split; [by exists st | done].
Qed.

Lemma child_at fid st name kind e r :
  fid_path st = W ++ r → fids (e_table e) !! fid = Some st → child_ok fid name kind e →
  name_ok name = true ∧ good (r ++ [name]) ∧
  ∀ d n0, kind = Some d → S0 !! (W ++ r ++ [name]) = Some n0 → is_dir_node n0 = d.
Proof.
  intros Hr Hst. unfold child_ok. rewrite Hst, Hr, strip_prefix_app, <- app_assoc. simpl.
  intros (Hn & Hg & Hk). split_and!; [done | done |]. intros d n0 -> Hs. by rewrite Hs in Hk.
Qed.

(** ** Handlers do not touch a lost step *)

Lemma gone_hook c e :
  let s := (call_hook (undo_interceptor h) c (e_os e)).2 in
  keeps_gone e (settle (reloc_in (tree_of s)) s e).
Proof. intros s He. exact (hook_keeps_lost h c (e_os e) He). Qed.

Lemma serve_gone_operation {A} tag (m : stm (env world) P9Error A) :
  guarantees keeps_gone m → keeps (operation tag m).
Proof. apply frame_operation. Qed.
Lemma keeps_if f : keeps (f (undo_interceptor h)) → keeps (if_interceptor h f).
Proof. apply frame_if. Qed.
Lemma serve_gone_pre_hook tag c : keeps (pre_hook tag (undo_interceptor h) c).
Proof. apply frame_pre_hook; [apply _ | apply gone_hook]. Qed.
Lemma serve_gone_post_hook c : keeps (post_hook h c).
Proof. apply frame_post_hook; [apply _ | apply gone_hook]. Qed.
Lemma serve_gone_hook c : keeps (hook (undo_interceptor h) c).
Proof. apply frame_hook, gone_hook. Qed.
Lemma serve_gone_check_name tag p name : keeps (check_name tag p name).
Proof. apply guarantees_ret, _. Qed.

Lemma gone_write r : guarantees keeps_gone (handle_write h r).
Proof. apply frame_write; [apply _ | apply gone_settle | apply gone_unlinked]. Qed.
Lemma gone_setattr r : guarantees keeps_gone (handle_setattr h r).
Proof. apply frame_setattr; [apply _ | apply gone_settle]. Qed.
Lemma gone_lopen r m : guarantees keeps_gone (handle_lopen h r m).
Proof. apply frame_lopen; [apply _ | apply gone_settle | apply gone_table]. Qed.
Lemma gone_lcreate r m : guarantees keeps_gone (handle_lcreate h r m).
Proof. apply frame_lcreate; [apply _ | apply gone_settle | apply gone_table]. Qed.
Lemma gone_mkdir r : guarantees keeps_gone (handle_mkdir h r).
Proof. apply frame_mkdir; [apply _ | apply gone_settle]. Qed.
Lemma gone_unlinkat r : guarantees keeps_gone (handle_unlinkat h r).
Proof. apply frame_unlinkat; [apply _ | apply gone_settle]. Qed.
Lemma gone_remove r : guarantees keeps_gone (handle_remove h r).
Proof. apply frame_remove; [apply _ | apply gone_settle | apply gone_table]. Qed.
#[local] Hint Resolve serve_gone_operation serve_gone_pre_hook serve_gone_post_hook serve_gone_hook serve_gone_check_name
  gone_get_fid gone_remove_fid gone_write gone_setattr gone_lopen gone_lcreate gone_mkdir
  gone_unlinkat gone_remove : guarantees.

Ltac frames :=
  intros; unfold denied;
  repeat (cbv beta zeta;
    lazymatch goal with
    | |- guarantees _ (if_interceptor _ _) => apply keeps_if
    | |- guarantees _ (_ ≫= _) => apply guarantees_bind; [apply _ | | intros ?]
    | |- guarantees _ (match ?x with _ => _ end) => destruct x
    | |- guarantees _ (ignore _) => apply guarantees_ignore
    | |- _ => solve [auto with guarantees typeclass_instances]
    end).

(** ** The requests *)

Lemma server_ex {A} φ P (m : stm (P9Server world) (list Z) A) Q :
  (∀ r : path, φ r → ensures (lifted (P r)) m Q) → ensures (lifted (λ e, ∃ r, φ r ∧ P r e)) m Q.
Proof. intros Hm sv (Hi & r & Hφ & HP). by apply (Hm r). Qed.

Lemma decoded_any {M} `{Message M} tag payload :
  ensures (lifted env_ok) (decoded (M := M) tag payload) (λ _, lifted (λ e, env_ok e ∧ True)).
Proof. intros sv [Hi Hok]. unfold decoded. destruct (decode _) as [[]| |]; right; by split. Qed.

(** Look up a FID, then call a capture hook for its path. *)
Lemma guarded_update tag fid k (c : path → hook_call) :
  (∀ p, call_hook (undo_interceptor h) (c p) = run_hook k h no_fault p) →
  ensures (lifted (λ e, env_ok e ∧ True))
    (st ← operation tag (get_fid fid); pre_hook tag (undo_interceptor h) (c (fid_path st)))
    (λ _, lifted (λ e, ∃ r, good r ∧ at_fid fid (W ++ r) (after_update W good S0 h r) e)).
Proof.
  intros Hc. eapply bind_server; [apply get_fid_server | frames|]. intros st.
  apply server_fact. intros (r & -> & Hr). eapply ensures_conseq; [| |apply (pre_hook_at tag fid (W ++ r))].
  - intros sv (Hi & He & _). split; [exact Hi | exact He].
  - intros ? sv (Hi & He). split; [exact Hi|]. by exists r.
  - intros w res w' Hw Hk. by eapply (update_hook_at W good S0 h k).
Qed.

Lemma twrite_ok tag payload : ensures (lifted env_ok) (handle_twrite h tag payload) (λ _, lifted env_ok).
Proof.
  unfold handle_twrite. eapply bind_server; [apply decoded_any | frames|]. intros request.
  eapply bind_server; [by apply if_interceptor_server, (guarded_update tag _ HWrite PreWrite) | frames|].
  intros ?. apply server_ex. intros r Hr.
  eapply bind_server; [by apply lift_operation, write_at | frames | intros; apply ensures_done].
Qed.

Lemma server_gets {A} (f : P9Server world → A) P : ensures (lifted P) (gets f) (λ _, lifted P).
Proof. intros sv HP. by right. Qed.

Lemma tlopen_ok tag payload : ensures (lifted env_ok) (handle_tlopen h tag payload) (λ _, lifted env_ok).
Proof.
  unfold handle_tlopen. eapply bind_server; [apply decoded_any | frames|]. intros request.
  destruct (Z.eqb_spec (Z.land (Tlopen_flags request) 0x200) 0) as [Hz|Hnz]; simpl.
  - eapply bind_server; [apply ensures_done | frames|]. intros ?.
    eapply ensures_pre; [intros sv (Hi & He & _); exact (conj Hi He)|].
    eapply bind_server; [apply server_gets | frames|]. intros msize.
    eapply bind_server; [apply lift_operation | frames | intros; apply ensures_done].
    apply begin_at. intros r Hr. apply lopen_at; [done | done | done | by intros ?].
  - eapply bind_server; [by apply if_interceptor_server, (guarded_update tag _ HOpenTrunc PreOpenTrunc) | frames|].
    intros ?. apply server_ex. intros r Hr.
    eapply bind_server; [apply server_gets | frames|]. intros msize.
    eapply bind_server; [apply lift_operation | frames | intros; apply ensures_done].
    apply lopen_at; [done | done | | done]. intros w. by apply (after_update_inv W good S0 h Hh).
Qed.

Lemma atime_only valid :
  Z.ldiff valid (Z.lor P9_SETATTR_ATIME P9_SETATTR_ATIME_SET) = 0 → Z.land valid P9_SETATTR_SIZE = 0.
Proof.
  intros Hd. pose proof (Z.lor_ldiff_and valid (Z.lor P9_SETATTR_ATIME P9_SETATTR_ATIME_SET)) as Hv.
  rewrite Hd, Z.lor_0_l in Hv. rewrite <- Hv, <- Z.land_assoc. apply Z.land_0_r.
Qed.

Lemma tsetattr_ok tag payload : ensures (lifted env_ok) (handle_tsetattr h tag payload) (λ _, lifted env_ok).
Proof.
  unfold handle_tsetattr. eapply bind_server; [apply decoded_any | frames|]. intros request.
  eapply bind_server; [apply get_fid_server | frames|]. intros st. apply server_fact. intros (r & -> & Hr).
  eapply ensures_pre; [intros sv (Hi & He & _); exact (conj Hi He)|]. cbv zeta.
  destruct (Z.eqb_spec (Z.ldiff (Tsetattr_valid request) (Z.lor P9_SETATTR_ATIME P9_SETATTR_ATIME_SET)) 0)
    as [Hz|Hnz]; simpl.
  - eapply bind_server; [apply ensures_done | frames|]. intros ?.
    eapply bind_server; [apply lift_operation, (setattr_at W good S0 h Hh request r step_inv) | frames
      | intros; apply ensures_done]; [done | done |]. intros Hs. by rewrite atime_only in Hs.
  - eapply bind_server; [apply if_interceptor_server, (pre_hook_at _ _ _ _ _ (after_update W good S0 h r)) | frames|].
    { intros w res w' Hw Hk. eapply (update_hook_at W good S0 h HSetattr (PreSetattr (W ++ r))); eauto. }
    intros ?. eapply bind_server; [apply lift_operation, setattr_at | frames | intros; apply ensures_done];
      [done | done | | done]. intros w. by apply (after_update_inv W good S0 h Hh).
Qed.

(** The directory FID and the child a request names. *)
Lemma child_server {A} tag fid name kind (k : FidState → stm (P9Server world) (list Z) A) Q :
  (∀ st, keeps (k st)) →
  (∀ st r, fid_path st = W ++ r → name_ok name = true → good (r ++ [name]) →
     (∀ d n0, kind = Some d → S0 !! (W ++ r ++ [name]) = Some n0 → is_dir_node n0 = d) →
     ensures (lifted (at_fid fid (W ++ r) step_inv)) (k st) Q) →
  ensures (lifted (λ e, env_ok e ∧ child_ok fid name kind e)) (operation tag (get_fid fid) ≫= k) Q.
Proof.
  intros Hkeep Hk. eapply bind_server; [apply get_fid_server | done|]. intros st. apply server_fact.
  intros (r & Hr & Hg). intros sv (Hi & Hat & Hst & HC).
  destruct (child_at _ _ _ _ _ _ Hr Hst HC) as (Hn & Hgc & Hkind).
  apply (Hk st r Hr Hn Hgc Hkind). split; [done|]. by rewrite Hr in Hat.
Qed.

Lemma tlcreate_ok tag payload :
  ensures (lifted (λ e, env_ok e ∧
    decodes payload (λ m, child_ok (Tlcreate_fid m) (Tlcreate_name m) (Some false) e)))
    (handle_tlcreate h tag payload) (λ _, lifted env_ok).
Proof.
  unfold handle_tlcreate.
  eapply bind_server; [apply (decoded_server _ _ (λ m e, child_ok (Tlcreate_fid m) (Tlcreate_name m) (Some false) e)) | frames|].
  intros request. apply child_server; [frames|]. intros st r Hr Hn Hg Hk. cbv zeta.
  rewrite Hr, path_join_name, <- app_assoc by done.
  eapply bind_server; [apply (ensures_done _ _ ()) | frames|]. intros ?.
  eapply bind_server; [apply server_gets | frames|]. intros msize.
  eapply bind_server; [by apply lift_operation, lcreate_at | frames|]. intros response.
  eapply bind_server; [apply post_hook_at | frames | intros; apply ensures_done].
  intros w res w' Hw Hp. eapply (created_logged W good S0 h Hh); [done | | exact Hw | exact Hp]. by intros n0; apply Hk.
Qed.

Lemma tmkdir_ok tag payload :
  ensures (lifted (λ e, env_ok e ∧
    decodes payload (λ m, child_ok (Tmkdir_dfid m) (Tmkdir_name m) (Some true) e)))
    (handle_tmkdir h tag payload) (λ _, lifted env_ok).
Proof.
  unfold handle_tmkdir.
  eapply bind_server; [apply (decoded_server _ _ (λ m e, child_ok (Tmkdir_dfid m) (Tmkdir_name m) (Some true) e)) | frames|].
  intros request. apply child_server; [frames|]. intros st r Hr Hn Hg Hk. cbv zeta.
  rewrite Hr, path_join_name, <- app_assoc by done.
  eapply bind_server; [apply (ensures_done _ _ ()) | frames|]. intros ?.
  eapply bind_server; [by apply lift_operation, mkdir_at | frames|]. intros response.
  eapply bind_server; [apply post_hook_at | frames | intros; apply ensures_done].
  intros w res w' Hw Hp. eapply (created_logged W good S0 h Hh); [done | | exact Hw | exact Hp]. by intros n0; apply Hk.
Qed.

Lemma tunlinkat_ok tag payload :
  ensures (lifted (λ e, env_ok e ∧
    decodes payload (λ m, child_ok (Tunlinkat_dirfid m) (Tunlinkat_name m) None e)))
    (handle_tunlinkat h tag payload) (λ _, lifted env_ok).
Proof.
  unfold handle_tunlinkat.
  eapply bind_server; [apply (decoded_server _ _ (λ m e, child_ok (Tunlinkat_dirfid m) (Tunlinkat_name m) None e)) | frames|].
  intros request. apply child_server; [frames|]. intros st r Hr Hn Hg Hk. cbv zeta.
  rewrite Hr, path_join_name, <- app_assoc by done.
  set (d := negb (Z.land (Tunlinkat_flags request) AT_REMOVEDIR =? 0)).
  eapply bind_server; [apply if_interceptor_server, (pre_hook_at _ _ _ _ _
    (after_unlink W good S0 h (r ++ [Tunlinkat_name request]) d)) | frames|].
  { intros w res w' Hw Hp. destruct (unlink_hook_at W good S0 h Hh _ d w res w' Hg Hw Hp) as [|(-> & _ & ?)]; auto. }
  intros ?. eapply bind_server; [by apply lift_operation, unlinkat_at | frames | intros; apply ensures_done].
Qed.

Lemma tremove_ok tag payload :
  ensures (lifted (λ e, env_ok e ∧ decodes payload (λ m, not_root (Tremove_fid m) e)))
    (handle_tremove h tag payload) (λ _, lifted env_ok).
Proof.
  unfold handle_tremove.
  eapply bind_server; [apply (decoded_server _ _ (λ m e, not_root (Tremove_fid m) e)) | frames|].
  intros request. set (fid := Tremove_fid request).
  apply bind_server with (Q := λ _, lifted (λ e, ∃ r, (good r ∧ r ≠ []) ∧
    at_fid fid (W ++ r) (λ w, after_unlink W good S0 h r (path_is_dir (w_tree w) (W ++ r)) w) e)); [|frames|].
  - apply if_interceptor_server. eapply bind_server; [apply get_fid_server | frames|]. intros st.
    apply server_fact. intros (r & Hr & Hg).
    apply (ensures_pre _ _ _ (lifted (λ e, r ≠ [] ∧ at_fid fid (W ++ r) step_inv e))).
    { intros sv (Hi & Hat & Hst & HC). split; [done|]. rewrite Hr in Hat. split; [|done].
      intros ->. unfold not_root in HC. fold fid in HC. rewrite Hst, Hr, app_nil_r in HC. done. }
    apply server_fact. intros Hne. rewrite Hr.
    apply bind_server with (Q := λ ns, lifted (at_fid fid (W ++ r) (λ w, step_inv w ∧ ns = w_tree w)));
      [|frames|].
    { intros sv (Hi & Ht & Hp & Hw). right. by split. }
    intros ns. eapply bind_server; [apply (hook_at fid (W ++ r) _ _
      (λ w, after_unlink W good S0 h r (path_is_dir (w_tree w) (W ++ r)) w)) | frames|].
    { intros w res w' [Hw ->] Hp. destruct (unlink_hook_at W good S0 h Hh r _ w res w' Hg Hw Hp) as [|(-> & Ht & ?)]; [by left|].
      right. by rewrite Ht. }
    intros res. apply server_fact. intros ->. intros sv [Hi He]. right. split; [done|]. by exists r.
  - intros ?. apply server_ex. intros r [Hg Hne].
    eapply bind_server; [by apply lift_operation, remove_at | frames | intros; apply ensures_done].
Qed.

Lemma tversion_ok tag payload : ensures (lifted env_ok) (handle_tversion tag payload) (λ _, lifted env_ok).
Proof.
  unfold handle_tversion. eapply bind_server; [apply decoded_any | |].
  - intros request sv Hi. split; [done|]. intros Hg. exact Hg.
  - intros request sv (Hi & [[Hr _] Hw] & _). right. split; [done|]. split; [|exact Hw].
    split; [exact Hr | apply map_Forall_empty].
Qed.

(** A request that is one operation. *)
Lemma single_ok {M} `{Message M} {A} tag payload (m : M → stm (env world) P9Error A) (k : A → list Z) :
  (∀ r, UndoBackend.ensures gone env_ok env_ok (m r) (λ _, env_ok)) →
  ensures (lifted env_ok) (r ← decoded tag payload; a ← operation tag (m r); mret (k a)) (λ _, lifted env_ok).
Proof.
  intros Hm sv [Hi Hok]. unfold mbind, stm_bind, decoded.
  destruct (decode _) as [[r rest]| |]; [|by right..]. cbv iota beta.
  pose proof (lift_operation tag env_ok (m r) (λ _, env_ok) (Hm r) sv (conj Hi Hok)) as Ho.
  by destruct (operation tag (m r) sv) as [[] ?].
Qed.

Lemma twalk_ok tag payload :
  ensures (lifted (λ e, env_ok e ∧ decodes payload (λ m, walk_ok m e))) (handle_twalk h tag payload)
    (λ _, lifted env_ok).
Proof.
  unfold handle_twalk. eapply bind_server; [apply (decoded_server _ _ walk_ok) | |].
  - intros request. apply guarantees_bind; [apply _ | | frames]. apply serve_gone_operation.
    apply frame_walk; [apply _ | apply gone_table].
  - intros request. eapply bind_server; [apply lift_operation, walk_fid_ok | frames | intros; apply ensures_done].
Qed.

Lemma handler_ok mt tag payload :
  ensures (lifted (λ e, env_ok e ∧ admissible mt payload e)) (handler_of h more mt tag payload)
    (λ _, lifted env_ok).
Proof.
  intros sv (Hi & Hok & (Hre & Hsy & Hli) & Hwalk & Hcreate & Hmkdir & Hunlink & Hremove).
  pose proof (conj Hi Hok) as H0. unfold handler_of.
  repeat match goal with |- context [?a =? ?b] => destruct (Z.eqb_spec a b) as [->|_] end;
    try done; try (by right).
  - by apply tversion_ok.
  - by apply single_ok; [apply attach_ok|].
  - apply twalk_ok. split; [done|]. auto.
  - by apply single_ok; [apply getattr_ok|].
  - by apply tsetattr_ok.
  - by apply tlopen_ok.
  - apply tlcreate_ok. split; [done|]. auto.
  - by apply single_ok; [apply read_file_ok|].
  - by apply twrite_ok.
  - by apply single_ok; [apply readdir_ok|].
  - by apply single_ok; [intros; apply statfs_ok|].
  - by apply single_ok; [apply fsync_ok|].
  - apply tmkdir_ok. split; [done|]. auto.
  - apply tunlinkat_ok. split; [done|]. auto.
  - by apply single_ok; [apply readlink_ok|].
  - apply tremove_ok. split; [done|]. auto.
  - by apply single_ok; [apply clunk_ok|].
Qed.

End host.

(** ** Sessions *)

Definition admissible_body (body : list Z) (e : env world) : Prop :=
  match parse_header body with Ok (mt, _) => admissible mt (drop 3 body) e | _ => True end.

(** The server after a sequence of messages, each served by the host as it is
    at that time. *)
Fixpoint serve_all (messages : list (host * list Z)) (sv : P9Server world) : P9Server world :=
  match messages with
  | [] => sv
  | (h, body) :: messages' => serve_all messages' (serve h more body sv).2
  end.

Fixpoint client_ok (messages : list (host * list Z)) (sv : P9Server world) : Prop :=
  match messages with
  | [] => True
  | (h, body) :: messages' =>
      admissible_body body (sv_env sv) ∧ client_ok messages' (serve h more body sv).2
  end.

Lemma serve_ok h body sv :
  host_wf h → lifted gone sv ∨ (lifted env_ok sv ∧ admissible_body body (sv_env sv)) →
  lifted gone (serve h more body sv).2 ∨ lifted env_ok (serve h more body sv).2.
Proof.
  intros Hh Hsv. unfold serve. unfold admissible_body in Hsv.
  destruct (parse_header body) as [[mt tag]| |]; [|destruct Hsv as [|[]]; auto..].
  unfold dispatch. set (sv1 := InFlightGuard_new sv).
  destruct Hsv as [[Hi Hg]|[[Hi Hok] Ha]].
  - pose proof (frame_handler_of h more keeps_gone gone_settle gone_table gone_unlinked
      undo_interceptor (gone_hook h) mt tag (drop 3 body) sv1 Hi) as [Hi' Hg'].
    destruct (handler_of _ _ _ _ _ sv1) as [r sv2]. left. split; [exact Hi' | exact (Hg' Hg)].
  - pose proof (handler_ok h Hh mt tag (drop 3 body) sv1 ltac:(by split)) as Ho.
    destruct (handler_of _ _ _ _ _ sv1) as [[b|b|] sv2]; (destruct Ho as [[]|[]]; [left | right]); by split.
Qed.

Lemma session_ok messages sv :
  Forall (λ m, host_wf m.1) messages → client_ok messages sv →
  lifted gone sv ∨ lifted env_ok sv →
  lifted gone (serve_all messages sv) ∨ lifted env_ok (serve_all messages sv).
Proof.
  intros Hall. revert sv. induction Hall as [|[h body] messages Hh _ IH]; intros sv Hc Hsv; [done|].
  destruct Hc as [Ha Hc]. apply IH; [exact Hc|]. apply (serve_ok h body sv Hh).
  destruct Hsv; [by left | by right].
Qed.

End session.

(** C6. Whatever a client does through the 9P server while a step is open can
    be undone: after any sequence of admissible messages (well-formed or not,
    refused or served), unless a safeguard cancelled the step or it outgrew its
    size limit, rolling the step back restores the tree the step started from,
    up to the modification times of directories. *)
Theorem session_undone `{TP : ThirdParty} `{!ThirdPartyLaws TP} W good more h0 id w0 w1 sv messages h :
  start_ok W good w0 → open_step h0 no_fault id w0 = (Ok (), w1) →
  sv_interceptor sv = Some undo_interceptor → e_os (sv_env sv) = w1 →
  table_ok W good (e_table (sv_env sv)) →
  Forall (λ m, host_wf m.1) messages → client_ok W good (w_tree w0) more messages sv →
  let w2 := e_os (sv_env (serve_all more messages sv)) in
  is_Some (active_step (inner (w_int w2))) → unprotected w2 = false →
  ∃ w3, rollback_current_step h no_fault w2 = (Ok (), w3) ∧ tree_sim (w_tree w3) (w_tree w0) ∧
        active_step (inner (w_int w3)) = None.
Proof.
  intros Hstart Hopen Hi Hw1 Htab Hhosts Hclient w2.
  destruct (open_step_start W good h0 id w0 w1 Hstart Hopen) as (Hsv & _ & _).
  apply (undo_unless_lost W good (w_tree w0)).
  destruct (session_ok W good (w_tree w0) more messages sv Hhosts Hclient) as [[_ Hl]|[_ [_ Hsv2]]];
    [right; split; [done|]; split; [done | by rewrite Hw1] | by left | by right].
Qed.

(** *** A session

    On the sample tree: attach, overwrite [a], create and write [b], remove
    [d/f] and [d], make a directory [e]; a message that is not understood. *)

Section decide.
Context `{TP : ThirdParty} (W : path) (good : path → Prop) `{!∀ r, Decision (good r)} (S0 : tree).

#[local] Instance decodes_dec {M} `{Message M} payload (C : M → Prop) `{!∀ m, Decision (C m)} :
  Decision (decodes payload C).
Proof. unfold decodes. destruct (decode _) as [[]| |]; apply _. Defined.
#[local] Instance walk_name_dec name : Decision (walk_name name).
Proof. unfold walk_name. apply _. Defined.
#[local] Instance walk_ok_dec request e : Decision (walk_ok request e).
Proof.
  unfold walk_ok. apply and_dec; [apply _|]. apply impl_dec; [apply _|].
  destruct (_ !! _); [|apply _]. apply or_dec; [|apply _].
  destruct (open_handle f); [by right | by left].
Defined.
#[local] Instance child_ok_dec fid name kind e : Decision (child_ok W good S0 fid name kind e).
Proof.
  unfold child_ok. destruct (_ !! _); [|apply _]. repeat apply and_dec; [apply _..|].
  destruct (S0 !! _), kind; apply _.
Defined.
#[local] Instance not_root_dec fid e : Decision (not_root W fid e).
Proof. unfold not_root. destruct (_ !! _); apply _. Defined.
#[local] Instance admissible_dec mt payload e : Decision (admissible W good S0 mt payload e).
Proof. unfold admissible. apply _. Defined.
#[export] Instance client_ok_dec more messages sv : Decision (client_ok W good S0 more messages sv).
Proof.
  revert sv. induction messages as [|[h body] messages IH]; intros sv; simpl; [apply _|].
  apply and_dec; [|apply IH]. unfold admissible_body. destruct (parse_header body) as [[]| |]; apply _.
Defined.

End decide.

Definition sample_messages : list (host * list Z) :=
  pair sample_host <$>
    [drop 4 (to_wire (mkTversion 8192 "9P2000.L") 65535);
     drop 4 (to_wire (mkTattach 0 0 "u" "" 0) 1);
     drop 4 (to_wire (mkTwalk 0 1 ["d"; ".."; "a"]) 2);
     drop 4 (to_wire (mkTlopen 1 0x201) 3);
     drop 4 (to_wire (mkTwrite 1 0 [1; 2; 3]) 4);
     drop 4 (to_wire (mkTwalk 0 2 []) 5);
     drop 4 (to_wire (mkTlcreate 2 "b" 2 420 0) 6);
     drop 4 (to_wire (mkTwrite 2 5 [9]) 7);
     drop 4 (to_wire (mkTwalk 0 3 ["d"]) 8);
     drop 4 (to_wire (mkTunlinkat 3 "f" 0) 9);
     drop 4 (to_wire (mkTremove 3) 10);
     drop 4 (to_wire (mkTmkdir 0 "e" 493 0) 11);
     [250; 12; 0; 1]].

Definition sample_server : P9Server world :=
  with_interceptor undo_interceptor (P9Server_new sample_W sample_w1).

Lemma session_undone_witness :
  let w2 := e_os (sv_env (serve_all sample_stat sample_messages sample_server)) in
  ∃ w3, rollback_current_step sample_host no_fault w2 = (Ok (), w3) ∧
        tree_sim (w_tree w3) (w_tree sample_w0) ∧ active_step (inner (w_int w3)) = None.
Proof.
  apply (session_undone sample_W clean sample_stat sample_host 7 sample_w0 sample_w1 sample_server
    sample_messages sample_host).
  - by apply start_world_ok.
  - apply exec_ok. by vm_compute.
  - done.
  - done.
  - split; [done | apply map_Forall_empty].
  - apply Forall_forall. intros m (body & -> & _)%list_elem_of_fmap. apply sample_host_wf.
  - apply (bool_decide_unpack _). by vm_compute.
  - apply (bool_decide_unpack _). by vm_compute.
  - by vm_compute.
Defined.

(** The session does what it says: the tree it leaves. *)
Example sample_session_tree :
  let t := w_tree (e_os (sv_env (serve_all sample_stat sample_messages sample_server))) in
  t !! ["w"; "a"] = Some (File (mkMeta 420 5000 ∅) [1; 2; 3]) ∧
  (∃ m, t !! ["w"; "b"] = Some (File m [0; 0; 0; 0; 0; 9])) ∧
  t !! ["w"; "d"] = None ∧ is_Some (t !! ["w"; "e"]).
Proof. split_and!; [by vm_compute | eexists; by vm_compute | by vm_compute | eexists; by vm_compute]. Qed.
