(* ===== verification/InodeMap.v ===== *)
(** * The inode map of the virtio-fs backend

    Models [crates/virtiofs-backend/src/inode_map.rs]: the table that gives the
    host path of a FUSE inode, by which the backend tells the interceptor what
    is about to change.  Each method takes the lock once, so it is one step. *)

From Stdlib Require Import Ascii.
From stdpp Require Import base gmap strings list.
From S2P Require Import Prelude HostFs HostFacts Common UndoFacts.
#[local] Open Scope Z_scope.

Definition FUSE_ROOT_ID : Z := 1.

Record InodePathMap := mkInodePathMap { ipm_map : gmap Z path; ipm_root : path }.

Definition InodePathMap_new (root : path) : InodePathMap := mkInodePathMap {[FUSE_ROOT_ID := root]} root.

Definition on_map (f : gmap Z path → gmap Z path) (m : InodePathMap) : InodePathMap :=
  mkInodePathMap (f (ipm_map m)) (ipm_root m).

Definition ipm_get (inode : Z) (m : InodePathMap) : io path :=
  ok_or (ipm_map m !! inode) (mkIoError NotFound None).

(** [CStr::to_str]. *)
Definition to_str (name : string) : io string :=
  if utf8_valid (bytes_of_string name) then Ok name else err InvalidInput.

Definition ipm_resolve (parent : Z) (name : string) (m : InodePathMap) : io path :=
  parent_path ← ipm_get parent m;
  name_str ← to_str name;
  Ok (path_join parent_path name_str).

Definition ipm_insert (inode : Z) (p : path) : InodePathMap → InodePathMap := on_map (<[inode := p]>).

Definition ipm_remove (inode : Z) (m : InodePathMap) : InodePathMap :=
  if inode =? FUSE_ROOT_ID then m else on_map (delete inode) m.

(** Where a path is after the prefix [old_prefix] became [new_prefix]. *)
Definition rename_prefix (old_prefix new_prefix p : path) : path :=
  match strip_prefix old_prefix p with Some suffix => new_prefix ++ suffix | None => p end.

Definition rename_subtree (old_prefix new_prefix : path) : InodePathMap → InodePathMap :=
  on_map (fmap (rename_prefix old_prefix new_prefix)).

Definition ipm_rename (old_parent : Z) (old_name : string) (new_parent : Z) (new_name : string)
    (m : InodePathMap) : io unit * InodePathMap :=
  match ipm_resolve old_parent old_name m with
  | Ok old_path =>
      match ipm_resolve new_parent new_name m with
      | Ok new_path => (Ok (), rename_subtree old_path new_path m)
      | Err e => (Err e, m)
      | Panic => (Panic, m)
      end
  | Err e => (Err e, m)
  | Panic => (Panic, m)
  end.

Definition ipm_len (m : InodePathMap) : nat := size (ipm_map m).
Definition ipm_is_empty (m : InodePathMap) : bool := (ipm_len m <=? 1)%nat.

(** ** Facts *)

Lemma ipm_resolve_name parent name m p :
  ipm_map m !! parent = Some p → name_ok name = true → utf8_valid (bytes_of_string name) = true →
  ipm_resolve parent name m = Ok (p ++ [name]).
Proof.
  intros Hp Hn Hu. unfold ipm_resolve, ipm_get, to_str. rewrite Hp, Hu. simpl. f_equal.
  by apply path_join_name.
Qed.

Lemma strip_prefix_None base p : strip_prefix base p = None ↔ ¬ base `prefix_of` p.
Proof.
  split.
  - intros H [k ->]. by rewrite strip_prefix_app in H.
  - intros H. destruct (strip_prefix base p) as [k|] eqn:E; [|done]. exfalso. apply H.
    apply strip_prefix_Some in E. by exists k.
Qed.

(** Renaming away and back. *)
Lemma rename_prefix_back p q x :
  ¬ q `prefix_of` x → rename_prefix q p (rename_prefix p q x) = x.
Proof.
  intros Hx. unfold rename_prefix. destruct (strip_prefix p x) as [k|] eqn:E.
  - rewrite strip_prefix_app. symmetry. by apply strip_prefix_Some.
  - apply strip_prefix_None in Hx. by rewrite Hx.
Qed.

(** Renaming a subtree and renaming it back leaves the map as it was,
    when nothing was mapped below the new name before; and a rename changes
    exactly the paths below the old name. *)
Theorem rename_subtree_roundtrip (p q : path) (m : InodePathMap) :
  map_Forall (λ _ x, ¬ q `prefix_of` x) (ipm_map m) →
  rename_subtree q p (rename_subtree p q m) = m ∧
  ∀ inode x, ipm_map m !! inode = Some x →
    ipm_map (rename_subtree p q m) !! inode
    = Some (if decide (p `prefix_of` x) then q ++ drop (length p) x else x).
Proof.
  intros Hall. split.
  - destruct m as [m root]. unfold rename_subtree, on_map. simpl in *. f_equal.
    rewrite <- map_fmap_compose. rewrite <- (map_fmap_id m) at 2. apply map_fmap_ext.
    intros inode x Hx. simpl. by apply rename_prefix_back, (Hall inode).
  - intros inode x Hx. simpl. rewrite lookup_fmap, Hx. simpl. f_equal. unfold rename_prefix.
    case_decide as Hp.
    + destruct Hp as [k ->]. by rewrite strip_prefix_app, drop_app_length.
    + apply strip_prefix_None in Hp. by rewrite Hp.
Qed.

Definition sample_map : InodePathMap :=
  ipm_insert 5 ["w"; "d"; "f"] (ipm_insert 4 ["w"; "d"] (InodePathMap_new ["w"])).

Lemma rename_subtree_roundtrip_witness :
  ipm_map (rename_subtree ["w"; "d"] ["w"; "x"; "y"] sample_map) !! 5 = Some ["w"; "x"; "y"; "f"] ∧
  rename_subtree ["w"; "x"; "y"] ["w"; "d"] (rename_subtree ["w"; "d"] ["w"; "x"; "y"] sample_map) = sample_map.
Proof.
  destruct (rename_subtree_roundtrip ["w"; "d"] ["w"; "x"; "y"] sample_map) as [Hback Hmap].
  - apply (bool_decide_unpack _). by vm_compute.
  - split; [exact (Hmap 5 ["w"; "d"; "f"] eq_refl) | exact Hback].
Defined.
