(* ===== verification/Fuse.v ===== *)
(** * The FUSE protocol

    Models [crates/virtiofsd-fork/src/fuse.rs]: the constants, the messages and
    their layout, the operation codes and the conversions of the metadata of
    the host.

    The messages are [#[repr(C)]] structs of integers without implicit padding,
    read from and written to memory as they are.  The class [ByteValued] gives
    the widths of the fields in order; reserved arrays that the code never
    looks at ([spare], [unused]) are not kept in the records and are written as
    zeros. *)

From stdpp Require Import base strings list.
From S2P Require Import Prelude.
#[local] Open Scope Z_scope.

(** ** Byte-valued structs *)

Class ByteValued (A : Type) := {
  layout : list nat;
  fields : A → list Z;
  of_fields : list Z → A;
}.

Class ByteValuedLaws (A : Type) `{ByteValued A} : Prop := {
  length_fields a : length (fields a) = length (layout (A := A));
  of_fields_fields a : of_fields (fields a) = a;
}.

Definition field (l : list Z) (i : nat) : Z := nth i l 0.

Fixpoint pack (ws : list nat) (vs : list Z) : list Z :=
  match ws, vs with
  | w :: ws', v :: vs' => le_bytes w v ++ pack ws' vs'
  | _, _ => []
  end.

Fixpoint unpack (ws : list nat) (bs : list Z) : list Z :=
  match ws with
  | [] => []
  | w :: ws' => le_value (take w bs) :: unpack ws' (drop w bs)
  end.

Definition size_of (A : Type) `{ByteValued A} : nat := sum_list (layout (A := A)).
Definition as_slice `{ByteValued A} (a : A) : list Z := pack layout (fields a).
Definition from_slice `{ByteValued A} (bs : list Z) : A := of_fields (unpack layout bs).

(** Every field fits its width. *)
Definition in_range `{ByteValued A} (a : A) : Prop :=
  Forall2 (λ w v, 0 ≤ v < 256 ^ Z.of_nat w) layout (fields a).

Lemma length_pack ws vs : length ws = length vs → length (pack ws vs) = sum_list ws.
Proof.
  revert vs. induction ws as [|w ws IH]; intros [|v vs] Hl; simplify_eq/=; [done|].
  by rewrite length_app, length_le_bytes, IH.
Qed.

Lemma unpack_pack ws vs rest :
  Forall2 (λ w v, 0 ≤ v < 256 ^ Z.of_nat w) ws vs → unpack ws (pack ws vs ++ rest) = vs.
Proof.
  intros Hall. induction Hall as [|w v ws vs Hv _ IH]; simpl; [done|].
  rewrite <- app_assoc, take_app_length', drop_app_length' by by rewrite length_le_bytes.
  by rewrite le_value_le_bytes, IH.
Qed.

Lemma length_as_slice `{ByteValuedLaws A} (a : A) : length (as_slice a) = size_of A.
Proof. apply length_pack. symmetry. apply length_fields. Qed.

Lemma from_as_slice `{ByteValuedLaws A} (a : A) rest : in_range a → from_slice (as_slice a ++ rest) = a.
Proof. intros Hr. unfold from_slice, as_slice. rewrite unpack_pack by done. apply of_fields_fields. Qed.

Lemma pack_in_u8 ws vs : Forall in_u8 (pack ws vs).
Proof.
  revert vs. induction ws as [|w ws IH]; intros [|v vs]; simpl; [constructor..|].
  apply Forall_app. split; [apply le_bytes_in_u8 | apply IH].
Qed.

Ltac byte_valued := split; intros a; by destruct a.

(** [u32] by itself. *)
#[export] Instance u32_bytes : ByteValued Z := {| layout := [4%nat]; fields a := [a]; of_fields l := field l 0 |}.

(** ** Constants *)

Definition KERNEL_VERSION : Z := 7.
Definition KERNEL_MINOR_VERSION : Z := 38.
Definition MIN_KERNEL_MINOR_VERSION : Z := 27.

(** The bits of [set] are all set in [flags]. *)
Definition contains (flags set : Z) : bool := Z.land flags set =? set.
Definition flag (v bit : Z) : bool := negb (Z.land v bit =? 0).

Definition mask_of (bits : list Z) : Z := foldr Z.lor 0 (Z.shiftl 1 <$> bits).

(** [from_bits_truncate]: the bits the type names. *)
Definition truncate_bits (mask v : Z) : Z := Z.land v mask.

Definition FATTR_FH : Z := Z.shiftl 1 6.
Definition SetattrValid_bits : list Z := [0; 1; 2; 3; 4; 5; 7; 8; 10; 11].
Definition SetattrValid_from_bits_truncate : Z → Z := truncate_bits (mask_of SetattrValid_bits).

(** The options of an opened file, as the type [OpenOptions] names them. *)
Inductive OpenOption := DIRECT_IO | KEEP_CACHE | NONSEEKABLE | CACHE_DIR | STREAM | NOFLUSH | PARALLEL_DIRECT_WRITES.
Definition OpenOption_bits (o : OpenOption) : Z :=
  match o with
  | DIRECT_IO => Z.shiftl 1 0
  | KEEP_CACHE => Z.shiftl 1 1
  | NONSEEKABLE => Z.shiftl 1 2
  | CACHE_DIR => Z.shiftl 1 3
  | STREAM => Z.shiftl 1 3
  | NOFLUSH => Z.shiftl 1 5
  | PARALLEL_DIRECT_WRITES => Z.shiftl 1 6
  end.

Module FsOptions.
Definition ASYNC_READ : Z := Z.shiftl 1 0.
Definition ATOMIC_O_TRUNC : Z := Z.shiftl 1 3.
Definition BIG_WRITES : Z := Z.shiftl 1 5.
Definition HAS_IOCTL_DIR : Z := Z.shiftl 1 11.
Definition AUTO_INVAL_DATA : Z := Z.shiftl 1 12.
Definition DO_READDIRPLUS : Z := Z.shiftl 1 13.
Definition READDIRPLUS_AUTO : Z := Z.shiftl 1 14.
Definition ASYNC_DIO : Z := Z.shiftl 1 15.
Definition WRITEBACK_CACHE : Z := Z.shiftl 1 16.
Definition PARALLEL_DIROPS : Z := Z.shiftl 1 18.
Definition POSIX_ACL : Z := Z.shiftl 1 20.
Definition MAX_PAGES : Z := Z.shiftl 1 22.
Definition SUBMOUNTS : Z := Z.shiftl 1 27.
Definition HANDLE_KILLPRIV_V2 : Z := Z.shiftl 1 28.
Definition SETXATTR_EXT : Z := Z.shiftl 1 29.
Definition INIT_EXT : Z := Z.shiftl 1 30.
Definition SECURITY_CTX : Z := Z.shiftl 1 32.
Definition CREATE_SUPP_GROUP : Z := Z.shiftl 1 34.
Definition DIRECT_IO_ALLOW_MMAP : Z := Z.shiftl 1 36.
Definition ALLOW_IDMAP : Z := Z.shiftl 1 40.

(** The positions of the flags the type names; 26, 35, 37 to 39 and those
    above 40 are unknown to it. *)
Definition bits : list Z :=
  [0; 1; 2; 3; 4; 5; 6; 7; 8; 9; 10; 11; 12; 13; 14; 15; 16; 17; 18; 19; 20; 21; 22; 23; 24; 25; 27; 28; 29;
   30; 31; 32; 33; 34; 36; 40].
Definition from_bits_truncate : Z → Z := truncate_bits (mask_of bits).
End FsOptions.

Definition RELEASE_FLUSH : Z := Z.shiftl 1 0.
Definition RELEASE_FLOCK_UNLOCK : Z := Z.shiftl 1 1.
Definition GETATTR_FH : Z := Z.shiftl 1 0.
Definition WRITE_CACHE : Z := Z.shiftl 1 0.
Definition WRITE_LOCKOWNER : Z := Z.shiftl 1 1.
Definition WRITE_KILL_PRIV : Z := Z.shiftl 1 2.
Definition READ_LOCKOWNER : Z := Z.shiftl 1 1.
Definition ATTR_SUBMOUNT : Z := Z.shiftl 1 0.
Definition OPEN_KILL_SUIDGID : Z := Z.shiftl 1 0.
Definition SetxattrFlags_from_bits_truncate : Z → Z := truncate_bits (Z.shiftl 1 0).

(** ** Metadata *)

Record Attr := mkAttr {
  Attr_ino : Z; Attr_size : Z; Attr_blocks : Z; Attr_atime : Z; Attr_mtime : Z; Attr_ctime : Z;
  Attr_atimensec : Z; Attr_mtimensec : Z; Attr_ctimensec : Z; Attr_mode : Z; Attr_nlink : Z; Attr_uid : Z;
  Attr_gid : Z; Attr_rdev : Z; Attr_blksize : Z; Attr_flags : Z
}.
#[export] Instance Attr_bytes : ByteValued Attr := {|
  layout := ([8; 8; 8; 8; 8; 8; 4; 4; 4; 4; 4; 4; 4; 4; 4; 4])%nat;
  fields a := [Attr_ino a; Attr_size a; Attr_blocks a; Attr_atime a; Attr_mtime a; Attr_ctime a;
    Attr_atimensec a; Attr_mtimensec a; Attr_ctimensec a; Attr_mode a; Attr_nlink a; Attr_uid a; Attr_gid a;
    Attr_rdev a; Attr_blksize a; Attr_flags a];
  of_fields l := mkAttr (field l 0) (field l 1) (field l 2) (field l 3) (field l 4) (field l 5) (field l 6)
    (field l 7) (field l 8) (field l 9) (field l 10) (field l 11) (field l 12) (field l 13) (field l 14)
    (field l 15);
|}.
#[export] Instance Attr_laws : ByteValuedLaws Attr.
Proof. byte_valued. Qed.

Record Kstatfs := mkKstatfs {
  Kstatfs_blocks : Z; Kstatfs_bfree : Z; Kstatfs_bavail : Z; Kstatfs_files : Z; Kstatfs_ffree : Z;
  Kstatfs_bsize : Z; Kstatfs_namelen : Z; Kstatfs_frsize : Z; Kstatfs_padding : Z
}.
#[export] Instance Kstatfs_bytes : ByteValued Kstatfs := {|
  layout := ([8; 8; 8; 8; 8; 4; 4; 4; 4] ++ replicate 6 4)%nat;
  fields a := [Kstatfs_blocks a; Kstatfs_bfree a; Kstatfs_bavail a; Kstatfs_files a; Kstatfs_ffree a;
    Kstatfs_bsize a; Kstatfs_namelen a; Kstatfs_frsize a; Kstatfs_padding a] ++ replicate 6 0;
  of_fields l := mkKstatfs (field l 0) (field l 1) (field l 2) (field l 3) (field l 4) (field l 5) (field l 6)
    (field l 7) (field l 8);
|}.
#[export] Instance Kstatfs_laws : ByteValuedLaws Kstatfs.
Proof. byte_valued. Qed.

(** What [stat] returns, and [statvfs]; the fields are those of [libc]. *)
Record stat64 := mkStat64 {
  st_ino : Z; st_mode : Z; st_nlink : Z; st_uid : Z; st_gid : Z; st_rdev : Z; st_size : Z; st_blksize : Z;
  st_blocks : Z; st_atime : Z; st_atime_nsec : Z; st_mtime : Z; st_mtime_nsec : Z; st_ctime : Z;
  st_ctime_nsec : Z
}.

Record statvfs64 := mkStatvfs64 {
  f_blocks : Z; f_bfree : Z; f_bavail : Z; f_files : Z; f_ffree : Z; f_bsize : Z; f_namemax : Z; f_frsize : Z
}.

Definition try_with_flags (st : stat64) (flags : Z) (uid_map gid_map : Z → outcome io_error Z)
    : outcome io_error Attr :=
  uid ← uid_map (st_uid st);
  gid ← gid_map (st_gid st);
  Ok {| Attr_ino := st_ino st; Attr_size := as_u64 (st_size st); Attr_blocks := as_u64 (st_blocks st);
        Attr_atime := as_u64 (st_atime st); Attr_mtime := as_u64 (st_mtime st); Attr_ctime := as_u64 (st_ctime st);
        Attr_atimensec := as_u32 (st_atime_nsec st); Attr_mtimensec := as_u32 (st_mtime_nsec st);
        Attr_ctimensec := as_u32 (st_ctime_nsec st); Attr_mode := st_mode st; Attr_nlink := as_u32 (st_nlink st);
        Attr_uid := uid; Attr_gid := gid; Attr_rdev := as_u32 (st_rdev st); Attr_blksize := as_u32 (st_blksize st);
        Attr_flags := flags |}.

Definition try_from_stat64 (st : stat64) (uid_map gid_map : Z → outcome io_error Z) : outcome io_error Attr :=
  try_with_flags st 0 uid_map gid_map.

Definition Kstatfs_from (st : statvfs64) : Kstatfs :=
  {| Kstatfs_blocks := f_blocks st; Kstatfs_bfree := f_bfree st; Kstatfs_bavail := f_bavail st;
     Kstatfs_files := f_files st; Kstatfs_ffree := f_ffree st; Kstatfs_bsize := as_u32 (f_bsize st);
     Kstatfs_namelen := as_u32 (f_namemax st); Kstatfs_frsize := as_u32 (f_frsize st); Kstatfs_padding := 0 |}.

(** ** Messages *)

Record EntryOut := mkEntryOut {
  EntryOut_nodeid : Z; EntryOut_generation : Z; EntryOut_entry_valid : Z; EntryOut_attr_valid : Z;
  EntryOut_entry_valid_nsec : Z; EntryOut_attr_valid_nsec : Z; EntryOut_attr : Attr
}.
#[export] Instance EntryOut_bytes : ByteValued EntryOut := {|
  layout := ([8; 8; 8; 8; 4; 4] ++ layout (A := Attr))%nat;
  fields a := [EntryOut_nodeid a; EntryOut_generation a; EntryOut_entry_valid a; EntryOut_attr_valid a;
    EntryOut_entry_valid_nsec a; EntryOut_attr_valid_nsec a] ++ fields (EntryOut_attr a);
  of_fields l := mkEntryOut (field l 0) (field l 1) (field l 2) (field l 3) (field l 4) (field l 5)
    (of_fields (drop 6 l));
|}.
#[export] Instance EntryOut_laws : ByteValuedLaws EntryOut.
Proof. split; intros [? ? ? ? ? ? []]; done. Qed.

Record AttrOut := mkAttrOut {
  AttrOut_attr_valid : Z; AttrOut_attr_valid_nsec : Z; AttrOut_dummy : Z; AttrOut_attr : Attr
}.
#[export] Instance AttrOut_bytes : ByteValued AttrOut := {|
  layout := ([8; 4; 4] ++ layout (A := Attr))%nat;
  fields a := [AttrOut_attr_valid a; AttrOut_attr_valid_nsec a; AttrOut_dummy a] ++ fields (AttrOut_attr a);
  of_fields l := mkAttrOut (field l 0) (field l 1) (field l 2) (of_fields (drop 3 l));
|}.
#[export] Instance AttrOut_laws : ByteValuedLaws AttrOut.
Proof. split; intros [? ? ? []]; done. Qed.

Record ForgetIn := mkForgetIn { ForgetIn_nlookup : Z }.
#[export] Instance ForgetIn_bytes : ByteValued ForgetIn := {|
  layout := ([8])%nat;
  fields a := [ForgetIn_nlookup a];
  of_fields l := mkForgetIn (field l 0);
|}.
#[export] Instance ForgetIn_laws : ByteValuedLaws ForgetIn.
Proof. byte_valued. Qed.

Record ForgetOne := mkForgetOne { ForgetOne_nodeid : Z; ForgetOne_nlookup : Z }.
#[export] Instance ForgetOne_bytes : ByteValued ForgetOne := {|
  layout := ([8; 8])%nat;
  fields a := [ForgetOne_nodeid a; ForgetOne_nlookup a];
  of_fields l := mkForgetOne (field l 0) (field l 1);
|}.
#[export] Instance ForgetOne_laws : ByteValuedLaws ForgetOne.
Proof. byte_valued. Qed.

Record BatchForgetIn := mkBatchForgetIn { BatchForgetIn_count : Z; BatchForgetIn_dummy : Z }.
#[export] Instance BatchForgetIn_bytes : ByteValued BatchForgetIn := {|
  layout := ([4; 4])%nat;
  fields a := [BatchForgetIn_count a; BatchForgetIn_dummy a];
  of_fields l := mkBatchForgetIn (field l 0) (field l 1);
|}.
#[export] Instance BatchForgetIn_laws : ByteValuedLaws BatchForgetIn.
Proof. byte_valued. Qed.

Record GetattrIn := mkGetattrIn { GetattrIn_flags : Z; GetattrIn_dummy : Z; GetattrIn_fh : Z }.
#[export] Instance GetattrIn_bytes : ByteValued GetattrIn := {|
  layout := ([4; 4; 8])%nat;
  fields a := [GetattrIn_flags a; GetattrIn_dummy a; GetattrIn_fh a];
  of_fields l := mkGetattrIn (field l 0) (field l 1) (field l 2);
|}.
#[export] Instance GetattrIn_laws : ByteValuedLaws GetattrIn.
Proof. byte_valued. Qed.

Record MknodIn := mkMknodIn { MknodIn_mode : Z; MknodIn_rdev : Z; MknodIn_umask : Z; MknodIn_padding : Z }.
#[export] Instance MknodIn_bytes : ByteValued MknodIn := {|
  layout := ([4; 4; 4; 4])%nat;
  fields a := [MknodIn_mode a; MknodIn_rdev a; MknodIn_umask a; MknodIn_padding a];
  of_fields l := mkMknodIn (field l 0) (field l 1) (field l 2) (field l 3);
|}.
#[export] Instance MknodIn_laws : ByteValuedLaws MknodIn.
Proof. byte_valued. Qed.

Record MkdirIn := mkMkdirIn { MkdirIn_mode : Z; MkdirIn_umask : Z }.
#[export] Instance MkdirIn_bytes : ByteValued MkdirIn := {|
  layout := ([4; 4])%nat;
  fields a := [MkdirIn_mode a; MkdirIn_umask a];
  of_fields l := mkMkdirIn (field l 0) (field l 1);
|}.
#[export] Instance MkdirIn_laws : ByteValuedLaws MkdirIn.
Proof. byte_valued. Qed.

Record RenameIn := mkRenameIn { RenameIn_newdir : Z }.
#[export] Instance RenameIn_bytes : ByteValued RenameIn := {|
  layout := ([8])%nat;
  fields a := [RenameIn_newdir a];
  of_fields l := mkRenameIn (field l 0);
|}.
#[export] Instance RenameIn_laws : ByteValuedLaws RenameIn.
Proof. byte_valued. Qed.

Record Rename2In := mkRename2In { Rename2In_newdir : Z; Rename2In_flags : Z; Rename2In_padding : Z }.
#[export] Instance Rename2In_bytes : ByteValued Rename2In := {|
  layout := ([8; 4; 4])%nat;
  fields a := [Rename2In_newdir a; Rename2In_flags a; Rename2In_padding a];
  of_fields l := mkRename2In (field l 0) (field l 1) (field l 2);
|}.
#[export] Instance Rename2In_laws : ByteValuedLaws Rename2In.
Proof. byte_valued. Qed.

Record LinkIn := mkLinkIn { LinkIn_oldnodeid : Z }.
#[export] Instance LinkIn_bytes : ByteValued LinkIn := {|
  layout := ([8])%nat;
  fields a := [LinkIn_oldnodeid a];
  of_fields l := mkLinkIn (field l 0);
|}.
#[export] Instance LinkIn_laws : ByteValuedLaws LinkIn.
Proof. byte_valued. Qed.

Record SetattrIn := mkSetattrIn {
  SetattrIn_valid : Z; SetattrIn_padding : Z; SetattrIn_fh : Z; SetattrIn_size : Z; SetattrIn_lock_owner : Z;
  SetattrIn_atime : Z; SetattrIn_mtime : Z; SetattrIn_ctime : Z; SetattrIn_atimensec : Z;
  SetattrIn_mtimensec : Z; SetattrIn_ctimensec : Z; SetattrIn_mode : Z; SetattrIn_unused4 : Z;
  SetattrIn_uid : Z; SetattrIn_gid : Z; SetattrIn_unused5 : Z
}.
#[export] Instance SetattrIn_bytes : ByteValued SetattrIn := {|
  layout := ([4; 4; 8; 8; 8; 8; 8; 8; 4; 4; 4; 4; 4; 4; 4; 4])%nat;
  fields a := [SetattrIn_valid a; SetattrIn_padding a; SetattrIn_fh a; SetattrIn_size a;
    SetattrIn_lock_owner a; SetattrIn_atime a; SetattrIn_mtime a; SetattrIn_ctime a; SetattrIn_atimensec a;
    SetattrIn_mtimensec a; SetattrIn_ctimensec a; SetattrIn_mode a; SetattrIn_unused4 a; SetattrIn_uid a;
    SetattrIn_gid a; SetattrIn_unused5 a];
  of_fields l := mkSetattrIn (field l 0) (field l 1) (field l 2) (field l 3) (field l 4) (field l 5)
    (field l 6) (field l 7) (field l 8) (field l 9) (field l 10) (field l 11) (field l 12) (field l 13)
    (field l 14) (field l 15);
|}.
#[export] Instance SetattrIn_laws : ByteValuedLaws SetattrIn.
Proof. byte_valued. Qed.

Record OpenIn := mkOpenIn { OpenIn_flags : Z; OpenIn_open_flags : Z }.
#[export] Instance OpenIn_bytes : ByteValued OpenIn := {|
  layout := ([4; 4])%nat;
  fields a := [OpenIn_flags a; OpenIn_open_flags a];
  of_fields l := mkOpenIn (field l 0) (field l 1);
|}.
#[export] Instance OpenIn_laws : ByteValuedLaws OpenIn.
Proof. byte_valued. Qed.

Record CreateIn := mkCreateIn {
  CreateIn_flags : Z; CreateIn_mode : Z; CreateIn_umask : Z; CreateIn_open_flags : Z
}.
#[export] Instance CreateIn_bytes : ByteValued CreateIn := {|
  layout := ([4; 4; 4; 4])%nat;
  fields a := [CreateIn_flags a; CreateIn_mode a; CreateIn_umask a; CreateIn_open_flags a];
  of_fields l := mkCreateIn (field l 0) (field l 1) (field l 2) (field l 3);
|}.
#[export] Instance CreateIn_laws : ByteValuedLaws CreateIn.
Proof. byte_valued. Qed.

Record OpenOut := mkOpenOut { OpenOut_fh : Z; OpenOut_open_flags : Z; OpenOut_padding : Z }.
#[export] Instance OpenOut_bytes : ByteValued OpenOut := {|
  layout := ([8; 4; 4])%nat;
  fields a := [OpenOut_fh a; OpenOut_open_flags a; OpenOut_padding a];
  of_fields l := mkOpenOut (field l 0) (field l 1) (field l 2);
|}.
#[export] Instance OpenOut_laws : ByteValuedLaws OpenOut.
Proof. byte_valued. Qed.

Record ReleaseIn := mkReleaseIn {
  ReleaseIn_fh : Z; ReleaseIn_flags : Z; ReleaseIn_release_flags : Z; ReleaseIn_lock_owner : Z
}.
#[export] Instance ReleaseIn_bytes : ByteValued ReleaseIn := {|
  layout := ([8; 4; 4; 8])%nat;
  fields a := [ReleaseIn_fh a; ReleaseIn_flags a; ReleaseIn_release_flags a; ReleaseIn_lock_owner a];
  of_fields l := mkReleaseIn (field l 0) (field l 1) (field l 2) (field l 3);
|}.
#[export] Instance ReleaseIn_laws : ByteValuedLaws ReleaseIn.
Proof. byte_valued. Qed.

Record FlushIn := mkFlushIn {
  FlushIn_fh : Z; FlushIn_unused : Z; FlushIn_padding : Z; FlushIn_lock_owner : Z
}.
#[export] Instance FlushIn_bytes : ByteValued FlushIn := {|
  layout := ([8; 4; 4; 8])%nat;
  fields a := [FlushIn_fh a; FlushIn_unused a; FlushIn_padding a; FlushIn_lock_owner a];
  of_fields l := mkFlushIn (field l 0) (field l 1) (field l 2) (field l 3);
|}.
#[export] Instance FlushIn_laws : ByteValuedLaws FlushIn.
Proof. byte_valued. Qed.

Record ReadIn := mkReadIn {
  ReadIn_fh : Z; ReadIn_offset : Z; ReadIn_size : Z; ReadIn_read_flags : Z; ReadIn_lock_owner : Z;
  ReadIn_flags : Z; ReadIn_padding : Z
}.
#[export] Instance ReadIn_bytes : ByteValued ReadIn := {|
  layout := ([8; 8; 4; 4; 8; 4; 4])%nat;
  fields a := [ReadIn_fh a; ReadIn_offset a; ReadIn_size a; ReadIn_read_flags a; ReadIn_lock_owner a;
    ReadIn_flags a; ReadIn_padding a];
  of_fields l := mkReadIn (field l 0) (field l 1) (field l 2) (field l 3) (field l 4) (field l 5) (field l 6);
|}.
#[export] Instance ReadIn_laws : ByteValuedLaws ReadIn.
Proof. byte_valued. Qed.

Record WriteIn := mkWriteIn {
  WriteIn_fh : Z; WriteIn_offset : Z; WriteIn_size : Z; WriteIn_write_flags : Z; WriteIn_lock_owner : Z;
  WriteIn_flags : Z; WriteIn_padding : Z
}.
#[export] Instance WriteIn_bytes : ByteValued WriteIn := {|
  layout := ([8; 8; 4; 4; 8; 4; 4])%nat;
  fields a := [WriteIn_fh a; WriteIn_offset a; WriteIn_size a; WriteIn_write_flags a; WriteIn_lock_owner a;
    WriteIn_flags a; WriteIn_padding a];
  of_fields l := mkWriteIn (field l 0) (field l 1) (field l 2) (field l 3) (field l 4) (field l 5) (field l 6);
|}.
#[export] Instance WriteIn_laws : ByteValuedLaws WriteIn.
Proof. byte_valued. Qed.

Record WriteOut := mkWriteOut { WriteOut_size : Z; WriteOut_padding : Z }.
#[export] Instance WriteOut_bytes : ByteValued WriteOut := {|
  layout := ([4; 4])%nat;
  fields a := [WriteOut_size a; WriteOut_padding a];
  of_fields l := mkWriteOut (field l 0) (field l 1);
|}.
#[export] Instance WriteOut_laws : ByteValuedLaws WriteOut.
Proof. byte_valued. Qed.

Record FsyncIn := mkFsyncIn { FsyncIn_fh : Z; FsyncIn_fsync_flags : Z; FsyncIn_padding : Z }.
#[export] Instance FsyncIn_bytes : ByteValued FsyncIn := {|
  layout := ([8; 4; 4])%nat;
  fields a := [FsyncIn_fh a; FsyncIn_fsync_flags a; FsyncIn_padding a];
  of_fields l := mkFsyncIn (field l 0) (field l 1) (field l 2);
|}.
#[export] Instance FsyncIn_laws : ByteValuedLaws FsyncIn.
Proof. byte_valued. Qed.

Record SetxattrIn := mkSetxattrIn {
  SetxattrIn_size : Z; SetxattrIn_flags : Z; SetxattrIn_setxattr_flags : Z; SetxattrIn_padding : Z
}.
#[export] Instance SetxattrIn_bytes : ByteValued SetxattrIn := {|
  layout := ([4; 4; 4; 4])%nat;
  fields a := [SetxattrIn_size a; SetxattrIn_flags a; SetxattrIn_setxattr_flags a; SetxattrIn_padding a];
  of_fields l := mkSetxattrIn (field l 0) (field l 1) (field l 2) (field l 3);
|}.
#[export] Instance SetxattrIn_laws : ByteValuedLaws SetxattrIn.
Proof. byte_valued. Qed.

Record SetxattrInCompat := mkSetxattrInCompat { SetxattrInCompat_size : Z; SetxattrInCompat_flags : Z }.
#[export] Instance SetxattrInCompat_bytes : ByteValued SetxattrInCompat := {|
  layout := ([4; 4])%nat;
  fields a := [SetxattrInCompat_size a; SetxattrInCompat_flags a];
  of_fields l := mkSetxattrInCompat (field l 0) (field l 1);
|}.
#[export] Instance SetxattrInCompat_laws : ByteValuedLaws SetxattrInCompat.
Proof. byte_valued. Qed.

Record GetxattrIn := mkGetxattrIn { GetxattrIn_size : Z; GetxattrIn_padding : Z }.
#[export] Instance GetxattrIn_bytes : ByteValued GetxattrIn := {|
  layout := ([4; 4])%nat;
  fields a := [GetxattrIn_size a; GetxattrIn_padding a];
  of_fields l := mkGetxattrIn (field l 0) (field l 1);
|}.
#[export] Instance GetxattrIn_laws : ByteValuedLaws GetxattrIn.
Proof. byte_valued. Qed.

Record GetxattrOut := mkGetxattrOut { GetxattrOut_size : Z; GetxattrOut_padding : Z }.
#[export] Instance GetxattrOut_bytes : ByteValued GetxattrOut := {|
  layout := ([4; 4])%nat;
  fields a := [GetxattrOut_size a; GetxattrOut_padding a];
  of_fields l := mkGetxattrOut (field l 0) (field l 1);
|}.
#[export] Instance GetxattrOut_laws : ByteValuedLaws GetxattrOut.
Proof. byte_valued. Qed.

Record AccessIn := mkAccessIn { AccessIn_mask : Z; AccessIn_padding : Z }.
#[export] Instance AccessIn_bytes : ByteValued AccessIn := {|
  layout := ([4; 4])%nat;
  fields a := [AccessIn_mask a; AccessIn_padding a];
  of_fields l := mkAccessIn (field l 0) (field l 1);
|}.
#[export] Instance AccessIn_laws : ByteValuedLaws AccessIn.
Proof. byte_valued. Qed.

Record InitInCompat := mkInitInCompat {
  InitInCompat_major : Z; InitInCompat_minor : Z; InitInCompat_max_readahead : Z; InitInCompat_flags : Z
}.
#[export] Instance InitInCompat_bytes : ByteValued InitInCompat := {|
  layout := ([4; 4; 4; 4])%nat;
  fields a := [InitInCompat_major a; InitInCompat_minor a; InitInCompat_max_readahead a; InitInCompat_flags a];
  of_fields l := mkInitInCompat (field l 0) (field l 1) (field l 2) (field l 3);
|}.
#[export] Instance InitInCompat_laws : ByteValuedLaws InitInCompat.
Proof. byte_valued. Qed.

Record InitInExt := mkInitInExt { InitInExt_flags2 : Z }.
#[export] Instance InitInExt_bytes : ByteValued InitInExt := {|
  layout := ([4] ++ replicate 11 4)%nat;
  fields a := [InitInExt_flags2 a] ++ replicate 11 0;
  of_fields l := mkInitInExt (field l 0);
|}.
#[export] Instance InitInExt_laws : ByteValuedLaws InitInExt.
Proof. byte_valued. Qed.

Record InitOut := mkInitOut {
  InitOut_major : Z; InitOut_minor : Z; InitOut_max_readahead : Z; InitOut_flags : Z;
  InitOut_max_background : Z; InitOut_congestion_threshold : Z; InitOut_max_write : Z; InitOut_time_gran : Z;
  InitOut_max_pages : Z; InitOut_map_alignment : Z; InitOut_flags2 : Z
}.
#[export] Instance InitOut_bytes : ByteValued InitOut := {|
  layout := ([4; 4; 4; 4; 2; 2; 4; 4; 2; 2; 4] ++ replicate 7 4)%nat;
  fields a := [InitOut_major a; InitOut_minor a; InitOut_max_readahead a; InitOut_flags a;
    InitOut_max_background a; InitOut_congestion_threshold a; InitOut_max_write a; InitOut_time_gran a;
    InitOut_max_pages a; InitOut_map_alignment a; InitOut_flags2 a] ++ replicate 7 0;
  of_fields l := mkInitOut (field l 0) (field l 1) (field l 2) (field l 3) (field l 4) (field l 5) (field l 6)
    (field l 7) (field l 8) (field l 9) (field l 10);
|}.
#[export] Instance InitOut_laws : ByteValuedLaws InitOut.
Proof. byte_valued. Qed.

Record FallocateIn := mkFallocateIn {
  FallocateIn_fh : Z; FallocateIn_offset : Z; FallocateIn_length : Z; FallocateIn_mode : Z;
  FallocateIn_padding : Z
}.
#[export] Instance FallocateIn_bytes : ByteValued FallocateIn := {|
  layout := ([8; 8; 8; 4; 4])%nat;
  fields a := [FallocateIn_fh a; FallocateIn_offset a; FallocateIn_length a; FallocateIn_mode a;
    FallocateIn_padding a];
  of_fields l := mkFallocateIn (field l 0) (field l 1) (field l 2) (field l 3) (field l 4);
|}.
#[export] Instance FallocateIn_laws : ByteValuedLaws FallocateIn.
Proof. byte_valued. Qed.

Record InHeader := mkInHeader {
  InHeader_len : Z; InHeader_opcode : Z; InHeader_unique : Z; InHeader_nodeid : Z; InHeader_uid : Z;
  InHeader_gid : Z; InHeader_pid : Z; InHeader_total_extlen : Z; InHeader_padding : Z
}.
#[export] Instance InHeader_bytes : ByteValued InHeader := {|
  layout := ([4; 4; 8; 8; 4; 4; 4; 2; 2])%nat;
  fields a := [InHeader_len a; InHeader_opcode a; InHeader_unique a; InHeader_nodeid a; InHeader_uid a;
    InHeader_gid a; InHeader_pid a; InHeader_total_extlen a; InHeader_padding a];
  of_fields l := mkInHeader (field l 0) (field l 1) (field l 2) (field l 3) (field l 4) (field l 5) (field l 6)
    (field l 7) (field l 8);
|}.
#[export] Instance InHeader_laws : ByteValuedLaws InHeader.
Proof. byte_valued. Qed.

Record OutHeader := mkOutHeader { OutHeader_len : Z; OutHeader_error : Z; OutHeader_unique : Z }.
#[export] Instance OutHeader_bytes : ByteValued OutHeader := {|
  layout := ([4; 4; 8])%nat;
  fields a := [OutHeader_len a; OutHeader_error a; OutHeader_unique a];
  of_fields l := mkOutHeader (field l 0) (field l 1) (field l 2);
|}.
#[export] Instance OutHeader_laws : ByteValuedLaws OutHeader.
Proof. byte_valued. Qed.

Record Dirent := mkDirent { Dirent_ino : Z; Dirent_off : Z; Dirent_namelen : Z; Dirent_type_ : Z }.
#[export] Instance Dirent_bytes : ByteValued Dirent := {|
  layout := ([8; 8; 4; 4])%nat;
  fields a := [Dirent_ino a; Dirent_off a; Dirent_namelen a; Dirent_type_ a];
  of_fields l := mkDirent (field l 0) (field l 1) (field l 2) (field l 3);
|}.
#[export] Instance Dirent_laws : ByteValuedLaws Dirent.
Proof. byte_valued. Qed.

Record LseekIn := mkLseekIn { LseekIn_fh : Z; LseekIn_offset : Z; LseekIn_whence : Z; LseekIn_padding : Z }.
#[export] Instance LseekIn_bytes : ByteValued LseekIn := {|
  layout := ([8; 8; 4; 4])%nat;
  fields a := [LseekIn_fh a; LseekIn_offset a; LseekIn_whence a; LseekIn_padding a];
  of_fields l := mkLseekIn (field l 0) (field l 1) (field l 2) (field l 3);
|}.
#[export] Instance LseekIn_laws : ByteValuedLaws LseekIn.
Proof. byte_valued. Qed.

Record LseekOut := mkLseekOut { LseekOut_offset : Z }.
#[export] Instance LseekOut_bytes : ByteValued LseekOut := {|
  layout := ([8])%nat;
  fields a := [LseekOut_offset a];
  of_fields l := mkLseekOut (field l 0);
|}.
#[export] Instance LseekOut_laws : ByteValuedLaws LseekOut.
Proof. byte_valued. Qed.

Record CopyfilerangeIn := mkCopyfilerangeIn {
  CopyfilerangeIn_fh_in : Z; CopyfilerangeIn_off_in : Z; CopyfilerangeIn_nodeid_out : Z;
  CopyfilerangeIn_fh_out : Z; CopyfilerangeIn_off_out : Z; CopyfilerangeIn_len : Z; CopyfilerangeIn_flags : Z
}.
#[export] Instance CopyfilerangeIn_bytes : ByteValued CopyfilerangeIn := {|
  layout := ([8; 8; 8; 8; 8; 8; 8])%nat;
  fields a := [CopyfilerangeIn_fh_in a; CopyfilerangeIn_off_in a; CopyfilerangeIn_nodeid_out a;
    CopyfilerangeIn_fh_out a; CopyfilerangeIn_off_out a; CopyfilerangeIn_len a; CopyfilerangeIn_flags a];
  of_fields l := mkCopyfilerangeIn (field l 0) (field l 1) (field l 2) (field l 3) (field l 4) (field l 5)
    (field l 6);
|}.
#[export] Instance CopyfilerangeIn_laws : ByteValuedLaws CopyfilerangeIn.
Proof. byte_valued. Qed.

Record ExtHeader := mkExtHeader { ExtHeader_size : Z; ExtHeader_ext_type : Z }.
#[export] Instance ExtHeader_bytes : ByteValued ExtHeader := {|
  layout := ([4; 4])%nat;
  fields a := [ExtHeader_size a; ExtHeader_ext_type a];
  of_fields l := mkExtHeader (field l 0) (field l 1);
|}.
#[export] Instance ExtHeader_laws : ByteValuedLaws ExtHeader.
Proof. byte_valued. Qed.

Record Secctx := mkSecctx { Secctx_size : Z; Secctx_padding : Z }.
#[export] Instance Secctx_bytes : ByteValued Secctx := {|
  layout := ([4; 4])%nat;
  fields a := [Secctx_size a; Secctx_padding a];
  of_fields l := mkSecctx (field l 0) (field l 1);
|}.
#[export] Instance Secctx_laws : ByteValuedLaws Secctx.
Proof. byte_valued. Qed.

Record SuppGroups := mkSuppGroups { SuppGroups_nr_groups : Z }.
#[export] Instance SuppGroups_bytes : ByteValued SuppGroups := {|
  layout := ([4])%nat;
  fields a := [SuppGroups_nr_groups a];
  of_fields l := mkSuppGroups (field l 0);
|}.
#[export] Instance SuppGroups_laws : ByteValuedLaws SuppGroups.
Proof. byte_valued. Qed.

(** ** Operation codes *)

Inductive Opcode :=
  | Op_Lookup | Op_Forget | Op_Getattr | Op_Setattr | Op_Readlink | Op_Symlink | Op_Mknod | Op_Mkdir
  | Op_Unlink | Op_Rmdir | Op_Rename | Op_Link | Op_Open | Op_Read | Op_Write | Op_Statfs | Op_Release
  | Op_Fsync | Op_Setxattr | Op_Getxattr | Op_Listxattr | Op_Removexattr | Op_Flush | Op_Init | Op_Opendir
  | Op_Readdir | Op_Releasedir | Op_Fsyncdir | Op_Getlk | Op_Setlk | Op_Setlkw | Op_Access | Op_Create
  | Op_Interrupt | Op_Bmap | Op_Destroy | Op_Ioctl | Op_Poll | Op_NotifyReply | Op_BatchForget
  | Op_Fallocate | Op_Readdirplus | Op_Rename2 | Op_Lseek | Op_CopyFileRange | Op_SetupMapping
  | Op_RemoveMapping | Op_Syncfs | Op_TmpFile.

(** [Opcode::try_from]. *)
Definition Opcode_try_from (v : Z) : option Opcode :=
  match v with
  | 1 => Some Op_Lookup | 2 => Some Op_Forget | 3 => Some Op_Getattr | 4 => Some Op_Setattr
  | 5 => Some Op_Readlink | 6 => Some Op_Symlink | 8 => Some Op_Mknod | 9 => Some Op_Mkdir
  | 10 => Some Op_Unlink | 11 => Some Op_Rmdir | 12 => Some Op_Rename | 13 => Some Op_Link
  | 14 => Some Op_Open | 15 => Some Op_Read | 16 => Some Op_Write | 17 => Some Op_Statfs
  | 18 => Some Op_Release | 20 => Some Op_Fsync | 21 => Some Op_Setxattr | 22 => Some Op_Getxattr
  | 23 => Some Op_Listxattr | 24 => Some Op_Removexattr | 25 => Some Op_Flush | 26 => Some Op_Init
  | 27 => Some Op_Opendir | 28 => Some Op_Readdir | 29 => Some Op_Releasedir | 30 => Some Op_Fsyncdir
  | 31 => Some Op_Getlk | 32 => Some Op_Setlk | 33 => Some Op_Setlkw | 34 => Some Op_Access
  | 35 => Some Op_Create | 36 => Some Op_Interrupt | 37 => Some Op_Bmap | 38 => Some Op_Destroy
  | 39 => Some Op_Ioctl | 40 => Some Op_Poll | 41 => Some Op_NotifyReply | 42 => Some Op_BatchForget
  | 43 => Some Op_Fallocate | 44 => Some Op_Readdirplus | 45 => Some Op_Rename2 | 46 => Some Op_Lseek
  | 47 => Some Op_CopyFileRange | 48 => Some Op_SetupMapping | 49 => Some Op_RemoveMapping
  | 50 => Some Op_Syncfs | 51 => Some Op_TmpFile
  | _ => None
  end.

(** ** Extensions of a request *)

Definition MAX_NR_SECCTX : Z := 31.
Definition EXT_SUP_GROUPS : Z := 32.

Inductive ExtType := SecCtx (nr_secctx : Z) | SupGroups.

Definition ExtType_try_from (value : Z) : option ExtType :=
  if value <=? MAX_NR_SECCTX then Some (SecCtx value)
  else if value =? EXT_SUP_GROUPS then Some SupGroups else None.
