(* ===== verification/FileSystem.v ===== *)
(** * The file system interface of the FUSE server

    Models [crates/virtiofsd-fork/src/filesystem.rs]: the trait [FileSystem]
    that the server calls, that [PassthroughFs] implements and that
    [InterceptedFs] wraps.  A request to a file system is a value of
    [operation A], one constructor per method with the method's arguments, [A]
    being the type of its result; a file system with the state [S] answers
    every operation.

    [Inode] and [Handle] are [u64] for every file system of the repository.  A
    name ([&CStr]) is the string of its bytes.  The zero-copy arguments of
    [read] and [write] are the buffers themselves: the lengths of the slices
    that take the data, of which [read] returns what it put there, and the
    contents of the slices that hold it. *)

From stdpp Require Import base strings list.
From S2P Require Import Prelude Fuse.
#[local] Open Scope Z_scope.

(** ** Data *)

Record Duration := mkDuration { as_secs : Z; subsec_nanos : Z }.

Record Entry := mkFuseEntry {
  entry_inode : Z;
  entry_generation : Z;
  entry_attr : Attr;
  entry_attr_timeout : Duration;
  entry_entry_timeout : Duration;
}.

Definition EntryOut_from (entry : Entry) : EntryOut :=
  {| EntryOut_nodeid := entry_inode entry; EntryOut_generation := entry_generation entry;
     EntryOut_entry_valid := as_secs (entry_entry_timeout entry);
     EntryOut_attr_valid := as_secs (entry_attr_timeout entry);
     EntryOut_entry_valid_nsec := subsec_nanos (entry_entry_timeout entry);
     EntryOut_attr_valid_nsec := subsec_nanos (entry_attr_timeout entry);
     EntryOut_attr := entry_attr entry |}.

Record DirEntry := mkDirEntry { de_ino : Z; de_offset : Z; de_type : Z; de_name : string }.

Inductive GetxattrReply := Value (v : list Z) | XattrCount (count : Z).
Inductive ListxattrReply := Names (v : list Z) | NamesCount (count : Z).

Record Context := mkContext { ctx_uid : Z; ctx_gid : Z; ctx_pid : Z }.

(** [as i32]. *)
Definition as_i32 (z : Z) : Z := (z + 2 ^ 31) mod 2 ^ 32 - 2 ^ 31.

Definition Context_from (h : InHeader) : Context :=
  mkContext (InHeader_uid h) (InHeader_gid h) (as_i32 (InHeader_pid h)).

Record SecContext := mkSecContext { sec_name : string; sec_secctx : list Z }.
Record Extensions := mkExtensions { ext_secctx : option SecContext; ext_sup_gid : option Z }.
Definition Extensions_default : Extensions := mkExtensions None None.

(** ** The trait *)

Inductive operation : Type → Type :=
  | FInit (capable : Z) : operation Z
  | FDestroy : operation unit
  | FLookup (ctx : Context) (parent : Z) (name : string) : operation Entry
  | FForget (ctx : Context) (inode count : Z) : operation unit
  | FBatchForget (ctx : Context) (requests : list (Z * Z)) : operation unit
  | FGetattr (ctx : Context) (inode : Z) (handle : option Z) : operation (Attr * Duration)
  | FSetattr (ctx : Context) (inode : Z) (attr : SetattrIn) (handle : option Z) (valid : Z)
      : operation (Attr * Duration)
  | FReadlink (ctx : Context) (inode : Z) : operation (list Z)
  | FSymlink (ctx : Context) (linkname : string) (parent : Z) (name : string) (ext : Extensions)
      : operation Entry
  | FMknod (ctx : Context) (parent : Z) (name : string) (mode rdev umask : Z) (ext : Extensions)
      : operation Entry
  | FMkdir (ctx : Context) (parent : Z) (name : string) (mode umask : Z) (ext : Extensions) : operation Entry
  | FUnlink (ctx : Context) (parent : Z) (name : string) : operation unit
  | FRmdir (ctx : Context) (parent : Z) (name : string) : operation unit
  | FRename (ctx : Context) (olddir : Z) (oldname : string) (newdir : Z) (newname : string) (flags : Z)
      : operation unit
  | FLink (ctx : Context) (inode newparent : Z) (newname : string) : operation Entry
  | FOpen (ctx : Context) (inode : Z) (kill_priv : bool) (flags : Z) : operation (option Z * Z)
  | FCreate (ctx : Context) (parent : Z) (name : string) (mode : Z) (kill_priv : bool) (flags umask : Z)
      (ext : Extensions) : operation (Entry * option Z * Z)
  | FRead (ctx : Context) (inode handle : Z) (w : list Z) (size offset : Z) (lock_owner : option Z) (flags : Z)
      : operation (list Z)
  | FWrite (ctx : Context) (inode handle : Z) (r : list (list Z)) (size offset : Z) (lock_owner : option Z)
      (delayed_write kill_priv : bool) (flags : Z) : operation Z
  | FFlush (ctx : Context) (inode handle lock_owner : Z) : operation unit
  | FFsync (ctx : Context) (inode : Z) (datasync : bool) (handle : Z) : operation unit
  | FFallocate (ctx : Context) (inode handle mode offset length : Z) : operation unit
  | FRelease (ctx : Context) (inode flags handle : Z) (flush flock_release : bool) (lock_owner : option Z)
      : operation unit
  | FStatfs (ctx : Context) (inode : Z) : operation statvfs64
  | FSetxattr (ctx : Context) (inode : Z) (name : string) (value : list Z) (flags extra_flags : Z)
      : operation unit
  | FGetxattr (ctx : Context) (inode : Z) (name : string) (size : Z) : operation GetxattrReply
  | FListxattr (ctx : Context) (inode size : Z) : operation ListxattrReply
  | FRemovexattr (ctx : Context) (inode : Z) (name : string) : operation unit
  | FOpendir (ctx : Context) (inode flags : Z) : operation (option Z * Z)
  | FReaddir (ctx : Context) (inode handle size offset : Z) : operation (list DirEntry)
  | FFsyncdir (ctx : Context) (inode : Z) (datasync : bool) (handle : Z) : operation unit
  | FReleasedir (ctx : Context) (inode flags handle : Z) : operation unit
  | FAccess (ctx : Context) (inode mask : Z) : operation unit
  | FLseek (ctx : Context) (inode handle offset whence : Z) : operation Z
  | FCopyfilerange (ctx : Context) (inode_in handle_in offset_in inode_out handle_out offset_out len flags : Z)
      : operation Z
  | FSyncfs (ctx : Context) (inode : Z) : operation unit
  | FGetlk : operation unit
  | FSetlk : operation unit
  | FSetlkw : operation unit
  | FIoctl : operation unit
  | FBmap : operation unit
  | FPoll : operation unit
  | FNotifyReply : operation unit
  | FTmpfile : operation (Entry * option Z * Z).

(** An operation, whatever its result. *)
Inductive fs_request := Request (A : Type) (op : operation A).
Arguments Request {A} op.

Definition FileSystem (S : Type) : Type := ∀ A : Type, operation A → stm S io_error A.
Arguments FileSystem S : simpl never.

(** The methods that succeed without a result on every file system. *)
Definition infallible {A : Type} (op : operation A) : bool :=
  match op with FDestroy | FForget _ _ _ | FBatchForget _ _ => true | _ => false end.

Definition ENOSYS : Z := 38.
Definition ENOMEM : Z := 12.
Definition EPROTO : Z := 71.
Definition EOVERFLOW : Z := 75.

(** [io::Error::from_raw_os_error]; the kinds of these codes are not among
    those the sources tell apart. *)
Definition os_error (errno : Z) : io_error := mkIoError KOther (Some errno).

(** The default methods; that of [batch_forget] calls the [forget] of the
    implementation. *)
Definition FileSystem_default {S : Type} (self : FileSystem S) : FileSystem S := λ A op,
  match op in operation A return stm S io_error A with
  | FInit _ => mret 0
  | FDestroy => mret ()
  | FForget _ _ _ => mret ()
  | FBatchForget ctx requests => for_each (λ r, self _ (FForget ctx r.1 r.2)) requests
  | FOpen _ _ _ _ => mret (None, 0)
  | FOpendir _ _ _ => mret (None, 0)
  | FStatfs _ _ => mret (mkStatvfs64 0 0 0 0 0 512 255 0)
  | _ => throw (os_error ENOSYS)
  end.
