(* ===== verification/Descriptors.v ===== *)
(** * Descriptor chains

    Models [crates/virtiofsd-fork/src/descriptor_utils.rs]: how the FUSE server
    reads a request from guest memory and writes its reply there.  A
    [VolatileSlice] is an address range of the guest memory; readers and
    writers are cursors over lists of slices.  The memory is one shared map, so
    slices may overlap.  The guest can change its memory at any time; here it
    does not while a request is served.

    The memory regions of the guest ([vm-memory]) and the walk over a
    descriptor chain ([virtio-queue]) are third-party code: the regions are
    the class [GuestMemory], a chain is the lists of its readable and writable
    descriptors. *)

From stdpp Require Import base gmap strings list numbers.
From S2P Require Import Prelude Fuse.
#[local] Open Scope Z_scope.

(** ** Guest memory *)

Abbreviation mem := (gmap Z Z).

Record VolatileSlice := mkSlice { sl_addr : Z; sl_len : Z }.

Definition slice_addrs (vs : VolatileSlice) : list Z := seqZ (sl_addr vs) (sl_len vs).

(** [vs.offset(n)] and [vs.subslice(0, n)] within the slice. *)
Definition slice_offset (n : Z) (vs : VolatileSlice) : VolatileSlice :=
  mkSlice (sl_addr vs + n) (sl_len vs - n).
Definition slice_prefix (n : Z) (vs : VolatileSlice) : VolatileSlice := mkSlice (sl_addr vs) n.

Definition load_at (m : mem) (addrs : list Z) : list Z := (λ a, default 0 (m !! a)) <$> addrs.
Definition load (m : mem) (vs : VolatileSlice) : list Z := load_at m (slice_addrs vs).

Fixpoint store_at (addrs bs : list Z) (m : mem) : mem :=
  match addrs, bs with
  | a :: addrs', b :: bs' => store_at addrs' bs' (<[a := b]> m)
  | _, _ => m
  end.

(** ** Errors *)

Inductive DescriptorError :=
  | DescriptorChainOverflow
  | FindMemoryRegion
  | SplitOutOfBounds (offset : Z)
  | VolatileMemoryError.

Definition UnexpectedEof : io_error := mkIoError KOther None.
Definition WriteZero : io_error := mkIoError KOther None.
Definition InvalidData : io_error := mkIoError KOther None.

(** ** The cursor *)

Record DescriptorChainConsumer := mkConsumer {
  buffers : list VolatileSlice;
  bytes_consumed : Z;
}.

Definition available_bytes (c : DescriptorChainConsumer) : Z :=
  foldl (λ count vs, count + sl_len vs) 0 (buffers c).

(** The slices a call for [count] bytes is given: whole ones, until they hold
    at least that many. *)
Fixpoint gather (count buflen : Z) (bs : list VolatileSlice) : list VolatileSlice :=
  match bs with
  | [] => []
  | vs :: bs' =>
      if count <=? buflen then []
      else
        let rem := count - buflen in
        vs :: gather count (buflen + (if rem <? sl_len vs then rem else sl_len vs)) bs'
  end.

(** The slices that are left after [rem] bytes. *)
Fixpoint pop_bytes (rem : Z) (bs : list VolatileSlice) : list VolatileSlice :=
  match bs with
  | [] => []
  | vs :: bs' => if rem <? sl_len vs then slice_offset rem vs :: bs' else pop_bytes (rem - sl_len vs) bs'
  end.

(** [f] is given the slices and returns the number of bytes it used, with what
    it read. *)
Definition consume {A : Type} (count : Z) (f : list VolatileSlice → stm mem io_error (A * Z)) (nothing : A)
    (c : DescriptorChainConsumer) : stm mem io_error (A * Z * DescriptorChainConsumer) :=
  let bufs := gather count 0 (buffers c) in
  match bufs with
  | [] => mret (nothing, 0, c)
  | _ :: _ =>
      '(a, n) ← f bufs;
      if 2 ^ 64 <=? bytes_consumed c + n then throw InvalidData
      else mret (a, n, mkConsumer (pop_bytes n (buffers c)) (bytes_consumed c + n))
  end.

(** The position of the split: the slices before it, and those after, of which
    the first is cut. *)
Fixpoint split_slices (rem : Z) (bs : list VolatileSlice) : option (list VolatileSlice * list VolatileSlice) :=
  match bs with
  | [] => if rem =? 0 then Some ([], []) else None
  | vs :: bs' =>
      if rem <? sl_len vs then
        if 0 <? rem then Some ([slice_prefix rem vs], slice_offset rem vs :: bs') else Some ([], vs :: bs')
      else '(l, r) ← split_slices (rem - sl_len vs) bs'; Some (vs :: l, r)
  end.

(** [self] keeps the part before the offset; the rest is a new cursor. *)
Definition split_at (offset : Z) (c : DescriptorChainConsumer)
    : outcome DescriptorError (DescriptorChainConsumer * DescriptorChainConsumer) :=
  match split_slices offset (buffers c) with
  | Some (l, r) => Ok (mkConsumer l (bytes_consumed c), mkConsumer r 0)
  | None => Err (SplitOutOfBounds offset)
  end.

(** ** Construction *)

Record Descriptor := mkDescriptor { desc_addr : Z; desc_len : Z }.
Record DescriptorChain := mkChain {
  head_index : Z;
  readable : list Descriptor;
  writable : list Descriptor;
}.

(** The regions of the guest memory: the start of the region of an address,
    and a slice of a region. *)
Class GuestMemory := {
  find_region : Z → option Z;
  get_slice : Z → Z → Z → option VolatileSlice;
}.

Section construction.
Context `{GuestMemory}.

Fixpoint map_descriptors (total_len : Z) (ds : list Descriptor) : outcome DescriptorError (list VolatileSlice) :=
  match ds with
  | [] => Ok []
  | d :: ds' =>
      let total_len := total_len + desc_len d in
      if 2 ^ 64 <=? total_len then Err DescriptorChainOverflow
      else
        region ← ok_or (find_region (desc_addr d)) FindMemoryRegion;
        (if desc_addr d <? region then Panic else Ok ()) ≫= λ _,
        vs ← ok_or (get_slice region (desc_addr d - region) (desc_len d)) VolatileMemoryError;
        rest ← map_descriptors total_len ds';
        Ok (vs :: rest)
  end.

Definition Reader_new (chain : DescriptorChain) : outcome DescriptorError DescriptorChainConsumer :=
  bs ← map_descriptors 0 (readable chain); Ok (mkConsumer bs 0).
Definition Writer_new (chain : DescriptorChain) : outcome DescriptorError DescriptorChainConsumer :=
  bs ← map_descriptors 0 (writable chain); Ok (mkConsumer bs 0).

End construction.

(** ** Reading *)

Abbreviation Reader := DescriptorChainConsumer.
Abbreviation Writer := DescriptorChainConsumer.
Abbreviation MemM := (stm mem io_error).

(** [Read::read] into a buffer of [n] bytes. *)
Definition Reader_read (n : Z) (r : Reader) : MemM (list Z * Z * Reader) :=
  consume n (λ bufs m,
    let bs := take (Z.to_nat n) (concat (load m <$> bufs)) in (Ok (bs, Z.of_nat (length bs)), m)) [] r.

(** [Read::read_exact], the default method: read until the buffer is full. *)
Fixpoint read_loop (fuel : nat) (n : Z) (r : Reader) : MemM (list Z * Reader) :=
  if n =? 0 then mret ([], r)
  else
    match fuel with
    | O => throw UnexpectedEof
    | S fuel' =>
        '(bs, k, r') ← Reader_read n r;
        if k =? 0 then throw UnexpectedEof
        else '(bs', r'') ← read_loop fuel' (n - k) r'; mret (bs ++ bs', r'')
    end.

Definition read_exact (n : Z) (r : Reader) : MemM (list Z * Reader) := read_loop (Z.to_nat n) n r.

Definition read_obj {A : Type} `{ByteValued A} (r : Reader) : MemM (A * Reader) :=
  '(bs, r') ← read_exact (Z.of_nat (size_of A)) r; mret (from_slice bs, r').

(** ** Writing *)

(** Copy the bytes into the slices in order. *)
Definition Writer_write (buf : list Z) (w : Writer) : MemM (Z * Writer) :=
  '(_, n, w') ← consume (Z.of_nat (length buf)) (λ bufs m,
    let addrs := take (length buf) (concat (slice_addrs <$> bufs)) in
    (Ok ((), Z.of_nat (length addrs)), store_at addrs buf m)) () w;
  mret (n, w').

(** [Write::write_all], the default method. *)
Fixpoint write_loop (fuel : nat) (buf : list Z) (w : Writer) : MemM Writer :=
  match buf with
  | [] => mret w
  | _ :: _ =>
      match fuel with
      | O => throw WriteZero
      | S fuel' =>
          '(n, w') ← Writer_write buf w;
          if n =? 0 then throw WriteZero else write_loop fuel' (drop (Z.to_nat n) buf) w'
      end
  end.

Definition write_all (buf : list Z) (w : Writer) : MemM Writer := write_loop (length buf) buf w.

Definition write_obj {A : Type} `{ByteValued A} (a : A) (w : Writer) : MemM Writer := write_all (as_slice a) w.

Definition bytes_written (w : Writer) : Z := bytes_consumed w.

(** ** Cursors as lists of addresses

    What a cursor has left is the list of the addresses of its slices, in
    order; reading and writing take addresses from its front. *)

Definition addrs_of (bs : list VolatileSlice) : list Z := concat (slice_addrs <$> bs).
Definition addrs (c : DescriptorChainConsumer) : list Z := addrs_of (buffers c).

Definition slices_ok (bs : list VolatileSlice) : Prop := Forall (λ vs, 0 ≤ sl_len vs) bs.

(** The lengths were added up without overflow when the cursor was made. *)
Definition cursor_ok (c : DescriptorChainConsumer) : Prop :=
  slices_ok (buffers c) ∧ 0 ≤ bytes_consumed c ∧ bytes_consumed c + Z.of_nat (length (addrs c)) < 2 ^ 64.

Lemma length_slice_addrs vs : length (slice_addrs vs) = Z.to_nat (sl_len vs).
Proof. unfold slice_addrs. apply length_seqZ. Qed.

Lemma addrs_of_cons vs bs : addrs_of (vs :: bs) = slice_addrs vs ++ addrs_of bs.
Proof. done. Qed.

Lemma slice_addrs_split vs n : 0 ≤ n ≤ sl_len vs →
  slice_addrs (slice_prefix n vs) = take (Z.to_nat n) (slice_addrs vs) ∧
  slice_addrs (slice_offset n vs) = drop (Z.to_nat n) (slice_addrs vs).
Proof.
  intros Hn. unfold slice_addrs, slice_prefix, slice_offset. simpl.
  replace (sl_len vs) with (n + (sl_len vs - n)) at 1 3 by lia.
  rewrite seqZ_app by lia. split.
  - rewrite take_app_length'; [done|]. by rewrite length_seqZ.
  - rewrite drop_app_length'; [done|]. by rewrite length_seqZ.
Qed.

Lemma available_addrs c : slices_ok (buffers c) → available_bytes c = Z.of_nat (length (addrs c)).
Proof.
  unfold available_bytes, addrs. intros Hok. rewrite <- (Z.add_0_l (Z.of_nat _)). generalize 0 as k.
  induction Hok as [|vs bs Hvs _ IH]; intros k; simpl; [lia|].
  rewrite IH, addrs_of_cons, length_app, length_slice_addrs. lia.
Qed.

Lemma gather_addrs count buflen bs :
  slices_ok bs → buflen ≤ count →
  take (Z.to_nat (count - buflen)) (addrs_of (gather count buflen bs)) =
  take (Z.to_nat (count - buflen)) (addrs_of bs).
Proof.
  intros Hok. revert buflen. induction Hok as [|vs bs Hvs _ IH]; intros buflen Hle; [done|]. simpl.
  destruct (Z.leb_spec count buflen); [by replace (Z.to_nat (count - buflen)) with 0%nat by lia|].
  rewrite !addrs_of_cons, !take_app, length_slice_addrs. f_equal.
  destruct (Z.ltb_spec (count - buflen) (sl_len vs)).
  - by replace (Z.to_nat (count - buflen) - Z.to_nat (sl_len vs))%nat with 0%nat by lia.
  - replace (Z.to_nat (count - buflen) - Z.to_nat (sl_len vs))%nat
      with (Z.to_nat (count - (buflen + sl_len vs))) by lia.
    apply IH. lia.
Qed.

Lemma gather_nil count bs : gather count 0 bs = [] → count ≤ 0 ∨ bs = [].
Proof. destruct bs; simpl; [by right|]. destruct (Z.leb_spec count 0); [by left | done]. Qed.

Lemma pop_bytes_addrs n bs :
  slices_ok bs → 0 ≤ n → addrs_of (pop_bytes n bs) = drop (Z.to_nat n) (addrs_of bs) ∧ slices_ok (pop_bytes n bs).
Proof.
  intros Hok. revert n. induction Hok as [|vs bs Hvs Hbs IH]; intros n Hn; simpl.
  - split; [by destruct (Z.to_nat n) | constructor].
  - rewrite addrs_of_cons. destruct (Z.ltb_spec n (sl_len vs)).
    + rewrite addrs_of_cons, (proj2 (slice_addrs_split vs n ltac:(lia))), drop_app_le
        by (rewrite length_slice_addrs; lia).
      split; [done|]. constructor; [simpl; lia | done].
    + destruct (IH (n - sl_len vs) ltac:(lia)) as [-> ?]. split; [|done].
      rewrite drop_app_ge by (rewrite length_slice_addrs; lia). f_equal. rewrite length_slice_addrs. lia.
Qed.

Lemma split_slices_addrs n bs :
  slices_ok bs → 0 ≤ n →
  match split_slices n bs with
  | Some (l, r) => n ≤ Z.of_nat (length (addrs_of bs)) ∧ slices_ok l ∧ slices_ok r ∧
      addrs_of l = take (Z.to_nat n) (addrs_of bs) ∧ addrs_of r = drop (Z.to_nat n) (addrs_of bs)
  | None => Z.of_nat (length (addrs_of bs)) < n
  end.
Proof.
  intros Hok. revert n. induction Hok as [|vs bs Hvs Hbs IH]; intros n Hn; simpl.
  - destruct (Z.eqb_spec n 0) as [->|]; simpl; [split_and!; try constructor; done | lia].
  - rewrite !addrs_of_cons, length_app, length_slice_addrs. destruct (Z.ltb_spec n (sl_len vs)).
    + destruct (slice_addrs_split vs n ltac:(lia)) as [Hp Ho].
      destruct (Z.ltb_spec 0 n).
      * split_and!; [lia | repeat constructor; simpl; lia | constructor; [simpl; lia | done] | |].
        -- rewrite addrs_of_cons, Hp, take_app_le by (rewrite length_slice_addrs; lia). apply app_nil_r.
        -- by rewrite addrs_of_cons, Ho, drop_app_le by (rewrite length_slice_addrs; lia).
      * replace n with 0 by lia. split_and!; [lia | constructor | by constructor | done | done].
    + specialize (IH (n - sl_len vs) ltac:(lia)). destruct (split_slices _ bs) as [[l r]|]; simpl; [|lia].
      destruct IH as (? & ? & ? & Hl & Hr). split_and!; [lia | by constructor | done | |].
      * rewrite addrs_of_cons, Hl, take_app_ge by (rewrite length_slice_addrs; lia).
        rewrite length_slice_addrs. do 2 f_equal. lia.
      * rewrite Hr, drop_app_ge by (rewrite length_slice_addrs; lia). f_equal. rewrite length_slice_addrs. lia.
Qed.

(** A cursor of which [n] bytes were used. *)
Definition advanced (n : nat) (c c' : DescriptorChainConsumer) : Prop :=
  cursor_ok c' ∧ addrs c' = drop n (addrs c) ∧ bytes_consumed c' = bytes_consumed c + Z.of_nat n.

Lemma advanced_0 c : cursor_ok c → advanced 0 c c.
Proof. intros Hc. split_and!; [done | by rewrite drop_0 | lia]. Qed.

Lemma advanced_trans n k c c' c'' : advanced n c c' → advanced k c' c'' → advanced (n + k) c c''.
Proof.
  intros (? & Ha & ?) (? & Hb & ?). split_and!; [done | by rewrite Hb, Ha, drop_drop | lia].
Qed.

Lemma consume_advanced {A : Type} (count : Z) (f : list VolatileSlice → stm mem io_error (A * Z)) (nothing : A) c m a k m' :
  cursor_ok c → 0 < count → addrs c ≠ [] →
  f (gather count 0 (buffers c)) m = (Ok (a, k), m') → 0 ≤ k ≤ Z.of_nat (length (addrs c)) →
  ∃ c', consume count f nothing c m = (Ok (a, k, c'), m') ∧ advanced (Z.to_nat k) c c'.
Proof.
  intros (Hok & Hb & Hlt) Hcount Hne Hf Hk. unfold consume.
  destruct (gather count 0 (buffers c)) as [|vs bs] eqn:Eg.
  { apply gather_nil in Eg as [|Eg]; [lia|]. unfold addrs in Hne. by rewrite Eg in Hne. }
  rewrite (stm_bind_ok _ _ _ _ _ Hf). destruct (Z.leb_spec (2 ^ 64) (bytes_consumed c + k)); [lia|].
  eexists. split; [done|]. destruct (pop_bytes_addrs k (buffers c) Hok ltac:(lia)) as [Hp Hp'].
  split_and!; simpl; [| done | lia]. split_and!; simpl; [done | lia |].
  unfold addrs in *. simpl. rewrite Hp, length_drop. lia.
Qed.

(** *** Reading *)

Lemma load_concat m bs : concat (load m <$> bs) = load_at m (addrs_of bs).
Proof.
  induction bs as [|vs bs IH]; [done|]. rewrite addrs_of_cons, fmap_cons. simpl. rewrite IH.
  unfold load_at at 2. by rewrite fmap_app.
Qed.

Lemma read_spec n r m :
  cursor_ok r → 0 < n → addrs r ≠ [] →
  let k := (Z.to_nat n `min` length (addrs r))%nat in
  ∃ r', Reader_read n r m = (Ok (take k (load_at m (addrs r)), Z.of_nat k, r'), m) ∧ advanced k r r'.
Proof.
  intros Hr Hn Hne k. unfold Reader_read.
  assert (take (Z.to_nat n) (load_at m (addrs_of (gather n 0 (buffers r)))) = take k (load_at m (addrs r))) as Ht.
  { pose proof (gather_addrs n 0 (buffers r) (proj1 Hr) ltac:(lia)) as Hg. rewrite Z.sub_0_r in Hg.
    unfold load_at. rewrite <- fmap_take, Hg, <- fmap_take. f_equal. subst k. unfold addrs.
    destruct (Nat.min_spec (Z.to_nat n) (length (addrs_of (buffers r)))) as [[_ ->]|[? ->]]; [done|].
    by rewrite !take_ge by lia. }
  assert (length (take k (load_at m (addrs r))) = k) as Hl.
  { unfold load_at. rewrite length_take, length_fmap. lia. }
  eapply (consume_advanced n _ []) in Hne as (r' & -> & Hr'); [| done | done | |].
  - eexists. split; [done|]. by rewrite Nat2Z.id in Hr'.
  - cbv beta zeta. rewrite load_concat, Ht, Hl. done.
  - lia.
Qed.

Lemma Reader_read_end n r m : slices_ok (buffers r) → cursor_ok r → addrs r = [] → 0 < n →
  ∃ r', Reader_read n r m = (Ok ([], 0, r'), m).
Proof.
  intros _ (Hok & Hb & Hlt) Ha Hn. unfold Reader_read, consume.
  destruct (gather n 0 (buffers r)) as [|vs bs] eqn:Eg; [by eexists|].
  unfold mbind, stm_bind. rewrite load_concat.
  pose proof (gather_addrs n 0 (buffers r) Hok ltac:(lia)) as Hg. rewrite Z.sub_0_r, Eg in Hg.
  unfold load_at. rewrite <- fmap_take, Hg. unfold addrs in Ha. rewrite Ha, take_nil.
  cbn [fmap list_fmap length]. change (Z.of_nat 0) with 0.
  rewrite (proj2 (Z.leb_gt (2 ^ 64) (bytes_consumed r + 0))) by lia. by eexists.
Qed.

(** [read_exact] takes the next [n] bytes, or fails when there are fewer. *)
Lemma read_exact_ok n r m :
  cursor_ok r → 0 ≤ n ≤ Z.of_nat (length (addrs r)) →
  ∃ r', read_exact n r m = (Ok (take (Z.to_nat n) (load_at m (addrs r)), r'), m) ∧ advanced (Z.to_nat n) r r'.
Proof.
  intros Hr Hn. unfold read_exact. destruct (Z.eqb_spec n 0) as [->|Hnz].
  { exists r. split; [done | by apply advanced_0]. }
  destruct (Z.to_nat n) as [|fuel] eqn:En; [lia|]. cbn [read_loop]. rewrite (proj2 (Z.eqb_neq n 0) Hnz).
  destruct (read_spec n r m Hr ltac:(lia)) as (r' & Hrd & Hr'); [destruct (addrs r); [simpl in Hn; lia | done]|].
  rewrite Nat.min_l in Hrd, Hr' by lia. rewrite (stm_bind_ok _ _ _ _ _ Hrd).
  rewrite (proj2 (Z.eqb_neq _ 0)) by lia. exists r'. rewrite Z2Nat.id, Z.sub_diag by lia.
  rewrite <- En. split; [|done]. unfold mbind, stm_bind. destruct fuel; simpl; by rewrite app_nil_r.
Qed.

Lemma read_exact_short n r m :
  cursor_ok r → Z.of_nat (length (addrs r)) < n → read_exact n r m = (Err UnexpectedEof, m).
Proof.
  intros Hr Hn. unfold read_exact. destruct (Z.to_nat n) as [|fuel] eqn:En; [lia|]. cbn [read_loop].
  rewrite (proj2 (Z.eqb_neq n 0)) by lia. destruct (decide (addrs r = [])) as [Ha|Hne].
  { destruct (Reader_read_end n r m (proj1 Hr) Hr Ha ltac:(lia)) as [r' Hrd].
    by rewrite (stm_bind_ok _ _ _ _ _ Hrd). }
  destruct (read_spec n r m Hr ltac:(lia) Hne) as (r' & Hrd & Hr').
  rewrite Nat.min_r in Hrd, Hr' by lia. rewrite (stm_bind_ok _ _ _ _ _ Hrd).
  destruct (length (addrs r)) as [|l] eqn:El; [by destruct (addrs r)|].
  rewrite (proj2 (Z.eqb_neq _ 0)) by lia. destruct Hr' as (Hok & Ha & _). rewrite drop_ge in Ha by lia.
  destruct fuel as [|fuel]; [lia|]. cbn [read_loop]. rewrite (proj2 (Z.eqb_neq _ 0)) by lia.
  destruct (Reader_read_end (n - Z.of_nat (S l)) r' m (proj1 Hok) Hok Ha ltac:(lia)) as [r'' Hrd'].
  unfold mbind at 1, stm_bind at 1. by rewrite (stm_bind_ok _ _ _ _ _ Hrd').
Qed.

Lemma read_obj_spec {A : Type} `{ByteValued A} r m :
  cursor_ok r →
  if decide (size_of A ≤ length (addrs r))%nat
  then ∃ r', read_obj r m = (Ok (from_slice (take (size_of A) (load_at m (addrs r))), r'), m) ∧
             advanced (size_of A) r r'
  else read_obj r m = (Err UnexpectedEof, m).
Proof.
  intros Hr. unfold read_obj. set (n := size_of A). case_decide as Hd.
  - destruct (read_exact_ok (Z.of_nat n) r m Hr ltac:(lia)) as (r' & Hrd & Hr').
    rewrite Nat2Z.id in Hrd, Hr'. rewrite (stm_bind_ok _ _ _ _ _ Hrd). by exists r'.
  - pose proof (read_exact_short (Z.of_nat n) r m Hr ltac:(lia)) as Hrd.
    by rewrite (stm_bind_err _ _ _ _ _ Hrd).
Qed.

(** *** Writing *)

Lemma store_at_app as1 as2 bs1 bs2 m :
  length as1 = length bs1 → store_at (as1 ++ as2) (bs1 ++ bs2) m = store_at as2 bs2 (store_at as1 bs1 m).
Proof. revert bs1 m. induction as1; intros [|b bs1] m Hl; simplify_eq/=; [done|]. by rewrite IHas1. Qed.

Lemma store_at_take n ads bs m : (length ads ≤ n)%nat → store_at ads (take n bs) m = store_at ads bs m.
Proof.
  revert n bs m. induction ads as [|a ads IH]; intros n [|b bs] m Hn; simpl in *; rewrite ?take_nil; try done.
  destruct n as [|n]; [lia|]. simpl. apply IH. lia.
Qed.

Lemma load_store_other ads bs m l : ads ## l → load_at (store_at ads bs m) l = load_at m l.
Proof.
  revert bs m. induction ads as [|a ads IH]; intros [|b bs] m Hd; simpl; try done.
  rewrite IH by set_solver. unfold load_at. apply list_fmap_ext. intros i x Hx%list_elem_of_lookup_2.
  rewrite lookup_insert_ne; [done|]. set_solver.
Qed.

Lemma load_store ads bs m : NoDup ads → length bs = length ads → load_at (store_at ads bs m) ads = bs.
Proof.
  revert bs m. induction ads as [|a ads IH]; intros [|b bs] m Hnd Hl; simplify_eq/=; [done|].
  apply list.NoDup_cons in Hnd as [Ha Hnd]. rewrite IH by done. f_equal.
  pose proof (load_store_other ads bs (<[a := b]> m) [a] ltac:(set_solver)) as Hs.
  unfold load_at in Hs. simpl in Hs. rewrite lookup_insert_eq in Hs. by injection Hs.
Qed.

Lemma write_spec buf w m :
  cursor_ok w → buf ≠ [] → addrs w ≠ [] →
  let k := (length buf `min` length (addrs w))%nat in
  ∃ w', Writer_write buf w m = (Ok (Z.of_nat k, w'), store_at (take k (addrs w)) buf m) ∧ advanced k w w'.
Proof.
  intros Hw Hb Hne k. unfold Writer_write.
  assert (take (length buf) (addrs_of (gather (Z.of_nat (length buf)) 0 (buffers w))) = take k (addrs w)) as Ht.
  { pose proof (gather_addrs (Z.of_nat (length buf)) 0 (buffers w) (proj1 Hw) ltac:(lia)) as Hg.
    rewrite Z.sub_0_r, Nat2Z.id in Hg. rewrite Hg. subst k. unfold addrs.
    destruct (Nat.min_spec (length buf) (length (addrs_of (buffers w)))) as [[_ ->]|[? ->]]; [done|].
    by rewrite !take_ge by lia. }
  assert (length (take k (addrs w)) = k) as Hl by (rewrite length_take; lia).
  eapply (consume_advanced (Z.of_nat (length buf)) _ ()) in Hne as (w' & Hc & Hw'); [| done | by destruct buf | |].
  - rewrite (stm_bind_ok _ _ _ _ _ Hc). exists w'. split; [done|]. by rewrite Nat2Z.id in Hw'.
  - cbv beta zeta. change (concat (slice_addrs <$> ?l)) with (addrs_of l). rewrite Ht, Hl. done.
  - lia.
Qed.

Lemma write_end buf w m : cursor_ok w → addrs w = [] → buf ≠ [] → ∃ w', Writer_write buf w m = (Ok (0, w'), m).
Proof.
  intros (Hok & Hb & Hlt) Ha Hne. unfold Writer_write, consume.
  destruct (gather _ 0 (buffers w)) as [|vs bs] eqn:Eg; [by eexists|].
  pose proof (gather_addrs (Z.of_nat (length buf)) 0 (buffers w) Hok ltac:(lia)) as Hg.
  rewrite Z.sub_0_r, Nat2Z.id, Eg in Hg. unfold mbind, stm_bind.
  change (concat (slice_addrs <$> ?l)) with (addrs_of l). unfold addrs in Ha. rewrite Hg, Ha, take_nil.
  cbn [store_at length]. change (Z.of_nat 0) with 0.
  rewrite (proj2 (Z.leb_gt (2 ^ 64) (bytes_consumed w + 0))) by lia. by eexists.
Qed.

(** [write_all] writes the bytes to the next addresses, or fails after filling
    what room there is. *)
Lemma write_all_ok buf w m :
  cursor_ok w → (length buf ≤ length (addrs w))%nat →
  ∃ w', write_all buf w m = (Ok w', store_at (take (length buf) (addrs w)) buf m) ∧ advanced (length buf) w w'.
Proof.
  intros Hw Hl. unfold write_all. destruct buf as [|b buf]; [exists w; split; [done | by apply advanced_0]|].
  set (bs := b :: buf) in *. change (length bs) with (S (length buf)) at 1. cbn [write_loop]. subst bs.
  cbv match. set (bs := b :: buf) in *.
  destruct (write_spec bs w m Hw ltac:(done)) as (w' & Hwr & Hw'); [destruct (addrs w); [simpl in Hl; lia | done]|].
  rewrite Nat.min_l in Hwr, Hw' by done. rewrite (stm_bind_ok _ _ _ _ _ Hwr).
  rewrite (proj2 (Z.eqb_neq _ 0)) by (subst bs; simpl; lia). rewrite Nat2Z.id, drop_all.
  exists w'. split; [by destruct (length buf) | done].
Qed.

Lemma write_all_short buf w m :
  cursor_ok w → (length (addrs w) < length buf)%nat →
  write_all buf w m = (Err WriteZero, store_at (addrs w) buf m).
Proof.
  intros Hw Hl. unfold write_all. destruct buf as [|b buf]; [simpl in Hl; lia|].
  set (bs := b :: buf) in *. change (length bs) with (S (length buf)) at 1. cbn [write_loop]. subst bs.
  cbv match. set (bs := b :: buf) in *. destruct (decide (addrs w = [])) as [Ha|Hne].
  { destruct (write_end bs w m Hw Ha ltac:(done)) as [w' Hwr]. rewrite (stm_bind_ok _ _ _ _ _ Hwr), Ha. done. }
  destruct (write_spec bs w m Hw ltac:(done) Hne) as (w' & Hwr & Hok & Ha & _).
  rewrite Nat.min_r in Hwr, Ha by lia. rewrite take_ge in Hwr by done. rewrite drop_all in Ha.
  rewrite (stm_bind_ok _ _ _ _ _ Hwr), Nat2Z.id.
  rewrite (proj2 (Z.eqb_neq _ 0)) by (destruct (addrs w); simpl; [done | lia]).
  destruct (drop (length (addrs w)) bs) as [|c bs'] eqn:Ed.
  { apply (f_equal length) in Ed. rewrite length_drop in Ed. unfold bs in Ed, Hl. simpl in Ed, Hl. lia. }
  destruct (length buf) as [|fuel] eqn:Ef; [destruct (addrs w); [done | subst bs; simpl in Hl; lia]|]. cbn [write_loop].
  destruct (write_end (c :: bs') w' (store_at (addrs w) bs m) Hok Ha ltac:(done)) as [w'' Hwr'].
  by rewrite (stm_bind_ok _ _ _ _ _ Hwr').
Qed.

(** *** Splitting *)

Lemma split_at_spec offset c :
  cursor_ok c → 0 ≤ offset →
  match split_at offset c with
  | Ok (c1, c2) => offset ≤ Z.of_nat (length (addrs c)) ∧ cursor_ok c1 ∧ cursor_ok c2 ∧
      addrs c1 = take (Z.to_nat offset) (addrs c) ∧ addrs c2 = drop (Z.to_nat offset) (addrs c) ∧
      bytes_consumed c1 = bytes_consumed c ∧ bytes_consumed c2 = 0
  | Err _ => Z.of_nat (length (addrs c)) < offset
  | Panic => False
  end.
Proof.
  intros (Hok & Hb & Hlt) Ho. unfold split_at. pose proof (split_slices_addrs offset (buffers c) Hok Ho) as Hs.
  destruct (split_slices _ _) as [[l r]|]; [|done]. destruct Hs as (Hn & Hl & Hr & Hal & Har). unfold addrs in *.
  split_and!; try done; unfold cursor_ok, addrs; simpl; rewrite ?Hal, ?Har, ?length_take, ?length_drop;
    split_and!; try done; lia.
Qed.

(** *** Writing pieces one after another *)

Fixpoint write_chunks (chunks : list (list Z)) (w : Writer) : MemM Writer :=
  match chunks with [] => mret w | c :: cs => w' ← write_all c w; write_chunks cs w' end.

Lemma store_at_outside ads bs m a : a ∉ ads → store_at ads bs m !! a = m !! a.
Proof.
  revert bs m. induction ads as [|b ads IH]; intros [|c bs] m Ha; simpl; try done.
  rewrite IH by set_solver. rewrite lookup_insert_ne; [done|]. set_solver.
Qed.

Lemma store_at_split n k ads bs1 bs2 m :
  length bs1 = n → length bs2 = k → (n + k ≤ length ads)%nat →
  store_at (take (n + k) ads) (bs1 ++ bs2) m = store_at (take k (drop n ads)) bs2 (store_at (take n ads) bs1 m).
Proof.
  intros H1 H2 Hl. rewrite <- (take_drop n (take (n + k) ads)), take_take, take_drop_commute.
  rewrite Nat.min_l by lia. apply store_at_app. rewrite length_take. lia.
Qed.

Lemma write_chunks_spec chunks w m :
  cursor_ok w →
  let total := concat chunks in
  if decide (length total ≤ length (addrs w))%nat
  then ∃ w', write_chunks chunks w m = (Ok w', store_at (take (length total) (addrs w)) total m) ∧
             advanced (length total) w w'
  else ∃ m', write_chunks chunks w m = (Err WriteZero, m') ∧ (∀ a, a ∉ addrs w → m' !! a = m !! a).
Proof.
  revert w m. induction chunks as [|c cs IH]; intros w m Hok; cbn [concat write_chunks].
  { rewrite decide_True by (simpl; lia). exists w. split; [done | by apply advanced_0]. }
  destruct (decide (length c ≤ length (addrs w))%nat) as [Hl|Hl].
  - destruct (write_all_ok c w m Hok Hl) as (w1 & Hwr & Hadv). rewrite (stm_bind_ok _ _ _ _ _ Hwr).
    pose proof Hadv as (Hok1 & Ha1 & _). specialize (IH w1 (store_at (take (length c) (addrs w)) c m) Hok1).
    rewrite length_app. cbv zeta in IH. rewrite Ha1, length_drop in IH.
    destruct (decide (length (concat cs) ≤ length (addrs w) - length c)%nat).
    + rewrite decide_True by lia. destruct IH as (w2 & -> & Hadv2). exists w2. split.
      * by rewrite store_at_split by (done || lia).
      * by eapply advanced_trans.
    + rewrite decide_False by lia. destruct IH as (m' & -> & Hm'). exists m'. split; [done|].
      intros a Ha. rewrite Hm'.
      * apply store_at_outside. intros Hin. apply Ha. by eapply subseteq_take.
      * intros Hin. apply Ha. by eapply subseteq_drop.
  - rewrite decide_False by (rewrite length_app; lia).
    rewrite (stm_bind_err _ _ _ _ _ (write_all_short c w m Hok ltac:(lia))). eexists. split; [done|].
    intros a Ha. by apply store_at_outside.
Qed.
