(* ===== verification/FuseServer.v ===== *)
(** * The FUSE server

    Models [crates/virtiofsd-fork/src/server.rs] and the errors of [lib.rs]:
    the decoding of a request, the call of the file system and the reply, for
    every operation code.

    The server state is the file system's state, the negotiated options and
    the guest memory.  [handle_message] returns the number of bytes of the
    reply, 0 for the requests without one; an error is a request that was not
    answered.  An assertion of a debug build that fails is [Panic], like an
    [unwrap] of an error. *)

From stdpp Require Import base gmap strings list.
From S2P Require Import Prelude Fuse FileSystem Descriptors.
#[local] Open Scope Z_scope.

Definition FUSE_BUFFER_HEADER_SIZE : Z := 0x1000.
Definition MAX_BUFFER_SIZE : Z := Z.shiftl 1 20.
Definition EIO : Z := 5.
Definition EINVAL : Z := 22.
Definition einval : io_error := mkIoError InvalidInput (Some EINVAL).

Inductive FuseError :=
  | DecodeMessage (e : io_error)
  | EncodeMessage (e : io_error)
  | FlushMessage (e : io_error)
  | MissingParameter
  | InvalidCString
  | InvalidCString2
  | InvalidHeaderLength
  | InvalidXattrSize (size : Z) (len : Z)
  | MissingExtension.

(** ** Parsing *)

(** [CStr::from_bytes_with_nul]: one zero byte, at the end. *)
Fixpoint from_bytes_with_nul (buf : list Z) : option (list Z) :=
  match buf with
  | [] => None
  | b :: buf' =>
      if b =? 0 then match buf' with [] => Some [] | _ => None end
      else (b ::.) <$> from_bytes_with_nul buf'
  end.

Definition bytes_to_cstr (buf : list Z) : outcome FuseError string :=
  string_of_bytes <$> ok_or (from_bytes_with_nul buf) InvalidCString.

(** The bytes up to the first zero byte, with it, and the others; everything
    when there is none. *)
Fixpoint split_nul (buf : list Z) : list Z * list Z :=
  match buf with
  | [] => ([], [])
  | b :: buf' => if b =? 0 then ([b], buf') else let '(l, r) := split_nul buf' in (b :: l, r)
  end.

(** [next] of [split_inclusive(|c| c == 0)], with what is left. *)
Definition next_component (buf : list Z) : outcome FuseError (list Z * list Z) :=
  match buf with [] => Err MissingParameter | _ => Ok (split_nul buf) end.

(** [buf.iter().position(|c| c == 0)] and [split_at] after it. *)
Definition split_at_nul (buf : list Z) : outcome FuseError (list Z * list Z) :=
  if decide (0 ∈ buf) then Ok (split_nul buf) else Err MissingParameter.

Definition take_object (A : Type) `{ByteValued A} (data : list Z) : outcome FuseError (A * list Z) :=
  if decide (length data < size_of A)%nat then Err (DecodeMessage einval)
  else Ok (from_slice (take (size_of A) data), drop (size_of A) data).

Definition parse_security_context (nr_secctx : Z) (data : list Z) : outcome FuseError (option SecContext) :=
  if 1 <? nr_secctx then Err (DecodeMessage einval)
  else if nr_secctx =? 0 then Ok None
  else
    '(secctx, data) ← take_object Secctx data;
    if Secctx_size secctx =? 0 then Err (DecodeMessage einval)
    else
      '(secctx_name, data) ← next_component data;
      if decide (Z.of_nat (length data) < Secctx_size secctx) then Err (DecodeMessage einval)
      else
        name ← ok_or (from_bytes_with_nul secctx_name) InvalidCString2;
        Ok (Some (mkSecContext (string_of_bytes name) (take (Z.to_nat (Secctx_size secctx)) data))).

Definition parse_sup_groups (data : list Z) : outcome FuseError Z :=
  '(group_header, group_id_bytes) ← take_object SuppGroups data;
  if negb (SuppGroups_nr_groups group_header =? 1) then Err (DecodeMessage einval)
  else '(gid, _) ← take_object Z group_id_bytes; Ok gid.

(** One extension: what [get_extensions] does with its type and its bytes. *)
Definition parse_extension (options : Z) (ext_type : ExtType) (bytes : list Z) (secctx_received : bool)
    (ext : Extensions) : outcome FuseError (bool * Extensions) :=
  match ext_type with
  | SecCtx nr_secctx =>
      if negb (contains options FsOptions.SECURITY_CTX) || secctx_received then Err (DecodeMessage einval)
      else c ← parse_security_context nr_secctx bytes; Ok (true, mkExtensions c (ext_sup_gid ext))
  | SupGroups =>
      if negb (contains options FsOptions.CREATE_SUPP_GROUP) || bool_decide (is_Some (ext_sup_gid ext))
      then Err (DecodeMessage einval)
      else gid ← parse_sup_groups bytes; Ok (secctx_received, mkExtensions (ext_secctx ext) (Some gid))
  end.

(** [while !buf.is_empty()]; an iteration uses at least the eight bytes of a
    header, so [length buf] iterations are enough. *)
Fixpoint extension_loop (fuel : nat) (options : Z) (buf : list Z) (secctx_received : bool) (ext : Extensions)
    : outcome FuseError (bool * Extensions) :=
  match buf, fuel with
  | [], _ => Ok (secctx_received, ext)
  | _, O => Panic
  | _, S fuel' =>
      '(header, remaining_bytes) ← take_object ExtHeader buf;
      let header_size := Z.of_nat (size_of ExtHeader) in
      if ExtHeader_size header <? header_size then Err InvalidHeaderLength
      else
        let extension_size := ExtHeader_size header - header_size in
        if Z.of_nat (length remaining_bytes) <? extension_size then Panic
        else
          let n := Z.to_nat extension_size in
          ext_type ← ok_or (ExtType_try_from (ExtHeader_ext_type header)) (DecodeMessage einval);
          '(received, ext) ← parse_extension options ext_type (take n remaining_bytes) secctx_received ext;
          extension_loop fuel' options (drop n remaining_bytes) received ext
  end.

Definition get_extensions (options : Z) (skip : nat) (request_bytes : list Z) : outcome FuseError Extensions :=
  if negb (contains options FsOptions.SECURITY_CTX || contains options FsOptions.CREATE_SUPP_GROUP)
  then Ok Extensions_default
  else if decide (length request_bytes < skip)%nat then Err (DecodeMessage einval)
  else
    let buf := drop skip request_bytes in
    '(secctx_received, extensions) ← extension_loop (length buf) options buf false Extensions_default;
    if contains options FsOptions.SECURITY_CTX && negb secctx_received then Err MissingExtension
    else Ok extensions.

(** ** The server *)

Record Server (S : Type) := mkServer { srv_fs : S; srv_options : Z; srv_mem : mem }.
Arguments mkServer {S}.
Arguments srv_fs {S}.
Arguments srv_options {S}.
Arguments srv_mem {S}.

Section server.
Context {S : Type} (fs : FileSystem S).

Abbreviation SrvM := (stm (Server S) FuseError).

Definition Server_new (s : S) (m : mem) : Server S := mkServer s 0 m.

(** Reading and writing guest memory. *)
Definition on_mem {A : Type} (wrap : io_error → FuseError) (m : MemM A) : SrvM A := λ s,
  let '(r, mm) := m (srv_mem s) in (map_err wrap r, mkServer (srv_fs s) (srv_options s) mm).

(** A call of the file system; its error is a value. *)
Definition fs_call {A : Type} (op : operation A) : SrvM (io_error + A) := λ s,
  let '(r, f) := fs A op (srv_fs s) in
  (match r with Ok a => Ok (inr a) | Err e => Ok (inl e) | Panic => Panic end,
   mkServer f (srv_options s) (srv_mem s)).

(** The methods without a result type for errors. *)
Definition fs_do (op : operation unit) : SrvM unit := _ ← fs_call op; mret ().

Definition set_options (o : Z) : SrvM unit := modify (λ s, mkServer (srv_fs s) o (srv_mem s)).
Definition get_options : SrvM Z := gets (λ s, FsOptions.from_bits_truncate (srv_options s)).

(** *** Decoding *)

Definition decode (A : Type) `{ByteValued A} (r : Reader) : SrvM (A * Reader) := on_mem DecodeMessage (read_obj r).

(** The length of the message after the header and [msg_size] bytes. *)
Definition remaining_len (h : InHeader) (msg_size : nat) : outcome FuseError Z :=
  let l := InHeader_len h - Z.of_nat (size_of InHeader) in
  if l <? 0 then Err InvalidHeaderLength
  else let l := l - Z.of_nat msg_size in if l <? 0 then Err InvalidHeaderLength else Ok l.

Definition read_rest (h : InHeader) (msg_size : nat) (r : Reader) : SrvM (list Z) :=
  n ← lift (remaining_len h msg_size);
  '(buf, _) ← on_mem DecodeMessage (read_exact n r);
  mret buf.

(** *** Replies *)

Definition header_len : Z := Z.of_nat (size_of OutHeader).

(** [debug_assert_eq!(len, w.bytes_written())] *)
Definition assert_written (len : Z) (w : Writer) : SrvM unit :=
  if len =? bytes_written w then mret () else panic.

Definition write_reply (bytes : list Z) (w : Writer) : SrvM Writer := on_mem EncodeMessage (write_all bytes w).

Definition write_opt (bytes : option (list Z)) (w : Writer) : SrvM Writer :=
  match bytes with Some bs => write_reply bs w | None => mret w end.

Definition opt_len (bytes : option (list Z)) : Z :=
  match bytes with Some bs => Z.of_nat (length bs) | None => 0 end.

Definition reply_readdir (len unique : Z) (w : Writer) : SrvM Z :=
  let out := mkOutHeader (as_u32 (header_len + len)) 0 unique in
  _ ← write_reply (as_slice out) w;
  mret (OutHeader_len out).

(** [out] is the bytes of the struct. *)
Definition reply_ok (out data : option (list Z)) (unique : Z) (w : Writer) : SrvM Z :=
  let len := header_len + opt_len out + opt_len data in
  let header := mkOutHeader (as_u32 len) 0 unique in
  w ← write_reply (as_slice header) w;
  w ← write_opt out w;
  w ← write_opt data w;
  _ ← assert_written len w;
  mret (bytes_written w).

Definition reply_error (e : io_error) (unique : Z) (w : Writer) : SrvM Z :=
  let header := mkOutHeader header_len (- default EIO (raw_os_error e)) unique in
  w ← write_reply (as_slice header) w;
  _ ← assert_written (OutHeader_len header) w;
  mret (bytes_written w).

(** [match self.fs.method(..) { Ok(..) => reply_ok(..), Err(e) => reply_error(e, ..) }] *)
Definition answer {A : Type} (op : operation A) (f : A → SrvM Z) (unique : Z) (w : Writer) : SrvM Z :=
  res ← fs_call op;
  match res with inr a => f a | inl e => reply_error e unique w end.

Definition reply_unit (op : operation unit) (unique : Z) (w : Writer) : SrvM Z :=
  answer op (λ _, reply_ok None None unique w) unique w.

Definition reply_entry (op : operation Entry) (unique : Z) (w : Writer) : SrvM Z :=
  answer op (λ e, reply_ok (Some (as_slice (EntryOut_from e))) None unique w) unique w.

Definition reply_attr (op : operation (Attr * Duration)) (unique : Z) (w : Writer) : SrvM Z :=
  answer op (λ '(attr, timeout),
    reply_ok (Some (as_slice (mkAttrOut (as_secs timeout) (subsec_nanos timeout) 0 attr))) None unique w) unique w.

Definition open_out (handle : option Z) (opts : Z) : OpenOut := mkOpenOut (default 0 handle) opts 0.

Definition reply_open (op : operation (option Z * Z)) (unique : Z) (w : Writer) : SrvM Z :=
  answer op (λ '(handle, opts), reply_ok (Some (as_slice (open_out handle opts))) None unique w) unique w.

(** *** Requests on names *)

Definition fuse_lookup (h : InHeader) (r : Reader) (w : Writer) : SrvM Z :=
  buf ← read_rest h 0 r;
  name ← lift (bytes_to_cstr buf);
  reply_entry (FLookup (Context_from h) (InHeader_nodeid h) name) (InHeader_unique h) w.

Definition fuse_forget (h : InHeader) (r : Reader) : SrvM Z :=
  '(b, _) ← decode ForgetIn r;
  _ ← fs_do (FForget (Context_from h) (InHeader_nodeid h) (ForgetIn_nlookup b));
  mret 0.

Definition fuse_getattr (h : InHeader) (r : Reader) (w : Writer) : SrvM Z :=
  '(b, _) ← decode GetattrIn r;
  let handle := if flag (GetattrIn_flags b) GETATTR_FH then Some (GetattrIn_fh b) else None in
  reply_attr (FGetattr (Context_from h) (InHeader_nodeid h) handle) (InHeader_unique h) w.

Definition fuse_setattr (h : InHeader) (r : Reader) (w : Writer) : SrvM Z :=
  '(b, _) ← decode SetattrIn r;
  let handle := if flag (SetattrIn_valid b) FATTR_FH then Some (SetattrIn_fh b) else None in
  let valid := SetattrValid_from_bits_truncate (SetattrIn_valid b) in
  reply_attr (FSetattr (Context_from h) (InHeader_nodeid h) b handle valid) (InHeader_unique h) w.

Definition fuse_readlink (h : InHeader) (w : Writer) : SrvM Z :=
  answer (FReadlink (Context_from h) (InHeader_nodeid h))
    (λ linkname, reply_ok None (Some linkname) (InHeader_unique h) w) (InHeader_unique h) w.

Definition fuse_symlink (h : InHeader) (r : Reader) (w : Writer) : SrvM Z :=
  buf ← read_rest h 0 r;
  '(name, rest) ← lift (next_component buf);
  '(linkname, _) ← lift (next_component rest);
  options ← get_options;
  extensions ← lift (get_extensions options (length name + length linkname) buf);
  linkname ← lift (bytes_to_cstr linkname);
  name ← lift (bytes_to_cstr name);
  reply_entry (FSymlink (Context_from h) linkname (InHeader_nodeid h) name extensions) (InHeader_unique h) w.

(** The name of the node to make, and the extensions after it. *)
Definition name_and_extensions (h : InHeader) (msg_size : nat) (r : Reader) : SrvM (string * Extensions) :=
  buf ← read_rest h msg_size r;
  '(name, _) ← lift (next_component buf);
  options ← get_options;
  extensions ← lift (get_extensions options (length name) buf);
  name ← lift (bytes_to_cstr name);
  mret (name, extensions).

Definition fuse_mknod (h : InHeader) (r : Reader) (w : Writer) : SrvM Z :=
  '(b, r) ← decode MknodIn r;
  '(name, extensions) ← name_and_extensions h (size_of MknodIn) r;
  reply_entry (FMknod (Context_from h) (InHeader_nodeid h) name (MknodIn_mode b) (MknodIn_rdev b)
    (MknodIn_umask b) extensions) (InHeader_unique h) w.

Definition fuse_mkdir (h : InHeader) (r : Reader) (w : Writer) : SrvM Z :=
  '(b, r) ← decode MkdirIn r;
  '(name, extensions) ← name_and_extensions h (size_of MkdirIn) r;
  reply_entry (FMkdir (Context_from h) (InHeader_nodeid h) name (MkdirIn_mode b) (MkdirIn_umask b) extensions)
    (InHeader_unique h) w.

Definition fuse_unlink (h : InHeader) (r : Reader) (w : Writer) : SrvM Z :=
  buf ← read_rest h 0 r;
  name ← lift (bytes_to_cstr buf);
  reply_unit (FUnlink (Context_from h) (InHeader_nodeid h) name) (InHeader_unique h) w.

Definition fuse_rmdir (h : InHeader) (r : Reader) (w : Writer) : SrvM Z :=
  buf ← read_rest h 0 r;
  name ← lift (bytes_to_cstr buf);
  reply_unit (FRmdir (Context_from h) (InHeader_nodeid h) name) (InHeader_unique h) w.

Definition do_rename (h : InHeader) (msg_size : nat) (newdir flags : Z) (r : Reader) (w : Writer) : SrvM Z :=
  buf ← read_rest h msg_size r;
  '(oldname, newname) ← lift (split_at_nul buf);
  oldname ← lift (bytes_to_cstr oldname);
  newname ← lift (bytes_to_cstr newname);
  reply_unit (FRename (Context_from h) (InHeader_nodeid h) oldname newdir newname flags) (InHeader_unique h) w.

Definition fuse_rename (h : InHeader) (r : Reader) (w : Writer) : SrvM Z :=
  '(b, r) ← decode RenameIn r;
  do_rename h (size_of RenameIn) (RenameIn_newdir b) 0 r w.

(** [RENAME_EXCHANGE | RENAME_NOREPLACE | RENAME_WHITEOUT] *)
Definition RENAME_FLAGS : Z := 7.

Definition fuse_rename2 (h : InHeader) (r : Reader) (w : Writer) : SrvM Z :=
  '(b, r) ← decode Rename2In r;
  do_rename h (size_of Rename2In) (Rename2In_newdir b) (Z.land (Rename2In_flags b) RENAME_FLAGS) r w.

Definition fuse_link (h : InHeader) (r : Reader) (w : Writer) : SrvM Z :=
  '(b, r) ← decode LinkIn r;
  buf ← read_rest h (size_of LinkIn) r;
  name ← lift (bytes_to_cstr buf);
  reply_entry (FLink (Context_from h) (LinkIn_oldnodeid b) (InHeader_nodeid h) name) (InHeader_unique h) w.

Definition fuse_create (h : InHeader) (r : Reader) (w : Writer) : SrvM Z :=
  '(b, r) ← decode CreateIn r;
  '(name, extensions) ← name_and_extensions h (size_of CreateIn) r;
  let kill_priv := flag (CreateIn_open_flags b) OPEN_KILL_SUIDGID in
  answer (FCreate (Context_from h) (InHeader_nodeid h) name (CreateIn_mode b) kill_priv (CreateIn_flags b)
            (CreateIn_umask b) extensions)
    (λ '(entry, handle, opts),
      reply_ok (Some (as_slice (EntryOut_from entry))) (Some (as_slice (open_out handle opts)))
        (InHeader_unique h) w) (InHeader_unique h) w.

(** *** Requests on inodes and handles *)

Definition fuse_open (h : InHeader) (r : Reader) (w : Writer) : SrvM Z :=
  '(b, _) ← decode OpenIn r;
  let kill_priv := flag (OpenIn_open_flags b) OPEN_KILL_SUIDGID in
  reply_open (FOpen (Context_from h) (InHeader_nodeid h) kill_priv (OpenIn_flags b)) (InHeader_unique h) w.

(** [w.split_at(size_of::<OutHeader>()).unwrap()] *)
Definition split_header (w : Writer) : SrvM (Writer * Writer) :=
  match split_at header_len w with Ok ws => mret ws | _ => panic end.

(** The data goes behind the room for the header, which is written last. *)
Definition fuse_read (h : InHeader) (r : Reader) (w : Writer) : SrvM Z :=
  '(b, _) ← decode ReadIn r;
  let owner := if flag (ReadIn_read_flags b) READ_LOCKOWNER then Some (ReadIn_lock_owner b) else None in
  '(w, data_writer) ← split_header w;
  answer (FRead (Context_from h) (InHeader_nodeid h) (ReadIn_fh b) (sl_len <$> buffers data_writer)
            (ReadIn_size b) (ReadIn_offset b) owner (ReadIn_flags b))
    (λ data,
      let data := take (length (addrs data_writer)) data in
      _ ← write_reply data data_writer;
      let out := mkOutHeader (as_u32 (header_len + Z.of_nat (length data))) 0 (InHeader_unique h) in
      _ ← write_reply (as_slice out) w;
      mret (OutHeader_len out)) (InHeader_unique h) w.

Definition fuse_write (h : InHeader) (r : Reader) (w : Writer) : SrvM Z :=
  '(b, r) ← decode WriteIn r;
  let owner := if flag (WriteIn_write_flags b) WRITE_LOCKOWNER then Some (WriteIn_lock_owner b) else None in
  let delayed_write := flag (WriteIn_write_flags b) WRITE_CACHE in
  let kill_priv := flag (WriteIn_write_flags b) WRITE_KILL_PRIV in
  data ← gets (λ s, load (srv_mem s) <$> buffers r);
  answer (FWrite (Context_from h) (InHeader_nodeid h) (WriteIn_fh b) data (WriteIn_size b) (WriteIn_offset b)
            owner delayed_write kill_priv (WriteIn_flags b))
    (λ count, reply_ok (Some (as_slice (mkWriteOut (as_u32 count) 0))) None (InHeader_unique h) w)
    (InHeader_unique h) w.

Definition fuse_statfs (h : InHeader) (w : Writer) : SrvM Z :=
  answer (FStatfs (Context_from h) (InHeader_nodeid h))
    (λ st, reply_ok (Some (as_slice (Kstatfs_from st))) None (InHeader_unique h) w) (InHeader_unique h) w.

Definition fuse_release (h : InHeader) (r : Reader) (w : Writer) : SrvM Z :=
  '(b, _) ← decode ReleaseIn r;
  let flush := flag (ReleaseIn_release_flags b) RELEASE_FLUSH in
  let flock_release := flag (ReleaseIn_release_flags b) RELEASE_FLOCK_UNLOCK in
  let lock_owner := if flush || flock_release then Some (ReleaseIn_lock_owner b) else None in
  reply_unit (FRelease (Context_from h) (InHeader_nodeid h) (ReleaseIn_flags b) (ReleaseIn_fh b) flush
    flock_release lock_owner) (InHeader_unique h) w.

Definition fuse_fsync (h : InHeader) (r : Reader) (w : Writer) : SrvM Z :=
  '(b, _) ← decode FsyncIn r;
  reply_unit (FFsync (Context_from h) (InHeader_nodeid h) (flag (FsyncIn_fsync_flags b) 1) (FsyncIn_fh b))
    (InHeader_unique h) w.

(** The message of [setxattr], in the old layout or the extended one, with its
    size. *)
Definition decode_setxattr (r : Reader) : SrvM (SetxattrIn * nat * Reader) :=
  options ← get_options;
  if contains options FsOptions.SETXATTR_EXT then
    '(b, r) ← decode SetxattrIn r; mret (b, size_of SetxattrIn, r)
  else
    '(b, r) ← decode SetxattrInCompat r;
    mret (mkSetxattrIn (SetxattrInCompat_size b) (SetxattrInCompat_flags b) 0 0, size_of SetxattrInCompat, r).

Definition fuse_setxattr (h : InHeader) (r : Reader) (w : Writer) : SrvM Z :=
  '(b, setxattrin_size, r) ← decode_setxattr r;
  buf ← read_rest h setxattrin_size r;
  '(name, value) ← lift (split_at_nul buf);
  if negb (SetxattrIn_size b =? as_u32 (Z.of_nat (length value)))
  then throw (InvalidXattrSize (SetxattrIn_size b) (Z.of_nat (length value)))
  else
    name ← lift (bytes_to_cstr name);
    reply_unit (FSetxattr (Context_from h) (InHeader_nodeid h) name value (SetxattrIn_flags b)
      (SetxattrFlags_from_bits_truncate (SetxattrIn_setxattr_flags b))) (InHeader_unique h) w.

Definition fuse_getxattr (h : InHeader) (r : Reader) (w : Writer) : SrvM Z :=
  '(b, r) ← decode GetxattrIn r;
  buf ← read_rest h (size_of GetxattrIn) r;
  if MAX_BUFFER_SIZE <? GetxattrIn_size b then reply_error (os_error ENOMEM) (InHeader_unique h) w
  else
    name ← lift (bytes_to_cstr buf);
    answer (FGetxattr (Context_from h) (InHeader_nodeid h) name (GetxattrIn_size b))
      (λ reply, match reply with
                | Value v => reply_ok None (Some v) (InHeader_unique h) w
                | XattrCount count => reply_ok (Some (as_slice (mkGetxattrOut count 0))) None (InHeader_unique h) w
                end) (InHeader_unique h) w.

Definition fuse_listxattr (h : InHeader) (r : Reader) (w : Writer) : SrvM Z :=
  '(b, _) ← decode GetxattrIn r;
  if MAX_BUFFER_SIZE <? GetxattrIn_size b then reply_error (os_error ENOMEM) (InHeader_unique h) w
  else
    answer (FListxattr (Context_from h) (InHeader_nodeid h) (GetxattrIn_size b))
      (λ reply, match reply with
                | Names v => reply_ok None (Some v) (InHeader_unique h) w
                | NamesCount count => reply_ok (Some (as_slice (mkGetxattrOut count 0))) None (InHeader_unique h) w
                end) (InHeader_unique h) w.

Definition fuse_removexattr (h : InHeader) (r : Reader) (w : Writer) : SrvM Z :=
  buf ← read_rest h 0 r;
  name ← lift (bytes_to_cstr buf);
  reply_unit (FRemovexattr (Context_from h) (InHeader_nodeid h) name) (InHeader_unique h) w.

Definition fuse_flush (h : InHeader) (r : Reader) (w : Writer) : SrvM Z :=
  '(b, _) ← decode FlushIn r;
  reply_unit (FFlush (Context_from h) (InHeader_nodeid h) (FlushIn_fh b) (FlushIn_lock_owner b))
    (InHeader_unique h) w.

Definition fuse_opendir (h : InHeader) (r : Reader) (w : Writer) : SrvM Z :=
  '(b, _) ← decode OpenIn r;
  reply_open (FOpendir (Context_from h) (InHeader_nodeid h) (OpenIn_flags b)) (InHeader_unique h) w.

Definition fuse_releasedir (h : InHeader) (r : Reader) (w : Writer) : SrvM Z :=
  '(b, _) ← decode ReleaseIn r;
  reply_unit (FReleasedir (Context_from h) (InHeader_nodeid h) (ReleaseIn_flags b) (ReleaseIn_fh b))
    (InHeader_unique h) w.

Definition fuse_fsyncdir (h : InHeader) (r : Reader) (w : Writer) : SrvM Z :=
  '(b, _) ← decode FsyncIn r;
  reply_unit (FFsyncdir (Context_from h) (InHeader_nodeid h) (flag (FsyncIn_fsync_flags b) 1) (FsyncIn_fh b))
    (InHeader_unique h) w.

Definition fuse_access (h : InHeader) (r : Reader) (w : Writer) : SrvM Z :=
  '(b, _) ← decode AccessIn r;
  reply_unit (FAccess (Context_from h) (InHeader_nodeid h) (AccessIn_mask b)) (InHeader_unique h) w.

(** [getlk], [setlk], [setlkw], [bmap], [ioctl], [poll] and [notify_reply]: only
    an error is answered. *)
Definition reply_if_err (op : operation unit) (h : InHeader) (w : Writer) : SrvM Z :=
  answer op (λ _, mret 0) (InHeader_unique h) w.

Definition fuse_destroy : SrvM Z := _ ← fs_do FDestroy; _ ← set_options 0; mret 0.

(** [for _ in 0..count { requests.push(r.read_obj::<ForgetOne>()?) }] *)
Fixpoint read_forgets (count : nat) (r : Reader) : SrvM (list (Z * Z)) :=
  match count with
  | O => mret []
  | Datatypes.S count' =>
      '(f, r) ← decode ForgetOne r;
      rest ← read_forgets count' r;
      mret ((ForgetOne_nodeid f, ForgetOne_nlookup f) :: rest)
  end.

(** The product of the count and the size does not overflow a [usize]. *)
Definition fuse_batch_forget (h : InHeader) (r : Reader) (w : Writer) : SrvM Z :=
  '(b, r) ← decode BatchForgetIn r;
  if MAX_BUFFER_SIZE <? BatchForgetIn_count b * Z.of_nat (size_of ForgetOne)
  then reply_error (os_error ENOMEM) (InHeader_unique h) w
  else
    requests ← read_forgets (Z.to_nat (BatchForgetIn_count b)) r;
    _ ← fs_do (FBatchForget (Context_from h) requests);
    mret 0.

Definition fuse_fallocate (h : InHeader) (r : Reader) (w : Writer) : SrvM Z :=
  '(b, _) ← decode FallocateIn r;
  reply_unit (FFallocate (Context_from h) (InHeader_nodeid h) (FallocateIn_fh b) (FallocateIn_mode b)
    (FallocateIn_offset b) (FallocateIn_length b)) (InHeader_unique h) w.

Definition fuse_lseek (h : InHeader) (r : Reader) (w : Writer) : SrvM Z :=
  '(b, _) ← decode LseekIn r;
  answer (FLseek (Context_from h) (InHeader_nodeid h) (LseekIn_fh b) (LseekIn_offset b) (LseekIn_whence b))
    (λ offset, reply_ok (Some (as_slice (mkLseekOut offset))) None (InHeader_unique h) w) (InHeader_unique h) w.

Definition fuse_copyfilerange (h : InHeader) (r : Reader) (w : Writer) : SrvM Z :=
  '(b, _) ← decode CopyfilerangeIn r;
  answer (FCopyfilerange (Context_from h) (InHeader_nodeid h) (CopyfilerangeIn_fh_in b) (CopyfilerangeIn_off_in b)
            (CopyfilerangeIn_nodeid_out b) (CopyfilerangeIn_fh_out b) (CopyfilerangeIn_off_out b)
            (CopyfilerangeIn_len b) (CopyfilerangeIn_flags b))
    (λ count, reply_ok (Some (as_slice (mkWriteOut (as_u32 count) 0))) None (InHeader_unique h) w)
    (InHeader_unique h) w.

Definition fuse_syncfs (h : InHeader) (w : Writer) : SrvM Z :=
  reply_unit (FSyncfs (Context_from h) (InHeader_nodeid h)) (InHeader_unique h) w.

Definition fuse_tmpfile (h : InHeader) (w : Writer) : SrvM Z :=
  answer FTmpfile (λ _, panic) (InHeader_unique h) w.

(** *** Directories *)

Definition DIRENT_PADDING : list Z := replicate 8 0.

(** [l & !7] *)
Definition padded (l : Z) : Z := Z.land (l + 7) (Z.lnot 7).

(** Returns 0, and writes nothing, when the entry does not fit into [max]. *)
Definition add_dirent (cursor : Writer) (max : Z) (d : DirEntry) (entry : option Entry) : MemM (Z * Writer) :=
  let name := bytes_of_string (de_name d) in
  let name_len := Z.of_nat (length name) in
  if 2 ^ 32 <=? name_len then throw (os_error EOVERFLOW)
  else
    let dirent_len := Z.of_nat (size_of Dirent) + name_len in
    let padded_dirent_len := padded dirent_len in
    let total_len :=
      match entry with Some _ => padded_dirent_len + Z.of_nat (size_of EntryOut) | None => padded_dirent_len end in
    if max <? total_len then mret (0, cursor)
    else
      cursor ← match entry with
               | Some e => write_all (as_slice (EntryOut_from e)) cursor
               | None => mret cursor
               end;
      let dirent := mkDirent (de_ino d) (de_offset d) (as_u32 name_len) (de_type d) in
      cursor ← write_all (as_slice dirent) cursor;
      cursor ← write_all name cursor;
      let padding := padded_dirent_len - dirent_len in
      cursor ← (if 0 <? padding then write_all (take (Z.to_nat padding) DIRENT_PADDING) cursor else mret cursor);
      mret (total_len, cursor).

(** A step of [add_dirent] in the server, its error as a value. *)
Definition add_entry (cursor : Writer) (max : Z) (d : DirEntry) (entry : option Entry)
    : SrvM (io_error + Z * Writer) := λ s,
  let '(r, mm) := add_dirent cursor max d entry (srv_mem s) in
  (match r with Ok a => Ok (inr a) | Err e => Ok (inl e) | Panic => Panic end,
   mkServer (srv_fs s) (srv_options s) mm).

(** [while let Some(dirent) = entries.next()] of [readdir]. *)
Fixpoint readdir_loop (size total_written : Z) (cursor : Writer) (entries : list DirEntry)
    : SrvM (io_error + Z) :=
  match entries with
  | [] => mret (inr total_written)
  | d :: entries' =>
      res ← add_entry cursor (Z.max 0 (size - total_written)) d None;
      match res with
      | inl e => mret (inl e)
      | inr (n, cursor) =>
          if n =? 0 then mret (inr total_written)
          else readdir_loop size (total_written + n) cursor entries'
      end
  end.

Definition CURRENT_DIR_CSTR : string := ".".
Definition PARENT_DIR_CSTR : string := "..".

(** The entry of a name: [.] and [..] are not looked up. *)
Definition handle_dirent (h : InHeader) (d : DirEntry) : SrvM (io_error + Entry) :=
  if decide (de_name d = CURRENT_DIR_CSTR ∨ de_name d = PARENT_DIR_CSTR) then
    let attr := mkAttr (de_ino d) 0 0 0 0 0 0 0 0 (as_u32 (Z.shiftl (de_type d) 12)) 0 0 0 0 0 0 in
    mret (inr (mkFuseEntry 0 0 attr (mkDuration 0 0) (mkDuration 0 0)))
  else fs_call (FLookup (Context_from h) (InHeader_nodeid h) (de_name d)).

Definition undo_lookup (h : InHeader) (e : Entry) : SrvM unit :=
  fs_do (FForget (Context_from h) (entry_inode e) 1).

(** The loop of [readdirplus]: an entry that is not sent has its lookup undone;
    an error is only reported when nothing was written before it. *)
Fixpoint readdirplus_loop (h : InHeader) (size total_written : Z) (cursor : Writer) (entries : list DirEntry)
    : SrvM (io_error + Z) :=
  match entries with
  | [] => mret (inr total_written)
  | d :: entries' =>
      let stop e := mret (if total_written =? 0 then inl e else inr total_written) in
      res ← handle_dirent h d;
      match res with
      | inl e => stop e
      | inr entry =>
          res ← add_entry cursor (Z.max 0 (size - total_written)) d (Some entry);
          match res with
          | inl e => _ ← undo_lookup h entry; stop e
          | inr (n, cursor) =>
              if n =? 0 then _ ← undo_lookup h entry; mret (inr total_written)
              else readdirplus_loop h size (total_written + n) cursor entries'
          end
      end
  end.

(** The frame of [readdir] and [readdirplus]. *)
Definition list_directory (loop : Z → Writer → list DirEntry → SrvM (io_error + Z))
    (h : InHeader) (r : Reader) (w : Writer) : SrvM Z :=
  '(b, _) ← decode ReadIn r;
  let size := ReadIn_size b in
  let unique := InHeader_unique h in
  if MAX_BUFFER_SIZE <? size then reply_error (os_error ENOMEM) unique w
  else if available_bytes w <? size then reply_error (os_error ENOMEM) unique w
  else
    '(w, cursor) ← split_header w;
    answer (FReaddir (Context_from h) (InHeader_nodeid h) (ReadIn_fh b) size (ReadIn_offset b))
      (λ entries,
        result ← loop size cursor entries;
        match result with
        | inr total_written => reply_readdir total_written unique w
        | inl e => reply_error e unique w
        end) unique w.

Definition fuse_readdir (h : InHeader) : Reader → Writer → SrvM Z :=
  list_directory (λ size, readdir_loop size 0) h.
Definition fuse_readdirplus (h : InHeader) : Reader → Writer → SrvM Z :=
  list_directory (λ size, readdirplus_loop h size 0) h.

(** *** Negotiation *)

Definition SUPPORTED : Z :=
  foldr Z.lor 0
    [FsOptions.ASYNC_READ; FsOptions.PARALLEL_DIROPS; FsOptions.BIG_WRITES; FsOptions.AUTO_INVAL_DATA;
     FsOptions.ASYNC_DIO; FsOptions.HAS_IOCTL_DIR; FsOptions.ATOMIC_O_TRUNC; FsOptions.MAX_PAGES;
     FsOptions.SUBMOUNTS; FsOptions.INIT_EXT; FsOptions.CREATE_SUPP_GROUP; FsOptions.ALLOW_IDMAP].

Definition InitOut_version : InitOut := mkInitOut KERNEL_VERSION KERNEL_MINOR_VERSION 0 0 0 0 0 0 0 0 0.

(** [page_size] is [sysconf(_SC_PAGESIZE)]. *)
Definition fuse_init (page_size : Z) (h : InHeader) (r : Reader) (w : Writer) : SrvM Z :=
  '(b, r) ← decode InitInCompat r;
  let unique := InHeader_unique h in
  let options := FsOptions.from_bits_truncate (InitInCompat_flags b) in
  flags2 ← (if contains options FsOptions.INIT_EXT then '(e, _) ← decode InitInExt r; mret (InitInExt_flags2 e)
            else mret 0);
  if InitInCompat_major b <? KERNEL_VERSION then reply_error (os_error EPROTO) unique w
  else if KERNEL_VERSION <? InitInCompat_major b then reply_ok (Some (as_slice InitOut_version)) None unique w
  else if InitInCompat_minor b <? MIN_KERNEL_MINOR_VERSION then reply_error (os_error EPROTO) unique w
  else
    let flags_64 := Z.lor (Z.shiftl flags2 32) (InitInCompat_flags b) in
    let capable := FsOptions.from_bits_truncate flags_64 in
    if bool_decide (in_u32 page_size ∧ page_size ≠ 0) then
      let max_pages := (MAX_BUFFER_SIZE - 1) / page_size + 1 in
      answer (FInit capable)
        (λ want,
          let enabled := Z.land capable (Z.lor want SUPPORTED) in
          _ ← set_options enabled;
          if 2 ^ 16 <=? max_pages then panic
          else
            let out := mkInitOut KERNEL_VERSION KERNEL_MINOR_VERSION (InitInCompat_max_readahead b)
              (as_u32 enabled) 65535 (65535 / 4 * 3) MAX_BUFFER_SIZE 1 max_pages 0 (as_u32 (Z.shiftr enabled 32)) in
            reply_ok (Some (as_slice out)) None unique w) unique w
    else panic.

(** *** Dispatch *)

Definition dispatch_opcode (page_size : Z) (opcode : Opcode) (h : InHeader) (r : Reader) (w : Writer) : SrvM Z :=
  match opcode with
  | Op_Lookup => fuse_lookup h r w
  | Op_Forget => fuse_forget h r
  | Op_Getattr => fuse_getattr h r w
  | Op_Setattr => fuse_setattr h r w
  | Op_Readlink => fuse_readlink h w
  | Op_Symlink => fuse_symlink h r w
  | Op_Mknod => fuse_mknod h r w
  | Op_Mkdir => fuse_mkdir h r w
  | Op_Unlink => fuse_unlink h r w
  | Op_Rmdir => fuse_rmdir h r w
  | Op_Rename => fuse_rename h r w
  | Op_Link => fuse_link h r w
  | Op_Open => fuse_open h r w
  | Op_Read => fuse_read h r w
  | Op_Write => fuse_write h r w
  | Op_Statfs => fuse_statfs h w
  | Op_Release => fuse_release h r w
  | Op_Fsync => fuse_fsync h r w
  | Op_Setxattr => fuse_setxattr h r w
  | Op_Getxattr => fuse_getxattr h r w
  | Op_Listxattr => fuse_listxattr h r w
  | Op_Removexattr => fuse_removexattr h r w
  | Op_Flush => fuse_flush h r w
  | Op_Init => fuse_init page_size h r w
  | Op_Opendir => fuse_opendir h r w
  | Op_Readdir => fuse_readdir h r w
  | Op_Releasedir => fuse_releasedir h r w
  | Op_Fsyncdir => fuse_fsyncdir h r w
  | Op_Getlk => reply_if_err FGetlk h w
  | Op_Setlk => reply_if_err FSetlk h w
  | Op_Setlkw => reply_if_err FSetlkw h w
  | Op_Access => fuse_access h r w
  | Op_Create => fuse_create h r w
  | Op_Interrupt => mret 0
  | Op_Bmap => reply_if_err FBmap h w
  | Op_Destroy => fuse_destroy
  | Op_Ioctl => reply_if_err FIoctl h w
  | Op_Poll => reply_if_err FPoll h w
  | Op_NotifyReply => reply_if_err FNotifyReply h w
  | Op_BatchForget => fuse_batch_forget h r w
  | Op_Fallocate => fuse_fallocate h r w
  | Op_Readdirplus => fuse_readdirplus h r w
  | Op_Rename2 => fuse_rename2 h r w
  | Op_Lseek => fuse_lseek h r w
  | Op_CopyFileRange => fuse_copyfilerange h r w
  | Op_SetupMapping | Op_RemoveMapping => reply_error (os_error ENOSYS) (InHeader_unique h) w
  | Op_Syncfs => fuse_syncfs h w
  | Op_TmpFile => fuse_tmpfile h w
  end.

Definition handle_message (page_size : Z) (r : Reader) (w : Writer) : SrvM Z :=
  '(in_header, r) ← decode InHeader r;
  if MAX_BUFFER_SIZE + FUSE_BUFFER_HEADER_SIZE <? InHeader_len in_header
  then reply_error (os_error ENOMEM) (InHeader_unique in_header) w
  else
    match Opcode_try_from (InHeader_opcode in_header) with
    | Some opcode => dispatch_opcode page_size opcode in_header r w
    | None => reply_error (os_error ENOSYS) (InHeader_unique in_header) w
    end.

End server.
