(* ===== verification/FuseFacts.v ===== *)
(** * What the FUSE server sends

    The reply of every request: where it stands in guest memory, that it names
    the request, and that nothing else of the guest memory is written. *)

From stdpp Require Import base gmap strings list.
From S2P Require Import Prelude Fuse FileSystem Descriptors FuseServer.
#[local] Open Scope Z_scope.

(** ** Programs that write only the buffers for the reply *)

Lemma Reader_read_same n r mm : (Reader_read n r mm).2 = mm.
Proof.
  unfold Reader_read, consume. destruct (gather n 0 (buffers r)); [done|]. unfold mbind, stm_bind.
  by destruct (_ <=? _) in |- *.
Qed.

Lemma read_exact_same n r mm : (read_exact n r mm).2 = mm.
Proof.
  unfold read_exact. generalize (Z.to_nat n) as fuel. intros fuel. revert n r.
  induction fuel as [|fuel IH]; intros n r; simpl; destruct (n =? 0); try done.
  unfold mbind, stm_bind. pose proof (Reader_read_same n r mm) as Hr.
  destruct (Reader_read n r mm) as [[[[bs k] r']| |] mm']; simpl in *; subst; [|done|done].
  destruct (k =? 0); [done|]. specialize (IH (n - k) r'). by destruct (read_loop _ _ _ _) as [[[]| |] ?].
Qed.

(** ** Directory entries *)

Lemma padded_spec l : padded l = 8 * ((l + 7) / 8).
Proof.
  unfold padded. rewrite <- Z.ldiff_land. change 7 with (Z.ones 3) at 2. rewrite Z.ldiff_ones_r by done.
  rewrite Z.shiftr_div_pow2, Z.shiftl_mul_pow2 by done. change (2 ^ 3) with 8. lia.
Qed.

Lemma padded_bounds l : l ≤ padded l < l + 8 ∧ padded l mod 8 = 0.
Proof.
  rewrite padded_spec. split; [pose proof (Z.div_mod (l + 7) 8); pose proof (Z.mod_pos_bound (l + 7) 8); lia|].
  rewrite Z.mul_comm. apply Z.mod_mul. done.
Qed.

(** The bytes of an entry: the attributes for [readdirplus], the record, the
    name and the padding. *)
Definition dirent_chunks (d : DirEntry) (entry : option Entry) : list (list Z) :=
  let name := bytes_of_string (de_name d) in
  let len := Z.of_nat (24 + length name) in
  match entry with Some e => [as_slice (EntryOut_from e)] | None => [] end ++
  [as_slice (mkDirent (de_ino d) (de_offset d) (as_u32 (Z.of_nat (length name))) (de_type d)); name;
   take (Z.to_nat (padded len - len)) DIRENT_PADDING].
Definition dirent_bytes (d : DirEntry) (entry : option Entry) : list Z := concat (dirent_chunks d entry).

Lemma length_dirent_bytes d entry :
  Z.of_nat (length (dirent_bytes d entry)) =
  padded (24 + Z.of_nat (String.length (de_name d))) + match entry with Some _ => 128 | None => 0 end.
Proof.
  unfold dirent_bytes, dirent_chunks. rewrite <- length_bytes_of_string. set (name := bytes_of_string _). cbv zeta.
  pose proof (padded_bounds (Z.of_nat (24 + length name))) as [Hp _].
  replace (Z.of_nat (24 + length name)) with (24 + Z.of_nat (length name)) in * by lia.
  destruct entry as [e|]; cbn [concat app]; rewrite !length_app, !length_as_slice, length_take;
    change (size_of Dirent) with 24%nat; change (length DIRENT_PADDING) with 8%nat;
    change (size_of EntryOut) with 128%nat; change (length []) with 0%nat; lia.
Qed.

Lemma add_dirent_spec cursor max d entry m :
  cursor_ok cursor → Z.of_nat (String.length (de_name d)) < 2 ^ 32 →
  let n := Z.of_nat (length (dirent_bytes d entry)) in
  add_dirent cursor max d entry m =
  if max <? n then (Ok (0, cursor), m) else (w ← write_chunks (dirent_chunks d entry) cursor; mret (n, w)) m.
Proof.
  intros Hok Hname n. unfold add_dirent. rewrite length_bytes_of_string.
  rewrite (proj2 (Z.leb_gt (2 ^ 32) _)) by done. change (size_of Dirent) with 24%nat. cbv zeta.
  assert (match entry with
          | Some _ => padded (Z.of_nat 24 + Z.of_nat (String.length (de_name d))) + Z.of_nat (size_of EntryOut)
          | None => padded (Z.of_nat 24 + Z.of_nat (String.length (de_name d)))
          end = n) as ->.
  { subst n. rewrite length_dirent_bytes. change (Z.of_nat 24) with 24. change (Z.of_nat (size_of EntryOut)) with 128.
    destruct entry; lia. }
  destruct (max <? n); [done|]. unfold dirent_chunks. rewrite length_bytes_of_string. cbv zeta.
  pose proof (padded_bounds (Z.of_nat (24 + String.length (de_name d)))) as [Hp _].
  replace (Z.of_nat (24 + String.length (de_name d))) with (Z.of_nat 24 + Z.of_nat (String.length (de_name d))) in * by lia.
  set (padding := padded _ - _) in *.
  assert (0 < padding ∨ padding = 0) as Hpad by lia.
  destruct entry as [e|]; cbn [app write_chunks]; unfold mret, stm_ret, mbind, stm_bind;
    (destruct Hpad as [Hpos| ->]; [rewrite (proj2 (Z.ltb_lt 0 padding) Hpos)|]);
    repeat (match goal with |- context [write_all ?b ?w' ?mm] => destruct (write_all b w' mm) as [[?| |] ?]; try done end);
    done.
Qed.

Section server.
Context {S : Type} (fs : FileSystem S).

Definition with_mem (mm : mem) (s : Server S) : Server S := mkServer (srv_fs s) (srv_options s) mm.

(** Whatever [m] returns, the guest memory is the same outside [ads]; a value
    it returns satisfies [Q] together with the memory. *)
Definition within {A : Type} (ads : list Z) (Q : A → mem → Prop) (m : stm (Server S) FuseError A) : Prop :=
  ∀ s, (∀ a, a ∉ ads → srv_mem (m s).2 !! a = srv_mem s !! a) ∧
       (∀ a s', m s = (Ok a, s') → Q a (srv_mem s')).

Abbreviation anything := (λ _ _, True).

Lemma within_bind {A B : Type} ads (P : A → mem → Prop) (Q : B → mem → Prop) (m : stm (Server S) FuseError A) (f : A → stm (Server S) FuseError B) :
  within ads P m → (∀ a, within ads Q (f a)) → within ads Q (m ≫= f).
Proof.
  intros Hm Hf s. destruct (Hm s) as [Hm1 _]. unfold mbind, stm_bind.
  destruct (m s) as [[a|e|] s1]; simpl in *; [|by split..]. destruct (Hf a s1) as [Hf1 Hf2].
  split; [|done]. intros x Hx. by rewrite Hf1, Hm1.
Qed.

(** The continuation may use what holds of the result. *)
Lemma within_bind_fact {A B : Type} ads (P : A → Prop) (Q : B → mem → Prop) (m : stm (Server S) FuseError A) (f : A → stm (Server S) FuseError B) :
  within ads (λ a _, P a) m → (∀ a, P a → within ads Q (f a)) → within ads Q (m ≫= f).
Proof.
  intros Hm Hf s. destruct (Hm s) as [Hm1 Hm2]. unfold mbind, stm_bind.
  destruct (m s) as [[a|e|] s1] eqn:E; simpl in *; [|by split..].
  destruct (Hf a (Hm2 a s1 eq_refl) s1) as [Hf1 Hf2]. split; [|done]. intros x Hx. by rewrite Hf1, Hm1.
Qed.

Lemma within_pure {A : Type} ads (m : stm (Server S) FuseError A) :
  (∀ s, srv_mem (m s).2 = srv_mem s) → within ads anything m.
Proof. intros Hm s. split; [|done]. intros a _. by rewrite Hm. Qed.

Lemma within_throw {A : Type} ads (Q : A → mem → Prop) e : within ads Q (throw e).
Proof. by intros s. Qed.
Lemma within_panic {A : Type} ads (Q : A → mem → Prop) : within ads Q panic.
Proof. by intros s. Qed.
Lemma within_ret {A : Type} ads (Q : A → mem → Prop) (a : A) : (∀ mm, Q a mm) → within ads Q (mret a).
Proof. intros HQ s. split; [done|]. by intros ? ? [= <- <-]. Qed.

Lemma within_lift {A : Type} ads (o : outcome FuseError A) : within ads anything (lift o).
Proof. by apply within_pure. Qed.
Lemma within_gets {A : Type} ads (f : Server S → A) : within ads anything (gets f).
Proof. by apply within_pure. Qed.
Lemma within_fs_call {A : Type} ads (op : operation A) : within ads anything (fs_call fs op).
Proof. apply within_pure. intros s. unfold fs_call. by destruct (fs A op (srv_fs s)). Qed.
Lemma within_fs_do ads (op : operation unit) : within ads anything (fs_do fs op).
Proof. eapply within_bind; [apply within_fs_call|]. intros ?. by apply within_ret. Qed.
Lemma within_set_options ads o : within ads anything (set_options (S := S) o).
Proof. by apply within_pure. Qed.

Lemma within_read {A : Type} ads (m : MemM A) (wrap : io_error → FuseError) :
  (∀ mm, (m mm).2 = mm) → within ads anything (on_mem (S := S) wrap m).
Proof.
  intros Hm. apply within_pure. intros s. unfold on_mem. specialize (Hm (srv_mem s)).
  by destruct (m (srv_mem s)).
Qed.

Lemma read_obj_same {A : Type} `{ByteValued A} r mm : (read_obj (A := A) r mm).2 = mm.
Proof.
  unfold read_obj, mbind, stm_bind. pose proof (read_exact_same (Z.of_nat (size_of A)) r mm) as Hr.
  by destruct (read_exact _ r mm) as [[[]| |] ?].
Qed.

Lemma within_decode ads (A : Type) `{ByteValued A} r : within ads anything (decode (S := S) A r).
Proof. apply within_read. apply read_obj_same. Qed.

Lemma within_read_rest ads h n r : within ads anything (read_rest (S := S) h n r).
Proof.
  eapply within_bind; [apply within_lift|]. intros l.
  eapply within_bind; [apply within_read, read_exact_same|]. intros []. by apply within_ret.
Qed.

(** *** Replies *)

(** The reply of [n] bytes to the request [unique] in the buffers [ads]: a
    header with its length, followed by the data; an error has no data. *)
Definition reply_at (unique : Z) (ads : list Z) (n : Z) (mm : mem) : Prop :=
  header_len ≤ n ≤ Z.of_nat (length ads) ∧
  ∃ err payload, load_at mm (take (Z.to_nat n) ads) = as_slice (mkOutHeader n err unique) ++ payload ∧
    (err ≠ 0 → payload = []).

Section replies.
Context (w : Writer) (Hw : cursor_ok w) (Hfresh : bytes_written w = 0).
Context (Hnd : NoDup (addrs w)) (Hroom : Z.of_nat (length (addrs w)) < 2 ^ 32).

(** A reply of [header ++ payload] in the buffers. *)
Lemma stored_reply unique err payload mm :
  (err ≠ 0 → payload = []) →
  let total := as_slice (mkOutHeader (header_len + Z.of_nat (length payload)) err unique) ++ payload in
  (length total ≤ length (addrs w))%nat →
  reply_at unique (addrs w) (Z.of_nat (length total)) (store_at (take (length total) (addrs w)) total mm).
Proof.
  intros Herr total Hl. unfold reply_at.
  assert (Z.of_nat (length total) = header_len + Z.of_nat (length payload)) as Hlen.
  { subst total. rewrite length_app, length_as_slice. unfold header_len. lia. }
  split; [unfold header_len in *; lia|]. exists err, payload. split; [|done].
  rewrite Hlen at 2. rewrite Nat2Z.id. change (as_slice _ ++ payload) with total.
  apply load_store; [|rewrite length_take; lia]. eapply sublist_NoDup; [exact Hnd | apply sublist_take].
Qed.

Lemma write_chunks_reply unique err payload chunks (f : Writer → stm (Server S) FuseError Z) :
  (err ≠ 0 → payload = []) → concat chunks = payload →
  (∀ w' s, advanced (16 + length payload) w w' → f w' s = (Ok (header_len + Z.of_nat (length payload)), s)) →
  within (addrs w) (reply_at unique (addrs w))
    (w' ← on_mem EncodeMessage (write_chunks
            (as_slice (mkOutHeader (as_u32 (header_len + Z.of_nat (length payload))) err unique) :: chunks) w);
     f w').
Proof.
  intros Herr Hc Hf s. set (header := mkOutHeader _ _ _). unfold on_mem, mbind, stm_bind.
  pose proof (write_chunks_spec (as_slice header :: chunks) w (srv_mem s) Hw) as Hs.
  change (concat (as_slice header :: chunks)) with (as_slice header ++ concat chunks) in Hs. cbv zeta in Hs.
  rewrite Hc, length_app, length_as_slice in Hs. change (size_of OutHeader) with 16%nat in Hs.
  destruct (decide _) as [Hl|_].
  2: { destruct Hs as (mm & -> & Hmm). by split. }
  destruct Hs as (w' & -> & Hadv). simpl map_err. cbv iota. rewrite (Hf w' _ Hadv).
  assert (as_u32 (header_len + Z.of_nat (length payload)) = header_len + Z.of_nat (length payload)) as Hu.
  { apply as_u32_small. unfold in_width. change header_len with 16. lia. }
  split.
  - intros a Ha. apply store_at_outside. intros Hin. apply Ha. by eapply subseteq_take.
  - intros a s' [= <- <-]. cbn [srv_mem]. subst header. rewrite Hu.
    replace (header_len + Z.of_nat (length payload))
      with (Z.of_nat (length (as_slice (mkOutHeader (header_len + Z.of_nat (length payload)) err unique) ++ payload))) at 1
      by (rewrite length_app, length_as_slice; unfold header_len; lia).
    pose proof (stored_reply unique err payload (srv_mem s) Herr) as Hr. cbv zeta in Hr.
    rewrite length_app, length_as_slice in Hr |- *. by apply Hr.
Qed.

Definition chunk (bytes : option (list Z)) : list (list Z) := match bytes with Some bs => [bs] | None => [] end.

Lemma reply_ok_chunks out data unique s :
  reply_ok (S := S) out data unique w s =
  (w' ← on_mem EncodeMessage (write_chunks
          (as_slice (mkOutHeader (as_u32 (header_len + opt_len out + opt_len data)) 0 unique)
             :: chunk out ++ chunk data) w);
   _ ← assert_written (header_len + opt_len out + opt_len data) w';
   mret (bytes_written w')) s.
Proof.
  unfold reply_ok. cbv zeta. destruct out as [out|], data as [data|]; cbn [opt_len chunk write_opt app];
    unfold write_reply, on_mem, mbind, stm_bind; cbn [write_chunks]; unfold mret, stm_ret, mbind, stm_bind;
    repeat (cbn [srv_mem srv_fs srv_options map_err];
            match goal with |- context [write_all ?b ?w' ?m] => destruct (write_all b w' m) as [[?| |] ?]; try done end);
    done.
Qed.

Lemma concat_options (out data : option (list Z)) :
  concat (chunk out ++ chunk data) = default [] out ++ default [] data.
Proof. destruct out, data; simpl; by rewrite ?app_nil_r. Qed.

Lemma within_ext {A : Type} ads (Q : A → mem → Prop) (m m' : stm (Server S) FuseError A) :
  (∀ s, m s = m' s) → within ads Q m' → within ads Q m.
Proof. intros Heq Hm s. rewrite Heq. apply Hm. Qed.

Lemma assert_ok (n : nat) (w' : Writer) (s : Server S) :
  advanced n w w' → (_ ← assert_written (Z.of_nat n) w'; mret (bytes_written w')) s = (Ok (Z.of_nat n), s).
Proof.
  intros (_ & _ & Hb). unfold assert_written, bytes_written in *. rewrite Hb, Hfresh, Z.add_0_l, Z.eqb_refl. done.
Qed.

Lemma within_reply_ok out data unique :
  within (addrs w) (reply_at unique (addrs w)) (reply_ok out data unique w).
Proof.
  eapply within_ext; [apply reply_ok_chunks|].
  set (payload := default [] out ++ default [] data).
  assert (header_len + opt_len out + opt_len data = header_len + Z.of_nat (length payload)) as ->.
  { subst payload. rewrite length_app. destruct out, data; simpl; lia. }
  apply write_chunks_reply; [done | apply concat_options|]. intros w' s Hadv.
  change header_len with (Z.of_nat 16). rewrite <- Nat2Z.inj_add. by apply assert_ok.
Qed.

Lemma within_reply_error e unique :
  within (addrs w) (reply_at unique (addrs w)) (reply_error e unique w).
Proof.
  pose proof (write_chunks_reply unique (- default EIO (raw_os_error e)) [] []
    (λ w', _ ← assert_written header_len w'; mret (bytes_written w'))) as H.
  eapply within_ext; [|apply H; [done | done|]].
  - intros s. change (as_u32 (header_len + Z.of_nat (length (A := Z) []))) with header_len.
    unfold reply_error, write_reply, on_mem, mbind, stm_bind. cbn [write_chunks]. unfold mbind, stm_bind.
    by destruct (write_all _ w _) as [[w1| |] m1].
  - intros w' s Hadv. by apply (assert_ok 16).
Qed.

(** A request is answered, or, when [quiet], returns 0. *)
Definition sent (quiet : bool) (unique : Z) (n : Z) (mm : mem) : Prop :=
  quiet = true ∧ n = 0 ∨ reply_at unique (addrs w) n mm.

Lemma within_mono {A : Type} ads ads' (Q Q' : A → mem → Prop) (m : stm (Server S) FuseError A) :
  within ads Q m → ads ⊆ ads' → (∀ a mm, Q a mm → Q' a mm) → within ads' Q' m.
Proof.
  intros Hm Hsub HQ s. destruct (Hm s) as [H1 H2]. split.
  - intros a Ha. apply H1. set_solver.
  - intros a s' H. by eapply HQ, H2.
Qed.

Lemma sent_reply_ok quiet out data unique : within (addrs w) (sent quiet unique) (reply_ok out data unique w).
Proof. eapply within_mono; [apply within_reply_ok | done | by right]. Qed.
Lemma sent_reply_error quiet e unique : within (addrs w) (sent quiet unique) (reply_error e unique w).
Proof. eapply within_mono; [apply within_reply_error | done | by right]. Qed.
Lemma sent_nothing unique : within (addrs w) (sent true unique) (mret 0).
Proof. apply within_ret. by left. Qed.

Lemma sent_answer {A : Type} quiet unique (op : operation A) f :
  (∀ a, within (addrs w) (sent quiet unique) (f a)) →
  within (addrs w) (sent quiet unique) (answer fs op f unique w).
Proof.
  intros Hf. eapply within_bind; [apply within_fs_call|]. intros [e|a]; [apply sent_reply_error | apply Hf].
Qed.

(** *** Replies whose header is written last *)

Definition splits (w1 w2 : Writer) : Prop :=
  cursor_ok w1 ∧ cursor_ok w2 ∧ (16 ≤ length (addrs w))%nat ∧
  addrs w1 = take 16 (addrs w) ∧ addrs w2 = drop 16 (addrs w) ∧ bytes_consumed w1 = 0.

Lemma within_split : within (addrs w) (λ ws _, splits ws.1 ws.2) (split_header w).
Proof.
  intros s. unfold split_header. pose proof (split_at_spec header_len w Hw ltac:(done)) as Hs.
  change (Z.to_nat header_len) with 16%nat in Hs.
  destruct (split_at header_len w) as [[w1 w2]| |]; [|by split..]. split; [done|].
  intros ws s' [= <- <-]. destruct Hs as (? & ? & ? & ? & ? & Hb & _). simpl.
  split_and!; try done; [change header_len with 16 in *; lia|]. rewrite Hb. exact Hfresh.
Qed.

Section split.
Context (w1 w2 : Writer) (Hs : splits w1 w2).

Lemma split_subset : addrs w1 ⊆ addrs w ∧ addrs w2 ⊆ addrs w.
Proof. destruct Hs as (_ & _ & _ & -> & -> & _). split; [apply subseteq_take | apply subseteq_drop]. Qed.

(** The header goes in front of what is in the buffers. *)
Lemma header_last unique len :
  0 ≤ len ≤ Z.of_nat (length (addrs w2)) →
  within (addrs w) (reply_at unique (addrs w))
    (_ ← write_reply (as_slice (mkOutHeader (as_u32 (header_len + len)) 0 unique)) w1;
     mret (OutHeader_len (mkOutHeader (as_u32 (header_len + len)) 0 unique))).
Proof.
  intros Hlen s. destruct Hs as (Hok1 & _ & H16 & Ha1 & Ha2 & _). rewrite Ha2, length_drop in Hlen.
  assert (as_u32 (header_len + len) = header_len + len) as ->.
  { apply as_u32_small. unfold in_width. change header_len with 16. lia. }
  set (hdr := mkOutHeader _ _ _).
  assert (length (as_slice hdr) = length (addrs w1)) as Hl1.
  { rewrite length_as_slice, Ha1, length_take. change (size_of OutHeader) with 16%nat. lia. }
  unfold write_reply, on_mem, mbind, stm_bind.
  destruct (write_all_ok (as_slice hdr) w1 (srv_mem s) Hok1 ltac:(lia)) as (w' & -> & _). simpl map_err. cbv iota.
  rewrite (take_ge (addrs w1)) by lia. split.
  - intros a Ha. apply store_at_outside. intros Hin. by apply Ha, (proj1 split_subset).
  - intros n s' [= <- <-]. cbn [srv_mem OutHeader_len hdr]. split; [change header_len with 16; lia|].
    exists 0, (load_at (srv_mem s) (take (Z.to_nat len) (drop 16 (addrs w)))). split; [|done].
    replace (Z.to_nat (header_len + len)) with (16 + Z.to_nat len)%nat by (change header_len with 16; lia).
    rewrite <- (take_drop 16 (addrs w)) in Hnd. apply NoDup_app in Hnd as (Hn1 & Hdisj & _).
    rewrite <- (take_drop 16 (take (16 + _) (addrs w))), take_take, take_drop_commute, Nat.min_l by lia.
    unfold load_at at 1. rewrite fmap_app. f_equal.
    + rewrite Ha1 in Hl1 |- *. by apply load_store.
    + apply load_store_other. rewrite Ha1. intros a Hin Hin'. apply (Hdisj a Hin).
      rewrite <- take_drop_commute in Hin'. by eapply subseteq_take.
Qed.

(** An error in the room for the header. *)
Lemma error_in_header e unique : within (addrs w) (reply_at unique (addrs w)) (reply_error e unique w1).
Proof.
  intros s. pose proof Hs as (Hok1 & _ & H16 & Ha1 & _ & Hb1).
  unfold reply_error, write_reply, on_mem, mbind, stm_bind. set (hdr := mkOutHeader _ _ _).
  assert (length (as_slice hdr) = length (addrs w1)) as Hl1.
  { rewrite length_as_slice, Ha1, length_take. change (size_of OutHeader) with 16%nat. lia. }
  destruct (write_all_ok (as_slice hdr) w1 (srv_mem s) Hok1 ltac:(lia)) as (w' & -> & _ & _ & Hb').
  rewrite (take_ge (addrs w1)) by lia. simpl map_err. cbv iota. unfold assert_written, bytes_written.
  rewrite Hb', Hb1, length_as_slice. cbn [OutHeader_len hdr]. change (header_len =? _) with true. split.
  - intros a Ha. apply store_at_outside. intros Hin. by apply Ha, (proj1 split_subset).
  - intros n s' [= <- <-]. cbn [srv_mem]. change (0 + Z.of_nat (size_of OutHeader)) with 16.
    split; [change header_len with 16; lia|]. change (Z.to_nat 16) with 16%nat.
    exists (- default EIO (raw_os_error e)), []. split; [|done]. rewrite app_nil_r. rewrite Ha1.
    rewrite Ha1 in Hl1. apply load_store; [|exact Hl1]. eapply sublist_NoDup; [exact Hnd | apply sublist_take].
Qed.

Lemma sent_error_in_header quiet e unique : within (addrs w) (sent quiet unique) (reply_error e unique w1).
Proof. eapply within_mono; [apply error_in_header | done | by right]. Qed.

Lemma sent_header_last quiet unique len :
  0 ≤ len ≤ Z.of_nat (length (addrs w2)) →
  within (addrs w) (sent quiet unique)
    (_ ← write_reply (as_slice (mkOutHeader (as_u32 (header_len + len)) 0 unique)) w1;
     mret (OutHeader_len (mkOutHeader (as_u32 (header_len + len)) 0 unique))).
Proof. intros Hlen. eapply within_mono; [by apply header_last | done | by right]. Qed.

(** A cursor in the room for the data, [total] bytes of which are used. *)
Definition filled (total : Z) (c : Writer) : Prop :=
  cursor_ok c ∧ 0 ≤ total ≤ Z.of_nat (length (addrs w2)) ∧ addrs c = drop (Z.to_nat total) (addrs w2).

Lemma filled_0 : filled 0 w2.
Proof. destruct Hs as (_ & Hok & _). split_and!; [done | lia | lia | by rewrite drop_0]. Qed.

Lemma within_add_entry total c max d entry :
  filled total c →
  within (addrs w) (λ r _, match r with inr (n, c') => n = 0 ∨ filled (total + n) c' | inl _ => True end)
    (add_entry (S := S) c max d entry).
Proof.
  intros (Hok & Ht & Ha) s. unfold add_entry.
  destruct (Z.leb_spec (2 ^ 32) (Z.of_nat (String.length (de_name d)))) as [Hlong|Hshort].
  { unfold add_dirent. rewrite length_bytes_of_string, (proj2 (Z.leb_le _ _)) by done. split; [done|].
    by intros r s' [= <- <-]. }
  rewrite add_dirent_spec by done. cbv zeta. set (n := Z.of_nat _).
  destruct (max <? n); [split; [done|]; intros r s' [= <- <-]; by left|].
  pose proof (write_chunks_spec (dirent_chunks d entry) c (srv_mem s) Hok) as Hc. cbv zeta in Hc.
  fold (dirent_bytes d entry) in Hc. unfold mbind, stm_bind.
  assert (addrs c ⊆ addrs w) as Hsub.
  { rewrite Ha. etrans; [apply subseteq_drop | apply split_subset]. }
  destruct (decide _) as [Hl|_].
  - destruct Hc as (c' & -> & Hadv). split.
    + intros a Hn. apply store_at_outside. intros Hin. apply Hn, Hsub. by eapply subseteq_take.
    + intros r s' [= <- <-]. right. destruct Hadv as (Hok' & Ha' & _). rewrite Ha, length_drop in Hl.
      split_and!; [done | lia | lia|]. rewrite Ha', Ha, drop_drop. f_equal. lia.
  - destruct Hc as (m' & -> & Hm'). split; [|by intros r s' [= <- <-]].
    intros a Hn. apply Hm'. intros Hin. by apply Hn, Hsub.
Qed.

(** What a loop over the entries returns. *)
Definition fits (r : io_error + Z) : Prop :=
  match r with inr t => 0 ≤ t ≤ Z.of_nat (length (addrs w2)) | inl _ => True end.

Lemma within_readdir_loop size total c entries :
  filled total c → within (addrs w) (λ r _, fits r) (readdir_loop (S := S) size total c entries).
Proof.
  revert total c. induction entries as [|d entries IH]; intros total c Hf; simpl.
  { apply within_ret. intros _. apply Hf. }
  eapply within_bind_fact; [by apply (within_add_entry total)|]. intros [e|[n c']] Hr; [by apply within_ret|].
  destruct (Z.eqb_spec n 0) as [_|Hn]; [apply within_ret; intros _; apply Hf|].
  destruct Hr as [?|Hr]; [done|]. by apply IH.
Qed.

Lemma within_handle_dirent ads h d : within ads anything (handle_dirent fs h d).
Proof. unfold handle_dirent. case_decide; [by apply within_ret | apply within_fs_call]. Qed.

Lemma within_readdirplus_loop h size total c entries :
  filled total c → within (addrs w) (λ r _, fits r) (readdirplus_loop fs h size total c entries).
Proof.
  revert total c. induction entries as [|d entries IH]; intros total c Hf; simpl.
  { apply within_ret. intros _. apply Hf. }
  assert (∀ e, within (addrs w) (λ r _, fits r)
    (mret (M := stm (Server S) FuseError) (if total =? 0 then inl e else inr total))) as Hstop.
  { intros e. apply within_ret. intros _. destruct (total =? 0); [done | apply Hf]. }
  eapply within_bind; [apply within_handle_dirent|]. intros [e|entry]; [apply Hstop|].
  eapply within_bind_fact; [by apply (within_add_entry total)|]. intros [e|[n c']] Hr.
  { eapply within_bind; [apply within_fs_do|]. intros ?. apply Hstop. }
  destruct (Z.eqb_spec n 0) as [_|Hn].
  { eapply within_bind; [apply within_fs_do|]. intros ?. apply within_ret. intros _. apply Hf. }
  destruct Hr as [?|Hr]; [done|]. by apply IH.
Qed.

(** The answer to a request that fills the data first. *)
Lemma sent_listing {A : Type} quiet unique (op : operation A) (loop : A → stm (Server S) FuseError (io_error + Z)) :
  (∀ a, within (addrs w) (λ r _, fits r) (loop a)) →
  within (addrs w) (sent quiet unique)
    (answer fs op (λ a, result ← loop a;
       match result with
       | inr total_written => reply_readdir total_written unique w1
       | inl e => reply_error e unique w1
       end) unique w1).
Proof.
  intros Hloop. eapply within_bind; [apply within_fs_call|]. intros [e|a]; [apply sent_error_in_header|].
  eapply within_bind_fact; [apply Hloop|]. intros [e|t] Hr; [apply sent_error_in_header | by apply sent_header_last].
Qed.

End split.

Lemma sent_list_directory quiet loop h r :
  (∀ w1 w2 size entries, splits w1 w2 → within (addrs w) (λ r _, fits w2 r) (loop size w2 entries)) →
  within (addrs w) (sent quiet (InHeader_unique h)) (list_directory fs loop h r w).
Proof.
  intros Hloop. unfold list_directory. eapply within_bind; [apply within_decode|]. intros [b r']. cbv zeta.
  destruct (_ <? _); [apply sent_reply_error|]. destruct (_ <? _); [apply sent_reply_error|].
  eapply within_bind_fact; [apply within_split|]. intros [w1 w2] Hsp. apply (sent_listing w1 w2 Hsp).
  intros entries. by apply (Hloop w1 w2).
Qed.

Lemma sent_fuse_read quiet h r : within (addrs w) (sent quiet (InHeader_unique h)) (fuse_read fs h r w).
Proof.
  unfold fuse_read. eapply within_bind; [apply within_decode|]. intros [b r']. cbv zeta.
  eapply within_bind_fact; [apply within_split|]. intros [w1 w2] Hsp. simpl in Hsp.
  eapply within_bind; [apply within_fs_call|]. intros [e|data]; [by apply (sent_error_in_header w1 w2)|].
  eapply within_bind with (P := anything).
  - intros s. unfold write_reply, on_mem. pose proof Hsp as (_ & Hok2 & _).
    destruct (write_all_ok (take (length (addrs w2)) data) w2 (srv_mem s) Hok2) as (w' & -> & _).
    { rewrite length_take. lia. }
    split; [|done]. intros a Hn. apply store_at_outside. intros Hin. apply Hn, (proj2 (split_subset w1 w2 Hsp)).
    by eapply subseteq_take.
  - intros ?. apply (sent_header_last w1 w2 Hsp). rewrite length_take. lia.
Qed.

(** *** Every request *)

(** The requests that may have no reply. *)
Definition quiet_opcode (opcode : Opcode) : bool :=
  match opcode with
  | Op_Forget | Op_BatchForget | Op_Interrupt | Op_Destroy => true
  | Op_Getlk | Op_Setlk | Op_Setlkw | Op_Bmap | Op_Ioctl | Op_Poll | Op_NotifyReply => true
  | _ => false
  end.

Lemma within_name_and_extensions ads h n r : within ads anything (name_and_extensions (S := S) h n r).
Proof.
  unfold name_and_extensions. eapply within_bind; [apply within_read_rest|]. intros buf.
  eapply within_bind; [apply within_lift|]. intros [name rest].
  eapply within_bind; [apply within_gets|]. intros options.
  eapply within_bind; [apply within_lift|]. intros ext.
  eapply within_bind; [apply within_lift|]. intros ?. by apply within_ret.
Qed.

Lemma within_read_forgets ads n r : within ads anything (read_forgets (S := S) n r).
Proof.
  revert r. induction n as [|n IH]; intros r; simpl; [by apply within_ret|].
  eapply within_bind; [apply within_decode|]. intros [f r'].
  eapply within_bind; [apply IH|]. intros ?. by apply within_ret.
Qed.

Lemma within_decode_setxattr ads r : within ads anything (decode_setxattr (S := S) r).
Proof.
  unfold decode_setxattr. eapply within_bind; [apply within_gets|]. intros options.
  destruct (contains _ _); (eapply within_bind; [apply within_decode|]); intros []; by apply within_ret.
Qed.

(** Follow the structure of a handler, looking at the head of the program. *)
Ltac prefix_step :=
  lazymatch goal with
  | |- within _ _ (decode _ _) => apply within_decode
  | |- within _ _ (read_rest _ _ _) => apply within_read_rest
  | |- within _ _ (lift _) => apply within_lift
  | |- within _ _ (gets _) => apply within_gets
  | |- within _ _ get_options => apply within_gets
  | |- within _ _ (fs_do _ _) => apply within_fs_do
  | |- within _ _ (set_options _) => apply within_set_options
  | |- within _ _ (name_and_extensions _ _ _) => apply within_name_and_extensions
  | |- within _ _ (read_forgets _ _) => apply within_read_forgets
  | |- within _ _ (decode_setxattr _) => apply within_decode_setxattr
  end.

Ltac answered :=
  repeat (cbv beta zeta;
    lazymatch goal with
    | |- within _ _ (reply_ok _ _ _ _) => apply sent_reply_ok
    | |- within _ _ (reply_error _ _ _) => apply sent_reply_error
    | |- within _ _ (mret 0) => apply sent_nothing
    | |- within _ _ (throw _) => apply within_throw
    | |- within _ _ panic => apply within_panic
    | |- within _ _ (answer _ _ _ _ _) => apply sent_answer; intros ?
    | |- within _ _ (_ ≫= _) => eapply within_bind; [prefix_step | intros ?]
    | |- within _ _ (match ?x with _ => _ end) => destruct x
    end).

Lemma sent_fuse_init page_size quiet h r :
  within (addrs w) (sent quiet (InHeader_unique h)) (fuse_init fs page_size h r w).
Proof.
  unfold fuse_init. eapply within_bind; [apply within_decode|]. intros [b r']. cbv zeta.
  eapply within_bind with (P := anything).
  { destruct (contains _ _); [|by apply within_ret].
    eapply within_bind; [apply within_decode|]. intros []. by apply within_ret. }
  intros flags2. answered.
Qed.

Lemma sent_dispatch page_size opcode h r :
  within (addrs w) (sent (quiet_opcode opcode) (InHeader_unique h)) (dispatch_opcode fs page_size opcode h r w).
Proof.
  destruct opcode; cbn [dispatch_opcode quiet_opcode]; try apply sent_fuse_read; try apply sent_fuse_init;
    try (apply sent_list_directory; intros w1 w2 size entries Hsp;
         first [by eapply within_readdir_loop, filled_0 | by eapply within_readdirplus_loop, filled_0]);
    cbv beta delta [fuse_lookup fuse_forget fuse_getattr fuse_setattr fuse_readlink fuse_symlink fuse_mknod
      fuse_mkdir fuse_unlink fuse_rmdir fuse_rename fuse_rename2 do_rename fuse_link fuse_create fuse_open fuse_write
      fuse_statfs fuse_release fuse_fsync fuse_setxattr fuse_getxattr fuse_listxattr fuse_removexattr fuse_flush
      fuse_opendir fuse_releasedir fuse_fsyncdir fuse_access reply_if_err fuse_destroy fuse_batch_forget
      fuse_fallocate fuse_lseek fuse_copyfilerange fuse_syncfs fuse_tmpfile reply_unit reply_entry reply_attr
      reply_open]; answered.
Qed.

End replies.
End server.

(** The header of the request a reader stands at. *)
Definition request_header {S : Type} (r : Reader) (s : Server S) : InHeader :=
  from_slice (take (size_of InHeader) (load_at (srv_mem s) (addrs r))).

(** C17. The reply of the FUSE server. Whatever bytes the guest sends, the
    server writes no guest memory outside the buffers for the reply; when it
    returns a number of bytes, those are a reply that stands at the start of the
    buffers, with a header that gives that length and the number of the request,
    and without data when it is an error; and it returns 0 only for the requests
    that may have no reply. *)
Theorem fuse_reply {S : Type} (fs : FileSystem S) page_size r w s res s' :
  cursor_ok r → cursor_ok w → bytes_written w = 0 → NoDup (addrs w) → Z.of_nat (length (addrs w)) < 2 ^ 32 →
  handle_message fs page_size r w s = (res, s') →
  (∀ a, a ∉ addrs w → srv_mem s' !! a = srv_mem s !! a) ∧
  ∀ n, res = Ok n →
    let header := request_header r s in
    reply_at (InHeader_unique header) (addrs w) n (srv_mem s') ∨
    n = 0 ∧ ∃ opcode, Opcode_try_from (InHeader_opcode header) = Some opcode ∧ quiet_opcode opcode = true.
Proof.
  intros Hr Hw Hfresh Hnd Hroom. unfold handle_message, request_header.
  pose proof (read_obj_spec (A := InHeader) r (srv_mem s) Hr) as Hd. unfold decode, on_mem, mbind, stm_bind.
  destruct (decide _) as [_|_]; [|rewrite Hd; intros [= <- <-]; by split].
  destruct Hd as (r' & -> & _). cbn [map_err]. set (header := from_slice _).
  destruct (_ <? _); [|destruct (Opcode_try_from _) as [opcode|] eqn:Eo].
  - intros H. destruct (within_reply_error w Hw Hfresh Hnd Hroom (os_error ENOMEM) (InHeader_unique header)
      (mkServer (srv_fs s) (srv_options s) (srv_mem s))) as [H1 H2]. rewrite H in H1, H2. split; [done|].
    intros n ->. left. by eapply H2.
  - intros H. destruct (sent_dispatch fs w Hw Hfresh Hnd Hroom page_size opcode header r'
      (mkServer (srv_fs s) (srv_options s) (srv_mem s))) as [H1 H2]. rewrite H in H1, H2. split; [done|].
    intros n ->. destruct (H2 _ _ eq_refl) as [[Hq ->]|]; [right; eauto | by left].
  - intros H. destruct (within_reply_error w Hw Hfresh Hnd Hroom (os_error ENOSYS) (InHeader_unique header)
      (mkServer (srv_fs s) (srv_options s) (srv_mem s))) as [H1 H2]. rewrite H in H1, H2. split; [done|].
    intros n ->. left. by eapply H2.
Qed.

(** *** A request

    [statfs] of a file system without methods, answered with the defaults. *)

Definition bare_fs : FileSystem unit := FileSystem_default (λ _ _, panic).
Definition statfs_bytes : list Z := as_slice (mkInHeader 40 17 7 1 0 0 1 0 0).
Definition statfs_reader : Reader := mkConsumer [mkSlice 0 25; mkSlice 50 15] 0.
Definition statfs_writer : Writer := mkConsumer [mkSlice 100 10; mkSlice 200 100] 0.
Definition statfs_server : Server unit := mkServer () 0 (store_at (addrs statfs_reader) statfs_bytes ∅).

Lemma fuse_reply_witness :
  let s' := (handle_message bare_fs 4096 statfs_reader statfs_writer statfs_server).2 in
  (∀ a, a ∉ addrs statfs_writer → srv_mem s' !! a = srv_mem statfs_server !! a) ∧
  reply_at 7 (addrs statfs_writer) 96 (srv_mem s').
Proof.
  destruct (fuse_reply bare_fs 4096 statfs_reader statfs_writer statfs_server (Ok 96)
    (handle_message bare_fs 4096 statfs_reader statfs_writer statfs_server).2) as [Hmem Hrep].
  - split; [repeat constructor; by vm_compute | split; by vm_compute].
  - split; [repeat constructor; by vm_compute | split; by vm_compute].
  - reflexivity.
  - apply (bool_decide_unpack _). by vm_compute.
  - by vm_compute.
  - by vm_compute.
  - split; [exact Hmem|]. destruct (Hrep 96 eq_refl) as [H|[H _]]; [exact H | discriminate H].
Defined.
