(* ===== verification/FuseCalls.v ===== *)
(** * The FUSE server carries calls

    A request that a FUSE client encodes as the protocol says is decoded to the
    same operation of the file system, and its result is encoded in the reply:
    seen from the guest, the server is a remote procedure call of the
    [FileSystem] trait.

    The first part says that a file system that only observes its calls is
    transparent to the server. *)

From stdpp Require Import base gmap strings list.
From S2P Require Import Prelude Fuse FileSystem Descriptors FuseServer FuseFacts.
#[local] Open Scope Z_scope.

(** ** Observing a file system

    The FUSE server over a file system that keeps what it was asked for and
    what it answered: the server behaves as over the file system itself, so
    what is shown of the events holds of the calls it makes. *)

(** [obs] gives the events of an operation with its result. *)
Definition observing {S L : Type} (obs : ∀ A : Type, operation A → outcome io_error A → list L) (fs : FileSystem S)
    : FileSystem (S * list L) := λ A op s,
  let '(r, s') := fs A op s.1 in (r, (s', s.2 ++ obs A op r)).

(** The server state without the events. *)
Definition unlog {S L : Type} (s : Server (S * L)) : Server S := mkServer (srv_fs s).1 (srv_options s) (srv_mem s).

(** ** Keeping the events changes nothing *)

Section transparent.
Context {S L : Type} (obs : ∀ A : Type, operation A → outcome io_error A → list L) (fs : FileSystem S).

(** The same result, and the same state but for the events. *)
Definition same_run {A : Type} (m : stm (Server S) FuseError A)
    (m' : stm (Server (S * list L)) FuseError A) : Prop :=
  ∀ s, m (unlog s) = ((m' s).1, unlog (m' s).2).

Lemma same_bind {A B : Type} m m' (f : A → stm (Server S) FuseError B) f' :
  same_run m m' → (∀ a, same_run (f a) (f' a)) → same_run (m ≫= f) (m' ≫= f').
Proof.
  intros Hm Hf s. unfold mbind, stm_bind. rewrite (Hm s). destruct (m' s) as [[a|e|] s']; simpl; [|done|done].
  apply Hf.
Qed.

Lemma same_fs_call {A : Type} (op : operation A) : same_run (fs_call fs op) (fs_call (observing obs fs) op).
Proof.
  intros s. unfold fs_call, observing, unlog. simpl. destruct (fs A op (srv_fs s).1) as [[] f]; done.
Qed.

Lemma same_mem {A : Type} wrap (m : MemM A) : same_run (on_mem wrap m) (on_mem wrap m).
Proof. intros s. unfold on_mem, unlog. simpl. by destruct (m (srv_mem s)). Qed.

Lemma same_add_entry c max d e : same_run (add_entry c max d e) (add_entry c max d e).
Proof. intros s. unfold add_entry, unlog. simpl. by destruct (add_dirent _ _ _ _ _) as [[] mm]. Qed.

Ltac same_step :=
  repeat (cbv beta zeta;
    lazymatch goal with
    | |- same_run _ (_ ≫= _) => apply same_bind; [| intros ?]
    | |- same_run _ (fs_call _ _) => apply same_fs_call
    | |- same_run _ (on_mem _ _) => apply same_mem
    | |- same_run _ (add_entry _ _ _ _) => apply same_add_entry
    | |- same_run _ (match ?x with _ => _ end) => destruct x
    | |- same_run _ _ => solve [intros ?; done]
    end).

Lemma same_reply_ok out data unique w : same_run (reply_ok out data unique w) (reply_ok out data unique w).
Proof. unfold reply_ok, write_opt, write_reply, assert_written. same_step. Qed.
Lemma same_reply_error e unique w : same_run (reply_error e unique w) (reply_error e unique w).
Proof. unfold reply_error, write_reply, assert_written. same_step. Qed.
Lemma same_readdir_loop size total c entries :
  same_run (readdir_loop size total c entries) (readdir_loop size total c entries).
Proof. revert total c. induction entries as [|d entries IH]; intros total c; simpl; same_step. apply IH. Qed.
Lemma same_readdirplus_loop hd size total c entries :
  same_run (readdirplus_loop fs hd size total c entries) (readdirplus_loop (observing obs fs) hd size total c entries).
Proof.
  revert total c. induction entries as [|d entries IH]; intros total c; simpl;
    unfold handle_dirent, undo_lookup, fs_do; same_step. apply IH.
Qed.
Lemma same_read_forgets n r : same_run (read_forgets n r) (read_forgets n r).
Proof. revert r. induction n as [|n IH]; intros r; simpl; unfold decode; same_step. apply IH. Qed.

(** A server over the observed file system does what it does over the file
    system itself. *)
Lemma observing_transparent page_size r w :
  same_run (handle_message fs page_size r w) (handle_message (observing obs fs) page_size r w).
Proof.
  unfold handle_message, decode.
  apply same_bind; [apply same_mem|]. intros [hd r']. destruct (_ <? _); [apply same_reply_error|].
  destruct (Opcode_try_from _) as [o|]; [|apply same_reply_error]. destruct o; cbn [dispatch_opcode];
    cbv beta delta [fuse_lookup fuse_forget fuse_getattr fuse_setattr fuse_readlink fuse_symlink fuse_mknod
      fuse_mkdir fuse_unlink fuse_rmdir fuse_rename fuse_rename2 do_rename fuse_link fuse_create fuse_open fuse_read
      fuse_write fuse_statfs fuse_release fuse_fsync fuse_setxattr fuse_getxattr fuse_listxattr fuse_removexattr
      fuse_flush fuse_init fuse_opendir fuse_readdir fuse_readdirplus fuse_releasedir fuse_fsyncdir fuse_access
      reply_if_err fuse_destroy fuse_batch_forget fuse_fallocate fuse_lseek fuse_copyfilerange fuse_syncfs
      fuse_tmpfile reply_unit reply_entry reply_attr reply_open decode read_rest name_and_extensions
      decode_setxattr split_header list_directory reply_readdir write_reply answer fs_do];
    repeat (cbv beta zeta;
      lazymatch goal with
      | |- same_run _ (reply_ok _ _ _ _) => apply same_reply_ok
      | |- same_run _ (reply_error _ _ _) => apply same_reply_error
      | |- same_run _ (read_forgets _ _) => apply same_read_forgets
      | |- same_run _ (readdir_loop _ _ _ _) => apply same_readdir_loop
      | |- same_run _ (readdirplus_loop _ _ _ _ _ _) => apply same_readdirplus_loop
      | |- same_run _ (_ ≫= _) => apply same_bind; [| intros ?]
      | |- same_run _ (fs_call _ _) => apply same_fs_call
      | |- same_run _ (on_mem _ _) => apply same_mem
      | |- same_run _ (match ?x with _ => _ end) => destruct x
      | |- same_run _ _ => solve [intros ?; done]
      end).
Qed.

End transparent.

(** ** The client's side *)

Definition cstr (name : string) : list Z := bytes_of_string name ++ [0].
Definition bit (b : bool) (v : Z) : Z := if b then v else 0.
Definition opt_bit (o : option Z) (v : Z) : Z := if o is Some _ then v else 0.

(** The operation code, the inode in the header and the body of the message;
    [None] for the operations whose arguments depend on the buffers ([read],
    [write], [readdir]), which are not calls by value, and for those the client
    never sends. *)
Definition encode {A : Type} (op : operation A) : option (Z * Z * list Z) :=
  match op with
  | FLookup _ parent name => Some (1, parent, cstr name)
  | FForget _ inode count => Some (2, inode, as_slice (mkForgetIn count))
  | FGetattr _ inode handle =>
      Some (3, inode, as_slice (mkGetattrIn (opt_bit handle GETATTR_FH) 0 (default 0 handle)))
  | FSetattr _ inode attr _ _ => Some (4, inode, as_slice attr)
  | FReadlink _ inode => Some (5, inode, [])
  | FSymlink _ linkname parent name _ => Some (6, parent, cstr name ++ cstr linkname)
  | FMknod _ parent name mode rdev umask _ =>
      Some (8, parent, as_slice (mkMknodIn mode rdev umask 0) ++ cstr name)
  | FMkdir _ parent name mode umask _ => Some (9, parent, as_slice (mkMkdirIn mode umask) ++ cstr name)
  | FUnlink _ parent name => Some (10, parent, cstr name)
  | FRmdir _ parent name => Some (11, parent, cstr name)
  | FLink _ inode newparent newname => Some (13, newparent, as_slice (mkLinkIn inode) ++ cstr newname)
  | FOpen _ inode kill_priv flags => Some (14, inode, as_slice (mkOpenIn flags (bit kill_priv OPEN_KILL_SUIDGID)))
  | FStatfs _ inode => Some (17, inode, [])
  | FRelease _ inode flags handle flush flock_release lock_owner =>
      Some (18, inode, as_slice (mkReleaseIn handle flags
        (bit flush RELEASE_FLUSH + bit flock_release RELEASE_FLOCK_UNLOCK) (default 0 lock_owner)))
  | FFsync _ inode datasync handle => Some (20, inode, as_slice (mkFsyncIn handle (bit datasync 1) 0))
  | FSetxattr _ inode name value flags _ =>
      Some (21, inode, as_slice (mkSetxattrInCompat (Z.of_nat (length value)) flags) ++ cstr name ++ value)
  | FGetxattr _ inode name size => Some (22, inode, as_slice (mkGetxattrIn size 0) ++ cstr name)
  | FListxattr _ inode size => Some (23, inode, as_slice (mkGetxattrIn size 0))
  | FRemovexattr _ inode name => Some (24, inode, cstr name)
  | FFlush _ inode handle lock_owner => Some (25, inode, as_slice (mkFlushIn handle 0 0 lock_owner))
  | FOpendir _ inode flags => Some (27, inode, as_slice (mkOpenIn flags 0))
  | FReleasedir _ inode flags handle => Some (29, inode, as_slice (mkReleaseIn handle flags 0 0))
  | FFsyncdir _ inode datasync handle => Some (30, inode, as_slice (mkFsyncIn handle (bit datasync 1) 0))
  | FAccess _ inode mask => Some (34, inode, as_slice (mkAccessIn mask 0))
  | FCreate _ parent name mode kill_priv flags umask _ =>
      Some (35, parent, as_slice (mkCreateIn flags mode umask (bit kill_priv OPEN_KILL_SUIDGID)) ++ cstr name)
  | FFallocate _ inode handle mode offset length =>
      Some (43, inode, as_slice (mkFallocateIn handle offset length mode 0))
  | FRename _ olddir oldname newdir newname flags =>
      Some (45, olddir, as_slice (mkRename2In newdir flags 0) ++ cstr oldname ++ cstr newname)
  | FLseek _ inode handle offset whence => Some (46, inode, as_slice (mkLseekIn handle offset whence 0))
  | FCopyfilerange _ inode_in handle_in offset_in inode_out handle_out offset_out len flags =>
      Some (47, inode_in, as_slice (mkCopyfilerangeIn handle_in offset_in inode_out handle_out offset_out len flags))
  | FSyncfs _ inode => Some (50, inode, [])
  | _ => None
  end.

Definition context_of {A : Type} (op : operation A) : option Context :=
  match op with
  | FInit _ | FDestroy | FGetlk | FSetlk | FSetlkw | FIoctl | FBmap | FPoll | FNotifyReply | FTmpfile => None
  | FLookup ctx _ _ | FForget ctx _ _ | FBatchForget ctx _ | FGetattr ctx _ _ | FSetattr ctx _ _ _ _
  | FReadlink ctx _ | FSymlink ctx _ _ _ _ | FMknod ctx _ _ _ _ _ _ | FMkdir ctx _ _ _ _ _ | FUnlink ctx _ _
  | FRmdir ctx _ _ | FRename ctx _ _ _ _ _ | FLink ctx _ _ _ | FOpen ctx _ _ _ | FCreate ctx _ _ _ _ _ _ _
  | FRead ctx _ _ _ _ _ _ _ | FWrite ctx _ _ _ _ _ _ _ _ _ | FFlush ctx _ _ _ | FFsync ctx _ _ _
  | FFallocate ctx _ _ _ _ _ | FRelease ctx _ _ _ _ _ _ | FStatfs ctx _ | FSetxattr ctx _ _ _ _ _
  | FGetxattr ctx _ _ _ | FListxattr ctx _ _ | FRemovexattr ctx _ _ | FOpendir ctx _ _ | FReaddir ctx _ _ _ _
  | FFsyncdir ctx _ _ _ | FReleasedir ctx _ _ _ | FAccess ctx _ _ | FLseek ctx _ _ _ _
  | FCopyfilerange ctx _ _ _ _ _ _ _ _ | FSyncfs ctx _ => Some ctx
  end.

(** The header of the request [unique] with the body. *)
Definition header_of (ctx : Context) (opcode nodeid unique : Z) (body : list Z) : InHeader :=
  mkInHeader (Z.of_nat (40 + length body)) opcode unique nodeid (ctx_uid ctx) (ctx_gid ctx)
    (as_u32 (ctx_pid ctx)) 0 0.

(** What the reply carries. *)
Definition payload {A : Type} (op : operation A) : A → list Z :=
  match op in operation A return A → list Z with
  | FLookup _ _ _ | FSymlink _ _ _ _ _ | FMknod _ _ _ _ _ _ _ | FMkdir _ _ _ _ _ _ | FLink _ _ _ _ =>
      λ entry, as_slice (EntryOut_from entry)
  | FGetattr _ _ _ | FSetattr _ _ _ _ _ =>
      λ '(attr, timeout), as_slice (mkAttrOut (as_secs timeout) (subsec_nanos timeout) 0 attr)
  | FReadlink _ _ => λ linkname, linkname
  | FOpen _ _ _ _ | FOpendir _ _ _ => λ '(handle, opts), as_slice (mkOpenOut (default 0 handle) opts 0)
  | FCreate _ _ _ _ _ _ _ _ =>
      λ '(entry, handle, opts), as_slice (EntryOut_from entry) ++ as_slice (mkOpenOut (default 0 handle) opts 0)
  | FStatfs _ _ => λ st, as_slice (Kstatfs_from st)
  | FGetxattr _ _ _ _ =>
      λ reply, match reply with Value v => v | XattrCount count => as_slice (mkGetxattrOut count 0) end
  | FListxattr _ _ _ =>
      λ reply, match reply with Names v => v | NamesCount count => as_slice (mkGetxattrOut count 0) end
  | FLseek _ _ _ _ _ => λ offset, as_slice (mkLseekOut offset)
  | FCopyfilerange _ _ _ _ _ _ _ _ _ => λ count, as_slice (mkWriteOut (as_u32 count) 0)
  | _ => λ _, []
  end.

Definition reply_to {A : Type} (op : operation A) (unique : Z) (res : outcome io_error A) : list Z :=
  if infallible op then []
  else
    match res with
    | Ok a =>
        as_slice (mkOutHeader (16 + Z.of_nat (length (payload op a))) 0 unique) ++ payload op a
    | Err e => as_slice (mkOutHeader 16 (- default EIO (raw_os_error e)) unique)
    | Panic => []
    end.

Definition plain_name (name : string) : Prop := 0 ∉ bytes_of_string name.
Definition no_extensions (ext : Extensions) : Prop := ext = Extensions_default.

(** The arguments fit their fields; names have no zero byte; the flags of
    [setattr] are those of its message. *)
Definition call_ok {A : Type} (op : operation A) : Prop :=
  match op with
  | FLookup _ _ name | FUnlink _ _ name | FRmdir _ _ name | FRemovexattr _ _ name => plain_name name
  | FForget _ _ count => in_range (mkForgetIn count)
  | FGetattr _ _ handle => in_range (mkGetattrIn (opt_bit handle GETATTR_FH) 0 (default 0 handle))
  | FSetattr _ _ attr handle valid =>
      in_range attr ∧ valid = SetattrValid_from_bits_truncate (SetattrIn_valid attr) ∧
      handle = (if flag (SetattrIn_valid attr) FATTR_FH then Some (SetattrIn_fh attr) else None)
  | FSymlink _ linkname _ name ext => plain_name linkname ∧ plain_name name ∧ no_extensions ext
  | FMknod _ _ name mode rdev umask ext => in_range (mkMknodIn mode rdev umask 0) ∧ plain_name name ∧ no_extensions ext
  | FMkdir _ _ name mode umask ext => in_range (mkMkdirIn mode umask) ∧ plain_name name ∧ no_extensions ext
  | FLink _ inode _ newname => in_range (mkLinkIn inode) ∧ plain_name newname
  | FOpen _ _ kill_priv flags => in_range (mkOpenIn flags (bit kill_priv OPEN_KILL_SUIDGID))
  | FOpendir _ _ flags => in_range (mkOpenIn flags 0)
  | FRelease _ _ flags handle flush flock_release lock_owner =>
      in_range (mkReleaseIn handle flags (bit flush RELEASE_FLUSH + bit flock_release RELEASE_FLOCK_UNLOCK)
                  (default 0 lock_owner)) ∧
      (is_Some lock_owner ↔ flush = true ∨ flock_release = true)
  | FFsync _ _ datasync handle | FFsyncdir _ _ datasync handle => in_range (mkFsyncIn handle (bit datasync 1) 0)
  | FSetxattr _ _ name value flags extra_flags =>
      in_range (mkSetxattrInCompat (Z.of_nat (length value)) flags) ∧ plain_name name ∧ extra_flags = 0
  | FGetxattr _ _ name size => in_range (mkGetxattrIn size 0) ∧ plain_name name ∧ size ≤ MAX_BUFFER_SIZE
  | FListxattr _ _ size => in_range (mkGetxattrIn size 0) ∧ size ≤ MAX_BUFFER_SIZE
  | FFlush _ _ handle lock_owner => in_range (mkFlushIn handle 0 0 lock_owner)
  | FReleasedir _ _ flags handle => in_range (mkReleaseIn handle flags 0 0)
  | FAccess _ _ mask => in_range (mkAccessIn mask 0)
  | FCreate _ _ name mode kill_priv flags umask ext =>
      in_range (mkCreateIn flags mode umask (bit kill_priv OPEN_KILL_SUIDGID)) ∧ plain_name name ∧ no_extensions ext
  | FFallocate _ _ handle mode offset length => in_range (mkFallocateIn handle offset length mode 0)
  | FRename _ _ oldname newdir newname flags =>
      in_range (mkRename2In newdir flags 0) ∧ plain_name oldname ∧ plain_name newname ∧ flags < 8
  | FLseek _ _ handle offset whence => in_range (mkLseekIn handle offset whence 0)
  | FCopyfilerange _ _ handle_in offset_in inode_out handle_out offset_out len flags =>
      in_range (mkCopyfilerangeIn handle_in offset_in inode_out handle_out offset_out len flags)
  | _ => True
  end.

(** ** Parsing what the client wrote *)

Lemma from_bytes_with_nul_ok bs : 0 ∉ bs → from_bytes_with_nul (bs ++ [0]) = Some bs.
Proof.
  induction bs as [|b bs IH]; intros Hb; [done|]. apply not_elem_of_cons in Hb as [Hb0 Hb]. simpl.
  rewrite (proj2 (Z.eqb_neq b 0)) by done. by rewrite IH.
Qed.

Lemma bytes_to_cstr_ok name : plain_name name → bytes_to_cstr (cstr name) = Ok name.
Proof.
  intros Hn. unfold bytes_to_cstr, cstr. rewrite from_bytes_with_nul_ok by done. simpl.
  by rewrite string_of_bytes_of_string.
Qed.

Lemma split_nul_ok bs rest : 0 ∉ bs → split_nul ((bs ++ [0]) ++ rest) = (bs ++ [0], rest).
Proof.
  induction bs as [|b bs IH]; intros Hb; [done|]. apply not_elem_of_cons in Hb as [Hb0 Hb]. simpl.
  rewrite (proj2 (Z.eqb_neq b 0)) by done. by rewrite IH.
Qed.

Lemma next_component_ok name rest : plain_name name → next_component (cstr name ++ rest) = Ok (cstr name, rest).
Proof.
  intros Hn. unfold next_component, cstr. rewrite split_nul_ok by done.
  by destruct ((bytes_of_string name ++ [0]) ++ rest) eqn:E; [destruct (bytes_of_string name)|].
Qed.

Lemma next_component_last name : plain_name name → next_component (cstr name) = Ok (cstr name, []).
Proof. intros Hn. rewrite <- (app_nil_r (cstr name)) at 1. by apply next_component_ok. Qed.

Lemma split_at_nul_ok name rest : plain_name name → split_at_nul (cstr name ++ rest) = Ok (cstr name, rest).
Proof.
  intros Hn. unfold split_at_nul. rewrite decide_True; [unfold cstr; by rewrite split_nul_ok|].
  unfold cstr. rewrite !elem_of_app. left. right. apply list_elem_of_singleton. done.
Qed.

Lemma get_extensions_none options n buf :
  contains options FsOptions.SECURITY_CTX = false → length buf = n →
  get_extensions options n buf = Ok Extensions_default.
Proof.
  intros Hs <-. unfold get_extensions. rewrite Hs. destruct (contains options FsOptions.CREATE_SUPP_GROUP); [|done].
  simpl. rewrite decide_False by lia. by rewrite drop_all.
Qed.

Lemma context_of_header ctx opcode nodeid unique body :
  - 2 ^ 31 ≤ ctx_pid ctx < 2 ^ 31 → Context_from (header_of ctx opcode nodeid unique body) = ctx.
Proof.
  intros Hp. unfold Context_from. simpl. destruct ctx as [uid gid pid]. simpl in *. f_equal.
  unfold as_i32, as_u32. rewrite Z.add_mod_idemp_l by done. rewrite Z.mod_small by lia. lia.
Qed.

(** ** The server on a call *)

Section reading.
Context {S : Type}.

(** What a reader has in front of it. *)
Definition holds (s : Server S) (r : Reader) (bs : list Z) : Prop :=
  cursor_ok r ∧ load_at (srv_mem s) (addrs r) = bs.

Lemma decode_at {A : Type} `{ByteValuedLaws A} (a : A) rest r s :
  in_range a → holds s r (as_slice a ++ rest) → ∃ r', decode A r s = (Ok (a, r'), s) ∧ holds s r' rest.
Proof.
  intros Ha [Hr Hl]. pose proof (read_obj_spec (A := A) r (srv_mem s) Hr) as Hd. set (n := size_of A) in *.
  assert (length (addrs r) = (n + length rest)%nat) as Hlen.
  { apply (f_equal length) in Hl. unfold load_at in Hl. by rewrite length_fmap, length_app, length_as_slice in Hl. }
  rewrite decide_True in Hd by lia. destruct Hd as (r' & Hd & Hok & Ha' & _).
  exists r'. unfold decode, on_mem. rewrite Hd. rewrite Hl, take_app_length' by (symmetry; apply length_as_slice). cbn [map_err].
  rewrite <- (app_nil_r (as_slice a)), from_as_slice by done. split; [by destruct s|]. split; [done|].
  rewrite Ha'. unfold load_at. rewrite fmap_drop. fold (load_at (srv_mem s) (addrs r)). rewrite Hl.
  apply drop_app_length'. symmetry. apply length_as_slice.
Qed.

Lemma decode_last {A : Type} `{ByteValuedLaws A} (a : A) r s :
  in_range a → holds s r (as_slice a) → ∃ r', decode A r s = (Ok (a, r'), s) ∧ holds s r' [].
Proof. intros Ha Hh. apply decode_at; [done|]. by rewrite app_nil_r. Qed.

Lemma read_rest_at h n r s bs :
  holds s r bs → InHeader_len h = Z.of_nat (40 + n + length bs) → read_rest h n r s = (Ok bs, s).
Proof.
  intros [Hr Hl] Hh. unfold read_rest, remaining_len. rewrite Hh. change (size_of InHeader) with 40%nat. cbv zeta.
  rewrite (proj2 (Z.ltb_ge _ 0)) by lia. rewrite (proj2 (Z.ltb_ge _ 0)) by lia.
  replace (_ - _ - _) with (Z.of_nat (length bs)) by lia. unfold mbind, stm_bind, lift. cbn [map_err].
  assert (length bs = length (addrs r)) as Hlen.
  { apply (f_equal length) in Hl. unfold load_at in Hl. by rewrite length_fmap in Hl. }
  destruct (read_exact_ok (Z.of_nat (length bs)) r (srv_mem s) Hr ltac:(lia)) as (r' & Hrd & _).
  unfold on_mem. rewrite Hrd, Hl. cbn [map_err]. rewrite Nat2Z.id, take_ge by done. by destruct s.
Qed.

(** Names, alone and with what the message has before them. *)
Lemma name_at h n r s name :
  plain_name name → holds s r (cstr name) → InHeader_len h = Z.of_nat (40 + n + length (cstr name)) →
  contains (FsOptions.from_bits_truncate (srv_options s)) FsOptions.SECURITY_CTX = false →
  name_and_extensions h n r s = (Ok (name, Extensions_default), s).
Proof.
  intros Hn Hh Hlen Hopt. unfold name_and_extensions.
  rewrite (stm_bind_ok _ _ _ _ _ (read_rest_at h n r s _ Hh Hlen)).
  rewrite next_component_last by done. unfold lift, mbind, stm_bind. cbn [map_err]. unfold get_options, gets.
  rewrite get_extensions_none by done. by rewrite bytes_to_cstr_ok.
Qed.

Lemma decode_setxattr_at size flags rest r s :
  contains (FsOptions.from_bits_truncate (srv_options s)) FsOptions.SETXATTR_EXT = false →
  in_range (mkSetxattrInCompat size flags) → holds s r (as_slice (mkSetxattrInCompat size flags) ++ rest) →
  ∃ r', decode_setxattr r s = (Ok (mkSetxattrIn size flags 0 0, size_of SetxattrInCompat, r'), s) ∧ holds s r' rest.
Proof.
  intros Hopt Hr Hh. destruct (decode_at _ _ r s Hr Hh) as (r' & Hd & Hh'). exists r'. split; [|done].
  unfold decode_setxattr. set (o := get_options). unfold mbind at 1, stm_bind at 1. subst o.
  change (get_options s) with (Ok (E := FuseError) (FsOptions.from_bits_truncate (srv_options s)), s).
  cbv beta iota. rewrite Hopt. by rewrite (stm_bind_ok _ _ _ _ _ Hd).
Qed.

End reading.

Section calls.
Context {S : Type} (fs : FileSystem S) (w : Writer) (Hw : cursor_ok w) (Hfresh : bytes_written w = 0).
Context (Hroom : Z.of_nat (length (addrs w)) < 2 ^ 32).

(** The outcome in which [reply] stands in the buffers and the file system is
    in the state [f]. *)
Definition replied (s : Server S) (f : S) (reply : list Z) : outcome FuseError Z * Server S :=
  (Ok (Z.of_nat (length reply)),
   mkServer f (srv_options s) (store_at (take (length reply) (addrs w)) reply (srv_mem s))).

Lemma replied_nothing s f : replied s f [] = (Ok 0, mkServer f (srv_options s) (srv_mem s)).
Proof. done. Qed.

Lemma write_reply_exact chunks err unique payload (len : Z) s :
  concat chunks = payload → len = 16 + Z.of_nat (length payload) →
  let reply := as_slice (mkOutHeader len err unique) ++ payload in
  (length reply ≤ length (addrs w))%nat →
  (w' ← on_mem EncodeMessage (write_chunks (as_slice (mkOutHeader len err unique) :: chunks) w);
   _ ← assert_written len w'; mret (bytes_written w')) s = replied s (srv_fs s) reply.
Proof.
  intros Hc Hlen reply Hl. pose proof (write_chunks_spec (as_slice (mkOutHeader len err unique) :: chunks) w (srv_mem s) Hw) as Hs.
  cbn [concat] in Hs. rewrite Hc in Hs. fold reply in Hs. cbv zeta in Hs. rewrite decide_True in Hs by done.
  destruct Hs as (w' & Hwr & Hadv). unfold on_mem, mbind at 1, stm_bind at 1. rewrite Hwr. cbn [map_err].
  assert (length reply = (16 + length payload)%nat) as Hr.
  { subst reply. by rewrite length_app, length_as_slice. }
  replace len with (Z.of_nat (length reply)) at 1 by lia. by rewrite (assert_ok w Hfresh (length reply)).
Qed.

Lemma reply_ok_exact out data unique s :
  let payload := default [] out ++ default [] data in
  let reply := as_slice (mkOutHeader (16 + Z.of_nat (length payload)) 0 unique) ++ payload in
  (length reply ≤ length (addrs w))%nat →
  reply_ok out data unique w s = replied s (srv_fs s) reply.
Proof.
  intros payload reply Hl. rewrite reply_ok_chunks.
  assert (header_len + opt_len out + opt_len data = 16 + Z.of_nat (length payload)) as ->.
  { subst payload. rewrite length_app. change header_len with 16. destruct out, data; simpl; lia. }
  assert (length reply = (16 + length payload)%nat) as Hr.
  { subst reply. by rewrite length_app, length_as_slice. }
  rewrite as_u32_small by (unfold in_width; lia). apply write_reply_exact; [apply concat_options | done | done].
Qed.

Lemma reply_error_exact e unique s :
  let reply := as_slice (mkOutHeader 16 (- default EIO (raw_os_error e)) unique) in
  (length reply ≤ length (addrs w))%nat → reply_error e unique w s = replied s (srv_fs s) reply.
Proof.
  intros reply Hl.
  pose proof (write_reply_exact [] (- default EIO (raw_os_error e)) unique [] 16 s eq_refl eq_refl) as H.
  rewrite app_nil_r in H. subst reply. rewrite <- H by done. unfold reply_error, write_reply, on_mem, mbind, stm_bind.
  cbn [write_chunks]. unfold mbind, stm_bind. change header_len with 16. by destruct (write_all _ w _) as [[w1| |] m1].
Qed.

Lemma answer_exact {A : Type} (op : operation A) f unique s res f' :
  infallible op = false → fs A op (srv_fs s) = (res, f') → res ≠ Panic →
  (length (reply_to op unique res) ≤ length (addrs w))%nat →
  (∀ a, ∃ out data, f a = reply_ok out data unique w ∧ default [] out ++ default [] data = payload op a) →
  answer fs op f unique w s = replied s f' (reply_to op unique res).
Proof.
  intros Hi Hfs Hp Hl Hf. unfold answer, fs_call, mbind, stm_bind. rewrite Hfs.
  unfold reply_to in *. rewrite Hi in *. destruct res as [a|e|]; [| |done].
  - destruct (Hf a) as (out & data & -> & Hpay). rewrite <- Hpay in Hl |- *. by rewrite reply_ok_exact.
  - by rewrite reply_error_exact.
Qed.

(** The reply to a call that was decoded. *)
Ltac reply_exact :=
  unfold reply_unit, reply_entry, reply_attr, reply_open; apply answer_exact;
  [reflexivity | assumption | assumption | assumption |];
  let a := fresh in
  intros a;
  repeat lazymatch type of a with
         | (_ * _)%type => destruct a as [a ?]
         | GetxattrReply => destruct a as [?|?]
         | ListxattrReply => destruct a as [?|?]
         end;
  eexists _, _; (split; [reflexivity|]);
  cbn [default payload]; rewrite ?app_nil_r; reflexivity.

(** The message struct [a] at the front of what [Hh] says is read. *)
Ltac decoded a Hh :=
  let r := fresh "r" in
  let Hd := fresh "Hd" in
  let Hh' := fresh "Hh" in
  first [ destruct (decode_at a _ _ _ ltac:(try done) Hh) as (r & Hd & Hh')
        | destruct (decode_last a _ _ ltac:(try done) Hh) as (r & Hd & Hh') ];
  rewrite (stm_bind_ok _ _ _ _ _ Hd); clear Hd; cbv beta iota.

(** The options under which the client writes its messages: no security
    context is expected, and [setxattr] has the old layout. *)
Definition plain_options (options : Z) : Prop :=
  contains (FsOptions.from_bits_truncate options) FsOptions.SECURITY_CTX = false ∧
  contains (FsOptions.from_bits_truncate options) FsOptions.SETXATTR_EXT = false.

(** The handler of the operation, on the message of [op] in front of the
    reader, calls [op] and sends its result. *)
Definition served {A : Type} (page_size : Z) (op : operation A) : Prop :=
  ∀ ctx opcode nodeid body oc unique r s res f,
    encode op = Some (opcode, nodeid, body) → Opcode_try_from opcode = Some oc → call_ok op →
    context_of op = Some ctx → - 2 ^ 31 ≤ ctx_pid ctx < 2 ^ 31 → plain_options (srv_options s) →
    holds s r body → fs A op (srv_fs s) = (res, f) → res ≠ Panic →
    (length (reply_to op unique res) ≤ length (addrs w))%nat →
    dispatch_opcode fs page_size oc (header_of ctx opcode nodeid unique body) r w s =
    replied s f (reply_to op unique res).

Lemma encoded (opcode opcode' nodeid nodeid' : Z) (body body' : list Z) :
  Some (opcode, nodeid, body) = Some (opcode', nodeid', body') → opcode = opcode' ∧ nodeid = nodeid' ∧ body = body'.
Proof. by intros [= <- <- <-]. Qed.

Ltac serve :=
  intros ? ? ? ? ? unique r s res f He Ho Hok Hctx Hpid [Hsec Hxattr] Hh Hfs Hp Hl;
  apply encoded in He as (<- & <- & <-); injection Ho as <-; injection Hctx as <-; cbn [dispatch_opcode call_ok] in *.

(** The message after its first struct. *)
Ltac read_name Hh :=
  erewrite stm_bind_ok;
  [|apply read_rest_at; [exact Hh | cbn [InHeader_len header_of]; rewrite ?length_app, ?length_as_slice; reflexivity]];
  rewrite ?bytes_to_cstr_ok by done.

Ltac to_call := unfold mbind, stm_bind, lift; cbn [map_err]; rewrite context_of_header by done; cbn [header_of InHeader_nodeid InHeader_unique].

Lemma served_names page_size ctx parent name :
  served page_size (FLookup ctx parent name) ∧ served page_size (FUnlink ctx parent name) ∧
  served page_size (FRmdir ctx parent name) ∧ served page_size (FRemovexattr ctx parent name).
Proof.
  split_and!; serve; unfold fuse_lookup, fuse_unlink, fuse_rmdir, fuse_removexattr; read_name Hh; to_call; reply_exact.
Qed.

Lemma served_symlink page_size ctx linkname parent name ext : served page_size (FSymlink ctx linkname parent name ext).
Proof.
  serve. destruct Hok as (Hlink & Hname & ->). unfold fuse_symlink. read_name Hh.
  rewrite next_component_ok by done. unfold mbind, stm_bind, lift, get_options, gets. cbn [map_err].
  rewrite next_component_last by done. cbn [map_err].
  rewrite get_extensions_none by (done || apply length_app). cbn [map_err].
  rewrite !bytes_to_cstr_ok by done. to_call. reply_exact.
Qed.

(** A struct and the name of a new node. *)
Ltac serve_new a Hh :=
  decoded a Hh;
  lazymatch goal with
  | H : holds _ _ (cstr _) |- _ =>
      erewrite stm_bind_ok;
      [| apply name_at; [done | exact H | cbn [InHeader_len header_of]; rewrite length_app, length_as_slice; reflexivity | done]]
  end;
  to_call.

Lemma served_mknod page_size ctx parent name mode rdev umask ext :
  served page_size (FMknod ctx parent name mode rdev umask ext).
Proof.
  serve. destruct Hok as (Hr & Hname & ->). unfold fuse_mknod. serve_new (mkMknodIn mode rdev umask 0) Hh. reply_exact.
Qed.

Lemma served_mkdir page_size ctx parent name mode umask ext :
  served page_size (FMkdir ctx parent name mode umask ext).
Proof.
  serve. destruct Hok as (Hr & Hname & ->). unfold fuse_mkdir. serve_new (mkMkdirIn mode umask) Hh. reply_exact.
Qed.

Lemma flag_bit (b : bool) (v : Z) : v ≠ 0 → flag (bit b v) v = b.
Proof.
  intros Hv. unfold flag, bit. destruct b; [rewrite Z.land_diag | by rewrite Z.land_0_l].
  by rewrite (proj2 (Z.eqb_neq v 0) Hv).
Qed.

Lemma served_create page_size ctx parent name mode kill_priv flags umask ext :
  served page_size (FCreate ctx parent name mode kill_priv flags umask ext).
Proof.
  serve. destruct Hok as (Hr & Hname & ->). unfold fuse_create.
  serve_new (mkCreateIn flags mode umask (bit kill_priv OPEN_KILL_SUIDGID)) Hh.
  cbn [CreateIn_open_flags]. rewrite flag_bit by done. reply_exact.
Qed.

Lemma served_rename page_size ctx olddir oldname newdir newname flags :
  served page_size (FRename ctx olddir oldname newdir newname flags).
Proof.
  serve. destruct Hok as (Hr & Hold & Hnew & Hflags). unfold fuse_rename2. decoded (mkRename2In newdir flags 0) Hh.
  unfold do_rename. read_name Hh0. rewrite split_at_nul_ok by done. unfold mbind, stm_bind, lift. cbn [map_err].
  rewrite !bytes_to_cstr_ok by done. to_call. cbn [Rename2In_newdir Rename2In_flags].
  apply Forall2_cons in Hr as [_ [Hf _]%Forall2_cons]. cbn [Rename2In_flags] in Hf.
  change RENAME_FLAGS with (Z.ones 3). rewrite Z.land_ones, Z.mod_small by lia. reply_exact.
Qed.

Lemma served_link page_size ctx inode newparent newname : served page_size (FLink ctx inode newparent newname).
Proof.
  serve. destruct Hok as (Hr & Hname). unfold fuse_link. decoded (mkLinkIn inode) Hh. read_name Hh0. to_call. reply_exact.
Qed.

Lemma served_setxattr page_size ctx inode name value flags extra_flags :
  served page_size (FSetxattr ctx inode name value flags extra_flags).
Proof.
  serve. destruct Hok as (Hr & Hname & ->). unfold fuse_setxattr.
  destruct (decode_setxattr_at _ _ _ r s Hxattr Hr Hh) as (r' & Hd & Hh'). rewrite (stm_bind_ok _ _ _ _ _ Hd).
  cbv beta iota. read_name Hh'. rewrite split_at_nul_ok by done. unfold mbind, stm_bind, lift. cbn [map_err].
  rewrite bytes_to_cstr_ok by done. cbn [SetxattrIn_size].
  apply Forall2_cons in Hr as [Hsz _]. cbn [SetxattrInCompat_size] in Hsz.
  rewrite as_u32_small by (unfold in_width; lia). rewrite Z.eqb_refl. cbn [negb]. to_call.
  change (SetxattrFlags_from_bits_truncate _) with 0. reply_exact.
Qed.

Lemma served_getxattr page_size ctx inode name size : served page_size (FGetxattr ctx inode name size).
Proof.
  serve. destruct Hok as (Hr & Hname & Hsize). unfold fuse_getxattr. decoded (mkGetxattrIn size 0) Hh. read_name Hh0.
  cbn [GetxattrIn_size]. rewrite (proj2 (Z.ltb_ge MAX_BUFFER_SIZE size)) by done. to_call. reply_exact.
Qed.

Lemma served_listxattr page_size ctx inode size : served page_size (FListxattr ctx inode size).
Proof.
  serve. destruct Hok as (Hr & Hsize). unfold fuse_listxattr. decoded (mkGetxattrIn size 0) Hh.
  cbn [GetxattrIn_size]. rewrite (proj2 (Z.ltb_ge MAX_BUFFER_SIZE size)) by done. to_call. reply_exact.
Qed.

(** The operations without names. *)
Lemma served_forget page_size ctx inode count : served page_size (FForget ctx inode count).
Proof.
  serve. unfold fuse_forget. decoded (mkForgetIn count) Hh. unfold fs_do, fs_call. to_call. cbn [ForgetIn_nlookup].
  rewrite Hfs. by destruct res.
Qed.

Lemma served_getattr page_size ctx inode handle : served page_size (FGetattr ctx inode handle).
Proof.
  serve. unfold fuse_getattr. decoded (mkGetattrIn (opt_bit handle GETATTR_FH) 0 (default 0 handle)) Hh.
  to_call. destruct handle; reply_exact.
Qed.

Lemma served_setattr page_size ctx inode attr handle valid : served page_size (FSetattr ctx inode attr handle valid).
Proof.
  serve. destruct Hok as (Hr & -> & ->). unfold fuse_setattr. decoded attr Hh. to_call. reply_exact.
Qed.

Lemma served_release page_size ctx inode flags handle flush flock_release lock_owner :
  served page_size (FRelease ctx inode flags handle flush flock_release lock_owner).
Proof.
  serve. destruct Hok as (Hr & Howner). unfold fuse_release.
  decoded (mkReleaseIn handle flags (bit flush RELEASE_FLUSH + bit flock_release RELEASE_FLOCK_UNLOCK) (default 0 lock_owner)) Hh.
  to_call. destruct lock_owner as [owner|].
  - destruct (proj1 Howner ltac:(done)) as [-> | ->]; [destruct flock_release | destruct flush]; reply_exact.
  - destruct flush; [by destruct (proj2 Howner ltac:(by left))|].
    destruct flock_release; [by destruct (proj2 Howner ltac:(by right))|]. reply_exact.
Qed.

Lemma served_open page_size ctx inode kill_priv flags :
  served page_size (FOpen ctx inode kill_priv flags) ∧ served page_size (FOpendir ctx inode flags).
Proof.
  split; serve.
  - unfold fuse_open. decoded (mkOpenIn flags (bit kill_priv OPEN_KILL_SUIDGID)) Hh. to_call.
    cbn [OpenIn_open_flags]. rewrite flag_bit by done. reply_exact.
  - unfold fuse_opendir. decoded (mkOpenIn flags 0) Hh. to_call. reply_exact.
Qed.

Lemma served_fsync page_size ctx inode datasync handle :
  served page_size (FFsync ctx inode datasync handle) ∧ served page_size (FFsyncdir ctx inode datasync handle).
Proof.
  split; serve; unfold fuse_fsync, fuse_fsyncdir; decoded (mkFsyncIn handle (bit datasync 1) 0) Hh; to_call;
    cbn [FsyncIn_fsync_flags]; rewrite flag_bit by done; reply_exact.
Qed.

Ltac serve_struct a Hh := decoded a Hh; to_call; reply_exact.

Lemma served_handles page_size ctx inode handle flags lock_owner :
  served page_size (FFlush ctx inode handle lock_owner) ∧ served page_size (FReleasedir ctx inode flags handle) ∧
  served page_size (FAccess ctx inode flags).
Proof.
  split_and!; serve.
  - unfold fuse_flush. serve_struct (mkFlushIn handle 0 0 lock_owner) Hh.
  - unfold fuse_releasedir. serve_struct (mkReleaseIn handle flags 0 0) Hh.
  - unfold fuse_access. serve_struct (mkAccessIn flags 0) Hh.
Qed.

Lemma served_ranges page_size ctx inode handle mode offset len whence inode_out handle_out offset_out flags :
  served page_size (FFallocate ctx inode handle mode offset len) ∧
  served page_size (FLseek ctx inode handle offset whence) ∧
  served page_size (FCopyfilerange ctx inode handle offset inode_out handle_out offset_out len flags).
Proof.
  split_and!; serve.
  - unfold fuse_fallocate. serve_struct (mkFallocateIn handle offset len mode 0) Hh.
  - unfold fuse_lseek. serve_struct (mkLseekIn handle offset whence 0) Hh.
  - unfold fuse_copyfilerange. serve_struct (mkCopyfilerangeIn handle offset inode_out handle_out offset_out len flags) Hh.
Qed.

Lemma served_inode page_size ctx inode :
  served page_size (FReadlink ctx inode) ∧ served page_size (FStatfs ctx inode) ∧ served page_size (FSyncfs ctx inode).
Proof. split_and!; serve; unfold fuse_readlink, fuse_statfs, fuse_syncfs; to_call; reply_exact. Qed.

End calls.

Lemma served_all {S A : Type} (fs : FileSystem S) w page_size (op : operation A) :
  cursor_ok w → bytes_written w = 0 → Z.of_nat (length (addrs w)) < 2 ^ 32 → is_Some (encode op) →
  served fs w page_size op.
Proof.
  intros Hw Hf Hr He. destruct op; cbn [encode] in He; try (by destruct He).
  all: lazymatch goal with
    | |- served _ _ _ (FOpendir ?ctx ?inode ?flags) => apply (served_open fs w Hw Hf Hr page_size ctx inode true flags)
    | |- served _ _ _ (FFlush ?ctx ?inode ?handle ?owner) => apply (served_handles fs w Hw Hf Hr page_size ctx inode handle 0 owner)
    | |- served _ _ _ (FReleasedir ?ctx ?inode ?flags ?handle) => apply (served_handles fs w Hw Hf Hr page_size ctx inode handle flags 0)
    | |- served _ _ _ (FAccess ?ctx ?inode ?mask) => apply (served_handles fs w Hw Hf Hr page_size ctx inode 0 mask 0)
    | |- served _ _ _ (FFallocate ?ctx ?inode ?handle ?mode ?offset ?len) =>
        apply (served_ranges fs w Hw Hf Hr page_size ctx inode handle mode offset len 0 0 0 0 0)
    | |- served _ _ _ (FLseek ?ctx ?inode ?handle ?offset ?whence) =>
        apply (served_ranges fs w Hw Hf Hr page_size ctx inode handle 0 offset 0 whence 0 0 0 0)
    | |- served _ _ _ (FCopyfilerange ?ctx ?inode ?handle ?offset ?inode' ?handle' ?offset' ?len ?flags) =>
        apply (served_ranges fs w Hw Hf Hr page_size ctx inode handle 0 offset len 0 inode' handle' offset' flags)
    | _ => first [by apply served_names | by apply served_inode | by apply served_open | by apply served_fsync
                 | by apply served_symlink | by apply served_mknod | by apply served_mkdir | by apply served_create
                 | by apply served_rename | by apply served_link | by apply served_setxattr | by apply served_getxattr
                 | by apply served_listxattr | by apply served_forget | by apply served_getattr
                 | by apply served_setattr | by apply served_release]
    end.
Qed.

(** The operation code of a call is one the server knows. *)
Lemma encoded_opcode {A : Type} (op : operation A) opcode nodeid body :
  encode op = Some (opcode, nodeid, body) → is_Some (Opcode_try_from opcode).
Proof. destruct op; cbn [encode]; intros He; try done; apply encoded in He as (<- & _ & _); by eexists. Qed.

(** C15. The FUSE server carries calls: a client that encodes an operation with
    its arguments as the protocol lays them out, in whatever readable buffers,
    gets the result of exactly that operation of the file system, called once
    with the same arguments and the identity in the header, encoded behind a
    header with its length, the request's number and no error; or the errno of
    its error; nothing for a forget. The state of the file system and the guest
    memory are changed by nothing else. *)
Theorem fuse_call {S A : Type} (fs : FileSystem S) page_size (op : operation A) ctx opcode nodeid body unique r w s res f :
  encode op = Some (opcode, nodeid, body) → context_of op = Some ctx → call_ok op → plain_options (srv_options s) →
  let header := header_of ctx opcode nodeid unique body in
  in_range header → - 2 ^ 31 ≤ ctx_pid ctx < 2 ^ 31 → InHeader_len header ≤ MAX_BUFFER_SIZE + FUSE_BUFFER_HEADER_SIZE →
  cursor_ok r → load_at (srv_mem s) (addrs r) = as_slice header ++ body →
  cursor_ok w → bytes_written w = 0 → Z.of_nat (length (addrs w)) < 2 ^ 32 →
  fs A op (srv_fs s) = (res, f) → res ≠ Panic →
  let reply := reply_to op unique res in
  (length reply ≤ length (addrs w))%nat →
  handle_message fs page_size r w s =
    (Ok (Z.of_nat (length reply)),
     mkServer f (srv_options s) (store_at (take (length reply) (addrs w)) reply (srv_mem s))).
Proof.
  intros He Hctx Hok Hopt header Hrange Hpid Hlen Hr Hm Hw Hf Hroom Hfs Hp reply Hl.
  destruct (encoded_opcode op opcode nodeid body He) as [oc Hoc].
  destruct (decode_at header body r s Hrange (conj Hr Hm)) as (r' & Hd & Hh).
  unfold handle_message. rewrite (stm_bind_ok _ _ _ _ _ Hd). cbv beta iota.
  rewrite (proj2 (Z.ltb_ge _ (InHeader_len header)) Hlen). change (InHeader_opcode header) with opcode. rewrite Hoc.
  by eapply (served_all fs w page_size op).
Qed.

(** *** A call

    A file system of one directory, which counts its lookups; the message of a
    lookup lies in two buffers, its reply in three. *)

Definition one_entry : Entry := mkFuseEntry 2 0 (mkAttr 2 5 1 0 0 0 0 0 0 33188 1 0 0 0 4096 0) (mkDuration 5 0) (mkDuration 5 0).

Definition one_dir : FileSystem Z := λ A op,
  match op with
  | FLookup _ parent name =>
      λ n, (if decide (parent = 1 ∧ name = "a") then Ok one_entry else Err (os_error 2), n + 1)
  | op => FileSystem_default (λ _ _, panic) _ op
  end.

Definition call_bytes : list Z :=
  as_slice (header_of (mkContext 1000 1000 77) 1 1 9 (cstr "a")) ++ cstr "a".
Definition call_reader : Reader := mkConsumer [mkSlice 0 30; mkSlice 100 12] 0.
Definition call_writer : Writer := mkConsumer [mkSlice 200 20; mkSlice 300 100; mkSlice 500 60] 0.
Definition call_server : Server Z := mkServer 0 0 (store_at (addrs call_reader) call_bytes ∅).

Lemma fuse_call_witness :
  let reply := as_slice (mkOutHeader 144 0 9) ++ as_slice (EntryOut_from one_entry) in
  handle_message one_dir 4096 call_reader call_writer call_server =
    (Ok (Z.of_nat 144), mkServer 1 0 (store_at (take 144 (addrs call_writer)) reply (srv_mem call_server))).
Proof.
  apply (fuse_call one_dir 4096 (FLookup (mkContext 1000 1000 77) 1 "a") (mkContext 1000 1000 77) 1 1 (cstr "a") 9
    call_reader call_writer call_server (Ok one_entry) 1).
  - reflexivity.
  - reflexivity.
  - apply (bool_decide_unpack _). by vm_compute.
  - split; by vm_compute.
  - repeat constructor; by vm_compute.
  - by vm_compute.
  - by vm_compute.
  - split; [repeat constructor; by vm_compute | split; by vm_compute].
  - by vm_compute.
  - split; [repeat constructor; by vm_compute | split; by vm_compute].
  - reflexivity.
  - by vm_compute.
  - reflexivity.
  - done.
  - apply (bool_decide_unpack _). by vm_compute.
Defined.
