(* ===== verification/FuseListing.v ===== *)
(** * The references of a directory listing

    [readdirplus] looks up every entry it sends, and the kernel counts a
    reference for each record it receives: a lookup whose record is not sent is
    undone, so that the file system's counts are those of the kernel. *)

From stdpp Require Import base gmap strings list.
From S2P Require Import Prelude Fuse FileSystem Descriptors FuseServer FuseFacts FuseCalls.
#[local] Open Scope Z_scope.

Lemma concat_dirent_chunks d e : concat (dirent_chunks d e) = dirent_bytes d e.
Proof. done. Qed.
#[local] Opaque dirent_bytes dirent_chunks.

(** ** References *)

Inductive event :=
  | Looked (inode : Z)
  | Forgot (inode count : Z).

Definition references (A : Type) (op : operation A) : outcome io_error A → list event :=
  match op in operation A return outcome io_error A → list event with
  | FLookup _ _ _ => λ r, match r with Ok e => [Looked (entry_inode e)] | _ => [] end
  | FForget _ inode count => λ _, [Forgot inode count]
  | _ => λ _, []
  end.

(** The references to an inode that are left. *)
Definition event_value (inode : Z) (e : event) : Z :=
  match e with
  | Looked i => if i =? inode then 1 else 0
  | Forgot i count => if i =? inode then - count else 0
  end.
Definition net (inode : Z) (evs : list event) : Z := foldr (λ e n, event_value inode e + n) 0 evs.

Lemma net_app inode evs evs' : net inode (evs ++ evs') = net inode evs + net inode evs'.
Proof. induction evs as [|e evs IH]; simpl; [done|]. rewrite IH. lia. Qed.

(** The records of a reply, and how many of them refer to an inode. *)
Definition packed (records : list (DirEntry * Entry)) : list Z :=
  concat ((λ p, dirent_bytes p.1 (Some p.2)) <$> records).
Definition received (inode : Z) (records : list (DirEntry * Entry)) : Z :=
  Z.of_nat (length (filter (λ p, entry_inode p.2 = inode) records)).

Lemma packed_snoc records d e : packed (records ++ [(d, e)]) = packed records ++ dirent_bytes d (Some e).
Proof. unfold packed. rewrite fmap_app, concat_app. f_equal. apply app_nil_r. Qed.

Lemma received_cons inode d e records :
  received inode ((d, e) :: records) = (if entry_inode e =? inode then 1 else 0) + received inode records.
Proof. unfold received. rewrite filter_cons. simpl. case_decide; destruct (Z.eqb_spec (entry_inode e) inode); simpl; lia. Qed.

(** ** Writing a record *)

Section listing.
Context {S : Type} (fs : FileSystem S).
Abbreviation counted := (observing references fs).
Abbreviation server_state := (Server (S * list event)).

(** A record is written at the cursor, or nothing is when it is larger than
    [max]; the file system is not touched. *)
Lemma add_entry_cases c max d e (s s' : server_state) r :
  cursor_ok c → add_entry c max d (Some e) s = (Ok r, s') →
  srv_fs s' = srv_fs s ∧ srv_options s' = srv_options s ∧
  match r with
  | inl _ => ∀ a, a ∉ addrs c → srv_mem s' !! a = srv_mem s !! a
  | inr (n, c') =>
      n = 0 ∧ s' = s ∨
      let bs := dirent_bytes d (Some e) in
      n = Z.of_nat (length bs) ∧ n ≤ max ∧ (length bs ≤ length (addrs c))%nat ∧ advanced (length bs) c c' ∧
      srv_mem s' = store_at (take (length bs) (addrs c)) bs (srv_mem s)
  end.
Proof.
  intros Hc. unfold add_entry. destruct (Z.leb_spec (2 ^ 32) (Z.of_nat (String.length (de_name d)))) as [Hlong|Hshort].
  { unfold add_dirent. rewrite length_bytes_of_string, (proj2 (Z.leb_le _ _)) by done. by intros [= <- <-]. }
  rewrite add_dirent_spec by done. cbv zeta. destruct (Z.ltb_spec max (Z.of_nat (length (dirent_bytes d (Some e))))) as [|Hmax].
  { intros [= <- <-]. split_and!; [done | done|]. left. split; [done|]. by destruct s. }
  pose proof (write_chunks_spec (dirent_chunks d (Some e)) c (srv_mem s) Hc) as Hs. cbv zeta in Hs.
  rewrite concat_dirent_chunks in Hs. unfold mbind, stm_bind. destruct (decide _) as [Hl|_].
  - destruct Hs as (c' & -> & Hadv). intros [= <- <-]. split_and!; [done | done|]. by right.
  - destruct Hs as (m' & -> & Hm'). by intros [= <- <-].
Qed.

Section loop.
Context (w2 : Writer) (Hnd : NoDup (addrs w2)).

(** The first records are in the buffer. *)
Definition stored (records : list (DirEntry * Entry)) (mm : mem) : Prop :=
  (length (packed records) ≤ length (addrs w2))%nat ∧
  load_at mm (take (length (packed records)) (addrs w2)) = packed records.

Lemma stored_other records mm mm' :
  (∀ a, a ∉ drop (length (packed records)) (addrs w2) → mm' !! a = mm !! a) →
  stored records mm → stored records mm'.
Proof.
  intros Hout [Hl Hm]. split; [done|]. etrans; [|exact Hm]. apply list_fmap_ext. intros i a Ha%list_elem_of_lookup_2.
  rewrite Hout; [done|]. intros Hin. rewrite <- (take_drop (length (packed records)) (addrs w2)) in Hnd.
  apply NoDup_app in Hnd as (_ & Hd & _). by apply (Hd a).
Qed.

Lemma stored_snoc records d e mm :
  stored records mm →
  let bs := dirent_bytes d (Some e) in
  let rest := drop (length (packed records)) (addrs w2) in
  (length bs ≤ length rest)%nat →
  stored (records ++ [(d, e)]) (store_at (take (length bs) rest) bs mm).
Proof.
  intros Hst bs rest Hl. pose proof (stored_other records mm (store_at (take (length bs) rest) bs mm)) as Ho.
  destruct Ho as [_ Hm]; [|done|].
  { intros a Ha. apply store_at_outside. intros Hin. apply Ha. by eapply subseteq_take. }
  destruct Hst as [Hlen _]. unfold stored. rewrite packed_snoc, length_app. fold bs.
  subst rest. rewrite length_drop in Hl. split; [lia|]. set (n := length (packed records)) in *.
  rewrite <- (take_drop n (take (n + length bs) (addrs w2))), take_take, Nat.min_l by lia.
  unfold load_at in *. rewrite fmap_app, Hm. f_equal. rewrite <- take_drop_commute. apply load_store.
  - eapply sublist_NoDup; [exact Hnd|]. etrans; [apply sublist_take | apply sublist_drop].
  - rewrite length_take, length_drop. lia.
Qed.

(** The events of a step that does not touch the memory. *)
Definition gained (evs : list event) (s s' : server_state) : Prop :=
  (srv_fs s').2 = (srv_fs s).2 ++ evs ∧ srv_mem s' = srv_mem s.

Lemma handle_dirent_events hd d s s' r :
  handle_dirent counted hd d s = (Ok r, s') →
  ∃ evs, gained evs s s' ∧
    match r with
    | inl _ => evs = []
    | inr e => ∀ i, i ≠ 0 → net i evs = if entry_inode e =? i then 1 else 0
    end.
Proof.
  unfold handle_dirent. case_decide.
  { intros [= <- <-]. exists []. split; [by split; [rewrite app_nil_r|]|]. intros i Hi. cbn [entry_inode net foldr].
    by rewrite (proj2 (Z.eqb_neq 0 i)). }
  unfold fs_call, observing. destruct (fs _ _ (srv_fs s).1) as [[e|e|] f]; intros [= <- <-].
  - exists [Looked (entry_inode e)]. split; [done|]. intros i _. simpl. lia.
  - exists []. by split.
Qed.

Lemma undo_lookup_events hd e s s' :
  undo_lookup counted hd e s = (Ok (), s') → gained [Forgot (entry_inode e) 1] s s'.
Proof.
  unfold undo_lookup, fs_do, fs_call, observing, mbind, stm_bind.
  by destruct (fs _ _ (srv_fs s).1) as [[] f]; intros [= <-].
Qed.

(** What the loop adds to the records in the buffer: the events of the lookups
    that are left are those of the new records. *)
Definition listed (size : Z) (records : list (DirEntry * Entry)) (entries : list DirEntry) (s s' : server_state)
    (r : io_error + Z) : Prop :=
  ∃ more evs, let records' := records ++ more in
    (srv_fs s').2 = (srv_fs s).2 ++ evs ∧ more.*1 `prefix_of` entries ∧
    (∀ i, i ≠ 0 → net i evs = received i more) ∧ stored records' (srv_mem s') ∧
    Z.of_nat (length (packed records')) ≤ Z.max 0 size ∧
    match r with inr t => t = Z.of_nat (length (packed records')) | inl _ => packed records' = [] end.

(** The loop stops without another record. *)
Lemma listed_stop size records entries s s' evs r :
  let total := Z.of_nat (length (packed records)) in
  (srv_fs s').2 = (srv_fs s).2 ++ evs → (∀ i, i ≠ 0 → net i evs = 0) → stored records (srv_mem s') → total ≤ Z.max 0 size →
  (r = inr total ∨ ∃ e, r = if total =? 0 then inl e else inr total) → listed size records entries s s' r.
Proof.
  intros total Hev Hnet Hst Hsize Hr. exists [], evs. rewrite app_nil_r. split_and!; [done | apply prefix_nil | done.. |].
  destruct Hr as [-> | [e ->]]; [done|]. destruct (Z.eqb_spec total 0) as [H0|]; [|done].
  by apply nil_length_inv, Nat2Z.inj.
Qed.

Lemma dirent_bytes_nonempty d e : Z.of_nat (length (dirent_bytes d e)) ≠ 0.
Proof. rewrite length_dirent_bytes. pose proof (padded_bounds (24 + Z.of_nat (String.length (de_name d)))). destruct e; lia. Qed.

(** The lookup of a record that is not sent is undone. *)
Lemma undone_net i e evs :
  net i evs = (if entry_inode e =? i then 1 else 0) → net i (evs ++ [Forgot (entry_inode e) 1]) = 0.
Proof. intros H. rewrite net_app, H. simpl. destruct (_ =? i); lia. Qed.

Lemma readdirplus_loop_listed hd size entries records c (s s' : server_state) r :
  let total := length (packed records) in
  cursor_ok c → addrs c = drop total (addrs w2) → stored records (srv_mem s) → Z.of_nat total ≤ Z.max 0 size →
  readdirplus_loop counted hd size (Z.of_nat total) c entries s = (Ok r, s') → listed size records entries s s' r.
Proof.
  revert records c s. induction entries as [|d entries IH]; intros records c s total Hc Ha Hst Hsize.
  { intros [= <- <-]. apply (listed_stop _ _ _ _ _ []); try done; [by rewrite app_nil_r | by left]. }
  cbn [readdirplus_loop]. unfold mbind at 1, stm_bind at 1.
  destruct (handle_dirent counted hd d s) as [[r1| |] s1] eqn:E1; [|done|done].
  destruct (handle_dirent_events hd d s s1 r1 E1) as (evs1 & [Hev1 Hm1] & Hr1). destruct r1 as [e|entry].
  { intros [= <- <-]. subst evs1. apply (listed_stop _ _ _ _ _ []); try done; [by rewrite Hm1 | right; by exists e]. }
  unfold mbind at 1, stm_bind at 1. destruct (add_entry c _ d (Some entry) s1) as [[r2| |] s2] eqn:E2; [|done|done].
  destruct (add_entry_cases c _ d entry s1 s2 r2 Hc E2) as (Hfs2 & _ & Hr2).
  assert (∀ s3, undo_lookup counted hd entry s2 = (Ok (), s3) → stored records (srv_mem s2) →
    ∃ evs, (srv_fs s3).2 = (srv_fs s).2 ++ evs ∧ (∀ i, i ≠ 0 → net i evs = 0) ∧ stored records (srv_mem s3)) as Hundo.
  { intros s3 [Hev3 Hm3]%undo_lookup_events Hst2. eexists (evs1 ++ [_]). split_and!.
    - by rewrite Hev3, Hfs2, Hev1, app_assoc.
    - intros i Hi. by apply undone_net, Hr1.
    - by rewrite Hm3. }
  destruct r2 as [e|[n c']].
  - assert (stored records (srv_mem s2)) as Hst2.
    { apply (stored_other records (srv_mem s1)); [intros a Hin; apply Hr2; by rewrite Ha | by rewrite Hm1]. }
    unfold mbind at 1, stm_bind at 1. destruct (undo_lookup counted hd entry s2) as [[[]| |] s3] eqn:E3; [|done|done].
    intros [= <- <-]. destruct (Hundo s3 eq_refl Hst2) as (evs & ? & ? & ?).
    apply (listed_stop _ _ _ _ _ evs); try done. right. by exists e.
  - destruct (Z.eqb_spec n 0) as [Hn|Hn].
    + destruct Hr2 as [[_ ->]|[H _]]; [|by rewrite Hn in H; destruct (dirent_bytes_nonempty d (Some entry))].
      unfold mbind at 1, stm_bind at 1. destruct (undo_lookup counted hd entry s1) as [[[]| |] s3] eqn:E3; [|done|done].
      intros [= <- <-]. destruct (Hundo s3 eq_refl ltac:(by rewrite Hm1)) as (evs & ? & ? & ?).
      apply (listed_stop _ _ _ _ _ evs); try done. by left.
    + destruct Hr2 as [[? _]|(Hlen & Hmax & Hfit & (Hc' & Ha' & _) & Hm2)]; [done|].
      rewrite Ha, length_drop in Hfit. rewrite Ha in Hm2.
      assert (length (packed (records ++ [(d, entry)])) = total + length (dirent_bytes d (Some entry)))%nat as Htot.
      { by rewrite packed_snoc, length_app. }
      intros Hloop. destruct (IH (records ++ [(d, entry)]) c' s2) as (more & evs & Hev & Hpre & Hnet & Hst' & Hsz & Hr).
      * done.
      * by rewrite Ha', Ha, drop_drop, Htot.
      * rewrite Hm2. apply stored_snoc; [by rewrite Hm1|]. rewrite length_drop. lia.
      * pose proof (dirent_bytes_nonempty d (Some entry)). lia.
      * rewrite Htot, Nat2Z.inj_add, <- Hlen. done.
      * rewrite <- app_assoc in *. exists ((d, entry) :: more), (evs1 ++ evs). split_and!; try done.
        -- by rewrite Hev, Hfs2, Hev1, app_assoc.
        -- by apply prefix_cons.
        -- intros i Hi. by rewrite net_app, Hnet, received_cons, Hr1.
Qed.

End loop.

(** ** The reply *)

Section reply.
Context (w : Writer) (Hw : cursor_ok w) (Hfresh : bytes_written w = 0) (Hnd : NoDup (addrs w)).

(** A header written alone. *)
Lemma write_header_done (hdr : OutHeader) w1 (s s1 : server_state) w' :
  cursor_ok w1 → write_reply (as_slice hdr) w1 s = (Ok w', s1) →
  (16 ≤ length (addrs w1))%nat ∧ srv_fs s1 = srv_fs s ∧ advanced 16 w1 w' ∧
  srv_mem s1 = store_at (take 16 (addrs w1)) (as_slice hdr) (srv_mem s).
Proof.
  intros Hw1. unfold write_reply, on_mem.
  assert (length (as_slice hdr) = 16%nat) as Hl by by rewrite length_as_slice.
  destruct (decide (16 ≤ length (addrs w1))%nat) as [H16|H16].
  - destruct (write_all_ok (as_slice hdr) w1 (srv_mem s) Hw1 ltac:(lia)) as (w'' & -> & Hadv). cbn [map_err].
    rewrite Hl in Hadv |- *. intros H. apply pair_eq in H as [Hr <-]. by injection Hr as <-.
  - rewrite (write_all_short (as_slice hdr) w1 (srv_mem s) Hw1) by lia. done.
Qed.

Lemma reply_error_done e unique w1 (s s1 : server_state) n :
  cursor_ok w1 → bytes_written w1 = 0 → NoDup (addrs w1) → reply_error e unique w1 s = (Ok n, s1) →
  n = 16 ∧ srv_fs s1 = srv_fs s ∧
  load_at (srv_mem s1) (take 16 (addrs w1)) = as_slice (mkOutHeader 16 (- default EIO (raw_os_error e)) unique).
Proof.
  intros Hw1 Hf1 Hnd1. unfold reply_error. set (hdr := mkOutHeader _ _ _). unfold mbind at 1, stm_bind at 1.
  destruct (write_reply (as_slice hdr) w1 s) as [[w'| |] s2] eqn:E; [|done|done].
  destruct (write_header_done hdr w1 s s2 w' Hw1 E) as (H16 & Hfs & (_ & _ & Hb) & Hm).
  unfold bytes_written in *. unfold mbind, stm_bind, assert_written, bytes_written. rewrite Hb, Hf1.
  change (OutHeader_len hdr =? 0 + Z.of_nat 16) with true. intros [= <- <-]. split_and!; [done | done|].
  rewrite Hm. apply load_store; [|by rewrite length_as_slice, length_take, Nat.min_l].
  eapply sublist_NoDup; [exact Hnd1 | apply sublist_take].
Qed.

(** The entries the file system returns to the request. *)
Definition listing (hd : InHeader) (b : ReadIn) (f : S) : list DirEntry :=
  match (fs _ (FReaddir (Context_from hd) (InHeader_nodeid hd) (ReadIn_fh b) (ReadIn_size b) (ReadIn_offset b)) f).1 with
  | Ok entries => entries
  | _ => []
  end.

(** The reply is the records of the first entries; the lookups that are left
    are theirs. *)
Definition balanced (hd : InHeader) (b : ReadIn) (s : server_state) (n : Z) (s' : server_state) : Prop :=
  ∃ err records evs,
    load_at (srv_mem s') (take (Z.to_nat n) (addrs w)) =
      as_slice (mkOutHeader n err (InHeader_unique hd)) ++ packed records ∧
    (srv_fs s').2 = (srv_fs s).2 ++ evs ∧ (∀ i, i ≠ 0 → net i evs = received i records) ∧
    records.*1 `prefix_of` listing hd b (srv_fs s).1 ∧ Z.of_nat (length (packed records)) ≤ Z.max 0 (ReadIn_size b).

Lemma balanced_error hd b e w1 (s s1 s' : server_state) evs n :
  cursor_ok w1 → bytes_written w1 = 0 → NoDup (addrs w1) → take 16 (addrs w1) = take 16 (addrs w) →
  (srv_fs s1).2 = (srv_fs s).2 ++ evs → (∀ i, i ≠ 0 → net i evs = 0) →
  reply_error e (InHeader_unique hd) w1 s1 = (Ok n, s') → balanced hd b s n s'.
Proof.
  intros Hw1 Hf1 Hnd1 Htake Hev Hnet Hrep.
  destruct (reply_error_done e (InHeader_unique hd) w1 s1 s' n Hw1 Hf1 Hnd1 Hrep) as (-> & Hfs & Hm).
  exists (- default EIO (raw_os_error e)), [], evs. split_and!.
  - change (Z.to_nat 16) with 16%nat. by rewrite <- Htake, Hm, app_nil_r.
  - by rewrite Hfs.
  - done.
  - apply prefix_nil.
  - simpl. lia.
Qed.

(** The header in front of the records. *)
Lemma balanced_records hd b w1 w2 records (s s1 s' : server_state) evs n :
  splits w w1 w2 → Z.of_nat (length (addrs w)) < 2 ^ 32 →
  stored w2 records (srv_mem s1) → (srv_fs s1).2 = (srv_fs s).2 ++ evs →
  (∀ i, i ≠ 0 → net i evs = received i records) → records.*1 `prefix_of` listing hd b (srv_fs s).1 →
  Z.of_nat (length (packed records)) ≤ Z.max 0 (ReadIn_size b) →
  reply_readdir (Z.of_nat (length (packed records))) (InHeader_unique hd) w1 s1 = (Ok n, s') → balanced hd b s n s'.
Proof.
  intros (Hw1 & Hw2 & H16 & Ha1 & Ha2 & _) Hroom [Hfit Hrec] Hev Hnet Hpre Hsize. unfold reply_readdir.
  rewrite Ha2, length_drop in Hfit. set (k := length (packed records)) in *. cbv zeta.
  rewrite as_u32_small by (unfold in_width; change header_len with 16; lia). set (hdr := mkOutHeader _ _ _).
  unfold mbind, stm_bind. destruct (write_reply (as_slice hdr) w1 s1) as [[w'| |] s2] eqn:E; [|done|done].
  destruct (write_header_done hdr w1 s1 s2 w' Hw1 E) as (_ & Hfs & _ & Hm). intros [= <- <-].
  cbn [OutHeader_len hdr]. exists 0, records, evs. split_and!; [|by rewrite Hfs | done | done | done].
  replace (Z.to_nat (header_len + Z.of_nat k)) with (16 + k)%nat by (change header_len with 16; lia).
  rewrite <- (take_drop 16 (addrs w)) in Hnd. apply NoDup_app in Hnd as (Hn1 & Hdisj & _).
  rewrite Hm, Ha1, take_take, Nat.min_id.
  rewrite <- (take_drop 16 (take (16 + k) (addrs w))), take_take, Nat.min_l, <- take_drop_commute by lia.
  unfold load_at. rewrite fmap_app. f_equal.
  - apply load_store; [done|]. by rewrite length_as_slice, length_take, Nat.min_l.
  - rewrite <- Hrec, Ha2. apply load_store_other. intros a Hin Hin'. apply (Hdisj a Hin).
    by eapply subseteq_take.
Qed.

Lemma packed_nil records : packed records = [] → records = [].
Proof.
  destruct records as [|[d e] records]; [done|]. intros [H _]%app_nil.
  destruct (dirent_bytes_nonempty d (Some e)). cbn [fst snd] in H. by rewrite H.
Qed.

(** The listing, once there is room for the header. *)
Lemma answer_balanced hd b w1 w2 (s s' : server_state) n :
  splits w w1 w2 → Z.of_nat (length (addrs w)) < 2 ^ 32 →
  answer counted (FReaddir (Context_from hd) (InHeader_nodeid hd) (ReadIn_fh b) (ReadIn_size b) (ReadIn_offset b))
    (λ entries,
      result ← readdirplus_loop counted hd (ReadIn_size b) 0 w2 entries;
      match result with
      | inr total_written => reply_readdir total_written (InHeader_unique hd) w1
      | inl e => reply_error e (InHeader_unique hd) w1
      end) (InHeader_unique hd) w1 s = (Ok n, s') →
  balanced hd b s n s'.
Proof.
  intros Hsplit Hroom. pose proof Hsplit as (Hw1 & Hw2 & H16 & Ha1 & Ha2 & Hb1).
  assert (NoDup (addrs w1) ∧ NoDup (addrs w2)) as [Hnd1 Hnd2].
  { rewrite Ha1, Ha2. split; (eapply sublist_NoDup; [exact Hnd|]); [apply sublist_take | apply sublist_drop]. }
  assert (take 16 (addrs w1) = take 16 (addrs w)) as Htake by by rewrite Ha1, take_take.
  unfold answer, fs_call. unfold mbind at 1, stm_bind at 1. unfold observing at 1.
  destruct (fs _ _ (srv_fs s).1) as [[entries|e|] f] eqn:Efs; [| |done].
  2: { by apply (balanced_error _ _ _ w1 s _ s' []). }
  set (s1 := mkServer _ _ _). unfold mbind at 1, stm_bind at 1.
  destruct (readdirplus_loop counted hd (ReadIn_size b) 0 w2 entries s1) as [[res| |] s2] eqn:El; [|done|done].
  destruct (readdirplus_loop_listed w2 Hnd2 hd (ReadIn_size b) entries [] w2 s1 s2 res) as
    (records & evs & Hev & Hpre & Hnet & Hst & Hsize & Hres); try done.
  { split; simpl; [lia|done]. }
  { simpl. lia. }
  simpl app in *. rewrite app_nil_r in Hev. destruct res as [e|t]; [|subst t].
  - apply packed_nil in Hres as ->. by apply (balanced_error _ _ _ w1 s s2 s' evs).
  - apply (balanced_records hd b w1 w2 records s s2 s' evs n); try done. unfold listing. by rewrite Efs.
Qed.

Lemma fuse_readdirplus_balanced hd r (s s' : server_state) n :
  cursor_ok r → Z.of_nat (length (addrs w)) < 2 ^ 32 → fuse_readdirplus counted hd r w s = (Ok n, s') →
  balanced hd (from_slice (take (size_of ReadIn) (load_at (srv_mem s) (addrs r)))) s n s'.
Proof.
  intros Hr Hroom. unfold fuse_readdirplus, list_directory, decode, on_mem. unfold mbind at 1, stm_bind at 1.
  pose proof (read_obj_spec (A := ReadIn) r (srv_mem s) Hr) as Hd. destruct (decide _) as [_|_]; [|by rewrite Hd].
  destruct Hd as (r' & -> & _). cbn [map_err]. set (b := from_slice _). cbv zeta.
  set (s0 := mkServer (srv_fs s) (srv_options s) (srv_mem s)).
  assert (s0 = s) as -> by by destruct s. assert ((srv_fs s).2 = (srv_fs s).2 ++ []) as Hev0 by by rewrite app_nil_r.
  destruct (_ <? _); [by apply (balanced_error _ _ _ w s s s' [])|].
  destruct (_ <? _); [by apply (balanced_error _ _ _ w s s s' [])|].
  unfold mbind at 1, stm_bind at 1. destruct (within_split (S := S * list event) w Hw Hfresh s) as [_ Hsplit].
  destruct (split_header w s) as [[[w1 w2]| |] s1] eqn:E; [|done|done]. specialize (Hsplit _ _ eq_refl).
  assert (s1 = s) as ->. { unfold split_header in E. by destruct (split_at header_len w); injection E. }
  by apply answer_balanced.
Qed.

End reply.
End listing.

(** The request that a reader stands at, of [readdirplus]. *)
Definition readdir_request {S : Type} (r : Reader) (s : Server S) : ReadIn :=
  from_slice (take (size_of ReadIn) (drop (size_of InHeader) (load_at (srv_mem s) (addrs r)))).

(** C16. The kernel and the file system agree on the references that a
    directory listing makes. A reply to [readdirplus] holds, behind its header,
    exactly the records of the first entries the file system returned, within
    the size asked for; and for every inode the lookups made minus the forgets
    are the records sent for it, also when an entry does not fit, when its
    lookup fails and when the buffer ends early. *)
Theorem readdirplus_balanced {S : Type} (fs : FileSystem S) page_size r w (s s' : Server (S * list event)) n :
  cursor_ok r → cursor_ok w → bytes_written w = 0 → NoDup (addrs w) → Z.of_nat (length (addrs w)) < 2 ^ 32 →
  let header := request_header r s in
  let request := readdir_request r s in
  InHeader_opcode header = 44 →
  handle_message (observing references fs) page_size r w s = (Ok n, s') →
  ∃ err records evs,
    load_at (srv_mem s') (take (Z.to_nat n) (addrs w)) =
      as_slice (mkOutHeader n err (InHeader_unique header)) ++ packed records ∧
    (srv_fs s').2 = (srv_fs s).2 ++ evs ∧ (∀ i, i ≠ 0 → net i evs = received i records) ∧
    records.*1 `prefix_of` listing fs header request (srv_fs s).1 ∧
    Z.of_nat (length (packed records)) ≤ Z.max 0 (ReadIn_size request).
Proof.
  intros Hr Hw Hfresh Hnd Hroom header request Hop. unfold handle_message, decode, on_mem. unfold mbind at 1, stm_bind at 1.
  pose proof (read_obj_spec (A := InHeader) r (srv_mem s) Hr) as Hd. destruct (decide _) as [_|_]; [|by rewrite Hd].
  destruct Hd as (r' & -> & Hr' & Ha' & _). cbn [map_err]. fold (request_header r s). fold header.
  set (s0 := mkServer (srv_fs s) (srv_options s) (srv_mem s)). assert (s0 = s) as -> by by destruct s.
  destruct (_ <? _).
  { apply (balanced_error fs w header request (os_error ENOMEM) w s s s' []); try done. by rewrite app_nil_r. }
  rewrite Hop. cbn [Opcode_try_from dispatch_opcode]. intros H.
  apply (fuse_readdirplus_balanced fs w Hw Hfresh Hnd header r' s s' n Hr' Hroom) in H.
  rewrite Ha' in H. unfold load_at in H at 1. by rewrite fmap_drop in H.
Qed.

(** *** A listing

    A directory with two files; the reply has room for two records, so that the
    last entry is looked up and forgotten. *)

Definition two_entry (inode : Z) : Entry :=
  mkFuseEntry inode 0 (mkAttr inode 0 0 0 0 0 0 0 0 33188 1 0 0 0 4096 0) (mkDuration 0 0) (mkDuration 0 0).

Definition two_files : FileSystem unit := λ A op,
  match op with
  | FLookup _ _ name => λ s, (Ok (two_entry (if decide (name = "a") then 2 else 3)), s)
  | FReaddir _ _ _ _ _ => λ s, (Ok [mkDirEntry 1 1 4 "."; mkDirEntry 2 2 8 "a"; mkDirEntry 3 3 8 "b"], s)
  | op => FileSystem_default (λ _ _, panic) _ op
  end.

Definition listing_bytes : list Z :=
  as_slice (mkInHeader 80 44 9 1 0 0 1 0 0) ++ as_slice (mkReadIn 0 0 400 0 0 0 0).
Definition listing_reader : Reader := mkConsumer [mkSlice 0 50; mkSlice 100 30] 0.
Definition listing_writer : Writer := mkConsumer [mkSlice 200 30; mkSlice 300 400] 0.
Definition listing_server : Server (unit * list event) :=
  mkServer ((), []) 0 (store_at (addrs listing_reader) listing_bytes ∅).
Definition listing_after : Server (unit * list event) :=
  (handle_message (observing references two_files) 4096 listing_reader listing_writer listing_server).2.

Lemma readdirplus_balanced_witness :
  ∃ err records evs,
    load_at (srv_mem listing_after) (take 336 (addrs listing_writer)) = as_slice (mkOutHeader 336 err 9) ++ packed records ∧
    (srv_fs listing_after).2 = [] ++ evs ∧ (∀ i, i ≠ 0 → net i evs = received i records) ∧
    records.*1 `prefix_of` [mkDirEntry 1 1 4 "."; mkDirEntry 2 2 8 "a"; mkDirEntry 3 3 8 "b"] ∧
    Z.of_nat (length (packed records)) ≤ Z.max 0 400.
Proof.
  unfold listing_after.
  apply (readdirplus_balanced two_files 4096 listing_reader listing_writer listing_server _ 336).
  - split; [repeat constructor; by vm_compute | split; by vm_compute].
  - split; [repeat constructor; by vm_compute | split; by vm_compute].
  - reflexivity.
  - apply (bool_decide_unpack _). by vm_compute.
  - by vm_compute.
  - by vm_compute.
  - by vm_compute.
Defined.

Example listing_events : (srv_fs listing_after).2 = [Looked 2; Looked 3; Forgot 3 1].
Proof. by vm_compute. Qed.
