(* ===== verification/FusePanic.v ===== *)
(** * When the FUSE server panics

    A panic of the server ends the thread that serves the queue.  The server
    does not panic on any message, whatever its bytes, when the file system does
    not, the buffers for the reply have room for a header and the extensions
    of the message stay within it; the last two are in the hands of the guest. *)

From stdpp Require Import base gmap strings list.
From S2P Require Import Prelude Fuse FileSystem Descriptors FuseServer FuseFacts FuseCalls.
#[local] Open Scope Z_scope.

(** ** Cursors do not panic *)

Definition mem_never {A : Type} (m : MemM A) : Prop := ∀ mm, (m mm).1 ≠ Panic.

Lemma mem_never_bind {A B : Type} (m : MemM A) (f : A → MemM B) :
  mem_never m → (∀ a, mem_never (f a)) → mem_never (m ≫= f).
Proof.
  intros Hm Hf mm. unfold mbind, stm_bind. specialize (Hm mm). destruct (m mm) as [[a| |] mm']; [apply Hf | done | done].
Qed.
Lemma mem_never_ret {A : Type} (a : A) : mem_never (mret a).
Proof. by intros mm. Qed.

Lemma mem_never_consume {A : Type} n (f : list VolatileSlice → MemM (A * Z)) nothing c :
  (∀ bufs, mem_never (f bufs)) → mem_never (consume n f nothing c).
Proof.
  intros Hf. unfold consume. destruct (gather n 0 (buffers c)); [apply mem_never_ret|].
  apply mem_never_bind; [apply Hf|]. intros [a k] mm. by destruct (_ <=? _).
Qed.

Lemma mem_never_read_exact n r : mem_never (read_exact n r).
Proof.
  unfold read_exact. generalize (Z.to_nat n) as fuel. intros fuel. revert n r.
  induction fuel as [|fuel IH]; intros n r; simpl; destruct (n =? 0); try (by intros mm).
  apply mem_never_bind; [by apply mem_never_consume|]. intros [[bs k] r']. destruct (k =? 0); [by intros mm|].
  apply mem_never_bind; [apply IH|]. by intros [] mm.
Qed.

Lemma mem_never_read_obj {A : Type} `{ByteValued A} r : mem_never (read_obj (A := A) r).
Proof. apply mem_never_bind; [apply mem_never_read_exact|]. by intros [] mm. Qed.

Lemma mem_never_write_all bs w : mem_never (write_all bs w).
Proof.
  unfold write_all. generalize (length bs) as fuel. intros fuel. revert bs w.
  induction fuel as [|fuel IH]; intros [|b bs] w; try (by intros mm). cbn [write_loop].
  apply mem_never_bind.
  - apply mem_never_bind; [by apply mem_never_consume|]. by intros [[] ?] mm.
  - intros [n w']. destruct (n =? 0); [by intros mm | apply IH].
Qed.

Lemma mem_never_add_dirent c max d e : mem_never (add_dirent c max d e).
Proof.
  unfold add_dirent. cbv zeta. destruct (_ <=? _); [by intros mm|]. destruct (_ <? _); [by intros mm|].
  apply mem_never_bind; [destruct e; [apply mem_never_write_all | by intros mm]|]. intros c1.
  apply mem_never_bind; [apply mem_never_write_all|]. intros c2.
  apply mem_never_bind; [apply mem_never_write_all|]. intros c3.
  apply mem_never_bind; [destruct (_ <? _); [apply mem_never_write_all | by intros mm]|]. by intros c4 mm.
Qed.

(** ** Extensions *)

(** The headers of the extensions, as far as the server reads them, give sizes
    that stay within the bytes that are left. *)
Fixpoint extensions_fit (fuel : nat) (buf : list Z) : bool :=
  match buf, fuel with
  | [], _ | _, O => true
  | _, S fuel' =>
      if decide (length buf < size_of ExtHeader)%nat then true
      else
        let size := ExtHeader_size (from_slice (take (size_of ExtHeader) buf)) in
        let rest := drop (size_of ExtHeader) buf in
        if size <? 8 then true
        else (size - 8 <=? Z.of_nat (length rest)) && extensions_fit fuel' (drop (Z.to_nat (size - 8)) rest)
  end.

Lemma bind_no_panic {E A B : Type} (m : outcome E A) (f : A → outcome E B) :
  m ≠ Panic → (∀ a, f a ≠ Panic) → m ≫= f ≠ Panic.
Proof. intros Hm Hf. destruct m; [apply Hf | done | done]. Qed.

Lemma take_object_no_panic (A : Type) `{ByteValued A} data : take_object A data ≠ Panic.
Proof. unfold take_object. by case_decide. Qed.

Lemma next_component_no_panic buf : next_component buf ≠ Panic.
Proof. by destruct buf. Qed.

Lemma bytes_to_cstr_no_panic buf : bytes_to_cstr buf ≠ Panic.
Proof. unfold bytes_to_cstr. by destruct (from_bytes_with_nul buf). Qed.

Lemma parse_extension_no_panic options t bs received ext : parse_extension options t bs received ext ≠ Panic.
Proof.
  unfold parse_extension. destruct t as [nr|].
  - destruct (_ || _); [done|]. apply bind_no_panic; [|done]. unfold parse_security_context.
    destruct (1 <? nr); [done|]. destruct (nr =? 0); [done|].
    apply bind_no_panic; [apply take_object_no_panic|]. intros [c data]. destruct (_ =? 0); [done|].
    apply bind_no_panic; [apply next_component_no_panic|]. intros [name data']. case_decide; [done|].
    by destruct (from_bytes_with_nul name).
  - destruct (_ || _); [done|]. apply bind_no_panic; [|done]. unfold parse_sup_groups.
    apply bind_no_panic; [apply take_object_no_panic|]. intros [c data]. destruct (negb _); [done|].
    apply bind_no_panic; [apply take_object_no_panic|]. by intros [].
Qed.

Lemma extension_loop_no_panic fuel options buf received ext :
  (length buf ≤ fuel)%nat → extensions_fit fuel buf = true → extension_loop fuel options buf received ext ≠ Panic.
Proof.
  revert buf received ext. induction fuel as [|fuel IH]; intros [|b buf] received ext Hl; try done; [simpl in Hl; lia|].
  set (bs := b :: buf) in *. cbn [extensions_fit extension_loop]. subst bs. cbv match. set (bs := b :: buf) in *.
  unfold take_object at 1. set (k := size_of ExtHeader) in *.
  case_decide as Hd; [done|]. cbv zeta. set (size := ExtHeader_size _).
  unfold mbind at 1, outcome_bind at 1. change (Z.of_nat k) with 8. fold size.
  destruct (Z.ltb_spec size 8); [done|]. intros [Hfit Hrest]%andb_true_iff. apply Z.leb_le in Hfit.
  rewrite (proj2 (Z.ltb_ge _ _)) by done. apply bind_no_panic; [by destruct (ExtType_try_from _)|]. intros t.
  apply bind_no_panic; [apply parse_extension_no_panic|]. intros [received' ext']. apply IH; [|done].
  rewrite !length_drop. change k with 8%nat. lia.
Qed.

Lemma get_extensions_no_panic options skip buf :
  extensions_fit (length (drop skip buf)) (drop skip buf) = true → get_extensions options skip buf ≠ Panic.
Proof.
  intros Hfit. unfold get_extensions. destruct (negb _); [done|]. case_decide; [done|].
  apply bind_no_panic; [by apply extension_loop_no_panic|]. intros [received ext]. by destruct (_ && _).
Qed.

(** ** The server *)

Section server.
Context {S : Type} (fs : FileSystem S) (Hfs : ∀ (A : Type) (op : operation A) f, (fs A op f).1 ≠ Panic).

Definition never {A : Type} (m : stm (Server S) FuseError A) : Prop := ∀ s, (m s).1 ≠ Panic.

Lemma never_bind {A B : Type} (m : stm (Server S) FuseError A) (f : A → stm (Server S) FuseError B) :
  never m → (∀ a, never (f a)) → never (m ≫= f).
Proof.
  intros Hm Hf s. unfold mbind, stm_bind. specialize (Hm s). destruct (m s) as [[a| |] s']; [apply Hf | done | done].
Qed.
Lemma never_ret {A : Type} (a : A) : never (mret a).
Proof. by intros ?. Qed.
Lemma never_throw {A : Type} e : never (throw (A := A) e).
Proof. by intros ?. Qed.
Lemma never_lift {A : Type} (o : outcome FuseError A) : o ≠ Panic → never (lift o).
Proof. intros Ho s. by destruct o. Qed.
Lemma never_mem {A : Type} wrap (m : MemM A) : mem_never m → never (on_mem wrap m).
Proof. intros Hm s. unfold on_mem. specialize (Hm (srv_mem s)). by destruct (m (srv_mem s)) as [[] ?]. Qed.
Lemma never_fs_call {A : Type} (op : operation A) : never (fs_call fs op).
Proof. intros s. unfold fs_call. pose proof (Hfs A op (srv_fs s)) as H. by destruct (fs A op (srv_fs s)) as [[] ?]. Qed.
Lemma never_fs_do (op : operation unit) : never (fs_do fs op).
Proof. apply never_bind; [apply never_fs_call|]. by intros ? ?. Qed.

Lemma never_decode (A : Type) `{ByteValued A} r : never (decode A r).
Proof. apply never_mem, mem_never_read_obj. Qed.
Lemma never_read_rest h n r : never (read_rest h n r).
Proof.
  apply never_bind.
  - apply never_lift. unfold remaining_len. cbv zeta. destruct (_ <? 0); [done|]. by destruct (_ <? 0).
  - intros l. apply never_bind; [apply never_mem, mem_never_read_exact|]. by intros [] ?.
Qed.
Lemma never_write_reply bs w : never (write_reply bs w).
Proof. apply never_mem, mem_never_write_all. Qed.
Lemma never_add_entry c max d e : never (add_entry c max d e).
Proof.
  intros s. unfold add_entry. pose proof (mem_never_add_dirent c max d e (srv_mem s)) as H.
  by destruct (add_dirent c max d e (srv_mem s)) as [[] ?].
Qed.
Lemma never_reply_readdir len unique w : never (reply_readdir len unique w).
Proof. apply never_bind; [apply never_write_reply|]. by intros ? ?. Qed.

Lemma never_readdir_loop size total c entries : never (readdir_loop size total c entries).
Proof.
  revert total c. induction entries as [|d entries IH]; intros total c; simpl; [by intros ?|].
  apply never_bind; [apply never_add_entry|]. intros [e|[n c']]; [by intros ?|].
  destruct (n =? 0); [by intros ? | apply IH].
Qed.
Lemma never_handle_dirent h d : never (handle_dirent fs h d).
Proof. unfold handle_dirent. case_decide; [by intros ? | apply never_fs_call]. Qed.
Lemma never_readdirplus_loop h size total c entries : never (readdirplus_loop fs h size total c entries).
Proof.
  revert total c. induction entries as [|d entries IH]; intros total c; simpl; [by intros ?|].
  apply never_bind; [apply never_handle_dirent|]. intros [e|entry]; [by intros ?|].
  apply never_bind; [apply never_add_entry|]. intros [e|[n c']]; [|destruct (n =? 0); [|apply IH]];
    (apply never_bind; [apply never_fs_do | by intros ? ?]).
Qed.
Lemma never_read_forgets n r : never (read_forgets n r).
Proof.
  revert r. induction n as [|n IH]; intros r; simpl; [by intros ?|].
  apply never_bind; [apply never_decode|]. intros [f r']. apply never_bind; [apply IH|]. by intros ? ?.
Qed.
Lemma never_decode_setxattr r : never (decode_setxattr r).
Proof.
  apply never_bind; [by intros ?|]. intros options.
  destruct (contains _ _); (apply never_bind; [apply never_decode|]); by intros [] ?.
Qed.

(** Replies to a fresh cursor satisfy their assertion. *)
Lemma never_reply_ok out data unique w : cursor_ok w → bytes_written w = 0 → never (reply_ok out data unique w).
Proof.
  intros Hw Hf s. rewrite reply_ok_chunks. set (hdr := as_slice _).
  pose proof (write_chunks_spec (hdr :: chunk out ++ chunk data) w (srv_mem s) Hw) as Hs. cbv zeta in Hs.
  unfold mbind at 1, stm_bind at 1, on_mem. destruct (decide _); [|by destruct Hs as (mm & -> & _)].
  destruct Hs as (w' & -> & Hadv). cbn [map_err concat] in *.
  replace (header_len + opt_len out + opt_len data)
    with (Z.of_nat (length (hdr ++ concat (chunk out ++ chunk data)))); [by rewrite (assert_ok w Hf _ w' _ Hadv)|].
  subst hdr. rewrite concat_options, !length_app, length_as_slice. unfold header_len.
  destruct out, data; cbn [opt_len default length id]; lia.
Qed.
Lemma never_reply_error e unique w : cursor_ok w → bytes_written w = 0 → never (reply_error e unique w).
Proof.
  intros Hw Hf s. unfold reply_error. set (hdr := mkOutHeader _ _ _).
  unfold mbind at 1, stm_bind at 1, write_reply, on_mem.
  destruct (decide (length (as_slice hdr) ≤ length (addrs w))%nat) as [Hl|Hl].
  - destruct (write_all_ok (as_slice hdr) w (srv_mem s) Hw Hl) as (w' & -> & Hadv). cbn [map_err OutHeader_len hdr].
    rewrite length_as_slice in Hadv. change header_len with (Z.of_nat (size_of OutHeader)).
    by rewrite (assert_ok w Hf _ w' _ Hadv).
  - by rewrite (write_all_short (as_slice hdr) w (srv_mem s) Hw) by lia.
Qed.

Section message.
Context (w : Writer) (Hw : cursor_ok w) (Hfresh : bytes_written w = 0) (H16 : (16 ≤ length (addrs w))%nat).

Lemma never_answer {A : Type} (op : operation A) f unique w' :
  cursor_ok w' → bytes_written w' = 0 → (∀ a, never (f a)) → never (answer fs op f unique w').
Proof.
  intros Hw' Hf' Hf. apply never_bind; [apply never_fs_call|]. intros [e|a]; [by apply never_reply_error | apply Hf].
Qed.

(** There is room for the header. *)
Lemma split_header_ok (s : Server S) : ∃ w1 w2, split_header w s = (Ok (w1, w2), s) ∧ cursor_ok w1 ∧ bytes_written w1 = 0.
Proof.
  unfold split_header. pose proof (split_at_spec header_len w Hw ltac:(done)) as Hs.
  destruct (split_at header_len w) as [[w1 w2]| |]; [|change header_len with 16 in *; lia | done].
  exists w1, w2. destruct Hs as (_ & ? & _ & _ & _ & Hb & _). split_and!; [done | done|].
  unfold bytes_written in *. by rewrite Hb.
Qed.

Lemma never_split (f : Writer * Writer → stm (Server S) FuseError Z) :
  (∀ w1 w2, cursor_ok w1 → bytes_written w1 = 0 → never (f (w1, w2))) → never (ws ← split_header w; f ws).
Proof.
  intros Hf s. destruct (split_header_ok s) as (w1 & w2 & Hs & Hw1 & Hb1). rewrite (stm_bind_ok _ _ _ _ _ Hs).
  by apply Hf.
Qed.

Lemma never_list_directory loop h r :
  (∀ size c entries, never (loop size c entries)) → never (list_directory fs loop h r w).
Proof.
  intros Hloop. apply never_bind; [apply never_decode|]. intros [b r']. cbv zeta.
  destruct (_ <? _); [by apply never_reply_error|]. destruct (_ <? _); [by apply never_reply_error|].
  apply never_split. intros w1 w2 Hw1 Hb1. apply never_answer; [done..|]. intros entries.
  apply never_bind; [apply Hloop|]. intros [e|t]; [by apply never_reply_error | apply never_reply_readdir].
Qed.

Lemma never_fuse_read h r : never (fuse_read fs h r w).
Proof.
  apply never_bind; [apply never_decode|]. intros [b r']. cbv zeta.
  apply never_split. intros w1 w2 Hw1 Hb1. apply never_answer; [done..|]. intros data.
  apply never_bind; [apply never_write_reply|]. intros ?.
  apply never_bind; [apply never_write_reply|]. by intros ? ?.
Qed.

Lemma never_fuse_init page_size h r : 17 ≤ page_size < 2 ^ 32 → never (fuse_init fs page_size h r w).
Proof.
  intros Hps. apply never_bind; [apply never_decode|]. intros [b r']. cbv zeta. apply never_bind.
  { destruct (contains _ _); [|by intros ?]. apply never_bind; [apply never_decode|]. by intros [] ?. }
  intros flags2. destruct (_ <? _); [by apply never_reply_error|].
  destruct (_ <? _); [by apply never_reply_ok|]. destruct (_ <? _); [by apply never_reply_error|].
  rewrite bool_decide_true by (unfold in_width; lia). apply never_answer; [done..|]. intros want.
  apply never_bind; [by intros ?|]. intros _. rewrite (proj2 (Z.leb_gt _ _)); [by apply never_reply_ok|].
  assert ((MAX_BUFFER_SIZE - 1) / page_size ≤ (MAX_BUFFER_SIZE - 1) / 17) by (apply Z.div_le_compat_l; [done | lia]).
  change ((MAX_BUFFER_SIZE - 1) / 17) with 61680 in *. lia.
Qed.

(** *** The requests with extensions *)

Lemma split_nul_app buf : buf = (split_nul buf).1 ++ (split_nul buf).2.
Proof.
  induction buf as [|b buf IH]; simpl; [done|]. destruct (b =? 0); [done|]. destruct (split_nul buf). simpl in *. by rewrite IH.
Qed.

Definition fit (buf : list Z) : Prop := extensions_fit (length buf) buf = true.

(** The message after the header and the first [n] bytes. *)
Lemma read_rest_cases h n r (s : Server S) :
  cursor_ok r →
  (∃ e, read_rest h n r s = (Err e, s)) ∨
  read_rest h n r s =
    (Ok (take (Z.to_nat (InHeader_len h - 40 - Z.of_nat n)) (load_at (srv_mem s) (addrs r))), s).
Proof.
  intros Hr. unfold read_rest. destruct (remaining_len h n) as [l|e|] eqn:El.
  2: { left. by eexists. }
  2: { unfold remaining_len in El. cbv zeta in El. destruct (_ <? 0); [done|]. by destruct (_ <? 0). }
  assert (l = InHeader_len h - 40 - Z.of_nat n ∧ 0 ≤ l) as [-> Hl].
  { unfold remaining_len in El. change (Z.of_nat (size_of InHeader)) with 40 in El. cbv zeta in El.
    destruct (Z.ltb_spec (InHeader_len h - 40) 0); [done|].
    destruct (Z.ltb_spec (InHeader_len h - 40 - Z.of_nat n) 0); [done|]. by injection El as <-. }
  set (l := _ - _) in *. unfold mbind, stm_bind, lift, on_mem. cbn [map_err].
  destruct (Z.leb_spec l (Z.of_nat (length (addrs r)))) as [Hle|Hgt].
  - destruct (read_exact_ok l r (srv_mem s) Hr ltac:(lia)) as (r' & -> & _). right. cbn [map_err]. by destruct s.
  - rewrite (read_exact_short l r (srv_mem s) Hr) by done. left. eexists. cbn [map_err]. by destruct s.
Qed.

Lemma calm_name h n r (s : Server S) :
  cursor_ok r →
  fit (split_nul (take (Z.to_nat (InHeader_len h - 40 - Z.of_nat n)) (load_at (srv_mem s) (addrs r)))).2 →
  (name_and_extensions h n r s).1 ≠ Panic ∧ (name_and_extensions h n r s).2 = s.
Proof.
  intros Hr Hfit. unfold name_and_extensions. destruct (read_rest_cases h n r s Hr) as [[e He]|He].
  { by rewrite (stm_bind_err _ _ _ _ _ He). }
  rewrite (stm_bind_ok _ _ _ _ _ He). set (buf := take _ _) in *. pose proof (split_nul_app buf) as Hsplit.
  destruct buf as [|b buf]; [by split|]. cbn [next_component]. set (bs := b :: buf) in *.
  destruct (split_nul bs) as [name rest]. cbn [fst snd] in *. unfold mbind, stm_bind, lift, get_options, gets. cbn [map_err].
  assert (get_extensions (FsOptions.from_bits_truncate (srv_options s)) (length name) bs ≠ Panic) as He'.
  { apply get_extensions_no_panic. rewrite Hsplit, drop_app_length. exact Hfit. }
  destruct (get_extensions _ _ bs); [|by split | done]. pose proof (bytes_to_cstr_no_panic name).
  by destruct (bytes_to_cstr name).
Qed.

(** A struct, and a name with extensions. *)
Lemma calm_new (A : Type) `{ByteValued A} h r (s : Server S) (f : A → string → Extensions → stm (Server S) FuseError Z) :
  cursor_ok r → (∀ a name ext, never (f a name ext)) →
  fit (split_nul (drop (size_of A) (take (Z.to_nat (InHeader_len h - 40)) (load_at (srv_mem s) (addrs r))))).2 →
  ((ar ← decode A r; let '(a, r') := ar in
    ne ← name_and_extensions h (size_of A) r'; let '(name, ext) := ne in f a name ext) s).1 ≠ Panic.
Proof.
  intros Hr Hf Hfit. set (n := size_of A) in *. pose proof (read_obj_spec (A := A) r (srv_mem s) Hr) as Hd. fold n in Hd.
  unfold decode, on_mem. unfold mbind at 1, stm_bind at 1. destruct (decide _); [|by rewrite Hd].
  destruct Hd as (r' & -> & Hr' & Ha' & _). cbn [map_err]. cbv beta iota.
  set (s0 := mkServer (srv_fs s) (srv_options s) (srv_mem s)). assert (s0 = s) as -> by by destruct s.
  destruct (calm_name h n r' s Hr') as [Hn Hs].
  { rewrite Ha'. unfold load_at. rewrite fmap_drop. fold (load_at (srv_mem s) (addrs r)).
    destruct (decide (Z.of_nat n ≤ InHeader_len h - 40)).
    - replace (Z.to_nat (InHeader_len h - 40)) with (n + Z.to_nat (InHeader_len h - 40 - Z.of_nat n))%nat in Hfit by lia.
      by rewrite <- take_drop_commute in Hfit.
    - by replace (Z.to_nat (InHeader_len h - 40 - Z.of_nat n)) with 0%nat by lia. }
  unfold mbind, stm_bind. destruct (name_and_extensions h n r' s) as [[[name ext]| |] s']; [apply Hf | done | done].
Qed.

Lemma next_component_cases buf : (∃ e, next_component buf = Err e) ∨ next_component buf = Ok (split_nul buf).
Proof. destruct buf; [left; by eexists | by right]. Qed.

Lemma calm_symlink h r (s : Server S) :
  cursor_ok r →
  fit (split_nul (split_nul (take (Z.to_nat (InHeader_len h - 40)) (load_at (srv_mem s) (addrs r)))).2).2 →
  (fuse_symlink fs h r w s).1 ≠ Panic.
Proof.
  intros Hr Hfit. unfold fuse_symlink. destruct (read_rest_cases h 0 r s Hr) as [[e He]|He].
  { by rewrite (stm_bind_err _ _ _ _ _ He). }
  rewrite (stm_bind_ok _ _ _ _ _ He). change (Z.of_nat 0) with 0. rewrite Z.sub_0_r. set (buf := take _ _) in *.
  destruct (next_component_cases buf) as [[e ->]|H1]; [done|]. rewrite H1. pose proof (split_nul_app buf) as Hb.
  destruct (split_nul buf) as [name rest]. cbn [fst snd] in *. unfold mbind, stm_bind, lift. cbn [map_err].
  destruct (next_component_cases rest) as [[e ->]|H2]; [done|]. rewrite H2. pose proof (split_nul_app rest) as Hr'.
  destruct (split_nul rest) as [linkname rest2]. cbn [fst snd map_err] in *. unfold get_options, gets.
  assert (get_extensions (FsOptions.from_bits_truncate (srv_options s)) (length name + length linkname) buf ≠ Panic) as Hx.
  { apply get_extensions_no_panic. rewrite Hb, Hr', app_assoc, <- length_app, drop_app_length. exact Hfit. }
  destruct (get_extensions _ _ buf); [|done|done]. cbn [map_err].
  pose proof (bytes_to_cstr_no_panic linkname). destruct (bytes_to_cstr linkname); [|done|done]. cbn [map_err].
  pose proof (bytes_to_cstr_no_panic name). destruct (bytes_to_cstr name); [|done|done]. cbn [map_err].
  apply never_answer; [done..|]. intros ?. by apply never_reply_ok.
Qed.

(** What a message has after its names. *)
Definition message_extensions (opcode : Opcode) (body : list Z) : list Z :=
  match opcode with
  | Op_Symlink => (split_nul (split_nul body).2).2
  | Op_Mknod => (split_nul (drop (size_of MknodIn) body)).2
  | Op_Mkdir => (split_nul (drop (size_of MkdirIn) body)).2
  | Op_Create => (split_nul (drop (size_of CreateIn) body)).2
  | _ => []
  end.

(** Follow the structure of a handler. *)
Ltac never_step :=
  repeat (cbv beta zeta;
    lazymatch goal with
    | |- never (reply_ok _ _ _ _) => by apply never_reply_ok
    | |- never (reply_error _ _ _) => by apply never_reply_error
    | |- never (mret _) => apply never_ret
    | |- never (throw _) => apply never_throw
    | |- never (answer _ _ _ _ _) => apply never_answer; [done | done | intros ?]
    | |- never (_ ≫= _) => apply never_bind; [| intros ?]
    | |- never (decode _ _) => apply never_decode
    | |- never (read_rest _ _ _) => apply never_read_rest
    | |- never (read_forgets _ _) => apply never_read_forgets
    | |- never (decode_setxattr _) => apply never_decode_setxattr
    | |- never (fs_do _ _) => apply never_fs_do
    | |- never (set_options _) => intros ?; done
    | |- never (gets _) => intros ?; done
    | |- never (lift (bytes_to_cstr _)) => apply never_lift, bytes_to_cstr_no_panic
    | |- never (lift (split_at_nul _)) => apply never_lift; unfold split_at_nul; by case_decide
    | |- never (match ?x with _ => _ end) => destruct x
    end).

Context (Htmp : ∀ f a f', fs _ FTmpfile f ≠ (Ok a, f')).

Lemma never_tmpfile h : never (fuse_tmpfile fs h w).
Proof.
  intros s. unfold fuse_tmpfile, answer, fs_call. unfold mbind at 1, stm_bind at 1. pose proof (Hfs _ FTmpfile (srv_fs s)) as Hp.
  destruct (fs _ FTmpfile (srv_fs s)) as [[a|e|] f] eqn:E; [by destruct (Htmp (srv_fs s) a f)| | done].
  by apply never_reply_error.
Qed.

Lemma calm_dispatch page_size opcode h r (s : Server S) :
  17 ≤ page_size < 2 ^ 32 → cursor_ok r →
  fit (message_extensions opcode (take (Z.to_nat (InHeader_len h - 40)) (load_at (srv_mem s) (addrs r)))) →
  (dispatch_opcode fs page_size opcode h r w s).1 ≠ Panic.
Proof.
  intros Hps Hr Hfit. destruct opcode; cbn [dispatch_opcode message_extensions] in *.
  all: lazymatch goal with
    | |- (fuse_symlink _ _ _ _ _).1 ≠ _ => by apply calm_symlink
    | |- (fuse_mknod _ _ _ _ _).1 ≠ _ => apply (calm_new MknodIn); [done | | done]; intros; unfold reply_entry; never_step
    | |- (fuse_mkdir _ _ _ _ _).1 ≠ _ => apply (calm_new MkdirIn); [done | | done]; intros; unfold reply_entry; never_step
    | |- (fuse_create _ _ _ _ _).1 ≠ _ => apply (calm_new CreateIn); [done | | done]; intros; never_step
    | |- (fuse_read _ _ _ _ _).1 ≠ _ => apply never_fuse_read
    | |- (fuse_init _ _ _ _ _ _).1 ≠ _ => by apply never_fuse_init
    | |- (fuse_readdir _ _ _ _ _).1 ≠ _ => apply never_list_directory; intros; apply never_readdir_loop
    | |- (fuse_readdirplus _ _ _ _ _).1 ≠ _ => apply never_list_directory; intros; apply never_readdirplus_loop
    | |- (fuse_tmpfile _ _ _ _).1 ≠ _ => apply never_tmpfile
    | |- (?m ?s0).1 ≠ _ => clear Hfit; revert s0; change (never m);
        cbv beta delta [fuse_lookup fuse_forget fuse_getattr fuse_setattr fuse_readlink
          fuse_unlink fuse_rmdir fuse_rename fuse_rename2 do_rename fuse_link fuse_open fuse_write
          fuse_statfs fuse_release fuse_fsync fuse_setxattr fuse_getxattr fuse_listxattr fuse_removexattr fuse_flush
          fuse_opendir fuse_releasedir fuse_fsyncdir fuse_access reply_if_err fuse_destroy fuse_batch_forget
          fuse_fallocate fuse_lseek fuse_copyfilerange fuse_syncfs reply_unit reply_entry reply_attr
          reply_open]; never_step
    end.
Qed.

End message.
End server.

(** The message behind the header, as long as the header says. *)
Definition request_body {S : Type} (r : Reader) (s : Server S) : list Z :=
  take (Z.to_nat (InHeader_len (request_header r s) - 40)) (drop (size_of InHeader) (load_at (srv_mem s) (addrs r))).

(** C18. No message panics the FUSE server, whatever its bytes, however its
    buffers are cut and whatever was negotiated, provided that the buffers for
    the reply have room for the sixteen bytes of a header, that the extensions of
    a request that makes a node declare sizes within the message, and that the
    file system's methods do not panic themselves. *)
Theorem fuse_no_panic {S : Type} (fs : FileSystem S) page_size r w (s : Server S) :
  (∀ (A : Type) (op : operation A) f, (fs A op f).1 ≠ Panic) → (∀ f a f', fs _ FTmpfile f ≠ (Ok a, f')) →
  17 ≤ page_size < 2 ^ 32 → cursor_ok r → cursor_ok w → bytes_written w = 0 → (16 ≤ length (addrs w))%nat →
  (∀ opcode, Opcode_try_from (InHeader_opcode (request_header r s)) = Some opcode →
    let ext := message_extensions opcode (request_body r s) in extensions_fit (length ext) ext = true) →
  (handle_message fs page_size r w s).1 ≠ Panic.
Proof.
  intros Hfs Htmp Hps Hr Hw Hfresh H16 Hext. unfold handle_message, decode, on_mem. unfold mbind at 1, stm_bind at 1.
  pose proof (read_obj_spec (A := InHeader) r (srv_mem s) Hr) as Hd. destruct (decide _) as [_|_]; [|by rewrite Hd].
  destruct Hd as (r' & -> & Hr' & Ha' & _). cbn [map_err]. fold (request_header r s).
  set (s0 := mkServer (srv_fs s) (srv_options s) (srv_mem s)). assert (s0 = s) as -> by by destruct s.
  destruct (_ <? _); [by apply never_reply_error|].
  destruct (Opcode_try_from _) as [opcode|] eqn:Eo; [|by apply never_reply_error].
  apply calm_dispatch; try done. specialize (Hext opcode eq_refl). unfold fit.
  rewrite Ha'. unfold load_at. rewrite fmap_drop. exact Hext.
Qed.

(** *** Messages

    A [mkdir] of a guest that negotiated supplementary groups, with the group
    in an extension. *)

Definition no_fs : FileSystem unit := FileSystem_default (λ _ _, throw (os_error ENOSYS)).

Definition mkdir_message (ext : list Z) : list Z :=
  let body := as_slice (mkMkdirIn 493 0) ++ cstr "d" ++ ext in
  as_slice (mkInHeader (Z.of_nat (40 + length body)) 9 5 1 0 0 1 0 0) ++ body.

(** The header of an extension of the given size, and a list of one group. *)
Definition group_extension (size : Z) : list Z :=
  as_slice (mkExtHeader size 32) ++ as_slice (mkSuppGroups 1) ++ as_slice 1000.

Definition panic_server (bytes : list Z) : Server unit :=
  mkServer () FsOptions.CREATE_SUPP_GROUP (store_at (seqZ 0 (Z.of_nat (length bytes))) bytes ∅).
Definition panic_reader (bytes : list Z) : Reader := mkConsumer [mkSlice 0 (Z.of_nat (length bytes))] 0.

Lemma fuse_no_panic_witness :
  let bytes := mkdir_message (group_extension 16) in
  (handle_message no_fs 4096 (panic_reader bytes) (mkConsumer [mkSlice 200 16] 0) (panic_server bytes)).1 ≠ Panic.
Proof.
  apply (fuse_no_panic no_fs 4096 (panic_reader (mkdir_message (group_extension 16)))).
  - intros A op []. destruct op; try done. cbn [no_fs FileSystem_default]. by induction requests.
  - by intros [] a f'.
  - done.
  - split; [repeat constructor; by vm_compute | split; by vm_compute].
  - split; [repeat constructor; by vm_compute | split; by vm_compute].
  - reflexivity.
  - apply (bool_decide_unpack _). by vm_compute.
  - intros opcode H. assert (opcode = Op_Mkdir) as -> by (vm_compute in H; by injection H as <-). by vm_compute.
Defined.

(** A guest that sends a size beyond its message stops the server, and so does
    one whose buffers for a directory listing are too small for a header. *)
Example extension_panics :
  let bytes := mkdir_message (group_extension 17) in
  (handle_message no_fs 4096 (panic_reader bytes) (mkConsumer [mkSlice 200 16] 0) (panic_server bytes)).1 = Panic.
Proof. by vm_compute. Qed.

Example small_buffer_panics :
  let bytes := as_slice (mkInHeader 80 15 5 1 0 0 1 0 0) ++ as_slice (mkReadIn 0 0 0 0 0 0 0) in
  (handle_message no_fs 4096 (panic_reader bytes) (mkConsumer [mkSlice 200 15] 0) (panic_server bytes)).1 = Panic.
Proof. by vm_compute. Qed.
