(* ===== verification/SoftIdMap.v ===== *)
(** * User and group id maps

    Models [crates/virtiofsd-fork/src/soft_idmap/] ([cmdline.rs], [mod.rs] and
    the types of [id_types.rs]): the id maps of the command line, their parser
    and printer, and the runtime map between guest and host ids.

    An id is a [u32], as [Z]; the four id types are told apart by the map they
    are used in.  An addition that overflows is [Panic], as in a checked build.
    The map from ranges ([btree_range_map]) is third-party code, a class with
    its documented laws; so are the Unicode tables behind
    [char::is_alphanumeric] and [char::to_lowercase], of which the code needs
    the ASCII part. *)

From stdpp Require Import base list strings.
From S2P Require Import Prelude Text.
#[local] Open Scope Z_scope.

(** ** The command line *)

Module Cmdline.

Class CharTables := {
  is_alphanumeric : Z → bool;
  char_to_lowercase : Z → text;
}.
Class CharTablesLaws `{CharTables} : Prop := {
  ascii_alphanumeric c :
    0 ≤ c < 128 → is_alphanumeric c = (is_digit c || between 65 90 c || between 97 122 c);
  ascii_to_lowercase c :
    0 ≤ c < 128 → char_to_lowercase c = [if between 65 90 c then c + 32 else c];
}.

Inductive IdMap :=
  | Guest (from_guest to_host count : Z)
  | Host (from_host to_guest count : Z)
  | SquashGuest (from_guest to_host count : Z)
  | SquashHost (from_host to_guest count : Z)
  | Bidirectional (guest host count : Z)
  | ForbidGuest (from_guest count : Z).

Inductive IdMapError :=
  | InvalidPrefix (prefix : text)
  | InvalidLength (expected seen : Z)
  | InvalidValue (value : text) (error : ParseIntError).

Section parser.
Context `{CharTables}.

(** The loop over the characters of the prefix, up to the separator. *)
Fixpoint parse_prefix (prefix s : text) : outcome IdMapError (text * Z * text) :=
  match s with
  | [] => Err (InvalidLength 1 0)
  | c :: s' =>
      if is_alphanumeric c || (c =? 45) || (c =? 95) then parse_prefix (prefix ++ char_to_lowercase c) s'
      else Ok (prefix, c, s')
  end.

Fixpoint parse_values (values : list text) : outcome IdMapError (list Z) :=
  match values with
  | [] => Ok []
  | v :: values' =>
      n ← map_err (InvalidValue v) (parse_u32 v);
      ns ← parse_values values';
      Ok (n :: ns)
  end.

Definition pre_parse (s : text) : outcome IdMapError (text * list Z) :=
  '(prefix, separator, rest) ← parse_prefix [] s;
  values ← parse_values (split_char separator rest);
  Ok (prefix, values).

(** [check_arg_count] and the use of the fields. *)
Definition args3 (f : Z → Z → Z → IdMap) (fields : list Z) : outcome IdMapError IdMap :=
  match fields with
  | [a; b; c] => Ok (f a b c)
  | _ => Err (InvalidLength 3 (Z.of_nat (length fields)))
  end.
Definition args2 (f : Z → Z → IdMap) (fields : list Z) : outcome IdMapError IdMap :=
  match fields with
  | [a; b] => Ok (f a b)
  | _ => Err (InvalidLength 2 (Z.of_nat (length fields)))
  end.

Definition from_str (s : text) : outcome IdMapError IdMap :=
  '(prefix, fields) ← pre_parse s;
  if decide (prefix = chars "guest") then args3 Guest fields
  else if decide (prefix = chars "host") then args3 Host fields
  else if decide (prefix = chars "squash-guest") then args3 SquashGuest fields
  else if decide (prefix = chars "squash-host") then args3 SquashHost fields
  else if decide (prefix = chars "forbid-guest") then args2 ForbidGuest fields
  else if decide (prefix = chars "map") then args3 Bidirectional fields
  else Err (InvalidPrefix prefix).

End parser.

(** [Display], with the separator as an argument; the code uses a colon. *)
Definition keyword (m : IdMap) : string :=
  match m with
  | Guest _ _ _ => "guest"
  | Host _ _ _ => "host"
  | SquashGuest _ _ _ => "squash-guest"
  | SquashHost _ _ _ => "squash-host"
  | Bidirectional _ _ _ => "map"
  | ForbidGuest _ _ => "forbid-guest"
  end.
Definition values (m : IdMap) : list Z :=
  match m with
  | Guest a b c | Host a b c | SquashGuest a b c | SquashHost a b c | Bidirectional a b c => [a; b; c]
  | ForbidGuest a b => [a; b]
  end.
Definition print_with (sep : Z) (m : IdMap) : text :=
  chars (keyword m) ++ concat ((λ v, sep :: print_u32 v) <$> values m).
Definition fmt (m : IdMap) : text := print_with 58 m.

(** ** Printing and parsing *)

Section roundtrip.
Context `{CharTablesLaws}.

Definition keyword_char (c : Z) : bool := between 97 122 c || (c =? 45).

Lemma parse_prefix_keyword prefix ks sep rest :
  Forall (λ c, keyword_char c = true) ks → is_alphanumeric sep = false → sep ≠ 45 → sep ≠ 95 →
  parse_prefix prefix (ks ++ sep :: rest) = Ok (prefix ++ ks, sep, rest).
Proof.
  intros Hks Ha Hd Hu. revert prefix. induction Hks as [|c ks Hc _ IH]; intros prefix; simpl.
  { by rewrite Ha, (proj2 (Z.eqb_neq sep 45)), (proj2 (Z.eqb_neq sep 95)), app_nil_r. }
  assert (0 ≤ c < 128 ∧ between 65 90 c = false ∧ (between 97 122 c = true ∨ c = 45)) as (Hasc & Hup & Hlow).
  { unfold keyword_char, between in *. destruct (Z.eqb_spec c 45) as [->|]; [split_and!; [lia | lia | done | by right]|].
    rewrite orb_false_r in Hc. apply andb_true_iff in Hc as [H1%Z.leb_le H2%Z.leb_le].
    split_and!; [lia | lia | | left; apply andb_true_iff; split; by apply Z.leb_le].
    apply andb_false_iff. right. apply Z.leb_gt. lia. }
  rewrite ascii_alphanumeric, ascii_to_lowercase, Hup by done.
  assert (is_digit c || false || between 97 122 c || (c =? 45) || (c =? 95) = true) as ->.
  { destruct Hlow as [-> | ->]; [by rewrite !orb_true_r | done]. }
  by rewrite IH, <- app_assoc.
Qed.

Lemma parse_values_print vs : Forall in_u32 vs → parse_values (print_u32 <$> vs) = Ok vs.
Proof.
  induction 1 as [|v vs Hv _ IH]; [done|]. rewrite fmap_cons. cbn [parse_values]. rewrite parse_print_u32, IH by done. done.
Qed.

Lemma split_printed sep vs :
  is_digit sep = false → Forall in_u32 vs → vs ≠ [] →
  ∃ rest, concat ((λ v, sep :: print_u32 v) <$> vs) = sep :: rest ∧ split_char sep rest = print_u32 <$> vs.
Proof.
  intros Hsep Hvs Hne. destruct vs as [|v vs]; [done|]. clear Hne. simpl. eexists. split; [done|].
  revert v Hvs. induction vs as [|v' vs IH]; intros v Hvs; simpl.
  - rewrite app_nil_r. apply split_char_lacks, print_u32_lacks; [by inversion Hvs | done].
  - apply Forall_cons in Hvs as [Hv Hvs]. rewrite split_char_app by by apply print_u32_lacks. f_equal. by apply IH.
Qed.

End roundtrip.

(** Every id map of the command line is parsed back from its printed form,
    with whatever separator it is written. *)
Theorem idmap_parse_print `{CharTablesLaws} sep (m : IdMap) :
  is_alphanumeric sep = false → sep ≠ 45 → sep ≠ 95 → Forall in_u32 (values m) →
  from_str (print_with sep m) = Ok m.
Proof.
  intros Ha Hd Hu Hvs. assert (is_digit sep = false) as Hdig.
  { destruct (is_digit sep) eqn:E; [|done]. rewrite ascii_alphanumeric in Ha; [by rewrite E in Ha|].
    unfold is_digit, between in E. apply andb_true_iff in E as [H1%Z.leb_le H2%Z.leb_le]. lia. }
  destruct (split_printed sep (values m) Hdig Hvs) as (rest & Hc & Hs); [by destruct m|].
  unfold from_str, print_with, pre_parse. rewrite Hc, parse_prefix_keyword; [|by destruct m; repeat constructor | done..].
  simpl. rewrite Hs, parse_values_print by done. by destruct m.
Qed.

End Cmdline.

(** ** The runtime map *)

(** A half-open range of ids. *)
Record id_range := mkRange { r_start : Z; r_end : Z }.
Definition range_contains (r : id_range) (id : Z) : bool := (r_start r <=? id) && (id <? r_end r).

Inductive MapEntry :=
  | Squash (from : id_range) (to : Z)
  | Range (from : id_range) (to_base : Z)
  | Fail_ (from : id_range).

(** [MapError::ExplicitFailMapping] *)
Inductive MapError := ExplicitFailMapping (id : Z).

Definition source_range (e : MapEntry) : id_range :=
  match e with Squash from _ | Range from _ | Fail_ from => from end.

(** [MapEntry::map]: an id outside the source range is an assertion failure. *)
Definition entry_map (e : MapEntry) (id : Z) : outcome MapError Z :=
  if range_contains (source_range e) id then
    match e with
    | Squash _ to => Ok to
    | Range from to_base =>
        let target := to_base + (id - r_start from) in if 2 ^ 32 <=? target then Panic else Ok target
    | Fail_ _ => Err (ExplicitFailMapping id)
    end
  else Panic.

(** [btree_range_map::RangeMap] *)
Class RangeMap (M : Type) := {
  rm_new : M;
  rm_get : Z → M → option MapEntry;
  rm_intersects : id_range → M → bool;
  rm_insert : id_range → MapEntry → M → M;
}.
Class RangeMapLaws (M : Type) `{RangeMap M} : Prop := {
  rm_get_new id : rm_get id rm_new = None;
  rm_get_insert id r e m :
    rm_get id (rm_insert r e m) = if range_contains r id then Some e else rm_get id m;
  rm_intersects_spec r m :
    rm_intersects r m = true ↔ ∃ id, range_contains r id = true ∧ is_Some (rm_get id m);
}.

Section runtime.
Context {M : Type} `{RangeMap M}.

Record IdMap := mkIdMap { guest_to_host : M; host_to_guest : M }.

Definition IdMap_empty : IdMap := mkIdMap rm_new rm_new.

Definition map_guest (m : IdMap) (guest_id : Z) : outcome MapError Z :=
  match rm_get guest_id (guest_to_host m) with Some e => entry_map e guest_id | None => Ok guest_id end.
Definition map_host (m : IdMap) (host_id : Z) : outcome MapError Z :=
  match rm_get host_id (host_to_guest m) with Some e => entry_map e host_id | None => Ok host_id end.

Definition do_push (e : MapEntry) (map : M) : outcome io_error M :=
  if rm_intersects (source_range e) map then Err (mkIoError KOther None)
  else Ok (rm_insert (source_range e) e map).

Definition push_guest_to_host (e : MapEntry) (m : IdMap) : outcome io_error IdMap :=
  map ← do_push e (guest_to_host m); Ok (mkIdMap map (host_to_guest m)).
Definition push_host_to_guest (e : MapEntry) (m : IdMap) : outcome io_error IdMap :=
  map ← do_push e (host_to_guest m); Ok (mkIdMap (guest_to_host m) map).

(** [base.checked_add(count)] *)
Definition id_range_from_u32 (base count : Z) : outcome io_error id_range :=
  if 2 ^ 32 <=? base + count then Err (mkIoError InvalidInput None) else Ok (mkRange base (base + count)).

(** An iteration of [TryFrom<Vec<cmdline::IdMap>>::try_from]; the sum of
    [forbid-guest] is not checked. *)
Definition push_cmdline (entry : Cmdline.IdMap) (m : IdMap) : outcome io_error IdMap :=
  match entry with
  | Cmdline.Guest from_guest to_host count =>
      from ← id_range_from_u32 from_guest count; push_guest_to_host (Range from to_host) m
  | Cmdline.Host from_host to_guest count =>
      from ← id_range_from_u32 from_host count; push_host_to_guest (Range from to_guest) m
  | Cmdline.SquashGuest from_guest to_host count =>
      from ← id_range_from_u32 from_guest count; push_guest_to_host (Squash from to_host) m
  | Cmdline.SquashHost from_host to_guest count =>
      from ← id_range_from_u32 from_host count; push_host_to_guest (Squash from to_guest) m
  | Cmdline.Bidirectional guest host count =>
      from ← id_range_from_u32 guest count;
      m ← push_guest_to_host (Range from host) m;
      from ← id_range_from_u32 host count;
      push_host_to_guest (Range from guest) m
  | Cmdline.ForbidGuest from_guest count =>
      if 2 ^ 32 <=? from_guest + count then Panic
      else push_guest_to_host (Fail_ (mkRange from_guest (from_guest + count))) m
  end.

Fixpoint push_all (cmdline : list Cmdline.IdMap) (m : IdMap) : outcome io_error IdMap :=
  match cmdline with [] => Ok m | entry :: cmdline' => m ← push_cmdline entry m; push_all cmdline' m end.

Definition try_from (cmdline : list Cmdline.IdMap) : outcome io_error IdMap := push_all cmdline IdMap_empty.

End runtime.

Arguments IdMap M : clear implicits.

(** ** What a list of maps means *)

(** The entries of each direction, in order. *)
Definition whole (base count : Z) : id_range := mkRange base (base + count).
Definition guest_entries (entry : Cmdline.IdMap) : list MapEntry :=
  match entry with
  | Cmdline.Guest from to count | Cmdline.Bidirectional from to count => [Range (whole from count) to]
  | Cmdline.SquashGuest from to count => [Squash (whole from count) to]
  | Cmdline.ForbidGuest from count => [Fail_ (whole from count)]
  | _ => []
  end.
Definition host_entries (entry : Cmdline.IdMap) : list MapEntry :=
  match entry with
  | Cmdline.Host from to count | Cmdline.Bidirectional to from count => [Range (whole from count) to]
  | Cmdline.SquashHost from to count => [Squash (whole from count) to]
  | _ => []
  end.

Definition covers (id : Z) (e : MapEntry) : bool := range_contains (source_range e) id.

(** The first entry that covers the id, or the id itself. *)
Fixpoint find_entry (id : Z) (entries : list MapEntry) : option MapEntry :=
  match entries with [] => None | e :: entries' => if covers id e then Some e else find_entry id entries' end.
Definition translate (entries : list MapEntry) (id : Z) : outcome MapError Z :=
  match find_entry id entries with Some e => entry_map e id | None => Ok id end.

(** No id is covered twice. *)
Fixpoint disjoint_entries (entries : list MapEntry) : Prop :=
  match entries with
  | [] => True
  | e :: entries' =>
      (∀ id e', e' ∈ entries' → covers id e = true → covers id e' = false) ∧ disjoint_entries entries'
  end.
Definition range_fits (e : MapEntry) : Prop := r_end (source_range e) < 2 ^ 32.

Lemma disjoint_snoc entries e :
  disjoint_entries (entries ++ [e]) ↔
  disjoint_entries entries ∧ ∀ id e', e' ∈ entries → covers id e' = true → covers id e = false.
Proof.
  induction entries as [|a entries IH]; simpl.
  { split; [intros _; split; [done|]; by intros id e' ?%elem_of_nil | intros _; split; [|done]; by intros id e' ?%elem_of_nil]. }
  rewrite IH. clear IH. split.
  - intros (Ha & Hd & He). split_and!; [| done |].
    + intros id e' Hin. apply Ha. apply elem_of_app. by left.
    + intros id e' [->|Hin]%elem_of_cons; [|by apply He]. intros Hc. apply (Ha id e); [|done].
      apply elem_of_app. right. by apply list_elem_of_singleton.
  - intros ((Ha & Hd) & He). split_and!; [| done |].
    + intros id e' [Hin| ->%list_elem_of_singleton]%elem_of_app Hc; [by apply (Ha id)|].
      apply (He id a); [by left | done].
    + intros id e' Hin. apply He. by right.
Qed.

Section correctness.
Context {M : Type} `{RangeMapLaws M}.

(** The map holds, for every id, the entry that covers it. *)
Definition holds_entries (entries : list MapEntry) (map : M) : Prop :=
  ∀ id, rm_get id map = find_entry id entries.

Lemma find_snoc entries e id :
  find_entry id (entries ++ [e]) =
  match find_entry id entries with Some e' => Some e' | None => if covers id e then Some e else None end.
Proof. induction entries as [|a entries IH]; simpl; [done|]. by destruct (covers id a). Qed.

Lemma find_covers entries id :
  is_Some (find_entry id entries) ↔ ∃ e, e ∈ entries ∧ covers id e = true.
Proof.
  induction entries as [|a entries IH]; simpl.
  { split; [by intros [] | by intros (e & ?%elem_of_nil & _)]. }
  destruct (covers id a) eqn:E.
  - split; [intros _; exists a; split; [by left | done] | by eexists].
  - rewrite IH. split; intros (e & Hin & Hc); exists e; (split; [|done]); [by right|].
    apply elem_of_cons in Hin as [->|]; [congruence | done].
Qed.

Lemma do_push_spec entries map e :
  holds_entries entries map → disjoint_entries entries →
  if rm_intersects (source_range e) map then ¬ disjoint_entries (entries ++ [e])
  else disjoint_entries (entries ++ [e]) ∧ holds_entries (entries ++ [e]) (rm_insert (source_range e) e map).
Proof.
  intros Hm Hd. destruct (rm_intersects (source_range e) map) eqn:Ei.
  - apply rm_intersects_spec in Ei as (id & Hc & Hs). rewrite Hm, find_covers in Hs.
    destruct Hs as (e' & Hin & Hc'). intros [_ Hx]%disjoint_snoc. specialize (Hx id e' Hin Hc').
    unfold covers in Hx. by rewrite Hc in Hx.
  - assert (∀ id, covers id e = true → find_entry id entries = None) as Hfree.
    { intros id Hc. apply eq_None_not_Some. intros Hs.
      assert (rm_intersects (source_range e) map = true); [|congruence].
      apply rm_intersects_spec. exists id. split; [done|]. by rewrite Hm. }
    split.
    + apply disjoint_snoc. split; [done|]. intros id e' Hin Hc. destruct (covers id e) eqn:E; [|done].
      apply Hfree in E. apply eq_None_not_Some in E. destruct E. apply find_covers. eauto.
    + intros id. rewrite rm_get_insert, find_snoc. fold (covers id e).
      destruct (covers id e) eqn:E; [by rewrite Hfree|]. rewrite Hm. by destruct (find_entry id entries).
Qed.

(** Both directions of a map. *)
Definition map_ok (gs hs : list MapEntry) (m : IdMap M) : Prop :=
  holds_entries gs (guest_to_host m) ∧ holds_entries hs (host_to_guest m) ∧ disjoint_entries gs ∧ disjoint_entries hs.

Lemma push_guest_spec gs hs m e :
  map_ok gs hs m →
  (∀ m', push_guest_to_host e m = Ok m' → map_ok (gs ++ [e]) hs m') ∧
  (disjoint_entries (gs ++ [e]) → ∃ m', push_guest_to_host e m = Ok m').
Proof.
  intros (Hg & Hh & Hdg & Hdh). pose proof (do_push_spec gs (guest_to_host m) e Hg Hdg) as Hp.
  unfold push_guest_to_host, do_push. destruct (rm_intersects _ _); [by split|]. destruct Hp as [Hd Hm]. split.
  - by intros m' [= <-].
  - intros _. by eexists.
Qed.

Lemma push_host_spec gs hs m e :
  map_ok gs hs m →
  (∀ m', push_host_to_guest e m = Ok m' → map_ok gs (hs ++ [e]) m') ∧
  (disjoint_entries (hs ++ [e]) → ∃ m', push_host_to_guest e m = Ok m').
Proof.
  intros (Hg & Hh & Hdg & Hdh). pose proof (do_push_spec hs (host_to_guest m) e Hh Hdh) as Hp.
  unfold push_host_to_guest, do_push. destruct (rm_intersects _ _); [by split|]. destruct Hp as [Hd Hm]. split.
  - by intros m' [= <-].
  - intros _. by eexists.
Qed.

Definition entry_fits (entry : Cmdline.IdMap) : Prop := Forall range_fits (guest_entries entry ++ host_entries entry).

Lemma push_cmdline_spec gs hs m entry :
  map_ok gs hs m →
  let gs' := gs ++ guest_entries entry in
  let hs' := hs ++ host_entries entry in
  (∀ m', push_cmdline entry m = Ok m' → entry_fits entry ∧ map_ok gs' hs' m') ∧
  (entry_fits entry → disjoint_entries gs' → disjoint_entries hs' → ∃ m', push_cmdline entry m = Ok m').
Proof.
  intros Hm. unfold entry_fits, push_cmdline, id_range_from_u32, range_fits.
  destruct entry as [f t c|f t c|f t c|f t c|g h c|f c]; cbn [guest_entries host_entries app]; rewrite ?app_nil_r;
    cbn zeta; repeat setoid_rewrite Forall_cons; setoid_rewrite Forall_nil; cbn [source_range whole r_end].
  5: {
    destruct (Z.leb_spec (2 ^ 32) (g + c)); [split; [done | lia]|]. unfold mbind at 1 4, outcome_bind at 1 4.
    destruct (push_guest_spec gs hs m (Range (whole g c) h) Hm) as [Hok Hex].
    destruct (push_guest_to_host _ m) as [m1| |]; [|split; [done | intros _ Hd _; by destruct (Hex Hd)]..].
    specialize (Hok m1 eq_refl). unfold mbind, outcome_bind.
    destruct (push_host_spec _ _ m1 (Range (whole h c) g) Hok) as [Hok2 Hex2].
    destruct (Z.leb_spec (2 ^ 32) (h + c)); [split; [done | lia]|]. split; [|by intros _ _ ?; apply Hex2].
    intros m' Hm'. split; [lia|]. by apply Hok2. }
  all: match goal with |- context [2 ^ 32 <=? ?b] => destruct (Z.leb_spec (2 ^ 32) b); [split; [done | lia]|] end.
  all: unfold mbind, outcome_bind.
  all: match goal with
       | Hm : map_ok ?gs ?hs ?m |- context [push_guest_to_host ?e ?m] => destruct (push_guest_spec gs hs m e Hm) as [Hok Hex]
       | Hm : map_ok ?gs ?hs ?m |- context [push_host_to_guest ?e ?m] => destruct (push_host_spec gs hs m e Hm) as [Hok Hex]
       end.
  all: split; [intros m' Hm'; split; [lia | by apply Hok] | intros; by apply Hex].
Qed.

Lemma push_all_spec cmdline gs hs m :
  map_ok gs hs m →
  let gs' := gs ++ (cmdline ≫= guest_entries) in
  let hs' := hs ++ (cmdline ≫= host_entries) in
  (∀ m', push_all cmdline m = Ok m' → Forall entry_fits cmdline ∧ map_ok gs' hs' m') ∧
  (Forall entry_fits cmdline → disjoint_entries gs' → disjoint_entries hs' → ∃ m', push_all cmdline m = Ok m').
Proof.
  revert gs hs m. induction cmdline as [|entry cmdline IH]; intros gs hs m Hm; cbn zeta.
  { rewrite !app_nil_r. split; [by intros m' [= <-]; split; [constructor|] | intros _ _ _; by eexists]. }
  rewrite !bind_cons, !app_assoc, Forall_cons. cbn [push_all].
  destruct (push_cmdline_spec gs hs m entry Hm) as [Hok Hex]. cbn zeta in Hok, Hex.
  assert (∀ l l', disjoint_entries (l ++ l') → disjoint_entries l) as Hpre.
  { intros l l'. induction l' as [|a l' IHl] using rev_ind; [by rewrite app_nil_r|].
    rewrite app_assoc, disjoint_snoc. by intros [? _]; apply IHl. }
  destruct (push_cmdline entry m) as [m1| |] eqn:E; simpl.
  - destruct (Hok m1 eq_refl) as [Hfit Hm1]. destruct (IH _ _ m1 Hm1) as [Hok' Hex']. split.
    + intros m' Hm'. destruct (Hok' m' Hm') as [? ?]. split; [by constructor | done].
    + intros [_ Hf]. by apply Hex'.
  - split; [done|]. intros [Hf _] Hg Hh. destruct (Hex Hf (Hpre _ _ Hg) (Hpre _ _ Hh)) as [? ?]. done.
  - split; [done|]. intros [Hf _] Hg Hh. destruct (Hex Hf (Hpre _ _ Hg) (Hpre _ _ Hh)) as [? ?]. done.
Qed.

End correctness.

(** C23. The runtime map does what the command line says, and nothing else.
    The conversion succeeds exactly when every source range ends below the
    largest id and no two ranges of a direction overlap; and then both
    directions translate an id by the one map that covers it, leaving the other
    ids as they are. *)
Theorem id_map_spec {M : Type} `{RangeMapLaws M} (cmdline : list Cmdline.IdMap) :
  let gs := cmdline ≫= guest_entries in
  let hs := cmdline ≫= host_entries in
  (∀ m : IdMap M, try_from cmdline = Ok m →
    ∀ id, map_guest m id = translate gs id ∧ map_host m id = translate hs id) ∧
  ((∃ m : IdMap M, try_from cmdline = Ok m) ↔
    Forall entry_fits cmdline ∧ disjoint_entries gs ∧ disjoint_entries hs).
Proof.
  intros gs hs. assert (map_ok (M := M) [] [] IdMap_empty) as Hempty.
  { split_and!; try done; intros id; apply rm_get_new. }
  destruct (push_all_spec cmdline [] [] IdMap_empty Hempty) as [Hok Hex]. cbn zeta in *. simpl app in *. split.
  - intros m Hm id. destruct (Hok m Hm) as (_ & Hg & Hh & _). unfold map_guest, map_host, translate.
    by rewrite Hg, Hh.
  - split.
    + intros [m Hm]. destruct (Hok m Hm) as (Hf & _ & _ & Hdg & Hdh). done.
    + intros (Hf & Hdg & Hdh). by apply Hex.
Qed.

Lemma translate_unique entries e id :
  disjoint_entries entries → e ∈ entries → covers id e = true → translate entries id = entry_map e id.
Proof.
  unfold translate. induction entries as [|a entries IH]; [by intros _ ?%elem_of_nil|].
  intros [Ha Hd] [->|Hin]%elem_of_cons Hc; simpl; [by rewrite Hc|].
  destruct (covers id a) eqn:E; [|by apply IH]. by rewrite (Ha id e) in Hc.
Qed.

(** A map in both directions is undone by going back: no id of its range
    overflows. *)
Theorem bidirectional_inverse {M : Type} `{RangeMapLaws M} cmdline (m : IdMap M) guest host count i :
  try_from cmdline = Ok m → Cmdline.Bidirectional guest host count ∈ cmdline → 0 ≤ i < count →
  map_guest m (guest + i) = Ok (host + i) ∧ map_host m (host + i) = Ok (guest + i).
Proof.
  intros Hm Hin Hi. assert (map_ok (M := M) [] [] IdMap_empty) as Hempty.
  { split_and!; try done; intros id; apply rm_get_new. }
  destruct (push_all_spec cmdline [] [] IdMap_empty Hempty) as [Hok _]. cbn zeta in *. simpl app in *.
  destruct (Hok m Hm) as (Hfit & Hg & Hh & Hdg & Hdh). clear Hok.
  rewrite Forall_forall in Hfit. specialize (Hfit _ Hin).
  apply Forall_cons in Hfit as [Hfg [Hfh _]%Forall_cons]. unfold range_fits in *. simpl in Hfg, Hfh.
  assert (∀ base, range_contains (whole base count) (base + i) = true) as Hc.
  { intros base. apply andb_true_iff. split; [apply Z.leb_le | apply Z.ltb_lt]; simpl; lia. }
  assert (∀ entries (map : M) base to, holds_entries entries map → disjoint_entries entries →
    Range (whole base count) to ∈ entries → to + count < 2 ^ 32 →
    match rm_get (base + i) map with Some e => entry_map e (base + i) | None => Ok (base + i) end = Ok (to + i)) as Hgo.
  { intros entries map base to Hr Hd Hin' Hto. rewrite Hr. fold (translate entries (base + i)).
    rewrite (translate_unique _ _ _ Hd Hin') by apply Hc. unfold entry_map. cbn [source_range]. rewrite Hc.
    cbn [whole r_start]. replace (to + (base + i - base)) with (to + i) by lia.
    by rewrite (proj2 (Z.leb_gt _ _)) by lia. }
  split; eapply Hgo; try done; apply list_elem_of_bind; exists (Cmdline.Bidirectional guest host count);
    (split; [by apply list_elem_of_singleton | done]).
Qed.

(** ** A concrete map

    An association list of ranges. *)

Definition range_list : Type := list (id_range * MapEntry).

Fixpoint range_list_get (id : Z) (m : range_list) : option MapEntry :=
  match m with [] => None | (r, e) :: m' => if range_contains r id then Some e else range_list_get id m' end.

Definition overlap (r r' : id_range) : bool := Z.max (r_start r) (r_start r') <? Z.min (r_end r) (r_end r').

#[export] Instance range_list_map : RangeMap range_list := {
  rm_new := [];
  rm_get := range_list_get;
  rm_intersects r m := existsb (λ p, overlap r p.1) m;
  rm_insert r e m := (r, e) :: m;
}.

Lemma overlap_spec r r' :
  overlap r r' = true ↔ ∃ id, range_contains r id = true ∧ range_contains r' id = true.
Proof.
  unfold overlap, range_contains. rewrite Z.ltb_lt. setoid_rewrite andb_true_iff. setoid_rewrite Z.leb_le.
  setoid_rewrite Z.ltb_lt. split; [intros Hlt; exists (Z.max (r_start r) (r_start r')); lia | intros (id & ? & ?); lia].
Qed.

Lemma range_list_get_Some id m : is_Some (range_list_get id m) ↔ ∃ p, p ∈ m ∧ range_contains p.1 id = true.
Proof.
  induction m as [|[r e] m IH]; simpl.
  { split; [by intros [] | by intros (p & ?%elem_of_nil & _)]. }
  destruct (range_contains r id) eqn:E.
  - split; [intros _; exists (r, e); split; [by left | done] | by eexists].
  - rewrite IH. split; intros (p & Hin & Hc); exists p; (split; [|done]); [by right|].
    apply elem_of_cons in Hin as [->|]; [simpl in Hc; congruence | done].
Qed.

#[export] Instance range_list_laws : RangeMapLaws range_list.
Proof.
  split; [done | done|]. intros r m. cbn [rm_intersects rm_get range_list_map].
  rewrite existsb_exists. split.
  - intros (p & Hin & (id & H1 & H2)%overlap_spec). exists id. split; [done|]. apply range_list_get_Some.
    exists p. split; [by apply list_elem_of_In | done].
  - intros (id & Hc & (p & Hin & Hp)%range_list_get_Some). exists p. split; [by apply list_elem_of_In|].
    apply overlap_spec. eauto.
Qed.

Lemma bidirectional_inverse_witness :
  ∃ m : IdMap range_list,
    try_from [Cmdline.Bidirectional 0 100000 65536; Cmdline.ForbidGuest 65536 10] = Ok m ∧
    map_guest m (0 + 1000) = Ok (100000 + 1000) ∧ map_host m (100000 + 1000) = Ok (0 + 1000).
Proof.
  eexists. split; [reflexivity|].
  apply (bidirectional_inverse [Cmdline.Bidirectional 0 100000 65536; Cmdline.ForbidGuest 65536 10] _ 0 100000 65536 1000).
  - reflexivity.
  - by left.
  - lia.
Defined.

(** The target of a map in one direction is not checked: the last ids overflow,
    which in an unchecked build makes them root on the host. *)
Example target_overflow :
  ∃ m : IdMap range_list, try_from [Cmdline.Guest 1000 4294967295 2] = Ok m ∧ map_guest m 1001 = Panic ∧
    as_u32 (4294967295 + (1001 - 1000)) = 0.
Proof. eexists. by split_and!. Qed.

(** A range to forbid that reaches beyond the largest id overflows, where the
    other maps report an error. *)
Example forbid_overflow :
  try_from (M := range_list) [Cmdline.ForbidGuest 4294967295 1] = Panic ∧
  try_from (M := range_list) [Cmdline.SquashGuest 4294967295 0 1] = Err (mkIoError InvalidInput None).
Proof. done. Qed.

Lemma id_map_spec_witness :
  (∃ m : IdMap range_list, try_from [Cmdline.Guest 0 100 50; Cmdline.SquashGuest 40 7 20] = Ok m) ↔
  Forall entry_fits [Cmdline.Guest 0 100 50; Cmdline.SquashGuest 40 7 20] ∧
  disjoint_entries [Range (mkRange 0 50) 100; Squash (mkRange 40 60) 7] ∧ disjoint_entries [].
Proof. apply (id_map_spec (M := range_list) [Cmdline.Guest 0 100 50; Cmdline.SquashGuest 40 7 20]). Defined.

(** ** The maps of a user namespace

    Models [crates/virtiofsd-fork/src/idmap.rs]: the three numbers of a line of
    [uid_map] or [gid_map], between delimiters. *)

Module Namespace.

Inductive IdMapError :=
  | InvalidDelimiter
  | IncompleteMap
  | InvalidValue (error : ParseIntError).

(** [UidMap] and [GidMap] *)
Record UidMap := mkUidMap { inside_uid : Z; outside_uid : Z; map_count : Z }.

Section parser.
Context `{Cmdline.CharTables}.

Fixpoint collect_values (values : list text) : outcome IdMapError (list Z) :=
  match values with
  | [] => Ok []
  | v :: values' => n ← map_err InvalidValue (parse_u32 v); ns ← collect_values values'; Ok (n :: ns)
  end.

Definition parse_idmap (s : text) (expected_len : nat) : outcome IdMapError (list Z) :=
  match last s with
  | None => Err IncompleteMap
  | Some delimiter =>
      if Cmdline.is_alphanumeric delimiter then Err InvalidDelimiter
      else
        match removelast s with
        | c :: s' =>
            if c =? delimiter then
              let values := split_char delimiter s' in
              if decide (length values = expected_len) then collect_values values else Err IncompleteMap
            else Err InvalidDelimiter
        | [] => Err InvalidDelimiter
        end
  end.

Definition uid_from_str (s : text) : outcome IdMapError UidMap :=
  fields ← parse_idmap s 3;
  match fields with [a; b; c] => Ok (mkUidMap a b c) | _ => Panic end.

End parser.

Definition uid_fmt (m : UidMap) : text :=
  58 :: print_u32 (inside_uid m) ++ 58 :: print_u32 (outside_uid m) ++ 58 :: print_u32 (map_count m) ++ [58].

Theorem uid_map_parse_print `{Cmdline.CharTablesLaws} (m : UidMap) :
  in_u32 (inside_uid m) → in_u32 (outside_uid m) → in_u32 (map_count m) → uid_from_str (uid_fmt m) = Ok m.
Proof.
  intros H1 H2 H3. unfold uid_from_str, parse_idmap, uid_fmt.
  replace (58 :: _) with ((58 :: print_u32 (inside_uid m) ++ 58 :: print_u32 (outside_uid m) ++ 58 :: print_u32 (map_count m)) ++ [58])
    by (rewrite <- app_comm_cons; f_equal; rewrite <- app_assoc; f_equal; rewrite <- app_comm_cons; f_equal;
        rewrite <- app_assoc; done).
  rewrite last_snoc, removelast_last. rewrite Cmdline.ascii_alphanumeric by done. cbn [orb]. rewrite Z.eqb_refl.
  assert (is_digit 58 = false) as Hd by done.
  rewrite !split_char_app, split_char_lacks by by apply print_u32_lacks. cbn [collect_values length].
  rewrite decide_True by done. rewrite !parse_print_u32 by done. by destruct m.
Qed.

End Namespace.
