(* ===== verification/XattrMap.v ===== *)
(** * Extended attribute maps

    Models [crates/virtiofsd-fork/src/passthrough/xattrmap.rs]: the rules that
    translate the names of extended attributes between the guest and the host,
    and their parser.

    The text of the rules is a list of characters; names are lists of bytes.
    A zero byte in a key or a prefix is a panic of [CString::new(..).unwrap()]. *)

From stdpp Require Import base list strings.
From S2P Require Import Prelude Text.
#[local] Open Scope Z_scope.

Abbreviation bytes := (list Z).

Inductive XattrErrorKind :=
  | InvalidScope (got : bytes)
  | InvalidType (got : bytes)
  | InvalidDelimiter
  | IncompleteRule
  | MapRuleViolation
  | NoRulesProvided
  | UnterminatedMapping.

Record XattrError := mkXattrError { cause : XattrErrorKind; culprit : option nat }.

(** ** Rules *)

(** [Scope]: a set of the two sides. *)
Inductive side := CLIENT | SERVER.
Record Scope := mkScope { in_client : bool; in_server : bool }.
Definition both : Scope := mkScope true true.
Definition scope_contains (s : Scope) (x : side) : bool :=
  match x with CLIENT => in_client s | SERVER => in_server s end.

Definition Scope_from_bytes (bs : bytes) : outcome XattrErrorKind Scope :=
  if decide (bs = chars "all") then Ok both
  else if decide (bs = chars "client") then Ok (mkScope true false)
  else if decide (bs = chars "server") then Ok (mkScope false true)
  else Err (InvalidScope bs).

Inductive RuleType := Prefix | Okay | Bad | Unsupported | Map.
#[export] Instance RuleType_eq_dec : EqDecision RuleType.
Proof. solve_decision. Defined.

Definition Type_from_bytes (bs : bytes) : outcome XattrErrorKind RuleType :=
  if decide (bs = chars "prefix") then Ok Prefix
  else if decide (bs = chars "ok") then Ok Okay
  else if decide (bs = chars "bad") then Ok Bad
  else if decide (bs = chars "unsupported") then Ok Unsupported
  else if decide (bs = chars "map") then Ok Map
  else Err (InvalidType bs).

Record Rule := mkRule { rule_scope : Scope; rule_type : RuleType; rule_key : bytes; rule_prepend : bytes }.

Definition rule_matches (r : Rule) (x : side) (xattr_name : bytes) : bool :=
  scope_contains (rule_scope r) x &&
  match x with
  | CLIENT => starts_with (rule_key r) xattr_name
  | SERVER => starts_with (rule_prepend r) xattr_name
  end.

(** *** The parser *)

Definition CString_new {E : Type} (bs : bytes) : outcome E bytes := if decide (0 ∈ bs) then Panic else Ok bs.

(** [next_token]: the characters up to the delimiter, as bytes ([*ch as u8]). *)
Fixpoint next_token (delim : Z) (tokens : text) : outcome XattrErrorKind (bytes * text) :=
  match tokens with
  | [] => Err IncompleteRule
  | ch :: tokens' =>
      if ch =? delim then Ok ([], tokens')
      else '(bs, rest) ← next_token delim tokens'; Ok (ch mod 256 :: bs, rest)
  end.

Definition from_tokens (tokens : text) : outcome XattrErrorKind (Rule * text) :=
  match tokens with
  | [] => Err InvalidDelimiter
  | delim :: tokens =>
      '(t, tokens) ← next_token delim tokens;
      type_ ← Type_from_bytes t;
      '(scope, tokens) ← (if decide (type_ = Map) then Ok (both, tokens)
                          else '(sc, tokens) ← next_token delim tokens;
                               scope ← Scope_from_bytes sc; Ok (scope, tokens));
      '(key, tokens) ← next_token delim tokens;
      key ← CString_new key;
      '(prepend, tokens) ← next_token delim tokens;
      prepend ← CString_new prepend;
      Ok (mkRule scope type_ key prepend, tokens)
  end.

Definition expand_map_type (r : Rule) : list Rule :=
  [mkRule both Prefix (rule_key r) (rule_prepend r)] ++
  (if decide (rule_key r = []) then [] else [mkRule both Bad (rule_prepend r) (rule_key r)]) ++
  [mkRule both (if decide (rule_key r = []) then Bad else Okay) [] []].

Record XattrMap := mkXattrMap { rules : list Rule }.

(** [char::is_ascii_whitespace] *)
Definition is_ascii_whitespace (c : Z) : bool := (c =? 32) || (c =? 9) || (c =? 10) || (c =? 12) || (c =? 13).

(** The loop of [try_from]; an iteration takes at least one character. *)
Fixpoint parse_rules (fuel : nat) (unparsed : text) (rs : list Rule) : outcome XattrError (list Rule) :=
  match unparsed, fuel with
  | [], _ => Ok rs
  | _, O => Panic
  | ch :: rest, S fuel' =>
      if is_ascii_whitespace ch then parse_rules fuel' rest rs
      else
        let here := Some (length rs + 1)%nat in
        '(r, unparsed) ← map_err (λ e, mkXattrError e here) (from_tokens unparsed);
        if decide (rule_type r = Map) then
          match unparsed with
          | _ :: _ => Err (mkXattrError MapRuleViolation here)
          | [] => parse_rules fuel' unparsed (rs ++ expand_map_type r)
          end
        else parse_rules fuel' unparsed (rs ++ [r])
  end.

Definition XattrMap_try_from (input : text) : outcome XattrError XattrMap :=
  let trimmed := chars_trim input in
  rs ← parse_rules (length trimmed) trimmed [];
  match rs with [] => Err (mkXattrError NoRulesProvided None) | _ => Ok (mkXattrMap rs) end.

(** ** Translation *)

Inductive AppliedRule := Pass (name : bytes) | Deny | Unsupported_.

Definition find_rule (m : XattrMap) (x : side) (xattr_name : bytes) : outcome XattrError Rule :=
  match list_find (λ r, rule_matches r x xattr_name = true) (rules m) with
  | Some (_, r) => Ok r
  | None => Err (mkXattrError UnterminatedMapping None)
  end.

Definition map_client_xattr (m : XattrMap) (xattr_name : bytes) : outcome XattrError AppliedRule :=
  r ← find_rule m CLIENT xattr_name;
  match rule_type r with
  | Okay => Ok (Pass xattr_name)
  | Bad => Ok Deny
  | Unsupported => Ok Unsupported_
  | Prefix => s ← CString_new (rule_prepend r ++ xattr_name); Ok (Pass s)
  | Map => Panic
  end.

(** [split(|b| b == 0)] without the empty parts. *)
Definition list_names (xattr_names : bytes) : list bytes := filter (λ bs, bs ≠ []) (split_char 0 xattr_names).

(** What the guest sees of a name, if anything. *)
Definition shown (m : XattrMap) (xattr_name : bytes) : outcome XattrError (option bytes) :=
  r ← find_rule m SERVER xattr_name;
  match rule_type r with
  | Bad | Unsupported => Ok None
  | Okay => Ok (Some xattr_name)
  | Prefix => Ok (Some (drop (length (rule_prepend r)) xattr_name))
  | Map => Panic
  end.

Fixpoint filter_names (m : XattrMap) (unprocessed : list bytes) : outcome XattrError bytes :=
  match unprocessed with
  | [] => Ok []
  | n :: unprocessed' =>
      o ← shown m n;
      filtered ← filter_names m unprocessed';
      Ok (match o with Some p => p ++ 0 :: filtered | None => filtered end)
  end.

Definition map_server_xattrlist (m : XattrMap) (xattr_names : bytes) : outcome XattrError bytes :=
  filtered ← filter_names m (list_names xattr_names);
  Ok (if decide (filtered = []) then [0] else filtered).

(** ** Printing and parsing *)

Definition type_name (t : RuleType) : string :=
  match t with Prefix => "prefix" | Okay => "ok" | Bad => "bad" | Unsupported => "unsupported" | Map => "map" end.
Definition scope_name (s : Scope) : string :=
  if in_client s then if in_server s then "all" else "client" else "server".

(** A rule as it is written: its parts, each followed by the delimiter. *)
Definition tokens_of (r : Rule) : list bytes :=
  chars (type_name (rule_type r)) ::
    ((if decide (rule_type r = Map) then [] else [chars (scope_name (rule_scope r))]) ++ [rule_key r; rule_prepend r]).
Definition print_tokens (d : Z) (ts : list bytes) : text := concat ((λ t, t ++ [d]) <$> ts).
Definition print_rule (d : Z) (r : Rule) : text := d :: print_tokens d (tokens_of r).

(** Bytes that can stand in a rule. *)
Definition written (d : Z) (bs : bytes) : Prop := (d ∉ bs) ∧ Forall (λ c, 0 < c < 256) bs.
Definition delimiter_ok (d : Z) : Prop := is_whitespace d = false ∧ between 97 122 d = false ∧ is_ascii_whitespace d = false.
Definition rule_ok (d : Z) (r : Rule) : Prop :=
  written d (rule_key r) ∧ written d (rule_prepend r) ∧ (in_client (rule_scope r) = true ∨ in_server (rule_scope r) = true) ∧
  (rule_type r = Map → rule_scope r = both).

Lemma next_token_written d bs rest : written d bs → next_token d (bs ++ d :: rest) = Ok (bs, rest).
Proof.
  intros [Hd Hb]. induction bs as [|c bs IH]; simpl; [by rewrite Z.eqb_refl|].
  apply not_elem_of_cons in Hd as [Hc Hd]. apply Forall_cons in Hb as [Hc' Hb].
  rewrite (proj2 (Z.eqb_neq c d)) by done. rewrite IH by done. simpl. by rewrite Z.mod_small by lia.
Qed.

Lemma next_token_print d t ts rest :
  written d t → next_token d (print_tokens d (t :: ts) ++ rest) = Ok (t, print_tokens d ts ++ rest).
Proof.
  intros Ht. unfold print_tokens. rewrite fmap_cons. cbn [concat].
  rewrite <- !app_assoc. simpl app. by apply next_token_written.
Qed.

Lemma written_word d s : between 97 122 d = false → str_forall (λ c, between 97 122 (Z.of_N (Ascii.N_of_ascii c))) s = true → written d (chars s).
Proof.
  intros Hd. unfold written, chars. induction s as [|c s IH]; simpl; intros Hs.
  { split; [by apply not_elem_of_nil | constructor]. }
  apply andb_true_iff in Hs as [Hc Hs]. destruct (IH Hs) as [H1 H2]. split.
  - apply not_elem_of_cons. split; [|done]. intros ->. congruence.
  - constructor; [|done]. unfold between in Hc. apply andb_true_iff in Hc as [?%Z.leb_le ?%Z.leb_le]. lia.
Qed.

Lemma CString_written {E : Type} d bs : written d bs → CString_new (E := E) bs = Ok bs.
Proof.
  intros [_ Hb]. unfold CString_new. rewrite decide_False; [done|]. intros Hin. rewrite Forall_forall in Hb.
  specialize (Hb 0 Hin). lia.
Qed.

Lemma from_tokens_print d r rest :
  delimiter_ok d → rule_ok d r → from_tokens (print_rule d r ++ rest) = Ok (r, rest).
Proof.
  intros (_ & Hd & _) (Hk & Hp & Hs & Hm). unfold print_rule, from_tokens, tokens_of. rewrite <- app_comm_cons.
  rewrite next_token_print by (apply written_word; [done | by destruct (rule_type r)]).
  unfold mbind at 1, outcome_bind at 1.
  assert (Type_from_bytes (chars (type_name (rule_type r))) = Ok (rule_type r)) as -> by by destruct (rule_type r).
  unfold mbind at 1, outcome_bind at 1. case_decide as Ht; simpl app.
  - unfold mbind, outcome_bind. rewrite <- (Hm Ht), next_token_print by done. rewrite (CString_written d) by done.
    rewrite next_token_print by done. rewrite (CString_written d) by done. by destruct r.
  - rewrite next_token_print by (apply written_word; [done | by destruct (rule_scope r) as [[] []]]).
    assert (Scope_from_bytes (chars (scope_name (rule_scope r))) = Ok (rule_scope r)) as Hsc.
    { destruct (rule_scope r) as [[] []]; try done. by destruct Hs. }
    unfold mbind, outcome_bind. rewrite Hsc, next_token_print by done. rewrite (CString_written d) by done.
    rewrite next_token_print by done. rewrite (CString_written d) by done. by destruct r.
Qed.

Definition plain_rule (d : Z) (r : Rule) : Prop := rule_ok d r ∧ rule_type r ≠ Map.

Lemma parse_rule_step d r fuel rest acc :
  delimiter_ok d → rule_ok d r →
  parse_rules (S fuel) (print_rule d r ++ rest) acc =
  if decide (rule_type r = Map) then
    match rest with
    | _ :: _ => Err (mkXattrError MapRuleViolation (Some (length acc + 1)%nat))
    | [] => parse_rules fuel rest (acc ++ expand_map_type r)
    end
  else parse_rules fuel rest (acc ++ [r]).
Proof.
  intros Hd Hr. pose proof (from_tokens_print d r rest Hd Hr) as Ht. destruct Hd as (_ & _ & Hw).
  unfold print_rule in *. rewrite <- app_comm_cons in *. cbn [parse_rules]. rewrite Hw, Ht. done.
Qed.

Lemma parse_rules_print d rs fuel tail acc :
  delimiter_ok d → Forall (plain_rule d) rs →
  parse_rules (length rs + fuel) (concat (print_rule d <$> rs) ++ tail) acc = parse_rules fuel tail (acc ++ rs).
Proof.
  intros Hd Hrs. revert acc. induction Hrs as [|r rs [Hr Ht] _ IH]; intros acc; [by rewrite app_nil_r|].
  rewrite fmap_cons. cbn [concat length]. rewrite <- app_assoc. simpl Nat.add.
  rewrite parse_rule_step, decide_False, IH, <- app_assoc by done. done.
Qed.

Lemma trim_delimited d s t : is_whitespace d = false → s = t ++ [d] → head s = Some d → chars_trim s = s.
Proof.
  intros Hd -> Hh. unfold chars_trim, chars_trim_end.
  assert (chars_trim_start (t ++ [d]) = t ++ [d]) as ->.
  { destruct (t ++ [d]) as [|c l]; [done|]. injection Hh as ->. simpl. by rewrite Hd. }
  rewrite reverse_snoc. simpl. rewrite Hd. by rewrite reverse_cons, reverse_involutive.
Qed.

Lemma print_tokens_snoc d ts t : print_tokens d (ts ++ [t]) = (print_tokens d ts ++ t) ++ [d].
Proof. unfold print_tokens. rewrite fmap_app, concat_app. simpl. by rewrite app_nil_r, <- app_assoc. Qed.

Lemma print_rule_ends d r : ∃ t, print_rule d r = t ++ [d].
Proof.
  unfold print_rule, tokens_of. set (mid := if decide (rule_type r = Map) then [] else _).
  replace (chars (type_name (rule_type r)) :: (mid ++ [rule_key r; rule_prepend r]))
    with ((chars (type_name (rule_type r)) :: mid ++ [rule_key r]) ++ [rule_prepend r])
    by (simpl; by rewrite <- app_assoc).
  rewrite print_tokens_snoc. eexists (d :: _). done.
Qed.

(** The text of the rules: any number of plain ones, then perhaps a [map]. *)
Definition print_rules (d : Z) (rs : list Rule) : text := concat (print_rule d <$> rs).

Lemma print_rules_trimmed d rs : delimiter_ok d → rs ≠ [] → chars_trim (print_rules d rs) = print_rules d rs.
Proof.
  intros (Hd & _ & _) Hne. destruct rs as [|r rs _] using rev_ind; [done|]. unfold print_rules.
  destruct (print_rule_ends d r) as [t Ht]. rewrite fmap_app, concat_app.
  change (concat (print_rule d <$> [r])) with (print_rule d r ++ []). rewrite app_nil_r.
  apply (trim_delimited d _ (concat (print_rule d <$> rs) ++ t)); [done | by rewrite Ht, app_assoc|].
  by destruct rs.
Qed.

Lemma length_print_rules d rs : (length rs ≤ length (print_rules d rs))%nat.
Proof.
  induction rs as [|r rs IH]; [simpl; lia|]. unfold print_rules in *. rewrite fmap_cons. cbn [concat].
  rewrite length_app. unfold print_rule at 1. cbn [length]. lia.
Qed.

Lemma parse_printed_rules d rs (final : option Rule) :
  delimiter_ok d → Forall (plain_rule d) rs → (∀ r, final = Some r → rule_ok d r ∧ rule_type r = Map) →
  let written_rules := rs ++ option_list final in
  written_rules ≠ [] →
  XattrMap_try_from (print_rules d written_rules) =
    Ok (mkXattrMap (rs ++ default [] (expand_map_type <$> final))).
Proof.
  intros Hd Hrs Hfin written_rules Hne. unfold XattrMap_try_from. rewrite print_rules_trimmed by done.
  set (txt := print_rules d written_rules). cbv zeta.
  assert (txt = concat (print_rule d <$> rs) ++ print_rules d (option_list final)) as Htxt.
  { subst txt written_rules. unfold print_rules. by rewrite fmap_app, concat_app. }
  pose proof (length_print_rules d written_rules) as Hlen. fold txt in Hlen. unfold written_rules in Hlen.
  rewrite length_app in Hlen.
  replace (length txt) with (length rs + (length txt - length rs))%nat by lia. rewrite Htxt at 2.
  rewrite parse_rules_print by done. destruct final as [r|]; simpl option_list in *.
  - destruct (Hfin r eq_refl) as [Hr Ht]. simpl length in Hlen.
    destruct (length txt - length rs)%nat as [|fuel] eqn:Ef; [lia|].
    change (print_rules d [r]) with (print_rule d r ++ []).
    rewrite parse_rule_step, decide_True by done. destruct fuel; by destruct rs.
  - unfold print_rules. subst written_rules. rewrite app_nil_r in *. simpl. by destruct (length txt - length rs)%nat, rs.
Qed.

(** What is written is what is parsed: the text of a list of rules, with
    a delimiter that occurs in none of their parts, is parsed to these rules;
    a final [map] rule stands for the rules it abbreviates. *)
Theorem xattr_map_parse_print d rs (final : option Rule) :
  delimiter_ok d → Forall (plain_rule d) rs → (∀ r, final = Some r → rule_ok d r ∧ rule_type r = Map) →
  let written_rules := rs ++ option_list final in
  written_rules ≠ [] →
  XattrMap_try_from (print_rules d written_rules) =
    Ok (mkXattrMap (rs ++ default [] (expand_map_type <$> final))).
Proof. apply parse_printed_rules. Qed.

(** ** Maps that are written *)

Definition map_of (key prepend : bytes) : XattrMap := mkXattrMap (expand_map_type (mkRule both Map key prepend)).

Lemma find_rule_cons r rs x n :
  find_rule (mkXattrMap (r :: rs)) x n = if rule_matches r x n then Ok r else find_rule (mkXattrMap rs) x n.
Proof.
  unfold find_rule. cbn [rules list_find]. destruct (rule_matches r x n) eqn:E.
  - by rewrite decide_True by done.
  - rewrite decide_False by done. by destruct (list_find _ rs) as [[]|].
Qed.

Lemma CString_app {E : Type} s t : (0 ∉ s) → (0 ∉ t) → CString_new (E := E) (s ++ t) = Ok (s ++ t).
Proof. intros Hs Ht. unfold CString_new. rewrite decide_False; [done|]. rewrite elem_of_app. by intros []. Qed.

(** What a [map] does with a name of the guest, and with one of the host. *)
Lemma map_client_of key prepend n :
  (0 ∉ prepend) → (0 ∉ n) →
  map_client_xattr (map_of key prepend) n =
    Ok (if starts_with key n then Pass (prepend ++ n)
        else if starts_with prepend n then Deny
        else Pass n).
Proof.
  intros Hp Hn. unfold map_client_xattr, map_of, expand_map_type. cbn [rule_key rule_prepend app].
  rewrite find_rule_cons. unfold rule_matches at 1. cbn [rule_scope scope_contains both in_client andb rule_key].
  destruct (starts_with key n) eqn:Ek.
  { simpl. by rewrite CString_app. }
  rewrite !decide_False by (intros ->; done). cbn [app]. rewrite find_rule_cons.
  unfold rule_matches at 1. cbn [rule_scope scope_contains both in_client andb rule_key].
  destruct (starts_with prepend n); [done|]. rewrite find_rule_cons. by destruct n.
Qed.

Lemma shown_of key prepend n :
  shown (map_of key prepend) n =
    Ok (if starts_with prepend n then Some (drop (length prepend) n)
        else if starts_with key n then None
        else Some n).
Proof.
  unfold shown, map_of, expand_map_type. cbn [rule_key rule_prepend app].
  rewrite find_rule_cons. unfold rule_matches at 1. cbn [rule_scope scope_contains both in_server andb rule_prepend].
  destruct (starts_with prepend n) eqn:Ep; [done|].
  destruct (decide (key = [])) as [->|Hk]; cbn [app].
  { rewrite find_rule_cons. by destruct n. }
  rewrite find_rule_cons. unfold rule_matches at 1. cbn [rule_scope scope_contains both in_server andb rule_prepend].
  destruct (starts_with key n); [done|]. rewrite find_rule_cons. by destruct n.
Qed.

Lemma starts_with_app p s : starts_with p (p ++ s) = true.
Proof. induction p as [|c p IH]; simpl; [done|]. by rewrite Z.eqb_refl. Qed.

Lemma map_text_parsed d key prepend :
  delimiter_ok d → written d key → written d prepend →
  XattrMap_try_from (print_rules d [mkRule both Map key prepend]) = Ok (map_of key prepend).
Proof.
  intros Hd Hk Hp. apply (parse_printed_rules d [] (Some (mkRule both Map key prepend))); [done.. | |done].
  intros r [= <-]. split; [|done]. split; [done|]. split; [done|]. split; [by left | done].
Qed.

(** The names of the guest, as the host stores them. *)
Definition stored (m : XattrMap) (ns ss : list bytes) : Prop :=
  Forall2 (λ n s, (0 ∉ n) ∧ n ≠ [] ∧ map_client_xattr m n = Ok (Pass s)) ns ss.

(** The reply of [listxattr]. *)
Definition listing (ns : list bytes) : bytes := concat ((λ n, n ++ [0]) <$> ns).

Lemma list_names_listing ns : Forall (λ n, (0 ∉ n) ∧ n ≠ []) ns → list_names (listing ns) = ns.
Proof.
  unfold list_names, listing. induction 1 as [|n ns [H0 Hn] _ IH]; [done|].
  rewrite fmap_cons. cbn [concat]. rewrite <- app_assoc. simpl app. rewrite split_char_app by done.
  by rewrite filter_cons_True, IH.
Qed.

Lemma stored_shown key prepend n s :
  (0 ∉ prepend) → (0 ∉ n) → n ≠ [] → map_client_xattr (map_of key prepend) n = Ok (Pass s) →
  (0 ∉ s) ∧ s ≠ [] ∧ shown (map_of key prepend) s = Ok (Some n).
Proof.
  intros Hp H0 Hn. rewrite map_client_of by done. rewrite shown_of.
  destruct (starts_with key n) eqn:Ek; [|destruct (starts_with prepend n) eqn:Ep; [done|]]; intros [= <-].
  - rewrite starts_with_app, drop_app_length. repeat split; [|by destruct prepend, n].
    rewrite elem_of_app. by intros [].
  - by rewrite Ek, Ep.
Qed.

Lemma filter_names_stored key prepend ns ss :
  (0 ∉ prepend) → stored (map_of key prepend) ns ss →
  Forall (λ n, (0 ∉ n) ∧ n ≠ []) ss ∧ filter_names (map_of key prepend) ss = Ok (listing ns).
Proof.
  intros Hp. induction 1 as [|n s ns ss (H0 & Hn & Hs) _ [IH1 IH2]]; [done|].
  destruct (stored_shown key prepend n s) as (Hs0 & Hsn & Hsh); [done..|]. split; [by constructor|].
  cbn [filter_names]. rewrite Hsh. cbn [mbind outcome_bind]. rewrite IH2. simpl.
  unfold listing. rewrite fmap_cons. cbn [concat]. by rewrite <- app_assoc.
Qed.


(** ** Panics *)

(** Characters whose low byte is not zero. *)
Definition clean (s : text) : Prop := Forall (λ c, c mod 256 ≠ 0) s.

(** A run that returns, with a value the property holds of if it is one. *)
Definition returns {E A : Type} (P : A → Prop) (o : outcome E A) : Prop :=
  match o with Ok a => P a | Err _ => True | Panic => False end.

Lemma rule_returns_bind {E A B : Type} (P : A → Prop) (Q : B → Prop) (o : outcome E A) (k : A → outcome E B) :
  returns P o → (∀ a, P a → returns Q (k a)) → returns Q (a ← o; k a).
Proof. destruct o; simpl; auto. Qed.

Lemma next_token_returns d s :
  clean s → returns (λ '(bs, rest), (0 ∉ bs) ∧ clean rest ∧ (length rest < length s)%nat) (next_token d s).
Proof.
  induction 1 as [|c s Hc Hs IH]; simpl; [done|]. destruct (c =? d).
  { simpl. split; [apply not_elem_of_nil|]. split; [done | lia]. }
  eapply rule_returns_bind; [exact IH|]. intros [bs rest] (H0 & Hr & Hl). simpl. split; [|split; [done | lia]].
  apply not_elem_of_cons. done.
Qed.

(** The rules a parsed map has. *)
Definition sound_rule (r : Rule) : Prop := (0 ∉ rule_key r) ∧ (0 ∉ rule_prepend r).

Lemma CString_returns {E : Type} bs : (0 ∉ bs) → returns (E := E) (λ b, b = bs) (CString_new bs).
Proof. intros H. unfold CString_new. by rewrite decide_False. Qed.

Lemma from_tokens_returns s :
  clean s → s ≠ [] → returns (λ '(r, rest), sound_rule r ∧ clean rest ∧ (length rest < length s)%nat) (from_tokens s).
Proof.
  intros Hs Hne. destruct s as [|d s]; [done|]. apply Forall_cons in Hs as [_ Hs]. cbn [from_tokens length].
  eapply rule_returns_bind; [by apply next_token_returns|]. intros [t s1] (_ & H1 & L1).
  eapply (rule_returns_bind (λ _, True)); [unfold Type_from_bytes; by repeat case_decide|]. intros ty _.
  apply (rule_returns_bind (λ '(_, rest), clean rest ∧ (length rest < S (length s))%nat)).
  { case_decide; [simpl; split; [done | lia]|].
    eapply rule_returns_bind; [by apply next_token_returns|]. intros [sc s2] (_ & H2 & L2).
    eapply (rule_returns_bind (λ _, True)); [unfold Scope_from_bytes; by repeat case_decide|]. intros scope _. simpl. split; [done | lia]. }
  intros [scope s2] (H2 & L2).
  eapply rule_returns_bind; [by apply next_token_returns|]. intros [key s3] (K0 & H3 & L3).
  eapply rule_returns_bind; [by apply CString_returns|]. intros ? ->.
  eapply rule_returns_bind; [by apply next_token_returns|]. intros [pre s4] (P0 & H4 & L4).
  eapply rule_returns_bind; [by apply CString_returns|]. intros ? ->. simpl. split; [done | split; [done | lia]].
Qed.

(** The rules of a map: none is an unexpanded [map]. *)
Definition expanded_rule (r : Rule) : Prop := sound_rule r ∧ rule_type r ≠ Map.

Lemma expand_map_expanded r : sound_rule r → Forall expanded_rule (expand_map_type r).
Proof.
  intros [H1 H2]. unfold expand_map_type, expanded_rule, sound_rule.
  case_decide; repeat constructor; simpl; try done; apply not_elem_of_nil.
Qed.

Lemma parse_rules_returns fuel s rs :
  (length s ≤ fuel)%nat → clean s → Forall expanded_rule rs → returns (Forall expanded_rule) (parse_rules fuel s rs).
Proof.
  revert s rs. induction fuel as [|fuel IH]; intros [|c s] rs Hl Hs Hrs; simpl in Hl; try lia; try done.
  cbn [parse_rules]. pose proof Hs as Hcs. apply Forall_cons in Hs as [_ Hs].
  destruct (is_ascii_whitespace c); [apply IH; [lia | done | done]|].
  apply (rule_returns_bind (λ '(r, rest), sound_rule r ∧ clean rest ∧ (length rest ≤ fuel)%nat)).
  { pose proof (from_tokens_returns (c :: s) Hcs ltac:(done)) as Hf.
    destruct (from_tokens (c :: s)) as [[r rest]| |]; simpl in *; [|done|done]. split_and!; [by apply Hf | by apply Hf | lia]. }
  intros [r rest] (Hr & Hc & L). case_decide as Hm.
  - destruct rest; [|done]. apply IH; [done..|]. apply Forall_app. split; [done | by apply expand_map_expanded].
  - apply IH; [done..|]. apply Forall_app. split; [done|]. by apply Forall_singleton.
Qed.

Lemma chars_trim_start_suffix s : ∃ p, s = p ++ chars_trim_start s.
Proof.
  induction s as [|c s [p IH]]; simpl; [by exists []|]. destruct (is_whitespace c); [|by exists []].
  exists (c :: p). simpl. by f_equal.
Qed.

Lemma clean_trim s : clean s → clean (chars_trim s).
Proof.
  assert (∀ t, clean t → clean (chars_trim_start t)) as Hc.
  { intros t Ht. destruct (chars_trim_start_suffix t) as [p Hp]. rewrite Hp in Ht. by apply Forall_app in Ht as []. }
  intros Hs. unfold chars_trim, chars_trim_end. unfold clean in *. rewrite Forall_reverse.
  apply Hc. rewrite Forall_reverse. by apply Hc.
Qed.

Lemma find_rule_returns m x n : Forall expanded_rule (rules m) → returns expanded_rule (find_rule m x n).
Proof.
  intros Hm. unfold find_rule. destruct (list_find _ (rules m)) as [[i r]|] eqn:E; [|done]. simpl.
  apply list_find_Some in E as (E & _). by eapply Forall_lookup_1 in E.
Qed.

Lemma map_client_returns m n :
  Forall expanded_rule (rules m) → (0 ∉ n) → returns (λ _, True) (map_client_xattr m n).
Proof.
  intros Hm Hn. eapply rule_returns_bind; [by apply find_rule_returns|]. intros r [[_ Hp] Ht].
  destruct (rule_type r); try done. by rewrite CString_app.
Qed.

Lemma filter_names_returns m ns : Forall expanded_rule (rules m) → returns (λ _, True) (filter_names m ns).
Proof.
  intros Hm. induction ns as [|n ns IH]; [done|]. cbn [filter_names]. apply (rule_returns_bind (λ _, True)).
  { eapply rule_returns_bind; [by apply find_rule_returns|]. intros r [_ Ht]. by destruct (rule_type r). }
  intros o _. by eapply rule_returns_bind.
Qed.

(** No text panics the parser as long as no character of it has a zero low
    byte, and no translation with a map that was parsed from such a text
    panics: there is no unexpanded [map] rule and no zero byte inside a name. *)
Theorem xattr_map_no_panic input :
  clean input →
  match XattrMap_try_from input with
  | Panic => False
  | Err _ => True
  | Ok m => (∀ n, (0 ∉ n) → map_client_xattr m n ≠ Panic) ∧ (∀ ns, map_server_xattrlist m ns ≠ Panic)
  end.
Proof.
  intros Hc. pose proof (parse_rules_returns _ _ [] (le_n _) (clean_trim _ Hc) ltac:(constructor)) as Hp.
  unfold XattrMap_try_from. cbv zeta. destruct (parse_rules _ _ _) as [rs| |]; [|done|done].
  simpl in *. destruct rs as [|r rs]; [done|]. split.
  - intros n Hn E. pose proof (map_client_returns (mkXattrMap (r :: rs)) n Hp Hn) as H. by rewrite E in H.
  - intros ns. unfold map_server_xattrlist.
    pose proof (filter_names_returns (mkXattrMap (r :: rs)) (list_names ns) Hp) as H.
    by destruct (filter_names _ _).
Qed.

Lemma xattr_map_no_panic_witness :
  clean (chars ":ok:all:::") ∧
  map_server_xattrlist (mkXattrMap [mkRule both Okay [] []]) [117; 0] ≠ Panic.
Proof.
  assert (clean (chars ":ok:all:::")) as Hc by by repeat constructor.
  split; [exact Hc|]. exact (proj2 (xattr_map_no_panic _ Hc) [117; 0]).
Defined.

(** The map of the second example of the documentation, and what it stores. *)
Definition trusted : bytes := chars "trusted.".
Definition virtiofs : bytes := chars "user.virtiofs.".


Lemma xattr_map_parse_print_witness :
  XattrMap_try_from (chars ":prefix:all::user.virtiofs.::bad:all:::") =
    Ok (mkXattrMap [mkRule both Prefix [] virtiofs; mkRule both Bad [] []]).
Proof.
  apply (xattr_map_parse_print 58 [mkRule both Prefix [] virtiofs; mkRule both Bad [] []] None); try done.
  repeat constructor; try done; by apply (bool_decide_unpack _).
Defined.

(** [*ch as u8] truncates: the character U+0100 in a key is a zero byte, which
    no C string holds. *)
Example wide_character_panics :
  XattrMap_try_from (chars ":ok:all:" ++ [256] ++ chars "::") = Panic.
Proof. reflexivity. Qed.
