(* ===== verification/InodeStore.v ===== *)
(** * The inode store

    Models [crates/virtiofsd-fork/src/passthrough/inode_store.rs], with the
    types of [passthrough/file_handle.rs] and
    [passthrough/device_state/preserialization/mod.rs] it stores.

    The inodes the guest knows are kept by their FUSE ID, with two indexes, by
    the IDs and by the file handle of the host's inode.  Each has a counter of
    references: lookups that the guest has not forgotten, strong references
    ([StrongInodeReference]) of the server, and the strong references that the
    migration information of other inodes holds.

    An [Arc<InodeData>] is its immutable part with the location of the two cells
    it shares, the counter and the migration information.  [RwLock]s are not
    modelled as such: a method that holds the lock is one step, and a strong
    reference is made from an [Arc] that may have been taken earlier, as the
    methods do that release the lock in between. *)

From stdpp Require Import base gmap list strings fin_maps sorting.
From S2P Require Import Prelude.
#[local] Open Scope Z_scope.

(** ** Data *)

Record InodeIds := mkInodeIds { ids_ino : Z; ids_dev : Z; ids_mnt_id : Z }.
#[export] Instance InodeIds_eq_dec : EqDecision InodeIds.
Proof. solve_decision. Defined.
#[export] Instance InodeIds_countable : Countable InodeIds.
Proof.
  refine (inj_countable' (λ x, (ids_ino x, ids_dev x, ids_mnt_id x)) (λ '(a, b, c), mkInodeIds a b c) _).
  by intros [].
Defined.

Record CFileHandle := mkCFileHandle { handle_bytes : Z; handle_type : Z; f_handle : list Z }.
Record FileHandle := mkFileHandle { fh_mnt_id : Z; fh_handle : CFileHandle }.
#[export] Instance CFileHandle_eq_dec : EqDecision CFileHandle.
Proof. solve_decision. Defined.
#[export] Instance FileHandle_eq_dec : EqDecision FileHandle.
Proof. solve_decision. Defined.
#[export] Instance FileHandle_countable : Countable FileHandle.
Proof.
  refine (inj_countable' (λ x, (fh_mnt_id x, handle_bytes (fh_handle x), handle_type (fh_handle x), f_handle (fh_handle x)))
            (λ '(a, b, c, d), mkFileHandle a (mkCFileHandle b c d)) _).
  by intros [? []].
Defined.

Record OpenableFileHandle := mkOpenable { openable_inner : FileHandle; openable_mount_fd : Z }.
Record SerializableFileHandle := mkSerializable { ser_mnt_id : Z; ser_handle_type : Z; ser_handle : list Z }.

Inductive FileOrHandle :=
  | IsFile (fd : Z)
  | IsHandle (h : OpenableFileHandle)
  | IsInvalid (e : io_error).

(** What an [Arc<InodeData>] points to. *)
Record InodeData := mkInodeData {
  cell : positive;
  inode : Z;
  file_or_handle : FileOrHandle;
  ids : InodeIds;
  mode : Z;
}.

Inductive InodeLocation :=
  | RootNode
  | InodePath (parent : InodeData) (filename : string)
  | HandleLocation (h : SerializableFileHandle).
Record InodeMigrationInfo := mkMigrationInfo { location : InodeLocation; info_handle : option SerializableFileHandle }.

(** The mutable part. *)
Record Cell := mkCell { refcount : Z; migration_info : option InodeMigrationInfo }.

Record InodeStore := mkInodeStore {
  cells : gmap positive Cell;
  data : gmap Z InodeData;
  by_ids : gmap InodeIds Z;
  by_handle : gmap FileHandle Z;
}.
Definition InodeStore_default : InodeStore := mkInodeStore ∅ ∅ ∅ ∅.

Definition ROOT_ID : Z := 1.

(** [for_each_strong_reference] *)
Definition strong_references (info : InodeMigrationInfo) : list InodeData :=
  match location info with
  | RootNode => []
  | InodePath parent _ => [parent]
  | HandleLocation _ => []
  end.

Definition has_path (info : InodeMigrationInfo) : bool :=
  match location info with InodePath _ _ => true | _ => false end.

(** ** Operations under the lock *)

Definition with_cells (f : gmap positive Cell → gmap positive Cell) (s : InodeStore) : InodeStore :=
  mkInodeStore (f (cells s)) (data s) (by_ids s) (by_handle s).
Definition set_refcount (d : InodeData) (n : Z) : InodeStore → InodeStore :=
  with_cells (alter (λ c, mkCell n (migration_info c)) (cell d)).
Definition set_info (d : InodeData) (o : option InodeMigrationInfo) : InodeStore → InodeStore :=
  with_cells (alter (λ c, mkCell (refcount c) o) (cell d)).

Definition info_of (s : InodeStore) (d : InodeData) : option InodeMigrationInfo :=
  cells s !! cell d ≫= migration_info.
Definition infos_references (o : option InodeMigrationInfo) : list InodeData :=
  default [] (strong_references <$> o).

Definition insert_new (d : InodeData) (s : InodeStore) : outcome io_error InodeStore :=
  match data s !! inode d with
  | Some _ => Panic
  | None =>
      Ok (mkInodeStore (cells s) (<[inode d := d]> (data s)) (<[ids d := inode d]> (by_ids s))
            (match file_or_handle d with
             | IsHandle h => <[openable_inner h := inode d]> (by_handle s)
             | _ => by_handle s
             end))
  end.

(** What [remove] takes out of the store. *)
Definition removed (d : InodeData) (s : InodeStore) : InodeStore :=
  set_info d None
    (mkInodeStore (cells s) (delete (inode d) (data s)) (delete (ids d) (by_ids s))
       (match file_or_handle d with
        | IsHandle h => delete (openable_inner h) (by_handle s)
        | _ => by_handle s
        end)).

(** [remove] and [forget_one] call each other: the strong references of a
    removed inode are dropped.  Each removal makes the store smaller. *)
Definition remove_with (forget : Z → Z → InodeStore → InodeStore) (i : Z) (s : InodeStore) : InodeStore :=
  match data s !! i with
  | None => s
  | Some d => foldl (λ s r, forget (inode r) 1 s) (removed d s) (infos_references (info_of s d))
  end.

Fixpoint forget_fuel (fuel : nat) (i count : Z) (s : InodeStore) : InodeStore :=
  match data s !! i ≫= λ d, pair d <$> cells s !! cell d with
  | None => s
  | Some (d, c) =>
      let new_count := Z.max 0 (refcount c - count) in
      let s := set_refcount d new_count s in
      if new_count =? 0 then
        match fuel with
        | O => s
        | S fuel' => remove_with (forget_fuel fuel') i s
        end
      else s
  end.
Definition forget_one (i count : Z) (s : InodeStore) : InodeStore := forget_fuel (size (data s)) i count s.

(** [drop_unlocked], and [Drop] outside of the lock. *)
Definition drop_reference (r : InodeData) : InodeStore → InodeStore := forget_one (inode r) 1.
Definition drop_references (rs : list InodeData) (s : InodeStore) : InodeStore := foldl (flip drop_reference) s rs.

(** The keys of the [BTreeMap], and its values. *)
Definition sorted_keys (s : InodeStore) : list Z := merge_sort Z.le (elements (dom (data s))).
Definition sorted_inodes (s : InodeStore) : list InodeData := omap (λ i, data s !! i) (sorted_keys s).

Definition clear_migration_info (s : InodeStore) : InodeStore :=
  let ds := filter (λ d, inode d ≠ ROOT_ID) (sorted_inodes s) in
  let rs := ds ≫= λ d, infos_references (info_of s d) in
  drop_references rs (foldl (λ s d, set_info d None s) s ds).

Definition clear (s : InodeStore) : InodeStore :=
  mkInodeStore (cells (clear_migration_info s)) ∅ ∅ ∅.

Definition get_inode (s : InodeStore) (i : Z) : option InodeData := data s !! i.

(** [.map(|inode| self.get(inode).unwrap())] *)
Definition get_indexed (s : InodeStore) (o : option Z) : outcome io_error (option InodeData) :=
  match o with
  | None => Ok None
  | Some i => match get_inode s i with Some d => Ok (Some d) | None => Panic end
  end.
Definition get_by_ids (s : InodeStore) (x : InodeIds) : outcome io_error (option InodeData) :=
  get_indexed s (by_ids s !! x).
Definition get_by_handle (s : InodeStore) (h : FileHandle) : outcome io_error (option InodeData) :=
  get_indexed s (by_handle s !! h).

(** ** Strong references *)

Definition not_found : io_error := mkIoError NotFound None.
Definition other_io_error : io_error := mkIoError KOther None.

(** [increment_refcount_for]: [rc + 1] is evaluated in any case. *)
Definition increment_refcount_for (d : InodeData) : stm InodeStore io_error unit := λ s,
  match cells s !! cell d with
  | None => (Panic, s)
  | Some c =>
      if 2 ^ 64 - 1 <=? refcount c then (Panic, s)
      else if 0 <? refcount c then (Ok (), set_refcount d (refcount c + 1) s)
      else (Err not_found, s)
  end.

Definition new_with_data (d : InodeData) : stm InodeStore io_error InodeData :=
  increment_refcount_for d ≫= λ _, mret d.

Definition get_strong (i : Z) : stm InodeStore io_error InodeData := λ s,
  match get_inode s i with
  | Some d => new_with_data d s
  | None => (Err not_found, s)
  end.

(** [clone]: the [unwrap] of the increment. *)
Definition clone_reference (r : InodeData) : stm InodeStore io_error InodeData := λ s,
  match increment_refcount_for r s with
  | (Ok _, s') => (Ok r, s')
  | (_, s') => (Panic, s')
  end.

Definition is_file (d : InodeData) : bool := match file_or_handle d with IsFile _ => true | _ => false end.

(** The inode a handle and IDs stand for. *)
Definition find_inode (s : InodeStore) (handle : option FileHandle) (x : InodeIds) : outcome io_error (option InodeData) :=
  by_h ← match handle with Some h => get_by_handle s h | None => Ok None end;
  match by_h with
  | Some d => Ok (Some d)
  | None =>
      o ← get_by_ids s x;
      Ok (match o with Some d => if is_file d then Some d else None | None => None end)
  end.

Definition do_claim_inode (handle : option FileHandle) (x : InodeIds) : stm InodeStore io_error InodeData := λ s,
  match find_inode s handle x with
  | Ok (Some d) => new_with_data d s
  | Ok None => (Err not_found, s)
  | Err e => (Err e, s)
  | Panic => (Panic, s)
  end.

(** An inode that is not yet shared. *)
Record NewInode := mkNewInode {
  new_id : Z;
  new_file_or_handle : FileOrHandle;
  new_refcount : Z;
  new_ids : InodeIds;
  new_mode : Z;
  new_info : option InodeMigrationInfo;
}.

(** [Arc::new] *)
Definition arc_new (x : NewInode) (refs : Z) (s : InodeStore) : InodeData * InodeStore :=
  let l := fresh (dom (cells s)) in
  (mkInodeData l (new_id x) (new_file_or_handle x) (new_ids x) (new_mode x),
   with_cells <[l := mkCell refs (new_info x)]> s).

(** The inode goes, after the lock: the references of its information do. *)
Definition drop_new (x : NewInode) : InodeStore → InodeStore := drop_references (infos_references (new_info x)).

Definition handle_of (f : FileOrHandle) : option FileHandle :=
  match f with IsHandle h => Some (openable_inner h) | _ => None end.

Definition insert_arc (x : NewInode) (refs : Z) : stm InodeStore io_error InodeData := λ s,
  let '(d, s1) := arc_new x refs s in
  match insert_new d s1 with
  | Ok s2 => (Ok d, s2)
  | Err e => (Err e, s1)
  | Panic => (Panic, s1)
  end.

Definition get_or_insert (x : NewInode) : stm InodeStore io_error InodeData := λ s,
  match do_claim_inode (handle_of (new_file_or_handle x)) (new_ids x) s with
  | (Ok d, s1) => (Ok d, drop_new x s1)
  | (Panic, s1) => (Panic, s1)
  | (Err _, s1) =>
      if decide (is_Some (data s1 !! new_id x)) then (Err other_io_error, drop_new x s1)
      else insert_arc x 1 s1
  end.

Definition new_inode (x : NewInode) : stm InodeStore io_error unit := λ s,
  if decide (is_Some (data s !! new_id x)) then (Err other_io_error, drop_new x s)
  else (insert_arc x (new_refcount x) ≫= λ _, mret ()) s.

Definition forget_many (requests : list (Z * Z)) (s : InodeStore) : InodeStore :=
  foldl (λ s '(i, n), forget_one i n s) s requests.

(** [*d.migration_info.lock().unwrap() = Some(info)]: the old value is dropped. *)
Definition replace_info (d : InodeData) (info : InodeMigrationInfo) (s : InodeStore) : InodeStore :=
  let old := info_of s d in
  set_info d (Some info) (drop_references (infos_references old) (set_info d None s)).

(** ** Iteration *)

(** [data.range(bound..).next()] *)
Definition first_from (s : InodeStore) (bound : Z) : option (Z * InodeData) :=
  i ← head (filter (λ i, bound ≤ i) (sorted_keys s)); pair i <$> data s !! i.

(** [InodeIterator::next]; [last_id + 1] may overflow. *)
Definition iterator_next (last_inode : option Z) (s : InodeStore) : outcome io_error (option (InodeData * option Z)) :=
  let visit bound := Ok ((λ '(i, d), (d, Some i)) <$> first_from s bound) in
  match last_inode with
  | Some last_id => if 2 ^ 64 - 1 <=? last_id then Panic else visit (last_id + 1)
  | None => visit 0
  end.
