(* ===== verification/InodeRefs.v ===== *)
(** * References to inodes

    What the counters of the inode store count.  [indexed] is what every client
    may rely on, whatever the guest does; [counted s ext] says that the counter
    of every inode is the number of references to it, [ext] being those from
    outside of the store: the lookups of the guest and the strong references of
    the server. *)

From stdpp Require Import base gmap list strings fin_maps sorting.
From S2P Require Import Prelude InodeStore.
#[local] Open Scope Z_scope.

(** ** The indexes *)

Record indexed (s : InodeStore) : Prop := {
  ix_data : ∀ i d, data s !! i = Some d → inode d = i ∧ is_Some (cells s !! cell d);
  ix_cell : ∀ i j d e, data s !! i = Some d → data s !! j = Some e → cell d = cell e → i = j;
  ix_ids : ∀ x i, by_ids s !! x = Some i → ∃ d, data s !! i = Some d ∧ ids d = x;
  ix_handle : ∀ h i, by_handle s !! h = Some i →
    ∃ d o, data s !! i = Some d ∧ file_or_handle d = IsHandle o ∧ openable_inner o = h;
}.

Lemma indexed_default : indexed InodeStore_default.
Proof. split; intros *; unfold InodeStore_default; simpl; by rewrite lookup_empty. Qed.

Lemma indexed_with_cells s f :
  (∀ l, is_Some (cells s !! l) → is_Some (f (cells s) !! l)) → indexed s → indexed (with_cells f s).
Proof.
  intros Hf [Hd Hc Hi Hh]. split; simpl; [|done..]. intros i d H. destruct (Hd i d H) as [? ?]. auto.
Qed.

Lemma alter_some {A : Type} (g : A → A) (m : gmap positive A) l k : is_Some (m !! k) → is_Some (alter g l m !! k).
Proof.
  intros H. destruct (decide (l = k)) as [->|Hne]; [|by rewrite lookup_alter_ne].
  rewrite lookup_alter, decide_True by done. by apply fmap_is_Some.
Qed.

Lemma indexed_set_refcount d n s : indexed s → indexed (set_refcount d n s).
Proof. apply indexed_with_cells. intros l. apply alter_some. Qed.
Lemma indexed_set_info d o s : indexed s → indexed (set_info d o s).
Proof. apply indexed_with_cells. intros l. apply alter_some. Qed.

Lemma indexed_removed d s : indexed s → data s !! inode d = Some d → indexed (removed d s).
Proof.
  intros [Hd Hc Hi Hh] Hin. apply indexed_set_info. split; simpl.
  - intros i e H. apply lookup_delete_Some in H as [_ H]. auto.
  - intros i j e e' H H'. apply lookup_delete_Some in H as [_ H]. apply lookup_delete_Some in H' as [_ H']. eauto.
  - intros x i H. apply lookup_delete_Some in H as [Hx H]. destruct (Hi x i H) as (e & He & Hids).
    exists e. split; [|done]. apply lookup_delete_Some. split; [|done]. intros <-. congruence.
  - intros h i H.
    assert (by_handle s !! h = Some i ∧ ∀ o, file_or_handle d = IsHandle o → openable_inner o ≠ h) as [H' Hne].
    { destruct (file_or_handle d) as [fd|o|e] eqn:E; [by split | | by split].
      apply lookup_delete_Some in H as [? ?]. split; [done|]. by intros ? [= <-]. }
    destruct (Hh h i H') as (e & o & He & Hf & Ho). exists e, o. split; [|done].
    apply lookup_delete_Some. split; [|done]. intros <-. assert (e = d) as -> by congruence. by destruct (Hne o).
Qed.

(** ** What forgetting keeps *)

(** An operation that takes inodes away, and nothing else. *)
Definition shrinks (f : InodeStore → InodeStore) : Prop := ∀ s, indexed s → indexed (f s) ∧ data (f s) ⊆ data s.

Lemma shrinks_compose f g : shrinks f → shrinks g → shrinks (λ s, g (f s)).
Proof. intros Hf Hg s Hs. destruct (Hf s Hs) as [H1 H2]. destruct (Hg (f s) H1). split; [done | by etrans]. Qed.

Lemma shrinks_foldl {A : Type} (f : InodeStore → A → InodeStore) (l : list A) :
  (∀ a, shrinks (λ s, f s a)) → shrinks (λ s, foldl f s l).
Proof.
  intros Hf. induction l as [|a l IH]; intros s Hs; simpl; [done|].
  exact (shrinks_compose (λ s, f s a) _ (Hf a) IH s Hs).
Qed.

Lemma shrinks_set_refcount d n : shrinks (set_refcount d n).
Proof. intros s Hs. split; [by apply indexed_set_refcount | done]. Qed.
Lemma shrinks_set_info d o : shrinks (set_info d o).
Proof. intros s Hs. split; [by apply indexed_set_info | done]. Qed.

Lemma shrinks_remove forget i : (∀ i n, shrinks (forget i n)) → shrinks (remove_with forget i).
Proof.
  intros Hf s Hs. unfold remove_with. destruct (data s !! i) as [d|] eqn:Hd; [|done].
  destruct (ix_data s Hs i d Hd) as [<- _].
  destruct (shrinks_foldl (λ s r, forget (inode r) 1 s) (infos_references (info_of s d)) (λ r, Hf _ _) (removed d s))
    as [H1 H2]; [by apply indexed_removed|].
  split; [done|]. etrans; [exact H2 | apply delete_subseteq].
Qed.

Lemma found_cell s i d c :
  (data s !! i ≫= λ d, pair d <$> cells s !! cell d) = Some (d, c) → data s !! i = Some d ∧ cells s !! cell d = Some c.
Proof.
  intros H. apply bind_Some in H as (d' & Hd & H). apply fmap_Some in H as (c' & Hc & [= -> ->]). done.
Qed.

Lemma shrinks_forget_fuel fuel i n : shrinks (forget_fuel fuel i n).
Proof.
  revert i n. induction fuel as [|fuel IH]; intros i n s Hs; cbn [forget_fuel];
    (destruct (_ ≫= _) as [[d c]|]; [|done]); cbv zeta.
  - destruct (_ =? _); by apply shrinks_set_refcount.
  - destruct (_ =? _); [|by apply shrinks_set_refcount].
    apply (shrinks_compose _ _ (shrinks_set_refcount d _) (shrinks_remove (forget_fuel fuel) i IH)). done.
Qed.

Lemma shrinks_forget_one i n : shrinks (forget_one i n).
Proof. intros s. apply shrinks_forget_fuel. Qed.

Lemma shrinks_drop_references rs : shrinks (drop_references rs).
Proof. apply (shrinks_foldl (flip drop_reference)). intros r. apply shrinks_forget_one. Qed.

(** *** The fuel: more than the number of inodes changes nothing *)

Lemma size_removed d s : data s !! inode d = Some d → size (data s) = S (size (data (removed d s))).
Proof.
  intros H. simpl. rewrite map_size_delete, H. simpl.
  assert (size (data s) ≠ 0)%nat; [|lia]. intros E%map_size_empty_inv. by rewrite E in H.
Qed.

Lemma foldl_forget_enough fuel fuel' rs s :
  (∀ i n s, indexed s → (size (data s) ≤ fuel)%nat → (size (data s) ≤ fuel')%nat → forget_fuel fuel i n s = forget_fuel fuel' i n s) →
  indexed s → (size (data s) ≤ fuel)%nat → (size (data s) ≤ fuel')%nat →
  foldl (λ s r, forget_fuel fuel (inode r) 1 s) s rs = foldl (λ s r, forget_fuel fuel' (inode r) 1 s) s rs.
Proof.
  intros He. revert s. induction rs as [|r rs IH]; intros s Hs H1 H2; simpl; [done|]. rewrite He by done.
  destruct (shrinks_forget_fuel fuel' (inode r) 1 s Hs) as [Hs' Hsub]. apply map_subseteq_size in Hsub.
  apply IH; [done | lia | lia].
Qed.

Lemma forget_fuel_enough fuel fuel' i n s :
  indexed s → (size (data s) ≤ fuel)%nat → (size (data s) ≤ fuel')%nat → forget_fuel fuel i n s = forget_fuel fuel' i n s.
Proof.
  revert fuel' i n s. induction fuel as [|fuel IH]; intros fuel' i n s Hs H1 H2.
  { assert (data s = ∅) as E by (apply map_size_empty_inv; lia). destruct fuel'; cbn [forget_fuel]; by rewrite E. }
  cbn [forget_fuel]. destruct fuel' as [|fuel'].
  { assert (data s = ∅) as E by (apply map_size_empty_inv; lia). cbn [forget_fuel]. by rewrite E. }
  cbn [forget_fuel]. destruct (_ ≫= _) as [[d c]|] eqn:E; [|done]. cbv zeta. destruct (_ =? _); [|done].
  apply found_cell in E as [Hd _]. destruct (ix_data s Hs i d Hd) as [<- _].
  unfold remove_with. change (data (set_refcount d ?n s)) with (data s). rewrite Hd.
  set (s1 := set_refcount d _ s).
  assert (indexed s1) as Hs1 by by apply indexed_set_refcount. pose proof (size_removed d s1 Hd) as Hsz.
  change (data s1) with (data s) in Hsz.
  apply foldl_forget_enough; [intros; by apply IH | by apply indexed_removed | lia | lia].
Qed.

(** ** Counting *)

(** Whether the migration information of an inode refers to the inode [j]; it
    has at most one strong reference. *)
Definition points (s : InodeStore) (j : Z) (d : InodeData) : bool :=
  bool_decide (j ∈ (inode <$> infos_references (info_of s d))).
Definition migs (s : InodeStore) (j : Z) : Z :=
  Z.of_nat (size (filter (λ kv : Z * InodeData, points s j kv.2 = true) (data s))).

Record counted (s : InodeStore) (ext : Z → Z) : Prop := {
  ct_nonneg : ∀ i, 0 ≤ ext i;
  ct_count : ∀ i d c, data s !! i = Some d → cells s !! cell d = Some c →
    refcount c = ext i + migs s i ∧ 0 < refcount c;
  ct_live : ∀ i, ext i ≠ 0 → is_Some (data s !! i);
  ct_parent : ∀ i d r, data s !! i = Some d → r ∈ infos_references (info_of s d) → data s !! inode r = Some r;
}.

Definition upd (ext : Z → Z) (i v : Z) : Z → Z := λ j, if decide (j = i) then v else ext j.

Lemma upd_eq ext i v : upd ext i v i = v.
Proof. unfold upd. by rewrite decide_True. Qed.
Lemma upd_ne ext i v j : j ≠ i → upd ext i v j = ext j.
Proof. intros H. unfold upd. by rewrite decide_False. Qed.

Lemma counted_ext s ext ext' : (∀ i, ext i = ext' i) → counted s ext → counted s ext'.
Proof.
  intros He [H1 H2 H3 H4]. split; [| |intros i; rewrite <- He; apply H3 | done].
  - intros i. rewrite <- He. apply H1.
  - intros i d c. rewrite <- He. apply H2.
Qed.

Lemma migs_nonneg s j : 0 ≤ migs s j.
Proof. unfold migs. lia. Qed.

Lemma migs_ext s s' j :
  data s' = data s → (∀ i d, data s !! i = Some d → info_of s' d = info_of s d) → migs s' j = migs s j.
Proof.
  intros Hd Hi. unfold migs. rewrite Hd. do 2 f_equal. apply map_filter_ext. intros i d H. simpl.
  unfold points. by rewrite (Hi i d H).
Qed.

Lemma migs_pos s i d j : data s !! i = Some d → points s j d = true → 0 < migs s j.
Proof.
  intros Hd Hp. unfold migs. assert (size (filter (λ kv : Z * InodeData, points s j kv.2 = true) (data s)) ≠ 0)%nat; [|lia].
  intros E%map_size_empty_inv. assert (filter (λ kv : Z * InodeData, points s j kv.2 = true) (data s) !! i = Some d) as H.
  { by apply map_lookup_filter_Some. }
  by rewrite E in H.
Qed.

Lemma info_of_cell s s' d : cells s' !! cell d = cells s !! cell d → info_of s' d = info_of s d.
Proof. unfold info_of. by intros ->. Qed.

Lemma cells_alter_ne (f : Cell → Cell) d l s : cell d ≠ l → cells (with_cells (alter f (cell d)) s) !! l = cells s !! l.
Proof. intros H. simpl. by rewrite lookup_alter_ne. Qed.

Lemma info_set_refcount d n s e : info_of (set_refcount d n s) e = info_of s e.
Proof.
  unfold info_of, set_refcount. simpl. destruct (decide (cell d = cell e)) as [E|Hne].
  - rewrite E, lookup_alter, decide_True by done. by destruct (cells s !! cell e).
  - by rewrite lookup_alter_ne.
Qed.

Lemma migs_set_refcount d n s j : migs (set_refcount d n s) j = migs s j.
Proof. apply migs_ext; [done|]. intros. apply info_set_refcount. Qed.

(** Another number of outside references, with the counter adjusted. *)
Lemma counted_set_refcount s ext i d v :
  indexed s → counted s ext → data s !! i = Some d → 0 ≤ v → 0 < v + migs s i →
  counted (set_refcount d (v + migs s i) s) (upd ext i v).
Proof.
  intros Hs [H1 H2 H3 H4] Hd Hv Hpos. split.
  - intros j. unfold upd. case_decide; auto.
  - intros j e c He Hc. rewrite migs_set_refcount. destruct (decide (j = i)) as [->|Hne].
    + assert (e = d) as -> by (simpl in He; congruence). rewrite upd_eq.
      simpl in Hc. rewrite lookup_alter, decide_True in Hc by done. apply fmap_Some in Hc as (c0 & _ & ->). done.
    + rewrite upd_ne by done. apply (H2 j e); [done|]. rewrite <- Hc. symmetry. apply cells_alter_ne.
      intros E. apply Hne. symmetry. by eapply ix_cell.
  - intros j Hj. simpl. destruct (decide (j = i)) as [->|Hne]; [done|]. rewrite upd_ne in Hj by done. auto.
  - intros j e r He. rewrite info_set_refcount. eauto.
Qed.

Lemma info_removed d n s i e :
  indexed s → data s !! inode d = Some d → data s !! i = Some e → i ≠ inode d →
  cells (removed d (set_refcount d n s)) !! cell e = cells s !! cell e.
Proof.
  intros Hs Hd He Hne. simpl. assert (cell d ≠ cell e) by (intros E; apply Hne; symmetry; by eapply ix_cell).
  by rewrite !lookup_alter_ne.
Qed.

Lemma migs_removed d n s j :
  indexed s → data s !! inode d = Some d →
  migs (removed d (set_refcount d n s)) j = migs s j - (if points s j d then 1 else 0).
Proof.
  intros Hs Hd. unfold migs. set (s' := removed d (set_refcount d n s)).
  replace (filter (λ kv : Z * InodeData, points s' j kv.2 = true) (data s'))
    with (delete (inode d) (filter (λ kv : Z * InodeData, points s j kv.2 = true) (data s))).
  - rewrite map_size_delete. destruct (points s j d) eqn:Hp.
    + assert (filter (λ kv : Z * InodeData, points s j kv.2 = true) (data s) !! inode d = Some d) as E
        by by apply map_lookup_filter_Some.
      rewrite E. pose proof (migs_pos s (inode d) d j Hd Hp) as Hpos. unfold migs in Hpos. simpl. lia.
    + assert (filter (λ kv : Z * InodeData, points s j kv.2 = true) (data s) !! inode d = None) as E.
      { apply map_lookup_filter_None. right. intros e He. simpl. assert (e = d) as -> by congruence. by rewrite Hp. }
      rewrite E. simpl. lia.
  - simpl. rewrite <- map_filter_delete. apply map_filter_ext. intros i e He. simpl.
    apply lookup_delete_Some in He as [Hne He]. unfold points, info_of.
    unfold s'. by rewrite (info_removed d n s i e) by done.
Qed.

Lemma references_cases o : infos_references o = [] ∨ ∃ r, infos_references o = [r].
Proof. destruct o as [[[] ?]|]; simpl; eauto. Qed.

(** An inode that nothing refers to is taken out; what it referred to is then
    referred to from outside. *)
Lemma counted_removed s ext d :
  indexed s → counted s ext → data s !! inode d = Some d → migs s (inode d) = 0 →
  counted (removed d (set_refcount d 0 s))
    (λ j, upd ext (inode d) 0 j + (if points s j d then 1 else 0)).
Proof.
  intros Hs [H1 H2 H3 H4] Hd Hm.
  assert (points s (inode d) d = false) as Hself.
  { destruct (points s (inode d) d) eqn:E; [|done]. pose proof (migs_pos s _ d _ Hd E). lia. }
  split.
  - intros j. unfold upd. specialize (H1 j). case_decide; destruct (points s j d); lia.
  - intros j e c He Hc. rewrite migs_removed by done. simpl in He. apply lookup_delete_Some in He as [Hne He].
    rewrite (info_removed d 0 s j e) in Hc by done. rewrite upd_ne by done. destruct (H2 j e c He Hc) as [-> Hp].
    destruct (points s j d); lia.
  - intros j Hj. simpl. destruct (decide (j = inode d)) as [->|Hne].
    { rewrite upd_eq, Hself in Hj. done. }
    rewrite lookup_delete_ne by done. rewrite upd_ne in Hj by done. destruct (points s j d) eqn:Hp.
    + apply bool_decide_eq_true, list_elem_of_fmap in Hp as (r & -> & Hr). by rewrite (H4 (inode d) d r).
    + apply H3. lia.
  - intros j e r He Hr. simpl in He. apply lookup_delete_Some in He as [Hne He].
    rewrite (info_of_cell s) in Hr by by apply (info_removed d 0 s j).
    assert (data s !! inode r = Some r) as Hr' by by eapply H4.
    simpl. rewrite lookup_delete_ne; [done|]. intros E.
    assert (points s (inode d) e = true) as Hp.
    { apply bool_decide_eq_true, list_elem_of_fmap. by exists r. }
    pose proof (migs_pos s j e _ He Hp). lia.
Qed.

(** Forgetting references that there are. *)
Lemma counted_absent s ext i n :
  indexed s → counted s ext → (data s !! i ≫= λ d, pair d <$> cells s !! cell d) = None → 0 ≤ n ≤ ext i →
  counted s (upd ext i (ext i - n)).
Proof.
  intros Hs Hc E Hn. apply (counted_ext s ext); [|done]. intros j. unfold upd. case_decide as Hj; [|done]. subst j.
  destruct (decide (ext i = 0)) as [H0|H0]; [lia|]. destruct (ct_live s ext Hc i H0) as [d Hd].
  destruct (ix_data s Hs i d Hd) as [_ [c Hcell]]. rewrite Hd in E. simpl in E. by rewrite Hcell in E.
Qed.

Lemma counted_forget_fuel fuel s ext i n :
  (size (data s) ≤ fuel)%nat → indexed s → counted s ext → 0 ≤ n ≤ ext i →
  counted (forget_fuel fuel i n s) (upd ext i (ext i - n)).
Proof.
  revert s ext i n. induction fuel as [|fuel IH]; intros s ext i n Hf Hs Hc Hn; cbn [forget_fuel];
    (destruct (_ ≫= _) as [[d c]|] eqn:E; [|by apply counted_absent]);
    apply found_cell in E as [Hd Hcell].
  { assert (data s = ∅) as E by (apply map_size_empty_inv; lia). by rewrite E in Hd. }
  destruct (ct_count s ext Hc i d c Hd Hcell) as [Hrc Hpos]. pose proof (migs_nonneg s i) as Hm. cbv zeta.
  destruct (Z.eqb_spec (Z.max 0 (refcount c - n)) 0) as [E|E].
  - destruct (ix_data s Hs i d Hd) as [<- _].
    assert (migs s (inode d) = 0 ∧ ext (inode d) - n = 0) as [Hm0 Hn0] by lia. rewrite E, Hn0.
    pose proof (counted_removed s ext d Hs Hc Hd Hm0) as Hrem.
    unfold remove_with. change (data (set_refcount d 0 s)) with (data s). rewrite Hd, info_set_refcount.
    assert (indexed (removed d (set_refcount d 0 s))) as Hs' by (apply indexed_removed; [by apply indexed_set_refcount | done]).
    pose proof (size_removed d (set_refcount d 0 s) Hd) as Hsz. change (data (set_refcount d 0 s)) with (data s) in Hsz.
    destruct (references_cases (info_of s d)) as [Hr|[r Hr]]; unfold points in Hrem; rewrite Hr in *; simpl foldl.
    + eapply counted_ext; [|exact Hrem]. intros j. simpl. lia.
    + apply (IH _ _ (inode r) 1) in Hrem; [|lia|done|].
      2: { simpl. rewrite bool_decide_true by by apply list_elem_of_singleton. pose proof (ct_nonneg s ext Hc (inode r)).
           unfold upd. case_decide; lia. }
      eapply counted_ext; [|exact Hrem]. intros j. unfold upd at 1. case_decide as Hj.
      * subst j. rewrite bool_decide_true by by apply list_elem_of_singleton. lia.
      * rewrite bool_decide_false by (simpl; by rewrite list_elem_of_singleton). lia.
  - replace (Z.max 0 (refcount c - n)) with (ext i - n + migs s i) by lia.
    apply counted_set_refcount; [done | done | done | lia | lia].
Qed.

Lemma counted_forget s ext i n :
  indexed s → counted s ext → 0 ≤ n ≤ ext i → counted (forget_one i n s) (upd ext i (ext i - n)).
Proof. by apply counted_forget_fuel. Qed.

(** *** The other operations *)

(** The references of a list to an inode. *)
Definition refs_to (rs : list InodeData) (j : Z) : Z := Z.of_nat (length (filter (λ r, inode r = j) rs)).

Lemma refs_to_nil j : refs_to [] j = 0.
Proof. done. Qed.
Lemma refs_to_cons r rs j : refs_to (r :: rs) j = (if decide (inode r = j) then 1 else 0) + refs_to rs j.
Proof. unfold refs_to. rewrite filter_cons. case_decide; simpl; lia. Qed.
Lemma refs_to_app rs rs' j : refs_to (rs ++ rs') j = refs_to rs j + refs_to rs' j.
Proof. unfold refs_to. rewrite filter_app, length_app. lia. Qed.
Lemma refs_to_nonneg rs j : 0 ≤ refs_to rs j.
Proof. unfold refs_to. lia. Qed.
Lemma refs_to_perm rs rs' j : rs ≡ₚ rs' → refs_to rs j = refs_to rs' j.
Proof. intros H. unfold refs_to. by rewrite H. Qed.
Lemma refs_to_elem r rs : r ∈ rs → 0 < refs_to rs (inode r).
Proof.
  induction 1 as [r rs|r r' rs _ IH]; rewrite refs_to_cons; pose proof (refs_to_nonneg rs (inode r)); case_decide; lia.
Qed.

Lemma points_refs s j d : (if points s j d then 1 else 0) = refs_to (infos_references (info_of s d)) j.
Proof.
  unfold points. destruct (references_cases (info_of s d)) as [->|[r ->]].
  - rewrite bool_decide_false; [done|]. apply not_elem_of_nil.
  - rewrite refs_to_cons, refs_to_nil. case_decide.
    + rewrite bool_decide_true; [lia|]. by apply list_elem_of_singleton.
    + rewrite bool_decide_false; [lia|]. simpl. rewrite list_elem_of_singleton. congruence.
Qed.

Lemma counted_drop s ext rs :
  indexed s → counted s ext → (∀ j, refs_to rs j ≤ ext j) →
  counted (drop_references rs s) (λ j, ext j - refs_to rs j).
Proof.
  unfold drop_references. revert s ext. induction rs as [|r rs IH]; intros s ext Hs Hc Hle; simpl.
  { eapply counted_ext; [|exact Hc]. intros j. rewrite refs_to_nil. lia. }
  assert (1 ≤ ext (inode r)) as H1.
  { specialize (Hle (inode r)). rewrite refs_to_cons, decide_True in Hle by done. pose proof (refs_to_nonneg rs (inode r)). lia. }
  pose proof (counted_forget s ext (inode r) 1 Hs Hc ltac:(lia)) as Hc'.
  destruct (shrinks_forget_one (inode r) 1 s Hs) as [Hs' _].
  apply (IH (forget_one (inode r) 1 s)) in Hc'; [|done|].
  - eapply counted_ext; [|exact Hc']. intros j. simpl. rewrite refs_to_cons. unfold upd.
    destruct (decide (j = inode r)) as [->|Hne]; [rewrite decide_True by done | rewrite decide_False by done]; lia.
  - intros j. specialize (Hle j). rewrite refs_to_cons in Hle. unfold upd.
    destruct (decide (j = inode r)) as [->|Hne]; [rewrite decide_True in Hle by done | rewrite decide_False in Hle by done]; lia.
Qed.

Lemma info_set_info_eq d o s : is_Some (cells s !! cell d) → info_of (set_info d o s) d = o.
Proof. intros [c Hc]. unfold info_of, set_info. simpl. by rewrite lookup_alter, decide_True, Hc by done. Qed.
Lemma info_set_info_ne d o s e : cell d ≠ cell e → info_of (set_info d o s) e = info_of s e.
Proof. intros H. unfold info_of, set_info. simpl. by rewrite lookup_alter_ne. Qed.

Lemma migs_insert s d i j : data s !! i = Some d →
  migs s j = refs_to (infos_references (info_of s d)) j +
    Z.of_nat (size (filter (λ kv : Z * InodeData, points s j kv.2 = true) (delete i (data s)))).
Proof.
  intros Hd. unfold migs. rewrite <- (insert_delete_id (data s) i d Hd) at 1. rewrite <- points_refs.
  rewrite map_filter_insert. simpl. destruct (points s j d) eqn:Hp.
  - rewrite decide_True by done. rewrite map_size_insert_None; [lia|]. apply map_lookup_filter_None. left. apply lookup_delete_eq.
  - rewrite decide_False by done. rewrite delete_delete_eq. lia.
Qed.

(** The migration information of an inode changes: the references it had come
    out of the store, those it gets go in. *)
Lemma counted_set_info s ext i d o :
  let ext' j := ext j + refs_to (infos_references (info_of s d)) j - refs_to (infos_references o) j in
  indexed s → counted s ext → data s !! i = Some d →
  (∀ r, r ∈ infos_references o → data s !! inode r = Some r) → (∀ j, 0 ≤ ext' j) →
  counted (set_info d o s) ext'.
Proof.
  intros ext' Hs [H1 H2 H3 H4] Hd Ho Hpos.
  assert (∀ j, migs (set_info d o s) j = migs s j - refs_to (infos_references (info_of s d)) j + refs_to (infos_references o) j) as Hm.
  { intros j. destruct (ix_data s Hs i d Hd) as [_ Hcell].
    rewrite (migs_insert (set_info d o s) d i) by done. rewrite (migs_insert s d i) by done.
    rewrite info_set_info_eq by done.
    assert (filter (λ kv : Z * InodeData, points (set_info d o s) j kv.2 = true) (delete i (data s)) =
            filter (λ kv : Z * InodeData, points s j kv.2 = true) (delete i (data s))) as E.
    { apply map_filter_ext. intros k e He. simpl. apply lookup_delete_Some in He as [Hne He].
      unfold points. rewrite info_set_info_ne; [done|]. intros E. apply Hne. by eapply ix_cell. }
    simpl data. rewrite E. lia. }
  split.
  - done.
  - intros j e c He Hc. rewrite Hm. unfold ext'. simpl in Hc. destruct (decide (cell d = cell e)) as [E|E].
    + rewrite E, lookup_alter, decide_True in Hc by done. apply fmap_Some in Hc as (c0 & Hc0 & ->). simpl.
      destruct (H2 j e c0 He Hc0). lia.
    + rewrite lookup_alter_ne in Hc by done. destruct (H2 j e c He Hc). lia.
  - intros j Hj. simpl. destruct (decide (ext j = 0)) as [E|]; [|auto].
    assert (0 < refs_to (infos_references (info_of s d)) j) as Hp
      by (unfold ext' in Hj; pose proof (refs_to_nonneg (infos_references o) j); specialize (Hpos j);
          unfold ext' in Hpos; pose proof (refs_to_nonneg (infos_references (info_of s d)) j); lia).
    destruct (references_cases (info_of s d)) as [Hr|[r Hr]]; rewrite Hr in Hp; [by rewrite refs_to_nil in Hp|].
    rewrite refs_to_cons, refs_to_nil in Hp. destruct (decide (inode r = j)) as [<-|]; [|lia].
    rewrite (H4 i d r); [done | done|]. rewrite Hr. by apply list_elem_of_singleton.
  - intros j e r He Hr. simpl in *. destruct (decide (cell d = cell e)) as [E|E].
    + assert (e = d) as ->.
      { assert (i = j) as -> by by eapply ix_cell. congruence. }
      rewrite info_set_info_eq in Hr by (by eapply ix_data). auto.
    + rewrite info_set_info_ne in Hr by done. eauto.
Qed.

(** *** Insertion *)

Section insertion.
Context (x : NewInode) (refs : Z) (s : InodeStore).
Let l := fresh (dom (cells s)).
Let d := mkInodeData l (new_id x) (new_file_or_handle x) (new_ids x) (new_mode x).

Definition inserted (info : option InodeMigrationInfo) : InodeStore :=
  mkInodeStore (<[l := mkCell refs info]> (cells s)) (<[new_id x := d]> (data s)) (<[new_ids x := new_id x]> (by_ids s))
    (match new_file_or_handle x with
     | IsHandle h => <[openable_inner h := new_id x]> (by_handle s)
     | _ => by_handle s
     end).

Lemma insert_arc_ok : data s !! new_id x = None → insert_arc x refs s = (Ok d, inserted (new_info x)).
Proof. intros H. unfold insert_arc, arc_new, insert_new. simpl. by rewrite H. Qed.

Lemma inserted_info info : inserted info = set_info d info (inserted None).
Proof. unfold inserted, set_info, with_cells. simpl. by rewrite alter_insert_eq. Qed.

Lemma fresh_cell : cells s !! l = None.
Proof. apply not_elem_of_dom, is_fresh. Qed.

Lemma live_cell_ne i e : indexed s → data s !! i = Some e → cell e ≠ l.
Proof. intros Hs He E. destruct (ix_data s Hs i e He) as [_ [c Hc]]. rewrite E, fresh_cell in Hc. done. Qed.

Hypothesis Hs : indexed s.
Hypothesis Hnew : data s !! new_id x = None.

Lemma indexed_inserted info : indexed (inserted info).
Proof.
  split; simpl.
  - intros i e [[<- <-]|[Hne He]]%lookup_insert_Some.
    + split; [done|]. simpl. rewrite lookup_insert_eq. eauto.
    + destruct (ix_data s Hs i e He) as [? ?]. split; [done|].
      rewrite lookup_insert_ne; [done|]. intros E. by apply (live_cell_ne i e).
  - intros i j e e' [[<- <-]|[Hi He]]%lookup_insert_Some [[<- <-]|[Hj He']]%lookup_insert_Some; simpl; intros E.
    + done.
    + by destruct (live_cell_ne j e' Hs He').
    + by destruct (live_cell_ne i e Hs He).
    + by eapply ix_cell.
  - intros y i [[<- <-]|[Hne Hy]]%lookup_insert_Some.
    + exists d. split; [apply lookup_insert_eq | done].
    + destruct (ix_ids s Hs y i Hy) as (e & He & Hids). exists e. split; [|done].
      rewrite lookup_insert_ne; [done|]. intros <-. congruence.
  - intros h i Hh.
    assert (by_handle s !! h = Some i ∨ ∃ o, new_file_or_handle x = IsHandle o ∧ openable_inner o = h ∧ i = new_id x) as [Hold|(o & E & <- & ->)].
    { destruct (new_file_or_handle x) as [fd|o|e]; [by left | | by left].
      apply lookup_insert_Some in Hh as [[<- <-]|[_ ?]]; [right; by exists o | by left]. }
    + destruct (ix_handle s Hs h i Hold) as (e & o & He & ?). exists e, o. split; [|done].
      rewrite lookup_insert_ne; [done|]. intros <-. congruence.
    + exists d, o. split; [apply lookup_insert_eq | done].
Qed.

Lemma info_inserted i e : data s !! i = Some e → cells (inserted None) !! cell e = cells s !! cell e.
Proof. intros He. simpl. rewrite lookup_insert_ne; [done|]. intros E. by apply (live_cell_ne i e). Qed.

Lemma migs_inserted j : migs (inserted None) j = migs s j.
Proof.
  assert (data (inserted None) !! new_id x = Some d) as Hd by apply lookup_insert_eq.
  rewrite (migs_insert _ d (new_id x)) by done.
  assert (info_of (inserted None) d = None) as -> by (unfold info_of; simpl; by rewrite lookup_insert_eq).
  change (refs_to _ j) with 0. rewrite Z.add_0_l. simpl data.
  rewrite delete_insert_id by done. unfold migs. do 2 f_equal. apply map_filter_ext. intros i e He. simpl.
  unfold points. by rewrite (info_of_cell s) by by apply (info_inserted i).
Qed.

Context (ext : Z → Z) (Hc : counted s ext).

Lemma migs_absent i : data s !! i = None → migs s i = 0.
Proof.
  intros Hi. unfold migs. apply (f_equal Z.of_nat (y := O)). apply map_size_empty_iff, map_empty. intros j.
  apply map_lookup_filter_None. right. intros e He. simpl. unfold points. intros Hp%bool_decide_eq_true. apply list_elem_of_fmap in Hp as (r & -> & Hr).
  pose proof (ct_parent s ext Hc j e r He Hr). congruence.
Qed.

Lemma counted_inserted_plain : 0 < refs → counted (inserted None) (upd ext (new_id x) refs).
Proof.
  intros Hrefs. split.
  - intros i. unfold upd. case_decide; [lia | apply (ct_nonneg s ext Hc)].
  - intros i e c He Hcell. rewrite migs_inserted. simpl in He. apply lookup_insert_Some in He as [[<- <-]|[Hne He]].
    + simpl in Hcell. rewrite lookup_insert_eq in Hcell. injection Hcell as <-. rewrite upd_eq, migs_absent by done. simpl. lia.
    + rewrite (info_inserted i e He) in Hcell. rewrite upd_ne by done. by apply (ct_count s ext Hc i e).
  - intros i Hi. simpl. destruct (decide (i = new_id x)) as [->|Hne]; [by rewrite lookup_insert_eq|].
    rewrite lookup_insert_ne by done. rewrite upd_ne in Hi by done. by apply (ct_live s ext Hc).
  - intros i e r He Hr. simpl in He. apply lookup_insert_Some in He as [[<- <-]|[Hne He]].
    + unfold info_of in Hr. simpl in Hr. rewrite lookup_insert_eq in Hr. simpl in Hr. by apply not_elem_of_nil in Hr.
    + rewrite (info_of_cell s) in Hr by by apply (info_inserted i). pose proof (ct_parent s ext Hc i e r He Hr) as Hp.
      simpl. rewrite lookup_insert_ne; [done|]. intros E. congruence.
Qed.

Lemma counted_inserted :
  0 < refs →
  (∀ r, r ∈ infos_references (new_info x) → data s !! inode r = Some r) →
  (∀ j, refs_to (infos_references (new_info x)) j ≤ ext j) →
  counted (inserted (new_info x)) (λ j, upd ext (new_id x) refs j - refs_to (infos_references (new_info x)) j).
Proof.
  intros Hrefs Hlive Hle. rewrite inserted_info. pose proof (counted_inserted_plain Hrefs) as Hp.
  assert (info_of (inserted None) d = None) as Hnone.
  { unfold info_of. simpl. by rewrite lookup_insert_eq. }
  eapply counted_ext; [|apply (counted_set_info (inserted None) (upd ext (new_id x) refs) (new_id x)); [by apply indexed_inserted | exact Hp | apply lookup_insert_eq | |]].
  - intros j. rewrite Hnone. simpl. rewrite refs_to_nil. lia.
  - intros r Hr. simpl. rewrite lookup_insert_ne; [auto|]. intros E. rewrite E, Hlive in Hnew by done. done.
  - intros j. rewrite Hnone. simpl. rewrite refs_to_nil. unfold upd. case_decide as Hj; [|specialize (Hle j); lia]. subst j.
    destruct (references_cases (new_info x)) as [->|[r Hr]]; [rewrite refs_to_nil; lia|].
    rewrite Hr in *. rewrite refs_to_cons, refs_to_nil. case_decide as E; [|lia].
    specialize (Hlive r ltac:(by apply list_elem_of_singleton)). congruence.
Qed.

End insertion.
