(* ===== verification/InodeLife.v ===== *)
(** * Runs of the inode store

    The operations of the inode store as the steps of a server: the strong
    references it holds, the [Arc]s its threads may still have, and the lookups
    the guest has not forgotten.  The counter of every inode is the number of
    references to it in every state that is reached. *)

From stdpp Require Import base gmap list strings fin_maps sorting.
From S2P Require Import Prelude InodeStore InodeRefs.
#[local] Open Scope Z_scope.

(** ** Arcs that outlive the store's

    An [Arc] that a thread took from the store: the inode is still there, or its
    counter has become zero. *)

Definition live (s : InodeStore) (d : InodeData) : Prop := data s !! inode d = Some d.
Definition arc_ok (s : InodeStore) (d : InodeData) : Prop :=
  live s d ∨ ∃ c, cells s !! cell d = Some c ∧ refcount c = 0 ∧ ∀ i e, data s !! i = Some e → cell e ≠ cell d.

Lemma arc_set_refcount e n s d : live s e → arc_ok s d → arc_ok (set_refcount e n s) d.
Proof.
  intros He [Hd|(c & Hc & H0 & Hne)]; [by left|]. right. exists c. split; [|done].
  simpl. rewrite lookup_alter_ne; [done|]. by eapply Hne.
Qed.

Lemma arc_set_info e o s d : arc_ok s d → arc_ok (set_info e o s) d.
Proof.
  intros [Hd|(c & Hc & H0 & Hne)]; [by left|]. right. simpl.
  destruct (decide (cell e = cell d)) as [E|E].
  - rewrite E, lookup_alter, decide_True, Hc by done. simpl. by eexists.
  - exists c. by rewrite lookup_alter_ne.
Qed.

Lemma arc_removed e c s d :
  indexed s → live s e → cells s !! cell e = Some c → refcount c = 0 → arc_ok s d → arc_ok (removed e s) d.
Proof.
  intros Hs He Hc H0 Hd. apply arc_set_info. destruct Hd as [Hd|(c' & Hc' & H0' & Hne)].
  - destruct (decide (inode d = inode e)) as [E|E].
    + right. unfold live in *. rewrite E, He in Hd. injection Hd as <-. exists c. split_and!; [done | done|].
      simpl. intros i x Hx Ecell. apply lookup_delete_Some in Hx as [Hne Hx]. apply Hne. by eapply ix_cell.
    + left. unfold live in *. simpl. by rewrite lookup_delete_ne.
  - right. exists c'. split_and!; [done | done|]. simpl. intros i x Hx. apply lookup_delete_Some in Hx as [_ Hx]. eauto.
Qed.

Definition keeps_arcs (f : InodeStore → InodeStore) : Prop := ∀ s d, indexed s → arc_ok s d → arc_ok (f s) d.

Lemma keeps_arcs_foldl {A : Type} (f : InodeStore → A → InodeStore) (l : list A) :
  (∀ a, shrinks (λ s, f s a)) → (∀ a, keeps_arcs (λ s, f s a)) → keeps_arcs (λ s, foldl f s l).
Proof.
  intros Hsh Hf. induction l as [|a l IH]; intros s d Hs Hd; simpl; [done|].
  apply IH; [by apply (Hsh a) | by apply (Hf a)].
Qed.

Lemma keeps_arcs_forget_fuel fuel i n : keeps_arcs (forget_fuel fuel i n).
Proof.
  revert i n. induction fuel as [|fuel IH]; intros i n s d Hs Hd; cbn [forget_fuel];
    (destruct (_ ≫= _) as [[e c]|] eqn:E; [|done]); cbv zeta; apply found_cell in E as [He Hc];
    destruct (ix_data s Hs i e He) as [<- _].
  { destruct (_ =? _); by apply arc_set_refcount. }
  destruct (Z.eqb_spec (Z.max 0 (refcount c - n)) 0) as [E|E]; [|by apply arc_set_refcount]. rewrite E.
  unfold remove_with. change (data (set_refcount e 0 s)) with (data s). rewrite He.
  assert (indexed (set_refcount e 0 s)) as Hs1 by by apply indexed_set_refcount.
  apply (keeps_arcs_foldl (λ s r, forget_fuel fuel (inode r) 1 s)).
  - intros r. apply shrinks_forget_fuel.
  - intros r. apply IH.
  - by apply indexed_removed.
  - apply (arc_removed e (mkCell 0 (migration_info c))); [done | done | | done | by apply arc_set_refcount].
    simpl. by rewrite lookup_alter, decide_True, Hc by done.
Qed.

Lemma keeps_arcs_drop rs : keeps_arcs (drop_references rs).
Proof.
  apply (keeps_arcs_foldl (flip drop_reference)); intros r; [apply shrinks_forget_one|]. intros s. apply keeps_arcs_forget_fuel.
Qed.

Lemma arc_inserted x refs info s d :
  indexed s → data s !! new_id x = None → arc_ok s d → arc_ok (inserted x refs s info) d.
Proof.
  intros Hs Hnew [Hd|(c & Hc & H0 & Hne)].
  - left. unfold live in *. simpl. rewrite lookup_insert_ne; [done|]. intros E. congruence.
  - assert (cell d ≠ fresh (dom (cells s))) as Hfresh.
    { intros E. rewrite E in Hc. by rewrite fresh_cell in Hc. }
    right. exists c. simpl. rewrite lookup_insert_ne by done. split_and!; [done | done|].
    intros i e [[<- <-]|[_ He]]%lookup_insert_Some; [done | eauto].
Qed.

(** ** Steps *)

Record world := mkWorld {
  store : InodeStore;
  held : list InodeData;
  lookups : Z → Z;
  arcs : list InodeData;
}.
Definition initial : world := mkWorld InodeStore_default [] (λ _, 0) [].

(** The references from outside. *)
Definition outside (w : world) (i : Z) : Z := lookups w i + refs_to (held w) i.

(** The references a result adds. *)
Definition gained {E : Type} (r : outcome E InodeData) : list InodeData := match r with Ok d => [d] | _ => [] end.

Definition add_lookups (f : Z → Z) (i n : Z) : Z → Z := upd f i (f i + n).

Inductive step : world → world → Prop :=
  | step_claim w handle x r s' :
      do_claim_inode handle x (store w) = (r, s') → r ≠ Panic →
      step w (mkWorld s' (gained r ++ held w) (lookups w) (arcs w))
  | step_arc w i d :
      get_inode (store w) i = Some d →
      step w (mkWorld (store w) (held w) (lookups w) (d :: arcs w))
  | step_arc_dropped w l :
      l ⊆ arcs w → step w (mkWorld (store w) (held w) (lookups w) l)
  | step_strong w d r s' :
      d ∈ arcs w → new_with_data d (store w) = (r, s') → r ≠ Panic →
      step w (mkWorld s' (gained r ++ held w) (lookups w) (arcs w))
  | step_clone w d r s' :
      d ∈ held w → clone_reference d (store w) = (r, s') → r ≠ Panic →
      step w (mkWorld s' (gained r ++ held w) (lookups w) (arcs w))
  | step_drop w d rest :
      held w ≡ₚ d :: rest → step w (mkWorld (drop_reference d (store w)) rest (lookups w) (arcs w))
  | step_leak w d rest :
      held w ≡ₚ d :: rest → step w (mkWorld (store w) rest (add_lookups (lookups w) (inode d) 1) (arcs w))
  | step_adopt w d :
      live (store w) d → 0 < lookups w (inode d) →
      step w (mkWorld (store w) (d :: held w) (add_lookups (lookups w) (inode d) (-1)) (arcs w))
  | step_get_or_insert w x rest r s' :
      held w ≡ₚ infos_references (new_info x) ++ rest → get_or_insert x (store w) = (r, s') → r ≠ Panic →
      step w (mkWorld s' (gained r ++ rest) (lookups w) (arcs w))
  | step_new_inode w x rest r s' :
      held w ≡ₚ infos_references (new_info x) ++ rest → 0 < new_refcount x → new_inode x (store w) = (r, s') → r ≠ Panic →
      step w (mkWorld s' rest (if is_ok r then add_lookups (lookups w) (new_id x) (new_refcount x) else lookups w) (arcs w))
  | step_forget w i n :
      0 ≤ n ≤ lookups w i →
      step w (mkWorld (forget_one i n (store w)) (held w) (add_lookups (lookups w) i (- n)) (arcs w))
  | step_replace_info w d info rest :
      held w ≡ₚ strong_references info ++ rest → d ∈ rest →
      step w (mkWorld (replace_info d info (store w)) rest (lookups w) (arcs w))
  | step_take_info w d :
      d ∈ held w →
      step w (mkWorld (set_info d None (store w)) (infos_references (info_of (store w) d) ++ held w) (lookups w) (arcs w))
  | step_clear_info w :
      step w (mkWorld (clear_migration_info (store w)) (held w) (lookups w) (arcs w))
  | step_clear w :
      held w = [] → arcs w = [] → step w (mkWorld (clear (store w)) [] (λ _, 0) []).

Definition reachable (w : world) : Prop := rtc step initial w.

Record sound (w : world) : Prop := {
  so_indexed : indexed (store w);
  so_counted : counted (store w) (outside w);
  so_lookups : ∀ i, 0 ≤ lookups w i;
  so_held : ∀ d, d ∈ held w → live (store w) d;
  so_arcs : ∀ d, d ∈ arcs w → arc_ok (store w) d;
}.

(** ** Every step keeps the counters right *)

Lemma live_kept s s' ext d : data s' ⊆ data s → counted s' ext → ext (inode d) ≠ 0 → live s d → live s' d.
Proof.
  intros Hsub Hc He Hd. destruct (ct_live s' ext Hc (inode d) He) as [e Hd']. unfold live in *. rewrite Hd'.
  by rewrite (lookup_weaken _ _ _ _ Hd' Hsub) in Hd.
Qed.

(** A state with fewer inodes. *)
Lemma sound_shrunk w s' held' lookups' :
  sound w → indexed s' → data s' ⊆ data (store w) → (∀ d, arc_ok (store w) d → arc_ok s' d) →
  counted s' (λ i, lookups' i + refs_to held' i) → (∀ i, 0 ≤ lookups' i) →
  (∀ d, d ∈ held' → live (store w) d) → sound (mkWorld s' held' lookups' (arcs w)).
Proof.
  intros Hw Hs' Hsub Harcs Hc Hl Hheld. split; simpl; [done | done | done | | ].
  - intros d Hd. eapply live_kept; [exact Hsub | exact Hc | | by apply Hheld]. simpl.
    pose proof (refs_to_elem d held' Hd). specialize (Hl (inode d)). lia.
  - intros d Hd. apply Harcs. by apply (so_arcs w Hw).
Qed.

(** One more reference from the server. *)
Lemma sound_increment w d r s' :
  sound w → arc_ok (store w) d → new_with_data d (store w) = (r, s') → r ≠ Panic →
  sound (mkWorld s' (gained r ++ held w) (lookups w) (arcs w)) ∧ (live (store w) d → r = Ok d).
Proof.
  intros Hw Hd. unfold new_with_data, mbind, stm_bind, increment_refcount_for.
  destruct (cells (store w) !! cell d) as [c|] eqn:Hc; [|by intros [= <- <-]].
  destruct (_ <=? _); [by intros [= <- <-]|].
  destruct (Z.ltb_spec 0 (refcount c)) as [Hpos|Hzero]; intros [= <- <-] _.
  - destruct Hd as [Hd|(c' & Hc' & H0 & _)]; [|rewrite Hc in Hc'; injection Hc' as <-; lia]. split; [|done].
    pose proof (so_indexed w Hw) as Hs. pose proof (so_counted w Hw) as Hcnt.
    destruct (ct_count _ _ Hcnt (inode d) d c Hd Hc) as [Hrc _].
    apply sound_shrunk; [done | by apply indexed_set_refcount | done | | | apply (so_lookups w Hw) |].
    + intros e. by apply arc_set_refcount.
    + replace (refcount c + 1) with ((outside w (inode d) + 1) + migs (store w) (inode d)) by lia.
      pose proof (ct_nonneg _ _ Hcnt (inode d)). pose proof (migs_nonneg (store w) (inode d)).
      eapply counted_ext; [|apply (counted_set_refcount (store w) (outside w) (inode d) d); [done | done | done | lia | lia]].
      intros i. unfold upd, outside. simpl. rewrite refs_to_cons.
      destruct (decide (i = inode d)) as [->|Hne]; [rewrite decide_True by done | rewrite decide_False by done]; lia.
    + simpl. intros e [->|He]%elem_of_cons; [done | by apply (so_held w Hw)].
  - split; [by destruct w|]. intros Hlive.
    destruct (ct_count _ _ (so_counted w Hw) (inode d) d c Hlive Hc). lia.
Qed.

Lemma get_indexed_live s o : indexed s → (∀ i, o = Some i → is_Some (data s !! i)) →
  ∃ o', get_indexed s o = Ok o' ∧ ∀ d, o' = Some d → live s d.
Proof.
  intros Hs Ho. destruct o as [i|]; simpl; [|by exists None].
  destruct (Ho i eq_refl) as [d Hd]. unfold get_inode. rewrite Hd. exists (Some d). split; [done|].
  intros e [= <-]. unfold live. by destruct (ix_data s Hs i d Hd) as [-> _].
Qed.

(** The [unwrap]s of the indexes. *)
Lemma find_inode_live s handle x : indexed s → ∃ o, find_inode s handle x = Ok o ∧ ∀ d, o = Some d → live s d.
Proof.
  intros Hs. unfold find_inode.
  assert (∃ o, match handle with Some h => get_by_handle s h | None => Ok None end = Ok o ∧ ∀ d, o = Some d → live s d) as (o & -> & Ho).
  { destruct handle as [h|]; [|by exists None]. apply get_indexed_live; [done|]. intros i Hi.
    destruct (ix_handle s Hs h i Hi) as (d & _ & Hd & _). eauto. }
  simpl. destruct o as [d|]; [by exists (Some d)|]. unfold get_by_ids.
  destruct (get_indexed_live s (by_ids s !! x)) as (o & -> & Ho'); [done | |].
  { intros i Hi. destruct (ix_ids s Hs x i Hi) as (d & Hd & _). eauto. }
  simpl. destruct o as [d|]; [|by exists None]. destruct (is_file d); [|by exists None]. by exists (Some d).
Qed.

Lemma sound_claim w handle x r s' :
  sound w → do_claim_inode handle x (store w) = (r, s') → r ≠ Panic →
  sound (mkWorld s' (gained r ++ held w) (lookups w) (arcs w)).
Proof.
  intros Hw. unfold do_claim_inode. destruct (find_inode_live (store w) handle x (so_indexed w Hw)) as (o & -> & Ho).
  destruct o as [d|]; [|intros [= <- <-] _; by destruct w].
  intros H Hr. eapply (sound_increment w d); [done | left; by apply Ho | done | done].
Qed.

(** References that are dropped, from outside. *)
Lemma sound_drop w rs rest lookups' :
  sound w → held w ≡ₚ rs ++ rest → lookups' = lookups w →
  sound (mkWorld (drop_references rs (store w)) rest lookups' (arcs w)).
Proof.
  intros Hw Hp ->. destruct (shrinks_drop_references rs (store w) (so_indexed w Hw)) as [Hs Hsub].
  apply sound_shrunk; [done | done | done | | | apply (so_lookups w Hw) |].
  - intros d. apply keeps_arcs_drop, Hw.
  - eapply counted_ext; [|apply (counted_drop (store w) (outside w)); [apply Hw | apply Hw |]].
    + intros j. unfold outside. rewrite (refs_to_perm _ _ j Hp), refs_to_app. lia.
    + intros j. unfold outside. rewrite (refs_to_perm _ _ j Hp), refs_to_app.
      pose proof (refs_to_nonneg rest j). pose proof (so_lookups w Hw j). lia.
  - intros d Hd. apply (so_held w Hw). rewrite Hp. apply elem_of_app. by right.
Qed.

Lemma sound_forget w i n :
  sound w → 0 ≤ n ≤ lookups w i →
  sound (mkWorld (forget_one i n (store w)) (held w) (add_lookups (lookups w) i (- n)) (arcs w)).
Proof.
  intros Hw Hn. destruct (shrinks_forget_one i n (store w) (so_indexed w Hw)) as [Hs Hsub].
  apply sound_shrunk; [done | done | done | | | | apply (so_held w Hw)].
  - intros d. apply keeps_arcs_forget_fuel, Hw.
  - eapply counted_ext; [|apply (counted_forget (store w) (outside w) i n); [apply Hw | apply Hw |]].
    + intros j. unfold add_lookups, upd, outside. case_decide as E; [subst j|]; lia.
    + unfold outside. pose proof (refs_to_nonneg (held w) i). lia.
  - intros j. unfold add_lookups, upd. case_decide; [lia | apply (so_lookups w Hw)].
Qed.

(** References that change hands. *)
Lemma sound_moved w held' lookups' :
  sound w → (∀ i, lookups' i + refs_to held' i = outside w i) → (∀ i, 0 ≤ lookups' i) →
  (∀ d, d ∈ held' → live (store w) d) → sound (mkWorld (store w) held' lookups' (arcs w)).
Proof.
  intros Hw Ho Hl Hh. apply sound_shrunk; [done | apply Hw | done | done | | done | done].
  eapply counted_ext; [|apply (so_counted w Hw)]. intros i. by rewrite Ho.
Qed.

Lemma sound_insert w x refs rest lookups' held' :
  sound w → held w ≡ₚ infos_references (new_info x) ++ rest → data (store w) !! new_id x = None → 0 < refs →
  (∀ i, lookups' i + refs_to held' i = upd (λ i, lookups w i + refs_to rest i) (new_id x) refs i) →
  (∀ i, 0 ≤ lookups' i) →
  (∀ d s', (Ok d, s') = insert_arc x refs (store w) → ∀ e, e ∈ held' → e = d ∨ e ∈ rest) →
  sound (mkWorld (insert_arc x refs (store w)).2 held' lookups' (arcs w)).
Proof.
  intros Hw Hp Hnew Hrefs Ho Hl Hheld. pose proof (so_indexed w Hw) as Hs.
  rewrite insert_arc_ok in * by done. cbn [snd].
  assert (∀ r, r ∈ infos_references (new_info x) → live (store w) r) as Hlive.
  { intros r Hr. apply (so_held w Hw). rewrite Hp. apply elem_of_app. by left. }
  assert (outside w (new_id x) = 0) as H0.
  { destruct (decide (outside w (new_id x) = 0)) as [|Hne]; [done|].
    destruct (ct_live _ _ (so_counted w Hw) _ Hne) as [? E]. by rewrite Hnew in E. }
  split; simpl.
  - by apply indexed_inserted.
  - eapply counted_ext; [|apply (counted_inserted x refs (store w) Hs Hnew (outside w) (so_counted w Hw) Hrefs Hlive)].
    + intros i. unfold outside at 2. cbn [lookups held]. rewrite Ho. unfold upd, outside. case_decide as E.
      * subst i. destruct (references_cases (new_info x)) as [->|[r Hr]]; [rewrite refs_to_nil; lia|].
        rewrite Hr, refs_to_cons, refs_to_nil. case_decide as E; [|lia].
        assert (live (store w) r) as Hr' by (apply Hlive; rewrite Hr; by apply list_elem_of_singleton).
        unfold live in Hr'. congruence.
      * rewrite (refs_to_perm _ _ i Hp), refs_to_app. lia.
    + intros j. unfold outside. rewrite (refs_to_perm _ _ j Hp), refs_to_app.
      pose proof (refs_to_nonneg rest j). pose proof (so_lookups w Hw j). lia.
  - done.
  - intros e He. destruct (Hheld _ _ eq_refl e He) as [->|Hr].
    + unfold live. simpl. apply lookup_insert_eq.
    + unfold live. simpl. assert (live (store w) e) as Hle.
      { apply (so_held w Hw). rewrite Hp. apply elem_of_app. by right. }
      unfold live in Hle. rewrite lookup_insert_ne; [done|]. intros E. congruence.
  - intros e He. apply arc_inserted; [done | done|]. by apply (so_arcs w Hw).
Qed.

Lemma absent_unreferenced w i : sound w → data (store w) !! i = None → lookups w i = 0 ∧ refs_to (held w) i = 0.
Proof.
  intros Hw Hi. destruct (decide (outside w i = 0)) as [E|E].
  - unfold outside in E. pose proof (so_lookups w Hw i). pose proof (refs_to_nonneg (held w) i). lia.
  - destruct (ct_live _ _ (so_counted w Hw) _ E) as [? E']. by rewrite Hi in E'.
Qed.

Lemma sound_get_or_insert w x rest r s' :
  sound w → held w ≡ₚ infos_references (new_info x) ++ rest → get_or_insert x (store w) = (r, s') → r ≠ Panic →
  sound (mkWorld s' (gained r ++ rest) (lookups w) (arcs w)).
Proof.
  intros Hw Hp. unfold get_or_insert.
  destruct (do_claim_inode (handle_of (new_file_or_handle x)) (new_ids x) (store w)) as [r1 s1] eqn:Hcl.
  destruct r1 as [d|e|]; [| |by intros [= <- <-]].
  - intros [= <- <-] _. apply (sound_claim w) in Hcl; [|done|done].
    apply (sound_drop _ (infos_references (new_info x)) (d :: rest) (lookups w)) in Hcl; [done | | done].
    simpl. rewrite Hp. apply Permutation_middle.
  - apply (sound_claim w) in Hcl; [|done|done]. simpl in Hcl. case_decide as Hin.
    + intros [= <- <-] _. by apply (sound_drop _ (infos_references (new_info x)) rest (lookups w)) in Hcl.
    + apply eq_None_not_Some in Hin. destruct (absent_unreferenced _ _ Hcl Hin) as [H1 H2]. simpl in H1, H2.
      rewrite (refs_to_perm _ _ _ Hp), refs_to_app in H2.
      pose proof (refs_to_nonneg rest (new_id x)). pose proof (refs_to_nonneg (infos_references (new_info x)) (new_id x)).
      intros Hins Hr. pose proof (sound_insert _ x 1 rest (lookups w) (gained r ++ rest) Hcl Hp Hin ltac:(lia)) as Hs.
      cbn [store arcs] in Hs. rewrite Hins in Hs. apply Hs; [|apply (so_lookups w Hw)|].
      * intros i. rewrite insert_arc_ok in Hins by done. injection Hins as <- <-. simpl. rewrite refs_to_cons. unfold upd. simpl.
        destruct (decide (i = new_id x)) as [->|]; [rewrite decide_True by done | rewrite decide_False by done]; lia.
      * intros d s2 [= <- _] y. simpl. intros [->|]%elem_of_cons; auto.
Qed.

Lemma sound_new_inode w x rest r s' :
  sound w → held w ≡ₚ infos_references (new_info x) ++ rest → 0 < new_refcount x → new_inode x (store w) = (r, s') → r ≠ Panic →
  sound (mkWorld s' rest (if is_ok r then add_lookups (lookups w) (new_id x) (new_refcount x) else lookups w) (arcs w)).
Proof.
  intros Hw Hp Hpos. unfold new_inode. case_decide as Hin.
  { intros [= <- <-] _. by apply (sound_drop w (infos_references (new_info x))). }
  apply eq_None_not_Some in Hin. destruct (absent_unreferenced w _ Hw Hin) as [H1 H2].
  rewrite (refs_to_perm _ _ _ Hp), refs_to_app in H2.
  pose proof (refs_to_nonneg rest (new_id x)). pose proof (refs_to_nonneg (infos_references (new_info x)) (new_id x)).
  unfold mbind, stm_bind. destruct (insert_arc x (new_refcount x) (store w)) as [r1 s1] eqn:Hins.
  pose proof (sound_insert w x (new_refcount x) rest (add_lookups (lookups w) (new_id x) (new_refcount x)) rest Hw Hp Hin Hpos) as Hs.
  rewrite Hins in Hs. rewrite insert_arc_ok in Hins by done. injection Hins as <- <-. intros [= <- <-] _. apply Hs; [| |auto].
  - intros i. unfold add_lookups, upd. case_decide as E; [subst i|]; lia.
  - intros i. unfold add_lookups, upd. pose proof (so_lookups w Hw i). case_decide as E; [subst i|]; lia.
Qed.

(** *** Migration information *)

Lemma sound_take_info w d :
  sound w → d ∈ held w →
  sound (mkWorld (set_info d None (store w)) (infos_references (info_of (store w) d) ++ held w) (lookups w) (arcs w)).
Proof.
  intros Hw Hd. pose proof (so_held w Hw d Hd) as Hlive.
  apply sound_shrunk; [done | apply indexed_set_info, Hw | done | intros e; apply arc_set_info | | apply (so_lookups w Hw) |].
  - eapply counted_ext; [|apply (counted_set_info (store w) (outside w) (inode d) d None); [apply Hw | apply Hw | done | |]].
    + intros j. simpl. unfold outside. rewrite refs_to_app. change (refs_to (infos_references None) j) with 0. lia.
    + intros r Hr. by apply not_elem_of_nil in Hr.
    + intros j. change (refs_to (infos_references None) j) with 0. pose proof (ct_nonneg _ _ (so_counted w Hw) j).
      pose proof (refs_to_nonneg (infos_references (info_of (store w) d)) j). lia.
  - intros e [He|He]%elem_of_app; [|by apply (so_held w Hw)]. by apply (ct_parent _ _ (so_counted w Hw) (inode d) d).
Qed.

(** Information is stored where there was none. *)
Lemma sound_put_info w d info rest :
  sound w → live (store w) d → info_of (store w) d = None → held w ≡ₚ strong_references info ++ rest →
  sound (mkWorld (set_info d (Some info) (store w)) rest (lookups w) (arcs w)).
Proof.
  intros Hw Hd Hnone Hp.
  assert (∀ e, e ∈ held w → live (store w) e) as Hheld by apply (so_held w Hw).
  apply sound_shrunk; [done | apply indexed_set_info, Hw | done | intros e; apply arc_set_info | | apply (so_lookups w Hw) |].
  - eapply counted_ext; [|apply (counted_set_info (store w) (outside w) (inode d) d (Some info)); [apply Hw | apply Hw | done | |]].
    + intros j. simpl. rewrite Hnone. unfold outside. rewrite (refs_to_perm _ _ j Hp), refs_to_app.
      change (infos_references (Some info)) with (strong_references info). change (refs_to (infos_references None) j) with 0. lia.
    + intros r Hr. apply Hheld. rewrite Hp. apply elem_of_app. by left.
    + intros j. simpl. rewrite Hnone. unfold outside. rewrite (refs_to_perm _ _ j Hp), refs_to_app.
      change (infos_references (Some info)) with (strong_references info). change (refs_to (infos_references None) j) with 0.
      pose proof (so_lookups w Hw j). pose proof (refs_to_nonneg rest j). lia.
  - intros e He. apply Hheld. rewrite Hp. apply elem_of_app. by right.
Qed.

Lemma info_set_none e s d : info_of s d = None → info_of (set_info e None s) d = None.
Proof.
  unfold info_of, set_info. simpl. destruct (decide (cell e = cell d)) as [E|E]; [|by rewrite lookup_alter_ne].
  rewrite E, lookup_alter, decide_True by done. by destruct (cells s !! cell d).
Qed.

Lemma foldl_kept {A B : Type} (P : A → Prop) (f : A → B → A) l a : (∀ a b, P a → P (f a b)) → P a → P (foldl f a l).
Proof. intros Hf. revert a. induction l as [|b l IH]; intros a Ha; simpl; auto. Qed.

Lemma forget_fuel_none fuel i n s d : info_of s d = None → info_of (forget_fuel fuel i n s) d = None.
Proof.
  revert i n s. induction fuel as [|fuel IH]; intros i n s H; cbn [forget_fuel];
    (destruct (_ ≫= _) as [[e c]|]; [|done]); cbv zeta; (destruct (_ =? _); [|by rewrite info_set_refcount]).
  - by rewrite info_set_refcount.
  - unfold remove_with. destruct (data _ !! i) as [e'|]; [|by rewrite info_set_refcount].
    apply foldl_kept; [intros; by apply IH|]. apply info_set_none. change (info_of (set_refcount e (Z.max 0 (refcount c - n)) s) d = None).
    by rewrite info_set_refcount.
Qed.

Lemma drop_references_none rs s d : info_of s d = None → info_of (drop_references rs s) d = None.
Proof. apply (foldl_kept (λ s, info_of s d = None)). intros. by apply forget_fuel_none. Qed.

Lemma sound_replace_info w d info rest :
  sound w → held w ≡ₚ strong_references info ++ rest → d ∈ rest →
  sound (mkWorld (replace_info d info (store w)) rest (lookups w) (arcs w)).
Proof.
  intros Hw Hp Hd. assert (d ∈ held w) as Hd' by (rewrite Hp; apply elem_of_app; by right).
  pose proof (sound_take_info w d Hw Hd') as H1.
  apply (sound_drop _ (infos_references (info_of (store w) d)) (held w) (lookups w)) in H1; [|done|done]. cbn [store arcs] in H1.
  pose proof (so_held _ H1 d Hd') as Hlive. cbn [store] in Hlive.
  apply (sound_put_info _ d info rest) in H1; [done | done | | done]. cbn [store].
  apply drop_references_none, info_set_info_eq. eapply ix_data; [apply Hw | by apply (so_held w Hw)].
Qed.

(** *** Taking all of it *)

Definition infos (s : InodeStore) (ds : list InodeData) : list InodeData := ds ≫= λ d, infos_references (info_of s d).
Definition without_infos (s : InodeStore) (ds : list InodeData) : InodeStore := foldl (λ s d, set_info d None s) s ds.

Lemma infos_set_info d s ds :
  indexed s → live s d → (∀ e, e ∈ ds → live s e ∧ inode e ≠ inode d) → infos (set_info d None s) ds = infos s ds.
Proof.
  intros Hs Hd. unfold infos. induction ds as [|e ds IH]; intros Hds; [done|].
  rewrite !bind_cons, IH by (intros x Hx; apply Hds; by constructor). f_equal.
  destruct (Hds e) as [He Hne]; [by constructor|]. rewrite info_set_info_ne; [done|].
  intros E. apply Hne. symmetry. by eapply ix_cell.
Qed.

Lemma counted_without_infos s ext ds :
  indexed s → counted s ext → NoDup (inode <$> ds) → (∀ d, d ∈ ds → live s d) →
  counted (without_infos s ds) (λ j, ext j + refs_to (infos s ds) j).
Proof.
  revert s ext. induction ds as [|d ds IH]; intros s ext Hs Hc Hnd Hl; simpl.
  { eapply counted_ext; [|exact Hc]. intros j. unfold infos. simpl. rewrite refs_to_nil. lia. }
  rewrite fmap_cons in Hnd. apply list.NoDup_cons in Hnd as [Hnotin Hnd].
  assert (live s d) as Hd by (apply Hl; by constructor).
  assert (counted (set_info d None s) (λ j, ext j + refs_to (infos_references (info_of s d)) j)) as H1.
  { eapply counted_ext; [|apply (counted_set_info s ext (inode d) d None Hs Hc Hd)].
    - intros j. cbv beta. change (refs_to (infos_references None) j) with 0. lia.
    - intros r Hr. by apply not_elem_of_nil in Hr.
    - intros j. cbv beta. change (refs_to (infos_references None) j) with 0. pose proof (ct_nonneg s ext Hc j).
      pose proof (refs_to_nonneg (infos_references (info_of s d)) j). lia. }
  apply (IH (set_info d None s)) in H1; [| by apply indexed_set_info | done | intros e He; apply (Hl e); by constructor].
  eapply counted_ext; [|exact H1]. intros j. cbv beta. rewrite infos_set_info; [|done|done|].
  - rewrite refs_to_app. unfold infos. lia.
  - intros e He. split; [apply Hl; by constructor|]. intros E. apply Hnotin. rewrite <- E. by apply list_elem_of_fmap_2.
Qed.

Lemma sorted_inodes_live s d : indexed s → d ∈ sorted_inodes s ↔ live s d.
Proof.
  intros Hs. unfold sorted_inodes, sorted_keys. rewrite list_elem_of_omap. split.
  - intros (i & _ & Hi). unfold live. by destruct (ix_data s Hs i d Hi) as [-> _].
  - intros Hd. exists (inode d). split; [|done]. rewrite merge_sort_Permutation. apply elem_of_elements, elem_of_dom. eauto.
Qed.

Lemma sorted_keys_NoDup s : NoDup (sorted_keys s).
Proof. unfold sorted_keys. rewrite merge_sort_Permutation. apply NoDup_elements. Qed.

Lemma sorted_inodes_keys s : indexed s → inode <$> sorted_inodes s = sorted_keys s.
Proof.
  intros Hs. unfold sorted_inodes. assert (∀ i, i ∈ sorted_keys s → is_Some (data s !! i)) as Hk.
  { intros i Hi. unfold sorted_keys in Hi. rewrite merge_sort_Permutation in Hi. by apply elem_of_elements, elem_of_dom in Hi. }
  induction (sorted_keys s) as [|i ks IH]; [done|]. simpl. destruct (Hk i) as [d Hd]; [by constructor|].
  rewrite Hd. simpl. f_equal; [by destruct (ix_data s Hs i d Hd)|]. apply IH. intros j Hj. apply Hk. by constructor.
Qed.

Lemma without_infos_shrinks ds : shrinks (λ s, without_infos s ds).
Proof. apply (shrinks_foldl (λ s d, set_info d None s)). intros d. apply shrinks_set_info. Qed.

Lemma sound_clear_info w : sound w → sound (mkWorld (clear_migration_info (store w)) (held w) (lookups w) (arcs w)).
Proof.
  intros Hw. unfold clear_migration_info. cbv zeta. set (ds := filter _ (sorted_inodes (store w))).
  pose proof (so_indexed w Hw) as Hs.
  assert (∀ d, d ∈ ds → live (store w) d) as Hl.
  { intros d [_ Hd]%list_elem_of_filter. by apply sorted_inodes_live in Hd. }
  assert (NoDup (inode <$> ds)) as Hnd.
  { eapply sublist_NoDup; [apply (sorted_keys_NoDup (store w))|]. rewrite <- sorted_inodes_keys by done.
    apply fmap_sublist, sublist_filter. }
  change (sound (mkWorld (drop_references (infos (store w) ds) (without_infos (store w) ds)) (held w) (lookups w) (arcs w))).
  assert (sound (mkWorld (without_infos (store w) ds) (infos (store w) ds ++ held w) (lookups w) (arcs w))) as H1.
  { destruct (without_infos_shrinks ds (store w) Hs) as [Hs1 Hsub].
    apply sound_shrunk; [done | done | done | | | apply (so_lookups w Hw) |].
    - intros d. apply (keeps_arcs_foldl (λ s d, set_info d None s)); [intros; apply shrinks_set_info | intros e s x _; apply arc_set_info | done].
    - eapply counted_ext; [|apply (counted_without_infos (store w) (outside w) ds Hs (so_counted w Hw) Hnd Hl)].
      intros j. unfold outside. rewrite refs_to_app. lia.
    - intros d [Hd|Hd]%elem_of_app; [|by apply (so_held w Hw)].
      unfold infos in Hd. apply list_elem_of_bind in Hd as (e & Hd & He). apply (ct_parent _ _ (so_counted w Hw) (inode e) e); [by apply Hl | done]. }
  by apply (sound_drop _ (infos (store w) ds) (held w) (lookups w)) in H1.
Qed.

Lemma sound_clear w : held w = [] → arcs w = [] → sound (mkWorld (clear (store w)) [] (λ _, 0) []).
Proof.
  intros _ _. split; simpl.
  - split; simpl; intros *; by rewrite lookup_empty.
  - split; simpl; unfold outside; simpl; intros *; rewrite ?lookup_empty, ?refs_to_nil; done.
  - done.
  - intros d Hd. by apply not_elem_of_nil in Hd.
  - intros d Hd. by apply not_elem_of_nil in Hd.
Qed.

Lemma sound_initial : sound initial.
Proof. exact (sound_clear initial eq_refl eq_refl). Qed.

Lemma step_sound w w' : step w w' → sound w → sound w'.
Proof.
  intros Hst Hw. destruct Hst.
  - by eapply sound_claim.
  - split; try apply Hw. simpl. intros e [->|He]%elem_of_cons; [left|by apply (so_arcs w Hw)].
    unfold live. by destruct (ix_data _ (so_indexed w Hw) i d H) as [-> _].
  - split; try apply Hw. simpl. intros e He. apply (so_arcs w Hw). by apply H.
  - eapply sound_increment; [done | by apply (so_arcs w Hw) | done | done].
  - eapply (sound_increment w d); [done | left; by apply (so_held w Hw) | | done].
    unfold clone_reference in H0. unfold new_with_data, mbind, stm_bind.
    destruct (increment_refcount_for d (store w)) as [[[]|e|] s1]; injection H0 as <- <-; done.
  - by apply (sound_drop w [d] rest (lookups w)).
  - apply sound_moved; [done | | |].
    + intros i. unfold add_lookups, upd, outside. rewrite (refs_to_perm _ _ i H), refs_to_cons.
      destruct (decide (i = inode d)) as [->|]; [rewrite decide_True by done | rewrite decide_False by done]; lia.
    + intros i. unfold add_lookups, upd. pose proof (so_lookups w Hw i). case_decide as E; [subst i|]; lia.
    + intros e He. apply (so_held w Hw). rewrite H. by constructor.
  - apply sound_moved; [done | | |].
    + intros i. unfold add_lookups, upd, outside. rewrite refs_to_cons.
      destruct (decide (i = inode d)) as [->|]; [rewrite decide_True by done | rewrite decide_False by done]; lia.
    + intros i. unfold add_lookups, upd. pose proof (so_lookups w Hw i). case_decide as E; [subst i|]; lia.
    + intros e [->|He]%elem_of_cons; [done | by apply (so_held w Hw)].
  - by eapply sound_get_or_insert.
  - by eapply sound_new_inode.
  - by apply sound_forget.
  - by apply sound_replace_info.
  - by apply sound_take_info.
  - by apply sound_clear_info.
  - by apply (sound_clear w).
Qed.

Lemma reachable_sound w : reachable w → sound w.
Proof.
  intros H. assert (∀ w0, rtc step w0 w → sound w0 → sound w) as Hind.
  { clear H. intros w0 H. induction H; eauto using step_sound. }
  exact (Hind initial H sound_initial).
Qed.

(** ** Theorems *)

(** The counter of an inode is the number of references to it. In every
    state that is reached, whatever the order in which the server takes, clones
    and drops strong references, the guest looks up and forgets, inodes are
    inserted and their migration information is set and cleared: the counter of
    every inode is the lookups not yet forgotten, plus the strong references
    held, plus the references from migration information, and it is positive; an
    inode that is referred to is in the store; and once nothing refers to any
    inode the store is empty. *)
Theorem inode_store_counts w :
  reachable w →
  (∀ i d c, data (store w) !! i = Some d → cells (store w) !! cell d = Some c →
     refcount c = lookups w i + refs_to (held w) i + migs (store w) i ∧ 0 < refcount c) ∧
  (∀ d, d ∈ held w → get_inode (store w) (inode d) = Some d) ∧
  (∀ i, 0 < lookups w i → is_Some (get_inode (store w) i)) ∧
  ((∀ i, lookups w i = 0) → held w = [] → (∀ d, info_of (store w) d = None) → data (store w) = ∅).
Proof.
  intros Hw%reachable_sound. split_and!.
  - intros i d c Hd Hc. destruct (ct_count _ _ (so_counted w Hw) i d c Hd Hc) as [H1 H2]. unfold outside in H1. done.
  - apply (so_held w Hw).
  - intros i Hi. apply (ct_live _ _ (so_counted w Hw)). unfold outside. pose proof (refs_to_nonneg (held w) i). lia.
  - intros Hl Hh Hi. apply map_empty. intros i. destruct (data (store w) !! i) as [d|] eqn:Hd; [|done]. exfalso.
    destruct (ix_data _ (so_indexed w Hw) i d Hd) as [_ [c Hc]].
    destruct (ct_count _ _ (so_counted w Hw) i d c Hd Hc) as [H1 H2]. unfold outside in H1. rewrite Hl, Hh in H1. simpl in H1.
    assert (migs (store w) i = 0) as Hm; [|rewrite refs_to_nil in H1; lia].
    unfold migs. apply (f_equal Z.of_nat (y := O)), map_size_empty_iff, map_empty. intros j.
    apply map_lookup_filter_None. right. intros e He. simpl. unfold points. by rewrite Hi.
Qed.

(** *** Panics *)

Definition room (s : InodeStore) : Prop := map_Forall (λ _ c, refcount c < 2 ^ 64 - 1) (cells s).
#[export] Instance room_dec s : Decision (room s).
Proof. apply map_Forall_dec. intros. apply _. Defined.

Lemma increment_no_panic s d : is_Some (cells s !! cell d) → room s → (increment_refcount_for d s).1 ≠ Panic.
Proof.
  intros [c Hc] Hr. unfold increment_refcount_for. rewrite Hc. specialize (Hr _ _ Hc). simpl in Hr.
  rewrite (proj2 (Z.leb_gt _ _)) by done. by destruct (_ <? _).
Qed.

Lemma new_with_data_no_panic s d : is_Some (cells s !! cell d) → room s → (new_with_data d s).1 ≠ Panic.
Proof.
  intros Hc Hr. pose proof (increment_no_panic s d Hc Hr) as H. unfold new_with_data, mbind, stm_bind.
  by destruct (increment_refcount_for d s) as [[]].
Qed.

Lemma claim_no_panic s handle x : indexed s → room s → (do_claim_inode handle x s).1 ≠ Panic.
Proof.
  intros Hs Hr. unfold do_claim_inode. destruct (find_inode_live s handle x Hs) as (o & -> & Ho).
  destruct o as [d|]; [|done]. apply new_with_data_no_panic; [|done]. by eapply ix_data, Ho.
Qed.

(** C21. With a server that only uses its references and a guest that forgets
    no more than it looked up, no [unwrap] and no assertion of the store fails
    (as long as no counter is at its maximum): the indexes never name an inode
    that is gone, an insertion never meets an inode of the same ID, and a strong
    reference can always be cloned. *)
Theorem inode_store_no_panic w handle x new d :
  reachable w → room (store w) →
  (do_claim_inode handle x (store w)).1 ≠ Panic ∧
  (get_or_insert new (store w)).1 ≠ Panic ∧
  (new_inode new (store w)).1 ≠ Panic ∧
  (d ∈ arcs w → (new_with_data d (store w)).1 ≠ Panic) ∧
  (d ∈ held w → (clone_reference d (store w)).1 = Ok d).
Proof.
  intros Hw%reachable_sound Hr. pose proof (so_indexed w Hw) as Hs. split_and!.
  - by apply claim_no_panic.
  - unfold get_or_insert.
    pose proof (claim_no_panic (store w) (handle_of (new_file_or_handle new)) (new_ids new) Hs Hr) as Hp.
    destruct (do_claim_inode _ _ (store w)) as [[e|e|] s1] eqn:Hc; [done | | done].
    case_decide as Hin; [done|]. apply eq_None_not_Some in Hin. by rewrite insert_arc_ok.
  - unfold new_inode. case_decide as Hin; [done|]. apply eq_None_not_Some in Hin.
    unfold mbind, stm_bind. by rewrite insert_arc_ok.
  - intros Hd. apply new_with_data_no_panic; [|done]. destruct (so_arcs w Hw d Hd) as [Hl|(c & Hc & _)]; [|by eexists].
    by eapply ix_data, Hl.
  - intros Hd. pose proof (so_held w Hw d Hd) as Hl. destruct (ix_data _ Hs _ _ Hl) as [_ [c Hc]].
    destruct (ct_count _ _ (so_counted w Hw) _ d c Hl Hc) as [_ Hpos]. specialize (Hr _ _ Hc). simpl in Hr.
    unfold clone_reference, increment_refcount_for. rewrite Hc.
    by rewrite (proj2 (Z.leb_gt _ _)), (proj2 (Z.ltb_lt _ _)) by done.
Qed.

(** *** Any guest *)

Inductive store_op :=
  | OpClaim (handle : option FileHandle) (x : InodeIds)
  | OpStrong (d : InodeData)
  | OpGetOrInsert (x : NewInode)
  | OpNewInode (x : NewInode)
  | OpForget (requests : list (Z * Z))
  | OpReplaceInfo (d : InodeData) (info : InodeMigrationInfo)
  | OpClearInfo
  | OpClear.

Definition run_op (s : InodeStore) (o : store_op) : InodeStore :=
  match o with
  | OpClaim handle x => (do_claim_inode handle x s).2
  | OpStrong d => (new_with_data d s).2
  | OpGetOrInsert x => (get_or_insert x s).2
  | OpNewInode x => (new_inode x s).2
  | OpForget requests => forget_many requests s
  | OpReplaceInfo d info => replace_info d info s
  | OpClearInfo => clear_migration_info s
  | OpClear => clear s
  end.

Lemma indexed_increment d s : indexed s → indexed (new_with_data d s).2.
Proof.
  intros Hs. unfold new_with_data, mbind, stm_bind, increment_refcount_for.
  destruct (cells s !! cell d) as [c|]; [|done]. destruct (_ <=? _); [done|]. destruct (_ <? _); [|done].
  by apply indexed_set_refcount.
Qed.

Lemma indexed_claim handle x s : indexed s → indexed (do_claim_inode handle x s).2.
Proof.
  intros Hs. unfold do_claim_inode. destruct (find_inode s handle x) as [[d|]| |]; try done. by apply indexed_increment.
Qed.

Lemma indexed_insert x refs s : indexed s → indexed (insert_arc x refs s).2.
Proof.
  intros Hs. destruct (data s !! new_id x) as [d|] eqn:E.
  - unfold insert_arc, arc_new, insert_new. simpl. rewrite E. apply indexed_with_cells; [|done].
    intros l Hl. destruct (decide (fresh (dom (cells s)) = l)) as [<-|Hne]; [by rewrite lookup_insert_eq | by rewrite lookup_insert_ne].
  - rewrite insert_arc_ok by done. by apply indexed_inserted.
Qed.

Lemma indexed_run_op s o : indexed s → indexed (run_op s o).
Proof.
  intros Hs. destruct o as [handle x|d|x|x|requests|d info| | ]; simpl.
  - by apply indexed_claim.
  - by apply indexed_increment.
  - unfold get_or_insert. pose proof (indexed_claim (handle_of (new_file_or_handle x)) (new_ids x) s Hs) as H1.
    destruct (do_claim_inode _ _ s) as [[d|e|] s1]; simpl in *; [by apply shrinks_drop_references | | done].
    case_decide; [by apply shrinks_drop_references | by apply indexed_insert].
  - unfold new_inode. case_decide; [by apply shrinks_drop_references|]. unfold mbind, stm_bind.
    pose proof (indexed_insert x (new_refcount x) s Hs) as H1. by destruct (insert_arc x (new_refcount x) s) as [[]].
  - apply (foldl_kept indexed); [|done]. intros s' [i n] Hs'. by apply shrinks_forget_one.
  - by apply indexed_set_info, shrinks_drop_references, indexed_set_info.
  - by apply shrinks_drop_references, without_infos_shrinks.
  - split; simpl; intros *; by rewrite lookup_empty.
Qed.

(** Whatever the guest forgets: after any operations, with any counts,
    the indexes are sound, so that the inode a handle or IDs stand for is found
    without a panic and is in the store. *)
Theorem inode_store_any_guest ops handle x :
  let s := foldl run_op InodeStore_default ops in
  ∃ o, find_inode s handle x = Ok o ∧ ∀ d, o = Some d → get_inode s (inode d) = Some d.
Proof.
  intros s. apply find_inode_live. unfold s. apply foldl_kept; [|apply indexed_default]. intros. by apply indexed_run_op.
Qed.

(** ** Iteration *)

(** The calls of an iteration, each with the store it meets, and whether the
    last one returned [None]. *)
Fixpoint iterate (last : option Z) (stores : list InodeStore) : outcome io_error (list InodeData * bool) :=
  match stores with
  | [] => Ok ([], false)
  | s :: stores' =>
      o ← iterator_next last s;
      match o with
      | None => Ok ([], true)
      | Some (d, last') => '(ds, ended) ← iterate last' stores'; Ok (d :: ds, ended)
      end
  end.

Lemma sorted_head (P : Z → Prop) `{!∀ i, Decision (P i)} (l : list Z) :
  StronglySorted Z.le l →
  match head (filter P l) with
  | Some i => i ∈ l ∧ P i ∧ ∀ j, j ∈ l → P j → i ≤ j
  | None => ∀ j, j ∈ l → ¬ P j
  end.
Proof.
  induction 1 as [|i l Hl IH Hi]; [by intros j Hj%not_elem_of_nil|]. rewrite filter_cons. case_decide as Hp; simpl.
  - split_and!; [by constructor | done|]. rewrite Forall_forall in Hi. intros j [->|Hj]%elem_of_cons _; [lia | by apply Hi].
  - destruct (head (filter P l)) as [k|].
    + destruct IH as (H1 & H2 & H3). split_and!; [by constructor | done|]. intros j [->|Hj]%elem_of_cons Hj'; [done | by apply H3].
    + intros j [->|Hj]%elem_of_cons; [done | by apply IH].
Qed.

Lemma first_from_spec s b :
  match first_from s b with
  | Some (i, d) => data s !! i = Some d ∧ b ≤ i ∧ ∀ j, is_Some (data s !! j) → b ≤ j → i ≤ j
  | None => ∀ j, is_Some (data s !! j) → j < b
  end.
Proof.
  assert (∀ j, j ∈ sorted_keys s ↔ is_Some (data s !! j)) as Hk.
  { intros j. unfold sorted_keys. by rewrite merge_sort_Permutation, elem_of_elements, elem_of_dom. }
  unfold first_from. pose proof (sorted_head (λ i, b ≤ i) (sorted_keys s)) as Hh.
  destruct (head (filter (λ i, b ≤ i) (sorted_keys s))) as [i|]; simpl.
  - destruct Hh as (Hi & Hb & Hmin); [apply StronglySorted_merge_sort; apply _|].
    destruct (proj1 (Hk i) Hi) as [d Hd]. rewrite Hd. simpl. split_and!; [done | done|].
    intros j Hj. apply Hmin. by apply Hk.
  - intros j Hj. specialize (Hh ltac:(apply StronglySorted_merge_sort; apply _) j (proj2 (Hk j) Hj)). simpl in Hh. lia.
Qed.

(** What is left to visit. *)
Definition lower_bound (last : option Z) : Z := match last with Some l => l + 1 | None => 0 end.

Lemma iterator_next_cases last s r :
  iterator_next last s = Ok r →
  match r with
  | Some (d, last') => ∃ i, last' = Some i ∧ data s !! i = Some d ∧ lower_bound last ≤ i ∧
      ∀ j, is_Some (data s !! j) → lower_bound last ≤ j → i ≤ j
  | None => ∀ j, is_Some (data s !! j) → j < lower_bound last
  end.
Proof.
  intros H. assert (r = (λ '(i, d), (d, Some i)) <$> first_from s (lower_bound last)) as ->.
  { unfold iterator_next in H. destruct last as [l|]; simpl; [destruct (_ <=? _); [done|]|]; by injection H. }
  pose proof (first_from_spec s (lower_bound last)) as Hf. destruct (first_from s (lower_bound last)) as [[i d]|]; simpl; [|done].
  exists i. by split.
Qed.

Lemma iterate_spec stores last ds ended :
  Forall indexed stores → iterate last stores = Ok (ds, ended) →
  Forall (λ d, lower_bound last ≤ inode d) ds ∧ StronglySorted Z.lt (inode <$> ds) ∧
  (ended = true → ∀ d, lower_bound last ≤ inode d → Forall (λ s, live s d) stores → d ∈ ds).
Proof.
  revert last ds. induction stores as [|s stores IH]; intros last ds Hs; cbn [iterate].
  { intros [= <- <-]. split_and!; [constructor | constructor | done]. }
  apply Forall_cons in Hs as [Hs Hss].
  destruct (iterator_next last s) as [r|e|] eqn:Hn; [|done|done]. apply iterator_next_cases in Hn. cbn [mbind outcome_bind].
  destruct r as [[d last']|].
  - destruct Hn as (i & -> & Hd & Hb & Hmin). destruct (ix_data s Hs i d Hd) as [<- _].
    destruct (iterate (Some (inode d)) stores) as [[ds' e']|e|] eqn:Hi; [|done|done]. intros [= <- <-].
    apply IH in Hi as (H1 & H2 & H3); [|done]. cbn [lower_bound] in *.
    assert (Forall (λ x, inode d < inode x) ds') as Hlt by (eapply Forall_impl; [exact H1|]; simpl; lia).
    split_and!.
    + constructor; [done|]. eapply Forall_impl; [exact H1|]. simpl. lia.
    + rewrite fmap_cons. constructor; [done|]. by apply Forall_fmap.
    + intros He x Hx Hl. apply Forall_cons in Hl as [Hl1 Hl]. unfold live in Hl1.
      assert (inode d ≤ inode x) by (apply Hmin; [by rewrite Hl1 | done]).
      destruct (decide (inode x = inode d)) as [E|E].
      * rewrite E, Hd in Hl1. injection Hl1 as <-. by constructor.
      * constructor. apply H3; [done | lia | done].
  - intros [= <- <-]. split_and!; [constructor | constructor|]. intros _ d Hb Hl. apply Forall_cons in Hl as [Hl _].
    specialize (Hn (inode d)). unfold live in Hl. rewrite Hl in Hn. specialize (Hn ltac:(done)). lia.
Qed.

(** An iteration over the store, which releases the lock between its calls,
    visits inodes in ascending order and so none of them twice, and when it ends
    it has visited every inode that was in the store all along, whatever was
    inserted and removed meanwhile. *)
Theorem inode_iteration stores ds :
  Forall indexed stores → iterate None stores = Ok (ds, true) →
  StronglySorted Z.lt (inode <$> ds) ∧
  (∀ d, 0 ≤ inode d → (∀ s, s ∈ stores → get_inode s (inode d) = Some d) → d ∈ ds).
Proof.
  intros Hs H. apply iterate_spec in H as (_ & H1 & H2); [|done]. split; [done|]. intros d Hd Hl.
  apply H2; [done | done|]. by apply Forall_forall.
Qed.

(** *** A run

    The root, and a file the guest looks up while the migration information is
    kept: it refers to the root. *)

Definition root_inode : NewInode := mkNewInode 1 (IsFile 3) 2 (mkInodeIds 10 20 30) 16877 None.
Definition root_data : InodeData := mkInodeData 1 1 (IsFile 3) (mkInodeIds 10 20 30) 16877.
Definition file_inode : NewInode :=
  mkNewInode 2 (IsFile 4) 1 (mkInodeIds 11 20 30) 33188 (Some (mkMigrationInfo (InodePath root_data "a") None)).
Definition file_data : InodeData := mkInodeData 2 2 (IsFile 4) (mkInodeIds 11 20 30) 33188.

Definition mounted : InodeStore := (new_inode root_inode InodeStore_default).2.
Definition parent_taken : InodeStore := (new_with_data root_data mounted).2.
Definition found : InodeStore := (get_or_insert file_inode parent_taken).2.

Definition after_mount : world := mkWorld mounted [] (add_lookups (λ _, 0) 1 2) [].
Definition after_lookup : world := mkWorld found [file_data] (add_lookups (λ _, 0) 1 2) [root_data].

Lemma after_lookup_reachable : reachable after_lookup.
Proof.
  apply (rtc_l _ _ after_mount).
  { apply (step_new_inode initial root_inode [] (Ok ()) mounted); by vm_compute. }
  apply (rtc_l _ _ (mkWorld mounted [] (add_lookups (λ _, 0) 1 2) [root_data])).
  { by apply (step_arc after_mount 1). }
  apply (rtc_l _ _ (mkWorld parent_taken [root_data] (add_lookups (λ _, 0) 1 2) [root_data])).
  { apply (step_strong (mkWorld mounted [] (add_lookups (λ _, 0) 1 2) [root_data]) root_data (Ok root_data) parent_taken);
      [by apply list_elem_of_singleton | by vm_compute | done]. }
  apply (rtc_once _ _).
  apply (step_get_or_insert (mkWorld parent_taken [root_data] (add_lookups (λ _, 0) 1 2) [root_data]) file_inode [] (Ok file_data) found);
    [done | by vm_compute | done].
Qed.

Lemma inode_store_counts_witness :
  reachable after_lookup ∧ migs found 1 = 1 ∧ cells found !! 1%positive = Some (mkCell 3 None) ∧
  get_inode found 2 = Some file_data.
Proof.
  split; [exact after_lookup_reachable|]. destruct (inode_store_counts after_lookup after_lookup_reachable) as (H1 & H2 & _).
  split; [by vm_compute|]. split; [|apply (H2 file_data); by apply list_elem_of_singleton].
  destruct (cells found !! 1%positive) as [c|] eqn:E; [|by vm_compute in E].
  destruct (H1 1 root_data c) as [Hc _]; [by vm_compute | exact E|].
  assert (migration_info c = None) as Hm by (vm_compute in E; by injection E as <-).
  destruct c as [n m]. simpl in Hc, Hm. rewrite Hm, Hc. by vm_compute.
Defined.

Lemma inode_store_no_panic_witness :
  reachable after_lookup ∧ room found ∧ (clone_reference file_data found).1 = Ok file_data.
Proof.
  assert (room found) as Hr by by apply (bool_decide_unpack _).
  split; [exact after_lookup_reachable|]. split; [exact Hr|].
  destruct (inode_store_no_panic after_lookup None (new_ids file_inode) file_inode file_data after_lookup_reachable Hr)
    as (_ & _ & _ & _ & H).
  apply H. by apply list_elem_of_singleton.
Defined.

Lemma inode_iteration_witness :
  Forall indexed [found; found; found] ∧ iterate None [found; found; found] = Ok ([root_data; file_data], true) ∧
  file_data ∈ [root_data; file_data].
Proof.
  assert (indexed found) as Hs by apply (so_indexed _ (reachable_sound _ after_lookup_reachable)).
  assert (Forall indexed [found; found; found]) as Hss by (do 3 (constructor; [exact Hs|]); constructor).
  assert (iterate None [found; found; found] = Ok ([root_data; file_data], true)) as Hi by by vm_compute.
  split; [exact Hss|]. split; [exact Hi|].
  destruct (inode_iteration [found; found; found] [root_data; file_data] Hss Hi) as [_ H].
  apply H; [done|]. intros s Hs'. rewrite !elem_of_cons in Hs'.
  destruct Hs' as [->|[->|[->|Hs']]]; [by vm_compute..|]. by apply not_elem_of_nil in Hs'.
Defined.

(** A guest that forgets more than it looked up takes the inode away from under
    a strong reference: the [unwrap] of [clone] panics, and the parent that the
    inode referred to is left with its own lookups. *)
Example forgotten_reference_panics :
  (clone_reference file_data (forget_one 2 5 found)).1 = Panic ∧
  cells (forget_one 2 5 found) !! 1%positive = Some (mkCell 2 None).
Proof. by vm_compute. Qed.
