(* ===== verification/ReadDir.v ===== *)
(** * Reading directories

    Models [crates/virtiofsd-fork/src/read_dir.rs] (on Linux): the entries that
    [getdents64] left in a buffer, one after the other.  A byte is a number
    below 256; an index out of range, an underflow and a failed [expect] are
    panics. *)

From stdpp Require Import base list strings.
From S2P Require Import Prelude Fuse FileSystem.
#[local] Open Scope Z_scope.

Record LinuxDirent64 := mkLinuxDirent64 { d_ino : Z; d_off : Z; d_reclen : Z; d_ty : Z }.
#[export] Instance LinuxDirent64_bytes : ByteValued LinuxDirent64 := {|
  layout := [8; 8; 2; 1]%nat;
  fields a := [d_ino a; d_off a; d_reclen a; d_ty a];
  of_fields l := mkLinuxDirent64 (field l 0) (field l 1) (field l 2) (field l 3) |}.
#[export] Instance LinuxDirent64_laws : ByteValuedLaws LinuxDirent64.
Proof. byte_valued. Qed.

(** The bytes before the first zero; [None] when there is none. *)
Fixpoint strip_padding (b : list Z) : option (list Z) :=
  match b with
  | [] => None
  | c :: b' => if c =? 0 then Some [] else cons c <$> strip_padding b'
  end.

(** [parse_entry]: the entry at the start of the bytes and its length. *)
Definition parse_entry (rem : list Z) : outcome io_error (option (DirEntry * nat)) :=
  if decide (rem = []) then Ok None
  else if decide (length rem < size_of LinuxDirent64)%nat then Panic
  else
    let front := take (size_of LinuxDirent64) rem in
    let back := drop (size_of LinuxDirent64) rem in
    let dirent64 := from_slice (A := LinuxDirent64) front in
    let reclen := Z.to_nat (d_reclen dirent64) in
    if decide (reclen < size_of LinuxDirent64)%nat then Panic
    else
      let namelen := (reclen - size_of LinuxDirent64)%nat in
      if decide (length back < namelen)%nat then Panic
      else
        match strip_padding (take namelen back) with
        | None => Panic
        | Some name =>
            Ok (Some (mkDirEntry (d_ino dirent64) (as_u64 (d_off dirent64)) (d_ty dirent64) (string_of_bytes name), reclen))
        end.

Record ReadDir := mkReadDir { rd_buf : list Z; rd_current : nat; rd_end : nat }.
Definition ReadDir_default : ReadDir := mkReadDir [] 0 0.

Definition rd_remaining (d : ReadDir) : nat := rd_end d - rd_current d.

(** [next]: [&self.buf[self.current..self.end]]. *)
Definition rd_next (d : ReadDir) : outcome io_error (option DirEntry * ReadDir) :=
  if decide (rd_end d < rd_current d ∨ length (rd_buf d) < rd_end d)%nat then Panic
  else
    o ← parse_entry (take (rd_end d - rd_current d) (drop (rd_current d) (rd_buf d)));
    match o with
    | None => Ok (None, d)
    | Some (entry, advance) => Ok (Some entry, mkReadDir (rd_buf d) (rd_current d + advance) (rd_end d))
    end.

(** All the entries; each takes bytes of the buffer. *)
Fixpoint rd_entries (fuel : nat) (d : ReadDir) : outcome io_error (list DirEntry) :=
  '(o, d') ← rd_next d;
  match o, fuel with
  | None, _ => Ok []
  | Some _, O => Panic
  | Some entry, S fuel' => entries ← rd_entries fuel' d'; Ok (entry :: entries)
  end.

(** [ReadDir::new], of what [lseek64] and [getdents64] return: the number of
    bytes of the buffer that are entries. *)
Definition rd_new (buf : list Z) (n : nat) : ReadDir := mkReadDir buf 0 n.

(** ** What the kernel writes *)

(** A record: the header, the name, its terminator and any padding. *)
Definition reclen_of (e : DirEntry) (pad : list Z) : nat :=
  (size_of LinuxDirent64 + (length (bytes_of_string (de_name e)) + 1 + length pad))%nat.
Definition dirent_record (r : DirEntry * list Z) : list Z :=
  let '(e, pad) := r in
  as_slice (mkLinuxDirent64 (de_ino e) (de_offset e) (Z.of_nat (reclen_of e pad)) (de_type e)) ++
  bytes_of_string (de_name e) ++ 0 :: pad.

Definition record_ok (r : DirEntry * list Z) : Prop :=
  in_u64 (de_ino r.1) ∧ in_u64 (de_offset r.1) ∧ in_u8 (de_type r.1) ∧ (0 ∉ bytes_of_string (de_name r.1)) ∧
  Z.of_nat (reclen_of r.1 r.2) < 2 ^ 16.
#[export] Instance record_ok_dec r : Decision (record_ok r).
Proof. unfold record_ok. apply _. Defined.

Lemma strip_padding_app name pad : (0 ∉ name) → strip_padding (name ++ 0 :: pad) = Some name.
Proof.
  induction name as [|c name IH]; simpl; [done|]. rewrite not_elem_of_cons. intros [Hc Hn].
  rewrite (proj2 (Z.eqb_neq c 0)) by done. by rewrite IH.
Qed.

#[local] Opaque as_slice.

Lemma length_dirent_record e pad : length (dirent_record (e, pad)) = reclen_of e pad.
Proof. unfold dirent_record. rewrite length_app, length_as_slice, length_app. unfold reclen_of. simpl length. lia. Qed.

Lemma record_in_range e pad :
  record_ok (e, pad) → in_range (mkLinuxDirent64 (de_ino e) (de_offset e) (Z.of_nat (reclen_of e pad)) (de_type e)).
Proof.
  intros (H1 & H2 & H3 & _ & H5). unfold in_range, in_width in *. simpl in *.
  repeat constructor; simpl; lia.
Qed.

Lemma parse_record e pad rest :
  record_ok (e, pad) →
  parse_entry (dirent_record (e, pad) ++ rest) = Ok (Some (e, reclen_of e pad)).
Proof.
  intros Hok. pose proof (record_in_range e pad Hok) as Hr. destruct Hok as (_ & H2 & _ & H4 & H5). simpl in *.
  unfold parse_entry, dirent_record. rewrite <- !app_assoc.
  set (h := mkLinuxDirent64 _ _ _ _) in *. set (tail := (bytes_of_string (de_name e) ++ 0 :: pad) ++ rest).
  assert (length (as_slice h) = size_of LinuxDirent64) as Hh by apply length_as_slice.
  replace (bytes_of_string (de_name e) ++ (0 :: pad) ++ rest) with tail by (unfold tail; by rewrite <- app_assoc).
  rewrite decide_False; [|intros [E _]%app_eq_nil; by rewrite E in Hh].
  rewrite decide_False by (rewrite length_app, Hh; lia).
  rewrite take_app_length', drop_app_length' by done.
  rewrite <- (app_nil_r (as_slice h)), from_as_slice by done. cbn [d_reclen h].
  rewrite Nat2Z.id. rewrite decide_False by (unfold reclen_of; lia).
  replace (reclen_of e pad - size_of LinuxDirent64)%nat with (length (bytes_of_string (de_name e) ++ 0 :: pad))
    by (rewrite length_app; simpl length; unfold reclen_of; lia).
  rewrite decide_False by (unfold tail; rewrite length_app; lia). unfold tail. rewrite take_app_length.
  rewrite strip_padding_app by done. cbn [d_ino d_off d_ty]. rewrite string_of_bytes_of_string.
  unfold as_u64. rewrite Z.mod_small by exact H2. by destruct e.
Qed.

(** Whatever directory the kernel reports, it is read back: a buffer that
    starts with records of [getdents64], each a header, a name and any padding,
    is iterated to exactly the entries, in order, without a panic. *)
Theorem readdir_entries records garbage :
  Forall record_ok records →
  let bs := concat (dirent_record <$> records) in
  rd_entries (length records) (rd_new (bs ++ garbage) (length bs)) = Ok records.*1.
Proof.
  intros Hall bs. unfold rd_new.
  assert (∀ before, rd_entries (length records) (mkReadDir (before ++ bs ++ garbage) (length before) (length before + length bs)) =
          Ok records.*1) as H; [|exact (H [])].
  subst bs. induction Hall as [|[e pad] records Hok _ IH]; intros before; cbn [length rd_entries].
  { unfold rd_next. cbn [rd_end rd_current rd_buf]. simpl. rewrite Nat.add_0_r.
    rewrite decide_False by (rewrite length_app; lia). by rewrite Nat.sub_diag, take_0. }
  rewrite fmap_cons. cbn [concat]. set (r := dirent_record (e, pad)). set (bs := concat (dirent_record <$> records)) in *.
  unfold rd_next. cbn [rd_end rd_current rd_buf].
  rewrite decide_False by (rewrite !length_app; lia).
  replace (length before + length (r ++ bs) - length before)%nat with (length (r ++ bs)) by lia.
  rewrite drop_app_length, take_app_length. change (parse_entry (r ++ bs)) with (parse_entry (dirent_record (e, pad) ++ bs)). rewrite parse_record by done. cbn [mbind outcome_bind].
  rewrite <- length_dirent_record. fold r.
  specialize (IH (before ++ r)). rewrite <- app_assoc, length_app in IH. rewrite <- app_assoc, length_app, Nat.add_assoc.
  rewrite IH. done.
Qed.

#[local] Transparent as_slice.

Definition two_records : list (DirEntry * list Z) :=
  [(mkDirEntry 7 1 4 ".", [0; 0; 0]); (mkDirEntry 9 2 8 "notes.txt", [255; 1])].

Lemma readdir_entries_witness :
  Forall record_ok two_records ∧
  rd_entries 2 (rd_new (concat (dirent_record <$> two_records) ++ [1; 2; 3]) 55) = Ok [mkDirEntry 7 1 4 "."; mkDirEntry 9 2 8 "notes.txt"].
Proof.
  assert (Forall record_ok two_records) as H by by apply (bool_decide_unpack _).
  split; [exact H|]. exact (readdir_entries two_records [1; 2; 3] H).
Defined.

(** A record that claims to be shorter than its header, and a name without a
    terminator, are panics. *)
Example short_record_panics :
  parse_entry (as_slice (mkLinuxDirent64 7 1 18 4)) = Panic ∧
  parse_entry (as_slice (mkLinuxDirent64 7 1 20 4) ++ [46]) = Panic.
Proof. by vm_compute. Qed.
