(* ===== verification/PassthroughHost.v ===== *)
(** * The file system that passes requests through: its state and its host

    The data of [crates/virtiofsd-fork/src/passthrough/mod.rs], and the
    interface to the operating system below it.  [Host] are the calls of [libc]
    and of the platform layer [compat/] that the sources make, as functions of an
    unknown state of the system; nothing is assumed of them.  A call returns
    what the C function returns, and [errno] is read separately, as the sources
    do, by [io::Error::last_os_error].

    A descriptor is its number.  Closing descriptors is not modelled, and so the
    counter of [guest_fd_limit.rs] is computed from the descriptors that are
    kept: those of the inodes and of the open handles. *)

From stdpp Require Import base gmap list strings.
From S2P Require Import Prelude Text Fuse FileSystem SoftIdMap XattrMap InodeStore.
#[local] Open Scope Z_scope.

(** ** Constants *)

Definition O_ACCMODE : Z := 3.
Definition O_RDONLY : Z := 0.
Definition O_WRONLY : Z := 1.
Definition O_RDWR : Z := 2.
Definition O_CREAT : Z := 64.
Definition O_EXCL : Z := 128.
Definition O_TRUNC : Z := 512.
Definition O_APPEND : Z := 1024.
Definition O_NONBLOCK : Z := 2048.
Definition O_DIRECT : Z := 16384.
Definition O_DIRECTORY : Z := 65536.
Definition O_NOFOLLOW : Z := 131072.
Definition O_NOATIME : Z := 262144.
Definition O_CLOEXEC : Z := 524288.
Definition O_PATH : Z := 2097152.
Definition S_IFMT : Z := 61440.
Definition S_IFDIR : Z := 16384.
Definition S_IFREG : Z := 32768.
Definition S_ISGID : Z := 1024.
Definition AT_FDCWD : Z := -100.
Definition AT_REMOVEDIR : Z := 512.
Definition AT_SYMLINK_FOLLOW : Z := 1024.
Definition AT_SYMLINK_NOFOLLOW : Z := 256.
Definition AT_EMPTY_PATH : Z := 4096.
Definition UTIME_NOW : Z := 1073741823.
Definition UTIME_OMIT : Z := 1073741822.
Definition PATH_MAX : Z := 4096.
Definition ATTR_SUBMOUNT : Z := 1.

(** ** Errors *)

(** The kind of an error code. *)
Definition errno_kind (errno : Z) : ErrorKind :=
  match errno with
  | 1 | 13 => PermissionDenied
  | 2 => NotFound
  | 17 => AlreadyExists
  | 20 => NotADirectory
  | 21 => IsADirectory
  | 22 => InvalidInput
  | 28 => StorageFull
  | 36 => InvalidFilename
  | 39 => DirectoryNotEmpty
  | _ => KOther
  end.
Definition from_raw_os_error (errno : Z) : io_error := mkIoError (errno_kind errno) (Some errno).

Definition ebadf : io_error := from_raw_os_error 9.
Definition EPERM : Z := 1.
Definition EACCES : Z := 13.
Definition ENFILE : Z := 23.
Definition ENODATA : Z := 61.
Definition ENOTSUP : Z := 95.

(** ** The host *)

Record StatExt := mkStatExt { se_st : stat64; se_dev : Z; se_mnt_id : Z }.
Record timespec := mkTimespec { tv_sec : Z; tv_nsec : Z }.

Class Host (H : Type) := {
  h_errno : H → Z;
  h_openat (dirfd : Z) (path : string) (flags mode : Z) : H → Z * H;
  h_openat2 (dirfd : Z) (path : string) (flags mode : Z) : H → Z * H;
  h_name_to_handle_at (dirfd : Z) (path : string) (flags : Z) : H → option (CFileHandle * Z) * H;
  h_open_by_handle_at (mount_fd : Z) (handle : CFileHandle) (flags : Z) : H → Z * H;
  h_mount_fd (mnt_id : Z) : H → outcome io_error Z * H;
  h_statx (dirfd : Z) (path : option string) : H → outcome io_error StatExt * H;
  h_fstatvfs64 (fd : Z) : H → Z * statvfs64 * H;
  h_readlinkat (dirfd : Z) (path : string) (size : Z) : H → Z * list Z * H;
  h_mkdirat (dirfd : Z) (path : string) (mode : Z) : H → Z * H;
  h_mknodat (dirfd : Z) (path : string) (mode rdev : Z) : H → Z * H;
  h_symlinkat (target : string) (dirfd : Z) (path : string) : H → Z * H;
  h_linkat (olddirfd : Z) (oldpath : string) (newdirfd : Z) (newpath : string) (flags : Z) : H → Z * H;
  h_renameat2 (olddirfd : Z) (oldpath : string) (newdirfd : Z) (newpath : string) (flags : Z) : H → Z * H;
  h_unlinkat (dirfd : Z) (path : string) (flags : Z) : H → Z * H;
  h_fchmod (fd mode : Z) : H → Z * H;
  h_fchmodat (dirfd : Z) (path : string) (mode flags : Z) : H → Z * H;
  h_fchownat (dirfd : Z) (path : string) (uid gid flags : Z) : H → Z * H;
  h_ftruncate (fd length : Z) : H → Z * H;
  h_futimens (fd : Z) (atime mtime : timespec) : H → Z * H;
  h_utimensat (dirfd : Z) (path : string) (atime mtime : timespec) (flags : Z) : H → Z * H;
  h_fsetxattr (fd : Z) (name : string) (value : list Z) (flags : Z) : H → Z * H;
  h_setxattr (path name : string) (value : list Z) (flags : Z) : H → Z * H;
  h_fgetxattr (fd : Z) (name : string) (size : Z) : H → Z * list Z * H;
  h_getxattr (path name : string) (size : Z) : H → Z * list Z * H;
  h_flistxattr (fd size : Z) : H → Z * list Z * H;
  h_listxattr (path : string) (size : Z) : H → Z * list Z * H;
  h_fremovexattr (fd : Z) (name : string) : H → Z * H;
  h_removexattr (path name : string) : H → Z * H;
  h_dup (fd : Z) : H → Z * H;
  h_close (fd : Z) : H → Z * H;
  h_fsync (fd : Z) : H → Z * H;
  h_fdatasync (fd : Z) : H → Z * H;
  h_fallocate (fd mode offset length : Z) : H → Z * H;
  h_lseek (fd offset whence : Z) : H → Z * H;
  h_copy_file_range (fd_in offset_in fd_out offset_out len flags : Z) : H → Z * H;
  h_syncfs (fd : Z) : H → Z * H;
  h_getdents (fd size : Z) : H → Z * list Z * H;
  h_preadv (fd : Z) (slices : list Z) (size offset : Z) : H → outcome io_error (list Z) * H;
  h_pwritev (fd : Z) (slices : list (list Z)) (size offset : Z) (append : bool) : H → outcome io_error Z * H;
  h_fchdir (fd : Z) : H → Z * H;
  h_umask (mask : Z) : H → Z * H;
  h_geteuid : H → Z * H;
  h_getegid : H → Z * H;
  h_seteffuid (uid : Z) : H → Z * H;
  h_seteffgid (gid : Z) : H → Z * H;
  h_setsupgroup (gid : Z) : H → Z * H;
  h_dropsupgroups : H → Z * H;
  h_add_cap (name : string) : H → outcome io_error unit * H;
  h_drop_effective_cap (name : string) : H → outcome io_error bool * H;
  h_restore_cap (name : string) : H → outcome io_error unit * H;
}.

(** ** Configuration *)

Inductive CachePolicy := CacheNever | CacheMetadata | CacheAuto | CacheAlways.
Inductive InodeFileHandlesMode := HandlesNever | HandlesPrefer | HandlesMandatory.
Inductive MigrationMode := FindPaths | FileHandles.

(** [Config], and what [PassthroughFs::new] computes once. *)
Record Config := mkConfig {
  entry_timeout : Duration;
  attr_timeout : Duration;
  cache_policy : CachePolicy;
  cfg_writeback : bool;
  root_dir : string;
  cfg_xattr : bool;
  xattrmap : option XattrMap;
  xattr_security_capability : option string;
  cfg_announce_submounts : bool;
  inode_file_handles : InodeFileHandlesMode;
  readdirplus : bool;
  allow_direct_io : bool;
  killpriv_v2 : bool;
  cfg_posix_acl : bool;
  security_label : bool;
  clean_noatime : bool;
  allow_mmap : bool;
  migration_verify_handles : bool;
  migration_mode : MigrationMode;
  guest_fd_limit : Z;
  uid_map_guest : Z → outcome MapError Z;
  uid_map_host : Z → outcome MapError Z;
  gid_map_guest : Z → outcome MapError Z;
  gid_map_host : Z → outcome MapError Z;
  has_openat2 : bool;
  proc_self_fd : Z;
  orig_wd_fd : Z;
}.

(** ** State *)

Inductive HandleDataFile := HandleFile (fd : Z) | HandleInvalid (e : io_error).
Record HandleData := mkHandleData { hd_inode : Z; hd_file : HandleDataFile; hd_migration_flags : Z }.

Record PassthroughFs (H : Type) := mkPassthroughFs {
  host : H;
  inodes : InodeStore;
  next_inode : Z;
  handles : gmap Z HandleData;
  next_handle : Z;
  writeback : bool;
  announce_submounts : bool;
  posix_acl : bool;
  sup_group_extension : bool;
  track_migration_info : bool;
}.
Arguments mkPassthroughFs {H}.
Arguments host {H}.
Arguments inodes {H}.
Arguments next_inode {H}.
Arguments handles {H}.
Arguments next_handle {H}.
Arguments writeback {H}.
Arguments announce_submounts {H}.
Arguments posix_acl {H}.
Arguments sup_group_extension {H}.
Arguments track_migration_info {H}.

Section state.
Context {H : Type}.
Abbreviation Fs := (PassthroughFs H).

Definition with_host (h : H) (s : Fs) : Fs :=
  mkPassthroughFs h (inodes s) (next_inode s) (handles s) (next_handle s) (writeback s) (announce_submounts s)
    (posix_acl s) (sup_group_extension s) (track_migration_info s).
Definition with_inodes (x : InodeStore) (s : Fs) : Fs :=
  mkPassthroughFs (host s) x (next_inode s) (handles s) (next_handle s) (writeback s) (announce_submounts s)
    (posix_acl s) (sup_group_extension s) (track_migration_info s).
Definition with_next_inode (n : Z) (s : Fs) : Fs :=
  mkPassthroughFs (host s) (inodes s) n (handles s) (next_handle s) (writeback s) (announce_submounts s)
    (posix_acl s) (sup_group_extension s) (track_migration_info s).
Definition with_handles (m : gmap Z HandleData) (n : Z) (s : Fs) : Fs :=
  mkPassthroughFs (host s) (inodes s) (next_inode s) m n (writeback s) (announce_submounts s)
    (posix_acl s) (sup_group_extension s) (track_migration_info s).
Definition with_options (wb sub acl sup : bool) (s : Fs) : Fs :=
  mkPassthroughFs (host s) (inodes s) (next_inode s) (handles s) (next_handle s) wb sub acl sup (track_migration_info s).

(** ** Running *)

Abbreviation M := (stm (PassthroughFs H) io_error).

(** A call of the host. *)
Definition sys {A : Type} (f : H → A * H) : M A := λ s, let '(r, h) := f (host s) in (Ok r, with_host h s).
Definition sys_result {A : Type} (f : H → outcome io_error A * H) : M A := λ s,
  let '(r, h) := f (host s) in (r, with_host h s).

Definition in_store {A : Type} (m : stm InodeStore io_error A) : M A := zoom inodes with_inodes m.
Definition on_store (f : InodeStore → InodeStore) : M unit := modify (λ s, with_inodes (f (inodes s)) s).

(** A value with a destructor that is run when the rest fails ([?]). *)
Definition on_error {A : Type} (cleanup : M unit) (m : M A) : M A := λ s,
  match m s with
  | (Err e, s') => match cleanup s' with (Panic, s'') => (Panic, s'') | (_, s'') => (Err e, s'') end
  | r => r
  end.

(** A value with a destructor that is run at the end of its scope. *)
Definition finally {A : Type} (cleanup : M unit) (m : M A) : M A := λ s,
  match m s with
  | (Panic, s') => (Panic, s')
  | (r, s') => match cleanup s' with (Panic, s'') => (Panic, s'') | (_, s'') => (r, s'') end
  end.

Definition drop_ref (d : InodeData) : M unit := on_store (drop_reference d).
Definition drop_refs (ds : list InodeData) : M unit := on_store (drop_references ds).

Section calls.
Context `{Host H}.

Definition last_os_error : M io_error := gets (λ s, from_raw_os_error (h_errno (host s))).
Definition fail_last {A : Type} : M A := e ← last_os_error; throw e.

(** [check_retval] *)
Definition checked (f : H → Z * H) : M Z := r ← sys f; if r =? -1 then fail_last else mret r.

End calls.
End state.
