(* ===== verification/ReadOnly.v ===== *)
(** * The read-only file system

    Models [crates/virtiofsd-fork/src/passthrough/read_only.rs]: a wrapper that
    refuses every operation that would change the shared directory.  The wrapped
    file system is any [FileSystem]; [SerializableFileSystem] is not modelled. *)

From stdpp Require Import base list strings.
From S2P Require Import Prelude Fuse FileSystem Descriptors FuseServer FuseFacts FuseCalls FuseListing PassthroughHost.
#[local] Open Scope Z_scope.

Definition O_TMPFILE : Z := 4259840.
Definition W_OK : Z := 2.

Definition erofs : io_error := os_error 30.
Definition einval : io_error := mkIoError InvalidInput (Some 22).

(** [map_err]: no such file is a read-only file system. *)
Definition not_found_erofs (e : io_error) : io_error := match io_kind e with NotFound => erofs | _ => e end.

Definition map_error {S A : Type} (f : io_error → io_error) (m : stm S io_error A) : stm S io_error A := λ s,
  match m s with (Err e, s') => (Err (f e), s') | r => r end.

Definition rofs_open {S R : Type} (flags : Z) (open_fn : Z → stm S io_error R) : stm S io_error R :=
  if 2 ^ 31 <=? flags then throw (mkIoError InvalidInput None)
  else if flag flags O_PATH then open_fn flags
  else if negb (Z.land flags O_ACCMODE =? O_RDONLY) then throw erofs
  else if contains flags O_EXCL then throw erofs
  else if contains flags O_TMPFILE then throw einval
  else if contains flags O_TRUNC then throw einval
  else if negb (flag flags O_CREAT) then open_fn flags
  else map_error not_found_erofs (open_fn (Z.ldiff flags O_CREAT)).

(** The methods listed under [ops_allow] and under [ops_forbid]. *)
Definition ops_allow {A : Type} (op : operation A) : bool :=
  match op with
  | FInit _ | FDestroy | FLookup _ _ _ | FForget _ _ _ | FBatchForget _ _ | FGetattr _ _ _ | FReadlink _ _
  | FRead _ _ _ _ _ _ _ _ | FFlush _ _ _ _ | FFsync _ _ _ _ | FRelease _ _ _ _ _ _ _ | FStatfs _ _
  | FGetxattr _ _ _ _ | FListxattr _ _ _ | FReaddir _ _ _ _ _ | FFsyncdir _ _ _ _ | FReleasedir _ _ _ _
  | FLseek _ _ _ _ _ | FSyncfs _ _ => true
  | _ => false
  end.
Definition ops_forbid {A : Type} (op : operation A) : bool :=
  match op with
  | FSetattr _ _ _ _ _ | FSymlink _ _ _ _ _ | FMknod _ _ _ _ _ _ _ | FMkdir _ _ _ _ _ _ | FUnlink _ _ _
  | FRmdir _ _ _ | FRename _ _ _ _ _ _ | FLink _ _ _ _ | FWrite _ _ _ _ _ _ _ _ _ _ | FFallocate _ _ _ _ _ _
  | FSetxattr _ _ _ _ _ _ | FRemovexattr _ _ _ | FCopyfilerange _ _ _ _ _ _ _ _ _ => true
  | _ => false
  end.

Definition PassthroughFsRo {S : Type} (fs : FileSystem S) : FileSystem S := λ A op,
  if ops_allow op then fs A op
  else if ops_forbid op then throw erofs
  else
    match op in operation A return stm S io_error A with
    | FOpen ctx inode kill_priv flags => rofs_open flags (λ flags, fs _ (FOpen ctx inode kill_priv flags))
    | FCreate ctx parent name _ kill_priv flags _ _ =>
        entry ← map_error not_found_erofs (fs _ (FLookup ctx parent name));
        '(handle, opts) ← rofs_open flags (λ flags, fs _ (FOpen ctx (entry_inode entry) kill_priv flags));
        mret (entry, handle, opts)
    | FOpendir ctx inode flags => rofs_open flags (λ flags, fs _ (FOpendir ctx inode flags))
    | FAccess ctx inode mask => if flag mask W_OK then throw erofs else fs _ (FAccess ctx inode mask)
    | _ => throw (os_error ENOSYS)
    end.

(** ** What reaches the wrapped file system *)

Definition requests (A : Type) (op : operation A) (_ : outcome io_error A) : list fs_request := [Request op].

(** Flags with which nothing is created, truncated or opened for writing. *)
Definition reading_flags (flags : Z) : Prop :=
  flag flags O_PATH = true ∨
  Z.land flags O_ACCMODE = O_RDONLY ∧ flag flags O_CREAT = false ∧ contains flags O_TRUNC = false ∧
  contains flags O_TMPFILE = false ∧ contains flags O_EXCL = false.

Definition harmless (q : fs_request) : Prop :=
  match q with
  | Request op =>
      match op with
      | FSetattr _ _ _ _ _ | FSymlink _ _ _ _ _ | FMknod _ _ _ _ _ _ _ | FMkdir _ _ _ _ _ _ | FUnlink _ _ _
      | FRmdir _ _ _ | FRename _ _ _ _ _ _ | FLink _ _ _ _ | FWrite _ _ _ _ _ _ _ _ _ _ | FFallocate _ _ _ _ _ _
      | FSetxattr _ _ _ _ _ _ | FRemovexattr _ _ _ | FCopyfilerange _ _ _ _ _ _ _ _ _ | FCreate _ _ _ _ _ _ _ _
      | FTmpfile | FIoctl => False
      | FOpen _ _ _ flags | FOpendir _ _ flags => reading_flags flags
      | FAccess _ _ mask => flag mask W_OK = false
      | _ => True
      end
  end.

Section readonly.
Context {S : Type} (fs : FileSystem S).
Abbreviation logged := (observing requests fs).

(** The calls of a method, which are all harmless. *)
Definition reads_only {A : Type} (m : stm (S * list fs_request) io_error A) : Prop :=
  ∀ s r s', m s = (r, s') → ∃ reqs, s'.2 = s.2 ++ reqs ∧ Forall harmless reqs ∧ (reqs = [] → s'.1 = s.1).

Lemma reads_only_throw {A : Type} e : reads_only (throw (A := A) e).
Proof. intros s r s' [= <- <-]. exists []. by rewrite app_nil_r. Qed.

Lemma reads_only_ret {A : Type} (a : A) : reads_only (mret a).
Proof. intros s r s' [= <- <-]. exists []. by rewrite app_nil_r. Qed.

Lemma reads_only_call {A : Type} (op : operation A) : harmless (Request op) → reads_only (logged A op).
Proof.
  intros Hh s r s'. unfold observing. destruct (fs A op s.1) as [r0 s0]. intros [= <- <-]. exists [Request op]. by repeat constructor.
Qed.

Lemma reads_only_bind {A B : Type} (m : stm (S * list fs_request) io_error A) (k : A → stm (S * list fs_request) io_error B) :
  reads_only m → (∀ a, reads_only (k a)) → reads_only (m ≫= k).
Proof.
  intros Hm Hk s r s'. unfold mbind, stm_bind. destruct (m s) as [[a|e|] s1] eqn:E.
  2, 3: intros [= <- <-]; by apply (Hm s _ s1 E).
  intros H. destruct (Hm s _ s1 E) as (q1 & H1 & F1 & N1). destruct (Hk a s1 r s' H) as (q2 & H2 & F2 & N2).
  exists (q1 ++ q2). split; [by rewrite H2, H1, app_assoc|]. split; [by apply Forall_app|].
  intros [-> ->]%app_eq_nil. rewrite N2, N1; done.
Qed.

Lemma reads_only_map_error {A : Type} f (m : stm (S * list fs_request) io_error A) : reads_only m → reads_only (map_error f m).
Proof.
  intros Hm s r s'. unfold map_error. destruct (m s) as [[a|e|] s1] eqn:E; intros [= <- <-]; by apply (Hm s _ s1 E).
Qed.

Lemma ldiff_creat flags m : Z.land m O_CREAT = 0 → Z.land (Z.ldiff flags O_CREAT) m = Z.land flags m.
Proof.
  intros Hm. apply Z.bits_inj'. intros i Hi. rewrite !Z.land_spec, Z.ldiff_spec.
  assert (Z.testbit (Z.land m O_CREAT) i = false) as Hb by (rewrite Hm; apply Z.bits_0). rewrite Z.land_spec in Hb.
  destruct (Z.testbit flags i), (Z.testbit O_CREAT i), (Z.testbit m i); done.
Qed.

Lemma reads_only_open {R : Type} flags (open_fn : Z → stm (S * list fs_request) io_error R) :
  (∀ flags, reading_flags flags → reads_only (open_fn flags)) → reads_only (rofs_open flags open_fn).
Proof.
  intros Hf. unfold rofs_open. destruct (_ <=? _); [apply reads_only_throw|].
  destruct (flag flags O_PATH) eqn:Hpath; [apply Hf; by left|].
  destruct (Z.eqb_spec (Z.land flags O_ACCMODE) O_RDONLY) as [Hacc|]; [|apply reads_only_throw]. simpl negb. cbv iota.
  destruct (contains flags O_EXCL) eqn:Hexcl; [apply reads_only_throw|].
  destruct (contains flags O_TMPFILE) eqn:Htmp; [apply reads_only_throw|].
  destruct (contains flags O_TRUNC) eqn:Htrunc; [apply reads_only_throw|].
  destruct (flag flags O_CREAT) eqn:Hcreat; simpl negb; cbv iota.
  - apply reads_only_map_error, Hf. right. unfold contains, flag in *.
    split_and!; try (by rewrite ldiff_creat by done).
    assert (Z.land (Z.ldiff flags O_CREAT) O_CREAT = 0) as ->; [|done].
    apply Z.bits_inj'. intros i Hi. rewrite Z.land_spec, Z.ldiff_spec, Z.bits_0. by destruct (Z.testbit flags i), (Z.testbit O_CREAT i).
  - apply Hf. by right.
Qed.

End readonly.



(** A [create] that is refused after the lookup keeps the reference: the entry
    is not in the reply, so that the guest never forgets it. *)
Example refused_create_keeps_reference :
  PassthroughFsRo (observing references two_files) _
    (FCreate (mkContext 0 0 1) 1 "a" 420 false O_WRONLY 0 Extensions_default) ((), []) =
    (Err erofs, ((), [Looked 2])).
Proof. reflexivity. Qed.
