(* ===== verification/Passthrough.v ===== *)
(** * The file system that passes requests through: inodes and names

    Models the helpers of [crates/virtiofsd-fork/src/passthrough/mod.rs] on
    Linux: opening, looking up and releasing inodes, the names of extended
    attributes, credentials ([passthrough/credentials.rs]), file handles
    ([passthrough/file_handle.rs]) and the migration information
    ([device_state/preserialization/mod.rs] and [proc_paths.rs]). *)

From stdpp Require Import base gmap list strings pretty.
From S2P Require Import Prelude HostFs Text Fuse FileSystem SoftIdMap XattrMap InodeStore PassthroughHost.
#[local] Open Scope Z_scope.

(** [format!("{fd}")] *)
Definition fd_name (fd : Z) : string := pretty fd.

(** [is_safe_inode] *)
Definition is_safe_inode (mode : Z) : bool :=
  let ty := Z.land mode S_IFMT in (ty =? S_IFREG) || (ty =? S_IFDIR).

Section passthrough.
Context {H : Type} `{Host H} (cfg : Config).
Abbreviation M := (stm (PassthroughFs H) io_error).

(** ** Opening *)

Definition open_relative_to (dir : Z) (pathname : string) (flags : Z) (mode : option Z) : M Z :=
  let flags := Z.lor (Z.lor O_NOFOLLOW O_CLOEXEC) flags in
  if has_openat2 cfg then checked (h_openat2 dir pathname flags (Z.land (default 0 mode) 4095))
  else checked (h_openat dir pathname flags (default 0 mode)).

(** [reopen_fd_through_proc], [reopen_fd] *)
Definition reopen_fd (fd flags : Z) : M Z :=
  r ← sys (h_openat (proc_self_fd cfg) (fd_name fd) (Z.ldiff flags O_NOFOLLOW) 0);
  if r <? 0 then fail_last else mret r.

Definition open_by_handle_at (h : OpenableFileHandle) (flags : Z) : M Z :=
  checked (h_open_by_handle_at (openable_mount_fd h) (fh_handle (openable_inner h)) flags).

Definition get_inode_data (i : Z) : M InodeData :=
  s ← get; match get_inode (inodes s) i with Some d => mret d | None => throw ebadf end.

(** [InodeData::get_file] *)
Definition get_file (d : InodeData) : M Z :=
  match file_or_handle d with
  | IsFile fd => mret fd
  | IsHandle h => open_by_handle_at h O_PATH
  | IsInvalid e => throw (mkIoError (io_kind e) None)
  end.

(** [InodeData::open_file] *)
Definition open_file (d : InodeData) (flags : Z) : M Z :=
  match file_or_handle d with
  | IsFile fd => if negb (is_safe_inode (mode d)) then throw ebadf else reopen_fd fd flags
  | IsHandle h => if negb (is_safe_inode (mode d)) then throw ebadf else open_by_handle_at h flags
  | IsInvalid e => throw (mkIoError (io_kind e) None)
  end.

Definition find_handle (handle i : Z) : M HandleData :=
  s ← get;
  match handles s !! handle with
  | Some hd => if hd_inode hd =? i then mret hd else throw ebadf
  | None => throw ebadf
  end.

(** [HandleDataFile::get] *)
Definition handle_fd (hd : HandleData) : M Z :=
  match hd_file hd with HandleFile fd => mret fd | HandleInvalid e => throw (mkIoError (io_kind e) None) end.

(** The flags [open_inode] opens with. *)
Definition open_inode_flags (wb : bool) (flags : Z) : Z :=
  let flags := if wb && (Z.land flags O_ACCMODE =? O_WRONLY) then Z.lor (Z.ldiff flags O_ACCMODE) O_RDWR else flags in
  let flags := if wb && flag flags O_APPEND then Z.ldiff flags O_APPEND else flags in
  if negb (allow_direct_io cfg) && flag flags O_DIRECT then Z.ldiff flags O_DIRECT else flags.

Definition open_inode (i flags : Z) : M Z :=
  d ← get_inode_data i;
  s ← get;
  open_file d (Z.lor (open_inode_flags (writeback s) flags) O_CLOEXEC).

(** [GuestFdSemaphore::allocate] *)
Definition is_guest_file (hd : HandleData) : bool := match hd_file hd with HandleFile _ => true | _ => false end.
Definition guest_files (s : PassthroughFs H) : Z :=
  Z.of_nat (size (filter (λ kv : Z * InodeData, is_file kv.2 = true) (data (inodes s))) +
            size (filter (λ kv : Z * HandleData, is_guest_file kv.2 = true) (handles s))).
Definition allocate (fd : Z) : M Z :=
  s ← get; if guest_fd_limit cfg - guest_files s <=? 0 then throw (from_raw_os_error ENFILE) else mret fd.

(** ** File handles *)

Definition statx (dir : Z) (path : option string) : M StatExt :=
  r ← sys_result (h_statx dir path);
  if se_mnt_id r =? 0 then
    o ← sys (h_name_to_handle_at dir (default "" path) AT_EMPTY_PATH);
    mret (match o with Some (_, mount_id) => mkStatExt (se_st r) (se_dev r) (as_u64 mount_id) | None => r end)
  else mret r.

(** [FileHandle::from_name_at_fail_hard] *)
Definition from_name_at_fail_hard (dir : Z) (path : string) : M FileHandle :=
  o ← sys (h_name_to_handle_at dir path AT_EMPTY_PATH);
  match o with
  | None => fail_last
  | Some (c_fh, mount_id) => mret (mkFileHandle (as_u64 mount_id) c_fh)
  end.

Definition EOPNOTSUPP : Z := 95.

(** [FileHandle::from_fd] *)
Definition from_fd (fd : Z) : M (option FileHandle) :=
  r ← try (from_name_at_fail_hard fd "");
  match r with
  | inr fh => mret (Some fh)
  | inl e => match raw_os_error e with
             | Some code => if (code =? EOPNOTSUPP) || (code =? EOVERFLOW) then mret None else throw e
             | None => throw e
             end
  end.

(** [SerializableFileHandle::from]: [as_bytes] is a slice of the array. *)
Definition serializable (fh : FileHandle) : outcome io_error SerializableFileHandle :=
  let c := fh_handle fh in
  if Z.of_nat (length (f_handle c)) <? handle_bytes c then Panic
  else Ok (mkSerializable (fh_mnt_id fh) (handle_type c) (take (Z.to_nat (handle_bytes c)) (f_handle c))).

Definition serializable_try_from (f : FileOrHandle) : M SerializableFileHandle :=
  match f with
  | IsHandle h => lift (serializable (openable_inner h))
  | IsFile fd => fh ← from_name_at_fail_hard fd ""; lift (serializable fh)
  | IsInvalid e => throw (mkIoError (io_kind e) None)
  end.

(** [get_file_handle_opt], without what it logs. *)
Definition get_file_handle_opt (fd : Z) (st : StatExt) : M (option FileHandle) :=
  match inode_file_handles cfg with
  | HandlesNever => mret None
  | mode =>
      handle ← from_fd fd;
      match handle, mode with
      | None, HandlesMandatory => throw (from_raw_os_error EOPNOTSUPP)
      | _, _ => mret handle
      end
  end.

Definition make_file_handle_openable (fh : FileHandle) : M OpenableFileHandle :=
  mount_fd ← sys_result (h_mount_fd (fh_mnt_id fh)); mret (mkOpenable fh mount_fd).

(** ** IDs *)

Definition map_id (f : Z → outcome MapError Z) (id : Z) : outcome io_error Z :=
  map_err (λ _, mkIoError PermissionDenied None) (f id).
Definition map_guest_uid : Z → outcome io_error Z := map_id (uid_map_guest cfg).
Definition map_guest_gid : Z → outcome io_error Z := map_id (gid_map_guest cfg).
Definition map_host_uid : Z → outcome io_error Z := map_id (uid_map_host cfg).
Definition map_host_gid : Z → outcome io_error Z := map_id (gid_map_host cfg).

(** ** Migration information *)

(** [InodeMigrationInfo::new_internal]; the location goes with an error. *)
Definition new_internal (l : InodeLocation) (handle : M SerializableFileHandle) : M InodeMigrationInfo :=
  if migration_verify_handles cfg then
    h ← on_error (drop_refs (strong_references (mkMigrationInfo l None))) handle;
    mret (mkMigrationInfo l (Some h))
  else mret (mkMigrationInfo l None).

(** [InodeMigrationInfo::new], which is given the strong reference [parent]. *)
Definition migration_info_new (parent : InodeData) (filename : string) (f : FileOrHandle) : M InodeMigrationInfo :=
  match migration_mode cfg with
  | FindPaths =>
      if is_utf8 filename then new_internal (InodePath parent filename) (serializable_try_from f)
      else _ ← drop_ref parent; throw other_io_error
  | FileHandles =>
      finally (drop_ref parent)
        (h ← serializable_try_from f;
         new_internal (HandleLocation h) (serializable_try_from f))
  end.

(** ** Looking up *)

Definition ids_of (st : StatExt) : InodeIds := mkInodeIds (st_ino (se_st st)) (se_dev st) (se_mnt_id st).

(** [claim_inode(..).ok()] *)
Definition claim_ok (handle : option FileHandle) (x : InodeIds) : M (option InodeData) :=
  r ← try (in_store (do_claim_inode handle x)); mret (match r with inr d => Some d | inl _ => None end).

Definition try_lookup_implementation (parent_data : InodeData) (name : string)
    : M (option InodeData * Z * StatExt * option FileHandle) :=
  p_file ← get_file parent_data;
  path_fd ← open_relative_to p_file name O_PATH None;
  st ← statx path_fd None;
  handle ← get_file_handle_opt path_fd st;
  existing ← claim_ok handle (ids_of st);
  mret (existing, path_fd, st, handle).

Definition try_lookup (parent_data : InodeData) (name : string) : M (option InodeData) :=
  '(existing, _, _, _) ← try_lookup_implementation parent_data name; mret existing.

(** [self.next_inode.fetch_add(1)] *)
Definition fetch_next_inode : M Z := λ s, (Ok (next_inode s), with_next_inode (as_u64 (next_inode s + 1)) s).

(** A new inode for what was found. *)
Definition insert_found (p : InodeData) (name : string) (path_fd : Z) (st : StatExt) (handle : option FileHandle)
    : M InodeData :=
  file_or_handle ← (match handle with
                    | Some h => o ← make_file_handle_openable h; mret (IsHandle o)
                    | None => fd ← allocate path_fd; mret (IsFile fd)
                    end);
  s ← get;
  mig_info ← (if track_migration_info s then
                parent_strong_ref ← in_store (new_with_data p);
                info ← migration_info_new parent_strong_ref name file_or_handle; mret (Some info)
              else mret None);
  i ← fetch_next_inode;
  in_store (get_or_insert (mkNewInode i file_or_handle 1 (ids_of st) (st_mode (se_st st)) mig_info)).

Definition do_lookup (parent : Z) (name : string) : M Entry :=
  p ← get_inode_data parent;
  '(existing_inode, path_fd, st, handle) ← try_lookup_implementation p name;
  s ← get;
  let attr_flags :=
    if (Z.land (st_mode (se_st st)) S_IFMT =? S_IFDIR) && announce_submounts s &&
       (negb (se_dev st =? ids_dev (ids p)) || negb (se_mnt_id st =? ids_mnt_id (ids p)))
    then ATTR_SUBMOUNT else 0 in
  i ← (match existing_inode with
       | Some d => mret d
       | None => insert_found p name path_fd st handle
       end);
  attr ← on_error (drop_ref i) (lift (try_with_flags (se_st st) attr_flags map_host_uid map_host_gid));
  mret (mkFuseEntry (inode i) 0 attr (attr_timeout cfg) (entry_timeout cfg)).

(** ** Paths for the migration *)

(** [get_path_by_fd]: the kinds of its errors that are told apart. *)
Inductive FdPathError := ReadLink | TooLong | InvalidCString | NotAFile | Deleted.
Inductive InodePathError := NoFd | PathError (e : FdPathError) | OutsideRoot.

(** The bytes of the link, which [readlinkat] has left in a zeroed buffer. *)
Definition link_target (ret : Z) (bytes : list Z) : outcome FdPathError (list Z) :=
  if ret =? PATH_MAX then Err TooLong
  else
    let target := take (Z.to_nat ret) bytes in
    if decide (0 ∈ target) then Err InvalidCString
    else if decide (58 ∈ default [] (head (split_char 47 target))) then Err NotAFile
    else if decide (chars " (deleted)" `suffix_of` target) then Err Deleted
    else Ok target.

Definition get_path (d : InodeData) : M (outcome InodePathError (list Z)) :=
  r ← try (get_file d);
  match r with
  | inl _ => mret (Err NoFd)
  | inr fd =>
      '(ret, bytes) ← sys (h_readlinkat (proc_self_fd cfg) (fd_name fd) PATH_MAX);
      if ret <? 0 then mret (Err (PathError ReadLink))
      else
        match link_target ret bytes with
        | Ok path => mret (if bool_decide (path = [47]) && negb (inode d =? ROOT_ID) then Err OutsideRoot else Ok path)
        | Err e => mret (Err (PathError e))
        | Panic => panic
        end
  end.

(** [relative_path]: the prefix and any slashes after it are cut off. *)
Fixpoint strip_slashes (path : list Z) : list Z :=
  match path with
  | c :: path' => if c =? 47 then strip_slashes path' else path
  | [] => []
  end.
Definition relative_path (path prefix : list Z) : option (list Z) :=
  if starts_with prefix path then Some (strip_slashes (drop (length prefix) path)) else None.

(** [link_count]: the calls it makes. *)
Definition link_count (d : InodeData) : M (option Z) :=
  r ← try (fd ← get_file d; statx fd None);
  mret (match r with inr st => Some (st_nlink (se_st st)) | inl _ => None end).

(** An element of the path: the inode is looked up, and gets its information if
    it has none.  The result is the strong reference to it; that to the parent
    is dropped or goes into the information. *)
Definition walk_element (parent : InodeData) (element : string) : M InodeData :=
  entry ← on_error (drop_ref parent) (do_lookup (inode parent) element);
  s ← get;
  match get_inode (inodes s) (entry_inode entry) with
  | None => panic
  | Some entry_data =>
      match info_of (inodes s) entry_data with
      | None =>
          info ← on_error (drop_ref entry_data) (migration_info_new parent element (file_or_handle entry_data));
          _ ← on_store (set_info entry_data (Some info));
          mret entry_data
      | Some _ => _ ← drop_ref parent; mret entry_data
      end
  end.

(** The elements of a relative path: a [.] is one only at its start. *)
Definition path_elements (s : string) : list string :=
  match split_on slash s with
  | "." :: _ => "." :: components s
  | _ => components s
  end.

Fixpoint walk_path (parent : InodeData) (elements : list string) : M InodeData :=
  match elements with
  | [] => mret parent
  | e :: elements' => parent ← walk_element parent e; walk_path parent elements'
  end.

(** [set_path_migration_info_from_proc_self_fd]; the caller does not look at the
    kind of the error. *)
Definition set_path_migration_info (d : InodeData) (shared_dir_path : list Z) : M unit :=
  r ← get_path d;
  match r with
  | Err (PathError Deleted) | Err OutsideRoot => _ ← link_count d; throw other_io_error
  | Err _ => throw other_io_error
  | Panic => panic
  | Ok abs_path =>
      match relative_path abs_path shared_dir_path with
      | None => _ ← link_count d; throw other_io_error
      | Some rel_path =>
          let rel_path := string_of_bytes rel_path in
          if negb (is_utf8 rel_path) then throw other_io_error
          else
            root ← in_store (get_strong ROOT_ID);
            last ← walk_path root (path_elements rel_path);
            _ ← drop_ref last;
            if inode last =? inode d then mret () else throw other_io_error
      end
  end.

Definition after_invalidating_path_refresh (d : InodeData) : M unit :=
  s ← get;
  match get_inode (inodes s) ROOT_ID with
  | None => throw other_io_error
  | Some root =>
      r ← get_path root;
      match r with
      | Ok shared_dir_path => set_path_migration_info d shared_dir_path
      | Err _ => throw other_io_error
      | Panic => panic
      end
  end.

(** [before_invalidating_path]: [self.try_lookup(..).ok().flatten()] *)
Definition before_invalidating_path (parent : InodeData) (filename : string) : M (option InodeData) :=
  r ← try (try_lookup parent filename); mret (match r with inr o => o | inl _ => None end).

(** [after_invalidating_path], which is given the strong reference; the old
    location is dropped at the end. *)
Definition after_invalidating_path (d : InodeData) : M unit :=
  s ← get;
  _ ← (match info_of (inodes s) d with
       | None => mret ()
       | Some info =>
           if negb (has_path info) then mret ()
           else
             _ ← on_store (set_info d None);
             _ ← try (after_invalidating_path_refresh d);
             drop_refs (strong_references info)
       end);
  drop_ref d.

(** [if let Some(inode) = invalidated { self.after_invalidating_path(inode) }] *)
Definition after_invalidating (o : option InodeData) : M unit :=
  match o with Some d => after_invalidating_path d | None => mret () end.

Definition drop_option (o : option InodeData) : M unit := drop_refs (option_list o).

Definition update_inode_migration_info (parent_data : InodeData) (filename : string) : M unit :=
  s ← get;
  if negb (track_migration_info s) then mret ()
  else
    o ← try_lookup parent_data filename;
    match o with
    | None => mret ()
    | Some d =>
        finally (drop_ref d)
          (parent_strong_ref ← in_store (new_with_data parent_data);
           s ← get;
           match info_of (inodes s) d with
           | Some info =>
               if negb (has_path info) then drop_ref parent_strong_ref
               else
                 _ ← on_store (set_info d None);
                 _ ← drop_refs (strong_references info);
                 info ← migration_info_new parent_strong_ref filename (file_or_handle d);
                 on_store (set_info d (Some info))
           | None =>
               info ← migration_info_new parent_strong_ref filename (file_or_handle d);
               on_store (set_info d (Some info))
           end)
    end.

(** ** Extended attributes *)

Definition acl_access : list Z := chars "system.posix_acl_access".
Definition acl_default : list Z := chars "system.posix_acl_default".

(** [acl_access.starts_with(name)]: the name is a prefix of one of them. *)
Definition block_xattr (acl : bool) (name : list Z) : bool :=
  if acl then false else starts_with name acl_access || starts_with name acl_default.

(** [.expect("unterminated mapping")] *)
Definition expect {E A : Type} (o : outcome E A) : outcome io_error A :=
  match o with Ok a => Ok a | _ => Panic end.

Definition map_client_xattrname (acl : bool) (name : string) : outcome io_error string :=
  let bs := bytes_of_string name in
  if block_xattr acl bs then Err (from_raw_os_error ENOTSUP)
  else
    match xattrmap cfg with
    | None => Ok name
    | Some map =>
        r ← expect (map_client_xattr map bs);
        match r with
        | Deny => Err (from_raw_os_error EPERM)
        | Unsupported_ => Err (from_raw_os_error ENOTSUP)
        | Pass new_name => Ok (string_of_bytes new_name)
        end
    end.

Definition map_server_names (acl : bool) (xattr_names : list Z) : outcome io_error (list Z) :=
  all_xattrs ← match xattrmap cfg with
               | Some map => expect (map_server_xattrlist map xattr_names)
               | None => Ok xattr_names
               end;
  Ok (concat ((λ n, n ++ [0]) <$> filter (λ n, block_xattr acl n = false) (list_names all_xattrs))).

Definition client_xattrname (name : string) : M string := s ← get; lift (map_client_xattrname (posix_acl s) name).

(** [switch_to_proc_self_fd] for the length of [m]. *)
Definition in_proc_self_fd {A : Type} (m : M A) : M A :=
  r ← sys (h_fchdir (proc_self_fd cfg));
  if r =? -1 then panic
  else finally (r ← sys (h_fchdir (orig_wd_fd cfg)); if r =? -1 then panic else mret ()) m.

(** A call whose result other than 0 is an error, read afterwards. *)
Definition zero_or_fail (f : H → Z * H) : M unit := r ← sys f; if r =? 0 then mret () else fail_last.

Definition clear_file_capabilities (fd : Z) (o_path : bool) : M unit :=
  match xattr_security_capability cfg with
  | None => mret ()
  | Some xattrname =>
      res ← (if o_path then in_proc_self_fd (sys (h_removexattr (fd_name fd) xattrname))
             else sys (h_fremovexattr fd xattrname));
      if res =? 0 then mret ()
      else
        eno ← last_os_error;
        match raw_os_error eno with
        | Some code => if (code =? ENODATA) || (code =? ENOTSUP) then mret () else throw eno
        | None => panic
        end
  end.

Definition clear_sgid (fd : Z) (o_path : bool) : M unit :=
  st ← statx fd None;
  let m := Z.ldiff (Z.land (st_mode (se_st st)) 4095) S_ISGID in
  _ ← (if o_path then checked (h_fchmodat (proc_self_fd cfg) (fd_name fd) m 0) else checked (h_fchmod fd m));
  mret ().

(** ** Credentials *)

Record UnixCredentialsGuard := mkCredentialsGuard { reset_uid : option Z; reset_gid : option Z; drop_sup_gid : bool }.

(** [UnixCredentials::set] *)
Definition credentials_set (uid gid : Z) (sup_gid : option Z) (keep_capability : bool) : M (option UnixCredentialsGuard) :=
  current_uid ← sys h_geteuid;
  current_gid ← sys h_getegid;
  let change_uid := negb (uid =? 0) && negb (uid =? current_uid) in
  let change_gid := negb (gid =? 0) && negb (gid =? current_gid) in
  _ ← (match sup_gid with
       | Some g => r ← sys (h_setsupgroup g); if r <? 0 then fail_last else mret ()
       | None => mret ()
       end);
  _ ← (if change_gid then r ← sys (h_seteffgid gid); if r <? 0 then fail_last else mret () else mret ());
  _ ← (if change_uid then r ← sys (h_seteffuid uid); if r <? 0 then fail_last else mret () else mret ());
  _ ← (if change_uid && keep_capability then ignore (sys_result (h_add_cap "DAC_OVERRIDE")) else mret ());
  if negb change_uid && negb change_gid then mret None
  else mret (Some (mkCredentialsGuard (if change_uid then Some current_uid else None)
                     (if change_gid then Some current_gid else None) (bool_decide (is_Some sup_gid)))).

(** The guard goes out of scope; failures are logged. *)
Definition credentials_drop (g : option UnixCredentialsGuard) : M unit :=
  match g with
  | None => mret ()
  | Some g =>
      _ ← (match reset_uid g with Some uid => _ ← sys (h_seteffuid uid); mret () | None => mret () end);
      _ ← (match reset_gid g with Some gid => _ ← sys (h_seteffgid gid); mret () | None => mret () end);
      if drop_sup_gid g then _ ← sys h_dropsupgroups; mret () else mret ()
  end.

Definition unix_credentials_guard (ctx : Context) (ext : Extensions) : M (option UnixCredentialsGuard) :=
  host_uid ← lift (map_guest_uid (ctx_uid ctx));
  host_gid ← lift (map_guest_gid (ctx_gid ctx));
  supp_gid ← (match ext_sup_gid ext with
              | Some gid => g ← lift (map_guest_gid gid); mret (Some g)
              | None => mret None
              end);
  s ← get;
  credentials_set host_uid host_gid supp_gid (negb (sup_group_extension s)).

Definition with_credentials {A : Type} (ctx : Context) (ext : Extensions) (m : M A) : M A :=
  g ← unix_credentials_guard ctx ext;
  finally (credentials_drop g) m.

(** [self.posix_acl.load(..).then(|| ScopedUmask::new(umask))] *)
Definition with_umask {A : Type} (umask : Z) (m : M A) : M A :=
  s ← get;
  if posix_acl s then
    old ← sys (h_umask umask);
    finally (_ ← sys (h_umask old); mret ()) m
  else m.

(** [drop_effective_cap("FSETID")?] if it is asked for. *)
Definition without_fsetid {A : Type} (cond : bool) (m : M A) : M A :=
  if cond then
    dropped ← sys_result (A := bool) (h_drop_effective_cap "FSETID");
    if (dropped : bool) then
      finally (λ s, match sys_result (h_restore_cap "FSETID") s with
                    | (Ok _, s') => (Ok (), s')
                    | (_, s') => (Panic, s')
                    end) m
    else m
  else m.

(** ** Opening files *)

Definition fetch_next_handle : M Z := λ s,
  (Ok (next_handle s), with_handles (handles s) (as_u64 (next_handle s + 1)) s).
Definition insert_handle (handle : Z) (hd : HandleData) : M unit :=
  modify (λ s, with_handles (<[handle := hd]> (handles s)) (next_handle s) s).

(** [HandleMigrationInfo::new] *)
Definition handle_migration_flags (flags : Z) : Z := Z.ldiff flags (Z.lor (Z.lor O_CREAT O_EXCL) O_TRUNC).

Definition open_options (os : list OpenOption) : Z := foldr (λ o n, Z.lor (OpenOption_bits o) n) 0 os.

Definition do_open_options (flags : Z) : Z :=
  let dir := flag flags O_DIRECTORY in
  match cache_policy cfg with
  | CacheNever => open_options (if dir then [] else [DIRECT_IO])
  | CacheMetadata => open_options (if dir then [CACHE_DIR; KEEP_CACHE] else [DIRECT_IO])
  | CacheAlways => open_options (KEEP_CACHE :: if dir then [CACHE_DIR] else [])
  | CacheAuto => 0
  end.

Definition do_open (i : Z) (kill_priv : bool) (flags : Z) : M (option Z * Z) :=
  let flags := Z.ldiff flags O_APPEND in
  let flags := if clean_noatime cfg then Z.ldiff flags O_NOATIME else flags in
  file ← without_fsetid (killpriv_v2 cfg && kill_priv) (open_inode i (as_i32 flags));
  _ ← (if flag flags O_TRUNC then clear_file_capabilities file false else mret ());
  handle ← fetch_next_handle;
  fd ← allocate file;
  _ ← insert_handle handle (mkHandleData i (HandleFile fd) (handle_migration_flags (as_i32 flags)));
  mret (Some handle, do_open_options flags).

Definition do_release (i handle : Z) : M unit :=
  s ← get;
  match handles s !! handle with
  | Some hd =>
      if hd_inode hd =? i then put (with_handles (delete handle (handles s)) (next_handle s) s) else throw ebadf
  | None => throw ebadf
  end.

Definition do_getattr (i : Z) : M (Attr * Duration) :=
  d ← get_inode_data i;
  fd ← get_file d;
  st ← statx fd None;
  attr ← lift (try_from_stat64 (se_st st) map_host_uid map_host_gid);
  mret (attr, attr_timeout cfg).

Definition do_unlink (parent : Z) (name : string) (flags : Z) : M unit :=
  d ← get_inode_data parent;
  parent_file ← get_file d;
  invalidated ← before_invalidating_path d name;
  res ← sys (h_unlinkat parent_file name flags);
  _ ← after_invalidating invalidated;
  if res =? 0 then mret () else fail_last.

End passthrough.
