(* ===== verification/PassthroughOps.v ===== *)
(** * The file system that passes requests through: its methods

    Models [impl FileSystem for PassthroughFs] of
    [crates/virtiofsd-fork/src/passthrough/mod.rs] (on Linux), one definition
    per method, as a [FileSystem]. *)

From stdpp Require Import base gmap list strings.
From S2P Require Import Prelude Text Fuse FileSystem SoftIdMap XattrMap InodeStore ReadDir PassthroughHost Passthrough.
#[local] Open Scope Z_scope.

(** The flags of [setattr]. *)
Module Valid.
Definition MODE : Z := Z.shiftl 1 0.
Definition UID : Z := Z.shiftl 1 1.
Definition GID : Z := Z.shiftl 1 2.
Definition SIZE : Z := Z.shiftl 1 3.
Definition ATIME : Z := Z.shiftl 1 4.
Definition MTIME : Z := Z.shiftl 1 5.
Definition ATIME_NOW : Z := Z.shiftl 1 7.
Definition MTIME_NOW : Z := Z.shiftl 1 8.
Definition KILL_SUIDGID : Z := Z.shiftl 1 11.
End Valid.

Section ops.
Context {H : Type} `{Host H} (cfg : Config).
Abbreviation M := (stm (PassthroughFs H) io_error).

(** ** Creating *)

Definition do_create (ctx : Context) (parent_file : Z) (name : string) (mode flags umask : Z) (ext : Extensions) : M Z :=
  fd ← with_credentials cfg ctx ext
         (with_umask umask
            (open_relative_to cfg parent_file name (Z.lor (Z.lor (as_i32 flags) O_CREAT) O_EXCL) (Some mode)));
  match ext_secctx ext with
  | None => mret fd
  | Some secctx =>
      xattr_name ← on_error (_ ← sys (h_unlinkat parent_file name 0); mret ()) (client_xattrname cfg (sec_name secctx));
      ret ← sys (h_fsetxattr fd xattr_name (sec_secctx secctx) 0);
      if ret =? 0 then mret fd
      else _ ← sys (h_unlinkat parent_file name 0); fail_last
  end.

Definition do_mknod_mkdir_symlink_secctx (parent_file : Z) (name : string) (secctx : SecContext) : M unit :=
  xattr_name ← client_xattrname cfg (sec_name secctx);
  path_fd ← open_relative_to cfg parent_file name O_PATH None;
  '(res, res_err) ← in_proc_self_fd cfg
     (res ← sys (h_setxattr (fd_name path_fd) xattr_name (sec_secctx secctx) 0);
      res_err ← last_os_error;
      mret (res, res_err));
  if res =? 0 then mret () else throw res_err.

(** [if let Some(secctx) = extensions.secctx]: the security context of a node
    that was just made; the node goes if it cannot be set. *)
Definition set_secctx_or_unlink (parent_file : Z) (name : string) (unlink_flags : Z) (ext : Extensions) : M unit :=
  match ext_secctx ext with
  | None => mret ()
  | Some secctx =>
      on_error (_ ← sys (h_unlinkat parent_file name unlink_flags); mret ())
        (do_mknod_mkdir_symlink_secctx parent_file name secctx)
  end.

(** What [mkdir], [mknod] and [symlink] share: the call, between the two parts
    of the invalidation of the path, then the security context and the lookup. *)
Definition make_node (parent : Z) (name : string) (unlink_flags : Z) (ext : Extensions) (call : Z → M Z) : M Entry :=
  d ← get_inode_data parent;
  parent_file ← get_file d;
  invalidated ← before_invalidating_path cfg d name;
  res ← on_error (drop_option invalidated) (call parent_file);
  _ ← after_invalidating cfg invalidated;
  if res <? 0 then fail_last
  else
    _ ← set_secctx_or_unlink parent_file name unlink_flags ext;
    do_lookup cfg parent name.

Definition fs_mkdir (ctx : Context) (parent : Z) (name : string) (mode umask : Z) (ext : Extensions) : M Entry :=
  make_node parent name AT_REMOVEDIR ext (λ parent_file,
    with_credentials cfg ctx ext (with_umask umask (sys (h_mkdirat parent_file name mode)))).

Definition fs_mknod (ctx : Context) (parent : Z) (name : string) (mode rdev umask : Z) (ext : Extensions) : M Entry :=
  make_node parent name 0 ext (λ parent_file,
    with_credentials cfg ctx ext (with_umask umask (sys (h_mknodat parent_file name mode rdev)))).

Definition fs_symlink (ctx : Context) (linkname : string) (parent : Z) (name : string) (ext : Extensions) : M Entry :=
  make_node parent name 0 ext (λ parent_file,
    with_credentials cfg ctx ext (sys (h_symlinkat linkname parent_file name))).

Definition create_options : Z :=
  match cache_policy cfg with
  | CacheNever | CacheMetadata => open_options [DIRECT_IO]
  | CacheAlways => open_options [KEEP_CACHE]
  | CacheAuto => 0
  end.

Definition fs_create (ctx : Context) (parent : Z) (name : string) (mode : Z) (kill_priv : bool) (flags umask : Z)
    (ext : Extensions) : M (Entry * option Z * Z) :=
  d ← get_inode_data parent;
  parent_file ← get_file d;
  let create_flags := Z.ldiff flags O_APPEND in
  r ← try (do_create ctx parent_file name mode create_flags umask ext);
  '(entry, handle) ←
    (match r with
     | inl last_error =>
         match io_kind last_error with
         | AlreadyExists =>
             if flag flags O_EXCL then throw last_error
             else
               entry ← do_lookup cfg parent name;
               '(handle, _) ← do_open cfg (entry_inode entry) kill_priv flags;
               match handle with
               | Some handle => mret (entry, handle)
               | None => throw ebadf
               end
         | _ => throw last_error
         end
     | inr fd =>
         entry ← do_lookup cfg parent name;
         handle ← fetch_next_handle;
         fd ← allocate cfg fd;
         _ ← insert_handle handle
               (mkHandleData (entry_inode entry) (HandleFile fd) (handle_migration_flags (as_i32 flags)));
         mret (entry, handle)
     end);
  mret (entry, Some handle, create_options).

Definition fs_link (i newparent : Z) (newname : string) : M Entry :=
  d ← get_inode_data i;
  new_inode ← get_inode_data newparent;
  inode_file ← get_file d;
  newparent_file ← get_file new_inode;
  invalidated ← before_invalidating_path cfg new_inode newname;
  res ← sys (h_linkat (proc_self_fd cfg) (fd_name inode_file) newparent_file newname AT_SYMLINK_FOLLOW);
  _ ← after_invalidating cfg invalidated;
  if res =? 0 then do_lookup cfg newparent newname else fail_last.

Definition fs_rename (olddir : Z) (oldname : string) (newdir : Z) (newname : string) (flags : Z) : M unit :=
  old_inode ← get_inode_data olddir;
  new_inode ← get_inode_data newdir;
  old_file ← get_file old_inode;
  new_file ← get_file new_inode;
  invalidated ← before_invalidating_path cfg new_inode newname;
  res ← sys (h_renameat2 old_file oldname new_file newname flags);
  _ ← after_invalidating cfg invalidated;
  if negb (res =? 0) then fail_last
  else ignore (update_inode_migration_info cfg new_inode newname).

(** ** The mount *)

Definition DONT_MASK : Z := Z.shiftl 1 6.

Definition open_root_node : M unit :=
  path_fd ← (r ← sys (h_openat AT_FDCWD (root_dir cfg) (Z.lor (Z.lor O_PATH O_NOFOLLOW) O_CLOEXEC) 0);
             if r <? 0 then fail_last else mret r);
  st ← statx path_fd None;
  handle ← get_file_handle_opt cfg path_fd st;
  file_or_handle ← (match handle with
                    | Some h => o ← make_file_handle_openable h; mret (IsHandle o)
                    | None => fd ← allocate cfg path_fd; mret (IsFile fd)
                    end);
  r ← try (new_internal cfg RootNode (serializable_try_from file_or_handle));
  let migration_info := match r with inr info => Some info | inl _ => None end in
  in_store (new_inode (mkNewInode ROOT_ID file_or_handle 2 (ids_of st) (st_mode (se_st st)) migration_info)).

Definition fs_destroy : M unit :=
  modify (λ s, with_options false false false false
                 (with_inodes (clear (inodes s)) (with_handles ∅ (next_handle s) s))).

Definition fs_init (capable : Z) : M Z :=
  _ ← fs_destroy;
  _ ← open_root_node;
  s ← get;
  let opts := if readdirplus cfg then Z.lor FsOptions.DO_READDIRPLUS FsOptions.READDIRPLUS_AUTO else 0 in
  let wb := cfg_writeback cfg && contains capable FsOptions.WRITEBACK_CACHE in
  let opts := if wb then Z.lor opts FsOptions.WRITEBACK_CACHE else opts in
  let sub := cfg_announce_submounts cfg && contains capable FsOptions.SUBMOUNTS in
  _ ← put (with_options wb sub (posix_acl s) (sup_group_extension s) s);
  let opts := if killpriv_v2 cfg && contains capable FsOptions.HANDLE_KILLPRIV_V2
              then Z.lor opts FsOptions.HANDLE_KILLPRIV_V2 else opts in
  let acl_required_flags := Z.lor (Z.lor FsOptions.POSIX_ACL DONT_MASK) FsOptions.SETXATTR_EXT in
  if cfg_posix_acl cfg && negb (contains capable acl_required_flags) then throw (from_raw_os_error EPROTO)
  else
    let opts := if cfg_posix_acl cfg then Z.lor opts acl_required_flags else opts in
    _ ← modify (λ s, with_options (writeback s) (announce_submounts s) (cfg_posix_acl cfg || posix_acl s)
                       (sup_group_extension s) s);
    if security_label cfg && negb (contains capable FsOptions.SECURITY_CTX) then throw (from_raw_os_error EPROTO)
    else
      let opts := if security_label cfg then Z.lor opts FsOptions.SECURITY_CTX else opts in
      let opts := if allow_mmap cfg then Z.lor opts FsOptions.DIRECT_IO_ALLOW_MMAP else opts in
      _ ← modify (λ s, with_options (writeback s) (announce_submounts s) (posix_acl s)
                         (contains capable FsOptions.CREATE_SUPP_GROUP || sup_group_extension s) s);
      mret opts.

Definition fs_statfs (i : Z) : M statvfs64 :=
  d ← get_inode_data i;
  fd ← get_file d;
  '(res, out) ← sys (h_fstatvfs64 fd);
  if res =? 0 then mret out else fail_last.

(** ** Attributes *)

(** What [setattr] works on: an open handle, or a path below [/proc/self/fd]. *)
Inductive AttrTarget := TargetHandle (fd : Z) | TargetProcPath (pathname : string).

(** A call whose negative result is an error, read afterwards. *)
Definition negative_fails (f : H → Z * H) : M unit := res ← sys f; if res <? 0 then fail_last else mret ().

Definition setattr_mode (target : AttrTarget) (mode : Z) : M unit :=
  negative_fails (match target with
                  | TargetHandle fd => h_fchmod fd mode
                  | TargetProcPath p => h_fchmodat (proc_self_fd cfg) p mode 0
                  end).

Definition setattr_owner (inode_file : Z) (attr : SetattrIn) (valid : Z) : M unit :=
  uid ← lift (if contains valid Valid.UID then map_guest_uid cfg (SetattrIn_uid attr) else Ok (2 ^ 32 - 1));
  gid ← lift (if contains valid Valid.GID then map_guest_gid cfg (SetattrIn_gid attr) else Ok (2 ^ 32 - 1));
  _ ← clear_file_capabilities cfg inode_file true;
  negative_fails (h_fchownat inode_file "" uid gid (Z.lor AT_EMPTY_PATH AT_SYMLINK_NOFOLLOW)).

Definition setattr_size (target : AttrTarget) (rdwr_inode_file : bool) (inode_file : Z) (attr : SetattrIn) (valid : Z) : M unit :=
  fd ← (match target with
        | TargetHandle fd => mret fd
        | _ => if rdwr_inode_file then mret inode_file else panic
        end);
  without_fsetid (killpriv_v2 cfg && contains valid Valid.KILL_SUIDGID)
    (_ ← clear_file_capabilities cfg fd false;
     negative_fails (h_ftruncate fd (as_i64 (SetattrIn_size attr)))).

(** One of the two times. *)
Definition setattr_timespec (valid set now sec nsec : Z) : timespec :=
  if contains valid now then mkTimespec 0 UTIME_NOW
  else if contains valid set then mkTimespec (as_i64 sec) nsec
  else mkTimespec 0 UTIME_OMIT.

Definition setattr_times (target : AttrTarget) (attr : SetattrIn) (valid : Z) : M unit :=
  let atime := setattr_timespec valid Valid.ATIME Valid.ATIME_NOW (SetattrIn_atime attr) (SetattrIn_atimensec attr) in
  let mtime := setattr_timespec valid Valid.MTIME Valid.MTIME_NOW (SetattrIn_mtime attr) (SetattrIn_mtimensec attr) in
  negative_fails (match target with
                  | TargetHandle fd => h_futimens fd atime mtime
                  | TargetProcPath p => h_utimensat (proc_self_fd cfg) p atime mtime 0
                  end).

Definition fs_setattr (i : Z) (attr : SetattrIn) (handle : option Z) (valid : Z) : M (Attr * Duration) :=
  inode_data ← get_inode_data i;
  let rdwr_inode_file := bool_decide (handle = None) && flag valid Valid.SIZE in
  inode_file ← (if rdwr_inode_file then open_file cfg inode_data (Z.lor O_NONBLOCK O_RDWR) else get_file inode_data);
  target ← (match handle with
            | Some handle => hd ← find_handle handle i; fd ← handle_fd hd; mret (TargetHandle fd)
            | None => mret (TargetProcPath (fd_name inode_file))
            end);
  _ ← (if contains valid Valid.MODE then setattr_mode target (SetattrIn_mode attr) else mret ());
  _ ← (if flag valid (Z.lor Valid.UID Valid.GID) then setattr_owner inode_file attr valid else mret ());
  _ ← (if contains valid Valid.SIZE then setattr_size target rdwr_inode_file inode_file attr valid else mret ());
  _ ← (if flag valid (Z.lor Valid.ATIME Valid.MTIME) then setattr_times target attr valid else mret ());
  do_getattr cfg i.

(** The permission checks of [access]; [granted] says that a class of users
    with the bit in its mask may. *)
Definition denied (root_ok uid_ok gid_ok : bool) (st_mode user group other : Z) : bool :=
  negb root_ok && (negb uid_ok || (Z.land st_mode user =? 0)) && (negb gid_ok || (Z.land st_mode group =? 0)) &&
  (Z.land st_mode other =? 0).

Definition access_denied (ctx : Context) (mode st_mode st_uid st_gid : Z) : bool :=
  let root := ctx_uid ctx =? 0 in
  let uid_ok := st_uid =? ctx_uid ctx in
  let gid_ok := st_gid =? ctx_gid ctx in
  (flag mode 4 && denied root uid_ok gid_ok st_mode 256 32 4) ||
  (flag mode 2 && denied root uid_ok gid_ok st_mode 128 16 2) ||
  (flag mode 1 && denied (root && flag st_mode 73) uid_ok gid_ok st_mode 64 8 1).

Definition fs_access (ctx : Context) (i mask : Z) : M unit :=
  d ← get_inode_data i;
  fd ← get_file d;
  st ← statx fd None;
  let mode := Z.land mask 7 in
  if mode =? 0 then mret ()
  else
    st_uid ← lift (map_host_uid cfg (st_uid (se_st st)));
    st_gid ← lift (map_host_gid cfg (st_gid (se_st st)));
    if access_denied ctx mode (st_mode (se_st st)) st_uid st_gid then throw (from_raw_os_error EACCES) else mret ().

(** ** Data *)

(** [buf.resize(n, 0)] of what a call left in the buffer. *)
Definition resized (n : Z) (bytes : list Z) : list Z := take (Z.to_nat n) (bytes ++ replicate (Z.to_nat n) 0).

Definition fs_readlink (i : Z) : M (list Z) :=
  d ← get_inode_data i;
  fd ← get_file d;
  '(res, buf) ← sys (h_readlinkat fd "" PATH_MAX);
  if res <? 0 then fail_last else mret (resized res buf).

Definition fs_readdir (i handle size offset : Z) : M (list DirEntry) :=
  if size =? 0 then mret []
  else
    hd ← find_handle handle i;
    fd ← handle_fd hd;
    res ← sys (h_lseek fd (as_i64 offset) 0);
    if res <? 0 then fail_last
    else
      '(n, buf) ← sys (h_getdents fd size);
      if n <? 0 then fail_last
      else lift (rd_entries (Z.to_nat n) (rd_new (resized size buf) (Z.to_nat n))).

Definition fs_read (i handle : Z) (w : list Z) (size offset : Z) : M (list Z) :=
  hd ← find_handle handle i;
  fd ← handle_fd hd;
  sys_result (h_preadv fd w size offset).

Definition fs_write (i handle : Z) (r : list (list Z)) (size offset : Z) (delayed_write kill_priv : bool) (flags : Z) : M Z :=
  hd ← find_handle handle i;
  fd ← handle_fd hd;
  without_fsetid (killpriv_v2 cfg && kill_priv)
    (_ ← clear_file_capabilities cfg fd false;
     sys_result (h_pwritev fd r size offset (negb delayed_write && flag flags O_APPEND))).

Definition fs_flush (i handle : Z) : M unit :=
  hd ← find_handle handle i;
  fd ← handle_fd hd;
  newfd ← sys (h_dup fd);
  if newfd <? 0 then fail_last else negative_fails (h_close newfd).

Definition fs_fsync (i : Z) (datasync : bool) (handle : Z) : M unit :=
  hd ← find_handle handle i;
  fd ← handle_fd hd;
  zero_or_fail (if datasync then h_fdatasync fd else h_fsync fd).

Definition fs_fallocate (i handle mode offset length : Z) : M unit :=
  hd ← find_handle handle i;
  fd ← handle_fd hd;
  zero_or_fail (h_fallocate fd (as_i32 mode) (as_i64 offset) (as_i64 length)).

Definition fs_lseek (i handle offset whence : Z) : M Z :=
  hd ← find_handle handle i;
  fd ← handle_fd hd;
  res ← sys (h_lseek fd (as_i64 offset) (as_i32 whence));
  if res <? 0 then fail_last else mret (as_u64 res).

Definition fs_copyfilerange (inode_in handle_in offset_in inode_out handle_out offset_out len flags : Z) : M Z :=
  data_in ← find_handle handle_in inode_in;
  fd_in ← handle_fd data_in;
  data_out ← find_handle handle_out inode_out;
  fd_out ← handle_fd data_out;
  res ← sys (h_copy_file_range fd_in (as_i64 offset_in) fd_out (as_i64 offset_out) len flags);
  if res <? 0 then fail_last else mret res.

Definition fs_syncfs (i : Z) : M unit :=
  fd ← open_inode cfg i (Z.lor O_RDONLY O_NOFOLLOW);
  zero_or_fail (h_syncfs fd).

(** ** Extended attributes *)

Definition xattr_open_flags : Z := Z.lor O_RDONLY O_NONBLOCK.

(** The attributes of a regular file or directory are reached through a new
    descriptor, those of any other file below [/proc/self/fd]. *)
Definition xattr_call {A : Type} (i : Z) (d : InodeData) (prepare : Z → bool → M unit) (by_fd : Z → H → A * H)
    (by_path : string → H → A * H) : M A :=
  if is_safe_inode (mode d) then
    file ← open_inode cfg i xattr_open_flags;
    _ ← prepare file false;
    sys (by_fd file)
  else
    file ← get_file d;
    _ ← prepare file true;
    in_proc_self_fd cfg (sys (by_path (fd_name file))).

Definition no_preparation (fd : Z) (o_path : bool) : M unit := mret ().

Definition SETXATTR_ACL_KILL_SGID : Z := 1.

Definition fs_setxattr (i : Z) (name : string) (value : list Z) (flags extra_flags : Z) : M unit :=
  if negb (cfg_xattr cfg) then throw (from_raw_os_error ENOSYS)
  else
    d ← get_inode_data i;
    name ← client_xattrname cfg name;
    if negb (is_utf8 name) then panic
    else
      s ← get;
      let must_clear_sgid := posix_acl s && contains extra_flags SETXATTR_ACL_KILL_SGID &&
                             bool_decide (name = "system.posix_acl_access") in
      res ← xattr_call i d
              (λ fd o_path,
                _ ← clear_file_capabilities cfg fd o_path;
                if must_clear_sgid then clear_sgid cfg fd o_path else mret ())
              (λ fd, h_fsetxattr fd name value (as_i32 flags))
              (λ procname, h_setxattr procname name value (as_i32 flags));
      if res =? 0 then mret () else fail_last.

(** [map_err]: a denied name does not exist. *)
Definition denied_is_nodata (e : io_error) : io_error :=
  match io_kind e with PermissionDenied => from_raw_os_error ENODATA | _ => e end.

Definition fs_getxattr (i : Z) (name : string) (size : Z) : M GetxattrReply :=
  if negb (cfg_xattr cfg) then throw (from_raw_os_error ENOSYS)
  else
    s ← get;
    name ← lift (map_err denied_is_nodata (map_client_xattrname cfg (posix_acl s) name));
    d ← get_inode_data i;
    '(res, buf) ← xattr_call i d no_preparation (λ fd, h_fgetxattr fd name size) (λ procname, h_getxattr procname name size);
    if res <? 0 then fail_last
    else if size =? 0 then mret (XattrCount (as_u32 res))
    else mret (Value (resized res buf)).

Definition fs_listxattr (i size : Z) : M ListxattrReply :=
  if negb (cfg_xattr cfg) then throw (from_raw_os_error ENOSYS)
  else
    d ← get_inode_data i;
    '(res, buf) ← xattr_call i d no_preparation (λ fd, h_flistxattr fd size) (λ procname, h_listxattr procname size);
    if res <? 0 then fail_last
    else if size =? 0 then mret (NamesCount (as_u32 res))
    else
      s ← get;
      names ← lift (map_server_names cfg (posix_acl s) (resized res buf));
      mret (Names names).

Definition fs_removexattr (i : Z) (name : string) : M unit :=
  if negb (cfg_xattr cfg) then throw (from_raw_os_error ENOSYS)
  else
    d ← get_inode_data i;
    name ← client_xattrname cfg name;
    res ← xattr_call i d no_preparation (λ fd, h_fremovexattr fd name) (λ procname, h_removexattr procname name);
    if res =? 0 then mret () else fail_last.

(** ** The file system *)

Definition Passthrough : FileSystem (PassthroughFs H) := λ A op,
  match op in operation A return M A with
  | FInit capable => fs_init capable
  | FDestroy => fs_destroy
  | FLookup _ parent name => do_lookup cfg parent name
  | FForget _ i count => on_store (forget_one i count)
  | FBatchForget _ requests => on_store (forget_many requests)
  | FGetattr _ i _ => do_getattr cfg i
  | FSetattr _ i attr handle valid => fs_setattr i attr handle valid
  | FReadlink _ i => fs_readlink i
  | FSymlink ctx linkname parent name ext => fs_symlink ctx linkname parent name ext
  | FMknod ctx parent name mode rdev umask ext => fs_mknod ctx parent name mode rdev umask ext
  | FMkdir ctx parent name mode umask ext => fs_mkdir ctx parent name mode umask ext
  | FUnlink _ parent name => do_unlink cfg parent name 0
  | FRmdir _ parent name => do_unlink cfg parent name AT_REMOVEDIR
  | FRename _ olddir oldname newdir newname flags => fs_rename olddir oldname newdir newname flags
  | FLink _ i newparent newname => fs_link i newparent newname
  | FOpen _ i kill_priv flags => do_open cfg i kill_priv flags
  | FCreate ctx parent name mode kill_priv flags umask ext => fs_create ctx parent name mode kill_priv flags umask ext
  | FRead _ i handle w size offset _ _ => fs_read i handle w size offset
  | FWrite _ i handle r size offset _ delayed_write kill_priv flags =>
      fs_write i handle r size offset delayed_write kill_priv flags
  | FFlush _ i handle _ => fs_flush i handle
  | FFsync _ i datasync handle => fs_fsync i datasync handle
  | FFallocate _ i handle mode offset length => fs_fallocate i handle mode offset length
  | FRelease _ i _ handle _ _ _ => do_release i handle
  | FStatfs _ i => fs_statfs i
  | FSetxattr _ i name value flags extra_flags => fs_setxattr i name value flags extra_flags
  | FGetxattr _ i name size => fs_getxattr i name size
  | FListxattr _ i size => fs_listxattr i size
  | FRemovexattr _ i name => fs_removexattr i name
  | FOpendir _ i flags => do_open cfg i false (Z.lor flags O_DIRECTORY)
  | FReaddir _ i handle size offset => fs_readdir i handle size offset
  | FFsyncdir _ i datasync handle => fs_fsync i datasync handle
  | FReleasedir _ i _ handle => do_release i handle
  | FAccess ctx i mask => fs_access ctx i mask
  | FLseek _ i handle offset whence => fs_lseek i handle offset whence
  | FCopyfilerange _ inode_in handle_in offset_in inode_out handle_out offset_out len flags =>
      fs_copyfilerange inode_in handle_in offset_in inode_out handle_out offset_out len flags
  | FSyncfs _ i => fs_syncfs i
  | FGetlk | FSetlk | FSetlkw | FIoctl | FBmap | FPoll | FNotifyReply | FTmpfile => throw (from_raw_os_error ENOSYS)
  end.

End ops.
