(* ===== verification/PassthroughRefs.v ===== *)
(** * References of the passthrough file system

    Every method of the passthrough file system, seen from the inode store: which
    strong references it takes and drops, and which lookups it hands to the
    guest.  The specifications compose as the methods do. *)

From stdpp Require Import base gmap list strings fin_maps.
From S2P Require Import Prelude HostFs Text Fuse FileSystem SoftIdMap XattrMap InodeStore InodeRefs InodeLife ReadDir PassthroughHost Passthrough PassthroughOps.
#[local] Open Scope Z_scope.

(** ** Worlds up to order *)

Lemma sound_equiv st h l a h' l' :
  h ≡ₚ h' → (∀ i, l i = l' i) → sound (mkWorld st h l a) → sound (mkWorld st h' l' a).
Proof.
  intros Hh Hl Hw. split; simpl.
  - apply Hw.
  - eapply counted_ext; [|apply (so_counted _ Hw)]. intros i. unfold outside. simpl.
    by rewrite Hl, (refs_to_perm _ _ i Hh).
  - intros i. rewrite <- Hl. apply (so_lookups _ Hw).
  - intros d Hd. apply (so_held _ Hw). simpl. by rewrite Hh.
  - apply (so_arcs _ Hw).
Qed.

Lemma sound_arcs st h l a a' : a' ⊆ a → sound (mkWorld st h l a) → sound (mkWorld st h l a').
Proof. intros Ha Hw. split; try apply Hw. simpl. intros d Hd. apply (so_arcs _ Hw). by apply Ha. Qed.

(** ** Specifications *)

Section specs.
Context {H : Type}.
Abbreviation M := (stm (PassthroughFs H) io_error).

(** A computation starts with the strong references [c] and ends with others, as
    [Q] says of its result; other references, and other [Arc]s than [a], are
    framed. *)
Definition post (A : Type) : Type := outcome io_error A → list InodeData → Prop.

Definition spec {A : Type} (s : PassthroughFs H) (a c : list InodeData) (m : M A) (Q : post A) : Prop :=
  ∀ h l a', a ⊆ a' → sound (mkWorld (inodes s) (c ++ h) l a') →
  match m s with
  | (Panic, _) => True
  | (r, s') => ∃ c', Q r c' ∧ sound (mkWorld (inodes s') (c' ++ h) l a')
  end.

(** A result comes with the references that [R] says of it; an error with none. *)
Definition grants {A : Type} (R : A → list InodeData → Prop) (c : list InodeData) : post A := λ r c',
  match r with Ok v => ∃ x, R v x ∧ c' = x ++ c | _ => c' = c end.
Definition got {A : Type} (f : A → list InodeData) : list InodeData → post A := grants (λ v x, x = f v).
Definition same {A : Type} : list InodeData → post A := got (λ _, []).

Lemma got_ok {A : Type} (f : A → list InodeData) c v c' : got f c (Ok v) c' ↔ c' = f v ++ c.
Proof. split; [by intros (x & -> & ->) | intros ->; by exists (f v)]. Qed.
Lemma same_iff {A : Type} c (r : outcome io_error A) c' : same c r c' ↔ c' = c.
Proof. destruct r; [|done|done]. unfold same. by rewrite got_ok. Qed.

Lemma spec_post {A : Type} s a c (m : M A) (Q Q' : post A) :
  (∀ r c', r ≠ Panic → Q r c' → Q' r c') → spec s a c m Q → spec s a c m Q'.
Proof.
  intros HQ Hm h l a' Ha Hw. specialize (Hm h l a' Ha Hw).
  destruct (m s) as [[v|e|] s']; [| |done]; destruct Hm as (c' & Hq & Hs); exists c'; split; try done; by apply HQ.
Qed.

(** The order of the references does not matter. *)
Lemma spec_post_perm {A : Type} s a c (m : M A) (Q Q' : post A) :
  (∀ r c', r ≠ Panic → Q r c' → ∃ c'', c' ≡ₚ c'' ∧ Q' r c'') → spec s a c m Q → spec s a c m Q'.
Proof.
  intros HQ Hm h l a' Ha Hw. specialize (Hm h l a' Ha Hw).
  destruct (m s) as [[v|e|] s']; [| |done]; destruct Hm as (c' & Hq & Hs); (edestruct HQ as (c2 & Hp & Hq2); [|exact Hq|]; [done|]);
    exists c2; (split; [done|]); (eapply sound_equiv; [| |exact Hs]; [by rewrite Hp | done]).
Qed.
Lemma spec_perm {A : Type} s a c c1 (m : M A) Q : c ≡ₚ c1 → spec s a c1 m Q → spec s a c m Q.
Proof.
  intros Hp Hm h l a' Ha Hw. apply (Hm h l a' Ha). eapply sound_equiv; [| |exact Hw]; [by rewrite Hp | done].
Qed.

(** References that are not touched. *)
Lemma spec_frame {A : Type} s a c f (m : M A) Q :
  spec s a c m Q → spec s a (c ++ f) m (λ r c', ∃ c1, c' = c1 ++ f ∧ Q r c1).
Proof.
  intros Hm h l a' Ha Hw. rewrite <- app_assoc in Hw. specialize (Hm (f ++ h) l a' Ha Hw).
  destruct (m s) as [[v|e|] s']; [| |done]; destruct Hm as (c' & Hq & Hs); exists (c' ++ f); rewrite <- app_assoc; eauto.
Qed.

(** ** Rules *)

Lemma spec_ret {A : Type} s a c (v : A) (Q : post A) : Q (Ok v) c → spec s a c (mret v) Q.
Proof. intros HQ h l a' Ha Hw. by exists c. Qed.
Lemma spec_throw {A : Type} s a c e (Q : post A) : Q (Err e) c → spec s a c (throw e) Q.
Proof. intros HQ h l a' Ha Hw. by exists c. Qed.
Lemma spec_panic {A : Type} s a c (Q : post A) : spec s a c panic Q.
Proof. intros h l a' Ha Hw. done. Qed.

Lemma spec_bind_at {A B : Type} s a c (m : M A) (k : A → M B) (P : post A) (Q : post B) :
  spec s a c m P →
  (∀ v s' c1, m s = (Ok v, s') → P (Ok v) c1 → spec s' a c1 (k v) Q) →
  (∀ e c1, P (Err e) c1 → Q (Err e) c1) →
  spec s a c (m ≫= k) Q.
Proof.
  intros Hm Hk He h l a' Ha Hw. unfold mbind, stm_bind. specialize (Hm h l a' Ha Hw).
  destruct (m s) as [[v|e|] s'] eqn:E; [| |done].
  - destruct Hm as (c1 & Hp & Hs). by apply (Hk v s' c1 eq_refl Hp h l a' Ha).
  - destruct Hm as (c1 & Hp & Hs). eauto.
Qed.

Lemma spec_bind {A B : Type} s a c (m : M A) (k : A → M B) (P : post A) (Q : post B) :
  spec s a c m P →
  (∀ v s' c1, P (Ok v) c1 → spec s' a c1 (k v) Q) →
  (∀ e c1, P (Err e) c1 → Q (Err e) c1) →
  spec s a c (m ≫= k) Q.
Proof. intros Hm Hk. apply (spec_bind_at s a c m k P Q Hm). intros v s' c1 _. apply Hk. Qed.

(** A result with its references, which are the next computation's. *)
Lemma spec_got_bind {A B : Type} s a c c0 (m : M A) (k : A → M B) (f : A → list InodeData) (Q : post B) :
  spec s a c m (got f c0) → (∀ v s', spec s' a (f v ++ c0) (k v) Q) → (∀ e, Q (Err e) c0) → spec s a c (m ≫= k) Q.
Proof.
  intros Hm Hk He. eapply spec_bind; [exact Hm| |].
  - intros v s' c1 ->%got_ok. apply Hk.
  - intros e c1 ->. apply He.
Qed.
Lemma spec_same_bind {A B : Type} s a c c0 (m : M A) (k : A → M B) (Q : post B) :
  spec s a c m (same c0) → (∀ v s', spec s' a c0 (k v) Q) → (∀ e, Q (Err e) c0) → spec s a c (m ≫= k) Q.
Proof. apply (spec_got_bind _ _ _ _ _ _ (λ _, [])). Qed.

Lemma spec_try {A : Type} s a c (m : M A) (P : post A) (Q : post (io_error + A)) :
  spec s a c m P → (∀ v c1, P (Ok v) c1 → Q (Ok (inr v)) c1) → (∀ e c1, P (Err e) c1 → Q (Ok (inl e)) c1) →
  spec s a c (try m) Q.
Proof.
  intros Hm Hv He h l a' Ha Hw. unfold try. specialize (Hm h l a' Ha Hw).
  destruct (m s) as [[v|e|] s']; [| |done]; destruct Hm as (c1 & Hp & Hs); eauto.
Qed.
Lemma spec_ignore {A : Type} s a c c0 (m : M A) : spec s a c m (same c0) → spec s a c (ignore m) (same c0).
Proof.
  intros Hm h l a' Ha Hw. unfold ignore. specialize (Hm h l a' Ha Hw).
  destruct (m s) as [[v|e|] s']; [| |done]; destruct Hm as (c1 & ->%same_iff & Hs); exists c0; by rewrite same_iff.
Qed.

Lemma spec_on_error {A : Type} s a c (cleanup : M unit) (m : M A) (P Q : post A) :
  spec s a c m P → (∀ v c1, P (Ok v) c1 → Q (Ok v) c1) →
  (∀ e s' c1, P (Err e) c1 → spec s' a c1 cleanup (λ _ c2, Q (Err e) c2)) → spec s a c (on_error cleanup m) Q.
Proof.
  intros Hm Hv Hc h l a' Ha Hw. unfold on_error. specialize (Hm h l a' Ha Hw).
  destruct (m s) as [[v|e|] s']; [| |done]; destruct Hm as (c1 & Hp & Hs); [eauto|].
  specialize (Hc e s' c1 Hp h l a' Ha Hs). by destruct (cleanup s') as [[] s2].
Qed.
Lemma spec_finally {A : Type} s a c (cleanup : M unit) (m : M A) (P Q : post A) :
  spec s a c m P → (∀ r s' c1, r ≠ Panic → P r c1 → spec s' a c1 cleanup (λ _ c2, Q r c2)) → spec s a c (finally cleanup m) Q.
Proof.
  intros Hm Hc h l a' Ha Hw. unfold finally. specialize (Hm h l a' Ha Hw).
  destruct (m s) as [[v|e|] s']; [| |done]; destruct Hm as (c1 & Hp & Hs).
  - specialize (Hc (Ok v) s' c1 ltac:(done) Hp h l a' Ha Hs). by destruct (cleanup s') as [[] s2].
  - specialize (Hc (Err e) s' c1 ltac:(done) Hp h l a' Ha Hs). by destruct (cleanup s') as [[] s2].
Qed.

(** A computation that leaves the store alone. *)
Definition quiet {A : Type} (m : M A) : Prop := ∀ s, match m s with (Panic, _) => True | (_, s') => inodes s' = inodes s end.

Lemma spec_quiet {A : Type} s a c (m : M A) : quiet m → spec s a c m (same c).
Proof.
  intros Hm h l a' Ha Hw. specialize (Hm s).
  destruct (m s) as [[v|e|] s']; [| |done]; exists c; rewrite same_iff, Hm; done.
Qed.
Lemma spec_quiet_bind {A B : Type} s a c (m : M A) (k : A → M B) (Q : post B) :
  quiet m → (∀ v s', spec s' a c (k v) Q) → (∀ e, Q (Err e) c) → spec s a c (m ≫= k) Q.
Proof. intros Hm. eapply spec_same_bind. by apply spec_quiet. Qed.

Lemma spec_get_bind {B : Type} s a c (k : PassthroughFs H → M B) (Q : post B) :
  spec s a c (k s) Q → spec s a c (get ≫= k) Q.
Proof. done. Qed.

(** [self.inodes.get(i)]: an [Arc] more. *)
Lemma spec_arc {A : Type} s a c i d (m : M A) Q :
  get_inode (inodes s) i = Some d → spec s (d :: a) c m Q → spec s a c m Q.
Proof.
  intros Hd Hm h l a' Ha Hw.
  assert (sound (mkWorld (inodes s) (c ++ h) l (d :: a'))) as Hw1.
  { apply (step_sound (mkWorld (inodes s) (c ++ h) l a')); [|done]. by apply (step_arc (mkWorld (inodes s) (c ++ h) l a') i d). }
  specialize (Hm h l (d :: a') (list_subseteq_skip d _ _ Ha) Hw1).
  destruct (m s) as [[v|e|] s']; [| |done]; destruct Hm as (c' & Hq & Hs); exists c'; (split; [done|]);
    (eapply sound_arcs; [|exact Hs]; by apply list_subseteq_cons).
Qed.

Lemma spec_inode_bind {B : Type} s a c i (k : InodeData → M B) (Q : post B) :
  (∀ d, spec s (d :: a) c (k d) Q) → Q (Err ebadf) c → spec s a c (get_inode_data i ≫= k) Q.
Proof.
  intros Hk He. unfold get_inode_data.
  destruct (get_inode (inodes s) i) as [d|] eqn:Hd.
  - intros h l a' Ha Hw. unfold mbind, stm_bind, get. rewrite Hd. simpl. by apply (spec_arc s a c i d (k d) Q Hd (Hk d)).
  - intros h l a' Ha Hw. unfold mbind, stm_bind, get. rewrite Hd. simpl. by exists c.
Qed.

(** *** Computations that leave the store alone *)

Lemma quiet_ret {A : Type} (v : A) : quiet (mret v).
Proof. done. Qed.
Lemma quiet_throw {A : Type} e : quiet (throw (A := A) e).
Proof. done. Qed.
Lemma quiet_panic {A : Type} : quiet (panic (A := A)).
Proof. done. Qed.
Lemma quiet_get : quiet get.
Proof. done. Qed.
Lemma quiet_gets {A : Type} (f : PassthroughFs H → A) : quiet (gets f).
Proof. done. Qed.
Lemma quiet_lift {A : Type} (o : outcome io_error A) : quiet (lift o).
Proof. intros s. by destruct o. Qed.
Lemma quiet_sys {A : Type} (f : H → A * H) : quiet (sys f).
Proof. intros s. unfold sys. by destruct (f (host s)). Qed.
Lemma quiet_sys_result {A : Type} (f : H → outcome io_error A * H) : quiet (sys_result f).
Proof. intros s. unfold sys_result. by destruct (f (host s)) as [[] ?]. Qed.

Lemma quiet_bind {A B : Type} (m : M A) (k : A → M B) : quiet m → (∀ v, quiet (k v)) → quiet (m ≫= k).
Proof.
  intros Hm Hk s. unfold mbind, stm_bind. specialize (Hm s). destruct (m s) as [[v|e|] s']; [|done|done].
  specialize (Hk v s'). destruct (k v s') as [[] s2]; congruence.
Qed.

Lemma quiet_try {A : Type} (m : M A) : quiet m → quiet (try m).
Proof. intros Hm s. unfold try. specialize (Hm s). by destruct (m s) as [[] s']. Qed.
Lemma quiet_ignore {A : Type} (m : M A) : quiet m → quiet (ignore m).
Proof. intros Hm s. unfold ignore. specialize (Hm s). by destruct (m s) as [[] s']. Qed.

Lemma quiet_finally {A : Type} (cleanup : M unit) (m : M A) : quiet cleanup → quiet m → quiet (finally cleanup m).
Proof.
  intros Hc Hm s. unfold finally. specialize (Hm s). destruct (m s) as [[v|e|] s']; [| |done];
    specialize (Hc s'); destruct (cleanup s') as [[] s2]; congruence.
Qed.
Lemma quiet_on_error {A : Type} (cleanup : M unit) (m : M A) : quiet cleanup → quiet m → quiet (on_error cleanup m).
Proof.
  intros Hc Hm s. unfold on_error. specialize (Hm s). destruct (m s) as [[v|e|] s']; [done| |done];
    specialize (Hc s'); destruct (cleanup s') as [[] s2]; congruence.
Qed.

Lemma quiet_restore `{Host H} cap : quiet (λ s, match sys_result (h_restore_cap cap) s with
                                      | (Ok _, s') => (Ok (), s')
                                      | (_, s') => (Panic, s')
                                      end).
Proof.
  intros s. pose proof (quiet_sys_result (h_restore_cap cap) s) as Hq. by destruct (sys_result (h_restore_cap cap) s) as [[] s'].
Qed.

End specs.

Create HintDb quiet discriminated.
#[export] Hint Resolve quiet_ret quiet_throw quiet_panic quiet_get quiet_gets quiet_lift quiet_sys quiet_sys_result
  quiet_bind quiet_try quiet_ignore quiet_finally quiet_on_error quiet_restore : quiet.

(** The store is not touched: by the structure of the code. *)
Ltac solve_quiet :=
  repeat first
    [ progress intros
    | solve [auto 1 with quiet nocore]
    | apply quiet_bind
    | apply quiet_finally
    | apply quiet_on_error
    | apply quiet_try
    | apply quiet_ignore
    | match goal with |- quiet (match ?x with _ => _ end) => destruct x end
    | match goal with |- quiet (let '(_, _) := ?x in _) => destruct x end ].

(** ** The methods *)

Section methods.
Context {H : Type} `{Host H} (cfg : Config).

Lemma quiet_fail_last {A : Type} : quiet (fail_last (H := H) (A := A)).
Proof. unfold fail_last, last_os_error. solve_quiet. Qed.
#[local] Hint Resolve quiet_fail_last : quiet.
Lemma quiet_checked f : quiet (checked (H := H) f).
Proof. unfold checked. solve_quiet. Qed.
Lemma quiet_last_os_error : quiet (last_os_error (H := H)).
Proof. unfold last_os_error. solve_quiet. Qed.
#[local] Hint Resolve quiet_checked quiet_last_os_error : quiet.

Lemma quiet_open_relative_to dir name flags mode : quiet (open_relative_to (H := H) cfg dir name flags mode).
Proof. unfold open_relative_to. solve_quiet. Qed.
Lemma quiet_reopen_fd fd flags : quiet (reopen_fd (H := H) cfg fd flags).
Proof. unfold reopen_fd. solve_quiet. Qed.
Lemma quiet_open_by_handle_at h flags : quiet (open_by_handle_at (H := H) h flags).
Proof. unfold open_by_handle_at. solve_quiet. Qed.
#[local] Hint Resolve quiet_open_relative_to quiet_reopen_fd quiet_open_by_handle_at : quiet.

Lemma quiet_get_inode_data i : quiet (get_inode_data (H := H) i).
Proof. unfold get_inode_data. solve_quiet. Qed.
Lemma quiet_get_file d : quiet (get_file (H := H) d).
Proof. unfold get_file. solve_quiet. Qed.
Lemma quiet_open_file d flags : quiet (open_file (H := H) cfg d flags).
Proof. unfold open_file. solve_quiet. Qed.
#[local] Hint Resolve quiet_get_inode_data quiet_get_file quiet_open_file : quiet.
Lemma quiet_find_handle handle i : quiet (find_handle (H := H) handle i).
Proof. unfold find_handle. solve_quiet. Qed.
Lemma quiet_handle_fd hd : quiet (handle_fd (H := H) hd).
Proof. unfold handle_fd. solve_quiet. Qed.
Lemma quiet_open_inode i flags : quiet (open_inode (H := H) cfg i flags).
Proof. unfold open_inode. solve_quiet. Qed.
Lemma quiet_allocate fd : quiet (allocate (H := H) cfg fd).
Proof. unfold allocate. solve_quiet. Qed.
Lemma quiet_statx dir path : quiet (statx (H := H) dir path).
Proof. unfold statx. solve_quiet. Qed.
Lemma quiet_from_name_at dir path : quiet (from_name_at_fail_hard (H := H) dir path).
Proof. unfold from_name_at_fail_hard. solve_quiet. Qed.
#[local] Hint Resolve quiet_find_handle quiet_handle_fd quiet_open_inode quiet_allocate quiet_statx quiet_from_name_at : quiet.
Lemma quiet_from_fd fd : quiet (from_fd (H := H) fd).
Proof. unfold from_fd. solve_quiet. Qed.
#[local] Hint Resolve quiet_from_fd : quiet.
Lemma quiet_serializable f : quiet (serializable_try_from (H := H) f).
Proof. unfold serializable_try_from. solve_quiet. Qed.
Lemma quiet_get_file_handle_opt fd st : quiet (get_file_handle_opt (H := H) cfg fd st).
Proof. unfold get_file_handle_opt. solve_quiet. Qed.
Lemma quiet_make_openable fh : quiet (make_file_handle_openable (H := H) fh).
Proof. unfold make_file_handle_openable. solve_quiet. Qed.
#[local] Hint Resolve quiet_serializable quiet_get_file_handle_opt quiet_make_openable : quiet.

Abbreviation M := (stm (PassthroughFs H) io_error).
Implicit Types s : PassthroughFs H.

(** *** The operations of the store *)

Lemma spec_in_store {A : Type} s a c (m : stm InodeStore io_error A) (Q : post A) :
  (∀ h l a' r st', a ⊆ a' → sound (mkWorld (inodes s) (c ++ h) l a') → m (inodes s) = (r, st') → r ≠ Panic →
     ∃ c', Q r c' ∧ sound (mkWorld st' (c' ++ h) l a')) →
  spec s a c (in_store m) Q.
Proof.
  intros Hm h l a' Ha Hw. unfold in_store, zoom. destruct (m (inodes s)) as [r st'] eqn:E.
  destruct r as [v|e|]; [| |done]; by apply (Hm h l a' _ st').
Qed.

Lemma gained_got (r : outcome io_error InodeData) c : r ≠ Panic → got (λ d, [d]) c r (gained r ++ c).
Proof. destruct r; [|done|done]. intros _. by apply got_ok. Qed.

Lemma spec_new_with_data s a c p : p ∈ a → spec s a c (in_store (new_with_data p)) (got (λ d, [d]) c).
Proof.
  intros Hp. apply spec_in_store. intros h l a' r st' Ha Hw E Hr. exists (gained r ++ c). split; [by apply gained_got|].
  rewrite <- app_assoc. apply (step_sound (mkWorld (inodes s) (c ++ h) l a')); [|done].
  by apply (step_strong (mkWorld (inodes s) (c ++ h) l a') p); [apply Ha| |].
Qed.

Lemma spec_claim s a c handle x : spec s a c (in_store (do_claim_inode handle x)) (got (λ d, [d]) c).
Proof.
  apply spec_in_store. intros h l a' r st' Ha Hw E Hr. exists (gained r ++ c). split; [by apply gained_got|].
  rewrite <- app_assoc. by apply (sound_claim (mkWorld (inodes s) (c ++ h) l a') handle x).
Qed.

Lemma spec_get_or_insert s a c x :
  spec s a (infos_references (new_info x) ++ c) (in_store (get_or_insert x)) (got (λ d, [d]) c).
Proof.
  apply spec_in_store. intros h l a' r st' Ha Hw E Hr. exists (gained r ++ c). split; [by apply gained_got|].
  rewrite <- app_assoc in *. by apply (sound_get_or_insert _ x _ _ _ Hw).
Qed.

(** [StrongInodeReference::new(ROOT_ID)] *)
Lemma spec_get_strong s a c i : spec s a c (in_store (get_strong i)) (got (λ d, [d]) c).
Proof.
  unfold get_strong. destruct (get_inode (inodes s) i) as [d|] eqn:Hd.
  - pose proof (spec_arc s a c i d (in_store (new_with_data d)) (got (λ d, [d]) c) Hd
                  (spec_new_with_data s (d :: a) c d (list_elem_of_here d a))) as Hs.
    intros h l a' Ha Hw. specialize (Hs h l a' Ha Hw). unfold in_store, zoom in *. by rewrite Hd.
  - intros h l a' Ha Hw. unfold in_store, zoom. rewrite Hd. by exists c.
Qed.

(** A step of the store that cannot fail. *)
Lemma spec_on_store_bind {B : Type} s a c c0 f (k : unit → M B) (Q : post B) :
  (∀ h l a', sound (mkWorld (inodes s) (c ++ h) l a') → sound (mkWorld (f (inodes s)) (c0 ++ h) l a')) →
  (∀ s', inodes s' = f (inodes s) → spec s' a c0 (k ()) Q) → spec s a c (on_store f ≫= k) Q.
Proof.
  intros Hf Hk h l a' Ha Hw. by apply (Hk (with_inodes (f (inodes s)) s) eq_refl h l a' Ha), Hf.
Qed.
Lemma spec_on_store s a c c0 f (Q : post unit) :
  (∀ h l a', sound (mkWorld (inodes s) (c ++ h) l a') → sound (mkWorld (f (inodes s)) (c0 ++ h) l a')) →
  Q (Ok ()) c0 → spec s a c (on_store f) Q.
Proof. intros Hf HQ h l a' Ha Hw. exists c0. split; [done|]. by apply Hf. Qed.

Lemma sound_drop_refs st ds c0 c h l a : c0 ≡ₚ ds ++ c →
  sound (mkWorld st (c0 ++ h) l a) → sound (mkWorld (drop_references ds st) (c ++ h) l a).
Proof. intros Hp Hw. apply (sound_drop _ ds (c ++ h) l Hw); [|done]. simpl. by rewrite Hp, <- app_assoc. Qed.

Lemma spec_drops_bind {B : Type} s a ds c0 c (k : unit → M B) (Q : post B) :
  c0 ≡ₚ ds ++ c → (∀ s', spec s' a c (k ()) Q) → spec s a c0 (drop_refs ds ≫= k) Q.
Proof. intros Hp Hk. eapply spec_on_store_bind; [|intros s' _; apply Hk]. intros h l a'. by apply sound_drop_refs. Qed.
Lemma spec_drop_bind {B : Type} s a d c0 c (k : unit → M B) (Q : post B) :
  c0 ≡ₚ d :: c → (∀ s', spec s' a c (k ()) Q) → spec s a c0 (drop_ref d ≫= k) Q.
Proof. apply (spec_drops_bind s a [d]). Qed.
Lemma spec_drops s a ds c0 c (Q : post unit) : c0 ≡ₚ ds ++ c → Q (Ok ()) c → spec s a c0 (drop_refs ds) Q.
Proof. intros Hp. apply spec_on_store. intros h l a'. by apply sound_drop_refs. Qed.
Lemma spec_drop s a d c0 c (Q : post unit) : c0 ≡ₚ d :: c → Q (Ok ()) c → spec s a c0 (drop_ref d) Q.
Proof. apply (spec_drops s a [d]). Qed.

(** *** Migration information *)

Lemma spec_new_internal s a c location handle :
  quiet handle →
  spec s a (strong_references (mkMigrationInfo location None) ++ c) (new_internal cfg location handle) (got strong_references c).
Proof.
  intros Hq. unfold new_internal. destruct (migration_verify_handles cfg); [|apply spec_ret; by apply got_ok].
  eapply spec_bind with (P := λ r c', match r with Ok _ => c' = strong_references (mkMigrationInfo location None) ++ c | _ => c' = c end).
  - eapply spec_on_error; [by apply spec_quiet | by intros v c1 ->%same_iff|].
    intros e s' c1 ->. by apply (spec_drops _ _ _ _ c).
  - intros v s' c1 ->. apply spec_ret. by apply got_ok.
  - intros e c1 ->. done.
Qed.

Lemma spec_migration_info_new s a c parent filename f :
  spec s a (parent :: c) (migration_info_new cfg parent filename f) (got strong_references c).
Proof.
  unfold migration_info_new. destruct (migration_mode cfg).
  - destruct (is_utf8 filename); [apply (spec_new_internal s a c (InodePath parent filename)); solve_quiet|].
    apply (spec_drop_bind _ _ parent _ c); [done | intros s2]. by apply spec_throw.
  - eapply spec_finally with (P := got strong_references (parent :: c)).
    + apply spec_quiet_bind; [solve_quiet | | done]. intros h s'.
      apply (spec_new_internal s' a (parent :: c) (HandleLocation h)). solve_quiet.
    + intros [info|e|] s' c1 Hr Hc1; [| |done].
      * apply got_ok in Hc1 as ->. eapply spec_drop; [by rewrite <- Permutation_middle|]. by apply got_ok.
      * rewrite Hc1. by apply (spec_drop _ _ parent _ c).
Qed.

(** *** Looking up *)

Lemma spec_claim_ok s a c handle x : spec s a c (claim_ok handle x) (got option_list c).
Proof.
  unfold claim_ok.
  eapply spec_got_bind with (f := λ r, match r with inr d => [d] | inl _ => [] end); [eapply spec_try; [apply spec_claim| |]| |].
  - intros v c1 ->%got_ok. by apply got_ok.
  - intros e c1 ->. by apply got_ok.
  - intros [e|d] s'; apply spec_ret; by apply got_ok.
  - done.
Qed.

Lemma spec_try_lookup_implementation s a c p name :
  spec s a c (try_lookup_implementation cfg p name) (got (λ '(o, _, _, _), option_list o) c).
Proof.
  unfold try_lookup_implementation. do 4 (apply spec_quiet_bind; [solve_quiet | intros ? ? | done]).
  eapply spec_got_bind; [apply spec_claim_ok | | done]. intros o s2. apply spec_ret. by apply got_ok.
Qed.

Lemma spec_try_lookup s a c p name : spec s a c (try_lookup cfg p name) (got option_list c).
Proof.
  unfold try_lookup. eapply spec_got_bind; [apply spec_try_lookup_implementation | | done].
  intros [[[o fd] st] handle] s'. apply spec_ret. by apply got_ok.
Qed.

Lemma spec_fetch_next_inode {B : Type} s a c (k : Z → M B) (Q : post B) :
  (∀ i s', spec s' a c (k i) Q) → spec s a c (fetch_next_inode ≫= k) Q.
Proof. intros Hk h l a' Ha Hw. exact (Hk _ (with_next_inode _ s) h l a' Ha Hw). Qed.

Lemma spec_insert_found s a c p name path_fd st handle :
  p ∈ a → spec s a c (insert_found cfg p name path_fd st handle) (got (λ d, [d]) c).
Proof.
  intros Hp. unfold insert_found. apply spec_quiet_bind; [solve_quiet | intros f s1 | done].
  apply spec_get_bind. eapply spec_got_bind with (f := infos_references) (c0 := c).
  - destruct (track_migration_info s1); [|by apply spec_ret, got_ok].
    eapply spec_got_bind; [by apply spec_new_with_data | | done]. intros d s2.
    eapply spec_got_bind; [apply spec_migration_info_new | | done]. intros info s3. apply spec_ret. by apply got_ok.
  - intros o s2. apply spec_fetch_next_inode. intros i s3.
    apply (spec_get_or_insert s3 a c (mkNewInode i f 1 (ids_of st) (st_mode (se_st st)) o)).
  - done.
Qed.

(** An entry comes with a strong reference, which becomes the guest's lookup. *)
Definition entry_refs (e : Entry) (x : list InodeData) : Prop := ∃ d, x = [d] ∧ inode d = entry_inode e.

Lemma spec_do_lookup s a c parent name : spec s a c (do_lookup cfg parent name) (grants entry_refs c).
Proof.
  unfold do_lookup. apply spec_inode_bind; [|done]. intros p.
  eapply spec_got_bind; [apply spec_try_lookup_implementation | | done]. intros [[[o fd] st] handle] s1.
  apply spec_get_bind. cbv zeta. eapply spec_got_bind with (f := λ d, [d]) (c0 := c).
  - destruct o as [d|]; [apply spec_ret; by apply got_ok|]. apply spec_insert_found. apply list_elem_of_here.
  - intros d s2. eapply spec_bind with (P := λ r c', match r with Ok _ => c' = d :: c | _ => c' = c end).
    + eapply spec_on_error; [apply spec_quiet; solve_quiet | by intros v c1 ->%same_iff|].
      intros e s' c1 ->. by apply (spec_drop _ _ d _ c).
    + intros attr s3 c1 ->. apply spec_ret. exists [d]. split; [|done]. by exists d.
    + by intros e c1 ->.
  - done.
Qed.

(** *** No information appears *)

Definition keeps_none {A : Type} (m : M A) : Prop := ∀ s d, info_of (inodes s) d = None →
  match m s with (Panic, _) => True | (_, s') => info_of (inodes s') d = None end.

Lemma keeps_none_quiet {A : Type} (m : M A) : quiet m → keeps_none m.
Proof. intros Hq s d Hd. specialize (Hq s). destruct (m s) as [[] s']; congruence. Qed.
Lemma keeps_none_drop_refs ds : keeps_none (drop_refs ds).
Proof. intros s d Hd. by apply drop_references_none. Qed.
Lemma keeps_none_bind {A B : Type} (m : M A) (k : A → M B) : keeps_none m → (∀ v, keeps_none (k v)) → keeps_none (m ≫= k).
Proof.
  intros Hm Hk s d Hd. unfold mbind, stm_bind. specialize (Hm s d Hd). destruct (m s) as [[v|e|] s']; [|done|done].
  by apply Hk.
Qed.
Lemma keeps_none_on_error {A : Type} (cleanup : M unit) (m : M A) : keeps_none cleanup → keeps_none m → keeps_none (on_error cleanup m).
Proof.
  intros Hc Hm s d Hd. unfold on_error. specialize (Hm s d Hd). destruct (m s) as [[v|e|] s']; [done| |done].
  specialize (Hc s' d Hm). by destruct (cleanup s') as [[] s2].
Qed.
Lemma keeps_none_finally {A : Type} (cleanup : M unit) (m : M A) : keeps_none cleanup → keeps_none m → keeps_none (finally cleanup m).
Proof.
  intros Hc Hm s d Hd. unfold finally. specialize (Hm s d Hd). destruct (m s) as [[v|e|] s']; [| |done];
    specialize (Hc s' d Hm); by destruct (cleanup s') as [[] s2].
Qed.

Lemma keeps_none_new_internal location handle : quiet handle → keeps_none (new_internal cfg location handle).
Proof.
  intros Hq. unfold new_internal. destruct (migration_verify_handles cfg); [|by apply keeps_none_quiet].
  apply keeps_none_bind; [|intros h; by apply keeps_none_quiet].
  apply keeps_none_on_error; [apply keeps_none_drop_refs | by apply keeps_none_quiet].
Qed.

Lemma keeps_none_migration_info_new parent filename f : keeps_none (migration_info_new cfg parent filename f).
Proof.
  unfold migration_info_new. destruct (migration_mode cfg).
  - destruct (is_utf8 filename); [apply keeps_none_new_internal; solve_quiet|].
    apply keeps_none_bind; [apply (keeps_none_drop_refs [parent]) | intros _; by apply keeps_none_quiet].
  - apply keeps_none_finally; [apply (keeps_none_drop_refs [parent])|].
    apply keeps_none_bind; [apply keeps_none_quiet; solve_quiet | intros h; apply keeps_none_new_internal; solve_quiet].
Qed.

(** *** The path of an inode *)

Lemma spec_live {A : Type} s a c d (m : M A) Q : d ∈ c → (live (inodes s) d → spec s a c m Q) → spec s a c m Q.
Proof.
  intros Hd Hm h l a' Ha Hw. apply Hm; [|done|done]. apply (so_held _ Hw). simpl. apply elem_of_app. by left.
Qed.

(** New information for an inode that has none: its references are the store's. *)
Lemma sound_put st d info c h l a :
  info_of st d = None → d ∈ c →
  sound (mkWorld st ((strong_references info ++ c) ++ h) l a) → sound (mkWorld (set_info d (Some info) st) (c ++ h) l a).
Proof.
  intros Hnone Hd Hw. rewrite <- app_assoc in Hw. apply (sound_put_info _ d info (c ++ h) Hw); [|done|done].
  apply (so_held _ Hw). simpl. rewrite !elem_of_app. auto.
Qed.

(** What [do_lookup] found is in the store. *)
Lemma spec_get_held {B : Type} s a c d i (k : option InodeData → M B) (Q : post B) :
  d ∈ c → inode d = i → spec s a c (k (Some d)) Q → spec s a c (k (get_inode (inodes s) i)) Q.
Proof. intros Hd <- Hk. apply (spec_live _ _ _ d); [done|]. intros Hl. unfold get_inode. unfold live in Hl. by rewrite Hl. Qed.

Lemma spec_walk_element s a c parent element :
  spec s a (parent :: c) (walk_element cfg parent element) (got (λ d, [d]) c).
Proof.
  unfold walk_element.
  eapply spec_bind with (P := λ r c', match r with Ok e => ∃ x, entry_refs e x ∧ c' = x ++ parent :: c | _ => c' = c end).
  { eapply spec_on_error; [apply spec_do_lookup | intros v c1 Hc1; exact Hc1|]. intros e s' c1 ->. by apply (spec_drop _ _ parent _ c). }
  2: by intros e c1 ->.
  intros e s1 c1 (x & (d & -> & Hd) & ->). apply spec_get_bind.
  apply (spec_get_held s1 a _ d _ (λ o, match o with None => _ | Some entry_data => _ end)); [by left | done|].
  destruct (info_of (inodes s1) d) as [info|] eqn:Hinfo.
  { eapply spec_drop_bind; [apply Permutation_swap|]. intros s2. apply spec_ret. by apply got_ok. }
  eapply spec_perm; [apply Permutation_swap|].
  eapply spec_bind_at with (P := λ r c', match r with Ok info => c' = strong_references info ++ d :: c | _ => c' = c end).
  - eapply spec_on_error; [apply spec_migration_info_new | by intros v c1 ->%got_ok|].
    intros e' s' c1 ->. by apply (spec_drop _ _ d _ c).
  - intros info s2 c1 E ->. apply (spec_on_store_bind _ _ _ (d :: c)).
    + intros h l a'. apply sound_put; [|by left]. pose proof (keeps_none_on_error (drop_ref d) _ (keeps_none_drop_refs [d])
                    (keeps_none_migration_info_new parent element (file_or_handle d)) s1 d Hinfo) as Hk. by rewrite E in Hk.
    + intros s3 _. apply spec_ret. by apply got_ok.
  - by intros e' c1 ->.
Qed.

Lemma spec_walk_path s a c parent elements : spec s a (parent :: c) (walk_path cfg parent elements) (got (λ d, [d]) c).
Proof.
  revert s parent. induction elements as [|e elements IH]; intros s parent; simpl; [apply spec_ret; by apply got_ok|].
  eapply spec_got_bind; [apply spec_walk_element | | done]. intros d s'. apply IH.
Qed.

Lemma quiet_get_path d : quiet (get_path (H := H) cfg d).
Proof. unfold get_path. solve_quiet. Qed.
Lemma quiet_link_count d : quiet (link_count (H := H) d).
Proof. unfold link_count. solve_quiet. Qed.
#[local] Hint Resolve quiet_get_path quiet_link_count : quiet.

Lemma spec_set_path_migration_info s a c d path : spec s a c (set_path_migration_info cfg d path) (same c).
Proof.
  unfold set_path_migration_info. apply spec_quiet_bind; [solve_quiet | intros r s1 | done].
  destruct r as [abs|e|]; [|apply spec_quiet; solve_quiet|apply spec_panic].
  destruct (relative_path abs path) as [rel|]; [|apply spec_quiet; solve_quiet]. cbv zeta.
  destruct (negb _); [by apply spec_throw|].
  eapply spec_got_bind; [apply spec_get_strong | intros root s2 | done].
  eapply spec_got_bind; [apply spec_walk_path | intros last s3 | done].
  apply (spec_drop_bind _ _ last _ c); [done | intros s4]. apply spec_quiet. solve_quiet.
Qed.

Lemma spec_refresh s a c d : spec s a c (after_invalidating_path_refresh cfg d) (same c).
Proof.
  unfold after_invalidating_path_refresh. apply spec_get_bind.
  destruct (get_inode (inodes s) ROOT_ID) as [root|]; [|by apply spec_throw].
  apply spec_quiet_bind; [solve_quiet | intros [path|e|] s1 | done];
    [apply spec_set_path_migration_info | by apply spec_throw | apply spec_panic].
Qed.

Lemma spec_after_invalidating_path s a c d : spec s a (d :: c) (after_invalidating_path cfg d) (same c).
Proof.
  unfold after_invalidating_path. apply spec_get_bind.
  eapply spec_bind with (P := λ r c', is_ok r = true ∧ c' = d :: c).
  2: { intros _ s2 c1 [_ ->]. apply (spec_drop _ _ d _ c); [done | by apply same_iff]. }
  2: by intros e c1 [? _].
  destruct (info_of (inodes s) d) as [info|] eqn:Hinfo; [|by apply spec_ret].
  destruct (negb (has_path info)); [by apply spec_ret|].
  apply (spec_on_store_bind _ _ _ (strong_references info ++ d :: c)).
  { intros h l a' Hw. pose proof (sound_take_info _ d Hw (list_elem_of_here _ _)) as Ht. simpl in Ht. rewrite Hinfo in Ht.
    rewrite <- app_assoc. exact Ht. }
  intros s1 _.
  eapply spec_bind with (P := λ r c', is_ok r = true ∧ c' = strong_references info ++ d :: c).
  - eapply spec_try; [apply spec_refresh | by intros v c1 ->%same_iff | by intros e c1 ->].
  - intros _ s2 c1 [_ ->]. by apply (spec_drops _ _ _ _ (d :: c)).
  - by intros e c1 [? _].
Qed.

Lemma spec_before_invalidating s a c p name : spec s a c (before_invalidating_path cfg p name) (got option_list c).
Proof.
  unfold before_invalidating_path.
  eapply spec_got_bind with (f := λ r, match r with inr o => option_list o | inl _ => [] end); [eapply spec_try; [apply spec_try_lookup| |]| |].
  - intros v c1 ->%got_ok. by apply got_ok.
  - intros e c1 ->. by apply got_ok.
  - intros [e|o] s'; apply spec_ret; by apply got_ok.
  - done.
Qed.

Lemma spec_after_invalidating s a c o : spec s a (option_list o ++ c) (after_invalidating cfg o) (same c).
Proof. destruct o as [d|]; [apply spec_after_invalidating_path | by apply spec_quiet]. Qed.

Lemma info_taken st d : info_of (set_info d None st) d = None.
Proof. unfold info_of, set_info. simpl. rewrite lookup_alter, decide_True by done. by destruct (cells st !! cell d). Qed.

(** The information of an inode, renewed: the old one goes first. *)
Lemma spec_renew_info s a c d parent filename :
  info_of (inodes s) d = None → d ∈ c →
  spec s a (parent :: c)
    (info ← migration_info_new cfg parent filename (file_or_handle d); on_store (set_info d (Some info))) (same c).
Proof.
  intros Hnone Hd. eapply spec_bind_at; [apply spec_migration_info_new | | done].
  intros info s' c1 E ->%got_ok. apply (spec_on_store _ _ _ c); [|by apply same_iff].
  intros h l a'. apply sound_put; [|done].
  pose proof (keeps_none_migration_info_new parent filename (file_or_handle d) s d Hnone) as Hk. by rewrite E in Hk.
Qed.

Lemma spec_update_inode_migration_info s a c p filename :
  p ∈ a → spec s a c (update_inode_migration_info cfg p filename) (same c).
Proof.
  intros Hp. unfold update_inode_migration_info. apply spec_get_bind. destruct (negb _); [by apply spec_quiet|].
  eapply spec_got_bind; [apply spec_try_lookup | intros o s1 | done]. destruct o as [d|]; [|by apply spec_quiet].
  eapply spec_finally with (P := same (d :: c)).
  2: { intros r s' c1 _ ->%same_iff. apply (spec_drop _ _ d _ c); [done | by apply same_iff]. }
  eapply spec_got_bind; [by apply spec_new_with_data | intros p' s2 | done]. apply spec_get_bind. simpl.
  destruct (info_of (inodes s2) d) as [info|] eqn:Hinfo; [|apply spec_renew_info; [done | by left]].
  destruct (negb (has_path info)); [apply (spec_drop _ _ p' _ (d :: c)); [done | by apply same_iff]|].
  apply (spec_on_store_bind _ _ _ (strong_references info ++ p' :: d :: c)).
  { intros h l a' Hw. pose proof (sound_take_info _ d Hw (list_elem_of_further _ _ _ (list_elem_of_here _ _))) as Ht.
    simpl in Ht. rewrite Hinfo in Ht. rewrite <- app_assoc. exact Ht. }
  intros s3 E3. apply (spec_on_store_bind _ _ _ (p' :: d :: c)); [intros h l a'; by apply sound_drop_refs|].
  intros s4 E4. apply spec_renew_info; [|by left]. rewrite E4, E3.
  apply drop_references_none, info_taken.
Qed.

(** *** The rest leaves the store alone *)

Lemma quiet_client_xattrname name : quiet (client_xattrname (H := H) cfg name).
Proof. unfold client_xattrname. solve_quiet. Qed.
Lemma quiet_in_proc_self_fd {A : Type} (m : M A) : quiet m → quiet (in_proc_self_fd cfg m).
Proof. intros Hm. unfold in_proc_self_fd. solve_quiet. Qed.
Lemma quiet_zero_or_fail f : quiet (zero_or_fail (H := H) f).
Proof. unfold zero_or_fail. solve_quiet. Qed.
Lemma quiet_negative_fails f : quiet (negative_fails (H := H) f).
Proof. unfold negative_fails. solve_quiet. Qed.
#[local] Hint Resolve quiet_client_xattrname quiet_zero_or_fail quiet_negative_fails : quiet.
Lemma quiet_clear_file_capabilities fd o_path : quiet (clear_file_capabilities (H := H) cfg fd o_path).
Proof. unfold clear_file_capabilities. solve_quiet; apply quiet_in_proc_self_fd; solve_quiet. Qed.
Lemma quiet_clear_sgid fd o_path : quiet (clear_sgid (H := H) cfg fd o_path).
Proof. unfold clear_sgid. solve_quiet. Qed.
Lemma quiet_credentials_set uid gid sup keep : quiet (credentials_set (H := H) uid gid sup keep).
Proof. unfold credentials_set. solve_quiet. Qed.
Lemma quiet_credentials_drop g : quiet (credentials_drop (H := H) g).
Proof. unfold credentials_drop. solve_quiet. Qed.
#[local] Hint Resolve quiet_clear_file_capabilities quiet_clear_sgid quiet_credentials_set quiet_credentials_drop : quiet.
Lemma quiet_with_credentials {A : Type} ctx ext (m : M A) : quiet m → quiet (with_credentials cfg ctx ext m).
Proof. intros Hm. unfold with_credentials, unix_credentials_guard. solve_quiet. Qed.
Lemma quiet_with_umask {A : Type} umask (m : M A) : quiet m → quiet (with_umask umask m).
Proof. intros Hm. unfold with_umask. solve_quiet. Qed.
Lemma quiet_without_fsetid {A : Type} cond (m : M A) : quiet m → quiet (without_fsetid cond m).
Proof. intros Hm. unfold without_fsetid. solve_quiet. Qed.
Lemma quiet_fetch_next_handle : quiet (fetch_next_handle (H := H)).
Proof. done. Qed.
Lemma quiet_insert_handle handle hd : quiet (insert_handle (H := H) handle hd).
Proof. done. Qed.
#[local] Hint Resolve quiet_fetch_next_handle quiet_insert_handle : quiet.
Ltac solve_quiet_scopes :=
  repeat first
    [ progress solve_quiet
    | apply quiet_in_proc_self_fd
    | apply quiet_with_credentials
    | apply quiet_with_umask
    | apply quiet_without_fsetid ].

Lemma quiet_do_open i kill_priv flags : quiet (do_open (H := H) cfg i kill_priv flags).
Proof. unfold do_open. cbv zeta. solve_quiet_scopes. Qed.
Lemma quiet_do_create ctx parent_file name mode flags umask ext :
  quiet (do_create (H := H) cfg ctx parent_file name mode flags umask ext).
Proof. unfold do_create. solve_quiet_scopes. Qed.
Lemma quiet_set_secctx parent_file name flags ext : quiet (set_secctx_or_unlink (H := H) cfg parent_file name flags ext).
Proof. unfold set_secctx_or_unlink, do_mknod_mkdir_symlink_secctx. solve_quiet_scopes. Qed.
#[local] Hint Resolve quiet_do_open quiet_do_create quiet_set_secctx : quiet.
Lemma quiet_do_release i handle : quiet (do_release (H := H) i handle).
Proof. intros s. unfold do_release, mbind, stm_bind. simpl. destruct (handles s !! handle) as [hd|]; [|done]. by destruct (_ =? _). Qed.
Lemma quiet_do_getattr i : quiet (do_getattr (H := H) cfg i).
Proof. unfold do_getattr. solve_quiet. Qed.
Lemma quiet_statfs i : quiet (fs_statfs (H := H) i).
Proof. unfold fs_statfs. solve_quiet. Qed.
#[local] Hint Resolve quiet_do_release quiet_do_getattr : quiet.
Lemma quiet_setattr i attr handle valid : quiet (fs_setattr (H := H) cfg i attr handle valid).
Proof. unfold fs_setattr, setattr_mode, setattr_owner, setattr_size, setattr_times. cbv zeta. solve_quiet_scopes. Qed.
Lemma quiet_access ctx i mask : quiet (fs_access (H := H) cfg ctx i mask).
Proof. unfold fs_access. cbv zeta. solve_quiet. Qed.
Lemma quiet_xattr_call {A : Type} i d prepare (by_fd : Z → H → A * H) by_path :
  (∀ fd o_path, quiet (prepare fd o_path)) → quiet (xattr_call cfg i d prepare by_fd by_path).
Proof. intros Hp. unfold xattr_call. solve_quiet_scopes. Qed.
Lemma quiet_setxattr i name value flags extra : quiet (fs_setxattr (H := H) cfg i name value flags extra).
Proof. unfold fs_setxattr. cbv zeta. solve_quiet. apply quiet_xattr_call. solve_quiet. Qed.
Lemma quiet_getxattr i name size : quiet (fs_getxattr (H := H) cfg i name size).
Proof. unfold fs_getxattr. solve_quiet. by apply quiet_xattr_call. Qed.
Lemma quiet_listxattr i size : quiet (fs_listxattr (H := H) cfg i size).
Proof. unfold fs_listxattr. solve_quiet. by apply quiet_xattr_call. Qed.
Lemma quiet_removexattr i name : quiet (fs_removexattr (H := H) cfg i name).
Proof. unfold fs_removexattr. solve_quiet. by apply quiet_xattr_call. Qed.
#[local] Hint Resolve quiet_statfs quiet_setattr quiet_access quiet_setxattr quiet_getxattr quiet_listxattr quiet_removexattr : quiet.

(** *** Methods with names *)

Lemma spec_fail_last {A : Type} s a c (Q : post A) : (∀ e, Q (Err e) c) → spec s a c fail_last Q.
Proof. intros HQ h l a' Ha Hw. exists c. split; [apply HQ | done]. Qed.
Lemma spec_sys_bind {A B : Type} s a c (f : H → A * H) (k : A → M B) (Q : post B) :
  (∀ v s', spec s' a c (k v) Q) → spec s a c (sys f ≫= k) Q.
Proof.
  intros Hk h l a' Ha Hw. unfold mbind, stm_bind, sys. destruct (f (host s)) as [v hh]. by apply (Hk v (with_host hh s)).
Qed.

Lemma spec_make_node s a c parent name flags ext call :
  (∀ fd, quiet (call fd)) → spec s a c (make_node cfg parent name flags ext call) (grants entry_refs c).
Proof.
  intros Hcall. unfold make_node. apply spec_inode_bind; [intros d | done].
  apply spec_quiet_bind; [solve_quiet | intros fd s1 | done].
  eapply spec_got_bind; [apply spec_before_invalidating | intros o s2 | done].
  eapply spec_bind with (P := λ r c', match r with Ok _ => c' = option_list o ++ c | _ => c' = c end).
  - eapply spec_on_error; [by apply spec_quiet | by intros v c1 ->%same_iff|].
    intros e s' c1 ->. by apply (spec_drops _ _ _ _ c).
  - intros res s3 c1 ->. eapply spec_same_bind; [apply spec_after_invalidating | intros _ s4 | done].
    destruct (res <? 0); [by apply spec_fail_last|].
    apply spec_quiet_bind; [solve_quiet | intros _ s5 | done]. apply spec_do_lookup.
  - by intros e c1 ->.
Qed.

Lemma spec_link s a c i newparent newname : spec s a c (fs_link cfg i newparent newname) (grants entry_refs c).
Proof.
  unfold fs_link. do 2 (apply spec_inode_bind; [intros ? | done]).
  do 2 (apply spec_quiet_bind; [solve_quiet | intros ? ? | done]).
  eapply spec_got_bind; [apply spec_before_invalidating | intros o s1 | done].
  apply spec_sys_bind. intros res s2.
  eapply spec_same_bind; [apply spec_after_invalidating | intros _ s3 | done].
  destruct (res =? 0); [apply spec_do_lookup | by apply spec_fail_last].
Qed.

Lemma spec_rename s a c olddir oldname newdir newname flags :
  spec s a c (fs_rename cfg olddir oldname newdir newname flags) (same c).
Proof.
  unfold fs_rename. do 2 (apply spec_inode_bind; [intros ? | done]).
  do 2 (apply spec_quiet_bind; [solve_quiet | intros ? ? | done]).
  eapply spec_got_bind; [apply spec_before_invalidating | intros o s1 | done].
  apply spec_sys_bind. intros res s2.
  eapply spec_same_bind; [apply spec_after_invalidating | intros _ s3 | done].
  destruct (negb (res =? 0)); [by apply spec_fail_last|].
  apply spec_ignore, spec_update_inode_migration_info. apply list_elem_of_here.
Qed.

Lemma spec_unlink s a c parent name flags : spec s a c (do_unlink cfg parent name flags) (same c).
Proof.
  unfold do_unlink. apply spec_inode_bind; [intros d | done].
  apply spec_quiet_bind; [solve_quiet | intros fd s1 | done].
  eapply spec_got_bind; [apply spec_before_invalidating | intros o s2 | done].
  apply spec_sys_bind. intros res s3.
  eapply spec_same_bind; [apply spec_after_invalidating | intros _ s4 | done].
  destruct (res =? 0); [by apply spec_quiet | by apply spec_fail_last].
Qed.

(** [create] fails after its lookup without giving the reference back. *)
Definition created {A : Type} (entry : A → Entry) (c : list InodeData) : post A := λ r c',
  match r with
  | Ok v => ∃ x, entry_refs (entry v) x ∧ c' = x ++ c
  | _ => c' = c ∨ ∃ d, c' = d :: c
  end.

Lemma spec_lookup_then s a c parent name (k : Entry → M (Entry * Z)) :
  (∀ e, quiet (k e)) → (∀ e s1 v s2, k e s1 = (Ok v, s2) → v.1 = e) →
  spec s a c (do_lookup cfg parent name ≫= k) (created fst c).
Proof.
  intros Hk Hv. eapply spec_bind; [apply spec_do_lookup| |intros e c1 ->; by left].
  intros e s1 c1 (x & Hx & ->) h l a' Ha Hw. specialize (Hk e s1). specialize (Hv e s1).
  destruct (k e s1) as [[v|er|] s2]; [| |done]; exists (x ++ c); rewrite Hk.
  - split; [|done]. exists x. by rewrite (Hv v s2 eq_refl).
  - split; [|done]. right. destruct Hx as (d & -> & _). by exists d.
Qed.

Lemma spec_create s a c ctx parent name mode kill_priv flags umask ext :
  spec s a c (fs_create cfg ctx parent name mode kill_priv flags umask ext) (created (λ r, r.1.1) c).
Proof.
  unfold fs_create. apply spec_inode_bind; [intros d | by left].
  apply spec_quiet_bind; [solve_quiet | intros fd s1 | by left]. cbv zeta.
  apply spec_quiet_bind; [solve_quiet | intros r s2 | by left].
  eapply spec_bind with (P := created fst c); [| intros [e handle] s3 c1 Hc1; by apply spec_ret | done].
  destruct r as [e|fd'].
  - destruct (io_kind e); try by (apply spec_throw; left).
    destruct (flag flags O_EXCL); [apply spec_throw; by left|]. apply spec_lookup_then.
    + solve_quiet.
    + intros e' s3 v s4. unfold mbind, stm_bind. destruct (do_open _ _ _ _ _) as [[[o z]|?|] s5]; [|done|done].
      destruct o; [|done]. by intros [= <- <-].
  - apply spec_lookup_then.
    + solve_quiet.
    + intros e' s3 v s4. unfold mbind, stm_bind. simpl. destruct (allocate _ _ _) as [[?|?|] s5]; [|done|done].
      by intros [= <- <-].
Qed.

(** *** The mount *)

Lemma sound_adopt st h l a i : sound (mkWorld st h l a) → 0 < l i →
  ∃ d, inode d = i ∧ sound (mkWorld st (d :: h) (add_lookups l i (-1)) a).
Proof.
  intros Hw Hl. assert (outside (mkWorld st h l a) i ≠ 0) as Ho.
  { unfold outside. simpl. pose proof (refs_to_nonneg h i). lia. }
  destruct (ct_live _ _ (so_counted _ Hw) i Ho) as [d Hd]. simpl in Hd.
  destruct (ix_data _ (so_indexed _ Hw) i d Hd) as [Hi _]. exists d. split; [done|].
  apply (step_sound (mkWorld st h l a)); [|done]. rewrite <- Hi. apply (step_adopt (mkWorld st h l a) d); simpl.
  - unfold live. by rewrite Hi.
  - by rewrite Hi.
Qed.

(** The root is made with two references. *)
Definition root_refs (c : list InodeData) : list InodeData → Prop :=
  λ c', ∃ d e, inode d = ROOT_ID ∧ inode e = ROOT_ID ∧ c' = d :: e :: c.
Definition mounted_post {A : Type} (c : list InodeData) : post A :=
  λ r c', match r with Ok _ => root_refs c c' | _ => c' = c ∨ root_refs c c' end.

Lemma spec_new_inode s a c x :
  new_refcount x = 2 → new_id x = ROOT_ID →
  spec s a (infos_references (new_info x) ++ c) (in_store (new_inode x)) (mounted_post c).
Proof.
  intros H2 Hid. apply spec_in_store. intros h l a' r st' Ha Hw E Hr. rewrite <- app_assoc in Hw.
  apply (sound_new_inode _ x (c ++ h) r st' Hw) in E; [|done|lia|done]. simpl in E. rewrite H2, Hid in E.
  destruct r as [v|e|]; [|exists c; by split; [left|]|done]. simpl in E. pose proof (so_lookups _ Hw ROOT_ID) as Hl. simpl in Hl.
  apply (sound_adopt _ _ _ _ ROOT_ID) in E as (d & Hd & E); [|unfold add_lookups, upd; rewrite decide_True by done; lia].
  apply (sound_adopt _ _ _ _ ROOT_ID) in E as (e & He & E); [|unfold add_lookups, upd; rewrite !decide_True by done; lia].
  exists (e :: d :: c). split; [by exists e, d|]. eapply sound_equiv; [| |exact E]; [done|].
  intros i. unfold add_lookups, upd. repeat case_decide; subst; try done; lia.
Qed.

Lemma spec_open_root_node s a c : spec s a c (open_root_node cfg) (mounted_post c).
Proof.
  unfold open_root_node. do 4 (apply spec_quiet_bind; [solve_quiet | intros ? ? | by left]).
  match goal with |- spec ?st _ _ _ _ =>
    eapply (spec_got_bind st) with (f := λ r, infos_references (match r with inr info => Some info | inl _ => None end)) (c0 := c) end.
  - eapply spec_try.
    + apply (spec_new_internal _ a c RootNode). solve_quiet.
    + intros info c1 ->%got_ok. by apply got_ok.
    + intros e c1 ->. by apply got_ok.
  - intros r sr. cbv zeta. by apply (spec_new_inode sr a c (mkNewInode _ _ _ _ _ _)).
  - by left.
Qed.

Lemma spec_put_bind {B : Type} s a c s1 (k : unit → M B) (Q : post B) :
  inodes s1 = inodes s → spec s1 a c (k ()) Q → spec s a c (put s1 ≫= k) Q.
Proof. intros E Hk h l a' Ha Hw. rewrite <- E in Hw. exact (Hk h l a' Ha Hw). Qed.
Lemma quiet_options f : (∀ s, inodes (f s) = inodes s) → quiet (modify (E := io_error) f).
Proof. intros Hf s. apply Hf. Qed.

(** [init] after what it destroys. *)
Lemma spec_init s capable : ∃ m, fs_init cfg capable s = m (fs_destroy s).2 ∧ ∀ s1 a c, spec s1 a c m (mounted_post c).
Proof.
  eexists. split; [unfold fs_init; reflexivity|]. intros s1 a c.
  eapply spec_bind; [apply spec_open_root_node| |intros e c1 Hc1; exact Hc1]. intros v0 s2 c1 Hc1.
  assert (∀ (m : M Z), quiet m → ∀ s', spec s' a c1 m (mounted_post c)) as Hq.
  { intros m Hm s'. eapply spec_post; [|by apply spec_quiet]. intros [v|e|] c' Hr ->%same_iff; [exact Hc1 | by right | done]. }
  apply spec_get_bind. cbv zeta. apply spec_put_bind; [done|]. apply Hq. solve_quiet; apply quiet_options; done.
Qed.

(** *** Methods on handles *)

Lemma quiet_readlink i : quiet (fs_readlink (H := H) i).
Proof. unfold fs_readlink. solve_quiet. Qed.
Lemma quiet_readdir i handle size offset : quiet (fs_readdir (H := H) i handle size offset).
Proof. unfold fs_readdir. solve_quiet. Qed.
Lemma quiet_read i handle w size offset : quiet (fs_read (H := H) i handle w size offset).
Proof. unfold fs_read. solve_quiet. Qed.
Lemma quiet_write i handle r size offset delayed kill_priv flags :
  quiet (fs_write (H := H) cfg i handle r size offset delayed kill_priv flags).
Proof. unfold fs_write. solve_quiet_scopes. Qed.
Lemma quiet_flush i handle : quiet (fs_flush (H := H) i handle).
Proof. unfold fs_flush. solve_quiet. Qed.
Lemma quiet_fsync i datasync handle : quiet (fs_fsync (H := H) i datasync handle).
Proof. unfold fs_fsync. solve_quiet. Qed.
Lemma quiet_fallocate i handle mode offset len : quiet (fs_fallocate (H := H) i handle mode offset len).
Proof. unfold fs_fallocate. solve_quiet. Qed.
Lemma quiet_lseek i handle offset whence : quiet (fs_lseek (H := H) i handle offset whence).
Proof. unfold fs_lseek. solve_quiet. Qed.
Lemma quiet_copyfilerange i hi oi j hj oj len flags : quiet (fs_copyfilerange (H := H) i hi oi j hj oj len flags).
Proof. unfold fs_copyfilerange. solve_quiet. Qed.
Lemma quiet_syncfs i : quiet (fs_syncfs (H := H) cfg i).
Proof. unfold fs_syncfs. solve_quiet. Qed.

(** *** Methods that make a node *)

Lemma spec_mkdir s a c ctx parent name mode umask ext :
  spec s a c (fs_mkdir cfg ctx parent name mode umask ext) (grants entry_refs c).
Proof. apply spec_make_node. intros fd. solve_quiet_scopes. Qed.
Lemma spec_mknod s a c ctx parent name mode rdev umask ext :
  spec s a c (fs_mknod cfg ctx parent name mode rdev umask ext) (grants entry_refs c).
Proof. apply spec_make_node. intros fd. solve_quiet_scopes. Qed.
Lemma spec_symlink s a c ctx linkname parent name ext :
  spec s a c (fs_symlink cfg ctx linkname parent name ext) (grants entry_refs c).
Proof. apply spec_make_node. intros fd. solve_quiet_scopes. Qed.

End methods.

#[export] Hint Resolve quiet_do_open quiet_do_release quiet_do_getattr quiet_statfs quiet_setattr quiet_access quiet_setxattr
  quiet_getxattr quiet_listxattr quiet_removexattr quiet_readlink quiet_readdir quiet_read quiet_write quiet_flush quiet_fsync
  quiet_fallocate quiet_lseek quiet_copyfilerange quiet_syncfs : quiet.
