(* ===== verification/PassthroughSession.v ===== *)
(** * Sessions of the passthrough file system

    The requests of a guest, one after the other, against
    [passthrough/mod.rs]: what the guest has looked up and not forgotten stays
    in the inode store, and the counters there are exactly the guest's lookups,
    the migration information and what a failed [create] or [init] kept. *)

From stdpp Require Import base gmap list strings fin_maps.
From S2P Require Import Prelude HostFs Text Fuse FileSystem SoftIdMap XattrMap InodeStore InodeRefs InodeLife ReadDir PassthroughHost Passthrough PassthroughOps PassthroughRefs.
#[local] Open Scope Z_scope.

(** ** Lookups *)

(** The inodes that a reply hands to the guest; the root is made with two. *)
Definition replied {A : Type} (op : operation A) : A → list Z :=
  match op in operation A return A → list Z with
  | FInit _ => λ _, [ROOT_ID; ROOT_ID]
  | FLookup _ _ _ => λ e, [entry_inode e]
  | FSymlink _ _ _ _ _ => λ e, [entry_inode e]
  | FMknod _ _ _ _ _ _ _ => λ e, [entry_inode e]
  | FMkdir _ _ _ _ _ _ => λ e, [entry_inode e]
  | FLink _ _ _ _ => λ e, [entry_inode e]
  | FCreate _ _ _ _ _ _ _ _ => λ '(e, _, _), [entry_inode e]
  | _ => λ _, []
  end.

(** What a request that fails may keep. *)
Definition kept_on_failure {A : Type} (op : operation A) (js : list Z) : Prop :=
  js = [] ∨ match op with
            | FInit _ => js = [ROOT_ID; ROOT_ID]
            | FCreate _ _ _ _ _ _ _ _ => ∃ i, js = [i]
            | _ => False
            end.
Definition handed {A : Type} (op : operation A) (r : outcome io_error A) (js : list Z) : Prop :=
  match r with Ok v => js = replied op v | _ => kept_on_failure op js end.

Definition gains (l : Z → Z) (js : list Z) : Z → Z := foldl (λ l j, add_lookups l j 1) l js.

(** The requests that take lookups back. *)
Definition forgets (l : Z → Z) (requests : list (Z * Z)) : Z → Z := foldl (λ l '(i, n), add_lookups l i (- n)) l requests.
Fixpoint may_forget_all (l : Z → Z) (requests : list (Z * Z)) : bool :=
  match requests with
  | [] => true
  | (i, n) :: requests => (0 <=? n) && (n <=? l i) && may_forget_all (add_lookups l i (- n)) requests
  end.

Definition resets {A : Type} (op : operation A) : bool := match op with FInit _ | FDestroy => true | _ => false end.
Definition forgotten {A : Type} (op : operation A) : list (Z * Z) :=
  match op with FForget _ i n => [(i, n)] | FBatchForget _ requests => requests | _ => [] end.
Definition remaining {A : Type} (op : operation A) (l : Z → Z) : Z → Z :=
  if resets op then λ _, 0 else forgets l (forgotten op).

(** ** One request *)

Lemma sound_handed st c l a : sound (mkWorld st c l a) → sound (mkWorld st [] (gains l (inode <$> c)) a).
Proof.
  revert l. induction c as [|d c IH]; intros l Hw; [done|]. simpl. apply IH.
  apply (step_sound (mkWorld st (d :: c) l a)); [|done]. by apply (step_leak (mkWorld st (d :: c) l a) d c).
Qed.

Lemma sound_forgets requests st l a :
  may_forget_all l requests = true → sound (mkWorld st [] l a) →
  sound (mkWorld (forget_many requests st) [] (forgets l requests) a).
Proof.
  revert st l. induction requests as [|[i n] requests IH]; intros st l Hf Hw; [done|]. simpl in *.
  apply andb_prop in Hf as [Hn Hf]. apply IH; [done|]. by apply (sound_forget _ i n) in Hw; [|simpl; lia].
Qed.

Section requests.
Context {H : Type} `{Host H} (cfg : Config).

Lemma spec_run {A : Type} (s : PassthroughFs H) (m : stm (PassthroughFs H) io_error A) Q l r s' :
  spec s [] [] m Q → sound (mkWorld (inodes s) [] l []) → m s = (r, s') → r ≠ Panic →
  ∃ c, Q r c ∧ sound (mkWorld (inodes s') c l []).
Proof.
  intros Hm Hw E Hr. specialize (Hm [] l [] ltac:(done) Hw). rewrite E in Hm.
  destruct r; [| |done]; destruct Hm as (c & HQ & Hs); exists c; by rewrite app_nil_r in Hs.
Qed.

Lemma spec_nothing {A : Type} (op : operation A) (s : PassthroughFs H) m :
  (∀ v, replied op v = []) → quiet m → spec s [] [] m (λ r c, handed op r (inode <$> c)).
Proof.
  intros Hv Hm. eapply spec_post; [|by apply spec_quiet].
  intros [v|e|] c Hr ->%same_iff; simpl; [by rewrite Hv | by left | done].
Qed.
Lemma spec_entry (op : operation Entry) (s : PassthroughFs H) m :
  (∀ e, replied op e = [entry_inode e]) → spec s [] [] m (grants entry_refs []) →
  spec s [] [] m (λ r c, handed op r (inode <$> c)).
Proof.
  intros Hv Hm. eapply spec_post; [|exact Hm]. intros [v|e|] c Hr Hc; [| |done]; simpl.
  - destruct Hc as (x & (d & -> & Hd) & ->). by rewrite Hv, <- Hd.
  - rewrite Hc. by left.
Qed.
Lemma spec_same_nothing {A : Type} (op : operation A) (s : PassthroughFs H) m :
  (∀ v, replied op v = []) → spec s [] [] m (same []) → spec s [] [] m (λ r c, handed op r (inode <$> c)).
Proof.
  intros Hv Hm. eapply spec_post; [|exact Hm].
  intros [v|e|] c Hr ->%same_iff; simpl; [by rewrite Hv | by left | done].
Qed.

(** The requests that neither mount nor forget. *)
Definition plain {A : Type} (op : operation A) : bool :=
  match op with FInit _ | FDestroy | FForget _ _ _ | FBatchForget _ _ => false | _ => true end.

Lemma operation_refs {A : Type} (op : operation A) (s : PassthroughFs H) :
  plain op = true → spec s [] [] (Passthrough cfg A op) (λ r c, handed op r (inode <$> c)).
Proof.
  destruct op; intros Hp; try discriminate Hp; simpl Passthrough;
    lazymatch goal with
    | |- spec _ _ _ (do_unlink _ _ _ _) _ => apply spec_same_nothing; [done | apply spec_unlink]
    | |- spec _ _ _ (fs_rename _ _ _ _ _ _) _ => apply spec_same_nothing; [done | apply spec_rename]
    | |- spec _ _ _ (fs_create _ _ _ _ _ _ _ _ _) _ => idtac
    | |- spec _ _ _ (do_lookup _ _ _) _ => apply spec_entry; [done | apply spec_do_lookup]
    | |- spec _ _ _ (fs_symlink _ _ _ _ _ _) _ => apply spec_entry; [done | apply spec_symlink]
    | |- spec _ _ _ (fs_mknod _ _ _ _ _ _ _ _) _ => apply spec_entry; [done | apply spec_mknod]
    | |- spec _ _ _ (fs_mkdir _ _ _ _ _ _ _) _ => apply spec_entry; [done | apply spec_mkdir]
    | |- spec _ _ _ (fs_link _ _ _ _) _ => apply spec_entry; [done | apply spec_link]
    | |- _ => apply spec_nothing; [done | solve [auto 1 with quiet nocore]]
    end.
  eapply spec_post; [|apply spec_create]. intros [[[e handle] options]|e|] c Hr Hc; [| |done]; simpl.
  - destruct Hc as (x & (d & -> & Hd) & ->). simpl in *. by rewrite Hd.
  - destruct Hc as [->|[d ->]]; [by left | right; by exists (inode d)].
Qed.

Lemma forget_requests {A : Type} (op : operation A) (s : PassthroughFs H) :
  plain op = false → resets op = false →
  ∃ v, Passthrough cfg A op s = (Ok v, with_inodes (forget_many (forgotten op) (inodes s)) s) ∧ replied op v = [].
Proof. destruct op; intros Hp Hr; try discriminate Hp; try discriminate Hr; by exists (). Qed.

Lemma sound_destroyed (s : PassthroughFs H) l :
  sound (mkWorld (inodes s) [] l []) → sound (mkWorld (inodes (fs_destroy s).2) [] (λ _, 0) []).
Proof. intros Hw. by apply (step_sound (mkWorld (inodes s) [] l [])); [apply step_clear|]. Qed.

(** A request changes the guest's lookups by what it takes back and by what the
    reply hands out, and nothing else. *)
Lemma operation_lookups {A : Type} (op : operation A) (s : PassthroughFs H) l r s' :
  sound (mkWorld (inodes s) [] l []) → may_forget_all l (forgotten op) = true →
  Passthrough cfg A op s = (r, s') → r ≠ Panic →
  ∃ js, handed op r js ∧ sound (mkWorld (inodes s') [] (gains (remaining op l) js) []).
Proof.
  intros Hw Hf E Hr. destruct (plain op) eqn:Hp.
  - destruct (spec_run s _ _ l r s' (operation_refs op s Hp) Hw E Hr) as (c & Hc & Hs).
    exists (inode <$> c). split; [done|].
    assert (remaining op l = l) as -> by (by destruct op). by apply sound_handed.
  - destruct (resets op) eqn:Hre.
    + assert (remaining op l = λ _, 0) as -> by (unfold remaining; by rewrite Hre).
      pose proof (sound_destroyed s l Hw) as Hd. destruct op; try discriminate Hre.
      * destruct (spec_init cfg s capable) as (m & Hm & Hspec). simpl in E. rewrite Hm in E.
        destruct (spec_run _ m _ _ r s' (Hspec _ [] []) Hd E Hr) as (c & Hc & Hs). apply sound_handed in Hs.
        exists (inode <$> c). split; [|done]. destruct r as [v|e|]; [| |done].
        -- destruct Hc as (d & e & Hd1 & He1 & ->). simpl. by rewrite Hd1, He1.
        -- destruct Hc as [->|(d & e' & Hd1 & He1 & ->)]; [by left|]. right. simpl. by rewrite Hd1, He1.
      * simpl in E. injection E as <- <-. by exists [].
    + destruct (forget_requests op s Hp Hre) as (v & Ev & Hv). rewrite Ev in E. injection E as <- <-.
      exists []. split; [by rewrite <- Hv|]. unfold remaining. rewrite Hre. by apply sound_forgets.
Qed.

End requests.

(** ** Sessions *)

(** A request with its reply. *)
Definition event : Type := {A : Type & (operation A * outcome io_error A)%type}.
Definition Exchange {A : Type} (op : operation A) (r : outcome io_error A) : event := existT A (op, r).

(** What the guest knows of its lookups: from the replies alone. *)
Definition account (l : Z → Z) (e : event) : Z → Z :=
  let '(existT A (op, r)) := e in
  match r with Ok v => gains (remaining op l) (replied op v) | _ => remaining op l end.
Definition known (es : list event) : Z → Z := foldl account (λ _, 0) es.

(** The requests after which the server may keep a reference that the guest does
    not know of. *)
Definition kept_by (e : event) : bool :=
  let '(existT A (op, r)) := e in
  negb (is_ok r) && match op with FInit _ | FCreate _ _ _ _ _ _ _ _ => true | _ => false end.

Section session.
Context {H : Type} `{Host H} (cfg : Config).

(** Requests one after the other, of a guest that forgets what it has looked
    up. *)
Inductive session (s0 : PassthroughFs H) : list event → PassthroughFs H → Prop :=
  | session_start : session s0 [] s0
  | session_request es s A (op : operation A) r s' :
      session s0 es s → may_forget_all (known es) (forgotten op) = true →
      Passthrough cfg A op s = (r, s') → r ≠ Panic →
      session s0 (es ++ [Exchange op r]) s'.

End session.

(** *** Sums *)

Definition copies (js : list Z) (i : Z) : Z := Z.of_nat (length (filter (λ j, j = i) js)).
Definition total (requests : list (Z * Z)) (i : Z) : Z :=
  foldr (λ '(j, n) t, (if decide (j = i) then n else 0) + t) 0 requests.

Lemma add_lookups_at l j n i : add_lookups l j n i = l i + (if decide (j = i) then n else 0).
Proof. unfold add_lookups, upd. repeat case_decide; subst; done || lia. Qed.

Lemma gains_at l js i : gains l js i = l i + copies js i.
Proof.
  unfold gains, copies. revert l. induction js as [|j js IH]; intros l; simpl; [lia|].
  rewrite IH, add_lookups_at, filter_cons. case_decide; simpl; lia.
Qed.
Lemma forgets_at l requests i : forgets l requests i = l i - total requests i.
Proof.
  unfold forgets, total. revert l. induction requests as [|[j n] requests IH]; intros l; simpl; [lia|].
  rewrite IH, add_lookups_at. case_decide; lia.
Qed.

Lemma may_forget_more l l' requests :
  (∀ i, l i ≤ l' i) → may_forget_all l requests = true → may_forget_all l' requests = true.
Proof.
  revert l l'. induction requests as [|[j n] requests IH]; intros l l' Hl; simpl; [done|].
  intros [[Hn Hj]%andb_prop Hr]%andb_prop. specialize (Hl j) as Hlj. apply andb_true_intro. split; [lia|].
  eapply IH; [|exact Hr]. intros i. rewrite !add_lookups_at. specialize (Hl i). lia.
Qed.
Lemma forgets_nonneg l requests i : (∀ i, 0 ≤ l i) → may_forget_all l requests = true → 0 ≤ forgets l requests i.
Proof.
  revert l. induction requests as [|[j n] requests IH]; intros l Hl; simpl; [intros _; apply Hl|].
  intros [[Hn Hj]%andb_prop Hr]%andb_prop. apply IH; [|done]. intros k. rewrite add_lookups_at. specialize (Hl k).
  case_decide; [subst; lia | lia].
Qed.

Section sessions.
Context {H : Type} `{Host H} (cfg : Config).

(** Lookups that the guest does not know of. *)
Definition unknown (l leaked : Z → Z) (es : list event) : Prop :=
  (∀ i, l i = known es i + leaked i) ∧ (∀ i, 0 ≤ known es i) ∧ (∀ i, 0 ≤ leaked i) ∧
  (forallb (λ e, negb (kept_by e)) es = true → ∀ i, leaked i = 0).

Lemma unknown_request {A : Type} (op : operation A) r js l leaked es :
  unknown l leaked es → may_forget_all (known es) (forgotten op) = true → handed op r js →
  ∃ leaked', unknown (gains (remaining op l) js) leaked' (es ++ [Exchange op r]).
Proof.
  intros (Hl & Hk & Hn & Hzero) Hf Hjs.
  exists (λ i, (if resets op then 0 else leaked i) + if is_ok r then 0 else copies js i).
  assert (∀ i, remaining op l i = remaining op (known es) i + if resets op then 0 else leaked i) as Hrem.
  { intros i. unfold remaining. destruct (resets op); [done|]. rewrite !forgets_at, Hl. lia. }
  assert (∀ i, known (es ++ [Exchange op r]) i = remaining op (known es) i + if is_ok r then copies js i else 0) as Hknown.
  { intros i. unfold known. rewrite foldl_app. simpl. destruct r as [v|e|]; simpl in *; [|lia|lia]. subst js. by rewrite gains_at. }
  split_and!.
  - intros i. rewrite gains_at, Hrem, Hknown. destruct (is_ok r); lia.
  - intros i. rewrite Hknown. assert (0 ≤ remaining op (known es) i).
    { unfold remaining. destruct (resets op); [done | by apply forgets_nonneg]. }
    unfold copies. destruct (is_ok r); lia.
  - intros i. specialize (Hn i). unfold copies. destruct (resets op), (is_ok r); lia.
  - rewrite forallb_app. simpl. intros [Hes [He _]%andb_prop]%andb_prop i. rewrite (Hzero Hes).
    assert (is_ok r = false → js = []) as Hnil.
    { intros Hr. rewrite Hr in He. simpl in He. destruct r as [v|e|]; [done| |]; destruct Hjs as [->|Hjs]; try done; by destruct op. }
    destruct (is_ok r); [by destruct (resets op)|]. rewrite Hnil by done. by destruct (resets op).
Qed.

Lemma session_sound s0 es s :
  inodes s0 = InodeStore_default → session cfg s0 es s →
  ∃ l leaked, unknown l leaked es ∧ sound (mkWorld (inodes s) [] l []).
Proof.
  intros Hs0 Hs. induction Hs as [|es s A op r s' Hs (l & leaked & Hu & Hw) Hf E Hr].
  - exists (λ _, 0), (λ _, 0). split; [done|]. rewrite Hs0. apply sound_initial.
  - assert (may_forget_all l (forgotten op) = true) as Hf'.
    { eapply may_forget_more; [|exact Hf]. intros i. destruct Hu as (Hl & _ & Hn & _). rewrite Hl. specialize (Hn i). lia. }
    destruct (operation_lookups cfg op s l r s' Hw Hf' E Hr) as (js & Hjs & Hw').
    destruct (unknown_request op r js l leaked es Hu Hf Hjs) as [leaked' Hu']. eauto.
Qed.

(** C19. Over any sequence of requests of a guest that forgets no more than it
    has looked up, the counter of every inode in the store is what the guest has
    looked up and not forgotten, plus the migration information that names the
    inode, plus what failed [create] and [init] requests kept: nothing if none
    failed.  What the guest still has is in the store under its number. *)
Theorem passthrough_lookups s0 es s :
  inodes s0 = InodeStore_default → session cfg s0 es s →
  ∃ leaked : Z → Z,
    (∀ i, 0 ≤ leaked i) ∧
    (forallb (λ e, negb (kept_by e)) es = true → ∀ i, leaked i = 0) ∧
    (∀ i, 0 < known es i → ∃ d, get_inode (inodes s) i = Some d ∧ inode d = i) ∧
    (∀ i d c, data (inodes s) !! i = Some d → cells (inodes s) !! cell d = Some c →
       refcount c = known es i + leaked i + migs (inodes s) i ∧ 0 < refcount c).
Proof.
  intros Hs0 Hs. destruct (session_sound s0 es s Hs0 Hs) as (l & leaked & (Hl & _ & Hn & Hz) & Hw).
  exists leaked. split_and!; [done | done | |].
  - intros i Hi. destruct (sound_adopt _ _ _ _ i Hw) as (d & Hd & Hw'); [rewrite Hl; specialize (Hn i); lia|].
    exists d. split; [|done]. pose proof (so_held _ Hw' d (list_elem_of_here _ _)) as Hd'. unfold get_inode.
    by rewrite <- Hd.
  - intros i d c Hd Hc. destruct (ct_count _ _ (so_counted _ Hw) i d c Hd Hc) as [Hrc Hpos].
    split; [|lia]. rewrite Hrc. unfold outside. simpl. rewrite Hl. change (refs_to [] i) with 0. lia.
Qed.

End sessions.

(** ** Running a session *)

Section run.
Context {H : Type} `{Host H} (cfg : Config).

(** The requests until one is not allowed or the server panics. *)
Fixpoint serve_all (requests : list fs_request) (es : list event) (s : PassthroughFs H) : option (list event * PassthroughFs H) :=
  match requests with
  | [] => Some (es, s)
  | Request op :: requests =>
      if may_forget_all (known es) (forgotten op) then
        match Passthrough cfg _ op s with
        | (Panic, _) => None
        | (r, s') => serve_all requests (es ++ [Exchange op r]) s'
        end
      else None
  end.

Lemma serve_all_session s0 requests es s es' s' :
  session cfg s0 es s → serve_all requests es s = Some (es', s') → session cfg s0 es' s'.
Proof.
  revert es s. induction requests as [|[A op] requests IH]; intros es s Hs; simpl; [by intros [= <- <-]|].
  destruct (may_forget_all _ _) eqn:Hf; [|done]. destruct (Passthrough cfg A op s) as [r s1] eqn:E.
  destruct r as [v|e|]; [| |done]; apply IH; by apply (session_request _ _ es s).
Qed.
End run.

(** ** A directory *)

(** The names in the directory, and [errno]. *)
Definition directory : Type := list string * Z.

Definition name_fd (names : list string) (name : string) : Z :=
  match list_find (λ n, n = name) names with Some (k, _) => 101 + Z.of_nat k | None => -1 end.
Definition dir_open (dirfd : Z) (name : string) (flags mode : Z) (h : directory) : Z * directory :=
  if dirfd =? 3 then (50, h)
  else if dirfd =? AT_FDCWD then (100, h)
  else if name_fd h.1 name =? -1 then
    if flag flags O_CREAT then (name_fd (h.1 ++ [name]) name, (h.1 ++ [name], h.2)) else (-1, (h.1, 2))
  else if flag flags O_EXCL then (-1, (h.1, 17)) else (name_fd h.1 name, h).
Definition dir_add (name : string) (h : directory) : Z * directory :=
  if decide (name ∈ h.1) then (-1, (h.1, 17)) else (0, (h.1 ++ [name], h.2)).
Definition dir_stat (fd : Z) : StatExt :=
  mkStatExt (mkStat64 fd (if fd =? 100 then S_IFDIR + 493 else S_IFREG + 420) 1 0 0 0 0 4096 0 0 0 0 0 0 0) 1 1.
Definition zero {A : Type} (h : A) : Z * A := (0, h).

#[local] Instance dir_host : Host directory := {
  h_errno := snd;
  h_openat := dir_open;
  h_openat2 := dir_open;
  h_name_to_handle_at _ _ _ h := (None, (h.1, 95));
  h_open_by_handle_at _ _ _ h := (-1, (h.1, 95));
  h_mount_fd _ h := (Err ebadf, h);
  h_statx fd _ h := (Ok (dir_stat fd), h);
  h_fstatvfs64 _ h := (0, mkStatvfs64 0 0 0 0 0 0 0 0, h);
  h_readlinkat _ _ _ h := (1, [47], h);
  h_mkdirat _ name _ := dir_add name;
  h_mknodat _ name _ _ := dir_add name;
  h_symlinkat _ _ name := dir_add name;
  h_linkat _ _ _ name _ := dir_add name;
  h_renameat2 _ _ _ _ _ := zero;
  h_unlinkat _ name _ h := (0, (filter (λ n, n ≠ name) h.1, h.2));
  h_fchmod _ _ := zero;
  h_fchmodat _ _ _ _ := zero;
  h_fchownat _ _ _ _ _ := zero;
  h_ftruncate _ _ := zero;
  h_futimens _ _ _ := zero;
  h_utimensat _ _ _ _ _ := zero;
  h_fsetxattr _ _ _ _ := zero;
  h_setxattr _ _ _ _ := zero;
  h_fgetxattr _ _ _ h := (0, [], h);
  h_getxattr _ _ _ h := (0, [], h);
  h_flistxattr _ _ h := (0, [], h);
  h_listxattr _ _ h := (0, [], h);
  h_fremovexattr _ _ := zero;
  h_removexattr _ _ := zero;
  h_dup _ h := (60, h);
  h_close _ := zero;
  h_fsync _ := zero;
  h_fdatasync _ := zero;
  h_fallocate _ _ _ _ := zero;
  h_lseek _ _ _ := zero;
  h_copy_file_range _ _ _ _ _ _ := zero;
  h_syncfs _ := zero;
  h_getdents _ _ h := (0, [], h);
  h_preadv _ _ _ _ h := (Ok [], h);
  h_pwritev _ _ _ _ _ h := (Ok 0, h);
  h_fchdir _ := zero;
  h_umask _ := zero;
  h_geteuid := zero;
  h_getegid := zero;
  h_seteffuid _ := zero;
  h_seteffgid _ := zero;
  h_setsupgroup _ := zero;
  h_dropsupgroups := zero;
  h_add_cap _ h := (Ok (), h);
  h_drop_effective_cap _ h := (Ok false, h);
  h_restore_cap _ h := (Ok (), h);
}.

Definition dir_config (limit : Z) : Config :=
  mkConfig (mkDuration 1 0) (mkDuration 1 0) CacheAuto false "/share" false None None false HandlesNever true false false
    false false false false false FindPaths limit (λ i, Ok i) (λ i, Ok i) (λ i, Ok i) (λ i, Ok i) false 3 4.
Definition dir_start (names : list string) : PassthroughFs directory :=
  mkPassthroughFs (names, 0) InodeStore_default 2 ∅ 0 false false false false true.

Definition dir_ctx : Context := mkContext 0 0 1.
Definition dir_requests : list fs_request :=
  [Request (FInit 0); Request (FLookup dir_ctx 1 "a"); Request (FLookup dir_ctx 1 "a");
   Request (FMkdir dir_ctx 1 "d" 493 0 Extensions_default); Request (FLookup dir_ctx 1 "missing");
   Request (FForget dir_ctx 2 1); Request (FUnlink dir_ctx 1 "a")].
Definition dir_session : list event * PassthroughFs directory :=
  default ([], dir_start []) (serve_all (dir_config 100) dir_requests [] (dir_start ["a"; "b"])).

Lemma passthrough_lookups_witness :
  (∃ d, get_inode (inodes dir_session.2) 3 = Some d ∧ inode d = 3) ∧
  ∀ d c, data (inodes dir_session.2) !! 1 = Some d → cells (inodes dir_session.2) !! cell d = Some c →
    refcount c = 2 + migs (inodes dir_session.2) 1.
Proof.
  destruct (passthrough_lookups (dir_config 100) (dir_start ["a"; "b"]) dir_session.1 dir_session.2)
    as (leaked & _ & H0 & Hk & Hc).
  - reflexivity.
  - apply (serve_all_session (dir_config 100) _ dir_requests [] (dir_start ["a"; "b"])); [constructor|].
    vm_compute. reflexivity.
  - split; [apply Hk; vm_compute; reflexivity|]. intros d c Hd Hcell.
    destruct (Hc 1 d c Hd Hcell) as [-> _]. rewrite (H0 ltac:(vm_compute; reflexivity) 1).
    assert (known dir_session.1 1 = 2) as -> by (vm_compute; reflexivity). by rewrite Z.add_0_r.
Defined.

(** A [create] that fails after its lookup (here for want of descriptors) keeps
    the reference: the guest was not told of the inode. *)
Example failed_create_keeps_reference :
  ∃ es s e c, serve_all (dir_config 2)
    [Request (FInit 0); Request (FCreate dir_ctx 1 "new" 420 false O_WRONLY 0 Extensions_default)] [] (dir_start []) = Some (es, s) ∧
  nth_error es 1 = Some (Exchange (FCreate dir_ctx 1 "new" 420 false O_WRONLY 0 Extensions_default) (Err e)) ∧
  raw_os_error e = Some ENFILE ∧ known es 2 = 0 ∧
  (d ← data (inodes s) !! 2; cells (inodes s) !! cell d) = Some c ∧ refcount c = 1.
Proof. do 4 eexists. split; [vm_compute; reflexivity|]. vm_compute. repeat split. Qed.
