(* ===== verification/PassthroughHandles.v ===== *)
(** * Handles of the passthrough file system

    The table of open files of [passthrough/mod.rs] over a session: it is what
    the guest can tell from the replies, and a handle is good for the inode it
    was opened for and for nothing else. *)

From stdpp Require Import base gmap list strings fin_maps.
From S2P Require Import Prelude HostFs Text Fuse FileSystem SoftIdMap XattrMap InodeStore InodeLife ReadDir PassthroughHost Passthrough PassthroughOps PassthroughSession.
#[local] Open Scope Z_scope.

(** ** What the guest knows *)

(** The handle that a reply hands out, with its inode. *)
Definition opened {A : Type} (op : operation A) : A → option (Z * Z) :=
  match op in operation A return A → option (Z * Z) with
  | FOpen _ i _ _ => λ '(o, _), (λ h, (h, i)) <$> o
  | FOpendir _ i _ => λ '(o, _), (λ h, (h, i)) <$> o
  | FCreate _ _ _ _ _ _ _ _ => λ '(e, o, _), (λ h, (h, entry_inode e)) <$> o
  | _ => λ _, None
  end.
Definition released {A : Type} (op : operation A) : option Z :=
  match op with FRelease _ _ _ h _ _ _ | FReleasedir _ _ _ h => Some h | _ => None end.

Definition account_handles (m : gmap Z Z) (e : event) : gmap Z Z :=
  let '(existT A (op, r)) := e in
  if resets op then ∅
  else match r with
       | Ok v =>
           match opened op v, released op with
           | Some (h, i), _ => <[h := i]> m
           | None, Some h => delete h m
           | None, None => m
           end
       | _ => m
       end.
Definition known_handles (es : list event) : gmap Z Z := foldl account_handles ∅ es.

(** The inode and the handle of a request on an open file. *)
Definition uses {A : Type} (op : operation A) : option (Z * Z) :=
  match op with
  | FRead _ i h _ _ _ _ _ | FWrite _ i h _ _ _ _ _ _ _ | FFlush _ i h _ | FFsync _ i _ h | FFsyncdir _ i _ h
  | FFallocate _ i h _ _ _ | FLseek _ i h _ _ | FRelease _ i _ h _ _ _ | FReleasedir _ i _ h
  | FCopyfilerange _ i h _ _ _ _ _ _ => Some (i, h)
  | FReaddir _ i h size _ => if size =? 0 then None else Some (i, h)
  | _ => None
  end.

(** ** Requests that leave the table alone *)

Section handles.
Context {H : Type} `{Host H} (cfg : Config).
Abbreviation M := (stm (PassthroughFs H) io_error).

Definition same_handles (s s' : PassthroughFs H) : Prop := handles s' = handles s ∧ next_handle s' = next_handle s.
#[local] Instance same_handles_preorder : PreOrder same_handles.
Proof. split; [done|]. intros s1 s2 s3 [H1 H2] [H3 H4]. split; congruence. Qed.
Abbreviation keeps := (guarantees (E := io_error) same_handles).

Lemma keeps_sys {A : Type} (f : H → A * H) : keeps (sys f).
Proof. intros s. unfold sys. by destruct (f (host s)). Qed.
Lemma keeps_sys_result {A : Type} (f : H → outcome io_error A * H) : keeps (sys_result f).
Proof. intros s. unfold sys_result. by destruct (f (host s)). Qed.
Lemma keeps_in_store {A : Type} (m : stm InodeStore io_error A) : keeps (in_store m).
Proof. apply guarantees_zoom. done. Qed.
Lemma keeps_on_store f : keeps (on_store f).
Proof. by apply guarantees_modify. Qed.
Lemma keeps_panic {A : Type} : keeps (panic (A := A)).
Proof. done. Qed.
Lemma keeps_finally {A : Type} (cleanup : M unit) (m : M A) : keeps cleanup → keeps m → keeps (finally cleanup m).
Proof.
  intros Hc Hm s. unfold finally. specialize (Hm s). destruct (m s) as [[v|e|] s1]; simpl in *; [| |done];
    specialize (Hc s1); destruct (cleanup s1) as [[] s2]; simpl in *; by transitivity s1.
Qed.
Lemma keeps_on_error {A : Type} (cleanup : M unit) (m : M A) : keeps cleanup → keeps m → keeps (on_error cleanup m).
Proof.
  intros Hc Hm s. unfold on_error. specialize (Hm s). destruct (m s) as [[v|e|] s1]; simpl in *; [done| |done];
    specialize (Hc s1); destruct (cleanup s1) as [[] s2]; simpl in *; by transitivity s1.
Qed.
Lemma keeps_fetch_next_inode : keeps fetch_next_inode.
Proof. done. Qed.
Lemma keeps_restore cap : keeps (λ s, match sys_result (h_restore_cap cap) s with
                                      | (Ok _, s') => (Ok (), s')
                                      | (_, s') => (Panic, s')
                                      end).
Proof. intros s. pose proof (keeps_sys_result (h_restore_cap cap) s) as Hk. by destruct (sys_result _ s) as [[] s']. Qed.
#[local] Hint Resolve keeps_sys keeps_sys_result keeps_in_store keeps_on_store keeps_panic keeps_fetch_next_inode keeps_restore : guarantees.

(** Down to the calls of the host and the steps of the store. *)
Ltac head t := lazymatch t with ?f _ => head f | _ => t end.
Ltac keep :=
  repeat first
    [ progress guarantee
    | apply keeps_finally
    | apply keeps_on_error
    | lazymatch goal with
      | |- keeps (let '(_, _) := ?x in _) => destruct x
      | |- keeps ?m => let f := head m in unfold f
      end ].

Lemma keeps_migration_info_new parent name f : keeps (migration_info_new cfg parent name f).
Proof. keep. Qed.
Lemma keeps_try_lookup_implementation p name : keeps (try_lookup_implementation cfg p name).
Proof. keep. Qed.
#[local] Hint Resolve keeps_migration_info_new keeps_try_lookup_implementation : guarantees.
Lemma keeps_do_lookup parent name : keeps (do_lookup cfg parent name).
Proof. keep. Qed.
#[local] Hint Resolve keeps_do_lookup : guarantees.
Lemma keeps_walk_element parent e : keeps (walk_element cfg parent e).
Proof. keep. Qed.
Lemma keeps_walk_path parent elements : keeps (walk_path cfg parent elements).
Proof.
  revert parent. induction elements as [|e elements IH]; intros parent; simpl; [apply guarantees_ret; apply _|].
  apply guarantees_bind; [apply _ | apply keeps_walk_element | apply IH].
Qed.
#[local] Hint Resolve keeps_walk_path : guarantees.
Lemma keeps_after_invalidating o : keeps (after_invalidating cfg o).
Proof. keep. Qed.
Lemma keeps_clear_file_capabilities fd o_path : keeps (clear_file_capabilities cfg fd o_path).
Proof. keep. Qed.
Lemma keeps_update_inode_migration_info p name : keeps (update_inode_migration_info cfg p name).
Proof. keep. Qed.
Lemma keeps_with_credentials {A : Type} ctx ext (m : M A) : keeps m → keeps (with_credentials cfg ctx ext m).
Proof. intros Hm. keep. Qed.
#[local] Hint Resolve keeps_after_invalidating keeps_clear_file_capabilities keeps_update_inode_migration_info
  keeps_with_credentials : guarantees.

(** Requests that neither open nor close. *)
Definition plain_handles {A : Type} (op : operation A) : bool :=
  match op with
  | FInit _ | FDestroy | FOpen _ _ _ _ | FOpendir _ _ _ | FCreate _ _ _ _ _ _ _ _ | FRelease _ _ _ _ _ _ _ | FReleasedir _ _ _ _ => false
  | _ => true
  end.

Lemma operation_handles {A : Type} (op : operation A) : plain_handles op = true → keeps (Passthrough cfg A op).
Proof. destruct op; intros Hp; try discriminate Hp; simpl Passthrough; keep. Qed.

(** ** Requests that open *)

(** The next handle is handed out, or nothing is. *)
Definition opens {A : Type} (f : A → option (Z * Z)) (m : M A) : Prop := ∀ s,
  match m s with
  | (Panic, _) => True
  | (Ok v, s') =>
      ∃ i hd, f v = Some (next_handle s, i) ∧ hd_inode hd = i ∧ handles s' = <[next_handle s := hd]> (handles s) ∧
      next_handle s' = as_u64 (next_handle s + 1)
  | (Err _, s') =>
      handles s' = handles s ∧ (next_handle s' = next_handle s ∨ next_handle s' = as_u64 (next_handle s + 1))
  end.

Lemma opens_throw {A : Type} (f : A → option (Z * Z)) e : opens f (throw e).
Proof. intros s. simpl. auto. Qed.
Lemma opens_bind {A B : Type} (f : B → option (Z * Z)) (m : M A) (k : A → M B) :
  keeps m → (∀ v, opens f (k v)) → opens f (m ≫= k).
Proof.
  intros Hm Hk s. unfold mbind, stm_bind. specialize (Hm s). destruct (m s) as [[v|e|] s1]; simpl in Hm; [| |done].
  - specialize (Hk v s1). destruct Hm as [Hh Hn]. by rewrite Hh, Hn in Hk.
  - destruct Hm as [Hh Hn]. auto.
Qed.
Lemma opens_then {A B : Type} (f : B → option (Z * Z)) (g : A → option (Z * Z)) (m : M A) (k : A → M B) :
  opens g m → (∀ v h i, g v = Some (h, i) → ∃ w, k v = mret w ∧ f w = Some (h, i)) → opens f (m ≫= k).
Proof.
  intros Hm Hk s. unfold mbind, stm_bind. specialize (Hm s). destruct (m s) as [[v|e|] s1]; [|done|done].
  destruct Hm as (i & hd & Hg & Hrest). destruct (Hk v _ _ Hg) as (w & -> & Hw). by exists i, hd.
Qed.
Lemma opens_insert {A : Type} (f : A → option (Z * Z)) file i flags (k : Z → A) :
  (∀ h, f (k h) = Some (h, i)) →
  opens f (handle ← fetch_next_handle; fd ← allocate cfg file; _ ← insert_handle handle (mkHandleData i (HandleFile fd) flags); mret (k handle)).
Proof.
  intros Hf s. unfold mbind, stm_bind. simpl. unfold allocate, mbind, stm_bind. simpl.
  destruct (_ <=? 0); simpl; [auto|]. by exists i, (mkHandleData i (HandleFile file) flags).
Qed.

Lemma opens_do_open (op : operation (option Z * Z)) i kill_priv flags :
  (∀ h n, opened op (Some h, n) = Some (h, i)) → opens (opened op) (do_open cfg i kill_priv flags).
Proof.
  intros Hop. unfold do_open. cbv zeta. apply opens_bind; [keep|]. intros file. apply opens_bind; [keep|]. intros _.
  apply (opens_insert (opened op) file i _ (λ h, (Some h, _))). intros h. apply Hop.
Qed.

Lemma keeps_do_create ctx fd name mode flags umask ext : keeps (do_create cfg ctx fd name mode flags umask ext).
Proof. keep. Qed.

Lemma opens_create ctx parent name mode kill_priv flags umask ext :
  opens (opened (FCreate ctx parent name mode kill_priv flags umask ext)) (fs_create cfg ctx parent name mode kill_priv flags umask ext).
Proof.
  unfold fs_create. apply opens_bind; [keep|]. intros d. apply opens_bind; [keep|]. intros fd. cbv zeta.
  apply opens_bind; [apply guarantees_try, keeps_do_create|]. intros r.
  apply (opens_then _ (λ '(e, h), Some (h, entry_inode e))); [|intros [e h] h' i Hh; injection Hh as <- <-; by eexists].
  destruct r as [e|fd'].
  - destruct (io_kind e); try apply opens_throw. destruct (flag flags O_EXCL); [apply opens_throw|].
    apply opens_bind; [apply keeps_do_lookup|]. intros entry.
    apply (opens_then _ (opened (FOpen ctx (entry_inode entry) kill_priv flags))); [by apply opens_do_open|].
    intros [o n] h i Ho. simpl in Ho. destruct o as [h'|]; [|done]. injection Ho as <- <-. by eexists.
  - apply opens_bind; [apply keeps_do_lookup|]. intros entry.
    by apply (opens_insert _ fd' (entry_inode entry) _ (λ h, (entry, h))).
Qed.

(** ** Requests that close *)

Lemma do_release_handles i h (s : PassthroughFs H) r s' :
  do_release i h s = (r, s') →
  match r with
  | Ok _ => handles s' = delete h (handles s) ∧ next_handle s' = next_handle s
  | _ => s' = s
  end.
Proof.
  unfold do_release, mbind, stm_bind. simpl. destruct (handles s !! h) as [hd|]; [|by intros [= <- <-]].
  destruct (_ =? _); by intros [= <- <-].
Qed.

Lemma find_handle_refused h i (s : PassthroughFs H) {B : Type} (k : HandleData → M B) :
  (hd_inode <$> handles s) !! h ≠ Some i → (find_handle h i ≫= k) s = (Err ebadf, s).
Proof.
  rewrite lookup_fmap. intros Hne. unfold find_handle, mbind, stm_bind. simpl.
  destruct (handles s !! h) as [hd|]; [|done]. destruct (Z.eqb_spec (hd_inode hd) i) as [E|E]; [|done].
  simpl in Hne. by rewrite E in Hne.
Qed.

Lemma do_release_refused h i (s : PassthroughFs H) :
  (hd_inode <$> handles s) !! h ≠ Some i → do_release i h s = (Err ebadf, s).
Proof.
  rewrite lookup_fmap. intros Hne. unfold do_release, mbind, stm_bind. simpl.
  destruct (handles s !! h) as [hd|]; [|done]. destruct (Z.eqb_spec (hd_inode hd) i) as [E|E]; [|done].
  simpl in Hne. by rewrite E in Hne.
Qed.

(** ** Sessions *)

(** The table, what the guest knows of it, and the next handle. *)
Record table_ok (es : list event) (s : PassthroughFs H) : Prop := {
  tb_known : hd_inode <$> handles s = known_handles es;
  tb_next : ∃ n : nat, (n ≤ length es)%nat ∧ next_handle s = as_u64 (Z.of_nat n) ∧
    (Z.of_nat n ≤ 2 ^ 64 → ∀ h i, known_handles es !! h = Some i → 0 ≤ h < Z.of_nat n);
}.

Lemma known_handles_snoc es e : known_handles (es ++ [e]) = account_handles (known_handles es) e.
Proof. unfold known_handles. by rewrite foldl_app. Qed.

(** The table after a request that handed out no handle. *)
Lemma table_kept es e (s s' : PassthroughFs H) :
  table_ok es s → hd_inode <$> handles s' = account_handles (known_handles es) e →
  account_handles (known_handles es) e ⊆ known_handles es →
  next_handle s' = next_handle s ∨ next_handle s' = as_u64 (next_handle s + 1) →
  table_ok (es ++ [e]) s'.
Proof.
  intros [Hk (n & Hlen & Hn & Hb)] Hh Hsub Hnext. split; rewrite known_handles_snoc; [done|].
  destruct Hnext as [E|E].
  - exists n. rewrite length_app. split_and!; [simpl; lia | by rewrite E|]. intros Hle h i Hi.
    apply (Hb Hle h i). by eapply lookup_weaken.
  - exists (S n). rewrite length_app. split_and!; [simpl; lia | |].
    + rewrite E, Hn. unfold as_u64. rewrite Zplus_mod_idemp_l. f_equal. lia.
    + intros Hle h i Hi. assert (0 ≤ h < Z.of_nat n); [|lia]. apply (Hb ltac:(lia) h i). by eapply lookup_weaken.
Qed.

Lemma table_opened es e (s s' : PassthroughFs H) i hd :
  table_ok es s → account_handles (known_handles es) e = <[next_handle s := i]> (known_handles es) →
  hd_inode hd = i → handles s' = <[next_handle s := hd]> (handles s) → next_handle s' = as_u64 (next_handle s + 1) →
  table_ok (es ++ [e]) s'.
Proof.
  intros [Hk (n & Hlen & Hn & Hb)] He Hi Hh Hnext. split; rewrite known_handles_snoc, He.
  - rewrite Hh, fmap_insert, Hk. by rewrite Hi.
  - exists (S n). rewrite length_app. split_and!; [simpl; lia | |].
    + rewrite Hnext, Hn. unfold as_u64. rewrite Zplus_mod_idemp_l. f_equal. lia.
    + intros Hle h j [[<- _]|[_ Hj]]%lookup_insert_Some.
      * rewrite Hn. unfold as_u64. rewrite Z.mod_small by lia. lia.
      * assert (0 ≤ h < Z.of_nat n); [|lia]. apply (Hb ltac:(lia) h j Hj).
Qed.

Lemma table_opens {A : Type} (op : operation A) (m : M A) es s r s' :
  opens (opened op) m → resets op = false → released op = None → table_ok es s → m s = (r, s') → r ≠ Panic →
  table_ok (es ++ [Exchange op r]) s'.
Proof.
  intros Hm Hre Hrel Ht E Hr. specialize (Hm s). rewrite E in Hm. destruct r as [v|e|]; [| |done].
  - destruct Hm as (i & hd & Hv & Hi & Hh & Hn). eapply table_opened; try done. simpl. by rewrite Hre, Hv.
  - destruct Hm as [Hh Hn]. eapply table_kept; try done; simpl; rewrite Hre, ?Hh; [apply Ht | done].
Qed.

(** [init] and [destroy] empty the table. *)
Lemma keeps_get_put {B : Type} (f : PassthroughFs H → PassthroughFs H) (k : PassthroughFs H → unit → M B) :
  (∀ s, same_handles s (f s)) → (∀ s, keeps (k s ())) → keeps (s ← get; put (f s) ≫= k s).
Proof. intros Hf Hk s. transitivity (f s); [apply Hf | apply Hk]. Qed.

Lemma init_handles capable (s : PassthroughFs H) :
  handles (fs_init cfg capable s).2 = ∅ ∧ next_handle (fs_init cfg capable s).2 = next_handle s.
Proof.
  assert (∃ m, keeps m ∧ fs_init cfg capable s = m (fs_destroy s).2) as (m & Hm & ->); [|exact (Hm (fs_destroy s).2)].
  eexists. split; [|unfold fs_init; reflexivity]. apply guarantees_bind; [apply _ | keep|]. intros _.
  apply (keeps_get_put (λ s, with_options _ _ (posix_acl s) (sup_group_extension s) s)); [done|]. intros s1. cbv zeta.
  guarantee; apply guarantees_modify; done.
Qed.

Lemma table_released (op : operation unit) i h es s r s' :
  opened op () = None → resets op = false → released op = Some h → table_ok es s →
  do_release i h s = (r, s') → r ≠ Panic → table_ok (es ++ [Exchange op r]) s'.
Proof.
  intros Ho Hre Hrel Ht E Hr. apply do_release_handles in E. destruct r as [[]|e|]; [| |done].
  - destruct E as [Hh Hn]. eapply table_kept; [exact Ht | | | by left]; simpl; rewrite Hre, Ho, Hrel.
    + by rewrite Hh, fmap_delete, (tb_known _ _ Ht).
    + apply delete_subseteq.
  - subst s'. eapply table_kept; [exact Ht | | | by left]; simpl; rewrite Hre; [apply Ht | done].
Qed.

(** The handle of a reply is the next one. *)
Lemma opened_next {A : Type} (op : operation A) s v s' h i :
  Passthrough cfg A op s = (Ok v, s') → opened op v = Some (h, i) → h = next_handle s.
Proof.
  intros E Hv. assert (opens (opened op) (Passthrough cfg A op)) as Ho.
  { destruct op; try discriminate Hv; simpl Passthrough; [by apply opens_do_open | apply opens_create | by apply opens_do_open]. }
  specialize (Ho s). rewrite E in Ho. destruct Ho as (j & hd & Hj & _). congruence.
Qed.

(** A handle that is not the inode's. *)
Lemma unknown_handle {A : Type} (op : operation A) (s : PassthroughFs H) i h :
  uses op = Some (i, h) → (hd_inode <$> handles s) !! h ≠ Some i → Passthrough cfg A op s = (Err ebadf, s).
Proof.
  intros Hu Hne. destruct op; try discriminate Hu; simpl in Hu; simplify_eq; simpl Passthrough.
  all: try first [by apply find_handle_refused | by apply do_release_refused].
  unfold fs_readdir. destruct (size =? 0); simplify_eq. by apply find_handle_refused.
Qed.

Lemma table_request {A : Type} (op : operation A) es s r s' :
  table_ok es s → Passthrough cfg A op s = (r, s') → r ≠ Panic → table_ok (es ++ [Exchange op r]) s'.
Proof.
  intros Ht E Hr. destruct (plain_handles op) eqn:Hp.
  - pose proof (operation_handles op Hp s) as [Hh Hn]. rewrite E in Hh, Hn. simpl in Hh, Hn.
    assert (account_handles (known_handles es) (Exchange op r) = known_handles es) as He.
    { destruct op; try discriminate Hp; by destruct r. }
    eapply table_kept; rewrite ?He, ?Hh; [exact Ht | apply Ht | done | by left].
  - destruct op; try discriminate Hp; simpl in E.
    + pose proof (init_handles capable s) as [Hh Hn]. rewrite E in Hh, Hn. simpl in Hh, Hn.
      eapply table_kept; [exact Ht | by rewrite Hh, fmap_empty | apply map_empty_subseteq | by left].
    + injection E as <- <-. eapply table_kept; [exact Ht | apply fmap_empty | apply map_empty_subseteq | by left].
    + by eapply (table_opens _ _ _ _ _ _ (opens_do_open (FOpen ctx inode kill_priv flags) _ _ _ (λ _ _, eq_refl))).
    + by eapply (table_opens _ _ _ _ _ _ (opens_create _ _ _ _ _ _ _ _)).
    + by eapply table_released.
    + by eapply (table_opens _ _ _ _ _ _ (opens_do_open (FOpendir ctx inode flags) _ _ _ (λ _ _, eq_refl))).
    + by eapply table_released.
Qed.

Lemma session_table s0 es s :
  handles s0 = ∅ → next_handle s0 = 0 → session cfg s0 es s → table_ok es s.
Proof.
  intros Hh Hn Hs. induction Hs as [|es s A op r s' Hs IH Hf E Hr]; [|by eapply table_request].
  split; [by rewrite Hh, fmap_empty|]. exists 0%nat. split_and!; [done | by rewrite Hn|]. intros _ h i Hi. done.
Qed.

(** C20. Over any session the table of open files is what the guest knows from
    the replies: the handles of successful [open], [opendir] and [create]
    requests that were not released since, each with its inode.  A new handle
    is none of those, as long as there were fewer than 2^64 requests.  And a
    request on a handle that is not open for its inode fails with EBADF and has
    no effect, on the host or anywhere. *)
Theorem passthrough_handles s0 es s :
  handles s0 = ∅ → next_handle s0 = 0 → session cfg s0 es s →
  hd_inode <$> handles s = known_handles es ∧
  (Z.of_nat (length es) < 2 ^ 64 →
   ∀ (A : Type) (op : operation A) v s' h i,
     Passthrough cfg A op s = (Ok v, s') → opened op v = Some (h, i) → known_handles es !! h = None) ∧
  (∀ (A : Type) (op : operation A) i h,
     uses op = Some (i, h) → known_handles es !! h ≠ Some i → Passthrough cfg A op s = (Err ebadf, s)).
Proof.
  intros Hh Hn Hs. destruct (session_table s0 es s Hh Hn Hs) as [Hk (n & Hlen & Hnext & Hb)]. split_and!; [done | |].
  - intros Hlt A op v s' h i E Hv. rewrite (opened_next op s v s' h i E Hv), Hnext. unfold as_u64. rewrite Z.mod_small by lia.
    destruct (known_handles es !! Z.of_nat n) as [j|] eqn:Hj; [|done]. apply (Hb ltac:(lia)) in Hj. lia.
  - intros A op i h Hu Hne. rewrite <- Hk in Hne. exact (unknown_handle op s i h Hu Hne).
Qed.

End handles.

Definition handle_requests : list fs_request :=
  [Request (FInit 0); Request (FLookup dir_ctx 1 "a"); Request (FOpen dir_ctx 2 false 0);
   Request (FCreate dir_ctx 1 "new" 420 false O_WRONLY 0 Extensions_default); Request (FRelease dir_ctx 2 0 0 false false None)].
Definition handle_session : list event * PassthroughFs directory :=
  default ([], dir_start []) (serve_all (H0 := dir_host) (dir_config 100) handle_requests [] (dir_start ["a"; "b"])).

Lemma passthrough_handles_witness :
  known_handles handle_session.1 = {[1 := 3]} ∧
  hd_inode <$> handles handle_session.2 = {[1 := 3]} ∧
  Passthrough (H0 := dir_host) (dir_config 100) _ (FRead dir_ctx 2 0 [] 16 0 None 0) handle_session.2 = (Err ebadf, handle_session.2).
Proof.
  assert (known_handles handle_session.1 = {[1 := 3]}) as Hk by (vm_compute; reflexivity). split; [exact Hk|].
  destruct (passthrough_handles (H0 := dir_host) (dir_config 100) (dir_start ["a"; "b"]) handle_session.1 handle_session.2)
    as (Ht & _ & Hu).
  - reflexivity.
  - reflexivity.
  - apply (serve_all_session (H0 := dir_host) (dir_config 100) _ handle_requests [] (dir_start ["a"; "b"])); [constructor|].
    vm_compute. reflexivity.
  - split; [rewrite Ht; exact Hk|]. apply (Hu _ _ 2 0); [reflexivity|]. rewrite Hk. intros E. discriminate E.
Defined.
