(* ===== verification/VirtioFs.v ===== *)
(** * The virtio-fs backend

    Models [crates/virtiofs-backend/src/intercepted_fs.rs]: the FUSE file system
    that wraps virtiofsd's [PassthroughFs] and calls the write interceptor
    around every mutating request.

    The wrapped file system is any [FileSystem] over the file tree and tables
    of its own. *)

From Stdlib Require Import Ascii.
From stdpp Require Import base gmap strings list.
From S2P Require Import Prelude HostFs Common WriteInterceptor P9Messages InodeMap Fuse FileSystem.
#[local] Open Scope Z_scope.

Definition PassthroughFs (T : Type) : Type := FileSystem (tree * T).

(** ** The intercepted file system *)

Record InterceptedFs (S T : Type) := mkInterceptedFs {
  vf_os : S;
  vf_tables : T;
  vf_in_flight : Z;
  vf_inodes : InodePathMap;
}.
Arguments mkInterceptedFs {S T}.
Arguments vf_os {S T}.
Arguments vf_tables {S T}.
Arguments vf_in_flight {S T}.
Arguments vf_inodes {S T}.

Definition O_TRUNC : Z := 0x200.
Definition SETATTR_ATIME : Z := 16.
Definition SETATTR_ATIME_NOW : Z := 128.

(** [io::Error::new(PermissionDenied, ..)]. *)
Definition interceptor_error_to_io (e : CodeAgentError) : io_error := mkIoError PermissionDenied None.

Section methods.
Context {S T : Type} `{HasTree S} (inner : PassthroughFs T) (interceptor : WriteInterceptor S).

Abbreviation fs := (InterceptedFs S T).
Abbreviation FsM := (stm fs io_error).

Definition InterceptedFs_new (s : S) (t : T) (in_flight : Z) (root_dir : path) : fs :=
  mkInterceptedFs s t in_flight (InodePathMap_new root_dir).

Definition set_inodes (m : InodePathMap) (s : fs) : fs :=
  mkInterceptedFs (vf_os s) (vf_tables s) (vf_in_flight s) m.
Definition set_host (os : S) (s : fs) : fs :=
  mkInterceptedFs os (vf_tables s) (vf_in_flight s) (vf_inodes s).
Definition on_fs_in_flight (f : Z → Z) (s : fs) : fs :=
  mkInterceptedFs (vf_os s) (vf_tables s) (f (vf_in_flight s)) (vf_inodes s).

(** [let _guard = InFlightGuard::new(..)]: the counter is restored however the
    method ends, also by unwinding. *)
Definition guarded {A} (m : FsM A) : FsM A := λ s,
  let '(r, s') := m (on_fs_in_flight (λ n, as_u64 (n + 1)) s) in
  (r, on_fs_in_flight (λ n, as_u64 (n - 1)) s').

(** A call of the wrapped file system. *)
Definition call {A} (m : stm (tree * T) io_error A) : FsM A := λ s,
  let '(r, (t, tb)) := m (tree_of (vf_os s), vf_tables s) in
  (r, mkInterceptedFs (put_tree t (vf_os s)) tb (vf_in_flight s) (vf_inodes s)).

(** [interceptor.hook(..).map_err(interceptor_error_to_io)?] *)
Definition ask (c : hook_call) : FsM unit := λ s,
  let '(r, os) := call_hook interceptor c (vf_os s) in
  (map_err interceptor_error_to_io r, set_host os s).

(** [let _ = interceptor.hook(..)] *)
Definition notify (c : hook_call) : FsM unit := ignore (ask c).

Definition resolve_path (inode : Z) : FsM (io path) := gets (λ s, ipm_get inode (vf_inodes s)).
Definition resolve_child_path (parent : Z) (name : string) : FsM (io path) :=
  gets (λ s, ipm_resolve parent name (vf_inodes s)).

(** [if let Ok(path) = .. { .. }] *)
Definition if_ok (r : io path) (f : path → FsM unit) : FsM unit :=
  match r with Ok p => f p | _ => mret () end.

Definition track (inode : Z) (p : path) : FsM unit :=
  modify (λ s, set_inodes (ipm_insert inode p (vf_inodes s)) s).
Definition track_entry (e : Entry) (p : path) : FsM unit :=
  if entry_inode e =? 0 then mret () else track (entry_inode e) p.
Definition untrack (inode : Z) : FsM unit :=
  modify (λ s, set_inodes (ipm_remove inode (vf_inodes s)) s).

(** *** Read-only methods *)

(** [init], [destroy], [statfs], [getattr], [readlink], [read], [flush],
    [release], [fsync], [opendir], [readdir], [releasedir], [fsyncdir],
    [getxattr], [listxattr], [access], [lseek] and [syncfs]. *)
Definition vf_delegate {A : Type} (op : operation A) : FsM A := call (inner A op).

Definition vf_open (ctx : Context) (inode : Z) (kill_priv : bool) (flags : Z) : FsM (option Z * Z) :=
  if negb (Z.land flags O_TRUNC =? 0) then
    guarded (
      r ← resolve_path inode;
      if_ok r (λ p, ask (PreOpenTrunc p));;
      call (inner _ (FOpen ctx inode kill_priv flags)))
  else call (inner _ (FOpen ctx inode kill_priv flags)).

Definition vf_lookup (ctx : Context) (parent : Z) (name : string) : FsM Entry :=
  entry ← call (inner _ (FLookup ctx parent name));
  (if entry_inode entry =? 0 then mret ()
   else r ← resolve_child_path parent name; if_ok r (λ p, track (entry_inode entry) p));;
  mret entry.

Definition vf_forget (ctx : Context) (inode count : Z) : FsM unit :=
  untrack inode;; call (inner _ (FForget ctx inode count)).

Definition vf_batch_forget (ctx : Context) (requests : list (Z * Z)) : FsM unit :=
  for_each (λ r, untrack r.1) requests;; call (inner _ (FBatchForget ctx requests)).

(** *** Mutating methods *)

(** The methods that change one inode: ask, then delegate. *)
Definition on_inode {A} (inode : Z) (c : path → hook_call) (m : stm (tree * T) io_error A) : FsM A :=
  guarded (r ← resolve_path inode; if_ok r (λ p, ask (c p));; call m).

Definition vf_write (ctx : Context) (inode handle : Z) (r : list (list Z)) (size offset : Z)
    (lock_owner : option Z) (delayed_write kill_priv : bool) (flags : Z) : FsM Z :=
  on_inode inode PreWrite
    (inner _ (FWrite ctx inode handle r size offset lock_owner delayed_write kill_priv flags)).

Definition vf_create (ctx : Context) (parent : Z) (name : string) (mode : Z) (kill_priv : bool) (flags umask : Z)
    (ext : Extensions) : FsM (Entry * option Z * Z) :=
  guarded (
    r ← resolve_child_path parent name;
    child_path ← lift r;
    file_existed ← gets (λ s, path_exists (tree_of (vf_os s)) child_path);
    (if file_existed && negb (Z.land flags O_TRUNC =? 0) then ask (PreOpenTrunc child_path) else mret ());;
    '(entry, handle, opts) ← call (inner _ (FCreate ctx parent name mode kill_priv flags umask ext));
    track_entry entry child_path;;
    (if negb file_existed then notify (PostCreate child_path) else mret ());;
    mret (entry, handle, opts)).

(** After a node was made: track it and tell the interceptor. *)
Definition made (parent : Z) (name : string) (entry : Entry) (c : path → hook_call) : FsM Entry :=
  r ← resolve_child_path parent name;
  if_ok r (λ p, track_entry entry p;; notify (c p));;
  mret entry.

Definition vf_mkdir (ctx : Context) (parent : Z) (name : string) (mode umask : Z) (ext : Extensions) : FsM Entry :=
  guarded (entry ← call (inner _ (FMkdir ctx parent name mode umask ext)); made parent name entry PostMkdir).

Definition vf_mknod (ctx : Context) (parent : Z) (name : string) (mode rdev umask : Z) (ext : Extensions)
    : FsM Entry :=
  guarded (entry ← call (inner _ (FMknod ctx parent name mode rdev umask ext));
           made parent name entry PostCreate).

Definition vf_unlink (ctx : Context) (parent : Z) (name : string) : FsM unit :=
  guarded (
    r ← resolve_child_path parent name;
    if_ok r (λ p, ask (PreUnlink p false));;
    call (inner _ (FUnlink ctx parent name))).

Definition vf_rmdir (ctx : Context) (parent : Z) (name : string) : FsM unit :=
  guarded (
    r ← resolve_child_path parent name;
    if_ok r (λ p, ask (PreUnlink p true));;
    call (inner _ (FRmdir ctx parent name))).

Definition vf_rename (ctx : Context) (olddir : Z) (oldname : string) (newdir : Z) (newname : string) (flags : Z)
    : FsM unit :=
  guarded (
    old ← resolve_child_path olddir oldname; old_path ← lift old;
    new ← resolve_child_path newdir newname; new_path ← lift new;
    ask (PreRename old_path new_path);;
    call (inner _ (FRename ctx olddir oldname newdir newname flags));;
    modify (λ s, set_inodes (ipm_rename olddir oldname newdir newname (vf_inodes s)).2 s)).

Definition vf_setattr (ctx : Context) (inode : Z) (attr : SetattrIn) (handle : option Z) (valid : Z)
    : FsM (Attr * Duration) :=
  guarded (
    let atime_only_mask := Z.lor SETATTR_ATIME SETATTR_ATIME_NOW in
    let modifies_beyond_atime := negb (Z.ldiff valid atime_only_mask =? 0) in
    (if modifies_beyond_atime
     then r ← resolve_path inode; if_ok r (λ p, ask (PreSetattr p))
     else mret ());;
    call (inner _ (FSetattr ctx inode attr handle valid))).

Definition vf_symlink (ctx : Context) (linkname : string) (parent : Z) (name : string) (ext : Extensions)
    : FsM Entry :=
  guarded (
    entry ← call (inner _ (FSymlink ctx linkname parent name ext));
    let target := match to_str linkname with Ok t => t | _ => EmptyString end in
    made parent name entry (PostSymlink target)).

Definition vf_link (ctx : Context) (inode newparent : Z) (newname : string) : FsM Entry :=
  guarded (
    t ← resolve_path inode; target_path ← lift t;
    l ← resolve_child_path newparent newname; link_path ← lift l;
    ask (PreLink target_path link_path);;
    entry ← call (inner _ (FLink ctx inode newparent newname));
    track_entry entry link_path;;
    mret entry).

Definition vf_fallocate (ctx : Context) (inode handle mode offset length : Z) : FsM unit :=
  on_inode inode PreFallocate (inner _ (FFallocate ctx inode handle mode offset length)).

Definition vf_setxattr (ctx : Context) (inode : Z) (name : string) (value : list Z) (flags extra_flags : Z)
    : FsM unit :=
  on_inode inode PreXattr (inner _ (FSetxattr ctx inode name value flags extra_flags)).

Definition vf_removexattr (ctx : Context) (inode : Z) (name : string) : FsM unit :=
  on_inode inode PreXattr (inner _ (FRemovexattr ctx inode name)).

Definition vf_copyfilerange (ctx : Context)
    (inode_in handle_in offset_in inode_out handle_out offset_out len flags : Z) : FsM Z :=
  on_inode inode_out PreCopyFileRange
    (inner _ (FCopyfilerange ctx inode_in handle_in offset_in inode_out handle_out offset_out len flags)).

(** In the sources [tmpfile] has arguments that the trait does not give it;
    none of them is looked at. *)
Definition vf_tmpfile : FsM (Entry * option Z * Z) := guarded (call (inner _ FTmpfile)).

(** *** The trait implementation

    The methods it does not define are inherited; none of those calls another
    method. *)

Definition InterceptedFs_methods : FileSystem fs := λ A op,
  match op in operation A return FsM A with
  | FLookup ctx parent name => vf_lookup ctx parent name
  | FForget ctx inode count => vf_forget ctx inode count
  | FBatchForget ctx requests => vf_batch_forget ctx requests
  | FSetattr ctx inode attr handle valid => vf_setattr ctx inode attr handle valid
  | FSymlink ctx linkname parent name ext => vf_symlink ctx linkname parent name ext
  | FMknod ctx parent name mode rdev umask ext => vf_mknod ctx parent name mode rdev umask ext
  | FMkdir ctx parent name mode umask ext => vf_mkdir ctx parent name mode umask ext
  | FUnlink ctx parent name => vf_unlink ctx parent name
  | FRmdir ctx parent name => vf_rmdir ctx parent name
  | FRename ctx olddir oldname newdir newname flags => vf_rename ctx olddir oldname newdir newname flags
  | FLink ctx inode newparent newname => vf_link ctx inode newparent newname
  | FOpen ctx inode kill_priv flags => vf_open ctx inode kill_priv flags
  | FCreate ctx parent name mode kill_priv flags umask ext =>
      vf_create ctx parent name mode kill_priv flags umask ext
  | FWrite ctx inode handle r size offset lock_owner delayed_write kill_priv flags =>
      vf_write ctx inode handle r size offset lock_owner delayed_write kill_priv flags
  | FFallocate ctx inode handle mode offset length => vf_fallocate ctx inode handle mode offset length
  | FSetxattr ctx inode name value flags extra_flags => vf_setxattr ctx inode name value flags extra_flags
  | FRemovexattr ctx inode name => vf_removexattr ctx inode name
  | FCopyfilerange ctx inode_in handle_in offset_in inode_out handle_out offset_out len flags =>
      vf_copyfilerange ctx inode_in handle_in offset_in inode_out handle_out offset_out len flags
  | FTmpfile => vf_tmpfile
  | (FGetlk | FSetlk | FSetlkw | FIoctl | FBmap | FPoll | FNotifyReply) as op =>
      FileSystem_default (λ _ _, throw (os_error ENOSYS)) _ op
  | op => vf_delegate op
  end.

End methods.
