(* ===== verification/VirtioUndo.v ===== *)
(** * Undo through the virtio-fs backend

    [InterceptedFs] tells the interceptor paths, but the wrapped file system
    works on inodes; the two agree as long as the inode map gives every inode
    that still has a name its path.  That invariant, and with it the undo log,
    is kept by every request of a client that forgets an inode only with its
    whole lookup count (see [FuseSession.v] for the others). *)

From Stdlib Require Import Ascii.
From stdpp Require Import base gmap strings list fin_maps.
From S2P Require Import Prelude HostFs HostFacts Common WriteInterceptor Safeguard UndoLog UndoInterceptor UndoHooks UndoEvict UndoFacts UndoCapture UndoSteps UndoCorrect UndoBackend.
From S2P Require Import P9Ops InodeMap Fuse FileSystem VirtioFs.
#[local] Open Scope Z_scope.

(** ** What the wrapped file system does

    [names tb] is the path of each inode the file system still serves and that
    still has a name.  The laws are those of the FUSE protocol and of the
    system calls behind it, on a tree without hard links: a request on an
    inode changes at most the file of that inode, in place; a request on a
    directory and a name changes at most that entry; a request that fails
    changes nothing; a reply that names an inode refers to the entry asked
    for. *)

Definition in_place (p : option path) (t t' : tree) : Prop :=
  t' = t ∨ ∃ q n n', p = Some q ∧ t !! q = Some n ∧ t' = <[q := n']> t ∧
    is_dir_node n' = is_dir_node n ∧ is_symlink_node n' = is_symlink_node n ∧
    (meta_wf (node_meta n) → meta_wf (node_meta n')).

Section laws.
Context {T : Type} (names : T → gmap Z path).

(** The names after a reply for the entry [p]. *)
Definition named (e : Entry) (p : path) (tb tb' : T) : Prop :=
  if entry_inode e =? 0 then names tb' ⊆ names tb else names tb' ⊆ <[entry_inode e := p]> (names tb).

(** A request that reads. *)
Definition reads {A : Type} (m : stm (tree * T) io_error A) : Prop :=
  ∀ t tb r t' tb', m (t, tb) = (r, (t', tb')) → t' = t ∧ names tb' ⊆ names tb.

(** A request on an inode. *)
Definition touches_inode {A : Type} (inode : Z) (m : stm (tree * T) io_error A) : Prop :=
  ∀ t tb r t' tb', m (t, tb) = (r, (t', tb')) →
    names tb' ⊆ names tb ∧ in_place (names tb !! inode) t t'.

(** A request that makes an entry: [post] relates the trees, given its path. *)
Definition makes_entry {A : Type} (parent : Z) (name : string) (entry : A → Entry)
    (post : path → tree → tree → Prop) (m : stm (tree * T) io_error A) : Prop :=
  ∀ t tb r t' tb', m (t, tb) = (r, (t', tb')) →
    match r with
    | Ok a => ∃ p, names tb !! parent = Some p ∧ named (entry a) (p ++ [name]) tb tb' ∧ post (p ++ [name]) t t'
    | _ => t' = t ∧ names tb' ⊆ names tb
    end.

(** A request that removes an entry. *)
Definition removes_entry {A : Type} (parent : Z) (name : string) (remove : tree → path → io tree)
    (m : stm (tree * T) io_error A) : Prop :=
  ∀ t tb r t' tb', m (t, tb) = (r, (t', tb')) →
    names tb' ⊆ names tb ∧
    match r with
    | Ok _ => ∃ p, names tb !! parent = Some p ∧ remove t (p ++ [name]) = Ok t'
    | _ => t' = t
    end.

(** A creation with the permissions of some host. *)
Definition creation (d : bool) (p : path) (t t' : tree) : Prop :=
  ∃ h, host_wf h ∧ creates h d t p = Ok t'.

(** What each method may do; nothing is said of [rename], [symlink] and
    [link]. *)
Definition respects (h : host) {A : Type} (op : operation A) : stm (tree * T) io_error A → Prop :=
  match op in operation A return stm (tree * T) io_error A → Prop with
  | FOpen _ inode _ flags =>
      λ m, if Z.land flags O_TRUNC =? 0 then reads m else touches_inode inode m
  | FLookup _ parent name => makes_entry parent name id (λ p t t', t' = t ∧ is_Some (t !! p))
  | FCreate _ parent name _ _ flags _ _ =>
      makes_entry parent name (λ r, r.1.1)
        (λ p t t', match t !! p with
                   | None => creation false p t t'
                   | Some _ => if Z.land flags O_TRUNC =? 0 then t' = t else in_place (Some p) t t'
                   end)
  | FMkdir _ parent name _ _ _ => makes_entry parent name id (creation true)
  | FMknod _ parent name _ _ _ _ => makes_entry parent name id (creation false)
  | FUnlink _ parent name => removes_entry parent name (remove_file h)
  | FRmdir _ parent name => removes_entry parent name (remove_dir h)
  | FSetattr _ inode _ _ valid =>
      λ m, if Z.ldiff valid (Z.lor SETATTR_ATIME SETATTR_ATIME_NOW) =? 0 then reads m else touches_inode inode m
  | FWrite _ inode _ _ _ _ _ _ _ _ => touches_inode inode
  | FFallocate _ inode _ _ _ _ => touches_inode inode
  | FSetxattr _ inode _ _ _ _ => touches_inode inode
  | FRemovexattr _ inode _ => touches_inode inode
  | FCopyfilerange _ _ _ _ inode_out _ _ _ _ => touches_inode inode_out
  | FRename _ _ _ _ _ _ | FSymlink _ _ _ _ _ | FLink _ _ _ _ => λ _, True
  | _ => reads
  end.

Class PassthroughLaws (h : host) (inner : PassthroughFs T) : Prop :=
  law : ∀ (A : Type) (op : operation A), respects h op (inner A op).

End laws.

(** ** The invariant *)

Section undo.
Context `{TP : ThirdParty} `{!ThirdPartyLaws TP} (W : path) (good : path → Prop) (S0 : tree).
Context {T : Type} (names : T → gmap Z path).

Abbreviation step_inv := (step_inv W good S0).
Abbreviation fs := (InterceptedFs world T).

(** Every inode with a name is mapped to it, and every mapped path is one of
    the working tree. *)
Definition maps_ok (tb : T) (m : InodePathMap) : Prop :=
  names tb ⊆ ipm_map m ∧ map_Forall (λ _ p, ∃ r, p = W ++ r ∧ good r) (ipm_map m).

Definition fs_at (B : world → Prop) (s : fs) : Prop := B (vf_os s) ∧ maps_ok (vf_tables s) (vf_inodes s).
Definition fs_ok : fs → Prop := fs_at step_inv.
Definition fs_gone (s : fs) : Prop := lost (vf_os s).
Definition keeps_fs_gone (s s' : fs) : Prop := fs_gone s → fs_gone s'.

#[export] Instance keeps_fs_gone_preorder : PreOrder keeps_fs_gone.
Proof. split; [by intros s H|]. intros s1 s2 s3 H1 H2 H. exact (H2 (H1 H)). Qed.

Abbreviation ensures := (ensures (E := io_error) fs_gone fs_ok).

Lemma bind_fs {A B} P (m : stm fs io_error A) (k : A → stm fs io_error B) Q R :
  ensures P m Q → (∀ a, guarantees keeps_fs_gone (k a)) → (∀ a, ensures (Q a) (k a) R) →
  ensures P (m ≫= k) R.
Proof. apply ensures_bind. intros s s' H. exact H. Qed.

Lemma step_inv_same w : step_inv w → step_inv (set_tree (tree_of w) w).
Proof. by destruct w. Qed.

(** A predicate that does not read the in-flight counter. *)
Definition steady (P : fs → Prop) : Prop := ∀ f s, P s → P (on_fs_in_flight f s).

Lemma guarded_ok {A} P (m : stm fs io_error A) Q :
  steady P → (∀ a, steady (Q a)) → ensures P m Q → ensures P (guarded m) Q.
Proof.
  intros HP HQ Hm s Hs. unfold guarded. specialize (Hm _ (HP (λ n, as_u64 (n + 1)) s Hs)).
  destruct (m _) as [[a|e|] s']; (destruct Hm as [|Hm]; [by left | right]); [by apply HQ | exact Hm..].
Qed.

Lemma steady_at B : steady (fs_at B).
Proof. intros f s Hs. exact Hs. Qed.

Lemma at_ok (B : world → Prop) s : (∀ w, B w → step_inv w) → fs_at B s → fs_ok s.
Proof. intros HB [Hw Hm]. split; [by apply HB | done]. Qed.

Section host.
Context (h : host) (Hh : host_wf h).
Abbreviation hooks := (undo_hooks h no_fault).

(** *** A lost step stays lost *)

Lemma gone_call {A} (m : stm (tree * T) io_error A) : guarantees keeps_fs_gone (call m).
Proof. intros s Hs. unfold call. destruct (m _) as [r [t tb]]. exact Hs. Qed.
Lemma gone_ask c : guarantees keeps_fs_gone (ask hooks c).
Proof.
  intros s Hs. unfold ask. pose proof (hook_keeps_lost h c (vf_os s) Hs) as Hl.
  by destruct (call_hook hooks c (vf_os s)).
Qed.
Lemma gone_notify c : guarantees keeps_fs_gone (notify hooks c).
Proof. apply guarantees_ignore, gone_ask. Qed.
Lemma gone_if_ok r f : (∀ p, guarantees keeps_fs_gone (f p)) → guarantees keeps_fs_gone (if_ok r f).
Proof. intros Hf. destruct r; simpl; [apply Hf|..]; apply guarantees_ret, _. Qed.
Lemma gone_track inode p : guarantees keeps_fs_gone (track inode p).
Proof. intros s Hs. exact Hs. Qed.
Lemma gone_track_entry e p : guarantees keeps_fs_gone (track_entry e p).
Proof. unfold track_entry. destruct (_ =? _); [apply guarantees_ret, _ | apply gone_track]. Qed.
Lemma gone_untrack inode : guarantees keeps_fs_gone (untrack inode).
Proof. intros s Hs. exact Hs. Qed.
Lemma gone_resolve_child parent name : guarantees keeps_fs_gone (resolve_child_path parent name).
Proof. intros s Hs. exact Hs. Qed.
Lemma gone_guarded {A} (m : stm fs io_error A) : guarantees keeps_fs_gone m → guarantees keeps_fs_gone (guarded m).
Proof.
  intros Hm s Hs. unfold guarded. specialize (Hm (on_fs_in_flight (λ n, as_u64 (n + 1)) s) Hs).
  by destruct (m _).
Qed.
Lemma gone_inodes f : guarantees keeps_fs_gone (modify (E := io_error) (λ s : fs, set_inodes (f s) s)).
Proof. intros s Hs. exact Hs. Qed.
Lemma gone_resolve inode : guarantees keeps_fs_gone (resolve_path inode).
Proof. intros s Hs. exact Hs. Qed.
#[local] Hint Resolve gone_call gone_ask gone_notify gone_if_ok gone_track gone_track_entry gone_untrack
  gone_resolve_child gone_resolve : guarantees.

Ltac stays := intros; repeat (guarantee; try (apply gone_if_ok; intros ?)).

(** *** Hooks and calls *)

Lemma ask_ok c (B B' : world → Prop) (C : fs → Prop) :
  (∀ os s, C s → C (set_host os s)) →
  (∀ w res w', B w → call_hook hooks c w = (res, w') → lost w' ∨ (res = Ok () ∧ B' w')) →
  ensures (λ s, fs_at B s ∧ C s) (ask hooks c) (λ _ s, fs_at B' s ∧ C s).
Proof.
  intros HC Hc s [[Hw Hm] HCs]. unfold ask. destruct (call_hook hooks c (vf_os s)) as [res w'] eqn:E.
  destruct (Hc _ _ _ Hw E) as [Hl|[-> Hw']]; [destruct res; by left|]. right.
  split; [by split | by apply HC].
Qed.

Lemma notify_ok c (B : world → Prop) :
  (∀ w res w', B w → call_hook hooks c w = (res, w') → lost w' ∨ step_inv w') →
  ensures (fs_at B) (notify hooks c) (λ _, fs_ok).
Proof.
  intros Hc s [Hw Hm]. unfold notify, ignore, ask. destruct (call_hook hooks c (vf_os s)) as [res w'] eqn:E.
  destruct (Hc _ _ _ Hw E) as [Hl|Hw']; destruct res; [by left..| | |]; right; by split.
Qed.

Lemma reads_ok {A} (m : stm (tree * T) io_error A) (B : world → Prop) :
  (∀ w, B w → step_inv w) → reads names m → ensures (fs_at B) (call m) (λ _, fs_ok).
Proof.
  intros HB Hm s [Hw [Hn Hg]]. unfold call. destruct (m _) as [r [t tb]] eqn:E.
  destruct (Hm _ _ _ _ _ E) as [-> Hsub].
  assert (fs_ok (mkInterceptedFs (put_tree (tree_of (vf_os s)) (vf_os s)) tb (vf_in_flight s) (vf_inodes s)))
    as Hok.
  { split; [by apply step_inv_same, HB|]. split; [by etrans | done]. }
  destruct r; by right.
Qed.

(** *** Requests on an inode *)

(** The interceptor has been told the path of the inode, if it has one. *)
Definition asked (inode : Z) (s : fs) : Prop :=
  match ipm_map (vf_inodes s) !! inode with
  | Some p => ∃ r, (p = W ++ r ∧ good r) ∧ fs_at (after_update W good S0 h r) s
  | None => fs_ok s
  end.

Lemma ask_inode inode k (c : path → hook_call) r :
  (∀ p, call_hook hooks (c p) = run_hook k h no_fault p) →
  ensures (λ s, fs_ok s ∧ r = ipm_get inode (vf_inodes s)) (if_ok r (λ p, ask hooks (c p)))
    (λ _, asked inode).
Proof.
  intros Hc s [Hok ->]. unfold ipm_get, asked. destruct (ipm_map (vf_inodes s) !! inode) as [p|] eqn:Ep; simpl.
  - destruct (proj2 (proj2 Hok) _ _ Ep) as (r & -> & Hr).
    pose proof (ask_ok (c (W ++ r)) step_inv (after_update W good S0 h r)
      (λ s, ipm_map (vf_inodes s) !! inode = Some (W ++ r)) ltac:(intros ? ? Hi; exact Hi)
      ltac:(intros w res w' Hw Hk; eapply (update_hook_at W good S0 h k); eauto) s (conj Hok Ep)) as Ha.
    destruct (ask hooks (c (W ++ r)) s) as [[[]| |] s']; [|done|done].
    destruct Ha as [|[Hat Hm]]; [by left | right]. rewrite Hm. by exists r.
  - right. by rewrite Ep.
Qed.

Lemma touch_ok {A} (inode : Z) (m : stm (tree * T) io_error A) :
  touches_inode names inode m → ensures (asked inode) (call m) (λ _, fs_ok).
Proof.
  intros Hm s Hs. unfold call. destruct (m _) as [r [t tb]] eqn:E.
  destruct (Hm _ _ _ _ _ E) as [Hsub Hin].
  assert (maps_ok (vf_tables s) (vf_inodes s) ∧ (lost (vf_os s) ∨ step_inv (set_tree t (vf_os s)))) as [Hmaps Hw].
  { unfold asked in Hs. destruct (ipm_map (vf_inodes s) !! inode) as [p|] eqn:Ep.
    - destruct Hs as (r0 & [-> Hr] & Hw & Hmaps). split; [done|].
      pose proof (after_update_inv W good S0 h Hh r0 _ Hr Hw) as Hsv.
      destruct (inv_facts W good S0 _ Hsv) as [|Hf]; [by left|]. right.
      destruct Hin as [->|(q & n & n' & Hq & Hn & -> & Hd & Hl & Hmeta)]; [by apply step_inv_same|].
      pose proof (lookup_weaken _ _ _ _ Hq (proj1 Hmaps)) as HqW. rewrite Ep in HqW. simplify_eq.
      apply (updated W good S0 h Hh r0 _ n); try done.
      + rewrite Hl. by apply (pl_nolink _ _ (tf_plain _ Hf) r0).
      + apply Hmeta. by apply (tf_meta _ Hf r0).
    - split; [apply Hs|]. right. destruct Hin as [->|(q & _ & _ & Hq & _)].
      + apply step_inv_same, Hs.
      + pose proof (lookup_weaken _ _ _ _ Hq (proj1 (proj2 Hs))) as HqW. by rewrite Ep in HqW. }
  destruct Hw as [Hl|Hw]; [destruct r; by left|].
  assert (fs_ok (mkInterceptedFs (put_tree t (vf_os s)) tb (vf_in_flight s) (vf_inodes s))) as Hok.
  { split; [exact Hw|]. split; [|apply Hmaps]. etrans; [exact Hsub | apply Hmaps]. }
  destruct r; by right.
Qed.

Lemma resolve_ok inode :
  ensures fs_ok (resolve_path inode) (λ r s, fs_ok s ∧ r = ipm_get inode (vf_inodes s)).
Proof. intros s Hs. by right. Qed.

Lemma on_inode_ok {A} (inode : Z) (k : update_hook) (c : path → hook_call) (m : stm (tree * T) io_error A) :
  (∀ p, call_hook hooks (c p) = run_hook k h no_fault p) → touches_inode names inode m →
  ensures fs_ok (on_inode hooks inode c m) (λ _, fs_ok).
Proof.
  intros Hc Hm. apply guarded_ok; [apply steady_at | intros; apply steady_at|].
  eapply bind_fs; [apply resolve_ok | stays|]. intros r.
  eapply bind_fs; [by apply (ask_inode inode k) | stays|]. intros ?. by apply touch_ok.
Qed.

(** *** Requests that make an entry *)

Definition mapped (inode : Z) (p : path) (s : fs) : Prop := ipm_map (vf_inodes s) !! inode = Some p.

(** The entry [p] exists, but is not tracked yet. *)
Definition pending (e : Entry) (p : path) (B : world → Prop) (s : fs) : Prop :=
  B (vf_os s) ∧ (∃ r, p = W ++ r ∧ good r) ∧
  ∃ tb, maps_ok tb (vf_inodes s) ∧ named names e p tb (vf_tables s).

(** The host state after a call that relates the trees by [post]. *)
Definition made_from (B : world → Prop) (post : tree → tree → Prop) (w : world) : Prop :=
  ∃ w0 t, B w0 ∧ post (w_tree w0) t ∧ w = set_tree t w0.

Lemma track_entry_ok e p B : ensures (pending e p B) (track_entry e p) (λ _, fs_at B).
Proof.
  intros s (Hw & (r & -> & Hr) & tb & [Hn Hg] & Hnamed). unfold named in Hnamed.
  unfold track_entry. destruct (entry_inode e =? 0); right.
  - split; [done|]. split; [by etrans | done].
  - split; [done|]. split; simpl.
    + etrans; [exact Hnamed|]. by apply insert_mono.
    + apply map_Forall_insert_2; [by exists r | done].
Qed.

Lemma make_call {A} (parent : Z) (name : string) (r : path) (entry : A → Entry) (post : path → tree → tree → Prop) (m : stm (tree * T) io_error A) (B : world → Prop) :
  makes_entry names parent name entry post m → (∀ w, B w → step_inv w) →
  (∀ w t, B w → post (W ++ r ++ [name]) (w_tree w) t → lost w ∨ good (r ++ [name])) →
  ensures (λ s, fs_at B s ∧ mapped parent (W ++ r) s) (call m)
    (λ a s, pending (entry a) (W ++ r ++ [name]) (made_from B (post (W ++ r ++ [name]))) s ∧
            mapped parent (W ++ r) s).
Proof.
  intros Hm HB Hgood s [[Hw [Hn Hg]] Hp]. unfold call. destruct (m _) as [res [t tb]] eqn:E.
  specialize (Hm _ _ _ _ _ E). destruct res as [a|e|].
  - destruct Hm as (p & Hpp & Hnamed & Hpost).
    pose proof (lookup_weaken _ _ _ _ Hpp Hn) as Hpp'. unfold mapped in Hp. rewrite Hp in Hpp'.
    injection Hpp' as <-. rewrite <- app_assoc in *. destruct (Hgood _ _ Hw Hpost) as [|Hr]; [by left|].
    right. split; [|done]. split_and!; [by exists (vf_os s), t | by exists (r ++ [name]) |].
    exists (vf_tables s). by split.
  - destruct Hm as [-> Hsub]. right. split; [by apply step_inv_same, HB|]. split; [by etrans | done].
  - destruct Hm as [-> Hsub]. right. split; [by apply step_inv_same, HB|]. split; [by etrans | done].
Qed.

(** A parent the map does not know has no name, and nothing is made in it. *)
Lemma make_unmapped {A} (parent : Z) (name : string) (entry : A → Entry) (post : path → tree → tree → Prop) (m : stm (tree * T) io_error A) (Q : A → fs → Prop) :
  makes_entry names parent name entry post m →
  ensures (λ s, fs_ok s ∧ ipm_map (vf_inodes s) !! parent = None) (call m) Q.
Proof.
  intros Hm s [[Hw [Hn Hg]] Hp]. unfold call. destruct (m _) as [res [t tb]] eqn:E.
  specialize (Hm _ _ _ _ _ E). destruct res as [a|e|].
  - destruct Hm as (p & Hpp & _). pose proof (lookup_weaken _ _ _ _ Hpp Hn). congruence.
  - destruct Hm as [-> Hsub]. right. split; [by apply step_inv_same|]. split; [by etrans | done].
  - destruct Hm as [-> Hsub]. right. split; [by apply step_inv_same|]. split; [by etrans | done].
Qed.

(** Split on the parent. *)
Lemma on_parent {A} (parent : Z) (m : stm fs io_error A) Q (C : fs → Prop) :
  (∀ r, good r → ensures (λ s, fs_ok s ∧ mapped parent (W ++ r) s ∧ C s) m Q) →
  ensures (λ s, fs_ok s ∧ ipm_map (vf_inodes s) !! parent = None) m Q →
  ensures (λ s, fs_ok s ∧ C s) m Q.
Proof.
  intros H1 H2 s [Hok HC]. destruct (ipm_map (vf_inodes s) !! parent) as [p|] eqn:Ep; [|by apply H2].
  destruct (proj2 (proj2 Hok) _ _ Ep) as (r & -> & Hr). by apply (H1 r Hr).
Qed.

(** The name of an entry a client may ask for. *)
Definition plain_name (name : string) : Prop :=
  name_ok name = true ∧ utf8_valid (bytes_of_string name) = true.

Lemma resolve_child_ok parent name r (P : fs → Prop) :
  plain_name name → (∀ s, P s → mapped parent (W ++ r) s) →
  ensures P (resolve_child_path parent name) (λ res s, res = Ok (W ++ r ++ [name]) ∧ P s).
Proof.
  intros [Hn Hu] HP s Hs. right. split; [|done]. rewrite app_assoc. by apply ipm_resolve_name; [apply HP|..].
Qed.

(** The entry a request makes or removes: its path may be logged, and what is
    made there is of the kind that was there when the step was opened. *)
Definition entry_ok (parent : Z) (name : string) (kind : option bool) (s : fs) : Prop :=
  plain_name name ∧
  match ipm_map (vf_inodes s) !! parent with
  | Some p =>
      good (default [] (strip_prefix W p) ++ [name]) ∧
      match S0 !! (p ++ [name]), kind with Some n0, Some d => is_dir_node n0 = d | _, _ => True end
  | None => True
  end.

Lemma on_entry {A} (parent : Z) (name : string) (kind : option bool) (m : stm fs io_error A) Q :
  (∀ r, plain_name name → good (r ++ [name]) →
     (∀ d n0, kind = Some d → S0 !! (W ++ r ++ [name]) = Some n0 → is_dir_node n0 = d) →
     ensures (λ s, fs_ok s ∧ mapped parent (W ++ r) s) m Q) →
  ensures (λ s, fs_ok s ∧ ipm_map (vf_inodes s) !! parent = None) m Q →
  ensures (λ s, fs_ok s ∧ entry_ok parent name kind s) m Q.
Proof.
  intros H1 H2. apply (on_parent parent); [|done]. intros r Hr s (Hok & Hm & Hn & He).
  unfold mapped in Hm. rewrite Hm, strip_prefix_app, <- app_assoc in He. simpl in He. destruct He as [Hg Hk].
  apply (H1 r Hn Hg); [|by split]. intros d n0 -> Hs. by rewrite Hs in Hk.
Qed.

Section methods.
Context (inner : PassthroughFs T) `{!PassthroughLaws names h inner}.

Abbreviation respected := (law names (h := h) (inner := inner) _).

Lemma delegate_ok {A : Type} (op : operation A) :
  reads names (inner A op) → ensures fs_ok (vf_delegate inner op) (λ _, fs_ok).
Proof. intros Hm. by apply reads_ok. Qed.

Lemma tmpfile_ok : ensures fs_ok (vf_tmpfile inner) (λ _, fs_ok).
Proof.
  apply guarded_ok; [apply steady_at | intros; apply steady_at|]. apply reads_ok; [done | apply (respected FTmpfile)].
Qed.

Lemma vf_open_ok ctx inode kill_priv flags :
  ensures fs_ok (vf_open inner hooks ctx inode kill_priv flags) (λ _, fs_ok).
Proof.
  pose proof (respected (FOpen ctx inode kill_priv flags)) as Hl. simpl in Hl. unfold vf_open.
  destruct (Z.land flags O_TRUNC =? 0); simpl; [by apply reads_ok|].
  by apply (on_inode_ok inode HOpenTrunc PreOpenTrunc).
Qed.

Lemma setattr_ok ctx inode attr handle valid :
  ensures fs_ok (vf_setattr inner hooks ctx inode attr handle valid) (λ _, fs_ok).
Proof.
  pose proof (respected (FSetattr ctx inode attr handle valid)) as Hl. simpl in Hl. unfold vf_setattr. cbv zeta.
  apply guarded_ok; [apply steady_at | intros; apply steady_at|].
  destruct (Z.ldiff valid _ =? 0); simpl.
  - eapply bind_fs; [apply ensures_done | stays|]. intros ?. by apply reads_ok.
  - apply bind_fs with (Q := λ _, asked inode); [| stays | intros; by apply touch_ok].
    eapply bind_fs; [apply resolve_ok | stays|]. intros r. by apply (ask_inode inode HSetattr).
Qed.

Lemma lookup_ok ctx parent name :
  plain_name name → ensures fs_ok (vf_lookup inner ctx parent name) (λ _, fs_ok).
Proof.
  intros Hname. pose proof (respected (FLookup ctx parent name)) as Hl. simpl in Hl. apply (ensures_pre _ _ _ (λ s, fs_ok s ∧ True)); [done|].
  apply (on_parent parent); [|apply bind_fs with (Q := λ _ _, False); [by eapply make_unmapped |
    stays | by intros ? ? ?]].
  intros r Hr. unfold vf_lookup.
  apply (ensures_pre _ _ _ (λ s, fs_ok s ∧ mapped parent (W ++ r) s)); [by intros s (? & ? & _)|].
  eapply bind_fs; [eapply (make_call parent name r _ _ _ step_inv); [exact Hl | done |] |
    stays |].
  { intros w t Hw [_ Hs]. destruct (inv_facts W good S0 w Hw) as [|Hf]; [by left|]. right. by apply (tf_paths _ Hf). }
  intros e. apply bind_fs with (Q := λ _, fs_at (made_from step_inv
    (λ t t', t' = t ∧ is_Some (t !! (W ++ r ++ [name]))))); [| stays |].
  - intros s [Hp Hm]. pose proof (track_entry_ok e _ _ s Hp) as Ht. unfold track_entry in Ht. simpl in Ht.
    destruct (entry_inode e =? 0); [exact Ht|].
    unfold mbind, stm_bind, resolve_child_path, gets.
    rewrite (ipm_resolve_name _ _ _ _ Hm) by apply Hname. simpl. by rewrite <- app_assoc.
  - intros ? s [(w0 & t & Hw & [-> _] & Heq) Hm]. right. split; [|done]. rewrite Heq. by apply step_inv_same.
Qed.

Lemma creation_logged r d (B : world → Prop) w res w' :
  good r → (∀ n0, S0 !! (W ++ r) = Some n0 → is_dir_node n0 = d) → (∀ w, B w → step_inv w) →
  made_from B (creation d (W ++ r)) w → post_create no_fault (W ++ r) w = (res, w') → step_inv w'.
Proof.
  intros Hr Hk HB (w0 & t & Hw & (h' & Hh' & Hc) & ->) Hp.
  eapply (created_logged W good S0 h' Hh'); [done | done | | exact Hp]. exists w0, t. by split_and!; [apply HB|..].
Qed.

Lemma made_ok (parent : Z) (name : string) (d : bool) (c : path → hook_call) (m : stm (tree * T) io_error Entry) :
  makes_entry names parent name id (creation d) m →
  (∀ p, call_hook hooks (c p) = post_create no_fault p) →
  ensures (λ s, fs_ok s ∧ entry_ok parent name (Some d) s)
    (guarded (entry ← call m; made hooks parent name entry c)) (λ _, fs_ok).
Proof.
  intros Hm Hc. apply guarded_ok; [intros f s Hs; exact Hs | intros; apply steady_at|]. unfold made.
  apply on_entry; [|apply bind_fs with (Q := λ _ _, False);
    [by eapply make_unmapped | stays | by intros ? ? ?]].
  intros r Hn Hr Hk. eapply bind_fs; [eapply (make_call parent name r _ _ _ step_inv) | stays |];
    [exact Hm | done | by right|].
  intros e. eapply bind_fs; [by apply (resolve_child_ok parent name r); [|intros s []] | stays|].
  intros res. apply ensures_fact. intros ->. simpl.
  apply bind_fs with (Q := λ _, fs_ok); [| stays | intros; apply ensures_done].
  eapply ensures_pre; [intros s [Hs _]; exact Hs|].
  eapply bind_fs; [apply track_entry_ok | stays|]. intros ?. apply notify_ok.
  intros w res w' Hw Hp. right. rewrite Hc in Hp. eapply creation_logged; [exact Hr | | | exact Hw | exact Hp]; [|done].
  intros n0. by apply Hk.
Qed.

Lemma mkdir_ok ctx parent name mode umask ext :
  ensures (λ s, fs_ok s ∧ entry_ok parent name (Some true) s) (vf_mkdir inner hooks ctx parent name mode umask ext)
    (λ _, fs_ok).
Proof. apply (made_ok parent name true PostMkdir); [apply (respected (FMkdir ctx parent name mode umask ext)) | done]. Qed.

Lemma mknod_ok ctx parent name mode rdev umask ext :
  ensures (λ s, fs_ok s ∧ entry_ok parent name (Some false) s)
    (vf_mknod inner hooks ctx parent name mode rdev umask ext) (λ _, fs_ok).
Proof.
  apply (made_ok parent name false PostCreate); [apply (respected (FMknod ctx parent name mode rdev umask ext)) | done].
Qed.

(** The entry of a [create] that opens an existing file. *)
Lemma opened_existing r flags (B : world → Prop) w t :
  good r → (∀ w, B w → step_inv w) → (Z.land flags O_TRUNC ≠ 0 → ∀ w, B w → after_update W good S0 h r w) →
  B w → path_exists (w_tree w) (W ++ r) = true →
  match w_tree w !! (W ++ r) with
  | None => creation false (W ++ r) (w_tree w) t
  | Some _ => if Z.land flags O_TRUNC =? 0 then t = w_tree w else in_place (Some (W ++ r)) (w_tree w) t
  end → lost w ∨ step_inv (set_tree t w).
Proof.
  intros Hr HB Htr Hw Hex Hpost. destruct (inv_facts W good S0 w (HB w Hw)) as [|Hf]; [by left|].
  rewrite (path_exists_plain W _ _ (tf_plain _ Hf)) in Hex by by apply (good_clean _ (tf_good _ Hf)).
  apply bool_decide_eq_true in Hex as [n0 Hn0]. rewrite Hn0 in Hpost. right.
  destruct (Z.eqb_spec (Z.land flags O_TRUNC) 0) as [_|Hnz]; [subst; by apply step_inv_same, HB|].
  destruct Hpost as [->|(q & n & n' & Hq & Hn & -> & Hd & Hl & Hm)]; [by apply step_inv_same, HB|].
  injection Hq as <-. apply (updated W good S0 h Hh r w n); try done; [by apply Htr | |].
  - rewrite Hl. by apply (pl_nolink _ _ (tf_plain _ Hf) r).
  - apply Hm. by apply (tf_meta _ Hf r).
Qed.

Lemma create_existing ctx parent name r mode kill_priv flags umask ext (B : world → Prop) :
  good (r ++ [name]) → (∀ w, B w → step_inv w) →
  (Z.land flags O_TRUNC ≠ 0 → ∀ w, B w → after_update W good S0 h (r ++ [name]) w) →
  ensures (λ s, fs_at (λ w, B w ∧ path_exists (w_tree w) (W ++ r ++ [name]) = true) s ∧ mapped parent (W ++ r) s)
    ('(entry, handle, opts) ← call (inner _ (FCreate ctx parent name mode kill_priv flags umask ext));
     track_entry entry (W ++ r ++ [name]);; mret ();; mret (entry, handle, opts)) (λ _, fs_ok).
Proof.
  intros Hr HB Htr. eapply bind_fs; [eapply (make_call parent name r) | stays |];
    [apply (respected (FCreate ctx parent name mode kill_priv flags umask ext)) |
     by intros w [? _]; apply HB | by right |].
  intros [[e handle] opts]. eapply ensures_pre; [intros s [Hs _]; exact Hs|]. simpl.
  eapply bind_fs; [apply track_entry_ok | stays|]. intros ? s [(w & t & [Hw Hex] & Hpost & Heq) Hm].
  destruct (opened_existing (r ++ [name]) flags B w t Hr HB Htr Hw Hex Hpost) as [Hl|Hsv]; [left | right].
  - unfold fs_gone. simpl. rewrite Heq. exact Hl.
  - split; [simpl; by rewrite Heq | done].
Qed.

Lemma create_new ctx parent name r mode kill_priv flags umask ext :
  good (r ++ [name]) → (∀ n0, S0 !! (W ++ r ++ [name]) = Some n0 → is_dir_node n0 = false) →
  ensures (λ s, fs_at (λ w, step_inv w ∧ path_exists (w_tree w) (W ++ r ++ [name]) = false) s ∧
                mapped parent (W ++ r) s)
    ('(entry, handle, opts) ← call (inner _ (FCreate ctx parent name mode kill_priv flags umask ext));
     track_entry entry (W ++ r ++ [name]);; notify hooks (PostCreate (W ++ r ++ [name]));;
     mret (entry, handle, opts))
    (λ _, fs_ok).
Proof.
  intros Hr Hk. eapply bind_fs; [eapply (make_call parent name r) | stays |];
    [apply (respected (FCreate ctx parent name mode kill_priv flags umask ext)) | by intros w [? _] | by right |].
  intros [[e handle] opts]. eapply ensures_pre; [intros s [Hs _]; exact Hs|]. simpl.
  eapply bind_fs; [apply track_entry_ok | stays|]. intros ?.
  eapply bind_fs; [apply notify_ok | stays | intros; apply ensures_done].
  intros w res w' (w0 & t & [Hw Hex] & Hpost & ->) Hp.
  destruct (inv_facts W good S0 w0 Hw) as [Hl|Hf].
  { left. pose proof (hook_keeps_lost h (PostCreate (W ++ r ++ [name])) (set_tree t w0) Hl) as Hg.
    by rewrite Hp in Hg. }
  right. rewrite (path_exists_plain W _ _ (tf_plain _ Hf)) in Hex by by apply (good_clean _ (tf_good _ Hf)).
  apply bool_decide_eq_false in Hex. destruct (w_tree w0 !! _) as [n|] eqn:En; [by destruct Hex|].
  apply (creation_logged (r ++ [name]) false step_inv (set_tree t w0) res w' Hr Hk); [done | | exact Hp].
  by exists w0, t.
Qed.

Lemma create_ok ctx parent name mode kill_priv flags umask ext :
  ensures (λ s, fs_ok s ∧ entry_ok parent name (Some false) s)
    (vf_create inner hooks ctx parent name mode kill_priv flags umask ext) (λ _, fs_ok).
Proof.
  apply guarded_ok; [intros f s Hs; exact Hs | intros; apply steady_at|].
  apply on_entry; [intros r Hn Hr Hk |
    intros s [Hok Hp]; unfold mbind, stm_bind, resolve_child_path, gets, ipm_resolve, ipm_get;
    rewrite Hp; by right].
  eapply bind_fs; [by apply (resolve_child_ok parent name r); [|intros s []] | stays|].
  intros res. apply ensures_fact. intros ->. set (p := W ++ r ++ [name]).
  apply bind_fs with (Q := λ q s, q = p ∧ (fs_ok s ∧ mapped parent (W ++ r) s)); [| stays |].
  { intros s Hs. by right. }
  intros q. apply ensures_fact. intros ->.
  apply bind_fs with (Q := λ ex, λ s, fs_at (λ w, step_inv w ∧ path_exists (w_tree w) p = ex) s ∧
    mapped parent (W ++ r) s); [| stays |].
  { intros s [[Hw Hm] Hp]. by right. }
  intros [].
  - destruct (Z.eqb_spec (Z.land flags O_TRUNC) 0) as [Hz|Hnz]; cbn [negb andb].
    + eapply bind_fs; [apply ensures_done | stays|]. intros ?.
      apply (create_existing ctx parent name r mode kill_priv flags umask ext step_inv); [done | done | by intros ?].
    + eapply bind_fs; [apply (ask_ok _ _ (λ w, after_update W good S0 h (r ++ [name]) w ∧
        path_exists (w_tree w) p = true) (mapped parent (W ++ r))) | stays |].
      * by intros os s Hs.
      * intros w res w' [Hw Hex] Hc.
        destruct (update_hook_at W good S0 h HOpenTrunc (PreOpenTrunc p) _ w res w' Hr ltac:(done) Hw Hc)
          as [|[-> Hup]]; [by left|]. right. split; [done|]. split; [done|].
        by rewrite (hp_tree _ _ _ _ _ _ (run_hook_post W good HOpenTrunc h S0 w w' _ Hw Hr Hc)).
      * intros ?. apply (create_existing ctx parent name r mode kill_priv flags umask ext); [done | | done].
        intros w. by apply (after_update_inv W good S0 h Hh).
  - cbn [negb andb]. eapply bind_fs; [apply ensures_done | stays|]. intros ?.
    apply create_new; [done|]. intros n0. by apply Hk.
Qed.

Lemma unlink_call {A : Type} (parent : Z) (name : string) (r : path) (d : bool) (m : stm (tree * T) io_error A) :
  removes_entry names parent name (if d then remove_dir h else remove_file h) m → good (r ++ [name]) →
  ensures (λ s, fs_at (after_unlink W good S0 h (r ++ [name]) d) s ∧ mapped parent (W ++ r) s) (call m)
    (λ _, fs_ok).
Proof.
  intros Hm Hr s [[Hw [Hn Hg]] Hp]. unfold call. destruct (m _) as [res [t tb]] eqn:E.
  destruct (Hm _ _ _ _ _ E) as [Hsub Hres].
  assert (step_inv (set_tree t (vf_os s))) as Hsv.
  { pose proof (after_unlink_inv W good S0 h Hh _ d _ Hr Hw) as Hsv.
    destruct res as [a| |]; [|subst; by apply step_inv_same..].
    destruct Hres as (p & Hpp & Hrm). pose proof (lookup_weaken _ _ _ _ Hpp Hn) as Hpp'.
    unfold mapped in Hp. rewrite Hp in Hpp'. injection Hpp' as <-. rewrite <- app_assoc in Hrm.
    eapply (removed W good S0 h Hh (r ++ [name]) d); [done | by destruct r | done |]. by destruct d. }
  destruct res; right; (split; [exact Hsv|]); (split; [by etrans | done]).
Qed.

Lemma unlink_unmapped {A : Type} (parent : Z) (name : string) (remove : tree → path → io tree) (m : stm (tree * T) io_error A) :
  removes_entry names parent name remove m →
  ensures (λ s, fs_ok s ∧ ipm_map (vf_inodes s) !! parent = None) (call m) (λ _, fs_ok).
Proof.
  intros Hm s [[Hw [Hn Hg]] Hp]. unfold call. destruct (m _) as [res [t tb]] eqn:E.
  destruct (Hm _ _ _ _ _ E) as [Hsub Hres]. destruct res as [a| |].
  { destruct Hres as (p & Hpp & _). pose proof (lookup_weaken _ _ _ _ Hpp Hn). congruence. }
  all: subst; right; (split; [by apply step_inv_same|]); (split; [by etrans | done]).
Qed.

Lemma removal_ok {A : Type} (parent : Z) (name : string) (d : bool) (m : stm (tree * T) io_error A) :
  removes_entry names parent name (if d then remove_dir h else remove_file h) m →
  ensures (λ s, fs_ok s ∧ entry_ok parent name None s)
    (guarded (r ← resolve_child_path parent name; if_ok r (λ p, ask hooks (PreUnlink p d));; call m))
    (λ _, fs_ok).
Proof.
  intros Hm. apply guarded_ok; [intros f s Hs; exact Hs | intros; apply steady_at|].
  apply on_entry.
  - intros r Hn Hr _.
    eapply bind_fs; [by apply (resolve_child_ok parent name r); [|intros s []] | stays|].
    intros res. apply ensures_fact. intros ->. simpl.
    eapply bind_fs; [apply (ask_ok _ step_inv (after_unlink W good S0 h (r ++ [name]) d) (mapped parent (W ++ r))) | stays |].
    + by intros os s Hs.
    + intros w res w' Hw Hk.
      destruct (unlink_hook_at W good S0 h Hh _ d w res w' Hr Hw Hk) as [|(-> & _ & ?)]; auto.
    + intros ?. by apply unlink_call.
  - intros s [Hok Hp]. unfold mbind, stm_bind, resolve_child_path, gets, ipm_resolve, ipm_get. rewrite Hp.
    exact (unlink_unmapped parent name _ m Hm s (conj Hok Hp)).
Qed.

Lemma unlink_ok ctx parent name :
  ensures (λ s, fs_ok s ∧ entry_ok parent name None s) (vf_unlink inner hooks ctx parent name) (λ _, fs_ok).
Proof. apply (removal_ok parent name false), (respected (FUnlink ctx parent name)). Qed.
Lemma rmdir_ok ctx parent name :
  ensures (λ s, fs_ok s ∧ entry_ok parent name None s) (vf_rmdir inner hooks ctx parent name) (λ _, fs_ok).
Proof. apply (removal_ok parent name true), (respected (FRmdir ctx parent name)). Qed.

(** *** Forgetting *)

(** The inodes a call forgets have no lookups left. *)
Definition forgotten (inodes : list Z) (m : stm (tree * T) io_error unit) (s : fs) : Prop :=
  Forall (λ i, i = FUSE_ROOT_ID ∨ names (m (tree_of (vf_os s), vf_tables s)).2.2 !! i = None) inodes.

Definition untracked (inodes : list Z) (m : InodePathMap) : InodePathMap := foldl (λ m i, ipm_remove i m) m inodes.

Lemma untracked_lookup inodes m i p :
  ipm_map (untracked inodes m) !! i = Some p ↔
  ipm_map m !! i = Some p ∧ (i = FUSE_ROOT_ID ∨ i ∉ inodes).
Proof.
  revert m. induction inodes as [|j inodes IH]; intros m; [pose proof (not_elem_of_nil i); simpl; tauto|].
  change (untracked (j :: inodes) m) with (untracked inodes (ipm_remove j m)).
  rewrite IH, not_elem_of_cons. unfold ipm_remove. destruct (Z.eqb_spec j FUSE_ROOT_ID) as [->|Hj].
  - destruct (decide (i = FUSE_ROOT_ID)); tauto.
  - simpl. rewrite lookup_delete_Some. destruct (decide (i = FUSE_ROOT_ID)) as [->|]; intuition congruence.
Qed.

Lemma forget_all_ok (inodes : list Z) (m : stm (tree * T) io_error unit) :
  reads names m →
  ensures (λ s, fs_ok s ∧ forgotten inodes m s)
    (modify (λ s, set_inodes (untracked inodes (vf_inodes s)) s);; call m) (λ _, fs_ok).
Proof.
  intros Hm s [[Hw [Hn Hg]] Hf]. unfold mbind, stm_bind, modify, call. simpl. unfold forgotten in Hf.
  destruct (m _) as [res [t tb]] eqn:E. destruct (Hm _ _ _ _ _ E) as [-> Hsub]. simpl in Hf.
  assert (maps_ok tb (untracked inodes (vf_inodes s))) as Hmaps.
  { split.
    - apply map_subseteq_spec. intros i p Hi. apply untracked_lookup. split.
      + eapply lookup_weaken; [|exact Hn]. by eapply lookup_weaken.
      + destruct (decide (i ∈ inodes)) as [Hin|]; [|by right]. rewrite Forall_forall in Hf.
        destruct (Hf i Hin) as [|Hnone]; [by left | by rewrite Hi in Hnone].
    - intros i p Hi. apply untracked_lookup in Hi as [Hi _]. by eapply Hg. }
  destruct res; right; (split; [by apply step_inv_same | exact Hmaps]).
Qed.

Lemma forget_ok ctx inode count :
  ensures (λ s, fs_ok s ∧ forgotten [inode] (inner _ (FForget ctx inode count)) s) (vf_forget inner ctx inode count)
    (λ _, fs_ok).
Proof. apply (forget_all_ok [inode]), (respected (FForget ctx inode count)). Qed.

Lemma untrack_all (inodes : list (Z * Z)) (s : fs) :
  for_each (λ r : Z * Z, untrack r.1) inodes s
  = (Ok (), set_inodes (untracked inodes.*1 (vf_inodes s)) s).
Proof.
  revert s. induction inodes as [|[i n] inodes IH]; intros s; [by destruct s|]. cbn [for_each].
  unfold mbind, stm_bind, untrack at 1, modify. simpl. by rewrite IH.
Qed.

Lemma batch_forget_ok ctx rs :
  ensures (λ s, fs_ok s ∧ forgotten rs.*1 (inner _ (FBatchForget ctx rs)) s) (vf_batch_forget inner ctx rs)
    (λ _, fs_ok).
Proof.
  intros s Hs. unfold vf_batch_forget, mbind, stm_bind. rewrite untrack_all.
  exact (forget_all_ok rs.*1 _ (respected (FBatchForget ctx rs)) s Hs).
Qed.

End methods.

End host.
End undo.
