(* ===== verification/VirtioSession.v ===== *)
(** * A virtio-fs session can be undone

    The requests of a guest to [InterceptedFs], served in sequence while a step
    is open, and a concrete file system at which the laws of
    [VirtioUndo.PassthroughLaws] hold.

    The small file system comes first. *)

From Stdlib Require Import Ascii.
From stdpp Require Import base gmap strings list fin_maps.
From S2P Require Import Prelude HostFs HostFacts Common WriteInterceptor Safeguard UndoLog UndoInterceptor UndoHooks UndoEvict UndoFacts UndoCapture UndoSteps UndoCorrect UndoTheorems UndoBackend InodeMap Fuse FileSystem VirtioFs VirtioUndo.
#[local] Open Scope Z_scope.

(** ** A small inode file system

    A concrete file system that satisfies [VirtioUndo.PassthroughLaws], at which
    the theorems about the virtio-fs backend are applied: inodes with lookup
    counts over the file tree.  Requests it does not need are refused. *)

Record inode_table := mkTable { it_data : gmap Z (path * Z); it_next : Z }.

Definition it_names (tb : inode_table) : gmap Z path := fst <$> it_data tb.

Definition small_root (p : path) : inode_table := mkTable {[FUSE_ROOT_ID := (p, 1)]} 2.

Section small_fs.
Context (h : host).

Abbreviation SmallM := (stm (tree * inode_table) io_error).

Definition refuse {A} : SmallM A := throw (mkIoError NotFound None).

(** The inode of a path: its count goes up, or it is new. *)
Definition alloc (p : path) (tb : inode_table) : Z * inode_table :=
  match head (filter (λ kv, kv.2.1 = p) (map_to_list (it_data tb))) with
  | Some (i, (_, n)) => (i, mkTable (<[i := (p, n + 1)]> (it_data tb)) (it_next tb))
  | None => (it_next tb, mkTable (<[it_next tb := (p, 1)]> (it_data tb)) (it_next tb + 1))
  end.

Definition zero_attr : Attr := of_fields [].
Definition no_time : Duration := mkDuration 0 0.
Definition entry_of (i : Z) : Entry := mkFuseEntry i 0 zero_attr no_time no_time.

(** Reply with the entry [p] of the tree [t]. *)
Definition reply_entry {A} (f : Entry → A) (p : path) (t : tree) : SmallM A := λ s,
  let '(i, tb) := alloc p s.2 in
  if i =? 0 then (Err (mkIoError NotFound None), s) else (Ok (f (entry_of i)), (t, tb)).

Definition at_child {A} (parent : Z) (name : string) (f : path → tree → SmallM A) : SmallM A := λ s,
  match it_names s.2 !! parent with
  | Some p => f (p ++ [name]) s.1 s
  | None => refuse s
  end.

(** A change in place of the node of an inode. *)
Definition touch {A} (inode : Z) (f : node → option (A * node)) : SmallM A := λ s,
  match it_names s.2 !! inode with
  | Some p =>
      match s.1 !! p with
      | Some n => match f n with Some (a, n') => (Ok a, (<[p := n']> s.1, s.2)) | None => refuse s end
      | None => refuse s
      end
  | None => refuse s
  end.

Definition small_lookup (parent : Z) (name : string) : SmallM Entry :=
  at_child parent name (λ p t, if decide (is_Some (t !! p)) then reply_entry id p t else refuse).

Definition small_make (d : bool) (parent : Z) (name : string) : SmallM Entry :=
  at_child parent name (λ p t, match creates h d t p with Ok t' => reply_entry id p t' | _ => refuse end).

(** The reply to an open: no handle, no options. *)
Definition opened : option Z * Z := (None, 0).

Definition truncated (n : node) : option (option Z * Z * node) :=
  match n with File m _ => Some (opened, File (set_mtime (h_clock h) m) []) | _ => None end.

Definition small_open (inode flags : Z) : SmallM (option Z * Z) :=
  if Z.land flags O_TRUNC =? 0 then mret opened else touch inode truncated.

Definition created (e : Entry) : Entry * option Z * Z := (e, None, 0).

Definition small_create (parent : Z) (name : string) (flags : Z) : SmallM (Entry * option Z * Z) :=
  at_child parent name (λ p t,
    match t !! p with
    | Some n =>
        if Z.land flags O_TRUNC =? 0 then reply_entry created p t
        else match truncated n with
             | Some (_, n') => reply_entry created p (<[p := n']> t)
             | None => refuse
             end
    | None => match creates h false t p with Ok t' => reply_entry created p t' | _ => refuse end
    end).

Definition small_remove (remove : tree → path → io tree) (parent : Z) (name : string) : SmallM unit :=
  at_child parent name (λ p t,
    match remove t p with
    | Ok t' => λ s, (Ok (), (t', mkTable (filter (λ kv, kv.2.1 ≠ p) (it_data s.2)) (it_next s.2)))
    | _ => refuse
    end).

Definition forget_one (inode count : Z) (tb : inode_table) : inode_table :=
  match it_data tb !! inode with
  | Some (p, n) =>
      mkTable (if n <=? count then delete inode (it_data tb) else <[inode := (p, n - count)]> (it_data tb))
        (it_next tb)
  | None => tb
  end.

Definition overwritten (data : list Z) (n : node) : option (Z * node) :=
  match n with
  | File m _ => Some (Z.of_nat (length data), File (set_mtime (h_clock h) m) data)
  | _ => None
  end.

Definition stamped (n : node) : option (Attr * Duration * node) :=
  Some (zero_attr, no_time, with_meta (set_mtime (h_clock h)) n).

(** The contents of a file, as far as the buffers take them. *)
Definition small_read (inode room size offset : Z) : SmallM (list Z) := λ s,
  match it_names s.2 !! inode ≫= (s.1 !!.) with
  | Some (File _ data) => (Ok (take (Z.to_nat (Z.min room size)) (drop (Z.to_nat offset) data)), s)
  | _ => refuse s
  end.

(** The entries of a directory after the first [offset]. *)
Definition small_readdir (inode offset : Z) : SmallM (list DirEntry) := λ s,
  match it_names s.2 !! inode with
  | Some p =>
      (Ok (drop (Z.to_nat offset) (imap (λ i n, mkDirEntry 1 (Z.of_nat i + 1) 8 n) (children s.1 p))), s)
  | None => refuse s
  end.

Definition small_fs : PassthroughFs inode_table := λ A op,
  match op in operation A return SmallM A with
  | FInit _ => mret 0
  | FDestroy => mret ()
  | FLookup _ parent name => small_lookup parent name
  | FForget _ inode count => modify (λ s, (s.1, forget_one inode count s.2))
  | FBatchForget _ rs => modify (λ s, (s.1, foldl (λ tb r, forget_one r.1 r.2 tb) s.2 rs))
  | FGetattr _ _ _ => mret (zero_attr, no_time)
  | FSetattr _ inode _ _ valid =>
      if Z.ldiff valid (Z.lor SETATTR_ATIME SETATTR_ATIME_NOW) =? 0 then mret (zero_attr, no_time)
      else touch inode stamped
  | FMknod _ parent name _ _ _ _ => small_make false parent name
  | FMkdir _ parent name _ _ _ => small_make true parent name
  | FUnlink _ parent name => small_remove (remove_file h) parent name
  | FRmdir _ parent name => small_remove (remove_dir h) parent name
  | FOpen _ inode _ flags => small_open inode flags
  | FCreate _ parent name _ _ flags _ _ => small_create parent name flags
  | FRead _ inode _ w size offset _ _ => small_read inode (foldr Z.add 0 w) size offset
  | FWrite _ inode _ r _ _ _ _ _ _ => touch inode (overwritten (concat r))
  | FFlush _ _ _ _ => mret ()
  | FRelease _ _ _ _ _ _ _ => mret ()
  | FOpendir _ _ _ => mret opened
  | FReaddir _ inode _ _ offset => small_readdir inode offset
  | FReleasedir _ _ _ _ => mret ()
  | _ => refuse
  end.

(** ** The laws *)

Context (Hh : host_wf h).

Lemma alloc_names p tb i tb' : alloc p tb = (i, tb') → it_names tb' = <[i := p]> (it_names tb).
Proof.
  unfold alloc, it_names. destruct (head _) as [[j [q n]]|]; intros [= <- <-]; simpl; by rewrite fmap_insert.
Qed.

Lemma reads_refuse {A} : reads it_names (refuse (A := A)).
Proof. intros t tb r t' tb' [= _ <- <-]. done. Qed.
Lemma touches_refuse {A} inode : touches_inode it_names inode (refuse (A := A)).
Proof. intros t tb r t' tb' [= _ <- <-]. split; [done | by left]. Qed.

Lemma touches_touch {A} (inode : Z) (f : node → option (A * node)) :
  (∀ n a n', f n = Some (a, n') → is_dir_node n' = is_dir_node n ∧ is_symlink_node n' = is_symlink_node n ∧
     (meta_wf (node_meta n) → meta_wf (node_meta n'))) →
  touches_inode it_names inode (touch inode f).
Proof.
  intros Hf t tb r t' tb'. unfold touch, refuse, throw. simpl.
  destruct (it_names tb !! inode) as [p|]; [|intros [= _ <- <-]; split; [done | by left]].
  destruct (t !! p) as [n|] eqn:En; [|intros [= _ <- <-]; split; [done | by left]].
  destruct (f n) as [[a n']|] eqn:Ef; [|intros [= _ <- <-]; split; [done | by left]].
  intros [= _ <- <-]. split; [done|]. right. destruct (Hf _ _ _ Ef) as (Hd & Hl & Hm).
  exists p, n, n'. by split_and!.
Qed.

Lemma stamp_wf m : meta_wf m → meta_wf (set_mtime (h_clock h) m).
Proof. intros [Hp _]. split; [exact Hp | apply (hw_clock _ Hh)]. Qed.

(** What a request does once the path of its entry is known. *)
Definition replies_at {A : Type} (p : path) (entry : A → Entry) (post : tree → tree → Prop) (t : tree)
    (m : SmallM A) : Prop :=
  ∀ tb r t' tb', m (t, tb) = (r, (t', tb')) →
    match r with
    | Ok a => named it_names (entry a) p tb tb' ∧ post t t'
    | _ => t' = t ∧ it_names tb' ⊆ it_names tb
    end.

Lemma makes_at_child {A : Type} (parent : Z) (name : string) (entry : A → Entry)
    (post : path → tree → tree → Prop) (f : path → tree → SmallM A) :
  (∀ p t, replies_at p entry (post p) t (f p t)) →
  makes_entry it_names parent name entry post (at_child parent name f).
Proof.
  intros Hf t tb r t' tb'. unfold at_child. simpl.
  destruct (it_names tb !! parent) as [p|] eqn:Ep; [|by intros [= <- <- <-]].
  intros Hr. specialize (Hf (p ++ [name]) t tb r t' tb' Hr). destruct r as [a| |]; [|done|done].
  exists p. split; [done|]. exact Hf.
Qed.

Lemma replies_refuse {A : Type} (p : path) (entry : A → Entry) (post : tree → tree → Prop) (t : tree) :
  replies_at p entry post t refuse.
Proof. by intros tb r t' tb' [= <- <- <-]. Qed.

Lemma replies_entry {A : Type} (p : path) (f : Entry → A) (entry : A → Entry) (post : tree → tree → Prop) (t t1 : tree) :
  (∀ e, entry (f e) = e) → post t t1 → replies_at p entry post t (reply_entry f p t1).
Proof.
  intros He Hpost tb r t' tb'. unfold reply_entry. simpl. destruct (alloc p tb) as [i tb1] eqn:Ea.
  destruct (i =? 0) eqn:Ei; [by intros [= <- <- <-]|]. intros [= <- <- <-]. split; [|done].
  unfold named. rewrite He. simpl. rewrite Ei. by rewrite (alloc_names _ _ _ _ Ea).
Qed.

Lemma removes_remove (remove : tree → path → io tree) (parent : Z) (name : string) :
  removes_entry it_names parent name remove (small_remove remove parent name).
Proof.
  intros t tb r t' tb'. unfold small_remove, at_child, refuse, throw. simpl.
  destruct (it_names tb !! parent) as [p|]; [|by intros [= <- <- <-]].
  destruct (remove t (p ++ [name])) as [t1| |] eqn:Er; [|by intros [= <- <- <-]..].
  intros [= <- <- <-]. split; [|by exists p]. unfold it_names. simpl. apply map_fmap_mono, map_filter_subseteq.
Qed.

Lemma forget_names inode count tb : it_names (forget_one inode count tb) ⊆ it_names tb.
Proof.
  unfold forget_one, it_names. destruct (it_data tb !! inode) as [[p n]|] eqn:E; [|done]. simpl.
  destruct (n <=? count); [apply map_fmap_mono, delete_subseteq|].
  rewrite fmap_insert. simpl. rewrite insert_id; [done|]. by rewrite lookup_fmap, E.
Qed.

Lemma reads_same {A} (m : SmallM A) : (∀ s, (m s).2 = s) → reads it_names m.
Proof. intros Hm t tb r t' tb' H. specialize (Hm (t, tb)). rewrite H in Hm. by injection Hm as -> ->. Qed.

Lemma opens_ok inode flags :
  if Z.land flags O_TRUNC =? 0 then reads it_names (small_open inode flags)
  else touches_inode it_names inode (small_open inode flags).
Proof.
  unfold small_open. destruct (_ =? 0); [by apply reads_same|].
  apply touches_touch. intros [] a n' [= <- <-]. split_and!; [done | done | apply stamp_wf].
Qed.

Lemma creates_ok parent name flags :
  makes_entry it_names parent name (λ r, r.1.1)
    (λ p t t', match t !! p with
               | None => creation false p t t'
               | Some _ => if Z.land flags O_TRUNC =? 0 then t' = t else in_place (Some p) t t'
               end) (small_create parent name flags).
Proof.
  apply makes_at_child. intros p t. destruct (t !! p) as [n|] eqn:En.
  - destruct (_ =? 0) eqn:Ez; [apply replies_entry; [done|]; by rewrite En|].
    destruct n; simpl; [|apply replies_refuse..]. apply replies_entry; [done|]. rewrite En. right.
    eexists p, _, _. split_and!; [done | done | done | done | done | apply stamp_wf].
  - destruct (creates h false t p) as [t1| |] eqn:Ec; [|apply replies_refuse..].
    apply replies_entry; [done|]. rewrite En. by exists h.
Qed.

Lemma makes_ok d parent name : makes_entry it_names parent name id (creation d) (small_make d parent name).
Proof.
  apply makes_at_child. intros p t. destruct (creates h d t p) as [t1| |] eqn:Ec; [|apply replies_refuse..].
  apply replies_entry; [done|]. by exists h.
Qed.

#[export] Instance small_fs_laws : PassthroughLaws it_names h small_fs.
Proof.
  intros A op. destruct op; simpl; try apply reads_refuse; try apply touches_refuse; try apply removes_remove;
    try apply makes_ok; try exact I; try (by apply reads_same).
  - apply makes_at_child. intros p t. case_decide; [by apply replies_entry | apply replies_refuse].
  - intros t tb r t' tb' [= _ <- <-]. split; [done | apply forget_names].
  - intros t tb r t' tb' [= _ <- <-]. split; [done|].
    revert tb. induction requests as [|[i n] rs IH]; intros tb; [done|]. simpl.
    etrans; [apply IH | apply forget_names].
  - destruct (_ =? 0); [by apply reads_same|].
    apply touches_touch. intros [] a n' [= <- <-]; split_and!; try done; apply stamp_wf.
  - apply opens_ok.
  - apply creates_ok.
  - apply reads_same. intros s. unfold small_read, refuse, throw. by destruct (_ ≫= _) as [[]|].
  - apply touches_touch. intros [] a n' [= <- <-]. split_and!; [done | done | apply stamp_wf].
  - apply reads_same. intros s. unfold small_readdir, refuse, throw. by destruct (_ !! _).
Qed.

End small_fs.

(** ** Requests *)

Section requests.
Context {S T : Type} `{HasTree S} (inner : PassthroughFs T) (i : WriteInterceptor S).

(** The effect of a request; the reply is the caller's. *)
Definition vf_request (rq : fs_request) : stm (InterceptedFs S T) io_error unit :=
  match rq with Request op => InterceptedFs_methods inner i _ op;; mret () end.

End requests.

(** ** Sessions *)

Section session.
Context `{TP : ThirdParty} `{!ThirdPartyLaws TP} (W : path) (good : path → Prop) (S0 : tree).
Context {T : Type} (names : T → gmap Z path) (inner : host → PassthroughFs T).
Context (Hinner : ∀ h, host_wf h → PassthroughLaws names h (inner h)).

Abbreviation fs := (InterceptedFs world T).
Abbreviation fs_ok := (fs_ok W good S0 names).

(** A guest asks for entries by plain names, makes under a name only what was
    there when the step was opened or nothing, forgets an inode only with its
    whole lookup count, and does not rename or link. *)
Definition request_ok (h : host) (rq : fs_request) (s : fs) : Prop :=
  match rq with
  | Request op =>
      match op with
      | FLookup _ _ name => plain_name name
      | FForget ctx inode count => forgotten names [inode] (inner h _ (FForget ctx inode count)) s
      | FBatchForget ctx rs => forgotten names rs.*1 (inner h _ (FBatchForget ctx rs)) s
      | FCreate _ parent name _ _ _ _ _ | FMknod _ parent name _ _ _ _ =>
          entry_ok W good S0 parent name (Some false) s
      | FMkdir _ parent name _ _ _ => entry_ok W good S0 parent name (Some true) s
      | FUnlink _ parent name | FRmdir _ parent name => entry_ok W good S0 parent name None s
      | FRename _ _ _ _ _ _ | FSymlink _ _ _ _ _ | FLink _ _ _ _ => False
      | _ => True
      end
  end.

Definition serve_request (h : host) (rq : fs_request) (s : fs) : fs :=
  (vf_request (inner h) (undo_hooks h no_fault) rq s).2.

Fixpoint serve_requests (rs : list (host * fs_request)) (s : fs) : fs :=
  match rs with [] => s | (h, rq) :: rs' => serve_requests rs' (serve_request h rq s) end.

Fixpoint guest_ok (rs : list (host * fs_request)) (s : fs) : Prop :=
  match rs with
  | [] => True
  | (h, rq) :: rs' => request_ok h rq s ∧ guest_ok rs' (serve_request h rq s)
  end.

(** A request whose reply is dropped. *)
Lemma effect {A : Type} (P : fs → Prop) (m : stm fs io_error A) :
  UndoBackend.ensures fs_gone fs_ok P m (λ _, fs_ok) →
  UndoBackend.ensures fs_gone fs_ok P (m;; mret ()) (λ _, fs_ok).
Proof. intros Hm s Hs. specialize (Hm s Hs). unfold mbind, stm_bind. by destruct (m s) as [[] ?]. Qed.

Lemma request_keeps h rq :
  host_wf h →
  UndoBackend.ensures fs_gone fs_ok (λ s, fs_ok s ∧ request_ok h rq s)
    (vf_request (inner h) (undo_hooks h no_fault) rq) (λ _, fs_ok).
Proof.
  intros Hh. pose proof (Hinner h Hh) as Hl.
  destruct rq as [A op]. pose proof (law names (h := h) (inner := inner h) _ op) as Hop.
  apply effect. intros s [Hok Hrq].
  destruct op; simpl in Hop, Hrq |- *; try done; try (by eapply delegate_ok); try (by right).
  - by eapply lookup_ok.
  - by eapply forget_ok.
  - by eapply batch_forget_ok.
  - by eapply setattr_ok.
  - by eapply mknod_ok.
  - by eapply mkdir_ok.
  - by eapply unlink_ok.
  - by eapply rmdir_ok.
  - by eapply vf_open_ok.
  - by eapply create_ok.
  - by eapply (on_inode_ok _ _ _ _ _ Hh _ HWrite PreWrite).
  - by eapply (on_inode_ok _ _ _ _ _ Hh _ HFallocate PreFallocate).
  - by eapply (on_inode_ok _ _ _ _ _ Hh _ HXattr PreXattr).
  - by eapply (on_inode_ok _ _ _ _ _ Hh _ HXattr PreXattr).
  - by eapply (on_inode_ok _ _ _ _ _ Hh _ HCopyFileRange PreCopyFileRange).
  - by eapply tmpfile_ok.
Qed.

#[local] Hint Resolve gone_call gone_ask gone_notify gone_if_ok gone_track gone_track_entry gone_untrack
  gone_resolve_child gone_resolve gone_inodes : guarantees.

Lemma request_gone h rq :
  guarantees keeps_fs_gone (vf_request (inner h) (undo_hooks h no_fault) rq).
Proof.
  destruct rq as [A op]. unfold vf_request. destruct op; cbn [InterceptedFs_methods FileSystem_default];
    cbv beta delta [vf_delegate vf_open vf_lookup vf_forget vf_batch_forget vf_write vf_create vf_mkdir vf_mknod
      vf_unlink vf_rmdir vf_rename vf_setattr vf_symlink vf_link vf_fallocate vf_setxattr vf_removexattr
      vf_copyfilerange vf_tmpfile on_inode made];
    repeat (cbv beta zeta;
      lazymatch goal with
      | |- guarantees _ (guarded _) => apply gone_guarded
      | |- guarantees _ (if_ok _ _) => apply gone_if_ok; intros ?
      | |- guarantees _ (for_each _ _) => apply guarantees_for_each; [apply _|]; intros ?
      | |- guarantees _ (_ ≫= _) => apply guarantees_bind; [apply _ | | intros ?]
      | |- guarantees _ (match ?x with _ => _ end) => destruct x
      | |- _ => solve [auto with guarantees typeclass_instances]
      end).
Qed.

Lemma requests_keep rs s :
  Forall (λ r, host_wf r.1) rs → guest_ok rs s → fs_gone s ∨ fs_ok s →
  fs_gone (serve_requests rs s) ∨ fs_ok (serve_requests rs s).
Proof.
  intros Hall. revert s. induction Hall as [|[h rq] rs Hh _ IH]; intros s Hg Hs; [done|].
  destruct Hg as [Hrq Hg]. apply IH; [exact Hg|]. unfold serve_request. destruct Hs as [Hs|Hs].
  - left. exact (request_gone h rq s Hs).
  - pose proof (request_keeps h rq Hh s (conj Hs Hrq)) as Hk. by destruct (vf_request _ _ rq s) as [[] ?].
Qed.

End session.

(** Whatever a guest does through the virtio-fs backend while a step is
    open can be undone: after any sequence of admissible requests, unless a
    safeguard cancelled the step or it outgrew its size limit, rolling the step
    back restores the tree the step started from, up to the modification times
    of directories. *)
Theorem virtio_session_undone `{TP : ThirdParty} `{!ThirdPartyLaws TP} {T} (names : T → gmap Z path)
    (passthrough : host → PassthroughFs T) W good h0 id w0 w1 (s : InterceptedFs world T) requests h :
  (∀ h, host_wf h → PassthroughLaws names h (passthrough h)) →
  start_ok W good w0 → open_step h0 no_fault id w0 = (Ok (), w1) →
  vf_os s = w1 → maps_ok W good names (vf_tables s) (vf_inodes s) →
  Forall (λ r, host_wf r.1) requests → guest_ok W good (w_tree w0) names passthrough requests s →
  let w2 := vf_os (serve_requests passthrough requests s) in
  is_Some (active_step (inner (w_int w2))) → unprotected w2 = false →
  ∃ w3, rollback_current_step h no_fault w2 = (Ok (), w3) ∧ tree_sim (w_tree w3) (w_tree w0) ∧
        active_step (inner (w_int w3)) = None.
Proof.
  intros Hlaws Hstart Hopen Hw1 Hmaps Hhosts Hguest w2.
  destruct (open_step_start W good h0 id w0 w1 Hstart Hopen) as (Hsv & _ & _).
  apply (undo_unless_lost W good (w_tree w0)).
  destruct (requests_keep W good (w_tree w0) names passthrough Hlaws requests s Hhosts Hguest) as [Hl|[Hsv2 _]];
    [right; split; [by rewrite Hw1 | done] | by left | by right].
Qed.

(** *** A session

    On the sample tree: look up and truncate [a] and write to it, create and
    write [b], remove [d/f] and [d], make a directory [e], forget [a]. *)

Section decide.
Context {T : Type} (names : T → gmap Z path) (W : path) (good : path → Prop) `{!∀ r, Decision (good r)} (S0 : tree).

#[local] Instance plain_name_dec name : Decision (plain_name name).
Proof. unfold plain_name. apply _. Defined.
#[local] Instance entry_ok_dec parent name kind (s : InterceptedFs world T) :
  Decision (entry_ok W good S0 parent name kind s).
Proof.
  unfold entry_ok. apply and_dec; [apply _|]. destruct (_ !! _); [|apply _]. apply and_dec; [apply _|].
  destruct (S0 !! _), kind; apply _.
Defined.
#[local] Instance request_ok_dec inner h rq (s : InterceptedFs world T) :
  Decision (request_ok W good S0 names inner h rq s).
Proof. destruct rq as [A op]. destruct op; simpl; unfold forgotten; apply _. Defined.
#[export] Instance guest_ok_dec `{ThirdParty} inner rs (s : InterceptedFs world T) :
  Decision (guest_ok W good S0 names inner rs s).
Proof. revert s. induction rs as [|[h rq] rs IH]; intros s; simpl; [apply _|]. apply and_dec; [apply _ | apply IH]. Defined.

End decide.

Definition sample_fs : InterceptedFs world inode_table :=
  InterceptedFs_new sample_w1 (small_root sample_W) 0 sample_W.

Definition sample_ctx : Context := mkContext 0 0 1.
Definition look_up (parent : Z) (name : string) : fs_request := Request (FLookup sample_ctx parent name).
Definition write_to (inode : Z) (data : list Z) : fs_request :=
  Request (FWrite sample_ctx inode 0 [data] (Z.of_nat (length data)) 0 None false false 0).

Definition sample_requests : list (host * fs_request) :=
  let ctx := sample_ctx in
  pair sample_host <$>
    [look_up 1 "a"; Request (FOpen ctx 2 false 0x201); write_to 2 [1; 2; 3];
     Request (FCreate ctx 1 "b" 420 false 0 0 Extensions_default); write_to 3 [9];
     look_up 1 "d"; look_up 4 "f"; Request (FUnlink ctx 4 "f");
     Request (FRmdir ctx 1 "d"); Request (FMkdir ctx 1 "e" 493 0 Extensions_default);
     Request (FSetattr ctx 3 (of_fields []) None 1); Request (FReaddir ctx 1 0 4096 0);
     Request (FForget ctx 2 1)].

Lemma virtio_session_undone_witness :
  let w2 := vf_os (serve_requests small_fs sample_requests sample_fs) in
  ∃ w3, rollback_current_step sample_host no_fault w2 = (Ok (), w3) ∧
        tree_sim (w_tree w3) (w_tree sample_w0) ∧ active_step (inner (w_int w3)) = None.
Proof.
  apply (virtio_session_undone it_names small_fs sample_W clean sample_host 7 sample_w0 sample_w1 sample_fs
    sample_requests sample_host).
  - intros h Hh. by apply small_fs_laws.
  - by apply start_world_ok.
  - apply exec_ok. by vm_compute.
  - done.
  - split; [unfold it_names; simpl; by rewrite map_fmap_singleton|].
    apply map_Forall_singleton. exists []. by split; [|constructor].
  - apply Forall_forall. intros r (rq & -> & _)%list_elem_of_fmap. apply sample_host_wf.
  - apply (bool_decide_unpack _). by vm_compute.
  - apply (bool_decide_unpack _). by vm_compute.
  - by vm_compute.
Defined.

(** What the session leaves behind. *)
Example sample_requests_tree :
  let t := w_tree (vf_os (serve_requests small_fs sample_requests sample_fs)) in
  t !! ["w"; "a"] = Some (File (mkMeta 420 5000 ∅) [1; 2; 3]) ∧
  t !! ["w"; "b"] = Some (File (mkMeta 420 5000 ∅) [9]) ∧
  t !! ["w"; "d"] = None ∧ is_Some (t !! ["w"; "e"]).
Proof. split_and!; [by vm_compute.. | eexists; by vm_compute]. Qed.
