(* ===== verification/FuseSession.v ===== *)
(** * A session of FUSE messages can be undone

    The FUSE server over the intercepted file system: the messages of a guest,
    as bytes in its memory, are decoded, executed through the write
    interceptor and answered, and what they did to the working directory while
    a step is open is undone by its rollback.

    At the end are sessions, of this backend and of the 9P server, whose
    changes the log cannot take back. *)

From Stdlib Require Import Ascii.
From stdpp Require Import base gmap strings list fin_maps.
From S2P Require Import Prelude HostFs HostFacts Common WriteInterceptor Safeguard UndoLog UndoInterceptor UndoHooks UndoEvict UndoFacts UndoCapture UndoSteps UndoCorrect UndoTheorems P9Wire P9Messages P9Ops P9Server P9Loop UndoBackend P9Session InodeMap Fuse FileSystem Descriptors FuseServer FuseFacts FuseCalls VirtioFs VirtioUndo VirtioSession.
#[local] Open Scope Z_scope.

(** ** The operations a server performs *)

(** The file system that also keeps the operations it was asked for. *)
Definition logged {S : Type} (h : host) (fs : FileSystem S) : FileSystem (S * list (host * fs_request)) :=
  observing (λ _ op _, [(h, Request op)]) fs.

Section logging.
Context {S : Type} (h : host) (fs : FileSystem S).

(** Replaying operations. *)
Fixpoint replay (ops : list (host * fs_request)) (step : host → fs_request → S → S) (s : S) : S :=
  match ops with [] => s | (h', rq) :: ops' => replay ops' step (step h' rq s) end.

Context (step : host → fs_request → S → S).
Context (Hstep : ∀ (A : Type) (op : operation A) s, step h (Request op) s = (fs A op s).2).

(** The state is the one before, after the operations the log grew by. *)
Definition extends (s s' : Server (S * list (host * fs_request))) : Prop :=
  ∃ ops, (srv_fs s').2 = (srv_fs s).2 ++ ops ∧ (srv_fs s').1 = replay ops step (srv_fs s).1 ∧
         Forall (λ r, r.1 = h) ops.

Lemma replay_app ops ops' s : replay (ops ++ ops') step s = replay ops' step (replay ops step s).
Proof. revert s. induction ops as [|[h' rq] ops IH]; intros s; simpl; [done | apply IH]. Qed.

#[local] Instance extends_preorder : PreOrder extends.
Proof.
  split.
  - intros s. exists []. by rewrite app_nil_r.
  - intros s1 s2 s3 (l1 & H1 & E1 & F1) (l2 & H2 & E2 & F2). exists (l1 ++ l2).
    rewrite H2, H1, E2, E1, replay_app, app_assoc. split_and!; [done | done | by apply Forall_app].
Qed.

Abbreviation server := (logged h fs).

Lemma extends_fs_call {A : Type} (op : operation A) : guarantees extends (fs_call server op).
Proof.
  intros s. unfold fs_call, logged, observing. pose proof (Hstep A op (srv_fs s).1) as Hs.
  destruct (fs A op (srv_fs s).1) as [r f]. simpl in *. exists [(h, Request op)].
  rewrite <- Hs. by repeat constructor.
Qed.

Lemma extends_mem {A : Type} wrap (m : MemM A) : guarantees extends (on_mem wrap m).
Proof. intros s. unfold on_mem. destruct (m (srv_mem s)). exists []. by rewrite app_nil_r. Qed.

Lemma extends_options o : guarantees extends (set_options o).
Proof. intros s. exists []. by rewrite app_nil_r. Qed.

Lemma extends_panic {A : Type} : guarantees extends (panic (E := FuseError) (A := A)).
Proof. intros s. reflexivity. Qed.

Lemma extends_add_entry c max d e : guarantees extends (add_entry c max d e).
Proof.
  intros s. unfold add_entry. destruct (add_dirent _ _ _ _ _) as [[] mm]; exists []; by rewrite app_nil_r.
Qed.

(** Follow the structure of a handler. *)
Ltac extending :=
  repeat (cbv beta zeta;
    lazymatch goal with
    | |- guarantees _ (_ ≫= _) => apply guarantees_bind; [apply _ | | intros ?]
    | |- guarantees _ (fs_call _ _) => apply extends_fs_call
    | |- guarantees _ (on_mem _ _) => apply extends_mem
    | |- guarantees _ (set_options _) => apply extends_options
    | |- guarantees _ (add_entry _ _ _ _) => apply extends_add_entry
    | |- guarantees _ (lift _) => apply guarantees_lift; apply _
    | |- guarantees _ (gets _) => apply guarantees_gets; apply _
    | |- guarantees _ get_options => apply guarantees_gets; apply _
    | |- guarantees _ (mret _) => apply guarantees_ret; apply _
    | |- guarantees _ (throw _) => apply guarantees_throw; apply _
    | |- guarantees _ panic => apply extends_panic
    | |- guarantees _ (match ?x with _ => _ end) => destruct x
    end).

Lemma extends_write_reply bs w : guarantees extends (write_reply bs w).
Proof. apply extends_mem. Qed.
Lemma extends_reply_ok out data unique w : guarantees extends (reply_ok out data unique w).
Proof. unfold reply_ok, write_opt, write_reply, assert_written. extending. Qed.
Lemma extends_reply_error e unique w : guarantees extends (reply_error e unique w).
Proof. unfold reply_error, write_reply, assert_written. extending. Qed.
Lemma extends_answer {A : Type} (op : operation A) f unique w :
  (∀ a, guarantees extends (f a)) → guarantees extends (answer server op f unique w).
Proof.
  intros Hf. unfold answer. apply guarantees_bind; [apply _ | apply extends_fs_call|]. intros [e|a]; [|apply Hf].
  apply extends_reply_error.
Qed.

Lemma extends_readdir_loop size total c entries : guarantees extends (readdir_loop size total c entries).
Proof.
  revert total c. induction entries as [|d entries IH]; intros total c; simpl; extending. apply IH.
Qed.
Lemma extends_readdirplus_loop hd size total c entries :
  guarantees extends (readdirplus_loop server hd size total c entries).
Proof.
  revert total c. induction entries as [|d entries IH]; intros total c; simpl; unfold handle_dirent, undo_lookup, fs_do;
    extending. apply IH.
Qed.
Lemma extends_read_forgets n r : guarantees extends (read_forgets n r).
Proof. revert r. induction n as [|n IH]; intros r; simpl; unfold decode; extending. apply IH. Qed.

Lemma extends_handle_message page_size r w : guarantees extends (handle_message server page_size r w).
Proof.
  unfold handle_message, decode. extending; [apply extends_reply_error | | apply extends_reply_error].
  match goal with |- guarantees _ (dispatch_opcode _ _ ?o _ _ _) => destruct o end; cbn [dispatch_opcode];
    cbv beta delta [fuse_lookup fuse_forget fuse_getattr fuse_setattr fuse_readlink fuse_symlink fuse_mknod
      fuse_mkdir fuse_unlink fuse_rmdir fuse_rename fuse_rename2 do_rename fuse_link fuse_create fuse_open fuse_read
      fuse_write fuse_statfs fuse_release fuse_fsync fuse_setxattr fuse_getxattr fuse_listxattr fuse_removexattr
      fuse_flush fuse_init fuse_opendir fuse_readdir fuse_readdirplus fuse_releasedir fuse_fsyncdir fuse_access
      reply_if_err fuse_destroy fuse_batch_forget fuse_fallocate fuse_lseek fuse_copyfilerange fuse_syncfs
      fuse_tmpfile reply_unit FuseServer.reply_entry reply_attr reply_open decode read_rest name_and_extensions
      decode_setxattr split_header list_directory reply_readdir fs_do];
    repeat (cbv beta zeta;
      lazymatch goal with
      | |- guarantees _ (answer _ _ _ _ _) => apply extends_answer; intros ?
      | |- guarantees _ (reply_ok _ _ _ _) => apply extends_reply_ok
      | |- guarantees _ (reply_error _ _ _) => apply extends_reply_error
      | |- guarantees _ (write_reply _ _) => apply extends_write_reply
      | |- guarantees _ (read_forgets _ _) => apply extends_read_forgets
      | |- guarantees _ (readdir_loop _ _ _ _) => apply extends_readdir_loop
      | |- guarantees _ (readdirplus_loop _ _ _ _ _ _) => apply extends_readdirplus_loop
      | |- _ => progress extending
      end).
Qed.

End logging.

(** ** Sessions *)

(** A message of the guest: the memory as the guest left it, the buffers of the
    request and those for the reply. *)
Record guest_message := mkGuestMessage {
  gm_host : host;
  gm_mem : mem;
  gm_reader : Reader;
  gm_writer : Writer;
}.

Section session.
Context `{TP : ThirdParty} {T : Type} (passthrough : host → PassthroughFs T) (page_size : Z).

Abbreviation fuse_state := (Server (InterceptedFs world T * list (host * fs_request))).

(** The server of the backend. *)
Definition fuse_fs (h : host) : FileSystem (InterceptedFs world T) :=
  InterceptedFs_methods (passthrough h) (undo_hooks h no_fault).

(** A message; whatever the server returns, its state is kept. *)
Definition serve_fuse (msg : guest_message) (s : fuse_state) : fuse_state :=
  (handle_message (logged (gm_host msg) (fuse_fs (gm_host msg))) page_size (gm_reader msg) (gm_writer msg)
     (mkServer (srv_fs s) (srv_options s) (gm_mem msg))).2.

Definition serve_fuse_all (msgs : list guest_message) (s : fuse_state) : fuse_state :=
  foldl (λ s msg, serve_fuse msg s) s msgs.

Definition fuse_start (s : InterceptedFs world T) : fuse_state := mkServer (s, []) 0 ∅.

Lemma replay_requests ops (s : InterceptedFs world T) :
  replay ops (serve_request passthrough) s = serve_requests passthrough ops s.
Proof. revert s. induction ops as [|[h rq] ops IH]; intros s; simpl; [done | apply IH]. Qed.

(** The file system is where the logged operations lead, and they come from
    the hosts of the messages. *)
Definition traced (hosts : list host) (s0 : InterceptedFs world T) (s : fuse_state) : Prop :=
  (srv_fs s).1 = serve_requests passthrough (srv_fs s).2 s0 ∧ Forall (λ r, r.1 ∈ hosts) (srv_fs s).2.

Lemma serve_request_op h (A : Type) (op : operation A) s :
  serve_request passthrough h (Request op) s = (fuse_fs h A op s).2.
Proof.
  change (serve_request passthrough h (Request op) s) with ((fuse_fs h A op;; mret ()) s).2.
  unfold mbind, stm_bind. by destruct (fuse_fs h A op s) as [[] ?].
Qed.

Lemma serve_fuse_traced msg hosts s0 s :
  gm_host msg ∈ hosts → traced hosts s0 s → traced hosts s0 (serve_fuse msg s).
Proof.
  intros Hin [Hs Hl]. unfold serve_fuse.
  pose proof (extends_handle_message (gm_host msg) (fuse_fs (gm_host msg)) (serve_request passthrough)
    (serve_request_op (gm_host msg)) page_size (gm_reader msg) (gm_writer msg)
    (mkServer (srv_fs s) (srv_options s) (gm_mem msg))) as (ops & H1 & H2 & H3).
  simpl in H1, H2. split.
  - rewrite H2, H1, Hs, <- !replay_requests. by rewrite replay_app.
  - rewrite H1. apply Forall_app. split; [done|]. eapply Forall_impl; [exact H3|]. by intros r ->.
Qed.

Lemma serve_fuse_all_traced msgs hosts s0 s :
  Forall (λ msg, gm_host msg ∈ hosts) msgs → traced hosts s0 s → traced hosts s0 (serve_fuse_all msgs s).
Proof.
  intros Hall. revert s. induction Hall as [|msg msgs Hin _ IH]; intros s Hs; simpl; [done|].
  by apply IH, serve_fuse_traced.
Qed.

End session.


(** *** A session

    The same changes as in [sample_requests], as messages in guest memory. *)

Definition sample_message (opcode nodeid : Z) (body : list Z) : guest_message :=
  let len := Z.of_nat (40 + length body) in
  let bytes := as_slice (mkInHeader len opcode 77 nodeid 0 0 1 0 0) ++ body in
  mkGuestMessage sample_host (store_at (seqZ 0 len) bytes ∅)
    (mkConsumer [mkSlice 0 len] 0) (mkConsumer [mkSlice 4096 256] 0).

Definition sample_write (inode : Z) (data : list Z) : guest_message :=
  sample_message 16 inode (as_slice (mkWriteIn 0 0 (Z.of_nat (length data)) 0 0 0 0) ++ data).

Definition sample_messages : list guest_message :=
  [sample_message 1 1 (cstr "a"); sample_message 14 2 (as_slice (mkOpenIn 0x201 0)); sample_write 2 [1; 2; 3];
   sample_message 35 1 (as_slice (mkCreateIn 0 420 0 0) ++ cstr "b"); sample_write 3 [9];
   sample_message 1 1 (cstr "d"); sample_message 1 4 (cstr "f"); sample_message 10 4 (cstr "f");
   sample_message 11 1 (cstr "d"); sample_message 9 1 (as_slice (mkMkdirIn 493 0) ++ cstr "e");
   sample_message 28 1 (as_slice (mkReadIn 0 0 200 0 0 0 0)); sample_message 2 2 (as_slice (mkForgetIn 1))].

Definition sample_session : Server (InterceptedFs world inode_table * list (host * fs_request)) :=
  serve_fuse_all small_fs 4096 sample_messages (fuse_start sample_fs).


(** What the session leaves behind, and how much of it was logged. *)
Example fuse_session_tree :
  let t := w_tree (vf_os (srv_fs sample_session).1) in
  t !! ["w"; "a"] = Some (File (mkMeta 420 5000 ∅) [1; 2; 3]) ∧
  t !! ["w"; "b"] = Some (File (mkMeta 420 5000 ∅) [9]) ∧
  t !! ["w"; "d"] = None ∧ is_Some (t !! ["w"; "e"]) ∧
  length (srv_fs sample_session).2 = 12%nat.
Proof. split_and!; [by vm_compute.. | eexists; by vm_compute | by vm_compute]. Qed.

(** ** Requests the backends do not undo

    Concrete sessions outside the admissible ones of [P9Session.v] and
    [VirtioSession.v], after which rolling the step back does not restore the
    tree, and requests that leave the share. *)

(** The tree after the messages, and after the step is rolled back. *)
Definition after_messages (bodies : list (list Z)) : P9Server world :=
  serve_all sample_stat (pair sample_host <$> bodies) sample_server.
Definition undone (w : world) : tree := w_tree (exec (rollback_current_step sample_host no_fault) w).
Definition after_requests (rs : list fs_request) : InterceptedFs world inode_table :=
  serve_requests small_fs (pair sample_host <$> rs) sample_fs.

Definition attach_root : list Z := drop 4 (to_wire (mkTattach 0 0 "u" "" 0) 1).
Definition walk_to (fid newfid : Z) (names : list string) : list Z := drop 4 (to_wire (mkTwalk fid newfid names) 2).

(** A FID that is walked in place while it is open keeps its open file: the
    write goes to [a], the interceptor is told [d/f], and [a] is not restored. *)
Example open_fid_walked_away :
  let sv := after_messages
    [attach_root; walk_to 0 1 ["a"]; drop 4 (to_wire (mkTlopen 1 2) 3); walk_to 1 1 [".."; "d"; "f"];
     drop 4 (to_wire (mkTwrite 1 0 [1; 2; 3]) 4)] in
  undone (e_os (sv_env sv)) !! ["w"; "a"] = Some (File (mkMeta 420 5000 ∅) [1; 2; 3]).
Proof. by vm_compute. Qed.

(** A symbolic link to nothing is made, but the reply is an error and the
    creation is not logged: it survives the rollback. *)
Example dangling_symlink_not_undone :
  let link := drop 4 (to_wire (mkTsymlink 0 "l" "nowhere" 0) 2) in
  let sv := after_messages [attach_root] in
  (serve sample_host sample_stat link sv).1 = to_wire (mkRlerror ENOENT) 2 ∧
  is_Some (undone (e_os (sv_env (serve sample_host sample_stat link sv).2)) !! ["w"; "l"]).
Proof. cbv zeta. split; [by vm_compute | eexists; by vm_compute]. Qed.

(** A name with [..] in a request that creates a file leaves the share. *)
Example created_outside_the_share :
  let sv := after_messages [attach_root; drop 4 (to_wire (mkTlcreate 0 "../evil" 2 420 0) 2)] in
  is_Some (w_tree (e_os (sv_env sv)) !! ["evil"]).
Proof. cbv zeta. eexists. by vm_compute. Qed.

(** An inode that is forgotten with less than its lookup count stays in use but
    is no longer mapped: its writes are not reported to the interceptor. *)
Example partial_forget_not_undone :
  let s := after_requests [look_up 1 "a"; look_up 1 "a"; Request (FForget sample_ctx 2 1); write_to 2 [1; 2; 3]] in
  undone (vf_os s) !! ["w"; "a"] = Some (File (mkMeta 420 5000 ∅) [1; 2; 3]).
Proof. by vm_compute. Qed.

(** A file whose name is not UTF-8 is never mapped: likewise. *)
Example non_utf8_name_not_undone :
  let bad := String (ascii_of_nat 255) EmptyString in
  let s0 := set_host (set_tree (<[["w"; bad] := File (mkMeta 420 1 ∅) [7]]> sample_tree) sample_w1) sample_fs in
  let s := serve_requests small_fs (pair sample_host <$> [look_up 1 bad; write_to 2 [1; 2; 3]]) s0 in
  undone (vf_os s) !! ["w"; bad] = Some (File (mkMeta 420 5000 ∅) [1; 2; 3]).
Proof. by vm_compute. Qed.
