(* ===== verification/FsWatcher.v ===== *)
(** * The filesystem watcher

    Models [crates/sandbox/src/fs_watcher.rs]: the callback that turns events
    of the [notify] crate into affected paths and pairs the two halves of a
    rename, the loop that collects them between two ticks, and the processing
    of a batch, which discards the sandbox's own writes and the excluded paths,
    sets an undo barrier for each working directory with external changes and
    reports them.

    The paths are absolute ones of a Unix host, with names in UTF-8.  The
    interceptors share one tree.  The event types are those of [notify],
    without the payloads the source does not look at. *)

From Stdlib Require Import Ascii.
From stdpp Require Import base gmap strings list countable.
From S2P Require Import Prelude HostFs HostFacts Common WriteInterceptor UndoLog UndoInterceptor PathValidation RecentWrites StdioProtocol.
#[local] Open Scope Z_scope.

(** ** Events of the [notify] crate *)

Inductive RenameMode := RenameAny | RenameTo | RenameFrom | RenameBoth | RenameOther.
Inductive ModifyKind := ModifyAny | ModifyData | ModifyMetadata | ModifyName (mode : RenameMode) | ModifyOther.
Inductive EventKind := KindAny | KindAccess | KindCreate | KindModify (kind : ModifyKind) | KindRemove | KindOther.

Record NotifyEvent := mkNotify {
  ne_kind : EventKind;
  ne_paths : list path;
}.

(** ** From events to affected paths *)

Record TimestampedEvent := mkTimestamped {
  te_affected : AffectedPath;
  te_observed_at : Z;
}.

Definition is_mutation_event (event : NotifyEvent) : bool :=
  match ne_kind event with
  | KindCreate | KindRemove => true
  | KindModify ModifyMetadata => false
  | KindModify _ => true
  | _ => false
  end.

Definition event_kind_to_change_kind (kind : EventKind) : FileChangeKind :=
  match kind with
  | KindCreate => Created
  | KindRemove => Deleted
  | KindModify (ModifyName _) => Renamed
  | _ => Modified
  end.

(** The unpaired source of a rename, reported on its own. *)
Definition unpaired (from : option path) : list AffectedPath :=
  match from with Some old => [mkAffectedPath old Renamed None] | None => [] end.

Definition standalone (kind : FileChangeKind) (ps : list path) : list AffectedPath :=
  (λ p, mkAffectedPath p kind None) <$> ps.

(** Returns the entries and the new [pending_rename_from]. *)
Definition event_to_affected_paths (event : NotifyEvent) (pending_rename_from : option path)
    : list AffectedPath * option path :=
  match ne_kind event, ne_paths event with
  | KindModify (ModifyName RenameBoth), [from; to] => ([mkAffectedPath to Renamed (Some from)], None)
  | KindModify (ModifyName RenameFrom), ps => (unpaired pending_rename_from, head ps)
  | KindModify (ModifyName RenameTo), dest :: _ =>
      ([mkAffectedPath dest Renamed pending_rename_from], None)
  | KindModify (ModifyName RenameTo), [] => ([], None)
  | KindModify (ModifyName _), ps => (standalone Renamed ps, pending_rename_from)
  | kind, ps =>
      (unpaired pending_rename_from ++ standalone (event_kind_to_change_kind kind) ps, None)
  end.

(** The callback of [build_watcher], called with [Ok(event)] at [now]: the
    batch it sends, if any. *)
Definition watch_callback (now : Z) (event : NotifyEvent) (pending_rename_from : option path)
    : option (list TimestampedEvent) * option path :=
  if is_mutation_event event then
    let '(entries, pending') := event_to_affected_paths event pending_rename_from in
    match entries with
    | [] => (None, pending')
    | _ => (Some ((λ ap, mkTimestamped ap now) <$> entries), pending')
    end
  else (None, pending_rename_from).

(** ** Collecting a batch *)

(** [pending.iter_mut().find(..)] and the update of the entry found. *)
Fixpoint update_pending (te : TimestampedEvent) (pending : list TimestampedEvent)
    : list TimestampedEvent :=
  match pending with
  | [] => []
  | existing :: rest =>
      let ap := te_affected existing in
      if decide (ap_path ap = ap_path (te_affected te)) then
        (if te_observed_at existing <? te_observed_at te
         then mkTimestamped (mkAffectedPath (ap_path ap) (ap_kind (te_affected te)) (ap_renamed_from ap))
                (te_observed_at te)
         else existing) :: rest
      else existing :: update_pending te rest
  end.

Definition collect_event (acc : list TimestampedEvent * gset path) (te : TimestampedEvent)
    : list TimestampedEvent * gset path :=
  let '(pending, pending_seen) := acc in
  if decide (ap_path (te_affected te) ∈ pending_seen) then (update_pending te pending, pending_seen)
  else (pending ++ [te], {[ap_path (te_affected te)]} ∪ pending_seen).

Definition collect (entries : list TimestampedEvent) (acc : list TimestampedEvent * gset path)
    : list TimestampedEvent * gset path := foldl collect_event acc entries.

(** ** Filters *)

Fixpoint str_contains (pattern s : string) : bool :=
  match strip_str_prefix pattern s with
  | Some _ => true
  | None => match s with String _ s' => str_contains pattern s' | EmptyString => false end
  end.

Definition str_starts_with (prefix s : string) : bool := bool_decide (is_Some (strip_str_prefix prefix s)).

(** [str::strip_suffix], with what comes before the suffix. *)
Definition strip_str_suffix (suffix s : string) : option string :=
  string_rev <$> strip_str_prefix (string_rev suffix) (string_rev s).

(** The byte before the directory name is the last one of what is left of it. *)
Definition matches_exclude_pattern (path_str pattern : string) : bool :=
  if str_contains pattern path_str then true
  else match strip_str_suffix "/" pattern with
       | Some dir_name =>
           match strip_str_suffix dir_name path_str with
           | Some before =>
               match string_rev before with
               | EmptyString => true
               | String c _ => Ascii.eqb c slash
               end
           | None => false
           end
       | None => false
       end.

(** [to_string_lossy().replace('\\', "/")]. *)
Definition forward_slashes (s : string) : string :=
  str_map (λ c, if Ascii.eqb c backslash then slash else c) s.

(** The loop goes up from the parent; on absolute paths it ends at the root,
    and it stops early at a directory that is already in the set. *)
Fixpoint record_ancestors_from (rev_path : list string) (ancestors : gset path) : gset path :=
  match rev_path with
  | [] => ancestors
  | _ :: up =>
      if decide (rev up ∈ ancestors) then ancestors
      else record_ancestors_from up ({[rev up]} ∪ ancestors)
  end.
Definition record_ancestors (p : path) (ancestors : gset path) : gset path :=
  record_ancestors_from (rev p) ancestors.

Definition parents_of_children (entries : list AffectedPath) : list path :=
  entries ≫= λ ap,
    option_list (parent (ap_path ap)) ++ option_list (ap_renamed_from ap ≫= parent).

Definition remove_redundant_parents (entries : list AffectedPath) : list AffectedPath :=
  filter (λ ap, ap_path ap ∉ parents_of_children entries) entries.

(** ** Processing a batch *)

Record ProcessParams := mkProcessParams {
  pp_working_dirs : list path;
  pp_undo_dir_prefixes : list string;
  pp_exclude_patterns : list string;
  pp_gitignore_filters : list (option (string → bool → bool));
}.

(** The shared tree and the interceptors with their undo directories. *)
Record watched := mkWatched {
  wt_tree : tree;
  wt_interceptors : list (undo_dir * UndoInterceptor);
}.

Definition format_change_kind (kind : FileChangeKind) : string :=
  match kind with
  | Created => "created"
  | Modified => "modified"
  | Deleted => "deleted"
  | Renamed => "renamed"
  end.

Definition affected_string (ap : AffectedPath) : string :=
  match ap_renamed_from ap with
  | Some from => path_string from +:+ " → " +:+ path_string (ap_path ap) +:+ " (renamed)"
  | None => path_string (ap_path ap) +:+ " (" +:+ format_change_kind (ap_kind ap) +:+ ")"
  end.

(** The first working directory the path is in, with the relative path. *)
Fixpoint find_working_dir (index : nat) (working_dirs : list path) (p : path) : option (nat * path) :=
  match working_dirs with
  | [] => None
  | working_dir :: rest =>
      match strip_prefix working_dir p with
      | Some relative => Some (index, relative)
      | None => find_working_dir (S index) rest p
      end
  end.

Definition in_undo_dir (pp : ProcessParams) (p : path) : bool :=
  existsb (λ prefix, str_starts_with prefix (forward_slashes (path_string p))) (pp_undo_dir_prefixes pp).
Definition in_exclude_pattern (pp : ProcessParams) (p : path) : bool :=
  existsb (matches_exclude_pattern (forward_slashes (path_string p))) (pp_exclude_patterns pp).
Definition gitignored (pp : ProcessParams) (ns : tree) (index : nat) (p relative : path) : bool :=
  match pp_gitignore_filters pp !! index with
  | Some (Some matched) => matched (forward_slashes (join_with slash relative)) (path_is_dir ns p)
  | _ => false
  end.

(** One entry of [pending.drain(..)]: the accumulator is [per_dir] and
    [excluded_ancestors]. *)
Definition sort_pending (pp : ProcessParams) (ns : tree) (recent_writes : RecentBackendWrites)
    (acc : list (list AffectedPath) * gset path) (te : TimestampedEvent)
    : list (list AffectedPath) * gset path :=
  let '(per_dir, excluded_ancestors) := acc in
  let ap := te_affected te in
  let observed_at := te_observed_at te in
  if in_undo_dir pp (ap_path ap) then (per_dir, record_ancestors (ap_path ap) excluded_ancestors)
  else if in_exclude_pattern pp (ap_path ap)
  then (per_dir, record_ancestors (ap_path ap) excluded_ancestors)
  else if should_suppress (ap_path ap) observed_at recent_writes
  then (per_dir, record_ancestors (ap_path ap) excluded_ancestors)
  else
    let place :=
      match find_working_dir 0 (pp_working_dirs pp) (ap_path ap) with
      | Some (index, relative) =>
          if gitignored pp ns index (ap_path ap) relative
          then (per_dir, record_ancestors (ap_path ap) excluded_ancestors)
          else (alter (λ l, l ++ [ap]) index per_dir, excluded_ancestors)
      | None => (per_dir, excluded_ancestors)
      end in
    match ap_renamed_from ap with
    | Some from =>
        if should_suppress from observed_at recent_writes
        then (per_dir, record_ancestors from (record_ancestors (ap_path ap) excluded_ancestors))
        else place
    | None => place
    end.

(** The two clean-ups of the entries of one directory. *)
Definition clean_entries (excluded_ancestors : gset path) (entries : list AffectedPath)
    : list AffectedPath :=
  let entries := if (1 <? length entries)%nat then remove_redundant_parents entries else entries in
  filter (λ ap, ap_path ap ∉ excluded_ancestors) entries.

Section watcher.
Context (h : host) (fault : undo_io → option io_error).

(** [interceptors.get(index)] and the notification. *)
Definition set_barrier (index : nat) (external_paths : list AffectedPath) (s : watched)
    : option BarrierId * watched :=
  match wt_interceptors s !! index with
  | Some (ud, int) =>
      let '(r, w) := notify_external_modification h fault external_paths ExternalModification
                       (mkWorld (wt_tree s) ud int) in
      (match r with Ok (Some barrier) => Some (bi_barrier_id barrier) | _ => None end,
       mkWatched (w_tree w) (<[index := (w_undo w, w_int w)]> (wt_interceptors s)))
  | None => (None, s)
  end.

Fixpoint emit_events (index : nat) (per_dir : list (list AffectedPath)) (s : watched)
    : list Event * watched :=
  match per_dir with
  | [] => ([], s)
  | [] :: rest => emit_events (S index) rest s
  | external_paths :: rest =>
      let '(barrier_id, s1) := set_barrier index external_paths s in
      let '(events, s2) := emit_events (S index) rest s1 in
      (ExternalModificationEvent (affected_string <$> external_paths) barrier_id :: events, s2)
  end.

Definition process_pending_paths (pp : ProcessParams) (recent_writes : RecentBackendWrites)
    (pending : list TimestampedEvent) (s : watched) : list Event * watched :=
  let '(per_dir, excluded_ancestors) :=
    foldl (sort_pending pp (wt_tree s) recent_writes)
      (replicate (length (pp_working_dirs pp)) [], ∅) pending in
  emit_events 0 (clean_entries excluded_ancestors <$> per_dir) s.

(** ** The loop

    The two channels between the callback and the loop are one queue.  The
    record of recent writes, the tree and the interceptors are shared with the
    rest of the sandbox, which changes them between any two steps of the loop. *)

Record watcher := mkWatcher {
  wr_rename_from : option path;
  wr_bridge : list (list TimestampedEvent);
  wr_pending : list TimestampedEvent;
  wr_seen : gset path;
  wr_recent : RecentBackendWrites;
  wr_watched : watched;
  wr_sent : list Event;
}.

Inductive watch_input :=
  | Notified (now : Z) (event : NotifyEvent)
  | Received
  | DebounceTick
  | PruneTick (now : Z)
  | RecentChanged (now : Z) (op : rw_op)
  | HostChanged (s : watched).

Definition set_recent (rw : RecentBackendWrites) (wr : watcher) : watcher :=
  mkWatcher (wr_rename_from wr) (wr_bridge wr) (wr_pending wr) (wr_seen wr) rw (wr_watched wr) (wr_sent wr).

Definition run_watcher_loop (pp : ProcessParams) (wr : watcher) (input : watch_input) : watcher :=
  match input with
  | Notified now event =>
      let '(batch, from) := watch_callback now event (wr_rename_from wr) in
      mkWatcher from (wr_bridge wr ++ option_list batch) (wr_pending wr) (wr_seen wr)
        (wr_recent wr) (wr_watched wr) (wr_sent wr)
  | Received =>
      match wr_bridge wr with
      | [] => wr
      | entries :: rest =>
          let '(pending, seen) := collect entries (wr_pending wr, wr_seen wr) in
          mkWatcher (wr_rename_from wr) rest pending seen (wr_recent wr) (wr_watched wr) (wr_sent wr)
      end
  | DebounceTick =>
      match wr_pending wr with
      | [] => wr
      | pending =>
          let '(events, s) := process_pending_paths pp (wr_recent wr) pending (wr_watched wr) in
          mkWatcher (wr_rename_from wr) (wr_bridge wr) [] ∅ (wr_recent wr) s (wr_sent wr ++ events)
      end
  | PruneTick now => set_recent (prune_expired now (wr_recent wr)) wr
  | RecentChanged now op => set_recent (rw_apply (wr_recent wr) (now, op)) wr
  | HostChanged s =>
      mkWatcher (wr_rename_from wr) (wr_bridge wr) (wr_pending wr) (wr_seen wr) (wr_recent wr) s (wr_sent wr)
  end.
End watcher.

(** ** Starting the watcher *)

Record FsWatcherConfig := mkFsWatcherConfig {
  fw_debounce : Z;
  fw_exclude_patterns : list string;
  fw_enabled : bool;
  fw_use_gitignore : bool;
}.

Definition FsWatcherConfig_default : FsWatcherConfig :=
  mkFsWatcherConfig (200 * 1000000) [".git/"; "node_modules"] true true.

(** [init] and [watch] are the error texts of the [notify] crate, if any;
    [build_gitignore] wraps the [ignore] crate.  The result is the warnings
    sent, and the parameters of the loop and its initial state if it runs. *)
Definition spawn_fs_watcher (init : option string) (watch : path → option string)
    (build_gitignore : path → option (string → bool → bool))
    (working_dirs undo_dirs : list path) (recent_writes : RecentBackendWrites) (s : watched)
    (config : FsWatcherConfig) : list Event * option (ProcessParams * watcher) :=
  if negb (fw_enabled config) then ([], None)
  else match init with
       | Some error =>
           ([WarningEvent "file_watcher_failed"
               ("Filesystem watcher failed to initialize: " +:+ error)], None)
       | None =>
           let warnings := omap (λ dir,
             (λ error, WarningEvent "file_watcher_failed"
                ("Failed to watch directory " +:+ path_string dir +:+ ": " +:+ error)) <$> watch dir)
             working_dirs in
           let undo_dir_prefixes := (λ d, forward_slashes (path_string d)) <$> undo_dirs in
           let gitignore_filters :=
             (λ dir, if fw_use_gitignore config then build_gitignore dir else None) <$> working_dirs in
           (warnings, Some (mkProcessParams working_dirs undo_dir_prefixes (fw_exclude_patterns config)
                              gitignore_filters,
                            mkWatcher None [] [] ∅ recent_writes s []))
       end.
