(* ===== verification/FsWatcherFacts.v ===== *)
(** * What the watcher reports

    The batch processing of the filesystem watcher against a declarative
    account of what is reported, and its place between the record of the
    sandbox's own writes and the undo log: the sandbox's own changes are never
    reported, and a reported change blocks the rollback of the step it would
    be lost with. *)

From stdpp Require Import base gmap strings list sets.
From S2P Require Import Prelude HostFs HostFacts Common WriteInterceptor UndoLog UndoInterceptor UndoEvict UndoFacts UndoTheorems UndoLife RecentWrites StdioProtocol FsWatcher.
#[local] Open Scope Z_scope.

(** ** Ancestors *)

Definition strictly_above (d p : path) : Prop := d `prefix_of` p ∧ d ≠ p.
#[export] Instance strictly_above_dec d p : Decision (strictly_above d p) := _.

Lemma strictly_above_snoc d p c : strictly_above d (p ++ [c]) ↔ d = p ∨ strictly_above d p.
Proof.
  unfold strictly_above. split.
  - intros [[r Hr] Hne]. destruct (path_cases r) as [->|(r' & x & ->)].
    + rewrite app_nil_r in Hr. congruence.
    + rewrite app_assoc in Hr. apply app_inj_tail in Hr as [-> ->].
      destruct r' as [|y r']; [left; by rewrite app_nil_r | right].
      split; [by eexists|]. intros E. apply (f_equal length) in E. rewrite length_app in E. simpl in E. lia.
  - intros [->|[[r ->] Hne]].
    + split; [by eexists|]. intros E. apply (f_equal length) in E. rewrite length_app in E. simpl in E. lia.
    + split; [exists (r ++ [c]); by rewrite app_assoc|].
      intros E. apply (f_equal length) in E. rewrite !length_app in E. simpl in E. lia.
Qed.

Lemma strictly_above_nil d : ¬ strictly_above d [].
Proof. intros [[r Hr] Hne]. by destruct d. Qed.

(** A set that holds the ancestors of its members. *)
Definition ancestor_closed (A : gset path) : Prop := ∀ p d, p ∈ A → strictly_above d p → d ∈ A.

Lemma record_ancestors_from_spec rp A x :
  (∀ p, p ∈ A → (∀ d, strictly_above d p → d ∈ A) ∨ rev rp `prefix_of` p) →
  x ∈ record_ancestors_from rp A ↔ x ∈ A ∨ strictly_above x (rev rp).
Proof.
  revert A. induction rp as [|c up IH]; intros A HA; cbn [record_ancestors_from rev].
  - split; [by left|]. intros [?|[]%strictly_above_nil]; done.
  - rewrite strictly_above_snoc. case_decide as Hin.
    + split; [by left|]. intros [Hx|[->|Hx]]; [done | done |].
      destruct (HA _ Hin) as [Hcl|[r Hr]]; [by apply Hcl|].
      apply (f_equal length) in Hr. simpl in Hr. rewrite !length_app in Hr. simpl in Hr. lia.
    + rewrite IH, elem_of_union, elem_of_singleton; [tauto|]. intros p [->%elem_of_singleton|Hp]%elem_of_union; [by right|].
      destruct (HA p Hp) as [Hcl|[r Hr]]; [left; intros d Hd; apply elem_of_union_r; auto | right].
      exists (c :: r). rewrite Hr. cbn [rev]. by rewrite <- app_assoc.
Qed.

(** Stopping at a directory that is already recorded loses nothing. *)
Lemma record_ancestors_spec p A x :
  ancestor_closed A → x ∈ record_ancestors p A ↔ x ∈ A ∨ strictly_above x p.
Proof.
  intros HA. unfold record_ancestors. rewrite record_ancestors_from_spec, rev_involutive; [done|].
  intros q Hq. left. intros d. by apply HA.
Qed.

Lemma strictly_above_trans a b c : strictly_above a b → strictly_above b c → strictly_above a c.
Proof.
  intros [[r ->] Hne] [[q ->] _]. split; [exists (r ++ q); by rewrite app_assoc|].
  intros E. rewrite <- (app_nil_r a), <- !app_assoc in E at 1. apply app_inv_head in E.
  destruct r; [|done]. by rewrite app_nil_r in Hne.
Qed.

Lemma record_ancestors_closed p A : ancestor_closed A → ancestor_closed (record_ancestors p A).
Proof.
  intros HA q d. rewrite !record_ancestors_spec by done. intros [Hq|Hq] Hd; [left; by eapply HA|].
  right. by eapply strictly_above_trans.
Qed.

(** ** The declarative account *)

Section account.
Context (pp : ProcessParams) (ns : tree) (rw : RecentBackendWrites).

(** An entry is a change of a working directory, or is discarded, and then the
    ancestors of these paths are noise. *)
Definition disposition (te : TimestampedEvent) : nat + list path :=
  let p := ap_path (te_affected te) in
  if in_undo_dir pp p || in_exclude_pattern pp p || should_suppress p (te_observed_at te) rw
  then inr [p]
  else match ap_renamed_from (te_affected te) with
       | Some from =>
           if should_suppress from (te_observed_at te) rw then inr [p; from]
           else match find_working_dir 0 (pp_working_dirs pp) p with
                | Some (i, relative) => if gitignored pp ns i p relative then inr [p] else inl i
                | None => inr []
                end
       | None =>
           match find_working_dir 0 (pp_working_dirs pp) p with
           | Some (i, relative) => if gitignored pp ns i p relative then inr [p] else inl i
           | None => inr []
           end
       end.

Definition discarded (te : TimestampedEvent) : list path :=
  match disposition te with inl _ => [] | inr ps => ps end.

(** The changes of working directory [i], in order. *)
Definition changes (i : nat) (pending : list TimestampedEvent) : list AffectedPath :=
  te_affected <$> filter (λ te, disposition te = inl i) pending.

Definition redundant (entries : list AffectedPath) (ap : AffectedPath) : Prop :=
  (1 < length entries)%nat ∧ ap_path ap ∈ parents_of_children entries.

Definition shadowed (pending : list TimestampedEvent) (ap : AffectedPath) : Prop :=
  Exists (λ te, Exists (strictly_above (ap_path ap)) (discarded te)) pending.

#[export] Instance redundant_dec entries ap : Decision (redundant entries ap) := _.
#[export] Instance shadowed_dec pending ap : Decision (shadowed pending ap) := _.

(** What is reported of working directory [i]. *)
Definition reported (pending : list TimestampedEvent) (i : nat) : list AffectedPath :=
  filter (λ ap, ¬ redundant (changes i pending) ap ∧ ¬ shadowed pending ap) (changes i pending).

Lemma sort_pending_disposition per_dir A te :
  sort_pending pp ns rw (per_dir, A) te =
    match disposition te with
    | inl i => (alter (λ l, l ++ [te_affected te]) i per_dir, A)
    | inr ps => (per_dir, foldl (λ A p, record_ancestors p A) A ps)
    end.
Proof.
  unfold sort_pending, disposition.
  repeat (case_match; simplify_eq; cbn [orb foldl]; try done).
Qed.

(** The state of the sorting loop after the entries [pending]. *)
Definition sorted (pending : list TimestampedEvent) (acc : list (list AffectedPath) * gset path) : Prop :=
  length acc.1 = length (pp_working_dirs pp) ∧
  (∀ i l, acc.1 !! i = Some l → l = changes i pending) ∧
  ancestor_closed acc.2 ∧
  ∀ x, x ∈ acc.2 ↔ Exists (λ te, Exists (strictly_above x) (discarded te)) pending.

Lemma changes_snoc i pending te :
  changes i (pending ++ [te]) =
    changes i pending ++ (if decide (disposition te = inl i) then [te_affected te] else []).
Proof.
  unfold changes. rewrite filter_app, fmap_app. f_equal. rewrite filter_cons, filter_nil. by case_decide.
Qed.

Lemma record_all_spec ps A :
  ancestor_closed A →
  let A' := foldl (λ A p, record_ancestors p A) A ps in
  ancestor_closed A' ∧ ∀ x, x ∈ A' ↔ x ∈ A ∨ Exists (strictly_above x) ps.
Proof.
  cbv zeta. revert A. induction ps as [|p ps IH]; intros A HA; cbn [foldl].
  - split; [done|]. intros x. rewrite Exists_nil. tauto.
  - destruct (IH _ (record_ancestors_closed p A HA)) as [Hc Hx]. split; [done|].
    intros x. rewrite Hx, record_ancestors_spec, Exists_cons by done. tauto.
Qed.

Lemma sort_pending_sorted pending acc te :
  sorted pending acc → sorted (pending ++ [te]) (sort_pending pp ns rw acc te).
Proof.
  destruct acc as [per_dir A]. intros (Hlen & Hper & Hcl & HA). cbn [fst snd] in *.
  rewrite sort_pending_disposition. destruct (disposition te) as [i|ps] eqn:E.
  - split_and!; cbn [fst snd]; [by rewrite length_alter | | done |].
    + intros j l Hl. rewrite changes_snoc, E. destruct (decide (i = j)) as [<-|Hne].
      * rewrite list_lookup_alter_eq in Hl. apply fmap_Some in Hl as (l0 & Hl0 & ->).
        rewrite decide_True by done. f_equal. by apply Hper.
      * rewrite list_lookup_alter_ne in Hl by done.
        rewrite decide_False by congruence. rewrite app_nil_r. by apply Hper.
    + intros x. rewrite HA, Exists_app, Exists_cons, Exists_nil. unfold discarded at 3. rewrite E, Exists_nil. tauto.
  - destruct (record_all_spec ps A Hcl) as [Hc' HA']. split_and!; cbn [fst snd]; [done | | done |].
    + intros j l Hl. rewrite changes_snoc, E. rewrite decide_False by done. rewrite app_nil_r. by apply Hper.
    + intros x. rewrite HA', HA, Exists_app, Exists_cons, Exists_nil. unfold discarded at 3. rewrite E. tauto.
Qed.

Lemma sort_pending_all pending :
  sorted pending
    (foldl (sort_pending pp ns rw) (replicate (length (pp_working_dirs pp)) [], ∅) pending).
Proof.
  induction pending as [|te pending IH] using rev_ind.
  - split_and!; cbn [foldl fst snd]; [by rewrite length_replicate | | by intros ? ? ?%elem_of_empty |].
    + intros i l [-> _]%lookup_replicate_1. done.
    + intros x. by rewrite Exists_nil, elem_of_empty.
  - rewrite foldl_app. by apply sort_pending_sorted.
Qed.

Lemma clean_entries_reported pending A i :
  (∀ x, x ∈ A ↔ Exists (λ te, Exists (strictly_above x) (discarded te)) pending) →
  clean_entries A (changes i pending) = reported pending i.
Proof.
  intros HA. unfold clean_entries, reported, remove_redundant_parents, redundant, shadowed.
  destruct (Nat.ltb_spec 1 (length (changes i pending))) as [Hl|Hl].
  - rewrite list_filter_filter. apply list_filter_iff. intros ap. rewrite HA. tauto.
  - apply list_filter_iff. intros ap. rewrite HA. split; [|tauto]. intros ?. split; [|done]. intros [? _]. lia.
Qed.
End account.

(** A batch is processed exactly as the declarative account says: each
    working directory gets the changes that fall to it, in order, without those
    at the parent of another change and without those above a discarded path. *)
Lemma process_batch `{ThirdParty} h fault pp rw pending s :
  process_pending_paths h fault pp rw pending s =
    emit_events h fault 0
      (reported pp (wt_tree s) rw pending <$> seq 0 (length (pp_working_dirs pp))) s.
Proof.
  unfold process_pending_paths.
  pose proof (sort_pending_all pp (wt_tree s) rw pending) as Hs. destruct (foldl _ _ _) as [per_dir A].
  destruct Hs as (Hlen & Hper & _ & HA). cbn [fst snd] in *. f_equal.
  apply list_eq. intros i. rewrite !list_lookup_fmap.
  destruct (per_dir !! i) as [l|] eqn:El.
  - pose proof (lookup_lt_Some _ _ _ El) as Hi. rewrite (lookup_seq_lt 0) by lia. simpl.
    rewrite (Hper i l El). f_equal. by apply clean_entries_reported.
  - apply lookup_ge_None in El. rewrite (lookup_seq_ge 0) by lia. done.
Qed.

(** ** Barriers *)

(** Notifying changes at most the undo directory. *)
Definition only_log (w w' : world) : Prop := w_tree w' = w_tree w ∧ w_int w' = w_int w.
#[local] Instance only_log_preorder : PreOrder only_log.
Proof. split; [by intros ?|]. intros ? ? ? [H1 H2] [H3 H4]. split; congruence. Qed.

Lemma notify_only_log h fault paths reason :
  guarantees only_log (notify_external_modification h fault paths reason).
Proof.
  assert (∀ op f, guarantees only_log (undo_op fault op f)) as Hop
    by (intros op f w; unfold undo_op; by destruct (fault op)).
  assert (∀ id, guarantees only_log (step_dir id)) as Hd by done.
  unfold notify_external_modification, write_step_barriers. guarantee.
Qed.

Lemma set_barrier_frame h fault index paths s :
  let s' := (set_barrier h fault index paths s).2 in
  wt_tree s' = wt_tree s ∧
  (∀ j, j ≠ index → wt_interceptors s' !! j = wt_interceptors s !! j).
Proof.
  cbv zeta. unfold set_barrier. destruct (wt_interceptors s !! index) as [[ud int]|]; [|done].
  pose proof (notify_only_log h fault paths ExternalModification (mkWorld (wt_tree s) ud int)) as [Ht _].
  destruct (notify_external_modification _ _ _ _ _) as [r w]. cbn [snd wt_tree wt_interceptors] in *.
  split; [done|]. intros j Hj. by rewrite list_lookup_insert_ne.
Qed.

Lemma emit_nothing h fault per_dir index s :
  Forall (λ l, l = []) per_dir → emit_events h fault index per_dir s = ([], s).
Proof. intros Hall. revert index. by induction Hall as [|l rest -> _ IH]; intros index; [|apply IH]. Qed.

(** An event for directory [i] comes with the barrier set on it, and the other
    directories do not disturb it. *)
Lemma emit_events_at h fault per_dir index s i l :
  per_dir !! i = Some l → l ≠ [] →
  let '(events, s') := emit_events h fault index per_dir s in
  ∃ s1, wt_tree s1 = wt_tree s ∧ wt_tree s' = wt_tree s ∧
    wt_interceptors s1 !! (index + i)%nat = wt_interceptors s !! (index + i)%nat ∧
    wt_interceptors s' !! (index + i)%nat =
      wt_interceptors (set_barrier h fault (index + i) l s1).2 !! (index + i)%nat ∧
    ExternalModificationEvent (affected_string <$> l) (set_barrier h fault (index + i) l s1).1 ∈ events.
Proof.
  assert (∀ per_dir index s j, (j < index)%nat →
    let s' := (emit_events h fault index per_dir s).2 in
    wt_tree s' = wt_tree s ∧ wt_interceptors s' !! j = wt_interceptors s !! j) as Hrest.
  { clear. induction per_dir as [|[|x l] rest IH]; intros index s j Hj; cbv zeta; cbn [emit_events];
      [done | apply IH; lia |].
    pose proof (set_barrier_frame h fault index (x :: l) s) as [H1 H2].
    destruct (set_barrier _ _ _ _ _) as [b s1]. specialize (IH (S index) s1 j ltac:(lia)) as [H3 H4].
    destruct (emit_events _ _ _ _ _) as [ev s2]. cbn [snd] in *.
    split; [congruence|]. rewrite H4. apply H2. lia. }
  revert index s i. induction per_dir as [|l0 rest IH]; intros index s i Hi Hl; [done|].
  destruct i as [|i]; cbn [lookup list_lookup] in Hi.
  - injection Hi as ->. destruct l as [|x l]; [done|]. cbn [emit_events].
    pose proof (set_barrier_frame h fault index (x :: l) s) as [Ht _].
    destruct (set_barrier _ _ _ _ _) as [b s1] eqn:Es.
    destruct (Hrest rest (S index) s1 index ltac:(lia)) as [H3 H4].
    destruct (emit_events _ _ _ _ _) as [ev s2]. rewrite Nat.add_0_r. exists s. rewrite Es. cbn [fst snd] in *.
    split_and!; [done | congruence | done | done | by left].
  - rewrite Nat.add_succ_r. destruct l0 as [|x l0]; cbn [emit_events]; [by apply (IH (S index) s i)|].
    pose proof (set_barrier_frame h fault index (x :: l0) s) as [Ht Ho].
    destruct (set_barrier _ _ _ (x :: l0) s) as [b s1].
    specialize (IH (S index) s1 i Hi Hl). destruct (emit_events _ _ _ _ _) as [ev s2].
    destruct IH as (s3 & H1 & H2 & H3 & H4 & H5). cbn [fst snd Nat.add] in *. exists s3.
    split_and!; [congruence | congruence | | done | by right]. rewrite H3. apply Ho. lia.
Qed.

Lemma find_working_dir_bound index dirs p i r :
  find_working_dir index dirs p = Some (i, r) → (index ≤ i < index + length dirs)%nat.
Proof.
  revert index. induction dirs as [|d dirs IH]; intros index; simpl; [done|].
  destruct (strip_prefix d p); [intros [= <- _]; lia|]. intros ?%IH. lia.
Qed.

Lemma disposition_bound pp ns rw te i :
  disposition pp ns rw te = inl i → (i < length (pp_working_dirs pp))%nat.
Proof.
  unfold disposition. intros Hd. repeat case_match; simplify_eq.
  all: match goal with H : find_working_dir _ _ _ = _ |- _ => apply find_working_dir_bound in H; lia end.
Qed.


(** ** The sandbox's own changes *)

Section quiet.
Context (own : path → Prop) (t ttl : Z).

(** An entry for an own path, observed within the time to live. *)
Definition own_entry (te : TimestampedEvent) : Prop :=
  own (ap_path (te_affected te)) ∧ te_observed_at te < t + ttl.

(** The watcher has only own paths in its hands, all of them recorded. *)
Record quiet (wr : watcher) : Prop := {
  quiet_from : ∀ p, wr_rename_from wr = Some p → own p;
  quiet_bridge : Forall (Forall own_entry) (wr_bridge wr);
  quiet_pending : Forall own_entry (wr_pending wr);
  quiet_seen : ∀ p, own p → seen_since t (normalize_path p) (wr_recent wr);
  quiet_ttl : rw_ttl (wr_recent wr) = ttl;
}.

(** Events are about own paths; the clock stays within the time to live. *)
Definition own_input (input : watch_input) : Prop :=
  match input with
  | Notified now event => now < t + ttl ∧ Forall own (ne_paths event)
  | PruneTick now | RecentChanged now _ => t ≤ now < t + ttl
  | Received | DebounceTick | HostChanged _ => True
  end.

Lemma own_standalone kind ps :
  Forall own ps → Forall (λ ap, own (ap_path ap)) (standalone kind ps).
Proof. intros Hps. unfold standalone. by rewrite Forall_fmap. Qed.

Lemma own_unpaired from :
  (∀ p, from = Some p → own p) → Forall (λ ap, own (ap_path ap)) (unpaired from).
Proof. destruct from; intros Hf; repeat constructor. by apply Hf. Qed.

Lemma own_event_paths event from :
  Forall own (ne_paths event) → (∀ p, from = Some p → own p) →
  Forall (λ ap, own (ap_path ap)) (event_to_affected_paths event from).1 ∧
  ∀ p, (event_to_affected_paths event from).2 = Some p → own p.
Proof.
  destruct event as [kind ps]. cbn [ne_paths]. intros Hps Hf. unfold event_to_affected_paths. cbn [ne_kind ne_paths].
  assert (∀ p, head ps = Some p → own p) as Hhd
    by (destruct Hps as [|x ps Hx Hps]; intros p; simpl; [done | by intros [= <-]]).
  repeat case_match; simplify_eq; cbn [fst snd];
    (split; [|by auto]); rewrite ?Forall_app; repeat split; auto using own_standalone, own_unpaired.
  all: by decompose_Forall_hyps; repeat constructor.
Qed.

Lemma own_callback now event from :
  now < t + ttl → Forall own (ne_paths event) → (∀ p, from = Some p → own p) →
  Forall (Forall own_entry) (option_list (watch_callback now event from).1) ∧
  ∀ p, (watch_callback now event from).2 = Some p → own p.
Proof.
  intros Hnow Hps Hf. unfold watch_callback. destruct (is_mutation_event event); [|by split; [constructor|]].
  pose proof (own_event_paths event from Hps Hf) as [H1 H2].
  destruct (event_to_affected_paths event from) as [[|ap entries] from']; cbn [fst snd] in *;
    (split; [|done]); cbn [option_list]; [constructor|]. constructor; [|constructor].
  apply Forall_fmap. eapply Forall_impl; [exact H1|]. intros x Hx. by split.
Qed.

Lemma own_update te pending :
  own_entry te → Forall own_entry pending → Forall own_entry (update_pending te pending).
Proof.
  intros [_ Ht]. induction 1 as [|x l [Hx Hxt] Hl IH]; cbn [update_pending]; [constructor|].
  destruct (decide _); constructor; try done. by destruct (te_observed_at x <? te_observed_at te).
Qed.

Lemma own_collect entries pending seen :
  Forall own_entry entries → Forall own_entry pending →
  Forall own_entry (collect entries (pending, seen)).1.
Proof.
  intros He. revert pending seen. induction He as [|te l Ht Hl IH]; intros pending seen Hp; [done|].
  cbn [collect foldl collect_event]. destruct (decide _); apply IH; [by apply own_update|].
  apply Forall_app. split; [done|]. by apply Forall_singleton.
Qed.

(** A batch of own entries is discarded. *)
Lemma own_batch_silent `{ThirdParty} h fault pp rw pending s :
  0 < ttl → rw_ttl rw = ttl → (∀ p, own p → seen_since t (normalize_path p) rw) →
  Forall own_entry pending → process_pending_paths h fault pp rw pending s = ([], s).
Proof.
  intros Hpos Httl Hseen Hp. rewrite process_batch. apply emit_nothing, Forall_fmap, Forall_true. intros i.
  cbn. unfold reported. enough (changes pp (wt_tree s) rw i pending = []) as -> by done.
  unfold changes. induction Hp as [|te l [Ho Ht] Hl IH]; [done|].
  rewrite filter_cons, decide_False; [done|]. unfold disposition.
  by rewrite (seen_suppressed t), !orb_true_r by (lia || by apply Hseen).
Qed.

Lemma seen_step wr now op :
  quiet wr → t ≤ now < t + ttl →
  let rw := rw_apply (wr_recent wr) (now, op) in
  rw_ttl rw = ttl ∧ ∀ p, own p → seen_since t (normalize_path p) rw.
Proof.
  intros Hq Hnow. cbv zeta. rewrite rw_apply_ttl. split; [apply Hq|]. intros p Hp.
  apply rw_apply_seen; [by apply Hq | by rewrite (quiet_ttl _ Hq)].
Qed.

Lemma quiet_step `{ThirdParty} h fault pp wr input :
  0 < ttl → quiet wr → own_input input →
  let wr' := run_watcher_loop h fault pp wr input in
  quiet wr' ∧ wr_sent wr' = wr_sent wr ∧
  wr_watched wr' = match input with HostChanged s => s | _ => wr_watched wr end.
Proof.
  intros Hpos Hq Hin. pose proof Hq as [Hf Hb Hp Hs Ht]. cbv zeta.
  destruct input as [now event | | | now | now op | s]; cbn [run_watcher_loop].
  - destruct Hin as [Hnow Hps]. destruct (own_callback now event (wr_rename_from wr) Hnow Hps Hf) as [H1 H2].
    destruct (watch_callback _ _ _) as [batch from]. split; [|done].
    split; [done | by apply Forall_app | done | done | done].
  - destruct (wr_bridge wr) as [|entries rest] eqn:Eb; [done|]. inversion_clear Hb as [|? ? He Hr].
    pose proof (own_collect entries _ (wr_seen wr) He Hp) as Hc.
    destruct (collect _ _) as [pending seen]. by split.
  - destruct (wr_pending wr) as [|te l] eqn:Ep; [done|].
    rewrite own_batch_silent by done. rewrite app_nil_r. split; [|done]. by split.
  - destruct (seen_step wr now OpPrune Hq Hin) as [H1 H2]. split; [|done]. by split.
  - destruct (seen_step wr now op Hq Hin) as [H1 H2]. split; [|done]. by split.
  - split; [|done]. by split.
Qed.

Lemma quiet_run `{ThirdParty} h fault pp inputs wr :
  0 < ttl → quiet wr → Forall own_input inputs →
  let wr' := foldl (run_watcher_loop h fault pp) wr inputs in
  wr_sent wr' = wr_sent wr ∧
  wr_watched wr' = foldl (λ s input, match input with HostChanged s' => s' | _ => s end) (wr_watched wr) inputs.
Proof.
  intros Hpos Hq Hin. revert wr Hq. induction Hin as [|input inputs Hi Hin IH]; intros wr Hq; [done|].
  cbn [foldl]. destruct (quiet_step h fault pp wr input Hpos Hq Hi) as (Hq' & Hs & Hw).
  destruct (IH _ Hq') as [IH1 IH2]. split; [by rewrite IH1 | by rewrite IH2, Hw].
Qed.
End quiet.


(** ** Collecting *)

(** Between two ticks each path has one entry, with the latest time of the
    events about it; no event is lost, and no entry is made up. *)
Record collected (entries : list TimestampedEvent) (acc : list TimestampedEvent * gset path) : Prop := {
  col_nodup : NoDup ((ap_path ∘ te_affected) <$> acc.1);
  col_seen : ∀ p, p ∈ acc.2 ↔ p ∈ (ap_path ∘ te_affected) <$> acc.1;
  col_kept : ∀ te, te ∈ entries → ∃ te', te' ∈ acc.1 ∧
    ap_path (te_affected te') = ap_path (te_affected te) ∧ te_observed_at te ≤ te_observed_at te';
  col_origin : ∀ te', te' ∈ acc.1 → ∃ te, te ∈ entries ∧
    ap_path (te_affected te) = ap_path (te_affected te') ∧ te_observed_at te = te_observed_at te' ∧
    ap_kind (te_affected te) = ap_kind (te_affected te');
}.

Lemma update_pending_paths te pending :
  (ap_path ∘ te_affected) <$> update_pending te pending = (ap_path ∘ te_affected) <$> pending.
Proof.
  induction pending as [|x l IH]; [done|]. cbn [update_pending].
  destruct (decide _); cbn; [by destruct (_ <? _) | by f_equal].
Qed.

Lemma update_pending_kept te pending x :
  x ∈ pending → ∃ x', x' ∈ update_pending te pending ∧
    ap_path (te_affected x') = ap_path (te_affected x) ∧ te_observed_at x ≤ te_observed_at x'.
Proof.
  induction pending as [|y l IH]; intros Hx; [by apply not_elem_of_nil in Hx|]. cbn [update_pending].
  apply elem_of_cons in Hx as [<-|Hx].
  - destruct (decide _) as [E|_]; [|by exists x; split; [left|]]. destruct (Z.ltb_spec (te_observed_at x) (te_observed_at te)).
    + eexists. split; [by left|]. cbn. split; [done | lia].
    + exists x. by split; [left|].
  - destruct (decide _); [exists x; by split; [right|]|]. destruct (IH Hx) as (x' & Hx' & ?). exists x'. by split; [right|].
Qed.

Lemma update_pending_new te pending :
  ap_path (te_affected te) ∈ (ap_path ∘ te_affected) <$> pending → ∃ x', x' ∈ update_pending te pending ∧
    ap_path (te_affected x') = ap_path (te_affected te) ∧ te_observed_at te ≤ te_observed_at x'.
Proof.
  induction pending as [|y l IH]; cbn [fmap list_fmap update_pending]; intros Hx; [by apply not_elem_of_nil in Hx|].
  destruct (decide _) as [E|Hne].
  - destruct (Z.ltb_spec (te_observed_at y) (te_observed_at te)); eexists; (split; [by left|]); cbn; (split; [done | lia]).
  - apply elem_of_cons in Hx as [Hx|Hx]; [by rewrite Hx in Hne|].
    destruct (IH Hx) as (x' & Hx' & ?). exists x'. by split; [right|].
Qed.

Lemma update_pending_origin te pending x' :
  x' ∈ update_pending te pending →
  x' ∈ pending ∨ ap_path (te_affected te) = ap_path (te_affected x') ∧ te_observed_at te = te_observed_at x' ∧
    ap_kind (te_affected te) = ap_kind (te_affected x').
Proof.
  induction pending as [|y l IH]; cbn [update_pending]; [by left|].
  destruct (decide _) as [E|Hne]; intros [->|Hx]%elem_of_cons.
  - destruct (_ <? _); [right; by cbn | left; by left].
  - left. by right.
  - left. by left.
  - destruct (IH Hx) as [?|?]; [left; by right | by right].
Qed.

Lemma collect_event_collected entries acc te :
  collected entries acc → collected (entries ++ [te]) (collect_event acc te).
Proof.
  destruct acc as [pending seen]. intros [Hnd Hseen Hkept Horig]. cbn [fst snd] in *. cbn [collect_event].
  destruct (decide _) as [Hin|Hni]; split; cbn [fst snd].
  - by rewrite update_pending_paths.
  - intros p. by rewrite update_pending_paths.
  - intros x [Hx | ->%list_elem_of_singleton]%elem_of_app; [|by apply update_pending_new, Hseen].
    destruct (Hkept x Hx) as (x1 & Hx1 & Hp1 & Ht1). destruct (update_pending_kept te pending x1 Hx1) as (x2 & Hx2 & Hp2 & Ht2).
    exists x2. split_and!; [done | congruence | lia].
  - intros x' [Hx|Hx]%update_pending_origin.
    + destruct (Horig x' Hx) as (x & ? & ?). exists x. split; [apply elem_of_app; by left | done].
    + exists te. split; [apply elem_of_app; right; by left | done].
  - rewrite fmap_app. apply NoDup_app. split_and!; [done | | apply NoDup_singleton].
    intros p Hp ->%list_elem_of_singleton. by apply Hni, Hseen.
  - intros p. rewrite fmap_app, elem_of_app, elem_of_union, Hseen, elem_of_singleton. cbn.
    rewrite list_elem_of_singleton. tauto.
  - intros x [Hx | ->%list_elem_of_singleton]%elem_of_app.
    + destruct (Hkept x Hx) as (x1 & ? & ?). exists x1. split; [apply elem_of_app; by left | done].
    + exists te. split; [apply elem_of_app; right; by left | done].
  - intros x' [Hx | ->%list_elem_of_singleton]%elem_of_app.
    + destruct (Horig x' Hx) as (x & ? & ?). exists x. split; [apply elem_of_app; by left | done].
    + exists te. split; [apply elem_of_app; right; by left | done].
Qed.

Lemma collect_batch l b acc : collected l acc → collected (l ++ b) (collect b acc).
Proof.
  unfold collect. revert l acc. induction b as [|te b IH]; intros l acc Hl; cbn [foldl].
  - by rewrite app_nil_r.
  - replace (l ++ te :: b) with ((l ++ [te]) ++ b) by by rewrite <- app_assoc.
    by apply IH, collect_event_collected.
Qed.

(** Between two ticks nothing that was notified is lost and nothing is
    made up: however the events come in batches, the pending list has one entry
    per path, the seen set is the set of their paths, every event has an entry
    for its path that is at least as recent, and every entry has the time and
    the kind of an event about its path. *)
Theorem collect_collected batches :
  collected (concat batches) (foldl (flip collect) ([], ∅) batches).
Proof.
  induction batches as [|b batches IH] using rev_ind.
  - split; cbn; [constructor | | by intros ? []%not_elem_of_nil | by intros ? []%not_elem_of_nil].
    intros p. by rewrite elem_of_empty, elem_of_nil.
  - rewrite foldl_app, concat_app. cbn [foldl concat]. rewrite app_nil_r. by apply collect_batch.
Qed.

(** ** Pairing renames *)

(** The callback over a sequence of events. *)
Fixpoint notify_all (events : list NotifyEvent) (from : option path) : list AffectedPath * option path :=
  match events with
  | [] => ([], from)
  | event :: rest =>
      let '(entries, from1) := event_to_affected_paths event from in
      let '(later, from2) := notify_all rest from1 in (entries ++ later, from2)
  end.

(** The paths an entry speaks of. *)
Definition mentioned (aps : list AffectedPath) : list path :=
  aps ≫= λ ap, option_list (ap_renamed_from ap) ++ [ap_path ap].

(** The halves of a rename carry one path, a whole rename carries two and does
    not come between the halves of another. *)
Fixpoint halves_ok (events : list NotifyEvent) (from : option path) : bool :=
  match events with
  | [] => true
  | event :: rest =>
      match ne_kind event, ne_paths event with
      | KindModify (ModifyName RenameFrom), [_] | KindModify (ModifyName RenameTo), [_] => true
      | KindModify (ModifyName RenameFrom), _ | KindModify (ModifyName RenameTo), _ => false
      | KindModify (ModifyName RenameBoth), [_; _] => match from with None => true | Some _ => false end
      | _, _ => true
      end && halves_ok rest (event_to_affected_paths event from).2
  end.

Lemma mentioned_app l l' : mentioned (l ++ l') = mentioned l ++ mentioned l'.
Proof. apply bind_app. Qed.
Lemma mentioned_standalone kind ps : mentioned (standalone kind ps) = ps.
Proof. unfold mentioned, standalone. induction ps as [|p ps IH]; [done|]. cbn. by f_equal. Qed.
Lemma mentioned_unpaired from : mentioned (unpaired from) = option_list from.
Proof. by destruct from. Qed.

Lemma event_paths_kept event from :
  halves_ok [event] from = true →
  let '(entries, from') := event_to_affected_paths event from in
  mentioned entries ++ option_list from' ≡ₚ option_list from ++ ne_paths event.
Proof.
  destruct event as [kind ps]. unfold halves_ok, event_to_affected_paths. cbn [ne_kind ne_paths].
  rewrite andb_true_r.
  repeat case_match; try done; simplify_eq; intros _;
    rewrite ?mentioned_app, ?mentioned_standalone, ?mentioned_unpaired; cbn;
    rewrite ?app_nil_r; destruct from; cbn; rewrite ?app_nil_r;
    first [done | apply Permutation_cons_append | symmetry; apply Permutation_cons_append].
Qed.

(** Pairing neither loses nor invents a path: the paths of the entries, with a
    source that still waits for its other half, are the paths of the events. *)
Lemma notified_paths_kept events from :
  halves_ok events from = true →
  let '(entries, from') := notify_all events from in
  mentioned entries ++ option_list from' ≡ₚ option_list from ++ (events ≫= ne_paths).
Proof.
  revert from. induction events as [|event events IH]; intros from Hok; cbn [notify_all];
    [cbn; by rewrite app_nil_r|].
  cbn [halves_ok] in Hok. apply andb_true_iff in Hok as [H1 H2].
  pose proof (event_paths_kept event from) as Hev. cbn [halves_ok] in Hev. rewrite H1 in Hev. specialize (Hev eq_refl).
  destruct (event_to_affected_paths event from) as [entries from1]. cbn [snd] in H2. specialize (IH from1 H2).
  destruct (notify_all events from1) as [later from2]. rewrite mentioned_app, <- app_assoc, IH.
  rewrite app_assoc, Hev. by rewrite <- app_assoc.
Qed.

(** ** Samples *)

Definition sample_params : ProcessParams :=
  mkProcessParams [["w"]] ["/u"] [".git/"; "node_modules"] [None].
Definition sample_watched : watched :=
  mkWatched (w_tree one_step_world) [(w_undo one_step_world, w_int one_step_world)].
Definition edited (p : path) (at_ : Z) : TimestampedEvent := mkTimestamped (mkAffectedPath p Modified None) at_.



(** ** Findings *)

Definition watch (inputs : list watch_input) : watcher :=
  foldl (run_watcher_loop sample_host no_fault sample_params)
    (mkWatcher None [] [] ∅ RecentBackendWrites_default sample_watched []) inputs.
Definition renamed (mode : RenameMode) (ps : list path) : NotifyEvent := mkNotify (KindModify (ModifyName mode)) ps.

(** A file moved out of the working directory is one half of a rename: it stays
    in the buffer, and no tick reports it.  The next file moved in is then
    reported as the new name of the first. *)
Example moved_out_not_reported :
  let wr := watch [Notified 10 (renamed RenameFrom [["w"; "x"]]); Received; DebounceTick; DebounceTick] in
  wr_sent wr = [] ∧ wr_rename_from wr = Some ["w"; "x"] ∧
  te_affected <$> wr_pending (watch [Notified 10 (renamed RenameFrom [["w"; "x"]]); Received; DebounceTick;
                                     Notified 90000000000 (renamed RenameTo [["w"; "y"]]); Received])
    = [mkAffectedPath ["w"; "y"] Renamed (Some ["w"; "x"])].
Proof. by vm_compute. Qed.

(** A renamed directory with a change below its new name is not reported as
    renamed: nothing says that the old name is gone. *)
Example renamed_directory_dropped :
  (λ e, match e with ExternalModificationEvent ps _ => ps | _ => [] end) <$>
    wr_sent (watch [Notified 10 (renamed RenameBoth [["w"; "old"]; ["w"; "new"]]);
                    Notified 20 (mkNotify (KindModify ModifyData) [["w"; "new"; "x"]]);
                    Received; Received; DebounceTick]) = [["/w/new/x (modified)"]].
Proof. by vm_compute. Qed.

(** A rename onto a path that already has an entry changes its kind, but the
    source is dropped. *)
Example rename_source_dropped :
  te_affected <$> wr_pending (watch [Notified 10 (mkNotify (KindModify ModifyData) [["w"; "a"]]);
                                     Notified 20 (renamed RenameBoth [["w"; "b"]; ["w"; "a"]]);
                                     Received; Received])
    = [mkAffectedPath ["w"; "a"] Renamed None].
Proof. by vm_compute. Qed.

(** An external new directory is not reported when something excluded was
    written below it. *)
Example created_above_excluded_dropped :
  wr_sent (watch [Notified 10 (mkNotify KindCreate [["w"; "repo"]]);
                  Notified 20 (mkNotify KindCreate [["w"; "repo"; ".git"; "HEAD"]]);
                  Received; Received; DebounceTick]) = [].
Proof. by vm_compute. Qed.
