(* ===== verification/Qemu.v ===== *)
(** * Mount names and the command line of the virtual machine

    Models [crates/sandbox/src/qemu.rs]: the names under which the working
    directories are mounted in the guest, and the arguments QEMU is started
    with, on a Linux host.  The hash is the one of the [ThirdParty] interface.
    Starting, watching and stopping the process are not modelled. *)

From Stdlib Require Import Ascii.
From stdpp Require Import base gmap strings list pretty.
From S2P Require Import Prelude HostFs Common UndoLog.
#[local] Open Scope Z_scope.

(** ** Characters *)

Definition dash : ascii := "-"%char.
Definition in_char_range (lo hi c : ascii) : bool :=
  (nat_of_ascii lo <=? nat_of_ascii c)%nat && (nat_of_ascii c <=? nat_of_ascii hi)%nat.
Definition is_ascii_digit (c : ascii) : bool := in_char_range "0" "9" c.
Definition is_ascii_lowercase (c : ascii) : bool := in_char_range "a" "z" c.
Definition is_ascii_alphanumeric (c : ascii) : bool :=
  is_ascii_digit c || is_ascii_lowercase c || in_char_range "A" "Z" c.
Definition ascii_lower (c : ascii) : ascii :=
  if in_char_range "A" "Z" c then ascii_of_nat (nat_of_ascii c + 32) else c.

(** [str::to_lowercase] on the bytes of the text, as far as the result is ASCII.
    The characters outside ASCII whose lower case has an ASCII letter are U+0130
    (an i and a combining dot) and U+212A (a k); the others are left as they
    are, since neither they nor their lower case survive the replacement that
    follows. *)
Definition is_byte (n : nat) (c : ascii) : bool := (nat_of_ascii c =? n)%nat.

Fixpoint to_lowercase (s : string) : string :=
  match s with
  | EmptyString => EmptyString
  | String c s1 =>
      match s1 with
      | EmptyString => String (ascii_lower c) EmptyString
      | String d s2 =>
          if is_byte 196 c && is_byte 176 d then
            String "i" (String (ascii_of_nat 204) (String (ascii_of_nat 135) (to_lowercase s2)))
          else
            match s2 with
            | String e s3 =>
                if is_byte 226 c && is_byte 132 d && is_byte 170 e then String "k" (to_lowercase s3)
                else String (ascii_lower c) (to_lowercase s1)
            | EmptyString => String (ascii_lower c) (to_lowercase s1)
            end
      end
  end.

(** ** Mount names *)

Definition MAX_MOUNT_NAME_LEN : nat := 36.
Definition HASH_SUFFIX_LEN : nat := 7.

Fixpoint collapse_dashes_from (prev_dash : bool) (s : string) : string :=
  match s with
  | EmptyString => EmptyString
  | String c s' =>
      if Ascii.eqb c dash then
        if prev_dash then collapse_dashes_from true s' else String dash (collapse_dashes_from true s')
      else String c (collapse_dashes_from false s')
  end.
Definition collapse_dashes (s : string) : string := collapse_dashes_from false s.

(** [trim_start_matches('-')] and [trim_end_matches('-')]. *)
Fixpoint trim_start_dashes (s : string) : string :=
  match s with
  | String c s' => if Ascii.eqb c dash then trim_start_dashes s' else s
  | EmptyString => EmptyString
  end.
Fixpoint trim_end_dashes (s : string) : string :=
  match s with
  | EmptyString => EmptyString
  | String c s' =>
      match trim_end_dashes s' with
      | EmptyString => if Ascii.eqb c dash then EmptyString else String c EmptyString
      | t => String c t
      end
  end.

(** A character outside ASCII is several bytes here, hence several dashes, which
    collapse to the one the character becomes. *)
Definition sanitize_path_component (component : string) : string :=
  let lowered := to_lowercase component in
  let replaced := str_map (λ c, if is_ascii_alphanumeric c then c else dash) lowered in
  let collapsed := collapse_dashes replaced in
  trim_end_dashes (trim_start_dashes collapsed).

(** [Path::file_name] and [to_string_lossy]. *)
Definition file_name_of (d : path) : option string :=
  name ← last d; if decide (name = "..") then None else Some name.

Definition extract_parent_component (p : path) : string :=
  default EmptyString (sanitize_path_component <$> (d ← parent p; file_name_of d)).

(** The indices of the names that occur more than once, in order. *)
Definition occurrences (names : list string) (name : string) : nat :=
  length (filter (λ n, n = name) names).
Definition find_collisions (names : list string) : list nat :=
  filter (λ i, 1 < default 0 (occurrences names <$> names !! i))%nat (seq 0 (length names)).

Section names.
Context `{ThirdParty}.

Definition short_hash (p : path) : string :=
  String.substring 0 HASH_SUFFIX_LEN (blake3_hex (bytes_of_string (path_string p))).

Definition truncate_if_needed (name : string) (full_path : path) : string :=
  if (String.length name <=? MAX_MOUNT_NAME_LEN)%nat then name
  else
    let prefix_len := (MAX_MOUNT_NAME_LEN - 1 - HASH_SUFFIX_LEN)%nat in
    trim_end_dashes (String.substring 0 prefix_len name) +:+ "-" +:+ short_hash full_path.

(** Phase 1: the sanitised last component, or a hash. *)
Definition base_name (dir : path) : string :=
  let sanitized := sanitize_path_component (default EmptyString (file_name_of dir)) in
  if decide (sanitized = EmptyString) then short_hash dir else sanitized.

(** Phase 2: the parent in front of the names that collide. *)
Definition add_parents (dirs : list path) (names : list string) : list string :=
  foldl (λ names idx,
    match dirs !! idx, names !! idx with
    | Some dir, Some name =>
        let par := extract_parent_component dir in
        if decide (par = EmptyString) then names else <[idx := par +:+ "-" +:+ name]> names
    | _, _ => names
    end) names (find_collisions names).

(** Phase 3: numbers on the names that still collide.  [counts] are the
    occurrences so far. *)
Definition number_name (names : list string) (count : nat) (name : string) : string :=
  if (1 <? count)%nat then name +:+ "-" +:+ pretty count
  else if (1 <? occurrences names name)%nat then name +:+ "-1" else name.

Fixpoint number_names (names : list string) (counts : gmap string nat) (rest : list (string * path)) : list string :=
  match rest with
  | [] => []
  | (name, dir) :: rest' =>
      let count := S (default 0%nat (counts !! name)) in
      truncate_if_needed (number_name names count name) dir
        :: number_names names (<[name := count]> counts) rest'
  end.

Definition generate_mount_names (dirs : list path) : list string :=
  let names := add_parents dirs (base_name <$> dirs) in
  number_names names ∅ (zip names dirs).
End names.

(** ** The command line *)

Record QemuConfig := mkQemuConfig {
  qemu_binary : option path;
  kernel_path : path;
  initrd_path : path;
  rootfs_path : option path;
  memory_mb : Z;
  cpus : Z;
  q_working_dirs : list path;
  control_socket_path : path;
  fs_socket_paths : list path;
  q_vm_mode : string;
  mount_names : list string;
  extra_args : list string;
}.

(** [v[index]]. *)
Definition index_or_panic {A} (v : list A) (index : nat) : outcome AgentError A :=
  match v !! index with Some x => Ok x | None => Panic end.

Section args.
Context (self : QemuConfig).

Definition add_platform_args : list string :=
  ["-machine"; "q35"; "-cpu"; "host"; "-accel"; "kvm";
   "-object"; "memory-backend-memfd,id=mem,size=" +:+ pretty (memory_mb self) +:+ "M,share=on";
   "-numa"; "node,memdev=mem"].

Definition add_common_args : list string :=
  ["-m"; pretty (memory_mb self) +:+ "M"; "-smp"; pretty (cpus self); "-netdev"; "user,id=net0";
   "-device"; "virtio-net-pci,netdev=net0"; "-nographic"].

(** One working directory; [mount_names[index]] panics out of range. *)
Definition filesystem_device (index : nat) (socket_path : path) : outcome AgentError (list string) :=
  mount_name ← index_or_panic (mount_names self) index;
  let chardev_id := "vfs" +:+ pretty index in
  Ok ["-chardev"; "socket,id=" +:+ chardev_id +:+ ",path=" +:+ path_string socket_path;
        "-device"; "vhost-user-fs-pci,chardev=" +:+ chardev_id +:+ ",tag=" +:+ mount_name].

Fixpoint join_names (names : list string) : string :=
  match names with
  | [] => EmptyString
  | [n] => n
  | n :: rest => n +:+ "," +:+ join_names rest
  end.

(** The arguments and the kernel parameters. *)
Fixpoint filesystem_devices (index : nat) (sockets : list path) : outcome AgentError (list string) :=
  match sockets with
  | [] => Ok []
  | socket_path :: rest =>
      device ← filesystem_device index socket_path;
      devices ← filesystem_devices (S index) rest;
      Ok (device ++ devices)
  end.
Definition add_filesystem_args : outcome AgentError (list string * list string) :=
  devices ← filesystem_devices 0 (fs_socket_paths self);
  Ok (devices,
      match mount_names self with [] => [] | names => ["mount_names=" +:+ join_names names] end).

Definition add_control_channel_args : list string :=
  ["-chardev"; "socket,id=ctrl,path=" +:+ path_string (control_socket_path self) +:+ ",server=on,wait=off";
   "-device"; "virtio-serial-pci"; "-device"; "virtserialport,chardev=ctrl,name=control"].

Definition add_boot_args (extra_kernel_params : list string) : list string :=
  let append := match rootfs_path self with
                | Some _ => "console=hvc0 root=/dev/vda"
                | None => "console=hvc0"
                end in
  ["-kernel"; path_string (kernel_path self); "-initrd"; path_string (initrd_path self);
   "-append"; foldl (λ append param, append +:+ " " +:+ param) append extra_kernel_params]
  ++ match rootfs_path self with
     | Some rootfs => ["-drive"; "file=" +:+ path_string rootfs +:+ ",format=raw,if=virtio"]
     | None => []
     end.

Definition default_qemu_binary_name : string := "qemu-system-x86_64".
Definition common_qemu_paths (binary_name : string) : list path :=
  [["usr"; "bin"; binary_name]; ["usr"; "local"; "bin"; binary_name]].

(** [which] is the lookup of the [which] crate. *)
Definition resolve_qemu_binary (which : string → option path) (ns : tree) : outcome AgentError path :=
  match qemu_binary self with
  | Some p => Ok p
  | None =>
      match which default_qemu_binary_name with
      | Some p => Ok p
      | None =>
          ok_or (head (filter (λ c, path_exists ns c = true) (common_qemu_paths default_qemu_binary_name)))
                QemuUnavailable
      end
  end.

Definition build_args (which : string → option path) (ns : tree) : outcome AgentError (path * list string) :=
  binary ← resolve_qemu_binary which ns;
  '(fs, extra_kernel_params) ← add_filesystem_args;
  Ok (binary, add_platform_args ++ add_common_args ++ fs ++ add_control_channel_args
              ++ add_boot_args extra_kernel_params ++ extra_args self).
End args.
