(* ===== verification/QemuFacts.v ===== *)
(** * Mount names

    The names are safe to put into QEMU's option strings and short enough for a
    virtiofs tag; when no directory is called like a numbered one, they are
    distinct. *)

From Stdlib Require Import Ascii.
From stdpp Require Import base gmap strings list pretty.
From S2P Require Import Prelude HostFs Common UndoLog UndoFacts UndoTheorems Qemu.
#[local] Open Scope Z_scope.

(** ** Strings of safe characters *)

Definition mount_char (c : ascii) : bool := is_ascii_digit c || is_ascii_lowercase c || Ascii.eqb c dash.

Lemma ascii_cases (P : ascii → bool) :
  forallb (λ n, P (ascii_of_nat n)) (seq 0 256) = true → ∀ c, P c = true.
Proof.
  rewrite forallb_forall. intros H c. rewrite <- (ascii_nat_embedding c). apply H, in_seq.
  pose proof (nat_ascii_bounded c). lia.
Qed.

Lemma eq_nat_of_lookup {A B} (l : list A) (k : list B) :
  (∀ i, is_Some (l !! i) ↔ is_Some (k !! i)) → length l = length k.
Proof.
  intros H. assert (∀ i, i < length l ↔ i < length k)%nat as H' by (intros i; by rewrite <- !lookup_lt_is_Some).
  pose proof (H' (length l)). pose proof (H' (length k)). lia.
Qed.

Lemma str_forall_app P s1 s2 : str_forall P (s1 +:+ s2) = str_forall P s1 && str_forall P s2.
Proof. induction s1 as [|c s1 IH]; simpl; [done|]. by rewrite IH, andb_assoc. Qed.
Lemma str_forall_mono (P Q : ascii → bool) s :
  (∀ c, P c = true → Q c = true) → str_forall P s = true → str_forall Q s = true.
Proof. intros HPQ. induction s as [|c s IH]; simpl; [done|]. rewrite !andb_true_iff. intros [Hc Hs]. auto. Qed.

Lemma str_forall_collapse P b s :
  P dash = true → str_forall P s = true → str_forall P (collapse_dashes_from b s) = true.
Proof.
  intros Hd. revert b. induction s as [|c s IH]; intros b; cbn; [done|]. intros [Hc Hs]%andb_true_iff.
  destruct (Ascii.eqb c dash); [destruct b|]; cbn; rewrite ?Hd, ?Hc, IH; done.
Qed.
Lemma str_forall_trim_start P s : str_forall P s = true → str_forall P (trim_start_dashes s) = true.
Proof.
  induction s as [|c s IH]; cbn; [done|]. intros H. destruct (Ascii.eqb c dash); [|done].
  apply IH. by apply andb_true_iff in H as [_ ?].
Qed.
Lemma str_forall_trim_end P s : str_forall P s = true → str_forall P (trim_end_dashes s) = true.
Proof.
  induction s as [|c s IH]; cbn; [done|]. intros [Hc Hs]%andb_true_iff. specialize (IH Hs).
  destruct (trim_end_dashes s) as [|d t]; [destruct (Ascii.eqb c dash)|]; cbn in *; by rewrite ?Hc, ?IH.
Qed.
Lemma str_forall_substring P n m s : str_forall P s = true → str_forall P (String.substring n m s) = true.
Proof.
  revert n m. induction s as [|c s IH]; intros [|n] [|m]; cbn; try done; intros [Hc Hs]%andb_true_iff.
  - by rewrite Hc, IH.
  - by apply IH.
  - by apply IH.
Qed.

Lemma length_trim_end s : (String.length (trim_end_dashes s) ≤ String.length s)%nat.
Proof.
  induction s as [|c s IH]; cbn; [done|]. destruct (trim_end_dashes s); [destruct (Ascii.eqb c dash)|]; cbn in *; lia.
Qed.
Lemma length_substring n s : (String.length (String.substring 0 n s) ≤ n)%nat.
Proof. revert s. induction n as [|n IH]; intros [|c s]; cbn; [lia..|]. specialize (IH s). lia. Qed.
Lemma length_str_app s1 s2 : String.length (s1 +:+ s2) = (String.length s1 + String.length s2)%nat.
Proof. induction s1 as [|c s1 IH]; simpl; [done|]. by rewrite IH. Qed.

(** ** Lower case *)

Definition not_upper (c : ascii) : bool := negb (in_char_range "A" "Z" c).

Lemma ascii_lower_not_upper c : not_upper (ascii_lower c) = true.
Proof. revert c. apply ascii_cases. by vm_compute. Qed.

Lemma to_lowercase_unfold c s1 :
  to_lowercase (String c s1) = String (ascii_lower c) (to_lowercase s1) ∨
  (∃ d s2, s1 = String d s2 ∧
     to_lowercase (String c s1) = String "i" (String (ascii_of_nat 204) (String (ascii_of_nat 135) (to_lowercase s2)))) ∨
  (∃ d e s3, s1 = String d (String e s3) ∧ to_lowercase (String c s1) = String "k" (to_lowercase s3)).
Proof.
  destruct s1 as [|d s2]; [by left|]. cbn [to_lowercase].
  destruct (is_byte 196 c && is_byte 176 d); [right; left; eauto|].
  destruct s2 as [|e s3]; [by left|].
  destruct (is_byte 226 c && is_byte 132 d && is_byte 170 e); [right; right; eauto | by left].
Qed.

Lemma to_lowercase_not_upper s : str_forall not_upper (to_lowercase s) = true.
Proof.
  remember (String.length s) as n eqn:En. revert s En. induction (lt_wf n) as [n _ IH]. intros s ->.
  destruct s as [|c s1]; [done|].
  assert (∀ t, (String.length t ≤ String.length s1)%nat → str_forall not_upper (to_lowercase t) = true) as IH'
    by (intros t Ht; apply (IH (String.length t)); [cbn; lia | done]).
  destruct (to_lowercase_unfold c s1) as [->|[(d & s2 & -> & ->)|(d & e & s3 & -> & ->)]]; cbn [str_forall String.length] in *.
  - by rewrite ascii_lower_not_upper, IH'.
  - rewrite IH' by lia. by vm_compute.
  - rewrite IH' by lia. by vm_compute.
Qed.

Lemma sanitized_chars s : str_forall mount_char (sanitize_path_component s) = true.
Proof.
  unfold sanitize_path_component. apply str_forall_trim_end, str_forall_trim_start, str_forall_collapse; [done|].
  generalize (to_lowercase_not_upper s). induction (to_lowercase s) as [|c t IH]; cbn; [done|].
  intros [Hc Ht]%andb_true_iff. rewrite IH by done. rewrite andb_true_r.
  revert Hc. apply (implb_true_iff). revert c. apply ascii_cases. by vm_compute.
Qed.

(** ** Decimal numbers *)

Lemma pretty_go_digits (x : N) s :
  str_forall is_ascii_digit s = true → str_forall is_ascii_digit (pretty_N_go x s) = true.
Proof.
  revert s. induction (N.lt_wf_0 x) as [x _ IH]. intros s Hs.
  assert (x = 0 ∨ 0 < x)%N as [->|Hx] by lia; [by rewrite pretty_N_go_0|].
  rewrite pretty_N_go_step by done. apply IH; [by apply N.div_lt|]. cbn [str_forall]. rewrite Hs, andb_true_r.
  unfold pretty_N_char. by repeat case_match.
Qed.
Lemma pretty_nat_digits (n : nat) : str_forall is_ascii_digit (pretty n) = true.
Proof.
  unfold pretty, pretty_nat, pretty, pretty_N. destruct (decide _); [done | by apply pretty_go_digits].
Qed.

Lemma digit_mount_char c : is_ascii_digit c = true → mount_char c = true.
Proof. unfold mount_char. by intros ->. Qed.
Lemma pretty_mount_chars (n : nat) : str_forall mount_char (pretty n) = true.
Proof. eapply str_forall_mono; [apply digit_mount_char | apply pretty_nat_digits]. Qed.
Lemma pretty_no_dash (n : nat) : lacks dash (pretty n) = true.
Proof.
  unfold lacks. eapply str_forall_mono; [|apply pretty_nat_digits]. intros c.
  apply (implb_true_iff). revert c. apply ascii_cases. by vm_compute.
Qed.

(** What comes after the last dash is determined. *)
Lemma last_dash a b d1 d2 :
  lacks dash d1 = true → lacks dash d2 = true → a +:+ String dash d1 = b +:+ String dash d2 → a = b ∧ d1 = d2.
Proof.
  assert (∀ x y z, lacks dash (x +:+ String dash y) = true → z) as Hno.
  { intros x y z. unfold lacks. rewrite str_forall_app. cbn. by rewrite andb_false_r. }
  intros H1 H2. revert b. induction a as [|c a IH]; intros [|c' b]; simpl; intros E.
  - by injection E.
  - injection E as <- ->. exfalso. by eapply (Hno b d2).
  - injection E as -> <-. exfalso. by eapply (Hno a d1).
  - injection E as <- E. by destruct (IH b E) as [-> ->].
Qed.

(** ** The names *)

Section facts.
Context `{TP : ThirdParty}.

(** [blake3::Hash::to_hex]: 64 lower-case hexadecimal digits. *)
Definition hex_digests : Prop :=
  ∀ data, String.length (blake3_hex data) = 64%nat ∧
          str_forall (λ c, is_ascii_digit c || in_char_range "a" "f" c) (blake3_hex data) = true.

(** A name for QEMU: not empty, at most 36 characters, each safe. *)
Definition mount_name_ok (name : string) : Prop :=
  name ≠ EmptyString ∧ (String.length name ≤ MAX_MOUNT_NAME_LEN)%nat ∧ str_forall mount_char name = true.

Definition safe (name : string) : Prop := name ≠ EmptyString ∧ str_forall mount_char name = true.

Lemma short_hash_ok p : hex_digests → safe (short_hash p) ∧ String.length (short_hash p) = 7%nat.
Proof.
  intros Hhex. unfold short_hash. destruct (Hhex (bytes_of_string (path_string p))) as [Hl Hc].
  destruct (blake3_hex _) as [|c1 [|c2 [|c3 [|c4 [|c5 [|c6 [|c7 s]]]]]]]; try done.
  split; [split; [done|] | by destruct s]. apply str_forall_substring. eapply str_forall_mono; [|exact Hc].
  intros c. apply implb_true_iff. revert c. apply ascii_cases. by vm_compute.
Qed.

Lemma truncate_ok name p : hex_digests → safe name → mount_name_ok (truncate_if_needed name p).
Proof.
  intros Hhex [Hne Hs]. unfold truncate_if_needed. destruct (Nat.leb_spec (String.length name) MAX_MOUNT_NAME_LEN); [done|].
  destruct (short_hash_ok p Hhex) as [[_ Hc] Hl]. set (pre := trim_end_dashes _). split_and!.
  - by destruct pre.
  - rewrite !length_str_app, Hl. cbn [String.length].
    pose proof (length_trim_end (String.substring 0 (MAX_MOUNT_NAME_LEN - 1 - HASH_SUFFIX_LEN) name)).
    pose proof (length_substring (MAX_MOUNT_NAME_LEN - 1 - HASH_SUFFIX_LEN) name).
    fold pre in H0. unfold MAX_MOUNT_NAME_LEN, HASH_SUFFIX_LEN in *. lia.
  - rewrite !str_forall_app, Hc. unfold pre. by rewrite str_forall_trim_end by by apply str_forall_substring.
Qed.

Lemma base_name_safe dir : hex_digests → safe (base_name dir).
Proof.
  intros Hhex. unfold base_name. case_decide as E; [apply short_hash_ok, Hhex|].
  split; [done | apply sanitized_chars].
Qed.

Lemma safe_app a b : safe a → str_forall mount_char b = true → safe (a +:+ "-" +:+ b).
Proof.
  intros [Ha Hsa] Hsb. split; [by destruct a|]. by rewrite !str_forall_app, Hsa, Hsb.
Qed.

Lemma add_parents_length dirs names : length (add_parents dirs names) = length names.
Proof.
  unfold add_parents. generalize (find_collisions names). intros l. revert names.
  induction l as [|i l IH]; intros names; cbn [foldl]; [done|]. rewrite IH.
  destruct (dirs !! i), (names !! i); try done. case_decide; [done | apply length_insert].
Qed.
Lemma add_parents_safe dirs names : Forall safe names → Forall safe (add_parents dirs names).
Proof.
  unfold add_parents. generalize (find_collisions names). intros l. revert names.
  induction l as [|i l IH]; intros names Hs; cbn [foldl]; [done|]. apply IH.
  destruct (dirs !! i) as [d|], (names !! i) as [n|] eqn:En; try done. case_decide as E; [done|].
  apply Forall_insert; [done|]. apply safe_app; [|by eapply (Forall_lookup_1 _ _ _ _ Hs)].
  split; [done|]. unfold extract_parent_component in *. destruct (_ ≫= _); [apply sanitized_chars | done].
Qed.

Lemma number_name_safe names k name : safe name → safe (number_name names k name).
Proof.
  intros Hs. unfold number_name. destruct (1 <? k)%nat; [|destruct (1 <? _)%nat; [|done]].
  - by apply safe_app, pretty_mount_chars.
  - apply (safe_app name "1"); done.
Qed.

(** ** Numbering *)

Lemma occurrences_cons n names name :
  occurrences (n :: names) name = ((if decide (n = name) then 1 else 0) + occurrences names name)%nat.
Proof. unfold occurrences. rewrite filter_cons. by case_decide. Qed.

Lemma occurrences_take i names name :
  (occurrences (take i names) name ≤ occurrences names name)%nat.
Proof.
  rewrite <- (take_drop i names) at 2. unfold occurrences. rewrite filter_app, length_app. lia.
Qed.
Lemma occurrences_before i names name :
  names !! i = Some name → (occurrences (take i names) name < occurrences names name)%nat.
Proof.
  intros Hi. rewrite <- (take_drop_middle names i name Hi) at 2.
  unfold occurrences. rewrite filter_app, length_app, filter_cons_True by done. cbn. lia.
Qed.
Lemma occurrences_later i j names name :
  names !! i = Some name → (i < j)%nat → (occurrences (take i names) name < occurrences (take j names) name)%nat.
Proof.
  intros Hi Hij. replace (take i names) with (take i (take j names)) by (rewrite take_take; f_equal; lia).
  apply occurrences_before. by rewrite lookup_take_lt.
Qed.

(** What phase 3 makes of the name at position [i]. *)
Definition unique_name (names : list string) (i : nat) (name : string) : string :=
  number_name names (S (occurrences (take i names) name)) name.

Lemma unique_name_cases names i name :
  names !! i = Some name →
  unique_name names i name =
    if (1 <? occurrences names name)%nat then name +:+ String dash (pretty (S (occurrences (take i names) name))) else name.
Proof.
  intros Hi. pose proof (occurrences_before i names name Hi) as Hlt. unfold unique_name, number_name.
  destruct (Nat.ltb_spec 1 (S (occurrences (take i names) name))).
  - by rewrite (proj2 (Nat.ltb_lt 1 (occurrences names name))) by lia.
  - by assert (occurrences (take i names) name = 0%nat) as -> by lia.
Qed.

Lemma number_names_lookup names counts rest i :
  number_names names counts rest !! i =
  (λ nd, truncate_if_needed
     (number_name names (S (default 0%nat (counts !! nd.1) + occurrences (take i rest.*1) nd.1)) nd.1) nd.2)
  <$> rest !! i.
Proof.
  revert counts i. induction rest as [|[n d] rest IH]; intros counts i; [done|].
  destruct i as [|i]; cbn [number_names].
  - cbn. by rewrite Nat.add_0_r.
  - cbn [lookup list_lookup]. rewrite IH. destruct (rest !! i) as [[n' d']|]; [|done]. cbn [fmap option_fmap option_map fst snd].
    rewrite fmap_cons. cbn [take fst]. rewrite occurrences_cons. do 3 f_equal.
    destruct (decide (n = n')) as [<-|Hn].
    + rewrite lookup_insert_eq. cbn. lia.
    + by rewrite lookup_insert_ne.
Qed.

Lemma generate_lookup dirs i :
  generate_mount_names dirs !! i =
  (λ nd, truncate_if_needed (unique_name (add_parents dirs (base_name <$> dirs)) i nd.1) nd.2)
  <$> zip (add_parents dirs (base_name <$> dirs)) dirs !! i.
Proof.
  unfold generate_mount_names. rewrite number_names_lookup. set (names := add_parents _ _).
  assert ((zip names dirs).*1 = names) as Hz.
  { apply fst_zip. unfold names. by rewrite add_parents_length, length_fmap. }
  rewrite Hz. destruct (zip names dirs !! i) as [[n d]|]; [|done]. cbn. by rewrite lookup_empty.
Qed.

Lemma generate_name dirs i name :
  generate_mount_names dirs !! i = Some name →
  ∃ n d, add_parents dirs (base_name <$> dirs) !! i = Some n ∧ dirs !! i = Some d ∧
         name = truncate_if_needed (unique_name (add_parents dirs (base_name <$> dirs)) i n) d.
Proof.
  rewrite generate_lookup. set (names := add_parents _ _). intros Hz.
  destruct (zip names dirs !! i) as [[n d]|] eqn:E; [|done]. injection Hz as <-.
  apply lookup_zip_with_Some in E as (n' & d' & [= -> ->] & H1 & H2). by exists n', d'.
Qed.

(** No name is like a numbered form of a repeated one. *)
Definition no_numbered_clash (names : list string) : Prop :=
  ∀ n m k, n ∈ names → (1 < occurrences names m)%nat → n ≠ m +:+ String dash (pretty (A := nat) k).

Lemma unique_names_inj names i j n m :
  no_numbered_clash names → (i < j)%nat → names !! i = Some n → names !! j = Some m →
  unique_name names i n ≠ unique_name names j m.
Proof.
  intros Hno Hij Hi Hj. rewrite (unique_name_cases _ _ _ Hi), (unique_name_cases _ _ _ Hj).
  assert (n ∈ names ∧ m ∈ names) as [Hn Hm] by (split; by eapply list_elem_of_lookup_2).
  assert (n = m → (1 < occurrences names n)%nat) as Hrep.
  { intros <-. pose proof (occurrences_later i j names n Hi Hij). pose proof (occurrences_before j names n Hj). lia. }
  destruct (Nat.ltb_spec 1 (occurrences names n)) as [H1|H1], (Nat.ltb_spec 1 (occurrences names m)) as [H2|H2].
  - intros [-> Hk]%last_dash; [|apply pretty_no_dash..]. apply (inj pretty) in Hk.
    pose proof (occurrences_later i j names m Hi Hij). lia.
  - intros E. symmetry in E. by apply (Hno _ _ _ Hm H1) in E.
  - intros E. by apply (Hno _ _ _ Hn H2) in E.
  - intros ->. specialize (Hrep eq_refl). lia.
Qed.
End facts.

(** Mount names: every working directory gets a name; it is not empty, at
    most 36 characters long, and made of lower-case letters, digits and dashes
    only, so that it cannot end an option in QEMU's comma-separated arguments.
    When no name is like the numbered form of a repeated one and none has to be
    cut, the names are distinct. *)
Theorem mount_names_ok `{TP : ThirdParty} (dirs : list path) :
  hex_digests →
  let names := add_parents dirs (base_name <$> dirs) in
  length (generate_mount_names dirs) = length dirs ∧
  Forall mount_name_ok (generate_mount_names dirs) ∧
  (no_numbered_clash names →
   (∀ i n, names !! i = Some n → String.length (unique_name names i n) ≤ MAX_MOUNT_NAME_LEN)%nat →
   NoDup (generate_mount_names dirs)).
Proof.
  intros Hhex names. split_and!.
  - assert (length (zip names dirs) = length dirs) as Hz.
    { rewrite length_zip_with. unfold names. rewrite add_parents_length, length_fmap. lia. }
    rewrite <- Hz. apply eq_nat_of_lookup. intros i. unfold names. rewrite generate_lookup. apply fmap_is_Some.
  - apply Forall_lookup. intros i name (n & d & Hn & _ & ->)%generate_name. apply truncate_ok; [done|].
    apply number_name_safe. eapply (Forall_lookup_1 safe); [|exact Hn]. apply add_parents_safe.
    apply Forall_fmap, Forall_forall. intros dir _. by apply base_name_safe.
  - intros Hno Hshort. apply NoDup_alt. intros i j name Hi Hj.
    apply generate_name in Hi as (n & d & Hn & _ & ->). apply generate_name in Hj as (m & d' & Hm & _ & E).
    unfold truncate_if_needed in E. fold names in Hn, Hm, E.
    rewrite !(proj2 (Nat.leb_le _ _)) in E by by apply Hshort.
    destruct (lt_eq_lt_dec i j) as [[Hij|]|Hij]; [|done|]; exfalso.
    + by apply (unique_names_inj names i j n m).
    + by apply (unique_names_inj names j i m n).
Qed.

(** An instance of the hash interface with digests of the right form. *)
Definition hex_crates : ThirdParty := {|
  blake3_hex _ := "00112233445566778899aabbccddeeff00112233445566778899aabbccddeeff";
  zstd_encode_all := zstd_encode_all (ThirdParty := concrete_crates);
  zstd_decode_all := zstd_decode_all (ThirdParty := concrete_crates);
  set_file_mtime := set_file_mtime (ThirdParty := concrete_crates);
  xattr_list := xattr_list (ThirdParty := concrete_crates);
  xattr_get := xattr_get (ThirdParty := concrete_crates);
  xattr_set := xattr_set (ThirdParty := concrete_crates);
  xattr_remove := xattr_remove (ThirdParty := concrete_crates);
|}.

Definition sample_dirs : list path :=
  [["home"; "ann"; "My Project"]; ["home"; "bob"; "my-project"]; ["srv"; "data"]; ["mnt"; "data"]; []].
Definition sample_names : list string := ["ann-my-project"; "bob-my-project"; "srv-data"; "mnt-data"; "0011223"].

Lemma distinct_no_clash names : NoDup names → no_numbered_clash names.
Proof.
  intros Hnd n m k _ Hm. exfalso. revert Hm. unfold occurrences. induction Hnd as [|x l Hx Hnd IH]; [cbn; lia|].
  rewrite filter_cons. case_decide as E; [|done]. subst x. cbn [length].
  assert (filter (λ n, n = m) l = []) as ->; [|cbn; lia].
  destruct (filter (λ n, n = m) l) as [|y k'] eqn:Ef; [done|]. exfalso.
  assert (y ∈ filter (λ n, n = m) l) as Hy by (rewrite Ef; by left).
  by apply list_elem_of_filter in Hy as [-> Hy].
Qed.

Lemma mount_names_ok_witness :
  generate_mount_names (H := hex_crates) sample_dirs = sample_names ∧
  NoDup (generate_mount_names (H := hex_crates) sample_dirs).
Proof.
  assert (add_parents sample_dirs (base_name (H := hex_crates) <$> sample_dirs) = sample_names) as En by by vm_compute.
  destruct (mount_names_ok (TP := hex_crates) sample_dirs) as (_ & _ & H).
  - intros data. split; by vm_compute.
  - split; [by vm_compute|]. apply H; rewrite En.
    + apply distinct_no_clash. apply (bool_decide_unpack _). by vm_compute.
    + intros i n Hi. do 5 (destruct i as [|i]; [injection Hi as <-; by apply (bool_decide_unpack _); vm_compute|]).
      discriminate Hi.
Defined.

(** [/x/y] and [/X/y] get the same prefixed name and are numbered; a directory
    whose own name is the numbered form collides with the first of them. *)
Example mount_names_collide :
  generate_mount_names (H := hex_crates) [["x"; "y"]; ["X"; "y"]; ["z"; "x-y-1"]] = ["x-y-1"; "x-y-2"; "x-y-1"].
Proof. by vm_compute. Qed.
