(* ===== verification/Orchestrator.v ===== *)
(** * The orchestrator: state, file tools and undo requests

    Models the part of [crates/sandbox/src/orchestrator.rs] that works on the
    host, and [session.rs]: the session with its interceptors, the choice of the
    interceptor and of the target path, the API step around a tool call,
    [write_file], [edit_file] and [read_file], and the undo requests of the MCP
    interface.  Each request is one atomic computation on the orchestrator, as
    the lock on the session makes it.  Starting and stopping sessions, commands
    and safeguards are in [SessionLife].

    An [Arc<UndoInterceptor>] is the index of the interceptor in the session;
    the interceptor carries the contents of its undo directory. *)

From Stdlib Require Import Ascii.
From stdpp Require Import base gmap strings list fin_maps pretty.
From S2P Require Import Prelude HostFs HostFacts Common StdioProtocol McpProtocol WriteInterceptor UndoLog UndoInterceptor PathValidation RecentWrites ControlProtocol ControlHandler CommandWaiter P9Ops.
#[local] Open Scope Z_scope.

Definition agent_error_to_mcp (e : AgentError) : McpError := InternalError (FromAgent e).

(** ** State *)

(** The parts of a session that come from the launch of the virtual machine: the
    lines handed to the control writer, whether its task still takes them, and
    the control channel handler, which drives the first interceptor. *)
Record VmSessionParts := mkVmParts {
  vp_qemu_pid : option Z;
  vp_control_lines : list string;
  vp_writer_open : bool;
  vp_handler : handler unit;
  vp_socket_dir : path;
}.

Record Session := mkSession {
  s_interceptors : list (undo_dir * UndoInterceptor);
  s_working_dirs : list path;
  s_mount_names : list string;
  s_undo_dirs : list path;
  s_vm_mode : string;
  s_safeguard_config : SafeguardConfig;
  (** The safeguards that wait for an answer: the identifier of each waiter. *)
  s_pending_safeguards : gmap string Z;
  s_last_start_payload : option SessionStartPayload;
  s_vm : option VmSessionParts;
  s_next_command_id : Z;
  s_next_api_step_id : Z;
  (** Whether the watcher task and the safeguard task run. *)
  s_fs_watcher : bool;
  s_recent_writes : option RecentBackendWrites;
  s_safeguard_bridge : bool;
}.

Inductive SessionState := Idle | Active (s : Session).

(** The command line as far as sessions use it. *)
Record CliArgs := mkCliArgs {
  ca_working_dirs : list path;
  ca_undo_dir : option path;
  ca_vm_mode : string;
  ca_qemu_binary : option path;
  ca_kernel_path : option path;
  ca_initrd_path : option path;
  ca_rootfs_path : option path;
  ca_memory_mb : Z;
  ca_cpus : Z;
}.

(** What outlives a session: the configuration, the undo directories on disk that
    no session has open, the events sent, whether a safeguard receiver is parked
    for the next launch, the answers given to safeguards, and the command
    waiter. *)
Record OrchEnv := mkOrchEnv {
  e_cli_args : CliArgs;
  e_undo_store : gmap path undo_dir;
  e_events : list Event;
  e_safeguard_receiver : bool;
  e_decisions : list (Z * SafeguardDecision);
  e_waiter : CommandWaiter;
}.

(** The session state, the host tree and the clock. *)
Record Orchestrator := mkOrchestrator {
  o_state : SessionState;
  o_tree : tree;
  o_now : Z;
  o_env : OrchEnv;
}.

Abbreviation OrchM := (stm Orchestrator McpError).

Definition on_session (f : Session → Session) (o : Orchestrator) : Orchestrator :=
  mkOrchestrator (match o_state o with Active s => Active (f s) | Idle => Idle end) (o_tree o) (o_now o) (o_env o).
Definition set_otree (t : tree) (o : Orchestrator) : Orchestrator :=
  mkOrchestrator (o_state o) t (o_now o) (o_env o).
Definition on_env (f : OrchEnv → OrchEnv) (o : Orchestrator) : Orchestrator :=
  mkOrchestrator (o_state o) (o_tree o) (o_now o) (f (o_env o)).

Definition set_recent_writes (rw : RecentBackendWrites) (s : Session) : Session :=
  mkSession (s_interceptors s) (s_working_dirs s) (s_mount_names s) (s_undo_dirs s) (s_vm_mode s)
    (s_safeguard_config s) (s_pending_safeguards s) (s_last_start_payload s) (s_vm s) (s_next_command_id s)
    (s_next_api_step_id s) (s_fs_watcher s) (Some rw) (s_safeguard_bridge s).
Definition set_interceptors (l : list (undo_dir * UndoInterceptor)) (s : Session) : Session :=
  mkSession l (s_working_dirs s) (s_mount_names s) (s_undo_dirs s) (s_vm_mode s)
    (s_safeguard_config s) (s_pending_safeguards s) (s_last_start_payload s) (s_vm s) (s_next_command_id s)
    (s_next_api_step_id s) (s_fs_watcher s) (s_recent_writes s) (s_safeguard_bridge s).
Definition set_next_api_step_id (n : Z) (s : Session) : Session :=
  mkSession (s_interceptors s) (s_working_dirs s) (s_mount_names s) (s_undo_dirs s) (s_vm_mode s)
    (s_safeguard_config s) (s_pending_safeguards s) (s_last_start_payload s) (s_vm s) (s_next_command_id s)
    n (s_fs_watcher s) (s_recent_writes s) (s_safeguard_bridge s).
Definition set_next_command_id (n : Z) (s : Session) : Session :=
  mkSession (s_interceptors s) (s_working_dirs s) (s_mount_names s) (s_undo_dirs s) (s_vm_mode s)
    (s_safeguard_config s) (s_pending_safeguards s) (s_last_start_payload s) (s_vm s) n
    (s_next_api_step_id s) (s_fs_watcher s) (s_recent_writes s) (s_safeguard_bridge s).

(** What interceptor [i] sees of the host. *)
Definition world_of (i : nat) (o : Orchestrator) : option world :=
  match o_state o with
  | Active s => (λ '(ud, int), mkWorld (o_tree o) ud int) <$> s_interceptors s !! i
  | Idle => None
  end.

Definition put_world (i : nat) (w : world) (o : Orchestrator) : Orchestrator :=
  let o' := on_session (λ s, set_interceptors (<[i := (w_undo w, w_int w)]> (s_interceptors s)) s) o in
  set_otree (w_tree w) o'.

(** A call on interceptor [i]. *)
Definition on_interceptor {A} (i : nat) (m : WorldM A) : stm Orchestrator CodeAgentError A := λ o,
  match world_of i o with
  | Some w => let '(r, w') := m w in (r, put_world i w' o)
  | None => (Panic, o)
  end.

(** [map_err] on a call, and a call whose result is dropped. *)
Definition with_cause {A E} (f : E → error_text) (m : stm Orchestrator E A) : OrchM A := λ o,
  let '(r, o') := m o in (map_err (InternalError ∘ f) r, o').
Definition dropped {A} (i : nat) (m : WorldM A) : OrchM unit := with_cause FromUndo (ignore (on_interceptor i m)).

(** A system call on the host tree. *)
Definition host_call (f : tree → io tree) : OrchM unit := λ o,
  match f (o_tree o) with
  | Ok t => (Ok (), set_otree t o)
  | Err e => (Err (InternalError (FromIo e)), o)
  | Panic => (Panic, o)
  end.

(** ** Choosing the interceptor and the target *)

(** [str::parse::<usize>]: an optional plus sign and decimal digits. *)
Fixpoint digits_value (acc : Z) (s : string) : option Z :=
  match s with
  | EmptyString => Some acc
  | String c s' =>
      let d := Z.of_nat (nat_of_ascii c) - 48 in
      if bool_decide (0 ≤ d ≤ 9) then digits_value (acc * 10 + d) s' else None
  end.
Definition parse_usize (s : string) : option Z :=
  let digits := match s with String c s' => if Ascii.eqb c "+" then s' else s | EmptyString => s end in
  match digits with
  | EmptyString => None
  | _ => v ← digits_value 0 digits; if v <? 2 ^ 64 then Some v else None
  end.

Definition active_session : stm Orchestrator AgentError Session :=
  st ← gets o_state;
  match st with Idle => throw SessionNotActive | Active s => mret s end.

Definition out_of_range (index : Z) : AgentError :=
  InvalidWorkingDir ("directory index " +:+ pretty index +:+ " out of range").

(** The position of the first element that satisfies [P]. *)
Fixpoint position {A} (P : A → bool) (l : list A) : option nat :=
  match l with
  | [] => None
  | x :: l' => if P x then Some O else S <$> position P l'
  end.

(** [Path::file_name] and [to_str]. *)
Definition file_name (d : path) : option string :=
  name ← last d; if decide (name = "..") then None else Some name.

Definition resolve_interceptor (directory : option string) : stm Orchestrator AgentError nat :=
  s ← active_session;
  let index :=
    match directory with
    | None => 0
    | Some name =>
        match parse_usize name with
        | Some i => i
        | None => Z.of_nat (default 0%nat (position (λ d, bool_decide (file_name d = Some name)) (s_working_dirs s)))
        end
    end in
  if bool_decide (is_Some (s_interceptors s !! Z.to_nat index)) then mret (Z.to_nat index)
  else throw (out_of_range index).

(** The loop over the working directories. *)
Fixpoint containing_dir (ns : tree) (index : nat) (dirs : list path) (requested : path) : option nat :=
  match dirs with
  | [] => None
  | working_dir :: rest =>
      if bool_decide (is_Some (strip_prefix working_dir requested)) then Some index
      else match canonicalize ns working_dir with
           | Ok canonical =>
               if bool_decide (is_Some (strip_prefix canonical requested)) then Some index
               else containing_dir ns (S index) rest requested
           | _ => containing_dir ns (S index) rest requested
           end
  end.

Definition resolve_interceptor_for_path (p : string) : stm Orchestrator AgentError nat :=
  s ← active_session;
  ns ← gets o_tree;
  match (if is_absolute p then containing_dir ns 0 (s_working_dirs s) (components p) else None) with
  | Some i =>
      if bool_decide (is_Some (s_interceptors s !! i)) then mret i
      else throw (out_of_range (Z.of_nat i))
  | None =>
      if bool_decide (s_interceptors s = []) then throw SessionNotActive else mret 0%nat
  end.

Definition primary_working_dir : stm Orchestrator AgentError path :=
  s ← active_session; mret (default [] (head (s_working_dirs s))).

Definition resolve_target_path (p : string) : stm Orchestrator AgentError path :=
  if is_absolute p then mret (components p)
  else working_dir ← primary_working_dir; mret (path_join working_dir p).

(** ** The API step *)

Definition recent_writes : OrchM (option RecentBackendWrites) :=
  gets (λ o, match o_state o with Active s => s_recent_writes s | Idle => None end).

Definition record_target (target : path) : OrchM unit := modify (λ o,
  on_session (λ s, match s_recent_writes s with
                   | Some rw => set_recent_writes (record target (o_now o) rw) s
                   | None => s
                   end) o).

(** The guard of [suppress_watcher]: taken before [m], dropped after it,
    whatever its outcome. *)
Definition with_suppressed_watcher {A E} (m : stm Orchestrator E A) : stm Orchestrator E A := λ o,
  let suppress f o := on_session (λ s, match s_recent_writes s with
                                       | Some rw => set_recent_writes (f rw) s
                                       | None => s
                                       end) o in
  let '(r, o') := m (suppress begin_suppression o) in
  (r, suppress (λ rw, (end_suppression false (o_now o') rw).2) o').

Definition next_api_step_id : OrchM Z :=
  s ← with_cause FromAgent active_session;
  modify (on_session (λ s, set_next_api_step_id (as_i64 (s_next_api_step_id s + 1)) s));;
  mret (s_next_api_step_id s).

(** ** Text replacement

    [str::matches(..).count()], [str::replace] and [str::replacen] on the bytes
    of a UTF-8 text.  An occurrence found is left out ([skip] bytes of it remain)
    and the search goes on behind it.  The empty pattern occurs at every
    character boundary. *)

Fixpoint bytes_start_with (pattern s : list Z) : bool :=
  match pattern, s with
  | [], _ => true
  | a :: pattern', b :: s' => (a =? b) && bytes_start_with pattern' s'
  | _ :: _, [] => false
  end.

Definition occurs_here (pattern s : list Z) : bool :=
  bytes_start_with pattern s && match s with c :: _ => negb (cont_byte c) | [] => true end.

Fixpoint match_count (pattern : list Z) (skip : nat) (s : list Z) : nat :=
  match s with
  | [] => match pattern with [] => 1 | _ => 0 end
  | c :: s' =>
      match skip with
      | S skip' => match_count pattern skip' s'
      | O => if occurs_here pattern s then S (match_count pattern (length pattern - 1) s')
             else match_count pattern 0 s'
      end
  end.

(** At most [limit] replacements; [None] replaces all. *)
Fixpoint replace_from (pattern new : list Z) (limit : option nat) (skip : nat) (s : list Z) : list Z :=
  match s with
  | [] => match pattern, limit with [], Some O => [] | [], _ => new | _, _ => [] end
  | c :: s' =>
      match skip with
      | S skip' => replace_from pattern new limit skip' s'
      | O =>
          if occurs_here pattern s && negb (bool_decide (limit = Some O)) then
            new ++ (match pattern with [] => [c] | _ => [] end)
                ++ replace_from pattern new (pred <$> limit) (length pattern - 1) s'
          else c :: replace_from pattern new limit 0 s'
      end
  end.

Section tools.
Context `{ThirdParty} `{JsonLen} (h : host) (fault : undo_io → option io_error).

Definition with_api_step (i : nat) (f : Z → OrchM unit) : OrchM Z :=
  with_suppressed_watcher (
    step_id ← next_api_step_id;
    with_cause FromUndo (on_interceptor i (open_step h fault step_id));;
    r ← try (f step_id);
    match r with
    | inr _ =>
        with_cause FromUndo (on_interceptor i (close_step fault step_id));; mret step_id
    | inl e => dropped i (rollback_current_step h fault);; throw e
    end).

(** The missing ancestors, innermost first, from a reversed path. *)
Fixpoint dirs_to_track (ns : tree) (rev_ancestor : list string) : list path :=
  if path_exists ns (rev rev_ancestor) then []
  else rev rev_ancestor :: match rev_ancestor with [] => [] | _ :: up => dirs_to_track ns up end.

Definition do_write_file (i : nat) (target : path) (arg_path : string) (content : list Z) : OrchM unit :=
  dropped i (set_step_command ("write_file " +:+ arg_path));;
  ns ← gets o_tree;
  let existed_before := path_exists ns target in
  (if existed_before then dropped i (pre_write h fault target)
   else match parent target with
        | Some dir =>
            let dirs := dirs_to_track ns (rev dir) in
            host_call (λ ns, create_dir_all h ns dir);;
            for_each (λ d, dropped i (post_mkdir fault d)) (rev dirs)
        | None => mret ()
        end);;
  record_target target;;
  host_call (λ ns, fs_write h ns target content);;
  if existed_before then mret () else dropped i (post_create fault target).

Definition do_edit_file (i : nat) (target : path) (arg_path : string) (new_content : list Z) : OrchM unit :=
  dropped i (set_step_command ("edit_file " +:+ arg_path));;
  dropped i (pre_write h fault target);;
  record_target target;;
  host_call (λ ns, fs_write h ns target new_content).

(** ** Tool calls *)

(** [fs::read_to_string]: text that is not UTF-8 is an error of kind
    [InvalidData], which is among the other kinds. *)
Definition read_to_string (ns : tree) (p : path) : io (list Z) :=
  c ← fs_read ns p; if utf8_valid c then Ok c else err KOther.

Definition read_file (p : string) : OrchM (list Z) :=
  target ← with_cause FromAgent (resolve_target_path p);
  ns ← gets o_tree;
  lift (map_err (InternalError ∘ FromIo) (read_to_string ns target)).

Definition write_file (p : string) (content : list Z) : OrchM Z :=
  i ← with_cause FromAgent (resolve_interceptor_for_path p);
  target ← with_cause FromAgent (resolve_target_path p);
  with_api_step i (λ _, do_write_file i target p content).

Definition edited_content (content old_string new_string : list Z) (replace_all : bool) : list Z :=
  replace_from old_string new_string (if replace_all then None else Some 1%nat) 0 content.

Definition not_unique (match_count : nat) : string :=
  "old_string is not unique in the file (found " +:+ pretty match_count
    +:+ " occurrences). Provide more context or use replace_all.".

Definition edit_file (p : string) (old_string new_string : list Z) (replace_all : bool) : OrchM unit :=
  i ← with_cause FromAgent (resolve_interceptor_for_path p);
  target ← with_cause FromAgent (resolve_target_path p);
  ns ← gets o_tree;
  content ← lift (map_err (InternalError ∘ FromIo) (read_to_string ns target));
  let count := match_count old_string 0 content in
  if (count =? 0)%nat then throw (InvalidParams "old_string not found in file")
  else if (1 <? count)%nat && negb replace_all then throw (InvalidParams (not_unique count))
  else
    with_api_step i (λ _,
      do_edit_file i target p (edited_content content old_string new_string replace_all));;
    mret ().

(** ** Undo requests *)

Definition undo_on (i : nat) (count : nat) (force : bool) : OrchM RollbackResult :=
  with_suppressed_watcher (with_cause FromUndo (on_interceptor i (rollback h fault count force))).

(** [undo] of the MCP server: always the first interceptor. *)
Definition mcp_undo (count : nat) (force : bool) : OrchM RollbackResult :=
  i ← with_cause FromAgent (resolve_interceptor None); undo_on i count force.

Definition discard_undo_history : OrchM unit :=
  s ← with_cause FromAgent active_session;
  for_each (λ i, with_cause FromUndo (on_interceptor i (discard fault))) (seq 0 (length (s_interceptors s))).

(** ** Commands without a virtual machine

    [shell] runs a command in a directory of the host: its effect on the tree
    and its result, which is an error when it cannot be started. *)
Definition execute_host_bash {R} (shell : string → path → tree → outcome io_error R * tree)
    (command : string) : OrchM R :=
  working_dir ← with_cause FromAgent primary_working_dir;
  with_suppressed_watcher (λ o,
    let '(r, t) := shell command working_dir (o_tree o) in
    (map_err (InternalError ∘ FromIo) r, set_otree t o)).

(** ** Session start *)

(** [check_paths_overlap]: paths that do not exist cannot overlap. *)
Definition check_paths_overlap (ns : tree) (working_dir undo_dir : path) : outcome AgentError unit :=
  match canonicalize ns working_dir, canonicalize ns undo_dir with
  | Ok canonical_working, Ok canonical_undo =>
      if bool_decide (is_Some (strip_prefix canonical_working canonical_undo))
         || bool_decide (is_Some (strip_prefix canonical_undo canonical_working))
      then Err (UndoDirectoryOverlap (path_string working_dir) (path_string undo_dir))
      else Ok ()
  | _, _ => Ok ()
  end.

(** The body of the loop over the working directories, after the interceptor
    has been built: recovery, version check, barrier after the steps of earlier
    sessions. *)
Definition start_interceptor : WorldM (list Event) :=
  recovery ← try (recover h fault);
  mismatch ← version_mismatch;
  disabled ← is_undo_disabled;
  completed ← completed_steps;
  barrier ← (if negb disabled && negb (bool_decide (completed = []))
             then try (notify_external_modification h fault [] SessionStart)
             else mret (inr None));
  mret (match recovery with
        | inr (Some info) => [RecoveryEvent (ri_paths_restored info) (ri_paths_deleted info)]
        | _ => []
        end
        ++ match mismatch with Some (e, f) => [UndoVersionMismatchEvent e f] | None => [] end
        ++ match barrier with inr (Some b) => [ExternalModificationEvent [] (Some (bi_barrier_id b))] | _ => [] end).

(** The first command identifier, above every step of every interceptor. *)
Definition initial_command_id (interceptors : list UndoInterceptor) : Z :=
  foldr Z.max 0 (filter (λ id, 0 < id)
    (interceptors ≫= λ int, completed_steps_ (inner int))) + 1.
End tools.
