(* ===== verification/OrchestratorFacts.v ===== *)
(** * The file tools under the undo log

    A call of [write_file] or [edit_file] is one step of the undo history:
    rolling it back restores the tree, also when the call made directories on
    its way, and a call that fails leaves the tree as it was. *)

From Stdlib Require Import Ascii.
From stdpp Require Import base gmap strings list fin_maps.
From S2P Require Import Prelude HostFs HostFacts Common StdioProtocol McpProtocol WriteInterceptor Safeguard UndoLog UndoInterceptor UndoHooks UndoEvict UndoFacts UndoCapture UndoSteps UndoCorrect UndoTheorems RecentWrites P9Ops P9Total Orchestrator.
#[local] Open Scope Z_scope.

(** ** Programs of the orchestrator as programs on one world *)

Section wp.
Context (i : nat).

(** [m] runs on a host where interceptor [i] sees [w], and leaves it in a world
    that satisfies [Q] together with the result. *)
Definition wp {A} (m : OrchM A) (w : world) (Q : outcome McpError A → world → Prop) : Prop :=
  ∀ o, world_of i o = Some w → ∃ w', world_of i (m o).2 = Some w' ∧ Q (m o).1 w'.

Lemma wp_mono {A} (m : OrchM A) (w : world) (Q Q' : outcome McpError A → world → Prop) :
  (∀ r w', Q r w' → Q' r w') → wp m w Q → wp m w Q'.
Proof. intros HQ Hm o Ho. destruct (Hm o Ho) as (w' & Hw' & HQw). exists w'. auto. Qed.

Lemma wp_ret {A} (a : A) (w : world) Q : Q (Ok a) w → wp (mret a) w Q.
Proof. intros HQ o Ho. by exists w. Qed.
Lemma wp_throw {A} (e : McpError) (w : world) (Q : outcome McpError A → world → Prop) : Q (Err e) w → wp (throw e) w Q.
Proof. intros HQ o Ho. by exists w. Qed.

Lemma wp_bind {A B} (m : OrchM A) (k : A → OrchM B) (w : world) Q :
  wp m w (λ r w', match r with
                  | Ok a => wp (k a) w' Q
                  | Err e => Q (Err e) w'
                  | Panic => Q Panic w'
                  end) →
  wp (m ≫= k) w Q.
Proof.
  intros Hm o Ho. destruct (Hm o Ho) as (w' & Hw' & HQ). unfold mbind, stm_bind.
  destruct (m o) as [[a|e|] o']; cbn [fst snd] in *; [by apply HQ | by exists w' | by exists w'].
Qed.

Lemma wp_try {A} (m : OrchM A) (w : world) (Q : outcome McpError (McpError + A) → world → Prop) :
  wp m w (λ r w', Q (match r with Ok a => Ok (inr a) | Err e => Ok (inl e) | Panic => Panic end) w') →
  wp (try m) w Q.
Proof.
  intros Hm o Ho. destruct (Hm o Ho) as (w' & Hw' & HQ). exists w'. unfold try.
  by destruct (m o) as [[] ?].
Qed.

Lemma world_of_tree (o : Orchestrator) (w : world) : world_of i o = Some w → o_tree o = w_tree w.
Proof.
  unfold world_of. destruct (o_state o) as [|s]; [done|].
  destruct (s_interceptors s !! i) as [[]|]; [|done]. by intros [= <-].
Qed.

Lemma wp_tree (w : world) (Q : outcome McpError tree → world → Prop) : Q (Ok (w_tree w)) w → wp (gets o_tree) w Q.
Proof. intros HQ o Ho. exists w. unfold gets. cbn. by rewrite (world_of_tree o w Ho). Qed.

Lemma world_of_put (o : Orchestrator) (w w' : world) : world_of i o = Some w → world_of i (put_world i w' o) = Some w'.
Proof.
  unfold world_of, put_world, on_session. destruct (o_state o) as [|s]; [done|]. cbn.
  intros Hw. rewrite list_lookup_insert_eq; [by destruct w'|]. apply lookup_lt_is_Some.
  by destruct (s_interceptors s !! i).
Qed.

Lemma wp_interceptor {A} (m : WorldM A) (w : world) (Q : outcome McpError A → world → Prop) :
  Q (map_err (InternalError ∘ FromUndo) (m w).1) (m w).2 →
  wp (with_cause FromUndo (on_interceptor i m)) w Q.
Proof.
  intros HQ o Ho. exists (m w).2. unfold with_cause, on_interceptor. rewrite Ho.
  pose proof (world_of_put o w (m w).2 Ho) as Hp. by destruct (m w) as [r w'].
Qed.

Lemma wp_dropped {A} (m : WorldM A) (w : world) (Q : outcome McpError unit → world → Prop) :
  Q (match (m w).1 with Panic => Panic | _ => Ok () end) (m w).2 → wp (dropped i m) w Q.
Proof.
  intros HQ o Ho. exists (m w).2. unfold dropped, with_cause, ignore, on_interceptor. rewrite Ho.
  pose proof (world_of_put o w (m w).2 Ho) as Hp. by destruct (m w) as [[] w'].
Qed.

Lemma world_of_on_session (o : Orchestrator) (w : world) f :
  world_of i o = Some w → (∀ s, s_interceptors (f s) = s_interceptors s) →
  world_of i (on_session f o) = Some w.
Proof.
  unfold world_of, on_session. intros Ho Hf. destruct (o_state o) as [|s]; [done|]. cbn. by rewrite Hf.
Qed.

Lemma wp_host_call f (w : world) (Q : outcome McpError unit → world → Prop) :
  match f (w_tree w) with
  | Ok t => Q (Ok ()) (set_tree t w)
  | Err e => Q (Err (InternalError (FromIo e))) w
  | Panic => Q Panic w
  end → wp (host_call f) w Q.
Proof.
  intros HQ o Ho. unfold host_call. rewrite (world_of_tree o w Ho).
  destruct (f (w_tree w)) as [t|e|]; [|by exists w | by exists w].
  exists (set_tree t w). split; [|done]. revert Ho. unfold world_of. cbn.
  destruct (o_state o) as [|s]; [done|]. destruct (s_interceptors s !! i) as [[]|]; [|done]. by intros [= <-].
Qed.

Lemma wp_record_target p (w : world) (Q : outcome McpError unit → world → Prop) :
  Q (Ok ()) w → wp (record_target p) w Q.
Proof.
  intros HQ o Ho. exists w. split; [|done]. cbn. apply world_of_on_session; [done|].
  intros s. by destruct (s_recent_writes s).
Qed.

Lemma wp_suppressed {A} (m : OrchM A) (w : world) Q : wp m w Q → wp (with_suppressed_watcher m) w Q.
Proof.
  intros Hm o Ho. unfold with_suppressed_watcher.
  match goal with |- context [m ?o1] => destruct (Hm o1) as (w' & Hw' & HQ) end.
  - apply world_of_on_session; [done|]. intros s. by destruct (s_recent_writes s).
  - exists w'. destruct (m _) as [r o']. split; [|done]. apply world_of_on_session; [done|].
    intros s. by destruct (s_recent_writes s).
Qed.

Lemma wp_next_id (w : world) (Q : outcome McpError Z → world → Prop) : (∀ n, Q (Ok n) w) → wp next_api_step_id w Q.
Proof.
  intros HQ o Ho. exists w. unfold next_api_step_id, active_session, with_cause, mbind, stm_bind, gets.
  assert (∃ s, o_state o = Active s) as [s Es]
    by (unfold world_of in Ho; destruct (o_state o); [done | eauto]).
  cbn. rewrite Es. cbn. split; [|done]. by apply world_of_on_session.
Qed.

Lemma wp_then_ret {A B} (m1 : OrchM A) (m2 : OrchM B) (m3 : OrchM unit) (w : world) Q :
  wp (m1;; m2;; m3) w Q → wp (m1;; m2;; m3;; mret ()) w Q.
Proof.
  intros Hm o Ho. destruct (Hm o Ho) as (w' & Hw' & HQ). exists w'. revert Hw' HQ.
  unfold mbind, stm_bind. destruct (m1 o) as [[] o1]; [|done..]. destruct (m2 o1) as [[] o2]; [|done..].
  by destruct (m3 o2) as [[[]| |] o3].
Qed.

(** A list of calls whose results are dropped. *)
Lemma wp_each_dropped {A B} (m : A → WorldM B) l (w : world) (Q : outcome McpError unit → world → Prop) :
  (∀ a w, (m a w).1 ≠ Panic) → Q (Ok ()) (foldl (λ w a, (m a w).2) w l) →
  wp (for_each (λ a, dropped i (m a)) l) w Q.
Proof.
  intros Hp. revert w. induction l as [|a l IH]; intros w HQ; cbn [for_each]; [by apply wp_ret|].
  apply wp_bind, wp_dropped. specialize (Hp a w). destruct (m a w) as [[] w'] eqn:E; cbn [fst snd] in *;
    [|  | done]; apply IH; cbn [foldl] in HQ; by rewrite E in HQ.
Qed.
End wp.

(** ** What the calls of a step leave alone *)

Definition conf (w : world) : list StepId * StepId * ResourceLimitsConfig * option (SafeguardEvent → SafeguardDecision) :=
  (completed_steps_ (inner (w_int w)), next_step_id (w_int w), resource_limits (w_int w),
   safeguard_handler (w_int w)).
Definition keeps_conf (w w' : world) : Prop := conf w' = conf w.
#[local] Instance keeps_conf_preorder : PreOrder keeps_conf.
Proof. split; [by intros ?|]. intros ? ? ? H1 H2. unfold keeps_conf in *. congruence. Qed.

Section conf.
Context `{TP : ThirdParty} (h : host).

Lemma conf_inner f :
  (∀ x, completed_steps_ (f x) = completed_steps_ x) →
  guarantees keeps_conf (modify (E := CodeAgentError) (on_inner f)).
Proof. intros Hf w. unfold keeps_conf, conf. cbn. by rewrite Hf. Qed.
Lemma conf_preimages {A} (m : stm (option preimage_dir) CodeAgentError A) :
  guarantees keeps_conf (zoom wal_preimages set_wal_preimages m).
Proof. by apply guarantees_zoom. Qed.
Lemma conf_tree {A} (m : stm tree CodeAgentError A) : guarantees keeps_conf (zoom w_tree set_tree m).
Proof. by apply guarantees_zoom. Qed.
Lemma conf_undo_op op f : guarantees keeps_conf (undo_op no_fault op f).
Proof. done. Qed.
Lemma conf_log_entry rel hash b ty :
  guarantees keeps_conf (modify (E := CodeAgentError) (on_inner (log_entry rel hash b ty))).
Proof. by apply conf_inner. Qed.
Lemma conf_data_size limits n :
  guarantees keeps_conf (modify (E := CodeAgentError) (on_inner (add_data_size limits n))).
Proof. by apply conf_inner. Qed.
Lemma conf_tracker t : guarantees keeps_conf (modify (E := CodeAgentError) (on_inner (set_tracker t))).
Proof. by apply conf_inner. Qed.
Lemma conf_mark k :
  guarantees keeps_conf (modify (E := CodeAgentError)
    (on_inner (λ x, set_tracker (mark_allowed k (safeguard_tracker x)) x))).
Proof. by apply conf_inner. Qed.
Lemma conf_clear :
  guarantees keeps_conf (modify (E := CodeAgentError)
    (on_inner (λ x, clear_step (completed_steps_ x) (tracker_reset (safeguard_tracker x))))).
Proof. by apply conf_inner. Qed.
#[local] Hint Resolve conf_preimages conf_tree conf_undo_op conf_log_entry conf_data_size conf_tracker
  conf_mark conf_clear : guarantees.

Lemma conf_ensure p : guarantees keeps_conf (ensure_preimage h no_fault p).
Proof. unfold ensure_preimage. guarantee. Qed.
Lemma conf_rollback_current : guarantees keeps_conf (rollback_current_step h no_fault).
Proof. unfold rollback_current_step, run_rollback_step, write_wal_manifest, remove_wal, wal. guarantee. Qed.
#[local] Hint Resolve conf_ensure conf_rollback_current : guarantees.

Lemma conf_pre_write p : guarantees keeps_conf (pre_write h no_fault p).
Proof. unfold pre_write, current_step, with_tracker, handle_safeguard_event. guarantee. Qed.
Lemma conf_post_create p : guarantees keeps_conf (post_create no_fault p).
Proof. unfold post_create, is_active, record_creation. guarantee. Qed.
Lemma conf_open_step id : guarantees keeps_conf (open_step h no_fault id).
Proof. unfold open_step, check_undo_enabled, remove_wal, wal. guarantee. Qed.
End conf.

Section api.
Context `{TP : ThirdParty} `{!ThirdPartyLaws TP} (W : path) (good : path → Prop) (S0 : tree).

Abbreviation step_inv := (step_inv W good S0).

(** ** Hooks and the protection of the step *)

Lemma step_inv_command c w : step_inv w → step_inv (set_step_command c w).2.
Proof.
  intros [H1 H2 H3 H4]. unfold set_step_command, modify. cbn [snd].
  destruct H4 as [Hu|(mf & pd & [Hw Hm Hup Ht Hi Hme L])].
  - split; [done | done | cbn; by destruct (current_manifest (inner (w_int w))) |].
    left. unfold unprotected in *. cbn. by destruct (current_manifest (inner (w_int w))).
  - split; [done | done | cbn; by rewrite Hm |]. right.
    exists (mkManifest (sm_step_id mf) (sm_timestamp mf) (Some c) (sm_entries mf) (sm_unprotected mf)), pd.
    split; unfold touched in *; cbn; rewrite ?Hm; try done; exact Ht.
Qed.

Lemma command_protection c w : unprotected (set_step_command c w).2 = unprotected w.
Proof. unfold unprotected. cbn. by destruct (current_manifest (inner (w_int w))). Qed.

Lemma check_keeps_protection h f w w' :
  (event ← with_tracker f; handle_safeguard_event h no_fault event) w = (Ok (), w') →
  unprotected w' = unprotected w.
Proof.
  unfold with_tracker, handle_safeguard_event, mbind, stm_bind, gets, modify, throw. cbn.
  destruct (f (safeguard_tracker (inner (w_int w)))) as [[e|] t]; cbn; [|by intros [= <-]].
  destruct (safeguard_handler (w_int w)) as [handler|]; [|by intros [= <-]].
  destruct (handler e); [by intros [= <-]|].
  by destruct (rollback_current_step h no_fault _) as [[] ?].
Qed.

(** [pre_write] without a size limit for the step: it lets the write proceed
    with the path in the log, or the step has been cancelled and undone. *)
Lemma pre_write_cases h r w :
  step_inv w → good r → unprotected w = false →
  max_single_step_size_bytes (resource_limits (w_int w)) = None →
  (∃ w', pre_write h no_fault (W ++ r) w = (Ok (), w') ∧ hook_post W good S0 w w' r ∧ unprotected w' = false) ∨
  (∃ res w', pre_write h no_fault (W ++ r) w = (res, w') ∧ is_Some (safeguard_handler (w_int w)) ∧
     active_step (inner (w_int w')) = None).
Proof.
  intros Hsv Hr Hu Hmax. destruct (pre_write h no_fault (W ++ r) w) as [res w'] eqn:E.
  unfold pre_write in E. destruct (sv_active _ _ _ _ Hsv) as [id Hact].
  erewrite stm_bind_ok in E by done. rewrite Hact in E. erewrite stm_bind_ok in E by done.
  destruct (ensure_preimage_captured W good h S0 w r Hsv Hr) as (b & w1 & He & Hcap & Hcov).
  pose proof (ca_unprot _ _ _ _ _ Hcap Hmax) as Hu1. rewrite Hu in Hu1.
  pose proof (conf_ensure h (W ++ r) w) as Hconf. rewrite He in Hconf.
  rewrite (stm_bind_ok _ _ _ _ _ He) in E.
  destruct (metadata (w_tree w) (W ++ r)) as [n| |].
  - destruct (safeguard_ok W good h S0 w1
      (check_overwrite (relative_path_str (w_int w) (W ++ r)) (st_size h (W ++ r) n) id)
      (ca_inv _ _ _ _ _ Hcap)) as [(w2 & Hw2 & _)|(res2 & w2 & Hw2 & Hres & Hden)];
      rewrite Hw2 in E; injection E as <- <-.
    + left. exists w2. split_and!; [done | by eapply capture_then_check |].
      by rewrite (check_keeps_protection _ _ _ _ Hw2).
    + right. exists res2, w2. split_and!; [done | | by apply Hden].
      injection Hconf as _ _ _ Hh. rewrite <- Hh. clear -Hw2 Hres.
      revert Hw2. unfold with_tracker, handle_safeguard_event, mbind, stm_bind, gets, modify. cbn.
      destruct (check_overwrite _ _ _ _) as [[e|] t]; cbn; [|by intros [= <- _]].
      destruct (safeguard_handler (w_int w1)); [by eexists | by intros [= <- _]].
  - left. exists w'. injection E as <- <-. split_and!; [done | | done].
    split; [apply (ca_inv _ _ _ _ _ Hcap) | apply (lt_tree _ _ (ca_later _ _ _ _ _ Hcap)) | done].
  - left. exists w'. injection E as <- <-. split_and!; [done | | done].
    split; [apply (ca_inv _ _ _ _ _ Hcap) | apply (lt_tree _ _ (ca_later _ _ _ _ _ Hcap)) | done].
Qed.

Lemma record_creation_protection p w : unprotected (record_creation no_fault p w).2 = unprotected w.
Proof.
  assert (guarantees (λ w w', unprotected w' = unprotected w) (record_creation no_fault p)) as Hg; [|apply Hg].
  assert (PreOrder (λ w w' : world, unprotected w' = unprotected w)) by (split; [by intros ?|]; intros ???; congruence).
  assert (∀ A (m : stm (option preimage_dir) CodeAgentError A),
    guarantees (λ w w', unprotected w' = unprotected w) (zoom wal_preimages set_wal_preimages m))
    by (intros A m; by apply guarantees_zoom).
  unfold record_creation. guarantee.
Qed.

(** ** Making the directories above a file *)

Section dirs.
Context (h : host).

(** What [create_dir_all] did to the tree. *)
Record made_dirs (t : tree) (r : path) (t1 : tree) : Prop := {
  md_plain : plain W t1;
  md_dir : dir_at t1 (W ++ r);
  md_other : ∀ q, ¬ q `prefix_of` r → t1 !! (W ++ q) = t !! (W ++ q);
}.

Lemma add_dir_made (t : tree) (r : path) c :
  plain W t → clean (r ++ [c]) → dir_at t (W ++ r) → t !! (W ++ r ++ [c]) = None →
  create_dir h t (W ++ r ++ [c]) = Ok (add_node h (W ++ r ++ [c]) (Dir (new_meta h (h_dir_perm h))) t) ∧
  made_dirs t (r ++ [c]) (add_node h (W ++ r ++ [c]) (Dir (new_meta h (h_dir_perm h))) t).
Proof.
  intros Hp Hc Hd Hn. assert (reach W t (r ++ [c])) as Hre.
  { split; [done|]. intros r' c' [-> ->]%app_inj_tail. done. }
  split; [by apply (create_dir_new W)|].
  pose proof (add_node_sim W h t (r ++ [c]) (Dir (new_meta h (h_dir_perm h))) Hp Hre Hn) as Hsim.
  split.
  - rewrite Hsim. by apply plain_insert_new.
  - eapply tree_sim_dir; [symmetry; exact Hsim|]. eexists. apply lookup_insert_eq.
  - intros q Hq. unfold add_node, touch_parent. rewrite parent_app_snoc.
    rewrite lookup_alter_ne by (intros E; apply (app_inv_head W) in E as <-; apply Hq; by exists [c]).
    rewrite lookup_insert_ne; [done|]. intros E. apply (app_inv_head W) in E as <-. by apply Hq.
Qed.

Lemma create_dir_all_present (t : tree) (r : path) n :
  plain W t → t !! (W ++ r) = Some n →
  create_dir_all h t (W ++ r) = if is_dir_node n then Ok t else err AlreadyExists.
Proof.
  intros Hp Hn. assert (clean r) as Hc by (apply (pl_clean _ _ Hp); eauto).
  unfold create_dir_all. destruct (rev (W ++ r)) as [|x rp] eqn:E.
  - apply (f_equal (@rev string)) in E. rewrite rev_involutive in E. cbn in *.
    destruct (pl_root _ _ Hp []) as [m Hm]; [by apply prefix_nil|]. rewrite E in Hn. by simplify_eq.
  - cbn [create_dir_all_rev]. rewrite <- E, rev_involutive. unfold create_dir.
    rewrite resolve_reach by (done || apply reach_present; eauto). cbn. rewrite Hn. cbn.
    rewrite path_is_dir_plain by done. by rewrite Hn.
Qed.

Lemma create_dir_all_absent (t : tree) (r : path) c :
  clean (r ++ [c]) →
  create_dir_all h t (W ++ r ++ [c]) =
    match create_dir h t (W ++ r ++ [c]) with
    | Ok ns' => Ok ns'
    | Err (mkIoError NotFound _) =>
        ns1 ← create_dir_all h t (W ++ r);
        match create_dir h ns1 (W ++ r ++ [c]) with
        | Ok ns' => Ok ns'
        | Err e => if path_is_dir ns1 (W ++ r ++ [c]) then Ok ns1 else Err e
        | Panic => Panic
        end
    | Err e => if path_is_dir t (W ++ r ++ [c]) then Ok t else Err e
    | Panic => Panic
    end.
Proof.
  intros _. unfold create_dir_all. rewrite app_assoc, rev_unit. cbn [create_dir_all_rev rev].
  by rewrite rev_involutive.
Qed.

(** Either everything is there, or the parent is made first. *)
Lemma create_dir_all_cases (t : tree) (r : path) (t' : tree) :
  plain W t → clean r → create_dir_all h t (W ++ r) = Ok t' →
  made_dirs t r t' ∧
  ((t' = t ∧ is_Some (t !! (W ++ r))) ∨
   ∃ r' c t1, r = r' ++ [c] ∧ t !! (W ++ r) = None ∧ create_dir_all h t (W ++ r') = Ok t1 ∧
     made_dirs t r' t1 ∧ t1 !! (W ++ r) = None ∧
     t' = add_node h (W ++ r) (Dir (new_meta h (h_dir_perm h))) t1).
Proof.
  intros Hp. revert t'. induction r as [|c r IH] using rev_ind; intros t' Hc Hcr.
  all: match goal with Hcr : create_dir_all _ _ (W ++ ?r) = _ |- _ =>
    destruct (t !! (W ++ r)) as [n|] eqn:En end.
  - rewrite (create_dir_all_present t [] n Hp En) in Hcr. destruct n; cbn in Hcr; simplify_eq.
    split; [by split; [|eexists|] | left; eauto].
  - destruct (pl_root _ _ Hp W) as [m Hm]; [done|]. rewrite app_nil_r in En. congruence.
  - rewrite (create_dir_all_present t (r ++ [c]) n Hp En) in Hcr. destruct n; cbn in Hcr; simplify_eq.
    split; [by split; [|eexists|] | left; eauto].
  - pose proof (proj1 (clean_snoc r c) Hc) as [Hcr' _].
    rewrite create_dir_all_absent in Hcr by done.
    assert (path_is_dir t (W ++ r ++ [c]) = false) as Hnd by (rewrite path_is_dir_plain by done; by rewrite En).
    destruct (create_dir h t (W ++ r ++ [c])) as [ns'|e|] eqn:Ecd; [| |done].
    + injection Hcr as ->.
      destruct (create_inv W h t (r ++ [c]) (Dir (new_meta h (h_dir_perm h))) (create_dir h) t')
        as (_ & Hre & ->); [done | done | done | done |].
      assert (dir_at t (W ++ r)) as Hd by by apply (proj2 Hre r c).
      destruct (add_dir_made t r c Hp Hc Hd En) as [_ Hmd]. split; [done|]. right.
      exists r, c, t. destruct Hd as [m Hm]. split_and!; try done.
      * by rewrite (create_dir_all_present t r (Dir m) Hp Hm).
      * split; [done | by eexists | done].
    + destruct e as [[] ?]; rewrite ?Hnd in Hcr; try done.
      apply bind_ok_inv in Hcr as (t1 & Ht1 & Hcr). destruct (IH t1 Hcr' Ht1) as [Hmd1 _].
      assert (t1 !! (W ++ r ++ [c]) = None) as Hn1.
      { rewrite (md_other _ _ _ Hmd1); [done|]. intros [k Hk]. apply (f_equal length) in Hk.
        rewrite !length_app in Hk. cbn in Hk. lia. }
      destruct (add_dir_made t1 r c (md_plain _ _ _ Hmd1) Hc (md_dir _ _ _ Hmd1) Hn1) as [Hok Hmd].
      rewrite Hok in Hcr. injection Hcr as <-. split.
      * destruct Hmd as [H1 H2 H3]. split; [done | done |]. intros q Hq. rewrite H3 by done.
        apply (md_other _ _ _ Hmd1). intros Hqr. apply Hq. etrans; [exact Hqr|]. by exists [c].
      * right. by exists r, c, t1.
Qed.

(** A path through directories of which one is missing is not found. *)
Lemma walk_missing (b : nat) (t : tree) (follow : bool) (cur rest : path) :
  (∀ r1 c r2, rest = r1 ++ c :: r2 → c ≠ ".." ∧ (r2 ≠ [] → t !! (cur ++ r1 ++ [c]) = None ∨ dir_at t (cur ++ r1 ++ [c]))) →
  (∃ r1 c r2, rest = r1 ++ c :: r2 ∧ r2 ≠ [] ∧ t !! (cur ++ r1 ++ [c]) = None) →
  walk b t follow cur rest = err NotFound.
Proof.
  revert cur. induction rest as [|x rest IH]; intros cur Hp (r1 & c & r2 & E & Hr2 & Hn); [by destruct r1|].
  rewrite walk_cons. destruct (Hp [] x rest eq_refl) as [Hx Hd]. rewrite decide_False by done.
  assert (rest ≠ []) as Hne by (destruct r1; injection E as ??; subst; [done | by destruct r1]).
  destruct (Hd Hne) as [Hm|[m Hm]]; cbn in Hm; rewrite Hm; [by rewrite decide_False by done|].
  apply IH.
  - intros r1' c' r2' ->. destruct (Hp (x :: r1') c' r2' eq_refl) as [H1 H2]. split; [done|].
    rewrite <- app_assoc. exact H2.
  - destruct r1 as [|x' r1]; injection E as -> ->.
    + cbn in Hn. congruence.
    + exists r1, c, r2. rewrite <- app_assoc. done.
Qed.

Lemma create_dir_missing (t : tree) (r : path) (c : string) :
  plain W t → clean (r ++ [c]) → t !! (W ++ r) = None →
  (∀ q n, q `prefix_of` r → t !! (W ++ q) = Some n → is_dir_node n = true) →
  create_dir h t (W ++ r ++ [c]) = err NotFound.
Proof.
  intros Hp Hc Hn Hd. unfold create_dir, resolve. rewrite (walk_missing 40 t false [] (W ++ r ++ [c])); [done| |].
  - intros r1 c1 r2 E. destruct (plain_component W t (r ++ [c]) r1 c1 r2 Hp Hc E) as [Hc1 _]. split; [done|].
    intros Hr2. cbn. destruct (t !! (r1 ++ [c1])) as [n|] eqn:En; [|by left]. right.
    destruct (app_cons_split _ _ _ _ _ E) as [[w Hw]|(q & -> & Eq)].
    + apply (pl_root _ _ Hp). exists w. by rewrite <- app_assoc.
    + assert (is_dir_node n = true) as Hdn.
      { apply (Hd (q ++ [c1])); [|by rewrite app_assoc].
        destruct r2 as [|c2 r2 _] using rev_ind; [done|]. rewrite app_comm_cons, app_assoc in Eq.
        apply app_inj_tail in Eq as [-> _]. exists r2. by rewrite <- app_assoc. }
      rewrite <- app_assoc in *. destruct n; [done | by eexists | done].
  - destruct (path_cases r) as [->|(r' & c' & ->)].
    { rewrite app_nil_r in Hn. destruct (pl_root _ _ Hp W) as [m Hm]; [done|]. congruence. }
    exists (W ++ r'), c', [c]. cbn. rewrite <- !app_assoc. split_and!; [done | done | by rewrite app_assoc in Hn |- * ].
Qed.

Lemma create_dir_all_ok (t : tree) (r : path) :
  plain W t → clean r → (∀ q n, q `prefix_of` r → t !! (W ++ q) = Some n → is_dir_node n = true) →
  ∃ t', create_dir_all h t (W ++ r) = Ok t'.
Proof.
  intros Hp. induction r as [|c r IH] using rev_ind; intros Hc Hd.
  all: match goal with |- ∃ _, create_dir_all _ _ (W ++ ?r) = _ => destruct (t !! (W ++ r)) as [n|] eqn:En end.
  1,3: erewrite create_dir_all_present by done; erewrite Hd by done; by eexists.
  - destruct (pl_root _ _ Hp W) as [m Hm]; [done|]. rewrite app_nil_r in En. congruence.
  - rewrite create_dir_all_absent by done. pose proof (proj1 (clean_snoc r c) Hc) as [Hcr _].
    assert (∀ q n, q `prefix_of` r → t !! (W ++ q) = Some n → is_dir_node n = true) as Hd'
      by (intros q n Hq; apply Hd; etrans; [exact Hq | by exists [c]]).
    destruct (t !! (W ++ r)) as [n|] eqn:Er.
    + destruct (add_dir_made t r c Hp Hc) as [-> _]; [|done | by eexists].
      specialize (Hd' r n ltac:(done) Er). destruct n; [done | by eexists | done].
    + rewrite (create_dir_missing t r c) by done. destruct (IH Hcr Hd') as [t1 Ht1]. rewrite Ht1.
      cbn [err mbind outcome_bind].
      destruct (create_dir_all_cases t r t1 Hp Hcr Ht1) as [[Hp1 Hd1 Ho1] _].
      destruct (add_dir_made t1 r c Hp1 Hc Hd1) as [-> _]; [|by eexists].
      rewrite Ho1; [done|]. intros [k Hk]. apply (f_equal length) in Hk. rewrite !length_app in Hk. cbn in Hk. lia.
Qed.

Lemma dirs_to_track_unfold (t : tree) (rp : list string) :
  dirs_to_track t rp =
    if path_exists t (rev rp) then []
    else rev rp :: match rp with [] => [] | _ :: up => dirs_to_track t up end.
Proof. by destruct rp. Qed.

Lemma dirs_to_track_present (t : tree) (r : path) :
  plain W t → is_Some (t !! (W ++ r)) → dirs_to_track t (rev (W ++ r)) = [].
Proof.
  intros Hp Hs. rewrite dirs_to_track_unfold, rev_involutive, path_exists_plain, bool_decide_eq_true_2;
    [done | done | done | by apply (pl_clean _ _ Hp)].
Qed.

Lemma dirs_to_track_absent (t : tree) (r : path) c :
  plain W t → clean (r ++ [c]) → t !! (W ++ r ++ [c]) = None →
  dirs_to_track t (rev (W ++ r ++ [c])) = (W ++ r ++ [c]) :: dirs_to_track t (rev (W ++ r)).
Proof.
  intros Hp Hc Hn. rewrite dirs_to_track_unfold, rev_involutive, path_exists_plain by done.
  rewrite bool_decide_eq_false_2 by (rewrite Hn; by intros []). f_equal. by rewrite app_assoc, rev_unit.
Qed.

(** *** The creation hook does not look at the rest of the tree *)

Lemma post_mkdir_tree (d : path) (t1 t2 : tree) (w : world) :
  path_is_dir t1 d = path_is_dir t2 d → symlink_at t1 d = symlink_at t2 d →
  (post_mkdir no_fault d (set_tree t2 w)).2 = set_tree t2 (post_mkdir no_fault d (set_tree t1 w)).2.
Proof.
  intros Hd Hl.
  assert (∀ root, capture_creation_marker no_fault t1 d root = capture_creation_marker no_fault t2 d root) as Hm
    by (intros root; unfold capture_creation_marker; unfold symlink_at in Hl; by rewrite Hd, Hl).
  unfold post_mkdir, record_creation, is_active, mbind, stm_bind, gets, get, lift, zoom.
  change (w_int (set_tree t2 w)) with (w_int w). change (w_int (set_tree t1 w)) with (w_int w).
  destruct (bool_decide (is_Some _)); [|done]. cbn [w_int w_tree set_tree]. rewrite Hd, Hl, Hm.
  destruct (_ && symlink_at t2 d); [done|].
  destruct (strip_prefix _ d) as [rel|]; [|done]. cbn [ok_or].
  destruct (is_ignored _ _ _); [done|]. destruct (step_unprotected _); [done|].
  destruct (bool_decide (_ ∈ _)); [done|].
  change (wal_preimages (set_tree t1 w)) with (wal_preimages (set_tree t2 w)).
  by destruct (capture_creation_marker _ _ _ _ _) as [[] pd].
Qed.

Lemma post_mkdir_keeps_tree (d : path) (w : world) : w_tree (post_mkdir no_fault d w).2 = w_tree w.
Proof.
  unfold post_mkdir, record_creation, is_active, mbind, stm_bind, gets, get, lift, zoom, modify.
  repeat (case_match; cbn [fst snd] in *; simplify_eq; try done).
Qed.

Lemma post_mkdir_no_panic (d : path) (w : world) : (post_mkdir no_fault d w).1 ≠ Panic.
Proof.
  unfold post_mkdir, record_creation, is_active, mbind, stm_bind, gets, get, lift, zoom, modify. cbn.
  destruct (bool_decide (is_Some _)); [|done]. destruct (_ && _); [done|].
  destruct (strip_prefix _ d) as [rel|] eqn:E; [|done]. cbn [ok_or].
  destruct (is_ignored _ _ _); [done|]. destruct (step_unprotected _); [done|].
  destruct (bool_decide (_ ∈ _)); [done|].
  unfold capture_creation_marker, mbind, stm_bind, lift. rewrite E. cbn [ok_or].
  unfold write_preimage_meta, write_atomic. by destruct (wal_preimages w).
Qed.

Definition mkdir_hooks (w : world) (ds : list path) : world :=
  foldl (λ w d, (post_mkdir no_fault d w).2) w ds.

Lemma mkdir_hooks_tree (ds : list path) (t1 t2 : tree) (w : world) :
  Forall (λ d, path_is_dir t1 d = path_is_dir t2 d ∧ symlink_at t1 d = symlink_at t2 d) ds →
  mkdir_hooks (set_tree t2 w) ds = set_tree t2 (mkdir_hooks (set_tree t1 w) ds).
Proof.
  intros Hds. revert w. induction Hds as [|d ds [Hd Hl] _ IH]; intros w; [done|]. cbn.
  rewrite (post_mkdir_tree d t1 t2) by done.
  assert ((post_mkdir no_fault d (set_tree t1 w)).2 = set_tree t1 (post_mkdir no_fault d (set_tree t1 w)).2) as E.
  { pose proof (post_mkdir_keeps_tree d (set_tree t1 w)) as Ht. cbn in Ht.
    destruct (post_mkdir no_fault d (set_tree t1 w)).2. cbn in *. by subst. }
  rewrite E at 2. apply IH.
Qed.

Lemma mkdir_hooks_conf (ds : list path) (w : world) : keeps_conf w (mkdir_hooks w ds).
Proof.
  revert w. induction ds as [|d ds IH]; intros w; [done|]. cbn. etrans; [|apply IH].
  apply conf_post_create.
Qed.

Lemma post_mkdir_protection (d : path) (w : world) : unprotected (post_mkdir no_fault d w).2 = unprotected w.
Proof.
  unfold post_mkdir, is_active, mbind, stm_bind, gets. cbn.
  destruct (bool_decide _); [apply record_creation_protection | done].
Qed.

Lemma dirs_to_track_below (t : tree) (r : path) :
  plain W t → (∀ q, q `prefix_of` r → clean q) →
  Forall (λ d, ∃ q, q `prefix_of` r ∧ d = W ++ q) (dirs_to_track t (rev (W ++ r))).
Proof.
  intros Hp. induction r as [|c r IH] using rev_ind; intros Hc.
  - rewrite dirs_to_track_present; [constructor | done |]. rewrite app_nil_r.
    destruct (pl_root _ _ Hp W) as [m ->]; [done | by eexists].
  - destruct (t !! (W ++ r ++ [c])) as [n|] eqn:En; [rewrite dirs_to_track_present by eauto; constructor|].
    rewrite dirs_to_track_absent by (done || by apply Hc). constructor; [by exists (r ++ [c])|].
    eapply Forall_impl; [apply IH; intros q Hq; apply Hc; etrans; [exact Hq | by exists [c]]|].
    intros d (q & Hq & ->). exists q. split; [|done]. etrans; [exact Hq | by exists [c]].
Qed.

Lemma made_dir_above (t : tree) (r : path) (t1 : tree) (q : path) :
  made_dirs t r t1 → q `prefix_of` r → path_is_dir t1 (W ++ q) = true ∧ symlink_at t1 (W ++ q) = false.
Proof.
  intros [Hp Hd _] [k ->]. apply pl_dir_prefix in Hd as [m Hm]; [|done].
  assert (clean q) as Hq by (apply (pl_clean _ _ Hp); eauto).
  rewrite path_is_dir_plain, Hm by done. split; [done|].
  unfold symlink_at. by rewrite (symlink_metadata_present W t1 q (Dir m)).
Qed.

(** The directories that [create_dir_all] made, logged from the outside in. *)
Lemma mkdirs_logged (r : path) (t' : tree) (w : world) :
  host_wf h → step_inv w → unprotected w = false → w_tree w = S0 →
  (∀ q, q `prefix_of` r → good q) → create_dir_all h S0 (W ++ r) = Ok t' →
  let w' := mkdir_hooks (set_tree t' w) (rev (dirs_to_track S0 (rev (W ++ r)))) in
  step_inv w' ∧ unprotected w' = false ∧ w_tree w' = t' ∧ plain W t'.
Proof.
  intros Hh Hsv Hu Ht Hgood. cbv zeta.
  destruct (sv_log _ _ _ _ Hsv) as [|(mf & pd & Hoi)]; [congruence|].
  pose proof (oi_logged _ _ _ _ _ _ Hoi) as L. pose proof (lg_plain _ _ _ _ _ _ L) as Hp. rewrite Ht in Hp.
  assert (∀ q, q `prefix_of` r → clean q) as Hclean
    by (intros q Hq; by apply (good_clean _ (lg_good _ _ _ _ _ _ L)), Hgood).
  clear L Hoi mf pd. revert t' Hgood Hclean. induction r as [|c r IH] using rev_ind; intros t' Hgood Hclean Hcr.
  all: match goal with Hcr : create_dir_all _ _ (W ++ ?r) = _ |- _ =>
    destruct (create_dir_all_cases S0 r t' Hp (Hclean r ltac:(done)) Hcr)
      as [Hmd [[-> Hs]|(r' & c' & t1 & Er & Hn & Hcr1 & Hmd1 & Hn1 & ->)]] end.
  1,3: rewrite dirs_to_track_present by done; cbn; rewrite <- Ht at 1 2 3;
    (assert (set_tree (w_tree w) w = w) as -> by by destruct w); by rewrite Ht.
  - by destruct r'.
  - apply app_inj_tail in Er as [<- <-].
    destruct (IH t1) as (Hsv1 & Hu1 & Ht1 & Hp1);
      [intros q Hq; apply Hgood; etrans; [exact Hq | by exists [c]]
      |intros q Hq; apply Hclean; etrans; [exact Hq | by exists [c]] | done |].
    set (ds := rev (dirs_to_track S0 (rev (W ++ r)))) in *.
    rewrite dirs_to_track_absent by (done || by apply Hclean). cbn [rev]. fold ds.
    unfold mkdir_hooks. rewrite foldl_app. fold (mkdir_hooks (set_tree (add_node h (W ++ r ++ [c]) (Dir (new_meta h (h_dir_perm h))) t1) w) ds).
    rewrite (mkdir_hooks_tree ds t1); [|apply Forall_rev; eapply Forall_impl;
      [apply (dirs_to_track_below S0 r Hp); intros q Hq; apply Hclean; etrans; [exact Hq | by exists [c]]|]]; cycle 1.
    { intros d (q & Hq & ->). destruct (made_dir_above S0 r t1 q Hmd1 Hq) as [-> ->].
      destruct (made_dir_above S0 (r ++ [c]) _ q Hmd) as [-> ->]; [etrans; [exact Hq | by exists [c]] | done]. }
    cbn [foldl]. set (w1 := mkdir_hooks (set_tree t1 w) ds) in *.
    split_and!; [| by rewrite post_mkdir_protection | by rewrite post_mkdir_keeps_tree | apply Hmd].
    eapply (create_step_inv W good h S0 w1 (r ++ [c]) (Dir (new_meta h (h_dir_perm h))));
      [done | done | by apply Hgood | done | by apply new_meta_wf, (hw_dir_perm _ Hh) | by rewrite Hn | | apply surjective_pairing].
    intros mf pd _. rewrite Ht1. split_and!; [done | | done]. split; [by apply Hclean|].
    intros r0 c0 [-> ->]%app_inj_tail. exact (md_dir _ _ _ Hmd1).
Qed.
End dirs.

(** ** The body of a tool call *)

Lemma fs_read_plain (t : tree) (r : path) m c :
  plain W t → t !! (W ++ r) = Some (File m c) → fs_read t (W ++ r) = Ok c.
Proof. intros Hp Hn. unfold fs_read. by rewrite (lookup_node_present W t true r (File m c)). Qed.

Lemma step_plain (w : world) : step_inv w → unprotected w = false → plain W (w_tree w).
Proof.
  intros Hsv Hu. destruct (sv_log _ _ _ _ Hsv) as [|(mf & pd & Hoi)]; [congruence|].
  apply (lg_plain _ _ _ _ _ _ (oi_logged _ _ _ _ _ _ Hoi)).
Qed.

Lemma step_clean (w : world) r : step_inv w → unprotected w = false → good r → clean r.
Proof.
  intros Hsv Hu. destruct (sv_log _ _ _ _ Hsv) as [|(mf & pd & Hoi)]; [congruence|].
  apply (good_clean _ (lg_good _ _ _ _ _ _ (oi_logged _ _ _ _ _ _ Hoi))).
Qed.

Lemma add_file_lookup (h : host) (t : tree) (r : path) (c : list Z) :
  plain W t → reach W t r → t !! (W ++ r) = None →
  let t' := add_node h (W ++ r) (File (new_meta h (h_file_perm h)) c) t in
  plain W t' ∧ ∃ m, t' !! (W ++ r) = Some (File m c).
Proof.
  intros Hp Hre Hn. cbv zeta.
  pose proof (add_node_sim W h t r (File (new_meta h (h_file_perm h)) c) Hp Hre Hn) as Hsim.
  split; [rewrite Hsim; by apply plain_insert_new|].
  destruct (reach_parent W t r Hp Hn Hre) as (r' & x & -> & _). unfold add_node, touch_parent.
  rewrite parent_app_snoc, lookup_alter_ne, lookup_insert_eq; [by eexists|].
  intros E. rewrite app_assoc in E. by apply (app_snoc_ne (W ++ r') x).
Qed.

(** A change shows in the log. *)
Lemma changed_touched (w : world) (p : path) :
  step_inv w → unprotected w = false → is_Some (w_tree w !! p) → S0 !! p = None → touched w ≠ ∅.
Proof.
  intros Hsv Hu Hs Hn Ht. destruct (sv_log _ _ _ _ Hsv) as [|(mf & pd & Hoi)]; [congruence|].
  pose proof (oi_logged _ _ _ _ _ _ Hoi) as L.
  assert (sm_entries mf = ∅) as He.
  { apply map_empty. intros k. apply eq_None_not_Some. rewrite <- (oi_touched _ _ _ _ _ _ Hoi), Ht. apply not_elem_of_empty. }
  rewrite He in L. apply logged_nothing in L. apply (tree_sim_lookup _ _ p) in L.
  rewrite Hn in L. by apply L in Hs as [].
Qed.

Lemma returns_create_dir_all (h : host) (t : tree) (p : path) : returns (create_dir_all h t p).
Proof.
  assert (∀ rp, returns (create_dir_all_rev h t rp)) as Hr; [|apply Hr].
  intros rp. induction rp as [|c rp IH]; cbn [create_dir_all_rev]; [done|].
  pose proof (returns_create_dir h t (rev (c :: rp))) as Hc.
  destruct (create_dir h t _) as [t'|[k ?]|]; [done | | done].
  assert (returns (ns1 ← create_dir_all_rev h t rp;
                   match create_dir h ns1 (rev (c :: rp)) with
                   | Ok ns' => Ok ns'
                   | Err e => if path_is_dir ns1 (rev (c :: rp)) then Ok ns1 else Err e
                   | Panic => Panic
                   end)) as Hrec.
  { apply returns_bind; [exact IH|]. intros t1. pose proof (returns_create_dir h t1 (rev (c :: rp))) as Hc1.
    destruct (create_dir h t1 _); [done | by destruct (path_is_dir _ _) | done]. }
  by destruct k; [..]; try exact Hrec; destruct (path_is_dir _ _).
Qed.

Section body.
Context (h : host) (Hh : host_wf h) (i : nat) (r : path) (content : list Z).
Context (Hgood : ∀ q, q `prefix_of` r → good q).

(** Nothing in the way of writing the file: no directory at the path, and
    nothing but directories above it. *)
Definition writable (t : tree) : Prop :=
  (∀ m, t !! (W ++ r) ≠ Some (Dir m)) ∧
  (∀ q n, q `prefix_of` r → q ≠ r → t !! (W ++ q) = Some n → is_dir_node n = true).

(** A step that was cancelled by a safeguard, or one whose log is complete and,
    if the call went well, holds the change. *)
Definition tool_post (w0 : world) (res : outcome McpError unit) (w : world) : Prop :=
  keeps_conf w0 w ∧
  ((active_step (inner (w_int w)) = None ∧ is_Some (safeguard_handler (w_int w0))) ∨
   (step_inv w ∧ unprotected w = false ∧ res ≠ Panic ∧ (writable S0 → res = Ok ()) ∧
    (res = Ok () → touched w ≠ ∅ ∧ fs_read (w_tree w) (W ++ r) = Ok content))).

Lemma written_existing (w0 w : world) :
  step_inv w → keeps_conf w0 w → unprotected w = false → w_tree w = S0 → is_Some (S0 !! (W ++ r)) → covered w r →
  wp i (host_call (λ ns, fs_write h ns (W ++ r) content)) w (tool_post w0).
Proof.
  intros Hsv Hconf Hu Ht [n Hn0] Hcov. apply wp_host_call.
  assert (w_tree w !! (W ++ r) = Some n) as Hn by by rewrite Ht.
  destruct (sv_log _ _ _ _ Hsv) as [|(mf & pd & Hoi)]; [congruence|].
  pose proof (lg_plain _ _ _ _ _ _ (oi_logged _ _ _ _ _ _ Hoi)) as Hp.
  destruct n as [m c|m|m l].
  - rewrite (fs_write_existing W h _ r m c) by done. split; [exact Hconf|]. right.
    set (t' := <[W ++ r := _]> (w_tree w)).
    assert (plain W t') as Hp' by (by eapply (plain_update W)).
    split_and!; [|done|done|done|]; cycle 1.
    + intros _. split; [|by eapply fs_read_plain; [|apply lookup_insert_eq]].
      destruct Hcov as [|Hcov]; [congruence|]. change (touched w ≠ ∅). set_solver.
    + apply (change_tree W good S0 w r); [done | by apply Hgood | done |]. intros mf' pd' Hoi'. split_and!.
      * done.
      * apply insert_meta; [exact (oi_meta _ _ _ _ _ _ Hoi)|]. cbn.
        destruct (oi_meta _ _ _ _ _ _ Hoi r _ Hn) as [H1 H2]. split; [done | apply (hw_clock _ Hh)].
      * intros p Hpr. unfold t'. rewrite lookup_insert_ne by done. apply option_sim_refl.
      * intros n n0 Hn' Hn1. unfold t' in Hn'. rewrite lookup_insert_eq in Hn'. injection Hn' as <-.
        rewrite Hn0 in Hn1. by simplify_eq.
  - unfold fs_write. rewrite resolve_reach by (done || apply reach_present; eauto). cbn. rewrite Hn. cbn.
    split; [done|]. right. split_and!; [done.. | | done]. intros [Hnd _].
    by destruct (Hnd m).
  - by pose proof (pl_nolink _ _ Hp r _ Hn).
Qed.

(** The hook, the record and the write, on a file that is there. *)
Lemma wp_hooked_write (w0 w : world) :
  step_inv w → keeps_conf w0 w → unprotected w = false → w_tree w = S0 → is_Some (S0 !! (W ++ r)) →
  max_single_step_size_bytes (resource_limits (w_int w0)) = None →
  wp i (dropped i (pre_write h no_fault (W ++ r));; record_target (W ++ r);;
        host_call (λ ns, fs_write h ns (W ++ r) content)) w (tool_post w0).
Proof.
  intros Hsv Hconf Hu Ht Hs Hmax. apply wp_bind, wp_dropped.
  assert (resource_limits (w_int w) = resource_limits (w_int w0) ∧
          safeguard_handler (w_int w) = safeguard_handler (w_int w0)) as [El Eh] by by injection Hconf.
  pose proof (conf_pre_write h (W ++ r) w) as Hconf'.
  destruct (pre_write_cases h r w) as [(w' & E & [Hsv' Ht' Hcov'] & Hu')|(res & w' & E & Hhd & Hact)];
    [done | by apply Hgood | done | by rewrite El | |]; rewrite E in *; cbn [fst snd] in *.
  - apply wp_bind, wp_record_target. apply written_existing; [done | by etrans | done | by rewrite Ht', Ht | done |].
    apply Hcov'. by rewrite Ht.
  - assert (keeps_conf w0 w') as Hc by by etrans.
    destruct res; [| | by split; [|left; rewrite <- Eh]]; apply wp_bind, wp_record_target, wp_host_call;
      (destruct (fs_write _ _ _ _) as [t| |]; (split; [exact Hc | left; by rewrite <- Eh])).
Qed.

Lemma wp_do_edit_file (w : world) (arg_path : string) :
  step_inv w → unprotected w = false → w_tree w = S0 → is_Some (S0 !! (W ++ r)) →
  max_single_step_size_bytes (resource_limits (w_int w)) = None →
  wp i (do_edit_file h no_fault i (W ++ r) arg_path content) w (tool_post w).
Proof.
  intros Hsv Hu Ht Hs Hmax. unfold do_edit_file. apply wp_bind, wp_dropped.
  apply wp_hooked_write; [by apply step_inv_command | by apply conf_inner; intros x; destruct (current_manifest x) | | done..].
  by rewrite command_protection.
Qed.

(** A new file, with the directories above it. *)
Lemma wp_new_file (w0 w : world) (r' : path) (c : string) :
  r = r' ++ [c] → step_inv w → keeps_conf w0 w → unprotected w = false → w_tree w = S0 → S0 !! (W ++ r) = None →
  wp i ((host_call (λ ns, create_dir_all h ns (W ++ r'));;
         for_each (λ d, dropped i (post_mkdir no_fault d)) (rev (dirs_to_track S0 (rev (W ++ r')))));;
        record_target (W ++ r);; host_call (λ ns, fs_write h ns (W ++ r) content);;
        dropped i (post_create no_fault (W ++ r))) w (tool_post w0).
Proof.
  intros Er Hsv Hconf Hu Ht Hn. apply wp_bind, wp_bind, wp_host_call. rewrite Ht.
  destruct (create_dir_all h S0 (W ++ r')) as [t1|e|] eqn:Ecd.
  2: { split; [done|]. right. split_and!; [done.. | | done]. intros [_ Hw]. exfalso.
       destruct (create_dir_all_ok h S0 r') as [t1 Ht1]; [| | |congruence].
       - rewrite <- Ht. by apply step_plain.
       - assert (clean r) as Hcl by (apply (step_clean w); [done.. | by apply Hgood]).
         rewrite Er in Hcl. by apply (proj1 (clean_snoc r' c)).
       - intros q n Hq. apply Hw; [rewrite Er; etrans; [exact Hq | by exists [c]]|]. intros ->. rewrite Er in Hq.
         apply prefix_length in Hq. rewrite length_app in Hq. cbn in Hq. lia. }
  2: by destruct (returns_create_dir_all h S0 (W ++ r')).
  assert (∀ q, q `prefix_of` r' → good q) as Hgood'
    by (intros q Hq; apply Hgood; rewrite Er; etrans; [exact Hq | by exists [c]]).
  destruct (mkdirs_logged h r' t1 w Hh Hsv Hu Ht Hgood' Ecd) as (Hsv1 & Hu1 & Ht1 & Hp1).
  pose proof (mkdir_hooks_conf (rev (dirs_to_track S0 (rev (W ++ r')))) (set_tree t1 w)) as Hconf1.
  apply wp_each_dropped; [intros d x; apply post_mkdir_no_panic|].
  set (w1 := mkdir_hooks _ _) in *. change (foldl _ _ _) with w1.
  assert (keeps_conf w0 w1) as Hc1 by (etrans; [exact Hconf | exact Hconf1]).
  pose proof (Hgood r ltac:(done)) as Hgr.
  assert (clean r) as Hcl by by apply (step_clean w).
  assert (clean r') as Hcl' by (rewrite Er in Hcl; by apply (proj1 (clean_snoc r' c))).
  destruct (create_dir_all_cases h S0 r' t1) as [[_ Hdir Hother] _];
    [rewrite <- Ht; by apply step_plain | done | done |].
  assert (t1 !! (W ++ r) = None) as Hn1.
  { rewrite Hother; [done|]. intros [k Hk]. rewrite Er in Hk. apply (f_equal length) in Hk. rewrite !length_app in Hk. cbn in Hk. lia. }
  assert (reach W t1 r) as Hre by (split; [done|]; intros r0 c0 E; rewrite Er in E; by apply app_inj_tail in E as [<- _]).
  apply wp_bind, wp_record_target, wp_bind, wp_host_call. rewrite Ht1, (fs_write_new W) by done.
  set (n := File (new_meta h (h_file_perm h)) content). set (t2 := add_node h (W ++ r) n t1).
  apply wp_dropped. destruct (post_create no_fault (W ++ r) (set_tree t2 w1)) as [res w2] eqn:Epc.
  assert (step_inv w2) as Hsv2.
  { eapply (create_step_inv W good h S0 w1 r n t2); try done.
    - by apply new_meta_wf, (hw_file_perm _ Hh).
    - by rewrite Hn.
    - intros mf pd _. by rewrite Ht1. }
  pose proof (post_mkdir_protection (W ++ r) (set_tree t2 w1)) as Hu2.
  pose proof (post_mkdir_keeps_tree (W ++ r) (set_tree t2 w1)) as Ht2.
  change (post_mkdir (H := TP) no_fault) with (post_create (H := TP) no_fault) in *.
  pose proof (conf_post_create (W ++ r) (set_tree t2 w1)) as Hconf2.
  rewrite Epc in Hu2, Ht2, Hconf2. cbn [fst snd] in *.
  split; [etrans; [exact Hc1 | exact Hconf2]|]. right. 
  assert (match res with Panic => Panic | _ => Ok () end = Ok (E := McpError) ()) as Hres.
  { pose proof (post_mkdir_no_panic (W ++ r) (set_tree t2 w1)) as Hnp.
    change (post_mkdir (H := TP) no_fault) with (post_create (H := TP) no_fault) in Hnp. rewrite Epc in Hnp. by destruct res. }
  rewrite Hres. split_and!; [done | by rewrite Hu2 | done | done |].
  intros _. destruct (add_file_lookup h t1 r content Hp1 Hre Hn1) as [Hpl [m Hlk]]. rewrite Ht2. split.
  - eapply (changed_touched w2 (W ++ r)); [done | by rewrite Hu2 | rewrite Ht2; by eexists | done].
  - by eapply fs_read_plain.
Qed.

Lemma wp_do_write_file (w : world) (arg_path : string) :
  step_inv w → unprotected w = false → w_tree w = S0 →
  max_single_step_size_bytes (resource_limits (w_int w)) = None →
  wp i (do_write_file h no_fault i (W ++ r) arg_path content) w (tool_post w).
Proof.
  intros Hsv Hu Ht Hmax. unfold do_write_file. apply wp_bind, wp_dropped, wp_bind, wp_tree.
  set (w1 := (set_step_command ("write_file " +:+ arg_path) w).2).
  assert (keeps_conf w w1) as Hc1 by by apply conf_inner; intros x; destruct (current_manifest x).
  assert (step_inv w1) as Hsv1 by by apply step_inv_command.
  assert (unprotected w1 = false) as Hu1 by by unfold w1; rewrite command_protection.
  change (w_tree w1) with (w_tree w). rewrite Ht.
  pose proof (step_plain w Hsv Hu) as Hp. rewrite Ht in Hp.
  assert (clean r) as Hcl by by apply (step_clean w), Hgood.
  rewrite path_exists_plain by done. case_bool_decide as Hs.
  - apply wp_then_ret. apply (wp_hooked_write w w1); try done; exact Ht.
  - destruct (path_cases r) as [Er|(r' & c & Er)].
    { exfalso. apply Hs. rewrite Er, app_nil_r. destruct (pl_root _ _ Hp W) as [m ->]; [done | by eexists]. }
    rewrite Er, parent_app_snoc, <- Er. apply (wp_new_file w w1 r' c); try done. by apply eq_None_not_Some.
Qed.
End body.
End api.

(** ** Opening and closing the step *)

Definition same_tree (w w' : world) : Prop := w_tree w' = w_tree w.
#[local] Instance same_tree_preorder : PreOrder same_tree.
Proof. split; [by intros ?|]. intros ? ? ? H1 H2. unfold same_tree in *. congruence. Qed.

Lemma open_step_same_tree h id : guarantees same_tree (open_step h no_fault id).
Proof.
  assert (∀ op f, guarantees same_tree (undo_op no_fault op f)) as Hop by done.
  assert (∀ f, guarantees same_tree (modify (E := CodeAgentError) (on_inner f))) as Hm by done.
  unfold open_step, check_undo_enabled, remove_wal, wal. guarantee.
Qed.

Lemma never_panics_open h id : never_panics (open_step h no_fault id).
Proof.
  assert (∀ op f, never_panics (undo_op no_fault op f)) as Hop by done.
  assert (never_panics check_undo_enabled) as Hc by (unfold check_undo_enabled; no_panic).
  unfold open_step, remove_wal, wal. no_panic.
Qed.

Lemma open_step_succeeds h id (w : world) :
  undo_disabled (w_int w) = false → active_step (inner (w_int w)) = None →
  open_step h no_fault id w = (Ok (), (open_step h no_fault id w).2).
Proof.
  intros Hen Hact. rewrite (surjective_pairing (open_step h no_fault id w)) at 1. f_equal.
  unfold open_step, check_undo_enabled, remove_wal, wal, mbind, stm_bind, gets. rewrite Hen.
  unfold undo_op, mbind, stm_bind, no_fault, on_undo, modify, gets. cbn.
  by destruct (ud_wal (w_undo w)); cbn; rewrite Hact.
Qed.

Lemma close_inactive `{JsonLen} id w :
  active_step (inner (w_int w)) = None → ∃ e, (close_step no_fault id w).1 = Err e.
Proof.
  intros Hact. unfold close_step. erewrite stm_bind_ok by done.
  destruct (current_manifest (inner (w_int w))) as [m|]; [destruct (bool_decide (sm_entries m = ∅))|].
  1,3: rewrite bool_decide_eq_true_2 by done; by eexists.
  erewrite stm_bind_ok by done. erewrite stm_bind_ok by done. rewrite bool_decide_eq_true_2 by done.
  unfold write_wal_manifest, mbind, stm_bind, modify, gets, throw. cbn.
  destruct (ud_wal (w_undo w)); by eexists.
Qed.

(** ** The API step around a tool *)

Section api_step.
Context `{TP : ThirdParty} `{!ThirdPartyLaws TP} `{JL : JsonLen} `{!JsonLenLaws JL}.
Context (W : path) (good : path → Prop) (h : host) (i : nat) (r : path) (content : list Z).

(** Undo is enabled, no step is open, and nothing is in the way of the file. *)
Definition can_write (w0 : world) : Prop :=
  undo_disabled (w_int w0) = false ∧ active_step (inner (w_int w0)) = None ∧ writable W r (w_tree w0).

(** What a call promises: on success the file holds the content and undoing one
    step gives back the tree; it fails only when the file cannot be written,
    and then the tree is as before.  A safeguard may interfere with the second. *)
Definition api_post {A} (w0 : world) (res : outcome McpError A) (w : world) : Prop :=
  match res with
  | Ok _ => fs_read (w_tree w) (W ++ r) = Ok content ∧
      ∀ h', ∃ undone w', rollback h' no_fault 1 true w = (Ok undone, w') ∧ tree_sim (w_tree w') (w_tree w0)
  | Err _ => safeguard_handler (w_int w0) = None → tree_sim (w_tree w) (w_tree w0) ∧ ¬ can_write w0
  | Panic => is_Some (safeguard_handler (w_int w0))
  end.

Lemma wp_close_api (S0 : tree) (w0 w : world) (id : Z) :
  step_inv W good S0 w → unprotected w = false → touched w ≠ ∅ → keeps_conf w0 w → S0 = w_tree w0 →
  fs_read (w_tree w) (W ++ r) = Ok content → resource_limits (w_int w0) = no_limits →
  NoDup (completed_steps_ (inner (w_int w0)) ++ [next_step_id (w_int w0)]) →
  wp i (with_cause FromUndo (on_interceptor i (close_step no_fault id));; mret id) w (api_post w0).
Proof.
  intros Hsv Hu Hne Hconf -> Hread Hlim Hnd. injection Hconf as Hc1 Hc2 Hc3 Hc4.
  apply wp_bind, wp_interceptor.
  destruct (close_then_rollback W good h id (w_tree w0) w) as (evicted & w3 & Hc & Ht & Hev & _);
    [done.. | by rewrite Hc1, Hc2 | by rewrite Hc3, Hlim |].
  rewrite Hc. cbn [fst snd map_err]. apply wp_ret. split; [by rewrite Ht|]. intros h'.
  destruct (close_then_rollback W good h' id (w_tree w0) w) as (evicted' & w3' & Hc' & _ & _ & Hrb);
    [done.. | by rewrite Hc1, Hc2 | by rewrite Hc3, Hlim |].
  rewrite Hc in Hc'. injection Hc' as <- <-.
  destruct Hrb as (undone & w4 & Hrb & Hsim & _); [|by exists undone, w4].
  rewrite Hev by by rewrite Hc3, Hlim. apply not_elem_of_nil.
Qed.

Lemma wp_fail_api (S0 : tree) (w0 w : world) (e : McpError) :
  step_inv W good S0 w → unprotected w = false → keeps_conf w0 w → S0 = w_tree w0 → ¬ writable W r S0 →
  wp i (dropped i (rollback_current_step h no_fault);; throw (A := Z) e) w (api_post w0).
Proof.
  intros Hsv Hu Hconf -> Hnw. apply wp_bind, wp_dropped.
  destruct (sv_log _ _ _ _ Hsv) as [|(mf & pd & Hoi)]; [congruence|].
  destruct (rollback_current_step_ok W good h (w_tree w0) w mf pd Hsv Hoi) as (w' & -> & Hsim & _).
  apply wp_throw. intros _. split; [done|]. by intros (_ & _ & Hw).
Qed.

(** A step that a safeguard has cancelled is not open any more. *)
Lemma wp_cancelled_api (w0 w : world) (res : outcome McpError unit) (id : Z) :
  active_step (inner (w_int w)) = None → is_Some (safeguard_handler (w_int w0)) →
  match match res with Ok a => Ok (inr a) | Err e => Ok (inl e) | Panic => Panic end with
  | Ok (inr _) => wp i (with_cause FromUndo (on_interceptor i (close_step no_fault id));; mret id) w (api_post w0)
  | Ok (inl e) => wp i (dropped i (rollback_current_step h no_fault);; throw (A := Z) e) w (api_post w0)
  | Err e => api_post (A := Z) w0 (Err e) w
  | Panic => api_post (A := Z) w0 Panic w
  end.
Proof.
  intros Hact [f Hf]. destruct res as [[]|e|]; [| |by eexists].
  - apply wp_bind, wp_interceptor. destruct (close_inactive id w Hact) as [e He].
    destruct (close_step no_fault id w) as [res w']. cbn in He. subst res. cbn. by rewrite Hf.
  - apply wp_bind, wp_dropped. destruct (rollback_current_step h no_fault w) as [[] w']; [| |by eexists];
      apply wp_throw; cbn; by rewrite Hf.
Qed.

Lemma wp_with_api_step (body : Z → OrchM unit) (w0 : world) :
  start_ok W good w0 → resource_limits (w_int w0) = no_limits →
  NoDup (completed_steps_ (inner (w_int w0)) ++ [next_step_id (w_int w0)]) →
  (∀ id w, step_inv W good (w_tree w0) w → unprotected w = false → w_tree w = w_tree w0 → keeps_conf w0 w →
     wp i (body id) w (tool_post W good (w_tree w0) r content w)) →
  wp i (with_api_step h no_fault i body) w0 (api_post w0).
Proof.
  intros Hstart Hlim Hnd Hbody. apply wp_suppressed, wp_bind, wp_next_id. intros id.
  apply wp_bind, wp_interceptor.
  pose proof (conf_open_step h id w0) as Hconf. pose proof (open_step_same_tree h id w0) as Hsame.
  destruct (open_step h no_fault id w0) as [res w1] eqn:Eo. cbn [fst snd] in *. destruct res as [[]|e|].
  3: { exfalso. apply (never_panics_open h id w0). by rewrite Eo. }
  2: { intros _. rewrite Hsame. split; [done|]. intros (Hen & Hact & _).
       by rewrite (open_step_succeeds h id w0 Hen Hact) in Eo. }
  destruct (open_step_start W good h id w0 w1 Hstart Eo) as (Hsv & Hu & Ht).
  cbn [map_err]. apply wp_bind, wp_try.
  eapply wp_mono; [|by apply (Hbody id w1)]. intros res w2 [Hconf2 Hpost].
  assert (keeps_conf w0 w2) as Hc02 by by etrans.
  assert (safeguard_handler (w_int w1) = safeguard_handler (w_int w0)) as Eh by by injection Hconf.
  rewrite Eh in Hpost.
  destruct Hpost as [[Hact Hhd]|(Hsv2 & Hu2 & Hnp & Hlive & Hok)].
  - pose proof (wp_cancelled_api w0 w2 res id Hact Hhd). by destruct res.
  - destruct res as [[]|e|]; [| |done].
    + destruct (Hok eq_refl) as [Hne Hread]. by apply (wp_close_api (w_tree w0)).
    + apply (wp_fail_api (w_tree w0)); [done..|]. intros Hw. by specialize (Hlive Hw).
Qed.
End api_step.

(** ** Tool calls as programs on the orchestrator *)

Section tool_calls.
Context `{TP : ThirdParty} `{!ThirdPartyLaws TP} `{JL : JsonLen} `{!JsonLenLaws JL}.
Context (W : path) (good : path → Prop) (h : host).

(** A call on [p] that is routed to interceptor [i], which sees [w0], and to the
    target [W ++ r]; the history has no limits and a fresh step identifier. *)
Record routed (o : Orchestrator) (p : string) (i : nat) (w0 : world) (r : path) : Prop := {
  rt_world : world_of i o = Some w0;
  rt_start : start_ok W good w0;
  rt_good : ∀ q, q `prefix_of` r → good q;
  rt_limits : resource_limits (w_int w0) = no_limits;
  rt_fresh : NoDup (completed_steps_ (inner (w_int w0)) ++ [next_step_id (w_int w0)]);
  rt_interceptor : resolve_interceptor_for_path p o = (Ok i, o);
  rt_target : resolve_target_path p o = (Ok (W ++ r), o);
}.

(** The promise of [api_post] on the orchestrator, undo as a request. *)
Definition call_post {A} (i : nat) (w0 : world) (r : path) (content : list Z)
    (res : outcome McpError A) (o : Orchestrator) : Prop :=
  match res with
  | Ok _ => fs_read (o_tree o) (W ++ r) = Ok content ∧
      ∃ undone o', undo_on h no_fault i 1 true o = (Ok undone, o') ∧ tree_sim (o_tree o') (w_tree w0)
  | Err _ => safeguard_handler (w_int w0) = None → tree_sim (o_tree o) (w_tree w0) ∧ ¬ can_write W r w0
  | Panic => is_Some (safeguard_handler (w_int w0))
  end.

Lemma wp_call {A} (m : OrchM A) (o : Orchestrator) i (w0 : world) r content :
  world_of i o = Some w0 → wp i m w0 (api_post W r content w0) →
  call_post i w0 r content (m o).1 (m o).2.
Proof.
  intros Ho Hm. destruct (Hm o Ho) as (w & Hw & Hpost). destruct (m o) as [res o']. cbn [fst snd] in *.
  pose proof (world_of_tree i o' w Hw) as Ht. destruct res as [a|e|]; cbn in *; [|by rewrite Ht|done].
  rewrite Ht. destruct Hpost as [Hread Hundo]. split; [done|].
  destruct (Hundo h) as (undone & w' & Hrb & Hsim).
  assert (wp i (undo_on h no_fault i 1 true) w
    (λ res w', res = Ok undone ∧ tree_sim (w_tree w') (w_tree w0))) as Hu.
  { apply wp_suppressed, wp_interceptor. by rewrite Hrb. }
  destruct (Hu o' Hw) as (w'' & Hw'' & Hres & Hsim'). exists undone, (undo_on h no_fault i 1 true o').2.
  rewrite <- Hres, (world_of_tree i _ _ Hw''). split; [by destruct (undo_on _ _ _ _ _ _) | done].
Qed.

Lemma with_cause_ok {A E} (f : E → error_text) (m : stm Orchestrator E A) (o o' : Orchestrator) (a : A) :
  m o = (Ok a, o') → with_cause f m o = (Ok a, o').
Proof. unfold with_cause. by intros ->. Qed.

Lemma write_file_call (o : Orchestrator) p i (w0 : world) r content :
  host_wf h → routed o p i w0 r →
  call_post i w0 r content (write_file h no_fault p content o).1 (write_file h no_fault p content o).2.
Proof.
  intros Hh [Hw Hstart Hgood Hlim Hnd Hi Ht]. unfold write_file.
  rewrite (stm_bind_ok _ _ _ _ _ (with_cause_ok _ _ _ _ _ Hi)).
  rewrite (stm_bind_ok _ _ _ _ _ (with_cause_ok _ _ _ _ _ Ht)).
  apply wp_call; [done|]. apply (wp_with_api_step W good); [done..|]. intros id w Hsv Hu Htr Hconf.
  apply wp_do_write_file; [done.. |]. injection Hconf as _ _ -> _. by rewrite Hlim.
Qed.
End tool_calls.
