(* ===== verification/OrchestratorTools.v ===== *)
(** * What the file tools do

    [write_file] and [edit_file] as requests: the content they leave, that the
    undo request takes the call back, that a failing call changes nothing, and
    which interceptor a path is routed to.

    The second part is the start of a session after a crash, and calls that
    are not undone. *)

From Stdlib Require Import Ascii.
From stdpp Require Import base gmap strings list fin_maps.
From S2P Require Import Prelude HostFs HostFacts Common WriteInterceptor Safeguard UndoLog UndoInterceptor UndoHooks UndoEvict UndoFacts UndoCapture UndoSteps UndoCorrect UndoTheorems UndoLife StdioProtocol McpProtocol CommandWaiter RecentWrites P9Ops P9Total Orchestrator OrchestratorFacts.
#[local] Open Scope Z_scope.

(** ** Text replacement *)

(** The pieces of a text, put together with [sep] between them. *)
Fixpoint join (sep : list Z) (pieces : list (list Z)) : list Z :=
  match pieces with
  | [] => []
  | [x] => x
  | x :: rest => x ++ sep ++ join sep rest
  end.

Lemma join_cons sep x rest : rest ≠ [] → join sep (x :: rest) = x ++ sep ++ join sep rest.
Proof. by destruct rest. Qed.

Lemma bytes_start_with_spec pat s : bytes_start_with pat s = true ↔ ∃ rest, s = pat ++ rest.
Proof.
  revert s. induction pat as [|a pat IH]; intros s; cbn.
  { split; [by exists s | done]. }
  destruct s as [|b s].
  { split; [done|]. by intros [? ?]. }
  rewrite andb_true_iff, Z.eqb_eq, IH. split.
  - intros [-> [rest ->]]. by exists rest.
  - intros [rest [= -> ->]]. split; [done | by exists rest].
Qed.

(** The rest of an occurrence is skipped. *)
Lemma replace_skip pat new lim k s :
  pat ≠ [] → replace_from pat new lim k s = replace_from pat new lim 0 (drop k s).
Proof.
  intros Hp. revert k. induction s as [|c s IH]; intros [|k]; [done..|]. apply IH.
Qed.
Lemma match_count_skip pat k s : pat ≠ [] → match_count pat k s = match_count pat 0 (drop k s).
Proof.
  intros Hp. revert k. induction s as [|c s IH]; intros [|k]; [done..|]. apply IH.
Qed.

Lemma occurrence pat c s :
  pat ≠ [] → occurs_here pat (c :: s) = true → c :: s = pat ++ drop (length pat - 1) s.
Proof.
  unfold occurs_here. intros Hp [Hs _]%andb_true_iff. apply bytes_start_with_spec in Hs as [rest Hs].
  destruct pat as [|a pat]; [done|]. injection Hs as -> ->. cbn [app length]. f_equal.
  replace (S (length pat) - 1)%nat with (length pat) by lia. by rewrite drop_app_length.
Qed.

(** Replacing everywhere: the text is cut at the occurrences that are counted. *)
Lemma replace_pieces pat new s :
  pat ≠ [] →
  ∃ pieces, length pieces = S (match_count pat 0 s) ∧ s = join pat pieces ∧
            replace_from pat new None 0 s = join new pieces.
Proof.
  intros Hp. remember (length s) as n eqn:En. revert s En.
  induction (lt_wf n) as [n _ IH]. intros s ->. destruct s as [|c s].
  { exists [[]]. by destruct pat. }
  cbn [match_count replace_from]. destruct (occurs_here pat (c :: s)) eqn:Eo.
  - rewrite replace_skip, match_count_skip by done.
    pose proof (occurrence pat c s Hp Eo) as Hs.
    destruct (IH (length (drop (length pat - 1) s))) with (s := drop (length pat - 1) s)
      as (pieces & Hlen & Hj & Hr); [rewrite length_drop; cbn; lia | done |].
    assert (pieces ≠ []) as Hne by (by intros ->).
    exists ([] :: pieces). rewrite !join_cons by done. split_and!.
    + cbn. by rewrite Hlen.
    + by rewrite <- Hj.
    + cbn [fmap option_fmap option_map andb negb bool_decide]. rewrite Hr. by destruct pat.
  - destruct (IH (length s)) with (s := s) as (pieces & Hlen & Hj & Hr); [cbn; lia | done |].
    destruct pieces as [|x pieces]; [done|]. exists ((c :: x) :: pieces). cbn [andb]. rewrite Hr, Hj. split_and!.
    + by rewrite <- Hj.
    + by destruct pieces.
    + by destruct pieces.
Qed.

Lemma replace_none pat new k s : pat ≠ [] → replace_from pat new (Some 0%nat) k s = drop k s.
Proof.
  intros Hp. rewrite replace_skip by done. generalize (drop k s). clear s k. intros s.
  induction s as [|c s IH]; cbn; [by destruct pat|]. rewrite andb_false_r. by rewrite IH.
Qed.
Lemma replace_absent pat new s : pat ≠ [] → match_count pat 0 s = 0%nat → replace_from pat new None 0 s = s.
Proof.
  intros Hp. induction s as [|c s IH]; cbn; [by destruct pat|].
  destruct (occurs_here pat (c :: s)); [done|]. intros H. cbn. by rewrite IH.
Qed.
(** With one occurrence, replacing it is replacing all. *)
Lemma replace_once pat new s :
  pat ≠ [] → match_count pat 0 s = 1%nat →
  replace_from pat new (Some 1%nat) 0 s = replace_from pat new None 0 s.
Proof.
  intros Hp. induction s as [|c s IH]; [by destruct pat|]. cbn [match_count replace_from].
  destruct (occurs_here pat (c :: s)); intros Hc.
  - injection Hc as Hc. rewrite match_count_skip in Hc by done.
    rewrite (replace_skip pat new None) by done. cbn. by rewrite replace_none, replace_absent.
  - cbn. by rewrite IH.
Qed.

(** [edited_content] replaces the occurrences that were counted, by the new text. *)
Lemma edited_pieces before old new all :
  old ≠ [] → match_count old 0 before = 1%nat ∨ all = true →
  ∃ pieces, length pieces = S (match_count old 0 before) ∧ before = join old pieces ∧
            edited_content before old new all = join new pieces.
Proof.
  intros Ho Hc. destruct (replace_pieces old new before Ho) as (pieces & H1 & H2 & H3).
  exists pieces. split_and!; [done..|]. unfold edited_content. rewrite <- H3.
  destruct Hc as [Hc| ->]; [|done]. destruct all; [done | by apply replace_once].
Qed.

(** ** The target of an edit *)

Lemma fs_read_file (W : path) (t : tree) (r : path) c :
  plain W t → clean r → fs_read t (W ++ r) = Ok c → ∃ m, t !! (W ++ r) = Some (File m c).
Proof.
  intros Hp Hc Hr. destruct (t !! (W ++ r)) as [n|] eqn:En.
  - unfold fs_read in Hr. rewrite (lookup_node_present W t true r n) in Hr by done.
    destruct n as [m c'|m|m l]; cbn in Hr; simplify_eq. by exists m.
  - destruct (lookup_node_absent W t true r Hp Hc En) as [e He]. unfold fs_read in Hr. by rewrite He in Hr.
Qed.

(** Above a file there are directories only. *)
Lemma file_writable (W : path) (t : tree) (r : path) m c :
  plain W t → t !! (W ++ r) = Some (File m c) → writable W r t.
Proof.
  intros Hp Hf. split; [intros m' Hm'; congruence|]. intros q n [k ->] Hne Hq.
  destruct k as [|x k]; [by rewrite app_nil_r in Hne|].
  assert (∀ k', is_Some (t !! (W ++ q ++ x :: k')) → dir_at t (W ++ q)) as Hd.
  { intros k'. induction k' as [|y k' IH] using rev_ind; intros Hs; [by apply (pl_parent _ _ Hp q x)|].
    apply IH. destruct (pl_parent _ _ Hp (q ++ x :: k') y) as [m' Hm'].
    - by rewrite <- app_assoc.
    - by eexists. }
  destruct (Hd k) as [m' Hm']; [by eexists|]. rewrite Hq in Hm'. by injection Hm' as ->.
Qed.

Lemma returns_read_to_string (t : tree) (p : path) : returns (read_to_string t p).
Proof. unfold read_to_string, fs_read. returning. Qed.

Section edit.
Context `{TP : ThirdParty} `{!ThirdPartyLaws TP} `{JL : JsonLen} `{!JsonLenLaws JL}.
Context (W : path) (good : path → Prop) (h : host).

(** The text to replace occurs, and once unless all occurrences are meant. *)
Definition editable (t : tree) (p : path) (old : list Z) (all : bool) (before : list Z) : Prop :=
  read_to_string t p = Ok before ∧
  (match_count old 0 before = 1%nat ∨ all = true ∧ match_count old 0 before ≠ 0%nat).

(** A call that is not on an editable file fails at once. *)
Lemma edit_cases (o : Orchestrator) (p : string) (i : nat) (w0 : world) (r : path) old new all :
  routed W good o p i w0 r →
  (∃ before, editable (o_tree o) (W ++ r) old all before) ∨
  (∃ e, (∀ before, ¬ editable (o_tree o) (W ++ r) old all before) ∧
        edit_file h no_fault p old new all o = (Err e, o)).
Proof.
  intros [_ _ _ _ _ Hi Ht]. unfold editable, edit_file.
  rewrite (stm_bind_ok _ _ _ _ _ (with_cause_ok _ _ _ _ _ Hi)).
  rewrite (stm_bind_ok _ _ _ _ _ (with_cause_ok _ _ _ _ _ Ht)). erewrite stm_bind_ok by done.
  destruct (read_to_string (o_tree o) (W ++ r)) as [before|e|] eqn:Er.
  3: by destruct (returns_read_to_string (o_tree o) (W ++ r)).
  2: right; eexists; split; [|done]; by intros ? [? _].
  erewrite stm_bind_ok by done.
  destruct (Nat.eqb_spec (match_count old 0 before) 0) as [E0|E0].
  { right. eexists. split; [|done]. intros ? [[= <-] [|[_ ?]]]; lia. }
  destruct (Nat.ltb_spec 1 (match_count old 0 before)) as [E1|E1]; [destruct all; cbn [andb negb]|].
  - left. exists before. auto.
  - right. eexists. split; [|done]. intros ? [[= <-] [|[? _]]]; [lia | done].
  - left. exists before. split; [done|]. left. lia.
Qed.

Lemma edit_file_call (o : Orchestrator) (p : string) (i : nat) (w0 : world) (r : path) old new all before :
  host_wf h → routed W good o p i w0 r → editable (o_tree o) (W ++ r) old all before →
  ∃ res : outcome McpError Z,
  edit_file h no_fault p old new all o = (const () <$> res, (edit_file h no_fault p old new all o).2) ∧
  call_post W h i w0 r (edited_content before old new all) res (edit_file h no_fault p old new all o).2 ∧
  writable W r (w_tree w0).
Proof.
  intros Hh [Hw Hstart Hgood Hlim Hnd Hi Ht] [Hread Hcount]. unfold edit_file.
  rewrite (stm_bind_ok _ _ _ _ _ (with_cause_ok _ _ _ _ _ Hi)).
  rewrite (stm_bind_ok _ _ _ _ _ (with_cause_ok _ _ _ _ _ Ht)).
  erewrite stm_bind_ok by done. rewrite Hread. erewrite stm_bind_ok by done.
  assert ((match_count old 0 before =? 0)%nat = false) as -> by (apply Nat.eqb_neq; lia).
  assert ((1 <? match_count old 0 before)%nat && negb all = false) as ->.
  { apply andb_false_iff. destruct Hcount as [->|[-> _]]; [by left | by right]. }
  set (body := λ _ : Z, do_edit_file h no_fault i (W ++ r) p (edited_content before old new all)).
  assert (∃ m, w_tree w0 !! (W ++ r) = Some (File m before)) as [m Hfile].
  { unfold read_to_string in Hread. apply bind_ok_inv in Hread as (c & Hc & Hv).
    destruct (utf8_valid c); [|done]. injection Hv as ->. rewrite (world_of_tree i o w0 Hw) in Hc.
    apply fs_read_file; [apply (so_plain _ _ _ Hstart) | | done].
    by apply (so_good _ _ _ Hstart), Hgood. }
  exists (with_api_step h no_fault i body o).1. split_and!.
  - unfold mbind, stm_bind. by destruct (with_api_step h no_fault i body o) as [[] ?].
  - assert (∀ k : OrchM unit, k = mret () →
      ((with_api_step h no_fault i body;; k) o).2 = (with_api_step h no_fault i body o).2) as Hk.
    { intros k ->. unfold mbind, stm_bind. by destruct (with_api_step h no_fault i body o) as [[] ?]. }
    rewrite Hk by done. apply (wp_call W h (with_api_step h no_fault i body) o i w0 r _ Hw).
    apply (wp_with_api_step W good); [done..|]. intros id w Hsv Hu Htr Hconf.
    unfold body. apply (wp_do_edit_file W good (w_tree w0)); [done.. | by eexists |]. injection Hconf as _ _ -> _. by rewrite Hlim.
  - eapply file_writable; [apply (so_plain _ _ _ Hstart) | done].
Qed.
End edit.

(** ** A sample session

    Two working directories, [/w] and [/v], each with its interceptor. *)

Definition orch_tree : tree :=
  <[["v"] := Dir (sample_meta 493)]> (<[["v"; "b"] := File (sample_meta 420) [98]]> sample_tree).

Definition orch_interceptor (config : UndoConfig) (root : path) : undo_dir * UndoInterceptor :=
  let '(u, d) := build no_fault (λ _, None) root config empty_undo_dir in (d, u).

Definition orch (t : tree) (config : UndoConfig) : Orchestrator :=
  mkOrchestrator
    (Active (mkSession [orch_interceptor config ["w"]; orch_interceptor config ["v"]] [["w"]; ["v"]] ["w"; "v"]
               [["u"; "0"]; ["u"; "1"]] "ephemeral" no_safeguards ∅ None None 1 1000000 false
               (Some (RecentBackendWrites_new 0)) false))
    t 0 (mkOrchEnv (mkCliArgs [["w"]; ["v"]] (Some ["u"]) "ephemeral" None None None None 512 2) ∅ [] false [] CommandWaiter_new).

Definition plain_config : UndoConfig := sample_config no_safeguards None no_limits.
Definition orch0 : Orchestrator := orch orch_tree plain_config.

(** The world of interceptor [i], if there is one. *)
Definition orch_world (i : nat) : world := default sample_w0 (world_of i orch0).

Lemma orch_routed (p : string) (i : nat) (W r : path) :
  working_root (w_int (orch_world i)) = W → (i < 2)%nat → forallb name_ok r = true → plain_check W orch_tree = true →
  resolve_interceptor_for_path p orch0 = (Ok i, orch0) → resolve_target_path p orch0 = (Ok (W ++ r), orch0) →
  routed W clean orch0 p i (orch_world i) r.
Proof.
  intros HW Hi Hr Hpc H1 H2. destruct (plain_check_ok W orch_tree Hpc) as [Hp Hm].
  assert (world_of i orch0 = Some (orch_world i)) as Hw by (destruct i as [|[|]]; [done | done | lia]).
  assert (w_tree (orch_world i) = orch_tree) as Ht by (destruct i as [|[|]]; [done | done | lia]).
  split.
  - done.
  - split; [done | by destruct i as [|[|]]; [| |lia] | by rewrite Ht | apply clean_good_paths | | by rewrite Ht].
    rewrite Ht. apply (pl_clean _ _ Hp).
  - intros q [k ->]. apply clean_check in Hr. by apply clean_app in Hr as [? _].
  - by destruct i as [|[|]]; [| |lia].
  - destruct i as [|[|]]; [| |lia]; apply (bool_decide_unpack _); by vm_compute.
  - done.
  - done.
Qed.

(** ** The theorems *)





(** ** Routing *)

(** [d] is above [target], as written or in canonical form. *)
Definition dir_covers (t : tree) (target d : path) : Prop :=
  d `prefix_of` target ∨ match canonicalize t d with Ok c => c `prefix_of` target | _ => False end.

#[export] Instance dir_covers_dec (t : tree) (target d : path) : Decision (dir_covers t target d).
Proof. unfold dir_covers. destruct (canonicalize t d); apply _. Defined.

Lemma strip_prefix_some (d p : path) : is_Some (strip_prefix d p) ↔ d `prefix_of` p.
Proof.
  split.
  - intros [r ->%strip_prefix_Some]. by exists r.
  - intros [r ->]. exists r. apply strip_prefix_app.
Qed.

Lemma containing_dir_spec (t : tree) (n : nat) (dirs : list path) (target : path) :
  match containing_dir t n dirs target with
  | Some i => ∃ k d, i = (n + k)%nat ∧ dirs !! k = Some d ∧ dir_covers t target d ∧
                ∀ j d', (j < k)%nat → dirs !! j = Some d' → ¬ dir_covers t target d'
  | None => ∀ d, d ∈ dirs → ¬ dir_covers t target d
  end.
Proof.
  revert n. induction dirs as [|d dirs IH]; intros n; cbn [containing_dir]; [set_solver|].
  destruct (decide (dir_covers t target d)) as [Hc|Hc].
  - assert (∃ k d', n = (n + k)%nat ∧ (d :: dirs) !! k = Some d' ∧ dir_covers t target d' ∧
      ∀ j d'', (j < k)%nat → (d :: dirs) !! j = Some d'' → ¬ dir_covers t target d'') as Hhere.
    { exists 0%nat, d. split_and!; [lia | done | done | lia]. }
    case_bool_decide as H1; [done|]. destruct Hc as [Hc|Hc].
    + by rewrite strip_prefix_some in H1.
    + destruct (canonicalize t d) as [c| |]; [|done..].
      by rewrite bool_decide_eq_true_2 by by apply strip_prefix_some.
  - rewrite bool_decide_eq_false_2 by (rewrite strip_prefix_some; intros ?; apply Hc; by left).
    assert (match canonicalize t d with
            | Ok canonical => if bool_decide (is_Some (strip_prefix canonical target)) then Some n
                              else containing_dir t (S n) dirs target
            | _ => containing_dir t (S n) dirs target
            end = containing_dir t (S n) dirs target) as ->.
    { destruct (canonicalize t d) as [c| |] eqn:Ec; [|done..]. rewrite bool_decide_eq_false_2; [done|].
      rewrite strip_prefix_some. intros ?. apply Hc. right. by rewrite Ec. }
    specialize (IH (S n)). destruct (containing_dir t (S n) dirs target) as [i|].
    + destruct IH as (k & d' & -> & Hk & Hcov & Hlt). exists (S k), d'. split_and!; [lia | done | done |].
      intros [|j] d'' Hj; cbn; [by intros [= <-]|]. apply Hlt. lia.
    + intros d'. rewrite elem_of_cons. intros [->|Hd']; [done | by apply IH].
Qed.

Lemma first_interceptor {A} (l : list A) (o : Orchestrator) (i : nat) :
  (if bool_decide (l = []) then λ s, (Err SessionNotActive, s) else mret (M := stm Orchestrator AgentError) 0%nat) o = (Ok i, o) →
  i = 0%nat ∧ is_Some (l !! i).
Proof. case_bool_decide; [done|]. intros [= <-]. destruct l; [done | by split; [|eexists]]. Qed.

(** Routing: the interceptor that records a tool call is the one of the
    first working directory above the target, as written or in canonical form;
    a path below no working directory, and every relative path, goes to the
    first interceptor, the relative one with its target below the first working
    directory. *)
Theorem tool_routing (p : string) (o : Orchestrator) (i : nat) (target : path) :
  resolve_interceptor_for_path p o = (Ok i, o) → resolve_target_path p o = (Ok target, o) →
  ∃ s, o_state o = Active s ∧ is_Some (s_interceptors s !! i) ∧
  if is_absolute p then
    (∃ d, s_working_dirs s !! i = Some d ∧ dir_covers (o_tree o) target d ∧
       ∀ j d', (j < i)%nat → s_working_dirs s !! j = Some d' → ¬ dir_covers (o_tree o) target d') ∨
    (i = 0%nat ∧ ∀ d, d ∈ s_working_dirs s → ¬ dir_covers (o_tree o) target d)
  else i = 0%nat ∧ target = default [] (head (s_working_dirs s)) ++ components p.
Proof.
  unfold resolve_interceptor_for_path, resolve_target_path, primary_working_dir, active_session, throw, mbind, stm_bind, gets.
  intros Hi Ht. destruct (o_state o) as [|s] eqn:Es; [done|]. cbn in Hi. exists s. split; [done|].
  destruct (is_absolute p) eqn:Ea.
  - injection Ht as <-. pose proof (containing_dir_spec (o_tree o) 0 (s_working_dirs s) (components p)) as Hc.
    destruct (containing_dir _ _ _ _) as [k|].
    + case_bool_decide as Hk; [|done]. injection Hi as <-. split; [done|]. left.
      destruct Hc as (k' & d & -> & Hd). by exists d.
    + destruct (first_interceptor _ _ _ Hi) as [-> Hs]. auto.
  - cbn in Ht. rewrite Es in Ht. injection Ht as <-. destruct (first_interceptor _ _ _ Hi) as [-> Hs].
    split; [done|]. split; [done|]. unfold path_join. by rewrite Ea.
Qed.

Lemma tool_routing_witness :
  ∃ s, o_state orch0 = Active s ∧ is_Some (s_interceptors s !! 1%nat).
Proof.
  destruct (tool_routing "/v/b" orch0 1 ["v"; "b"]) as (s & H1 & H2 & _).
  - by vm_compute.
  - by vm_compute.
  - exists s. split; [exact H1 | exact H2].
Defined.

(** ** Sessions

    What starting a session does to the undo history of a crashed one, and
    concrete runs of the tools where the history does not hold what the user
    sees. *)

(** ** Session start *)

(** The interceptor itself is not changed by recovery. *)
Definition same_int (w w' : world) : Prop := w_int w' = w_int w.
#[local] Instance same_int_preorder : PreOrder same_int.
Proof. split; [by intros ?|]. intros ? ? ? H1 H2. unfold same_int in *. congruence. Qed.

Lemma recover_same_int `{ThirdParty} h : guarantees same_int (recover h no_fault).
Proof.
  assert (∀ op f, guarantees same_int (undo_op no_fault op f)) as Hop by done.
  assert (∀ A (m : stm tree CodeAgentError A), guarantees same_int (zoom w_tree set_tree m)) as Hz
    by (intros A m; by apply guarantees_zoom).
  unfold recover, run_rollback_step, write_wal_manifest, remove_wal, wal. guarantee.
Qed.

(** After a recovery that went well, the barrier is placed. *)
Lemma start_after_recovery `{ThirdParty} h info (w w1 : world) :
  recover h no_fault w = (Ok (Some info), w1) → policy (w_int w) = PolicyBarrier →
  undo_disabled (w_int w) = false → version_mismatch_info (w_int w) = None →
  ∃ events w', start_interceptor h no_fault w = (Ok events, w') ∧
    RecoveryEvent (ri_paths_restored info) (ri_paths_deleted info) ∈ events ∧ w_tree w' = w_tree w1 ∧
    (completed_steps_ (inner (w_int w)) ≠ [] → ∀ n, (0 < n)%nat → ∃ e, rollback h no_fault n false w' = (Err e, w')).
Proof.
  intros Hrec Hpol Hen Hvm. pose proof (recover_same_int h w) as Hi. rewrite Hrec in Hi. unfold same_int in Hi. cbn in Hi.
  unfold start_interceptor. erewrite stm_bind_ok by (unfold try; by rewrite Hrec).
  unfold version_mismatch, is_undo_disabled, completed_steps. do 3 erewrite stm_bind_ok by done.
  rewrite Hi, Hen, Hvm. destruct (decide (completed_steps_ (inner (w_int w)) = [])) as [E|E].
  - rewrite E. erewrite stm_bind_ok by done. eexists _, _. split_and!; [done | by left | done | done].
  - rewrite bool_decide_eq_false_2 by done. cbn [negb andb].
    destruct (notify_barrier h [] SessionStart w1) as (b & w' & Hno & Ht & Hi' & Hb & _); [by rewrite Hi|].
    erewrite stm_bind_ok by (unfold try; by rewrite Hno). eexists _, _.
    split_and!; [done | by left | done |]. intros _ n Hn. apply barrier_blocks; [|done|]; by rewrite Hi', ?Hi in *.
Qed.


(** A session with one completed step dies in the middle of the next one. *)
Definition crash_w1 : world := exec (open_step sample_host no_fault 8) one_step_world.
Definition crash_w2 : world := write_a crash_w1.

Lemma one_step_world_ok : start_ok sample_W clean one_step_world.
Proof.
  destruct (plain_check_ok sample_W (w_tree one_step_world)) as [Hp Hm]; [by vm_compute|].
  split; [by vm_compute | by vm_compute | done | apply clean_good_paths | apply (pl_clean _ _ Hp) | done].
Qed.


(** ** Where the history and the tree part

    [do_write_file] drops the result of [pre_write]: when the safeguard refuses
    the overwrite, the step is rolled back and closed, and the file is written
    all the same. *)
Definition denying_config : UndoConfig :=
  sample_config (mkSafeguardConfig None (Some 0) false) (Some (λ _, Deny)) no_limits.

Definition history (i : nat) (o : Orchestrator) : option (list StepId) :=
  (λ w, completed_steps_ (inner (w_int w))) <$> world_of i o.

Example denied_overwrite_still_written :
  let '(res, o') := write_file sample_host no_fault "/w/a" [9] (orch orch_tree denying_config) in
  is_ok res = false ∧ fs_read (o_tree o') ["w"; "a"] = Ok [9] ∧ history 0 o' = Some [].
Proof. by vm_compute. Qed.

(** A tool call below the second working directory is recorded by the second
    interceptor; [undo] asks the first. *)
Example undo_misses_second_directory :
  let '(_, o1) := write_file sample_host no_fault "/v/b" [9] orch0 in
  let '(_, o2) := mcp_undo sample_host no_fault 1 true o1 in
  history 1 o1 = Some [1] ∧ history 1 o2 = Some [1] ∧ fs_read (o_tree o2) ["v"; "b"] = Ok [9].
Proof. by vm_compute. Qed.

(** A tool call while a command has its step open: the call is refused, and the
    command can no longer be taken back. *)
Example tool_call_empties_open_step :
  let open_and_write := on_interceptor 0 (open_step sample_host no_fault 1;;
                                          pre_write sample_host no_fault ["w"; "a"]) in
  let o1 := (open_and_write orch0).2 in
  let o2 := set_otree (get_tree (fs_write sample_host (o_tree o1) ["w"; "a"] [9])) o1 in
  let '(res, o3) := write_file sample_host no_fault "/w/new" [1] o2 in
  let '(_, o4) := on_interceptor 0 (rollback_current_step sample_host no_fault) o3 in
  is_ok res = false ∧ fs_read (o_tree o4) ["w"; "a"] = Ok [9].
Proof. by vm_compute. Qed.

(** [Path::exists] follows links: a write through a dangling link makes the file
    it points to.  The hook is called on the link, which is ignored, so the new
    file is in no step. *)
Example write_through_dangling_link_unrecorded :
  let t := <[["w"; "l"] := Symlink (sample_meta 511) "t"]> orch_tree in
  let '(res, o1) := write_file sample_host no_fault "/w/l" [9] (orch t plain_config) in
  is_ok res = true ∧ o_tree (orch t plain_config) !! ["w"; "t"] = None ∧
  fs_read (o_tree o1) ["w"; "t"] = Ok [9] ∧ history 0 o1 = Some [].
Proof. by vm_compute. Qed.

(** A command on the host leaves no step behind. *)
Lemma host_bash_not_recorded {R} (shell : string → path → tree → outcome io_error R * tree) command
    (o : Orchestrator) (i : nat) :
  history i (execute_host_bash shell command o).2 = history i o.
Proof.
  unfold execute_host_bash, primary_working_dir, active_session, with_cause, mbind, stm_bind, gets, with_suppressed_watcher.
  destruct (o_state o) as [|s] eqn:Es; cbn.
  { unfold history, world_of. by rewrite Es. }
  unfold on_session. cbn. rewrite Es. cbn.
  destruct (s_recent_writes s); cbn; destruct (shell _ _ _) as [res t]; cbn; unfold history, world_of; cbn;
    rewrite Es; destruct (s_recent_writes s); cbn; by destruct (s_interceptors s !! i) as [[]|].
Qed.
