(* ===== verification/SessionLife.v ===== *)
(** * Starting and stopping sessions

    Models the life of a session in [crates/sandbox/src/orchestrator.rs]
    ([do_session_start], [launch_vm], [do_session_stop], [do_session_reset],
    [do_session_status]), [config.rs], [control_bridge.rs] and the task that
    passes safeguards on.  Processes, sockets and the libraries behind them are
    the fields of [Outside].  Working directories are absolute paths.

    The undo directory of a session is held by its interceptors while it runs,
    and put back into the store of the host when it stops. *)

From Stdlib Require Import Ascii.
From stdpp Require Import base gmap strings list fin_maps pretty.
From S2P Require Import Prelude HostFs Common WriteInterceptor UndoLog UndoInterceptor StdioProtocol McpProtocol ControlProtocol ControlHandler ControlUndo CommandWaiter PathValidation RecentWrites P9Ops FsWatcher Qemu Orchestrator.
#[local] Open Scope Z_scope.

(** What the session asks of code and processes outside the sandbox. *)
Record Outside := mkOutside {
  x_current_exe : option path;
  x_which : string → option path;
  x_build_gitignore : path → option (string → bool → bool);
  x_notify_init : option string;
  x_notify_watch : path → option string;
  (** A filesystem backend for a directory, listening on a socket. *)
  x_backend_start : path → path → outcome AgentError unit;
  (** [Command::spawn] and [wait_for_ready]: the process identifier. *)
  x_spawn : path → list string → outcome AgentError (option Z);
  (** The error text of connecting to the control socket, if any. *)
  x_connect : path → option string;
  (** What the user answers to a safeguard. *)
  x_answer : SafeguardEvent → SafeguardDecision;
  (** How errors and safeguard kinds print. *)
  x_display : AgentError → string;
  x_display_undo : CodeAgentError → string;
  x_debug_kind : SafeguardKind → string;
  (** [serde_json::to_string] on a message: the error text or the line. *)
  x_serialize : HostMessage → string + string;
}.

(** ** config.rs *)

Record FileWatcherConfig := mkFileWatcherConfig {
  fc_enabled : bool;
  fc_debounce_ms : Z;
  fc_recent_write_ttl_ms : Z;
  fc_exclude_patterns : list string;
  fc_use_gitignore : bool;
}.

Definition FileWatcherConfig_default : FileWatcherConfig := mkFileWatcherConfig true 200 5000 [] true.

(** The interceptor's configuration with its defaults. *)
Definition SafeguardConfig_default : SafeguardConfig := mkSafeguardConfig None None false.
Definition UndoConfig_default : UndoConfig :=
  mkUndoConfig PolicyBarrier SafeguardConfig_default None (mkResourceLimits None None None) SymlinkIgnore false.

(** ** State changes *)

Abbreviation AgentM := (stm Orchestrator AgentError).

(** [map_err] on a call. *)
Definition with_error {E F A} (f : E → F) (m : stm Orchestrator E A) : stm Orchestrator F A := λ o,
  let '(r, o') := m o in (map_err f r, o').

Definition send_events (events : list Event) (e : OrchEnv) : OrchEnv :=
  mkOrchEnv (e_cli_args e) (e_undo_store e) (e_events e ++ events) (e_safeguard_receiver e) (e_decisions e) (e_waiter e).
Definition set_store (store : gmap path undo_dir) (e : OrchEnv) : OrchEnv :=
  mkOrchEnv (e_cli_args e) store (e_events e) (e_safeguard_receiver e) (e_decisions e) (e_waiter e).
Definition set_receiver (b : bool) (e : OrchEnv) : OrchEnv :=
  mkOrchEnv (e_cli_args e) (e_undo_store e) (e_events e) b (e_decisions e) (e_waiter e).
Definition add_decisions (l : list (Z * SafeguardDecision)) (e : OrchEnv) : OrchEnv :=
  mkOrchEnv (e_cli_args e) (e_undo_store e) (e_events e) (e_safeguard_receiver e) (e_decisions e ++ l) (e_waiter e).
Definition set_waiter (w : CommandWaiter) (e : OrchEnv) : OrchEnv :=
  mkOrchEnv (e_cli_args e) (e_undo_store e) (e_events e) (e_safeguard_receiver e) (e_decisions e) w.

Definition set_state (st : SessionState) (o : Orchestrator) : Orchestrator :=
  mkOrchestrator st (o_tree o) (o_now o) (o_env o).
Definition set_vm (vm : option VmSessionParts) (s : Session) : Session :=
  mkSession (s_interceptors s) (s_working_dirs s) (s_mount_names s) (s_undo_dirs s) (s_vm_mode s)
    (s_safeguard_config s) (s_pending_safeguards s) (s_last_start_payload s) vm (s_next_command_id s)
    (s_next_api_step_id s) (s_fs_watcher s) (s_recent_writes s) (s_safeguard_bridge s).
Definition set_pending (pending : gmap string Z) (s : Session) : Session :=
  mkSession (s_interceptors s) (s_working_dirs s) (s_mount_names s) (s_undo_dirs s) (s_vm_mode s)
    (s_safeguard_config s) pending (s_last_start_payload s) (s_vm s) (s_next_command_id s)
    (s_next_api_step_id s) (s_fs_watcher s) (s_recent_writes s) (s_safeguard_bridge s).
Definition set_safeguard_config (c : SafeguardConfig) (s : Session) : Session :=
  mkSession (s_interceptors s) (s_working_dirs s) (s_mount_names s) (s_undo_dirs s) (s_vm_mode s)
    c (s_pending_safeguards s) (s_last_start_payload s) (s_vm s) (s_next_command_id s)
    (s_next_api_step_id s) (s_fs_watcher s) (s_recent_writes s) (s_safeguard_bridge s).

Definition send {E} (event : Event) : stm Orchestrator E unit := modify (on_env (send_events [event])).

Section life.
Context `{ThirdParty} `{JsonLen} (h : host) (fault : undo_io → option io_error) (x : Outside) (fc : FileWatcherConfig).

(** [blake3::hash(..).to_hex()[..16]]; the hash has 64 digits. *)
Definition undo_subdir_name (ns : tree) (working_dir : path) : string :=
  let canonical := match canonicalize ns working_dir with Ok p => p | _ => working_dir end in
  String.substring 0 16 (blake3_hex (bytes_of_string (forward_slashes (path_string canonical)))).

Definition is_file (ns : tree) (p : path) : bool :=
  match metadata ns p with Ok (File _ _) => true | _ => false end.

Definition resolve_guest_images (cli : CliArgs) (ns : tree) : option path * option path :=
  let detect (given : option path) (name : string) :=
    match given with
    | Some p => Some p
    | None =>
        exe ← x_current_exe x;
        exe_dir ← parent exe;
        let candidate := exe_dir ++ ["guest"; name] in
        if is_file ns candidate then Some candidate else None
    end in
  (detect (ca_kernel_path cli) "vmlinuz", detect (ca_initrd_path cli) "initrd.img").

(** ** The virtual machine *)

Definition agent_host_call (f : tree → io tree) : AgentM unit := λ o,
  match f (o_tree o) with
  | Ok t => (Ok (), set_otree t o)
  | Err e => (Err (AeIo e), o)
  | Panic => (Panic, o)
  end.

Definition control_failed (error : string) : AgentError :=
  ControlChannelFailed ("failed to connect to control socket: " +:+ error).

(** [QemuProcess::spawn]. *)
Definition spawn_qemu (config : QemuConfig) : AgentM (option Z) :=
  ns ← gets o_tree;
  '(binary, args) ← lift (build_args config (x_which x) ns);
  lift (x_spawn x binary args).

Definition launch_vm (working_dirs : list path) (mount_names : list string)
    (interceptors : list (undo_dir * UndoInterceptor)) (kernel initrd : path) : AgentM VmSessionParts :=
  cli ← gets (λ o, e_cli_args (o_env o));
  undo_dir ← lift (match ca_undo_dir cli with Some d => Ok d | None => Panic end);
  let socket_dir := undo_dir ++ [".sockets"] in
  agent_host_call (λ ns, create_dir_all h ns socket_dir);;
  let control_socket := socket_dir ++ ["control.sock"] in
  let fs_socket (index : nat) := socket_dir ++ ["vfs" +:+ pretty index +:+ ".sock"] in
  for_each (λ '(index, working_dir),
    _ ← lift (index_or_panic interceptors index);
    lift (x_backend_start x working_dir (fs_socket index))) (imap pair working_dirs);;
  pid ← spawn_qemu
    (mkQemuConfig (ca_qemu_binary cli) kernel initrd (ca_rootfs_path cli) (ca_memory_mb cli) (ca_cpus cli)
       working_dirs control_socket (imap (λ index _, fs_socket index) working_dirs) (ca_vm_mode cli) mount_names []);
  (match x_connect x control_socket with Some error => throw (control_failed error) | None => mret () end);;
  _ ← lift (index_or_panic interceptors 0);
  now ← gets o_now;
  mret (mkVmParts pid [] true (ControlChannelHandler_new () 0 now) socket_dir).

(** ** Session start *)

Definition check_dirs_exist (dirs : list path) : AgentM unit :=
  ns ← gets o_tree;
  for_each (λ dir, if path_exists ns dir then mret () else throw (InvalidWorkingDir (path_string dir))) dirs.

(** The interceptor of one working directory; the loop body of [do_session_start]. *)
Definition start_dir (safeguards : bool) (undo_root working_dir : path)
    : AgentM (path * (undo_dir * UndoInterceptor)) := λ o,
  let undo_path := undo_root ++ [undo_subdir_name (o_tree o) working_dir] in
  let store := e_undo_store (o_env o) in
  let config :=
    if safeguards
    then mkUndoConfig PolicyBarrier SafeguardConfig_default (Some (x_answer x)) (mkResourceLimits None None None)
           SymlinkIgnore false
    else UndoConfig_default in
  let '(u, d) := build fault (x_build_gitignore x) working_dir config
                   (default (mkUndoDir None None ∅ None) (store !! undo_path)) in
  let '(r, w) := start_interceptor h fault (mkWorld (o_tree o) d u) in
  let o' := set_otree (w_tree w) o in
  match r with
  | Ok events =>
      (Ok (undo_path, (w_undo w, w_int w)), on_env (send_events events ∘ set_store (delete undo_path store)) o')
  | Err e => (Err (AeUndo e), o')
  | Panic => (Panic, o')
  end.

Fixpoint start_dirs (safeguards : bool) (undo_root : path) (dirs : list path)
    : AgentM (list (path * (undo_dir * UndoInterceptor))) :=
  match dirs with
  | [] => mret []
  | d :: dirs' =>
      i ← start_dir safeguards undo_root d;
      rest ← start_dirs safeguards undo_root dirs';
      mret (i :: rest)
  end.

Definition watcher_config : FsWatcherConfig :=
  mkFsWatcherConfig (fc_debounce_ms fc * 1000000)
    (fw_exclude_patterns FsWatcherConfig_default ++ fc_exclude_patterns fc) (fc_enabled fc) (fc_use_gitignore fc).

Definition create_non_vm_session (interceptors : list (undo_dir * UndoInterceptor)) (working_dirs : list path)
    (mount_names : list string) (undo_dirs : list path) (payload : SessionStartPayload) (fs_watcher_handle : bool)
    (recent_writes : option RecentBackendWrites) (initial_command_id : Z) : Session :=
  mkSession interceptors working_dirs mount_names undo_dirs (sp_vm_mode payload) SafeguardConfig_default ∅
    (Some payload) None initial_command_id 1000000 fs_watcher_handle recent_writes false.

Definition launch_failed (error : AgentError) : Event :=
  WarningEvent "vm_launch_failed" ("VM launch failed, falling back to host-only mode: " +:+ x_display x error).

Fixpoint join_comma (l : list string) : string :=
  match l with
  | [] => EmptyString
  | [w] => w
  | w :: l' => w +:+ ", " +:+ join_comma l'
  end.

Definition not_configured (cli : CliArgs) : Event :=
  let missing := (if bool_decide (ca_kernel_path cli = None) then ["kernel"] else [])
                 ++ (if bool_decide (ca_initrd_path cli = None) then ["initrd"] else []) in
  WarningEvent "vm_not_configured"
    ("VM not configured (missing: " +:+ join_comma missing +:+ "), running in host-only mode. "
     +:+ "Pass --kernel-path and --initrd-path to enable VM mode.").

(** The [mount_points] of the answer; [mount_names[i]] panics out of range. *)
Fixpoint mount_points (index : nat) (dirs : list path) (mount_names : list string) : outcome AgentError (list json) :=
  match dirs with
  | [] => Ok []
  | d :: dirs' =>
      name ← index_or_panic mount_names index;
      rest ← mount_points (S index) dirs' mount_names;
      Ok (JObject [("index", JNumber (Z.of_nat index)); ("path", JString (path_string d));
                   ("mount_path", JString ("/mnt/working/" +:+ name))] :: rest)
  end.

(** The session, and what the answer says about the machine. *)
Definition finish_start (payload : SessionStartPayload) (working_dirs : list path) (mount_names : list string)
    (images : option path * option path) (started : list (path * (undo_dir * UndoInterceptor)))
    : AgentM (string * string) :=
  let interceptors := snd <$> started in
  let undo_dirs := fst <$> started in
  let first_id := initial_command_id (snd <$> interceptors) in
  let recent := RecentBackendWrites_new (fc_recent_write_ttl_ms fc * 1000000) in
  t ← gets o_tree;
  cli ← gets (λ o, e_cli_args (o_env o));
  let '(warnings, watcher) :=
    spawn_fs_watcher (x_notify_init x) (x_notify_watch x) (x_build_gitignore x) working_dirs undo_dirs recent
      (mkWatched t interceptors) watcher_config in
  let watching := bool_decide (is_Some watcher) in
  let host_session := create_non_vm_session interceptors working_dirs mount_names undo_dirs payload watching
                        (Some recent) first_id in
  modify (on_env (send_events warnings));;
  match images with
  | (Some kernel, Some initrd) =>
      r ← try (launch_vm working_dirs mount_names interceptors kernel initrd);
      match r with
      | inr parts =>
          receiver ← gets (λ o, e_safeguard_receiver (o_env o));
          modify (on_env (set_receiver false));;
          modify (set_state (Active
            (mkSession interceptors working_dirs mount_names undo_dirs (sp_vm_mode payload) SafeguardConfig_default ∅
               (Some payload) (Some parts) first_id 1000000 watching (Some recent) receiver)));;
          mret ("running", "virtiofsd")
      | inl error =>
          send (launch_failed error);;
          modify (set_state (Active host_session));;
          mret ("unavailable", "none")
      end
  | _ =>
      send (not_configured cli);;
      modify (set_state (Active host_session));;
      mret ("unavailable", "none")
  end.

Definition payload_dirs (cli : CliArgs) (payload : SessionStartPayload) : list path :=
  match sp_working_directories payload with
  | [] => ca_working_dirs cli
  | dirs => (λ d, components (wdc_path d)) <$> dirs
  end.

Definition do_session_start (payload : SessionStartPayload) : AgentM json :=
  st ← gets o_state;
  match st with
  | Active _ => throw SessionAlreadyActive
  | Idle =>
      cli ← gets (λ o, e_cli_args (o_env o));
      let working_dirs := payload_dirs cli payload in
      check_dirs_exist working_dirs;;
      let mount_names := generate_mount_names working_dirs in
      undo_dir ← lift (ok_or (ca_undo_dir cli) (AeIo (mkIoError InvalidInput None)));
      ns ← gets o_tree;
      for_each (λ dir, lift (check_paths_overlap ns dir undo_dir)) working_dirs;;
      let images := resolve_guest_images cli ns in
      let vm_available := bool_decide (is_Some images.1) && bool_decide (is_Some images.2) in
      (if vm_available then modify (on_env (set_receiver true)) else mret ());;
      started ← start_dirs vm_available undo_dir working_dirs;
      '(vm_status, backend) ← finish_start payload working_dirs mount_names images started;
      points ← lift (mount_points 0 working_dirs mount_names);
      mret (JObject [("status", JString "ok"); ("vm_status", JString vm_status); ("backend", JString backend);
                     ("mount_points", JArray points)])
  end.

(** ** Session stop, reset and status *)

Definition stored (s : Session) (store : gmap path undo_dir) : gmap path undo_dir :=
  foldr (λ '(p, (ud, _)) store, <[p := ud]> store) store (zip (s_undo_dirs s) (s_interceptors s)).

(** Dropping a responder answers its waiter with a refusal. *)
Definition refused (pending : gmap string Z) : list (Z * SafeguardDecision) :=
  (λ kv, (kv.2, Deny)) <$> map_to_list pending.

Definition do_session_stop : AgentM json :=
  s ← active_session;
  (match s_vm s with
   | Some vm => ignore (agent_host_call (λ ns, remove_dir_all h ns (vp_socket_dir vm)))
   | None => mret ()
   end);;
  modify (set_state Idle);;
  modify (on_env (λ e, set_store (stored s (e_undo_store e)) (add_decisions (refused (s_pending_safeguards s)) e)));;
  mret (JObject []).

Definition do_session_reset : AgentM json :=
  s ← active_session;
  do_session_stop;;
  match s_last_start_payload s with
  | Some p => do_session_start p
  | None => throw SessionNotActive
  end.

Definition do_session_status : AgentM json :=
  st ← gets o_state;
  match st with
  | Idle => mret (JObject [("state", JString "idle")])
  | Active s =>
      mret (JObject
        [("state", JString "active"); ("vm_mode", JString (s_vm_mode s));
         ("vm_status", JString (match s_vm s with Some _ => "running" | None => "unavailable" end));
         ("working_directories",
           JArray (imap (λ i d, JObject [("index", JNumber (Z.of_nat i)); ("path", JString (path_string d))])
                     (s_working_dirs s)));
         ("undo_steps",
           JArray ((λ i, JNumber (Z.of_nat (length (completed_steps_ (inner i.2))))) <$> s_interceptors s))])
  end.

Definition require_active : AgentM unit := _ ← active_session; mret ().

(** ** The control channel of the session *)

(** A call of the handler, which works on the first interceptor. *)
Definition on_handler {A} (m : stm (handler world) CodeAgentError A) : stm Orchestrator CodeAgentError A := λ o,
  match o_state o, world_of 0 o with
  | Active s, Some w =>
      match s_vm s with
      | Some vm =>
          let hd := vp_handler vm in
          let '(r, hd') :=
            m (mkHandler (hd_state hd) w (hd_in_flight hd) (o_now o) (hd_events hd) (hd_tasks hd)) in
          let left := mkHandler (hd_state hd') () (hd_in_flight hd') (hd_now hd') (hd_events hd') (hd_tasks hd') in
          let vm' := mkVmParts (vp_qemu_pid vm) (vp_control_lines vm) (vp_writer_open vm) left (vp_socket_dir vm) in
          (r, on_session (set_vm (Some vm')) (put_world 0 (hd_steps hd') o))
      | None => (Panic, o)
      end
  | _, _ => (Panic, o)
  end.

(** The event bridge takes what the handler has sent. *)
Definition bridge_events (o : Orchestrator) : Orchestrator :=
  match o_state o with
  | Active s =>
      match s_vm s with
      | Some vm =>
          let hd := vp_handler vm in
          let '(waiter, events) := run_event_bridge (hd_events hd) (e_waiter (o_env o)) in
          let left := mkHandler (hd_state hd) () (hd_in_flight hd) (hd_now hd) [] (hd_tasks hd) in
          let vm' := mkVmParts (vp_qemu_pid vm) (vp_control_lines vm) (vp_writer_open vm) left (vp_socket_dir vm) in
          on_env (send_events events ∘ set_waiter waiter) (on_session (set_vm (Some vm')) o)
      | None => o
      end
  | Idle => o
  end.

(** The sender of the control writer. *)
Definition send_line {E} (closed : E) (line : string) : stm Orchestrator E unit := λ o,
  match o_state o with
  | Active s =>
      match s_vm s with
      | Some vm =>
          if vp_writer_open vm then
            let vm' := mkVmParts (vp_qemu_pid vm) (vp_control_lines vm ++ [line]) true (vp_handler vm) (vp_socket_dir vm) in
            (Ok (), on_session (set_vm (Some vm')) o)
          else (Err closed, o)
      | None => (Err closed, o)
      end
  | Idle => (Err closed, o)
  end.

Context `{SerdeJson}.
#[local] Instance session_steps : StepManager world := StepManager_UndoInterceptor h fault.

(** One line from the guest: the loop body of [spawn_control_reader]. *)
Definition control_line (line : string) : stm Orchestrator CodeAgentError unit :=
  match parse_vm_message line with
  | Ok msg => on_handler (handle_vm_message (x_display_undo x) msg)
  | Err error => send (ErrorEvent "control_channel_parse_error" (control_error_display error))
  | Panic => panic
  end.

Definition run_control_reader (lines : list string) : stm Orchestrator CodeAgentError unit :=
  for_each control_line lines;;
  send (ErrorEvent "control_channel_closed" "VM control channel disconnected").

(** A task of the handler runs. *)
Definition run_task (i : nat) (by_timer : bool) : stm Orchestrator CodeAgentError unit :=
  on_handler (resume_at (x_display_undo x) QuiescenceConfig_default i by_timer).

(** ** Safeguards *)

(** The task that consumes what the bridge has sent: [waiter] is blocked until
    the answer.  Replacing a responder drops the old one. *)
Definition safeguard_received {E} (event : SafeguardEvent) (waiter : Z) : stm Orchestrator E unit :=
  let safeguard_id := pretty (se_safeguard_id event) in
  let kind := x_debug_kind x (se_kind event) in
  send (SafeguardTriggeredEvent (se_step_id event) safeguard_id kind (se_sample_paths event)
          ("Safeguard triggered: " +:+ kind +:+ " (step " +:+ pretty (se_step_id event) +:+ ")"));;
  st ← gets o_state;
  match st with
  | Active s =>
      modify (on_session (set_pending (<[safeguard_id := waiter]> (s_pending_safeguards s))));;
      match s_pending_safeguards s !! safeguard_id with
      | Some old => modify (on_env (add_decisions [(old, Deny)]))
      | None => mret ()
      end
  | Idle => modify (on_env (add_decisions [(waiter, Deny)]))
  end.
End life.
