(* ===== verification/SearchTools.v ===== *)
(** * The search tools

    Models [glob] and [grep] of [crates/sandbox/src/orchestrator.rs].  Matching
    itself is the work of the crates [glob], [regex] and [walkdir]
    ([SearchLib]). *)

From Stdlib Require Import Ascii.
From stdpp Require Import base gmap strings list pretty sorting.
From S2P Require Import Prelude HostFs Common UndoLog StdioProtocol McpProtocol PathValidation FsWatcher Orchestrator.
#[local] Open Scope Z_scope.

(** Entries that the crates report as errors are [None]; a failure to compile a
    pattern is its text.  [sl_walk] gives each entry with whether it is a file. *)
Record SearchLib := mkSearchLib {
  sl_glob : tree → string → string + list (option path);
  sl_pattern : string → string + (string → bool);
  sl_regex : string → bool → string + (string → bool);
  sl_walk : tree → path → list (option (path * bool));
}.

(** [Path::join] as text. *)
Definition join_text (base : path) (s : string) : string :=
  if is_absolute s then s else join_relative (path_string base) s.
(** A relative path as text. *)
Definition relative_text (p : path) : string := join_with slash p.

Definition newline_char : ascii := ascii_of_nat 10.
Definition newlines (n : nat) : string := Nat.iter n (String newline_char) EmptyString.

(** [Vec::join] with a line break. *)
Fixpoint join_lines (l : list string) : string :=
  match l with
  | [] => EmptyString
  | [s] => s
  | s :: l' => s +:+ newlines 1 +:+ join_lines l'
  end.

Section search.
Context (lib : SearchLib) (ns : tree).

(** ** glob *)

Definition glob_entry (search_dir : path) (entry : option path) : option (string * Z) :=
  p ← entry;
  n ← match metadata ns p with Ok n => Some n | _ => None end;
  relative ← strip_prefix search_dir p;
  Some (forward_slashes (relative_text relative), m_mtime (node_meta n)).

Definition glob_dir (pattern : string) (search_dir : path) : outcome McpError (list (string * Z)) :=
  match sl_glob lib ns (forward_slashes (join_text search_dir pattern)) with
  | inl e => Err (InvalidParams ("Invalid glob pattern: " +:+ e))
  | inr entries => Ok (omap (glob_entry search_dir) entries)
  end.

Fixpoint glob_dirs (pattern : string) (search_dirs : list path) : outcome McpError (list (string * Z)) :=
  match search_dirs with
  | [] => Ok []
  | dir :: rest =>
      entries ← glob_dir pattern dir;
      more ← glob_dirs pattern rest;
      Ok (entries ++ more)
  end.

Definition newest_entry_first (a b : string * Z) : bool := b.2 <=? a.2.

Definition truncated_note (limit total : nat) : string :=
  newlines 2 +:+ "[Truncated: showing " +:+ pretty limit +:+ " of " +:+ pretty total +:+ " matches]".

Definition glob (args : GlobArgs) (search_dirs : list path) : outcome McpError json :=
  entries ← glob_dirs (ga_pattern args) search_dirs;
  let entries := sort_by newest_entry_first entries in
  let limit := default 200%nat (ga_limit args) in
  let total := length entries in
  let output := join_lines (fst <$> take limit entries) in
  Ok (JString (if (limit <? total)%nat then output +:+ truncated_note limit total else output)).

(** ** grep *)

(** [str::lines]: a carriage return goes with the line break behind it, and
    there is no line after the last break. *)
Fixpoint strip_cr (s : string) : string :=
  match s with
  | EmptyString => EmptyString
  | String c EmptyString => if Ascii.eqb c (ascii_of_nat 13) then EmptyString else s
  | String c s' => String c (strip_cr s')
  end.
Fixpoint lines_of (segments : list string) : list string :=
  match segments with
  | [] => []
  | [last] => if decide (last = EmptyString) then [] else [last]
  | line :: rest => strip_cr line :: lines_of rest
  end.
Definition str_lines (s : string) : list string := lines_of (split_on newline_char s).

(** The lines to show, as half-open ranges, the last one first. *)
Definition push_range (context count : Z) (ranges : list (Z * Z)) (line_idx : Z) : list (Z * Z) :=
  let start := Z.max 0 (line_idx - context) in
  let end_ := Z.min (line_idx + context + 1) count in
  match ranges with
  | (s, last_end) :: rest => if start <=? last_end then (s, end_) :: rest else (start, end_) :: ranges
  | [] => [(start, end_)]
  end.

(** [line_idx + context + 1] is computed in 64 bits. *)
Definition grep_ranges (context count : Z) (matching_lines : list Z) : outcome McpError (list (Z * Z)) :=
  if bool_decide (Forall (λ line_idx, line_idx + context + 1 < 2 ^ 64) matching_lines)
  then Ok (reverse (foldl (push_range context count) [] matching_lines))
  else Panic.

Definition show_line (start : Z) (i : nat) (line : string) : string :=
  newlines 1 +:+ pretty (start + Z.of_nat i + 1) +:+ ":" +:+ line.

(** [lines[start..end]] panics when it is not a range of the lines. *)
Definition show_range (lines : list string) (index : nat) (range : Z * Z) : outcome McpError string :=
  let '(start, end_) := range in
  if bool_decide (0 ≤ start ≤ end_ ∧ end_ ≤ Z.of_nat (length lines)) then
    let shown := take (Z.to_nat (end_ - start)) (drop (Z.to_nat start) lines) in
    Ok ((match index with O => EmptyString | _ => newlines 1 +:+ "--" end)
        +:+ foldr (λ a b, a +:+ b) EmptyString (imap (show_line start) shown))
  else Panic.

Fixpoint show_ranges (lines : list string) (index : nat) (ranges : list (Z * Z)) : outcome McpError string :=
  match ranges with
  | [] => Ok EmptyString
  | r :: rest => a ← show_range lines index r; b ← show_ranges lines (S index) rest; Ok (a +:+ b)
  end.

Definition matching_lines (is_match : string → bool) (lines : list string) : list Z :=
  omap id (imap (λ i line, if is_match line then Some (Z.of_nat i) else None) lines).

(** What one file adds to the output. *)
Definition grep_file (output_mode : string) (context : Z) (is_match : string → bool) (output : string)
    (file : path * string) : outcome McpError string :=
  let '(file_path, relative) := file in
  match read_to_string ns file_path with
  | Ok content =>
      let lines := str_lines (string_of_bytes content) in
      let matching := matching_lines is_match lines in
      let separated n := if decide (output = EmptyString) then EmptyString else output +:+ newlines n in
      match matching with
      | [] => Ok output
      | _ =>
          if decide (output_mode = "files_with_matches") then Ok (separated 1%nat +:+ relative)
          else if decide (output_mode = "count") then
            Ok (separated 1%nat +:+ relative +:+ ":" +:+ pretty (length matching))
          else
            ranges ← grep_ranges context (Z.of_nat (length lines)) matching;
            text ← show_ranges lines 0 ranges;
            Ok (separated 2%nat +:+ relative +:+ text)
      end
  | _ => Ok output
  end.

Fixpoint grep_files (output_mode : string) (context : Z) (is_match : string → bool) (output : string)
    (files : list (path * string)) : outcome McpError string :=
  match files with
  | [] => Ok output
  | f :: rest =>
      output' ← grep_file output_mode context is_match output f;
      grep_files output_mode context is_match output' rest
  end.

Definition is_file (p : path) : bool := match metadata ns p with Ok (File _ _) => true | _ => false end.

(** [file_name().unwrap_or(..)] of a path that is searched itself. *)
Definition display_name (p : path) : string :=
  forward_slashes (default (path_string p) (file_name p)).

Definition entry_relative (search_path p : path) : string :=
  forward_slashes (match strip_prefix search_path p with Some r => relative_text r | None => path_string p end).

Definition included (include_glob : option (string → bool)) (search_path p : path) : bool :=
  match include_glob with
  | Some pat => pat (entry_relative search_path p) || pat (default EmptyString (file_name p))
  | None => true
  end.

Definition files_to_search (include_glob : option (string → bool)) (search_path : path) : list (path * string) :=
  if is_file search_path then [(search_path, display_name search_path)]
  else omap (λ e, '(p, file) ← e;
               if (file : bool) && included include_glob search_path p
               then Some (p, entry_relative search_path p) else None) (sl_walk lib ns search_path).

Definition grep (args : GrepArgs) (search_roots : list path) : outcome McpError json :=
  is_match ← match sl_regex lib (gr_pattern args) (gr_case_insensitive args) with
             | inr r => Ok r
             | inl e => Err (InvalidParams ("Invalid regex pattern: " +:+ e))
             end;
  include_glob ← match gr_include args with
                 | Some p => match sl_pattern lib p with
                             | inr g => Ok (Some g)
                             | inl e => Err (InvalidParams ("Invalid include pattern: " +:+ e))
                             end
                 | None => Ok None
                 end;
  let context := default 0 (gr_context_lines args) in
  output ← grep_files (gr_output_mode args) context is_match EmptyString
             (search_roots ≫= files_to_search include_glob);
  Ok (JString output).
End search.

(** ** The lines shown *)

Section ranges.
Context (context count : Z) (Hc : 0 ≤ context).

Definition in_ranges (i : Z) (ranges : list (Z * Z)) : Prop := ∃ s e, (s, e) ∈ ranges ∧ s ≤ i < e.
Definition near (i : Z) (ms : list Z) : Prop := ∃ m, m ∈ ms ∧ Z.abs (i - m) ≤ context.

(** The ranges of the matches so far, last one first. *)
Record ranges_inv (ms : list Z) (ranges : list (Z * Z)) : Prop := {
  ri_apart : StronglySorted (λ r1 r2 : Z * Z, r2.2 < r1.1) ranges;
  ri_bounds : Forall (λ r : Z * Z, 0 ≤ r.1 < r.2 ∧ r.2 ≤ count) ranges;
  ri_covers i : in_ranges i ranges ↔ 0 ≤ i < count ∧ near i ms;
  ri_last m : last ms = Some m →
    ∃ s rest, ranges = (s, Z.min (m + context + 1) count) :: rest ∧ s ≤ Z.max 0 (m - context);
}.

Lemma in_ranges_cons i s e rs : in_ranges i ((s, e) :: rs) ↔ s ≤ i < e ∨ in_ranges i rs.
Proof.
  unfold in_ranges. setoid_rewrite elem_of_cons. split.
  - intros (s' & e' & [[= -> ->]|Hin] & Hi); [by left | right; eauto].
  - intros [Hi|(s' & e' & Hin & Hi)]; [exists s, e | exists s', e']; auto.
Qed.

Lemma near_snoc i ms x : near i (ms ++ [x]) ↔ near i ms ∨ Z.abs (i - x) ≤ context.
Proof.
  unfold near. setoid_rewrite elem_of_app. setoid_rewrite list_elem_of_singleton. split.
  - intros (m & [Hm| ->] & Hi); [left; eauto | by right].
  - intros [(m & Hm & Hi)|Hi]; [exists m | exists x]; auto.
Qed.

Lemma push_first x : 0 ≤ x < count → ranges_inv [x] (push_range context count [] x).
Proof.
  intros Hx. cbn. split.
  - by repeat constructor.
  - constructor; [cbn; lia | done].
  - intros i. rewrite in_ranges_cons. unfold in_ranges, near. split.
    + intros [?|(? & ? & []%elem_of_nil & _)]. split; [lia|]. exists x. split; [by left | lia].
    + intros (? & m & ->%list_elem_of_singleton & ?). left. lia.
  - intros m [= <-]. eexists _, _. split; [done | lia].
Qed.

Lemma push_next ms m x ranges :
  last ms = Some m → m < x < count → 0 ≤ m → ranges_inv ms ranges →
  ranges_inv (ms ++ [x]) (push_range context count ranges x).
Proof.
  intros Hm Hx Hm0 [Hap Hb Hcov Hl]. destruct (Hl m Hm) as (s & rest & -> & Hs).
  apply Forall_cons_1 in Hb as [Hb Hbs]. cbn in Hb.
  assert (∀ i, s ≤ i < Z.min (m + context + 1) count ∨ in_ranges i rest ↔ 0 ≤ i < count ∧ near i ms) as Hcov'.
  { intros i. by rewrite <- Hcov, in_ranges_cons. }
  unfold push_range. destruct (Z.leb_spec (Z.max 0 (x - context)) (Z.min (m + context + 1) count)) as [Hle|Hgt].
  - split.
    + inversion_clear Hap. by constructor.
    + constructor; [cbn; lia | done].
    + intros i. rewrite in_ranges_cons, near_snoc. specialize (Hcov' i).
      split.
      * intros [Hi|Hr]; [|by destruct Hcov' as [Hc' _]; destruct Hc'; auto].
        destruct (decide (i < Z.min (m + context + 1) count)) as [Hlt|Hge]; [|split; [lia|right; lia]].
        destruct Hcov' as [Hc' _]. destruct Hc'; [left; lia | auto].
      * intros (Hi & [Hn|Hn]); [|left; lia]. destruct Hcov' as [_ Hc']. destruct Hc'; [done | left; lia | by right].
    + intros m'. rewrite last_snoc. intros [= <-]. eexists _, _. split; [done | lia].
  - split.
    + constructor; [done|]. constructor; [cbn; lia|]. inversion_clear Hap as [|? ? _ Hf]. cbn in Hf.
      eapply Forall_impl; [exact Hf|]. cbn. intros r Hr. lia.
    + constructor; [cbn; lia|]. by constructor.
    + intros i. rewrite !in_ranges_cons, near_snoc. specialize (Hcov' i).
      split.
      * intros [Hi|Hr]; [split; [lia|right; lia]|]. destruct Hcov' as [Hc' _]. destruct Hc'; auto.
      * intros (Hi & [Hn|Hn]); [|left; lia]. right. by apply Hcov'.
    + intros m'. rewrite last_snoc. intros [= <-]. eexists _, _. split; [done | lia].
Qed.

Lemma push_all ms :
  StronglySorted Z.lt ms → Forall (λ m, 0 ≤ m < count) ms →
  ranges_inv ms (foldl (push_range context count) [] ms).
Proof.
  induction ms as [|x ms IH] using rev_ind; intros Hsort Hall.
  - cbn. split; [constructor | constructor | | done]. intros i. unfold in_ranges, near.
    split; [by intros (? & ? & []%elem_of_nil & _) | by intros (_ & ? & []%elem_of_nil & _)].
  - apply Forall_app in Hall as [Hall [Hx _]%Forall_cons_1]. rewrite foldl_app. cbn [foldl]. cbn in Hx.
    destruct (last ms) as [m|] eqn:Em.
    + apply push_next with m; [done | | |].
      * split; [|lia]. apply last_Some in Em as [ms' ->].
        apply (StronglySorted_app_1_elem_of _ (ms' ++ [m]) [x]); [done | | by left].
        apply elem_of_app. right. by left.
      * apply last_Some in Em as [ms' ->]. apply Forall_app in Hall as [_ [Hm _]%Forall_cons_1]. cbn in Hm. lia.
      * apply IH; [|done]. by apply StronglySorted_app_1_l in Hsort.
    + apply last_None in Em as ->. cbn. by apply push_first.
Qed.
End ranges.

(** The numbers of the matching lines, in order. *)
Lemma matching_lines_spec (is_match : string → bool) (lines : list string) :
  StronglySorted Z.lt (matching_lines is_match lines) ∧
  ∀ m, m ∈ matching_lines is_match lines ↔
       ∃ j line, m = Z.of_nat j ∧ lines !! j = Some line ∧ is_match line = true.
Proof.
  assert (∀ k, let l := omap id (imap (λ i line, if is_match line then Some (Z.of_nat (k + i)) else None) lines) in
    StronglySorted Z.lt l ∧
    ∀ m, m ∈ l ↔ ∃ j line, m = Z.of_nat (k + j) ∧ lines !! j = Some line ∧ is_match line = true) as Hgen.
  2: { destruct (Hgen 0%nat) as [H1 H2]. by split. }
  induction lines as [|line lines IH]; intros k.
  - cbn. split; [constructor|]. intros m. split; [by intros []%elem_of_nil | by intros (? & ? & _ & ? & _)].
  - destruct (IH (S k)) as [Hs Hm].
    assert (omap id (imap (λ i l, if is_match l then Some (Z.of_nat (k + i)) else None) (line :: lines))
      = (if is_match line then [Z.of_nat k] else [])
        ++ omap id (imap (λ i l, if is_match l then Some (Z.of_nat (S k + i)) else None) lines)) as ->.
    { rewrite imap_cons. cbn [omap list_omap]. rewrite Nat.add_0_r.
      assert (imap ((λ i l, if is_match l then Some (Z.of_nat (k + i)) else None) ∘ S) lines
        = imap (λ i l, if is_match l then Some (Z.of_nat (S k + i)) else None) lines) as ->
        by (apply imap_ext; intros i l _; cbn; by replace (k + S i)%nat with (S (k + i)) by lia).
      by destruct (is_match line). }
    set (l := omap id _) in *. split.
    + destruct (is_match line); [|done]. cbn. constructor; [done|]. apply Forall_forall. intros m.
      rewrite Hm. intros (j & _ & -> & _). lia.
    + intros m. rewrite elem_of_app, Hm. split.
      * intros [Hin|(j & l' & -> & ? & ?)]; [|exists (S j), l'; split; [lia | done]].
        destruct (is_match line) eqn:El; [|by apply elem_of_nil in Hin].
        apply list_elem_of_singleton in Hin as ->. exists 0%nat, line. split; [lia | done].
      * intros ([|j] & l' & -> & Hl & Hp); cbn in Hl.
        -- left. simplify_eq. rewrite Hp, Nat.add_0_r. by left.
        -- right. exists j, l'. split; [lia | done].
Qed.

(** Showing ranges of the lines succeeds. *)
Lemma show_ranges_ok lines index ranges :
  Forall (λ r : Z * Z, 0 ≤ r.1 < r.2 ∧ r.2 ≤ Z.of_nat (length lines)) ranges →
  ∃ text, show_ranges lines index ranges = Ok text.
Proof.
  intros Hb. revert index. induction Hb as [|[s e] ranges Hr _ IH]; intros index; [by eexists|].
  cbn [fst snd] in Hr. cbn [show_ranges]. unfold show_range. rewrite bool_decide_eq_true_2 by lia.
  destruct (IH (S index)) as [text Ht]. cbn. rewrite Ht. by eexists.
Qed.

(** [grep] with context, in a file of which it shows lines: the ranges it
    shows are inside the file, in order and apart, so that no line is shown
    twice; a line is in one of them exactly if it is within [context] lines of a
    matching line.  Nothing panics unless line numbers and context together
    exceed 64 bits. *)
Theorem grep_shows_context (is_match : string → bool) (context : Z) (lines : list string) :
  0 ≤ context → Z.of_nat (length lines) + context < 2 ^ 64 →
  ∃ ranges text,
    grep_ranges context (Z.of_nat (length lines)) (matching_lines is_match lines) = Ok ranges ∧
    show_ranges lines 0 ranges = Ok text ∧
    StronglySorted (λ r1 r2 : Z * Z, r1.2 < r2.1) ranges ∧
    ∀ i : nat, (∃ s e, (s, e) ∈ ranges ∧ s ≤ Z.of_nat i < e) ↔
      (i < length lines)%nat ∧
      ∃ j line, lines !! j = Some line ∧ is_match line = true ∧ Z.abs (Z.of_nat i - Z.of_nat j) ≤ context.
Proof.
  intros Hc Hlen. destruct (matching_lines_spec is_match lines) as [Hs Hm].
  assert (Forall (λ m, 0 ≤ m < Z.of_nat (length lines)) (matching_lines is_match lines)) as Hall.
  { apply Forall_forall. intros m. rewrite Hm.
    intros (j & line & -> & Hj%lookup_lt_Some & _). lia. }
  destruct (push_all context (Z.of_nat (length lines)) Hc _ Hs Hall) as [Hap Hb Hcov _].
  unfold grep_ranges. rewrite bool_decide_eq_true_2 by (eapply Forall_impl; [exact Hall|]; cbn; lia).
  set (rs := foldl _ _ _) in *.
  destruct (show_ranges_ok lines 0 (reverse rs)) as [text Ht]; [by apply Forall_reverse|].
  exists (reverse rs), text. split_and!; [done | done | |].
  - clear -Hap. induction Hap as [|r rs _ IH Hf]; [constructor|]. rewrite reverse_cons.
    apply StronglySorted_app. split_and!; [|done|by repeat constructor].
    intros r1 r2 Hr1 ->%list_elem_of_singleton. rewrite elem_of_reverse in Hr1. rewrite Forall_forall in Hf. by apply Hf.
  - intros i. specialize (Hcov (Z.of_nat i)). unfold in_ranges in Hcov. setoid_rewrite elem_of_reverse.
    rewrite Hcov. unfold near. split.
    + intros (Hi & m & (j & line & -> & Hj & Hp)%Hm & Hn). split; [lia|]. by exists j, line.
    + intros (Hi & j & line & Hj & Hp & Hn). split; [lia|]. exists (Z.of_nat j). split; [|done]. apply Hm. by exists j, line.
Qed.

Lemma grep_shows_context_witness :
  ∃ ranges text, grep_ranges 1 5 (matching_lines (String.eqb "x") ["a"; "x"; "b"; "x"; "c"]) = Ok ranges ∧
    show_ranges ["a"; "x"; "b"; "x"; "c"] 0 ranges = Ok text.
Proof.
  destruct (grep_shows_context (String.eqb "x") 1 ["a"; "x"; "b"; "x"; "c"]) as (ranges & text & H1 & H2 & _);
    [lia | by cbn |].
  exists ranges, text. split; [exact H1 | exact H2].
Defined.

Example context_overflow : grep_ranges (2 ^ 64 - 1) 1 [0] = Panic.
Proof. by vm_compute. Qed.
