(* ===== verification/SessionRequests.v ===== *)
(** * Requests to the orchestrator

    Models the two interfaces of [crates/sandbox/src/orchestrator.rs]: the
    requests of the STDIO API ([RequestHandler]) and the tools of the MCP server
    ([McpHandler]).  The Bash tool in a virtual machine is two halves, sending
    the command and reading the result; what the guest and the background tasks
    do in between is [await]. *)

From Stdlib Require Import Ascii.
From stdpp Require Import base gmap strings list fin_maps pretty.
From S2P Require Import Prelude HostFs Common WriteInterceptor UndoLog UndoInterceptor StdioProtocol McpProtocol ControlProtocol ControlHandler ControlUndo CommandWaiter PathValidation Stdio Mcp RecentWrites Text Classifier P9Ops FsWatcher Qemu Orchestrator SessionLife SearchTools.
#[local] Open Scope Z_scope.

(** ** Text *)

(** The characters of UTF-8 text. *)
Fixpoint utf8_chars (bs : list Z) : list Z :=
  match bs with
  | [] => []
  | b0 :: r0 =>
      if b0 <? 128 then b0 :: utf8_chars r0 else
      match r0 with
      | [] => []
      | b1 :: r1 =>
          let c1 := Z.land b1 63 in
          if b0 <? 224 then Z.lor (Z.shiftl (Z.land b0 31) 6) c1 :: utf8_chars r1 else
          match r1 with
          | [] => []
          | b2 :: r2 =>
              let c2 := Z.lor (Z.shiftl c1 6) (Z.land b2 63) in
              if b0 <? 240 then Z.lor (Z.shiftl (Z.land b0 15) 12) c2 :: utf8_chars r2 else
              match r2 with
              | [] => []
              | b3 :: r3 =>
                  Z.lor (Z.shiftl (Z.land b0 7) 18) (Z.lor (Z.shiftl c2 6) (Z.land b3 63)) :: utf8_chars r3
              end
          end
      end
  end.
Definition str_chars (s : string) : text := utf8_chars (bytes_of_string s).

Example str_chars_sample : str_chars "aé€" = [97; 233; 8364].
Proof. by vm_compute. Qed.

Definition classification_name (c : CommandClassification) : string :=
  match c with ReadOnly => "read_only" | Write => "write" | Destructive => "destructive" end.

Definition quote_char : ascii := ascii_of_nat 39.
Definition double_quote_char : ascii := ascii_of_nat 34.

Fixpoint str_strip_prefix (prefix s : string) : option string :=
  match prefix, s with
  | EmptyString, _ => Some s
  | String c p', String d s' => if Ascii.eqb c d then str_strip_prefix p' s' else None
  | String _ _, EmptyString => None
  end.

Definition strip_cwd_prefix (command cwd : string) : string :=
  let prefix quote := "cd " +:+ String quote cwd +:+ String quote " && " in
  match str_strip_prefix (prefix quote_char) command with
  | Some rest => rest
  | None => default command (str_strip_prefix (prefix double_quote_char) command)
  end.

(** Standard output, then standard error on a new line. *)
Definition combined_output (stdout stderr : string) : string :=
  if decide (stderr = EmptyString) then stdout
  else (if decide (stdout = EmptyString) then EmptyString else stdout +:+ newlines 1) +:+ stderr.

Definition agent_error_to_stdio (e : AgentError) : StdioError := SeInvalidField "session" (FromAgent e).

Abbreviation StdioM := (stm Orchestrator StdioError).

(** What a command on the host leaves: its exit code unless a signal ended it,
    and its output as [from_utf8_lossy] reads it. *)
Record ShellOutput := mkShellOutput {
  so_code : option Z;
  so_stdout : string;
  so_stderr : string;
}.

Section requests.
Context `{ThirdParty} `{JsonLen} `{SerdeJson} (h : host) (fault : undo_io → option io_error).
Context (x : Outside) (fc : FileWatcherConfig) (lib : SearchLib) (cc : CommandClassifier).
Context (shell : string → path → tree → outcome io_error ShellOutput * tree).
Context (await : Z → Z → Orchestrator → option CommandResult * Orchestrator).

Abbreviation agent m := (with_error agent_error_to_stdio m).

(** ** STDIO API: undo *)

Definition rollback_value (r : RollbackResult) : json :=
  JObject [("steps_rolled_back", JNumber (Z.of_nat (rr_steps_rolled_back r)));
           ("barriers_crossed", JNumber (Z.of_nat (length (rr_barriers_crossed r))))].

Definition undo_rollback (payload : UndoRollbackPayload) : StdioM json :=
  i ← agent (resolve_interceptor (up_directory payload));
  result ← with_suppressed_watcher
             (with_error (agent_error_to_stdio ∘ AeUndo)
                (on_interceptor i (rollback h fault (Z.to_nat (up_count payload)) (up_force payload))));
  mret (rollback_value result).

Definition undo_history (payload : UndoHistoryPayload) : StdioM json :=
  i ← agent (resolve_interceptor (uh_directory payload));
  steps ← with_error (agent_error_to_stdio ∘ AeUndo) (on_interceptor i completed_steps);
  mret (JObject [("steps", JArray (JNumber <$> steps))]).

Definition undo_configure (_payload : UndoConfigurePayload) : StdioM json :=
  agent require_active;; mret (JObject []).

Definition undo_discard : StdioM json :=
  i ← agent (resolve_interceptor None);
  with_error (agent_error_to_stdio ∘ AeUndo) (on_interceptor i (discard fault));;
  mret (JObject []).

(** ** STDIO API: the agent *)

(** [fetch_add] on the command counter. *)
Definition next_command_id (s : Session) : stm Orchestrator AgentError Z :=
  modify (on_session (λ s, set_next_command_id (as_u64 (s_next_command_id s + 1)) s));;
  mret (s_next_command_id s).

Definition default_cwd (s : Session) : AgentM string :=
  name ← lift (index_or_panic (s_mount_names s) 0); mret ("/mnt/working/" +:+ name).

Definition agent_execute (payload : AgentExecutePayload) : StdioM json :=
  agent require_active;;
  s ← agent active_session;
  match s_vm s with
  | None => throw (agent_error_to_stdio QemuUnavailable)
  | Some _ =>
      command_id ← agent (next_command_id s);
      cwd ← agent (match ae_cwd payload with Some c => mret c | None => default_cwd s end);
      line ← lift match x_serialize x (HostExec command_id (ae_command payload) (ae_env payload) (Some cwd)) with
                  | inr l => Ok l
                  | inl _ => Err (agent_error_to_stdio (AeIo (mkIoError KOther None)))
                  end;
      send_line (agent_error_to_stdio (ControlChannelFailed "control channel closed")) line;;
      mret (JObject [("command_id", JNumber command_id); ("status", JString "started")])
  end.

Definition agent_prompt (_payload : AgentPromptPayload) : StdioM json :=
  agent require_active;; throw (agent_error_to_stdio (NotImplemented "agent.prompt")).

(** ** STDIO API: files *)

Definition entry_type (ns : tree) (p : path) : string :=
  match symlink_metadata ns p with
  | Ok (Dir _) => "directory"
  | Ok (Symlink _ _) => "symlink"
  | _ => "file"
  end.

Definition stdio_io {A} (r : io A) : StdioM A := lift (map_err SeIo r).

Definition fs_list (payload : FsListPayload) : StdioM json :=
  working_dir ← agent primary_working_dir;
  let target := path_join working_dir (fl_path payload) in
  ns ← gets o_tree;
  names ← stdio_io (read_dir h ns target);
  mret (JObject
    [("working_directory", JString (join_text working_dir (fl_path payload)));
     ("entries", JArray ((λ name, JObject [("name", JString name); ("type", JString (entry_type ns (target ++ [name])))])
                           <$> names))]).

Definition fs_read (payload : FsReadPayload) : StdioM json :=
  working_dir ← agent primary_working_dir;
  ns ← gets o_tree;
  content ← stdio_io (read_to_string ns (path_join working_dir (fr_path payload)));
  mret (JObject [("content", JString (string_of_bytes content))]).

Definition fs_status : StdioM json :=
  agent require_active;;
  s ← agent active_session;
  mret match s_vm s with
       | Some vm => JObject [("backend", JString "virtiofsd"); ("vm_status", JString "running");
                             ("vm_pid", json_opt JNumber (vp_qemu_pid vm))]
       | None => JObject [("backend", JString "none"); ("vm_status", JString "unavailable")]
       end.

(** ** STDIO API: safeguards *)

Definition configured (payload : SafeguardConfigurePayload) (c : SafeguardConfig) : SafeguardConfig :=
  mkSafeguardConfig
    (match sc_delete_threshold payload with Some t => Some t | None => delete_threshold c end)
    (match sc_overwrite_file_size_threshold payload with Some t => Some t | None => overwrite_file_size_threshold c end)
    (sc_rename_over_existing payload).

Definition safeguard_configure (payload : SafeguardConfigurePayload) : StdioM json :=
  s ← agent active_session;
  modify (on_session (set_safeguard_config (configured payload (s_safeguard_config s))));;
  mret (JObject []).

Definition decision_of (action : string) : SafeguardDecision :=
  if decide (action = "allow") then Allow else Deny.

Definition safeguard_confirm (payload : SafeguardConfirmPayload) : StdioM json :=
  s ← agent active_session;
  let id := sf_safeguard_id payload in
  match s_pending_safeguards s !! id with
  | Some waiter =>
      modify (on_session (set_pending (delete id (s_pending_safeguards s))));;
      modify (on_env (add_decisions [(waiter, decision_of (sf_action payload))]));;
      mret (JObject [])
  | None => throw (SeInvalidField "safeguard_id" (Text ("no pending safeguard with id '" +:+ id +:+ "'")))
  end.

#[export] Instance RequestHandler_Orchestrator : RequestHandler Orchestrator := {
  rh_session_start payload := agent (do_session_start h fault x fc payload);
  rh_session_stop := agent (do_session_stop h);
  rh_session_reset := agent (do_session_reset h fault x fc);
  rh_session_status := agent do_session_status;
  rh_undo_rollback := undo_rollback;
  rh_undo_history := undo_history;
  rh_undo_configure := undo_configure;
  rh_undo_discard := undo_discard;
  rh_agent_execute := agent_execute;
  rh_agent_prompt := agent_prompt;
  rh_fs_list := fs_list;
  rh_fs_read := fs_read;
  rh_fs_status := fs_status;
  rh_safeguard_configure := safeguard_configure;
  rh_safeguard_confirm := safeguard_confirm;
}.

(** ** MCP: Bash *)

Definition mcp_agent {A} (m : AgentM A) : OrchM A := with_error agent_error_to_mcp m.

Definition host_bash (command : string) (command_id : Z) (class : string) : OrchM json :=
  output ← execute_host_bash shell command;
  mret (JObject [("command_id", JNumber command_id);
                 ("exit_code", JNumber (default (-1) (so_code output)));
                 ("output", JString (combined_output (so_stdout output) (so_stderr output)));
                 ("classification", JString class); ("host_only", JBool true)]).

#[local] Instance request_steps : StepManager world := StepManager_UndoInterceptor h fault.

(** Up to the wait: the answer of a command on the host, or the identifier of
    the command that was sent. *)
Definition bash_start (args : BashArgs) : OrchM (json + Z * string) :=
  mcp_agent require_active;;
  let command := str_chars (ba_command args) in
  match sanitize command with
  | SanRejected reason => throw (InvalidParams ("command rejected: " +:+ reason))
  | SanOk =>
      class ← lift (map_err (λ _, InternalError (Text "")) (classify_command cc command));
      let class := classification_name class in
      s ← mcp_agent active_session;
      command_id ← mcp_agent (next_command_id s);
      cwd ← mcp_agent (default_cwd s);
      match s_vm s with
      | None => answer ← host_bash (ba_command args) command_id class; mret (inl answer)
      | Some _ =>
          modify (λ o, on_env (set_waiter (register command_id (e_waiter (o_env o)))) o);;
          msg ← with_cause FromUndo
                  (on_handler (send_exec (x_display_undo x) command_id (strip_cwd_prefix (ba_command args) cwd)
                                 None (Some cwd)));
          line ← lift match x_serialize x msg with
                      | inr l => Ok l
                      | inl e => Err (InternalError (Text ("failed to serialize exec message: " +:+ e)))
                      end;
          send_line (InternalError (Text "control channel closed")) line;;
          mret (inr (command_id, class))
      end
  end.

Definition timeout_ms (args : BashArgs) : Z := Z.min (default 120000 (ba_timeout args)) 600000.

Definition bash_answer (command_id : Z) (class : string) (result : option CommandResult) : outcome McpError json :=
  match result with
  | Some r =>
      let output := JString (combined_output (cr_stdout r) (cr_stderr r)) in
      Ok match cr_exit_code r with
         | Some exit_code =>
             JObject [("command_id", JNumber command_id); ("exit_code", JNumber exit_code); ("output", output);
                      ("classification", JString class)]
         | None =>
             JObject [("command_id", JNumber command_id); ("status", JString "timeout"); ("output", output);
                      ("classification", JString class)]
         end
  | None => Err (InternalError (Text "command was not registered"))
  end.

Definition bash (args : BashArgs) : OrchM json :=
  started ← bash_start args;
  match started with
  | inl answer => mret answer
  | inr (command_id, class) => λ o,
      let '(result, o') := await command_id (timeout_ms args) o in
      (bash_answer command_id class result, o')
  end.

(** ** MCP: search *)

Definition search_dirs (p : option string) : OrchM (list path) :=
  match p with
  | Some p => target ← mcp_agent (resolve_target_path p); mret [target]
  | None => s ← mcp_agent active_session; mret (s_working_dirs s)
  end.

Definition glob_tool (args : GlobArgs) : OrchM json :=
  dirs ← search_dirs (ga_path args); ns ← gets o_tree; lift (glob lib ns args dirs).
Definition grep_tool (args : GrepArgs) : OrchM json :=
  roots ← search_dirs (gr_path args); ns ← gets o_tree; lift (grep lib ns args roots).

#[export] Instance McpHandler_Orchestrator : McpHandler Orchestrator := {
  mh_bash := bash;
  mh_read_file args :=
    content ← read_file (rf_path args); mret (JObject [("content", JString (string_of_bytes content))]);
  mh_write_file args :=
    step_id ← write_file h fault (wf_path args) (wf_content args);
    mret (JObject [("written", JBool true); ("step_id", JNumber step_id)]);
  mh_edit_file args :=
    edit_file h fault (ef_path args) (ef_old_string args) (ef_new_string args) (ef_replace_all args);;
    mret (JString ("The file " +:+ ef_path args +:+ " has been updated successfully."));
  mh_glob := glob_tool;
  mh_grep := grep_tool;
  mh_undo args :=
    result ← mcp_undo h fault (Z.to_nat (ua_count args)) (ua_force args); mret (rollback_value result);
  mh_get_undo_history :=
    i ← mcp_agent (resolve_interceptor None);
    steps ← with_cause FromUndo (on_interceptor i completed_steps);
    mret (JObject [("steps", JArray (JNumber <$> steps))]);
  mh_get_session_status := mcp_agent do_session_status;
  mh_discard_undo_history := discard_undo_history fault;; mret (JObject []);
}.
End requests.
