(* ===== verification/ToolPaths.v ===== *)
(** * Where the tools of the MCP server work

    The path of a tool call goes through [validate_path_multi] in the router and
    through [resolve_target_path] in the orchestrator.  Both read the same text;
    this file relates the two. *)

From Stdlib Require Import Ascii.
From stdpp Require Import base gmap strings list.
From S2P Require Import Prelude HostFs HostFacts Common UndoLog UndoInterceptor UndoHooks UndoEvict UndoFacts UndoTheorems StdioProtocol McpProtocol ControlProtocol CommandWaiter PathValidation RecentWrites Text Classifier Stdio Mcp Orchestrator OrchestratorFacts OrchestratorTools SessionLife SearchTools SessionRequests.
#[local] Open Scope Z_scope.

(** [names] from [acc], with [..] taken lexically; [None] above the root. *)
Fixpoint lexical (acc : path) (names : path) : option path :=
  match names with
  | [] => Some acc
  | c :: rest =>
      if decide (c = "..") then match acc with [] => None | _ => lexical (removelast acc) rest end
      else lexical (acc ++ [c]) rest
  end.

Lemma lexical_app acc l1 l2 acc' : lexical acc l1 = Some acc' → lexical acc (l1 ++ l2) = lexical acc' l2.
Proof.
  revert acc. induction l1 as [|c l1 IH]; intros acc; cbn; [by intros [= ->]|].
  case_decide; [|apply IH]. destruct acc; [done | apply IH].
Qed.

Lemma lexical_plain acc names : Forall (λ c, c ≠ "..") names → lexical acc names = Some (acc ++ names).
Proof.
  intros Hall. revert acc. induction Hall as [|c names Hc _ IH]; intros acc; cbn; [by rewrite app_nil_r|].
  rewrite decide_False by done. by rewrite IH, <- app_assoc.
Qed.

(** ** The router *)

Lemma resolve_from_lexical abs acc parts :
  resolve_from (mkPathBuf abs acc) (omap component_of parts)
  = mkPathBuf abs <$> lexical acc (filter (λ c, c ≠ "" ∧ c ≠ ".") parts).
Proof.
  revert acc. induction parts as [|c parts IH]; intros acc; [done|].
  rewrite filter_cons. cbn [omap list_omap]. unfold component_of at 1.
  destruct (decide (c = "")) as [->|H1]; [rewrite (decide_False (P := _ ∧ _)) by (by intros [? _]); apply IH|].
  destruct (decide (c = ".")) as [->|H2]; [rewrite (decide_False (P := _ ∧ _)) by (by intros [_ ?]); apply IH|].
  rewrite (decide_True (P := _ ∧ _)) by done. cbn [lexical].
  destruct (decide (c = "..")) as [->|H3]; cbn [resolve_from].
  - unfold path_buf_pop. destruct acc as [|a acc]; [done|]. cbn [pb_names pb_absolute mbind option_bind]. apply IH.
  - cbn [path_buf_push pb_names pb_absolute]. apply IH.
Qed.

Lemma resolve_absolute s :
  is_absolute s = true → resolve_components s = mkPathBuf true <$> lexical [] (components s).
Proof.
  intros Ha. unfold resolve_components, path_components. rewrite Ha. cbn [app resolve_from].
  apply resolve_from_lexical.
Qed.

(** A directory name as the working directories have it. *)
Definition plain_dir (W : path) : Prop := W ≠ [] ∧ Forall plain_name W.

Lemma plain_names_kept l : Forall plain_name l → filter (λ c, c ≠ "" ∧ c ≠ ".") l = l.
Proof.
  intros Hl. induction Hl as [|c l (? & ? & _) _ IH]; [done|]. rewrite filter_cons_True by done. by rewrite IH.
Qed.

Lemma append_assoc (s1 s2 s3 : string) : (s1 +:+ s2) +:+ s3 = s1 +:+ s2 +:+ s3.
Proof.
  induction s1 as [|c s1 IH]; [done|].
  change (String c ((s1 +:+ s2) +:+ s3) = String c (s1 +:+ s2 +:+ s3)). by rewrite IH.
Qed.

Lemma split_join_app W s :
  plain_dir W → split_on slash (join_with slash W +:+ String slash s) = W ++ split_on slash s.
Proof.
  intros [Hne Hall]. destruct Hall as [|w W Hw Hall]; [done|]. clear Hne. revert w Hw.
  induction Hall as [|v W Hv Hall IH]; intros w Hw; destruct Hw as (_ & _ & _ & Hw).
  - by rewrite split_on_app.
  - change (join_with slash (w :: v :: W)) with (w +:+ String slash (join_with slash (v :: W))).
    rewrite append_assoc.
    change (String slash (join_with slash (v :: W)) +:+ String slash s)
      with (String slash (join_with slash (v :: W) +:+ String slash s)).
    rewrite split_on_app by done. by rewrite IH.
Qed.

Lemma ends_with_slash_cons c s : s ≠ "" → ends_with_slash (String c s) = ends_with_slash s.
Proof. by destruct s. Qed.

Lemma ends_with_slash_app s1 s2 : s2 ≠ "" → ends_with_slash (s1 +:+ s2) = ends_with_slash s2.
Proof.
  intros H2. induction s1 as [|c s1 IH]; [done|]. change (ends_with_slash (String c (s1 +:+ s2)) = ends_with_slash s2).
  rewrite ends_with_slash_cons; [done|]. by destruct s1.
Qed.

Lemma ends_with_slash_plain s : plain_name s → ends_with_slash s = false.
Proof.
  intros (Hne & _ & _ & Hl). unfold lacks in Hl. induction s as [|c s IH]; [done|]. cbn in Hl.
  apply andb_true_iff in Hl as [Hc Hl]. apply negb_true_iff in Hc. destruct s as [|d s]; [done|].
  rewrite ends_with_slash_cons by done. by apply IH.
Qed.

Lemma ends_with_slash_path W : plain_dir W → ends_with_slash (path_string W) = false.
Proof.
  intros [Hne Hall]. destruct Hall as [|w W Hw Hall]; [done|]. clear Hne. unfold path_string.
  assert (join_with slash (w :: W) ≠ "" ∧ ends_with_slash (join_with slash (w :: W)) = false) as [Hne He].
  { revert w Hw. induction Hall as [|v W Hv Hall IH]; intros w Hw.
    - split; [by destruct Hw | by apply ends_with_slash_plain].
    - destruct (IH v Hv) as [H1 H2].
      change (join_with slash (w :: v :: W)) with (w +:+ String slash (join_with slash (v :: W))).
      split; [by destruct w|]. by rewrite ends_with_slash_app, ends_with_slash_cons. }
  by rewrite ends_with_slash_cons.
Qed.

Lemma components_path_string W : plain_dir W → components (path_string W) = W.
Proof.
  intros [Hne Hall]. unfold components, path_string. cbn [split_on]. rewrite Ascii.eqb_refl.
  destruct W as [|w W]; [done|]. rewrite split_join by (eapply Forall_impl; [exact Hall|]; by intros ? (_ & _ & _ & ?)).
  rewrite filter_cons_False by (by intros [? _]). by apply plain_names_kept.
Qed.

(** The text of a path below [W]. *)
Lemma components_join W p :
  plain_dir W → components (join_relative (path_string W) p) = W ++ components p.
Proof.
  intros HW. unfold join_relative. rewrite decide_False by done. rewrite (ends_with_slash_path W HW).
  unfold components at 1, path_string.
  change (String slash (join_with slash W) +:+ String slash p)
    with (String slash (join_with slash W +:+ String slash p)).
  cbn [split_on]. rewrite Ascii.eqb_refl, (split_join_app W p HW).
  rewrite filter_cons_False by (by intros [? _]). rewrite filter_app. f_equal. apply plain_names_kept, HW.
Qed.

Lemma lexical_dir W : plain_dir W → lexical [] W = Some W.
Proof. intros [_ Hall]. apply lexical_plain. eapply Forall_impl; [exact Hall|]. by intros c (_ & _ & ? & _). Qed.

Lemma resolve_dir W : plain_dir W → resolve_components (path_string W) = Some (mkPathBuf true W).
Proof. intros HW. rewrite resolve_absolute by done. by rewrite components_path_string, lexical_dir. Qed.

(** ** The tree *)

(** Without links the host takes [..] as the router does. *)
Definition no_links (t : tree) : Prop := ∀ p n, t !! p = Some n → is_symlink_node n = false.

Lemma walk_lexical (b : nat) (t : tree) (follow : bool) (cur rest q q' : path) :
  no_links t → walk b t follow cur rest = Ok q → lexical cur rest = Some q' → q = q'.
Proof.
  intros Ht. revert cur. induction rest as [|c rest IH]; intros cur.
  { rewrite walk_nil. by intros [= ->] [= ->]. }
  rewrite walk_cons. cbn [lexical]. case_decide as Hc.
  - destruct cur as [|a cur]; [done|]. apply IH.
  - destruct (t !! (cur ++ [c])) as [[m k|m|m l]|] eqn:En.
    + case_decide as Hr; [|done]. subst rest. cbn. congruence.
    + apply IH.
    + by apply Ht in En.
    + case_decide as Hr; [|done]. subst rest. cbn. congruence.
Qed.

(** ** Containment *)

(** What the router accepts, by cases on the path. *)
Lemma validated_absolute p dirs r :
  Forall plain_dir dirs → is_absolute p = true → validate_path_multi p (path_string <$> dirs) = Ok r →
  lexical [] (components p) = Some (pb_names r) ∧ ∃ W, W ∈ dirs ∧ W `prefix_of` pb_names r.
Proof.
  intros Hd Hp. unfold validate_path_multi. rewrite Hp, resolve_absolute by done.
  destruct (lexical [] (components p)) as [names|]; [|done]. cbn [fmap option_fmap option_map ok_or mbind outcome_bind].
  intros Hw. assert (r = mkPathBuf true names ∧ ∃ W, W ∈ dirs ∧ W `prefix_of` names) as (-> & W & HW & Hpre).
  { induction Hd as [|W dirs HW Hd IH]; [done|]. cbn [fmap list_fmap within_roots] in Hw. rewrite resolve_dir in Hw by done.
    cbn [ok_or mbind outcome_bind] in Hw. destruct (path_starts_with _ _) eqn:Es.
    - injection Hw as <-. split; [done|]. exists W. split; [by left|]. by apply starts_with_spec in Es as [_ ?].
    - destruct (IH Hw) as (? & W' & ? & ?). split; [done|]. exists W'. split; [by right | done]. }
  split; [done | by exists W].
Qed.

Lemma validated_relative p W r :
  plain_dir W → is_absolute p = false → validate_path_multi p [path_string W] = Ok r →
  lexical [] (W ++ components p) = Some (pb_names r) ∧ W `prefix_of` pb_names r.
Proof.
  intros HW Hp. unfold validate_path_multi. rewrite Hp. cbn [relative_to_roots].
  rewrite resolve_absolute, components_join, resolve_dir by (done || by unfold join_relative; rewrite ends_with_slash_path).
  destruct (lexical [] (W ++ components p)) as [names|]; [|done]. cbn [fmap option_fmap option_map].
  destruct (path_starts_with _ _) eqn:Es; [|done]. intros [= <-]. apply starts_with_spec in Es as [_ ?]. done.
Qed.

(** C13. The tools stay inside the working directories: a path that the router
    accepts is used by the orchestrator for a target that is lexically below a
    working directory, the one it was validated against; when the host tree has
    no symbolic links, the file system agrees.  This holds for absolute paths and
    any number of directories, and for relative paths when there is one. *)
Theorem tool_target_contained (o : Orchestrator) (s : Session) (p : string) r :
  o_state o = Active s → Forall plain_dir (s_working_dirs s) →
  is_absolute p = true ∨ length (s_working_dirs s) = 1%nat →
  validate_path_multi p (path_string <$> s_working_dirs s) = Ok r →
  ∃ W target, resolve_target_path p o = (Ok target, o) ∧ W ∈ s_working_dirs s ∧
    lexical [] target = Some (pb_names r) ∧ W `prefix_of` pb_names r ∧
    (no_links (o_tree o) → ∀ (follow : bool) (q : path), resolve (o_tree o) follow target = Ok q → W `prefix_of` q).
Proof.
  intros Hs Hd Hcase Hv. unfold resolve_target_path. destruct (is_absolute p) eqn:Hp.
  - destruct (validated_absolute p _ r Hd Hp Hv) as (Hl & W & HW & Hpre). exists W, (components p).
    split_and!; [done..|]. intros Hn follow q Hq. unfold resolve in Hq. by rewrite (walk_lexical _ _ _ _ _ _ _ Hn Hq Hl).
  - destruct Hcase as [|Hlen]; [done|]. destruct (s_working_dirs s) as [|W [|]] eqn:Ew; [done| |done].
    apply Forall_cons_1 in Hd as [HW _]. destruct (validated_relative p W r HW Hp Hv) as [Hl Hpre].
    exists W, (W ++ components p). split_and!; [|by left|done|done|].
    + unfold primary_working_dir, active_session, mbind, stm_bind, gets. rewrite Hs. cbn. rewrite Ew. cbn.
      unfold path_join. by rewrite Hp.
    + intros Hn follow q Hq. unfold resolve in Hq. by rewrite (walk_lexical _ _ _ _ _ _ _ Hn Hq Hl).
Qed.

Lemma plain_dir_check W :
  bool_decide (W ≠ []) && forallb name_ok W = true → plain_dir W.
Proof.
  intros [Hne Hall]%andb_true_iff. apply bool_decide_eq_true in Hne. split; [done|].
  apply Forall_forall. intros c Hc. rewrite forallb_forall in Hall.
  destruct (name_ok_spec c) as (? & ? & ? & ? & _); [by apply Hall, list_elem_of_In | by split_and!].
Qed.

Lemma tool_target_contained_witness :
  ∃ W target, resolve_target_path "/v/./d/../b" orch0 = (Ok target, orch0) ∧ W ∈ [["w"]; ["v"]] ∧
    lexical [] target = Some ["v"; "b"] ∧ W `prefix_of` ["v"; "b"].
Proof.
  destruct (tool_target_contained orch0
    (mkSession [orch_interceptor plain_config ["w"]; orch_interceptor plain_config ["v"]] [["w"]; ["v"]] ["w"; "v"]
               [["u"; "0"]; ["u"; "1"]] "ephemeral" no_safeguards ∅ None None 1 1000000 false
               (Some (RecentBackendWrites_new 0)) false) "/v/./d/../b" (mkPathBuf true ["v"; "b"]))
    as (W & target & H1 & H2 & H3 & H4 & _).
  - reflexivity.
  - constructor; [by apply plain_dir_check | constructor; [by apply plain_dir_check | constructor]].
  - left. reflexivity.
  - by vm_compute.
  - exists W, target. split; [exact H1|]. split; [exact H2|]. split; [exact H3 | exact H4].
Defined.

(** ** Two working directories

    The router accepts a relative path that is inside any of the directories;
    the orchestrator takes it relative to the first.  With [/x/a] and [/y/b], the
    path [../b/f] is accepted for [/y/b] and written to [/x/b/f], which is in
    neither. *)

Definition two_dirs_tree : tree :=
  list_to_map ((λ p, (p, Dir (sample_meta 493))) <$> [[]; ["x"]; ["x"; "a"]; ["x"; "b"]; ["y"]; ["y"; "b"]]).

Definition two_dirs : Orchestrator :=
  mkOrchestrator
    (Active (mkSession [orch_interceptor plain_config ["x"; "a"]; orch_interceptor plain_config ["y"; "b"]]
               [["x"; "a"]; ["y"; "b"]] ["a"; "b"] [["u"; "0"]; ["u"; "1"]] "ephemeral" no_safeguards ∅ None None 1
               1000000 false (Some (RecentBackendWrites_new 0)) false))
    two_dirs_tree 0 (o_env orch0).

Definition two_dirs_router : McpRouter := with_working_dirs "/x/a" ["/x/a"; "/y/b"].

(** The arguments of the call, as parsed. *)
Definition escape_args : WriteFileArgs := mkWriteFileArgs "../b/f" [1; 2].

#[local] Instance no_messages : SerdeJson := {
  json_error := unit;
  json_error_display _ := "invalid";
  json_value := string;
  from_str_vm _ := inl ();
  from_str_host _ := inl ();
  from_str_value _ := inl ();
  value_get _ _ := None;
}.
#[local] Instance write_call : SerdeMcp := {
  mcp_value_from_str _ := inl "expected value";
  request_from_str _ := inl "missing field `jsonrpc`";
  from_tool_call_params arguments := inr (mkToolCallParams "write_file" arguments);
  from_bash_args _ := inl "missing field `command`";
  from_read_file_args _ := inl "missing field `path`";
  from_write_file_args _ := inr escape_args;
  from_edit_file_args _ := inl "missing field `path`";
  from_glob_args _ := inl "missing field `pattern`";
  from_grep_args _ := inl "missing field `pattern`";
  from_undo_args _ := inr (mkUndoArgs 1 false);
  from_get_undo_history_args _ := inr ();
  from_discard_undo_history_args _ := inr ();
  json_to_string _ := "value";
}.

(** No virtual machine, no search libraries, no commands. *)
Definition bare_outside : Outside :=
  mkOutside None (λ _, None) (λ _, None) None (λ _, None) (λ _ _, Err QemuUnavailable) (λ _ _, Err QemuUnavailable)
    (λ _, None) (λ _, Deny) (λ _, "error") (λ _, "error") (λ _, "kind") (λ _, inl "error").
Definition bare_search : SearchLib :=
  mkSearchLib (λ _ _, inr []) (λ _, inl "error") (λ _ _, inl "error") (λ _ _, []).

#[local] Instance two_dirs_handler : McpHandler Orchestrator :=
  McpHandler_Orchestrator sample_host no_fault bare_outside bare_search CommandClassifier_with_defaults
    (λ _ _ t, (Ok (mkShellOutput (Some 0) "" ""), t)) (λ _ _ o, (None, o)).

