(* ===== verification/SessionBash.v ===== *)
(** * A command in the virtual machine, from request to undo

    The Bash tool, the control channel, the file system backend, the event
    bridge and the undo interceptor together: the life of one command of a
    session. *)

From Stdlib Require Import Ascii.
From stdpp Require Import base gmap strings list fin_maps pretty relations.
From S2P Require Import Prelude HostFs HostFacts Common WriteInterceptor Safeguard UndoLog UndoInterceptor UndoHooks UndoEvict UndoFacts UndoCapture UndoSteps UndoCorrect UndoTheorems UndoLife StdioProtocol McpProtocol ControlProtocol ControlHandler ControlUndo CommandWaiter PathValidation RecentWrites Text Classifier Stdio Mcp P9Ops Orchestrator OrchestratorFacts OrchestratorTools SessionLife SearchTools SessionRequests.
#[local] Open Scope Z_scope.

(** ** The handler inside the session *)

(** What the control channel of a session looks like; [w] is the world of its
    first interceptor. *)
Definition vm_at (o : Orchestrator) (st : HandlerState) (n : Z) (ev : list HandlerEvent) (ts : list task)
    (w : world) : Prop :=
  ∃ s vm, o_state o = Active s ∧ s_vm s = Some vm ∧ world_of 0 o = Some w ∧
    hd_state (vp_handler vm) = st ∧ hd_in_flight (vp_handler vm) = n ∧
    hd_events (vp_handler vm) = ev ∧ hd_tasks (vp_handler vm) = ts.

Lemma on_handler_at {A} (m : stm (handler world) CodeAgentError A) (o : Orchestrator) st n ev ts (w : world)
    r st' n' ev' ts' (w' : world) now' :
  vm_at o st n ev ts w → m (mkHandler st w n (o_now o) ev ts) = (r, mkHandler st' w' n' now' ev' ts') →
  ∃ o', on_handler m o = (r, o') ∧ vm_at o' st' n' ev' ts' w' ∧ o_now o' = o_now o ∧ o_env o' = o_env o.
Proof.
  intros (s & vm & Hs & Hvm & Hw & <- & <- & <- & <-) Hm. unfold on_handler. rewrite Hs, Hw, Hvm, Hm.
  eexists. split; [done|]. split; [|done]. pose proof (world_of_put 0 o w w' Hw) as Hw'.
  eexists _, _. split_and!; [unfold put_world, on_session, set_otree; cbn; rewrite Hs; cbn; done | done | | done..].
  by apply world_of_on_session.
Qed.

Lemma bridge_at (o : Orchestrator) st n ev ts (w : world) :
  vm_at o st n ev ts w →
  vm_at (bridge_events o) st n [] ts w ∧ o_now (bridge_events o) = o_now o ∧
  e_waiter (o_env (bridge_events o)) = (run_event_bridge ev (e_waiter (o_env o))).1.
Proof.
  intros (s & vm & Hs & Hvm & Hw & <- & <- & <- & <-). unfold bridge_events. rewrite Hs, Hvm.
  destruct (run_event_bridge _ _) as [waiter events]. cbn. split; [|done].
  unfold on_env, on_session. rewrite Hs. cbn. eexists _, _. split_and!; [done | done | | done..].
  unfold world_of in *. cbn. by rewrite Hs in Hw.
Qed.

Lemma put_world_at (o : Orchestrator) st n ev ts (w w' : world) :
  vm_at o st n ev ts w →
  vm_at (put_world 0 w' o) st n ev ts w' ∧ o_now (put_world 0 w' o) = o_now o ∧ o_env (put_world 0 w' o) = o_env o.
Proof.
  intros (s & vm & Hs & Hvm & Hw & <- & <- & <- & <-). split; [|done].
  eexists _, vm. split_and!; [unfold put_world, on_session, set_otree; cbn; rewrite Hs; done | done | | done..].
  by apply world_of_put with w.
Qed.

(** The clock goes on. *)
Definition tick_to (now : Z) (o : Orchestrator) : Orchestrator :=
  mkOrchestrator (o_state o) (o_tree o) now (o_env o).

Lemma tick_at (o : Orchestrator) st n ev ts (w : world) now :
  vm_at o st n ev ts w → vm_at (tick_to now o) st n ev ts w.
Proof. intros (s & vm & ?). by exists s, vm. Qed.

Section command.
Context `{TP : ThirdParty} `{JL : JsonLen} `{SJ : SerdeJson} (h : host) (x : Outside).
#[local] Instance command_steps : StepManager world := StepManager_UndoInterceptor h no_fault.

(** ** The stages of a command *)

Definition idle_state (p : ControlChannelState) (ambient : StepId) : HandlerState :=
  mkHandlerState p ambient None false None.

Lemma send_exec_idle display id command env cwd p a (w : world) n now ev ts :
  send_exec display id command env cwd (mkHandler (idle_state p a) w n now ev ts)
  = (Ok (HostExec id command env cwd), mkHandler (idle_state (command_sent id command p) a) w n now ev ts).
Proof. done. Qed.

Definition started_state (p : ControlChannelState) (a : StepId) (id : Z) (command : string) : HandlerState :=
  mkHandlerState (mkChannel (delete id (pending p)) (<[id := mkActive id command false]> (active p))) a
    (Some (as_i64 id)) false None.

Lemma step_started_idle display id command p a (w w1 : world) n now ev ts :
  active p !! id = None → pending p !! id = Some (mkPending id command) →
  open_step h no_fault (as_i64 id) w = (Ok (), w1) →
  handle_vm_message display (VmStepStarted id) (mkHandler (idle_state p a) w n now ev ts)
  = (Ok (), mkHandler (started_state p a id command) (set_step_command command w1).2 n now
              (ev ++ [HeStepStarted (as_i64 id) command]) ts).
Proof.
  intros Ha Hp Ho. unfold handle_vm_message, process, mbind, stm_bind, gets. cbn [hd_state].
  unfold process_vm_message, handle_step_started. cbn [protocol idle_state]. rewrite Ha, Hp.
  unfold modify, on_step_started, close_ambient_step_if_open, take_ambient, mbind, stm_bind, gets, modify, mret, stm_ret.
  cbn -[open_step set_step_command]. unfold try, steps, zoom. cbn -[open_step set_step_command]. rewrite Ho. done.
Qed.

(** An output message adds an event and changes nothing else. *)
Definition output_event (p : ControlChannelState) (id : Z) (stream : OutputStream) (data : string) : HandlerEvent :=
  match active p !! id with
  | Some _ => HeOutput (as_i64 id) stream data
  | None => HeProtocolError (control_error_display (OutputForUnknownCommand id))
  end.

Lemma output_any display id stream data st (w : world) n now ev ts :
  handle_vm_message display (VmOutput id stream data) (mkHandler st w n now ev ts)
  = (Ok (), mkHandler st w n now (ev ++ [output_event (protocol st) id stream data]) ts).
Proof.
  unfold handle_vm_message, process, mbind, stm_bind, gets, output_event. cbn [hd_state process_vm_message].
  unfold handle_output. destruct st as [p a c q am]. cbn [protocol]. by destruct (active p !! id).
Qed.

Definition completing_state (st : HandlerState) (id : Z) : HandlerState :=
  mkHandlerState (mkChannel (pending (protocol st)) (delete id (active (protocol st)))) (next_ambient_id st) None true
    (ambient_step_id_ st).

Lemma step_completed_any display id code st command (w : world) n now ev ts :
  active (protocol st) !! id = Some (mkActive id command false) →
  handle_vm_message display (VmStepCompleted id code) (mkHandler st w n now ev ts)
  = (Ok (), mkHandler (completing_state st id) w n now ev (ts ++ [TQuiesce (as_i64 id) code false QStart])).
Proof.
  intros Ha. unfold handle_vm_message, process, mbind, stm_bind, gets. cbn [hd_state process_vm_message].
  unfold handle_step_completed. rewrite Ha. by destruct st.
Qed.

(** The quiescence task with nothing in flight: it sleeps, then closes the step. *)
Lemma quiesce_sleeps display id code st (w : world) now ev :
  resume_at display QuiescenceConfig_default 0 true
    (mkHandler st w 0 now ev [TQuiesce id code false QStart])
  = (Ok (), mkHandler st w 0 now ev
       [TQuiesce id code false (QIdle (now + 100000000) (now + 2000000000))]).
Proof.
  assert (quiesce_resume QuiescenceConfig_default QStart (mkHandler st w 0 now ev [TQuiesce id code false QStart])
    = (Ok (Some (QIdle (now + 100000000) (now + 2000000000))),
       mkHandler st w 0 now ev [TQuiesce id code false QStart])) as Hr.
  { assert (Z.max 0 (now + 2000000000 - now) = 2000000000) as Hd by lia.
    unfold quiesce_resume, quiesce_loop, quiesce_idle, mbind, stm_bind, gets.
    cbn -[Z.max Z.add Z.sub Z.min Z.eqb]. rewrite Hd. change (2000000000 =? 0) with false.
    unfold wait_for_drain. repeat (progress (rewrite ?Hd; cbn -[Z.max Z.add Z.sub Z.min])). done. }
  unfold resume_at, resume, mbind, stm_bind, get. cbn [hd_tasks lookup list_lookup ready].
  unfold mbind, stm_bind. by rewrite Hr.
Qed.

Lemma quiesce_wakes display id code st (w w3 : world) now until deadline ev evicted :
  until ≤ now → close_step no_fault id w = (Ok evicted, w3) →
  resume_at display QuiescenceConfig_default 0 true
    (mkHandler st w 0 now ev [TQuiesce id code false (QIdle until deadline)])
  = (Ok (), mkHandler (set_quiescence false st) w3 0 now (ev ++ [HeStepCompleted id code false evicted]) []).
Proof.
  intros Hu Hc. set (t := TQuiesce id code false (QIdle until deadline)).
  assert (quiesce_resume QuiescenceConfig_default (QIdle until deadline) (mkHandler st w 0 now ev [t])
    = (Ok None, mkHandler st w 0 now ev [t])) as Hr by done.
  assert (quiesce_close display id code false (mkHandler st w 0 now ev [t])
    = (Ok (), mkHandler (set_quiescence false st) w3 0 now (ev ++ [HeStepCompleted id code false evicted]) [t])) as Hq.
  { unfold quiesce_close, close_or_report, try, steps, zoom, mbind, stm_bind.
    cbn [hd_steps sm_close_step command_steps StepManager_UndoInterceptor]. by rewrite Hc. }
  unfold resume_at, resume, mbind, stm_bind, get. cbn [hd_tasks lookup list_lookup ready hd_now t].
  destruct (Z.leb_spec until now); [|lia]. unfold mbind, stm_bind. rewrite Hr. cbn [t]. by rewrite Hq.
Qed.
End command.

Lemma as_u64_as_i64 z : in_u64 z → as_u64 (as_i64 z) = z.
Proof.
  intros Hz. unfold as_u64, as_i64. rewrite Zminus_mod_idemp_l. replace (z + 2 ^ 63 - 2 ^ 63) with z by lia.
  by apply Z.mod_small.
Qed.

(** ** While the command runs *)

Section run.
Context `{TP : ThirdParty} `{JL : JsonLen} `{SJ : SerdeJson} (h : host) (x : Outside).
Context (W : path) (good : path → Prop) (S0 : tree).

(** What can happen between the start of a command and its end, with the
    output messages that arrive: the backend serves operations of the guest on
    the first directory, the bridge forwards events, time passes. *)
Inductive guest_run : list VmMessage → Orchestrator → Orchestrator → Prop :=
  | gr_done o : guest_run [] o o
  | gr_backend msgs (o : Orchestrator) (w w' : world) o' :
      world_of 0 o = Some w → backend_step W good S0 w w' → guest_run msgs (put_world 0 w' o) o' → guest_run msgs o o'
  | gr_bridge msgs o o' : guest_run msgs (bridge_events o) o' → guest_run msgs o o'
  | gr_tick msgs o now o' : o_now o ≤ now → guest_run msgs (tick_to now o) o' → guest_run msgs o o'
  | gr_output msgs line id stream data o o1 o' :
      in_u64 id → parse_vm_message line = Ok (VmOutput id stream data) →
      control_line h no_fault x line o = (Ok (), o1) → guest_run msgs o1 o' →
      guest_run (VmOutput id stream data :: msgs) o o'.

(** The events of the messages, and what a command has written. *)
Definition message_event (p : ControlChannelState) (msg : VmMessage) : option HandlerEvent :=
  match msg with VmOutput id stream data => Some (output_event p id stream data) | _ => None end.

Definition said (id : Z) (stream : OutputStream) (msgs : list VmMessage) : string :=
  foldr (λ msg s, match msg with
                  | VmOutput id' stream' data =>
                      if (id' =? id) && bool_decide (stream' = stream) then data +:+ s else s
                  | _ => s
                  end) EmptyString msgs.

Lemma guest_run_inv msgs (o o' : Orchestrator) st ev (w : world) id r :
  guest_run msgs o o' → vm_at o st 0 ev [] w → e_waiter (o_env o) !! id = Some r →
  ∃ w' ev' r', vm_at o' st 0 ev' [] w' ∧ rtc (backend_step W good S0) w w' ∧
    e_waiter (o_env o') !! id = Some r' ∧
    collected id r' ev' = collected id r (ev ++ omap (message_event (protocol st)) msgs).
Proof.
  intros Hrun. revert ev w r. induction Hrun as [o|msgs o w1 w2 o' Hw Hb _ IH|msgs o o' _ IH|msgs o now o' _ _ IH
    |msgs line id' stream data o o1 o' Hid Hp Hl _ IH]; intros ev w r Hat Hr.
  - exists w, ev, r. split_and!; [done | done | done |]. cbn. by rewrite app_nil_r.
  - pose proof Hat as (s & vm & _ & _ & Hw' & _). rewrite Hw in Hw'. injection Hw' as ->.
    destruct (put_world_at o st 0 ev [] w w2 Hat) as (Hat' & _ & He).
    destruct (IH ev w2 r Hat') as (w' & ev' & r' & H1 & H2 & H3 & H4); [by rewrite He|].
    exists w', ev', r'. split_and!; [done | by eapply rtc_l | done | done].
  - destruct (bridge_at o st 0 ev [] w Hat) as (Hat' & _ & He).
    destruct (IH [] w (collected id r ev) Hat') as (w' & ev' & r' & H1 & H2 & H3 & H4).
    { rewrite He. by apply bridge_collected. }
    exists w', ev', r'. split_and!; [done..|]. rewrite H4. by rewrite <- collected_app.
  - apply (IH ev w r); [by apply tick_at | done].
  - unfold control_line in Hl. rewrite Hp in Hl.
    destruct (on_handler_at (handle_vm_message (x_display_undo x) (VmOutput id' stream data)) o st 0 ev [] w _ _ _ _ _ _ _ Hat
      (output_any h (x_display_undo x) id' stream data st w 0 (o_now o) ev [])) as (o2 & Ho2 & Hat' & _ & He).
    pose proof (eq_trans (eq_sym Hl) Ho2) as [= <-].
    destruct (IH _ w r Hat') as (w' & ev' & r' & H1 & H2 & H3 & H4); [by rewrite He|].
    exists w', ev', r'. split_and!; [done..|]. rewrite H4. cbn. by rewrite <- app_assoc.
Qed.

Lemma guest_run_ids msgs o o' :
  guest_run msgs o o' → Forall (λ m, match m with VmOutput id _ _ => in_u64 id | _ => True end) msgs.
Proof. induction 1; try done. by constructor. Qed.

(** The events carry what the messages say. *)
Lemma said_output p id a stream msgs :
  in_u64 id → active p !! id = Some a →
  Forall (λ m, match m with VmOutput id _ _ => in_u64 id | _ => True end) msgs →
  output id stream (omap (message_event p) msgs) = said id stream msgs ∧
  omap (completion_of id) (omap (message_event p) msgs) = [].
Proof.
  intros Hid Ha Hall. induction Hall as [|m msgs Hm _ [IH1 IH2]]; [done|].
  destruct m as [id'|id' stream' data|id' code]; [done| |done].
  cbn [omap list_omap message_event]. unfold output_event.
  destruct (decide (id' = id)) as [->|Hne].
  - rewrite Ha. unfold output. cbn. rewrite as_u64_as_i64, Z.eqb_refl by done. cbn. split; [|done].
    fold (output id stream (omap (message_event p) msgs)). rewrite IH1. by case_bool_decide.
  - assert ((id' =? id) = false) as Hf by by apply Z.eqb_neq.
    unfold said. cbn [foldr]. fold (said id stream msgs). rewrite Hf. cbn [andb].
    destruct (active p !! id'); unfold output; cbn; [rewrite as_u64_as_i64, Hf by done|];
      (split; [exact IH1 | exact IH2]).
Qed.
End run.

Section bash.
Context `{TP : ThirdParty} `{!ThirdPartyLaws TP} `{JL : JsonLen} `{!JsonLenLaws JL} `{SJ : SerdeJson}.
Context (W : path) (good : path → Prop) (h : host) (x : Outside) (cc : CommandClassifier).
Context (shell : string → path → tree → outcome io_error ShellOutput * tree).

Lemma with_error_inv {E F A} (f : E → F) (m : stm Orchestrator E A) (o o' : Orchestrator) a :
  with_error f m o = (Ok a, o') → m o = (Ok a, o').
Proof. unfold with_error. destruct (m o) as [[] o1]; by intros [= <- <-] || by intros [=]. Qed.
Lemma with_cause_inv {E A} (f : E → error_text) (m : stm Orchestrator E A) (o o' : Orchestrator) a :
  with_cause f m o = (Ok a, o') → m o = (Ok a, o').
Proof. unfold with_cause. destruct (m o) as [[] o1]; by intros [= <- <-] || by intros [=]. Qed.

Lemma send_line_at {E} (closed : E) line (o o' : Orchestrator) st n ev ts (w : world) :
  vm_at o st n ev ts w → send_line closed line o = (Ok (), o') → vm_at o' st n ev ts w ∧ o_env o' = o_env o.
Proof.
  intros (s & vm & Hs & Hvm & Hw & <- & <- & <- & <-). unfold send_line. rewrite Hs, Hvm.
  destruct (vp_writer_open vm); [|done]. intros [= <-]. split; [|done]. unfold on_session. rewrite Hs. cbn.
  eexists _, _. split_and!; [done | done | | done..]. unfold world_of in *. cbn. by rewrite Hs in Hw.
Qed.

(** A command that has been sent is registered and expected. *)
Lemma bash_started args (o o1 : Orchestrator) id class p a (w0 : world) :
  vm_at o (idle_state p a) 0 [] [] w0 → bash_start h no_fault x cc shell args o = (Ok (inr (id, class)), o1) →
  ∃ command, vm_at o1 (idle_state (command_sent id command p) a) 0 [] [] w0 ∧
             e_waiter (o_env o1) !! id = Some CommandResult_default.
Proof.
  intros Hat Hb. unfold bash_start in Hb.
  apply stm_bind_inv in Hb as ([] & oa & Ha & Hb).
  assert (oa = o) as ->.
  { apply with_error_inv in Ha. unfold require_active, active_session, mbind, stm_bind, gets in Ha.
    destruct (o_state o); cbn in Ha; by injection Ha. }
  destruct (sanitize _); [|done].
  apply stm_bind_inv in Hb as (c & ob & Hc & Hb). apply lift_inv in Hc as [_ ->].
  pose proof Hat as (s & vm & Hs & Hvm & _).
  apply stm_bind_inv in Hb as (s' & ob & Hss & Hb). apply with_error_inv in Hss.
  unfold active_session, mbind, stm_bind, gets in Hss. rewrite Hs in Hss. cbn in Hss. injection Hss as <- <-.
  apply stm_bind_inv in Hb as (id' & ob & Hid & Hb). apply with_error_inv in Hid. injection Hid as <- <-.
  apply stm_bind_inv in Hb as (cwd & oc & Hcwd & Hb). apply with_error_inv in Hcwd.
  unfold default_cwd in Hcwd. apply stm_bind_inv in Hcwd as (name & od & Hn & [= <- <-]). apply lift_inv in Hn as [_ ->].
  rewrite Hvm in Hb. apply stm_bind_inv in Hb as ([] & od & [= <-] & Hb).
  set (o2 := on_env _ _) in Hb.
  assert (vm_at o2 (idle_state p a) 0 [] [] w0 ∧ e_waiter (o_env o2) !! s_next_command_id s = Some CommandResult_default)
    as [Hat2 Hreg].
  { destruct Hat as (s' & vm' & Hs' & Hvm' & Hw & H1 & H2 & H3 & H4). rewrite Hs in Hs'. injection Hs' as <-.
    split; [|apply lookup_insert_eq]. unfold o2, on_env, on_session. cbn. rewrite Hs. cbn.
    eexists _, vm'. split_and!; [done | done | | done..]. unfold world_of in *. cbn. by rewrite Hs in Hw. }
  apply stm_bind_inv in Hb as (msg & oe & Hmsg & Hb). apply with_cause_inv in Hmsg.
  destruct (on_handler_at _ _ _ _ _ _ _ _ _ _ _ _ _ _ Hat2
    (send_exec_idle h (x_display_undo x) (s_next_command_id s) (strip_cwd_prefix (ba_command args) ("/mnt/working/" +:+ name)) None (Some ("/mnt/working/" +:+ name))
       p a w0 0 (o_now o2) [] [])) as (o3 & Ho3 & Hat3 & _ & He3).
  pose proof (eq_trans (eq_sym Hmsg) Ho3) as [= -> ->].
  apply stm_bind_inv in Hb as (line & og & Hline & Hb). apply lift_inv in Hline as [_ ->].
  apply stm_bind_inv in Hb as ([] & oh & Hsend & [= <- _ <-]).
  destruct (send_line_at _ _ _ _ _ _ _ _ _ Hat3 Hsend) as [Hat4 He4].
  eexists. split; [exact Hat4|]. by rewrite He4, He3.
Qed.

(** The answer, from the events the waiter has seen. *)
Lemma answered id class r ev code evicted (waiter : CommandWaiter) out err :
  in_u64 id → waiter !! id = Some r →
  cr_stdout (collected id r ev) = out → cr_stderr (collected id r ev) = err →
  let waiter' := (run_event_bridge (ev ++ [HeStepCompleted (as_i64 id) code false evicted]) waiter).1 in
  ∃ result, wait_round id false waiter' = (Some (Some result), delete id waiter') ∧
    bash_answer id class (Some result)
    = Ok (JObject [("command_id", JNumber id); ("exit_code", JNumber code);
                   ("output", JString (combined_output out err)); ("classification", JString class)]).
Proof.
  intros Hid Hr Hout Herr waiter'.
  assert (waiter' !! id = Some (collected id r (ev ++ [HeStepCompleted (as_i64 id) code false evicted]))) as Hw
    by by apply bridge_collected.
  rewrite collected_app in Hw. remember (collected id r ev) as r1 eqn:E1.
  assert (collected id r1 [HeStepCompleted (as_i64 id) code false evicted]
    = mkCommandResult (cr_stdout r1) (cr_stderr r1) (Some code) true) as He.
  { unfold collected, output. cbn. rewrite as_u64_as_i64, Z.eqb_refl by done. cbn.
    by rewrite !str_app_nil_r, orb_true_r. }
  rewrite He in Hw. eexists. unfold wait_round. rewrite Hw. cbn. split; [done|]. by rewrite Hout, Herr.
Qed.

Lemma mcp_undo_at h' (o : Orchestrator) (w w' : world) res :
  world_of 0 o = Some w → rollback h' no_fault 1 true w = (Ok res, w') →
  ∃ o', mcp_undo h' no_fault 1 true o = (Ok res, o') ∧ o_tree o' = w_tree w'.
Proof.
  intros Hw Hr. unfold mcp_undo.
  assert (with_cause FromAgent (resolve_interceptor None) o = (Ok 0%nat, o)) as Hi.
  { apply with_cause_ok. unfold resolve_interceptor, active_session, mbind, stm_bind, gets.
    unfold world_of in Hw. destruct (o_state o) as [|s]; [done|]. cbn.
    by destruct (s_interceptors s) as [|i l]. }
  rewrite (stm_bind_ok _ _ _ _ _ Hi).
  assert (wp 0 (undo_on h' no_fault 0 1 true) w (λ r w1, r = Ok res ∧ w1 = w')) as Hwp.
  { apply wp_suppressed, wp_interceptor. by rewrite Hr. }
  destruct (Hwp o Hw) as (w1 & Hw1 & Hres & ->). destruct (undo_on h' no_fault 0 1 true o) as [r o'].
  cbn in *. subst r. exists o'. split; [done|]. by apply world_of_tree in Hw1.
Qed.

(** The command has completed in the guest: the step is closed after the quiet
    time, and the waiter and the history have it. *)
Lemma command_finishes (o : Orchestrator) st ev (w2 : world) id command code line r :
  vm_at o st 0 ev [] w2 → active (protocol st) !! id = Some (mkActive id command false) → in_u64 id →
  parse_vm_message line = Ok (VmStepCompleted id code) → e_waiter (o_env o) !! id = Some r →
  ∀ evicted w3, close_step no_fault (as_i64 id) w2 = (Ok evicted, w3) →
  ∃ o1 o2, control_line h no_fault x line o = (Ok (), o1) ∧ run_task h no_fault x 0 true o1 = (Ok (), o2) ∧
    ∀ now, o_now o + 100000000 ≤ now →
    ∃ o3, run_task h no_fault x 0 true (tick_to now o2) = (Ok (), o3) ∧ world_of 0 (bridge_events o3) = Some w3 ∧
      e_waiter (o_env (bridge_events o3))
      = (run_event_bridge (ev ++ [HeStepCompleted (as_i64 id) code false evicted]) (e_waiter (o_env o))).1.
Proof.
  intros Hat Ha Hid Hp Hr evicted w3 Hclose.
  destruct (on_handler_at _ _ _ _ _ _ _ _ _ _ _ _ _ _ Hat
    (step_completed_any h (x_display_undo x) id code st command w2 0 (o_now o) ev [] Ha)) as (o1 & Ho1 & Hat1 & Hn1 & He1).
  destruct (on_handler_at _ _ _ _ _ _ _ _ _ _ _ _ _ _ Hat1
    (quiesce_sleeps h (x_display_undo x) (as_i64 id) code _ w2 (o_now o1) ev)) as (o2 & Ho2 & Hat2 & Hn2 & He2).
  exists o1, o2. split; [unfold control_line; rewrite Hp; exact Ho1|]. split; [exact Ho2|]. intros now Hnow.
  apply (tick_at _ _ _ _ _ _ now) in Hat2.
  destruct (on_handler_at _ _ _ _ _ _ _ _ _ _ _ _ _ _ Hat2
    (quiesce_wakes h (x_display_undo x) (as_i64 id) code _ w2 w3 now (o_now o1 + 100000000) (o_now o1 + 2000000000) ev evicted
       ltac:(lia) Hclose)) as (o3 & Ho3 & Hat3 & _ & He3).
  exists o3. split; [exact Ho3|]. destruct (bridge_at o3 _ _ _ _ _ Hat3) as ((s & vm & _ & _ & Hw & _) & _ & Hw3).
  split; [done|]. rewrite Hw3, He3. cbn. by rewrite He2, He1.
Qed.
End bash.


(** ** A run *)

#[local] Instance sample_messages : SerdeJson := {
  json_error := unit;
  json_error_display _ := "invalid";
  json_value := string;
  from_str_vm line :=
    if decide (line = "started") then inr (VmStepStarted 1)
    else if decide (line = "output") then inr (VmOutput 1 Stdout "hi")
    else if decide (line = "completed") then inr (VmStepCompleted 1 0)
    else inl ();
  from_str_host _ := inl ();
  from_str_value _ := inl ();
  value_get _ _ := None;
}.

Definition sample_outside : Outside :=
  mkOutside None (λ _, None) (λ _, None) None (λ _, None) (λ _ _, Ok ()) (λ _ _, Ok None)
    (λ _, None) (λ _, Deny) (λ _, "error") (λ _, "error") (λ _, "kind") (λ _, inr "exec").
Definition no_shell (command : string) (dir : path) (t : tree) : outcome io_error ShellOutput * tree :=
  (Ok (mkShellOutput (Some 0) "" ""), t).

Definition vm_parts : VmSessionParts :=
  mkVmParts None [] true (ControlChannelHandler_new () 0 0) ["u"; ".sockets"].
Definition vm_o0 : Orchestrator := on_session (set_vm (Some vm_parts)) orch0.
Definition vm_args : BashArgs := mkBashArgs "make" None None.
Definition vm_o1 : Orchestrator :=
  (bash_start sample_host no_fault sample_outside CommandClassifier_with_defaults no_shell vm_args vm_o0).2.
Definition vm_o2 : Orchestrator := (control_line sample_host no_fault sample_outside "started" vm_o1).2.
Definition vm_o2' : Orchestrator := (control_line sample_host no_fault sample_outside "output" vm_o2).2.
Definition vm_w2 : world := default sample_w0 (world_of 0 vm_o2').
Definition vm_w3 : world := write_a vm_w2.
Definition vm_o3 : Orchestrator := put_world 0 vm_w3 vm_o2'.

Lemma vm_backend : backend_step ["w"] clean orch_tree vm_w2 vm_w3.
Proof.
  unfold vm_w3, write_a. eapply (bs_update _ _ _ HWrite sample_host ["a"]);
    [exact sample_host_wf | by apply clean_check | apply exec_ok; by vm_compute | by vm_compute | done | done |].
  split; simpl; lia.
Qed.

Lemma run_pair {S E A} (m : stm S E A) (s : S) r : (m s).1 = r → m s = (r, (m s).2).
Proof. intros <-. by destruct (m s). Qed.

Lemma vm_start_ok : start_ok ["w"] clean (orch_world 0).
Proof.
  destruct (orch_routed "/w/a" 0 ["w"] ["a"]) as [_ Hs _ _ _ _ _];
    [by vm_compute | lia | by vm_compute | by vm_compute | by vm_compute | by vm_compute | exact Hs].
Qed.

Lemma vm_run : guest_run sample_host sample_outside ["w"] clean orch_tree [VmOutput 1 Stdout "hi"] vm_o2 vm_o3.
Proof.
  apply (gr_output _ _ _ _ _ [] "output" 1 Stdout "hi" vm_o2 vm_o2' vm_o3).
  - apply (bool_decide_unpack _). by vm_compute.
  - by vm_compute.
  - unfold vm_o2'. apply run_pair. by vm_compute.
  - apply (gr_backend _ _ _ _ _ [] vm_o2' vm_w2 vm_w3 vm_o3); [by vm_compute | apply vm_backend | apply gr_done].
Qed.

